(* ===== verification/_CoqProject ===== *)
-Q . S2P
Prelude.v
Attribute.v
AttributeFacts.v
Convergence.v
Paths.v
Acl.v
Latest.v
Tags.v
Rejections.v
Tier.v
Activity.v
Namespace.v
Racing.v
Disk.v
Replicas.v
Database.v
Persistence.v
Contents.v
Refine.v
Consensus.v
Eviction.v
Service.v
Accounted.v
System.v
Listing.v
Maintenance.v
Text.v
DnsName.v
Peers.v
Config.v
ConfigFacts.v
Starting.v
Restart.v
Forward.v
Stix.v
StixFacts.v
Ingestion.v
StixImport.v
IngestFacts.v
StixImportFacts.v
ForwardFacts.v
CatchUp.v
CatchUpFacts.v
Reconcile.v
Frame.v
Handlers.v
Mirrors.v
HandlerFacts.v
Cascade.v
Exporting.v
ExportFacts.v
Grants.v
Admin.v
AdminData.v
AdminFacts.v
AdminReach.v
Info.v
Routing.v
RoutingFacts.v
Startup.v
Installing.v
InstallFacts.v
SetupConfig.v
SetupFacts.v
Erasing.v
EraseFacts.v
Running.v
DnsAnswer.v
DnsServer.v
Losses.v
