(* ===== verification/Prelude.v ===== *)
(** * SightingDB, verified

    SightingDB ([src/]) counts how often, and where, values such as addresses
    and hashes have been seen.  A value lives in a namespace, a path such as
    [feeds/misp/ips]; the server keeps for each value its counts per server,
    its window, hourly statistics, tags and a time to live, and for all values
    together a consensus: how many namespaces hold each one.  Namespaces are
    grouped by first path segment into shards, the unit that is saved to one
    file, dropped from memory when idle and paged in again on use.  Servers of a
    galaxy exchange copies of values and merge them.

    ** The parts, and where they are

    The files come in dependency order; each opens with what it models.

    - [Prelude] (this file): strings as code points and the string functions
      the source uses, machine integers with their wrap-around and saturation,
      clock arithmetic ([Chrono]: which instants [chrono] can represent), the
      iteration order of hash maps ([HashOrder]: any order that lists every
      key once), ordered-map iteration, sorting, the [sdb] hint database and
      the tactics and lemmas the other files share.
    - [Attribute], [AttributeFacts], [Convergence]: [src/src/attribute.rs].
      [Attribute] has the record and its operations ([increment], [decrement],
      [migrate], [add_tags], [set_tags], [attr_merge], [is_expired], [view]);
      [AttributeFacts] what each of them does, retention and expiry;
      [Convergence] that merging is idempotent, independent of order, never
      lowers a count or touches the receiver's own entries, and that two
      servers that exchange copies agree.
    - [Paths]: the reading of names as paths, shards and their file names
      ([shard_of], [shard_file] of [src/src/persistence.rs]), internal names
      and [StoragePolicy] of [src/src/db.rs].
    - [Acl]: [src/src/acl.rs], grants, keys and the decisions made from them.
    - [Latest]: [src/src/latest.rs], the two maps behind the list of recent
      writes, which refine a bounded move-to-front list.
    - [Tier]: [src/src/tier.rs], how long an idle shard stays in memory, and
      the tiers file.
    - [Activity]: [src/src/activity.rs], reads and writes per hour and day.
    - [Namespace]: [struct Namespace] of [src/src/db.rs] with all its
      operations, each atomic; [Racing] splits [record] at its locks and runs
      any number of writers and removals as a step relation.
    - [Disk], [Persistence]: [src/src/persistence.rs] and the eviction half of
      [src/src/db.rs].  A directory is a map from file names to decoded files,
      and a parameter says which writes fail.
    - [Database]: [struct Database] of [src/src/db.rs], its catalogue, dirty
      set, paging, and every operation that changes stored data.
    - [Service]: [src/src/sighting_reader.rs], [src/src/sighting_writer.rs],
      [src/src/error.rs], what a client can do and the answers it gets.
    - [Listing]: the listings of [Database]: pages of namespaces and values, the
      namespace tree, and the search for everywhere a value was seen.
    - [Tags], [Rejections]: [src/src/tags.rs], how tags are shown, and
      [src/src/rejections.rs], the record of values turned away.
    - [DnsName], [DnsAnswer], [DnsServer]: [src/src/dns/name.rs],
      [src/src/dns/answer.rs] and [src/src/dns/server.rs], from the bytes that
      arrive to the bytes that go out; the wire format is the class [Wire].
    - [Maintenance]: [src/src/maintenance.rs], the stop flag and the workers
      that wait on it, as a step relation, and the sliced [nap] of
      [src/src/galaxy.rs].
    - [Text]: numbers, headers and query strings as text.
    - [Peers]: the galaxy section of [src/src/config.rs] and the peers of
      [src/src/galaxy.rs], their health and the choice of a mirror.
    - [Config]: the rest of [src/src/config.rs], from a parsed file to the
      settings of a server, over the files it names ([ConfigFiles]).
    - [Starting]: the parts of [run] of [src/src/main.rs] that open the
      database, the workers' tasks and the save on the way out.
    - [Startup]: the keys a server starts with, and the ACL file that the
      management interface leaves for the next start.
    - [Stix], [Exporting]: [src/src/stix.rs], bundles of indicators, sightings
      and what they refer to, and the handlers of [src/src/handlers.rs] that
      export a value, a namespace or several.
    - [Ingestion], [StixImport]: [src/src/ingest/], the messages of a MISP
      publisher and STIX bundles read into sightings, their tags, digests and
      windows, and how a sighting is written; [import_stix] of
      [src/src/main.rs].
    - [Installing], [Erasing]: [src/src/setup.rs].  The first has the questions,
      the plan, the configuration and the unit written from it and [apply], in a
      monad over a file system in which any operation may fail; the second the
      inventory of an installation, the service manager's commands, erasing, and
      [run].
    - [Forward], [CatchUp]: what [src/src/galaxy.rs] sends: reads, writes,
      batches, pushes, gossip and health probes; pulling namespaces from peers
      and rebuilding the tally.  The network is the class [Network], which
      answers a request and moves the world on; [Serde] is [serde_json].
    - [Handlers]: [src/src/handlers.rs], one definition per route in a state
      monad over the network and [SharedState], with the ACL, the decision to
      forward and the answers.
    - [Admin], [AdminData]: [src/src/admin/mod.rs], keys and peers in the
      first, data, tags and tiers in the second, over a [FileSystem], and the
      rounds of gossip of [src/src/galaxy.rs].
    - [Info], [Routing]: what the server says of itself (the pages, the
      configuration view of [server_info], the view of the galaxy, a fresh key,
      the certificate's expiry of [src/src/tls.rs]), and the service as one
      function, [serve]: the route tables of [src/src/handlers.rs] and
      [src/src/admin/mod.rs] in the order [src/src/main.rs] configures them,
      what is read of a request ([Extractors], [actix-web]'s part) and the
      handler it reaches.
    - [Running]: the rest of [src/src/main.rs] and [src/src/daemon.rs], from the
      command line to the state a server starts with, and the loops of the four
      tasks of [src/src/galaxy.rs].

    The remaining files are specifications and proofs over these:

    - [Contents]: the abstract contents of a database, one finite map from
      namespace to values (to the second, which is what is stored), read from
      memory where a shard is resident and from its file where it is not.
      [implements] ties a database and a disk to it.
    - [Refine]: abstract operations on those contents ([a_record], [a_write],
      [a_merge], [a_release], [a_sweep]) and the simulation lemmas.
    - [Consensus]: [consensus_ok], that [_all] counts namespaces, and its
      preservation by the abstract operations.
    - [Eviction], [Accounted]: that what memory and disk disagree on is marked
      dirty, or in a set of shards at risk, and that the eviction of any other
      shard is therefore invisible.
    - [System]: the running server as a step relation over database and
      directory; invariants by induction over any number of steps.  Saves may
      fail at any file; beside the state a run keeps the set of shards that
      this, or a merge without effect, has put at risk ([Tracked]), and an
      eviction of an unmarked one of those is not a step.
    - [Restart]: what the directory holds at any time, and that a server
      started on it is the server it was.
    - [ForwardFacts], [CatchUpFacts], [Reconcile], [HandlerFacts]: what the
      operations of [Forward], [CatchUp] and [Handlers] do, over the same
      abstract contents.
    - [Cascade]: servers that pass requests on to each other, as chains.
    - [Replicas], [Mirrors]: a copy of a value as a summary of the sightings it
      has counted, and several servers that sight and pull from each other, the
      network of each being the handlers of the others.
    - [Frame]: that no operation changes how a database is set up, and that
      those which only read change nothing of its contents ([unnoticed]).
    - [Grants], [AdminReach], [RoutingFacts]: a small logic of what a handler
      may change ([stays]), what the keys of the ACL confine a request to, and
      the same for any request at all.
    - [AdminFacts]: key changes as decisions and commits that interleave.
    - [ConfigFacts], [StixFacts], [ExportFacts], [IngestFacts],
      [StixImportFacts]: what the files they are named after do.
    - [SetupConfig]: what a configuration file written by setting up means as
      TOML, and a reader of that part of TOML; [InstallFacts], [SetupFacts],
      [EraseFacts]: what setting up and erasing do to a file system.
    - [Losses]: why the assumptions of [System] are there: what a failed save,
      a write in the middle of an eviction, a file that cannot be removed, or a
      start from an older version's snapshot can lose.

    ** What the theorems show

    - Replication: [galaxy_converges] takes sightings and pulls in any order,
      with every page delivered, and says that the servers come to agree on
      exactly what was sighted; for one value, [exchange_converges], [merge_order_independent],
      [merge_idempotent], [merge_authority].
    - The whole server: [consensus_exact] and [unsaved_is_dirty] hold after
      any sequence of steps, failing saves included, that evicts no unmarked
      shard at risk; [client_write_exact] and [client_read_exact] are
      functional refinements of the abstract contents, refusals included;
      [evict_invisible] says memory management changes no answer, on the same
      condition.
      [restart_exact] and [crash_recovers] extend this over restarts, orderly
      and not.
    - Concurrency: [new_reported_once] and [no_lost_sighting] hold for every
      interleaving of the locked sections of [record].
    - What is shown: [listing_exact], [tree_exact], [values_exact] and
      [sightings_complete] say that listings are exact over the same abstract
      contents, the last although the search stops early, which is sound
      because consensus is exact; [dns_answer_exact] says the same of DNS, with
      [rate_limit_exact] and [dns_replies_bounded] on how much one address may
      ask and be sent, the latter for every interleaving of the listeners'
      clock readings and countings.
    - Who may do what: [service_confined] says that any request, on any path,
      changes only namespaces its key may write, whatever the peers answer, and
      [settings_gated] that without an administrator's key it changes no
      setting ([grants_confine] and [admin_confined] are the two interfaces by
      themselves); [routes_unordered] that the order of the routes decides
      nothing but the last page; [refused_untouched] that a refusal changes
      nothing.  [never_locked_out] and [acl_file_current] are about the keys
      themselves, [key_travels] about the keys sent to peers.
    - The galaxy: [galaxy_stays_ok] is the invariant of the peers;
      [reader_exact] and [reader_sticky] the choice of a mirror;
      [forward_write_exact] and [only_enabled_contacted] what is sent to whom;
      [forwarding_ends] and [origin_kept] what a chain of servers does;
      [pull_exact], [catch_up_bounded], [reconcile_exact] what catching up and
      reconciling leave behind, the first for any peer, whatever it answers and
      wherever it stops answering.
    - Batches: [bulk_write_exact], [dry_run_agrees].
    - Starting and stopping: [detach_once]; [worker_stops],
      [nap_ends_promptly], [tasks_end].  [worker_stops] is over every
      interleaving of a worker's checks, waits and tasks with calls of [stop],
      whose raising of the flag and notifying are separate steps.
    - Configuration: [settings_sound], what any accepted file gives, with
      [slashed_internal_accepted], what it does not keep out;
      [startup_keys] and [acl_survives_restart], the keys from one start to the
      next.
    - Export: [bundle_well_formed], [gathered_bundle_same], [export_exact],
      [export_confined].
    - Ingestion: [sighting_recorded], [feed_confined],
      [digest_reveals_nothing], [marking_inherited], and [export_imports_back],
      which ties import to export.
    - Installation: [setup_usable] goes from the answers to a server that
      starts, through the text of the configuration; [setup_asks_first],
      [erase_confined] and [erase_complete] say what is replaced and removed,
      whatever fails.
    - Where the code falls short of what it says:
      [forwarded_batch_ignores_acl], [concurrent_revocation_lost],
      [replace_keys_locks_caller_out], [unset_tier_pins_peers],
      [rejections_page_short], [reconcile_first_mirror_only],
      [export_forwarded_forever], [shared_indicator_misattributed],
      [restart_unloads], [restart_shortens_latest],
      [limiter_window_set_back], [unreachable_counts_as_caught_up],
      [single_sighting_loses_window], [digest_family_case] and [Losses], which
      has [failed_save_loses_marks], [evict_race_loses],
      [unremoved_file_comes_back], [legacy_start_loses] and
      [second_copy_erases].
    - Components: functional behaviour, bounds, round trips and errors of
      attributes, namespaces, files, paths, the ACL, tiers, tags, activity and
      the latest writes.

    ** Modelling choices

    - A [u64] is a [Z] below [2^64]; additions wrap as a release build's do,
      [saturating_*] saturate, [as i64] reinterprets.  Instants are
      nanoseconds; what [serde] stores keeps seconds.
    - Hash maps are finite maps; where the code iterates one, the order is
      [HashOrder]'s, so a theorem holds for every order.
    - [Arc<Namespace>] is the name it is filed under; the handles others hold
      while an eviction or a sweep looks at reference counts are the argument
      [held].  Poisoned locks are taken over, as the code does.
    - The SHA-256 prefix in a shard's file name is the parameter [digest32]; a
      theorem that needs different shards to have different files says so for
      the shards in play, since a truncated digest cannot promise it for all.
    - [consensus_exact] bounds a run by [2 * k < 2^64] for [k] steps, so
      that no tally wraps; each step adds at most two namespaces.  Loops are
      structural over the collections they walk; the two that are not
      ([chunks] of a TXT record, [hex] of a sixteen-bit group) take as fuel the
      number of characters and of digits, which [chunks_spec] shows is enough.
      The loops that ask a peer for pages take a number of rounds: [pull_exact]
      and [pull_ends] show that one more than the largest total the peer claims
      is enough whatever it answers, [reconcile_exact] and [galaxy_converges]
      that one for every five hundred values is when the pages come.
      [nap] has one round per slice of its period; a task of the galaxy takes a
      number of turns, and [tasks_end] says how many are enough.  [full] and [up_to] go up a
      path and take its length.
    - [Io] counts the operations that can fail, and [Faults] says which do and
      what a failed write leaves, so that a theorem about [apply] or [erase]
      holds for every way of failing.
    - [System] steps are whole operations, one at a time; [Racing],
      [Maintenance], [DnsServer] and [AdminFacts] have the interleavings within
      an operation.  Retagging, reconciling, tallies sent by peers and the
      deletion of [_all] itself are operations of the model but not steps of
      [System]: what they do to consensus is theirs to say.

    ** Not modelled

    The texts that are only printed (the interface's page, what setting up
    describes); the HTTP client and server themselves, with the reading of a
    path, a query string or a body, the sockets of [src/src/dns/server.rs] and of
    the MISP subscriber, signals, the starting of threads and logging; JSON,
    TOML, zstd, base32, the DNS wire format, regular expressions, UUIDs, SHA-256
    and certificates, which are libraries'.  Where the code relies on what such
    a library does, that is a class of parameters ([Serde], [ConfigFiles],
    [DocParser], [Chrono] and the like) with its laws as a class beside it. *)

From stdpp Require Import base numbers list strings gmap sorting.
From Stdlib Require Import Ascii.

(** ** Strings

    A Rust [str] is a sequence of Unicode scalar values; it is modelled as the
    list of its code points.  Its UTF-8 length is [str_len]; comparing UTF-8
    bytes and comparing code points give the same order. *)
Abbreviation str := (list N).

Declare Scope sdb_scope.
Delimit Scope sdb_scope with sdb.

(** A literal of the source, which are all ASCII. *)
Definition lit (s : string) : str := N_of_ascii <$> String.list_ascii_of_string s.

Notation "'§' s" := (lit s) (at level 9, s at level 9, only parsing) : sdb_scope.
Open Scope sdb_scope.

(** [char::is_whitespace]: the Unicode [White_Space] property. *)
Definition is_whitespace (c : N) : bool :=
  ((9 <=? c) && (c <=? 13) || (c =? 32) || (c =? 133) || (c =? 160) || (c =? 5760)
   || ((8192 <=? c) && (c <=? 8202)) || (c =? 8232) || (c =? 8233) || (c =? 8239)
   || (c =? 8287) || (c =? 12288))%N.

(** [char::is_control]: the Unicode [Cc] category. *)
Definition is_control (c : N) : bool := ((c <? 32) || ((127 <=? c) && (c <? 160)))%N.

Definition is_ascii_digit (c : N) : bool := ((48 <=? c) && (c <=? 57))%N.
Definition is_ascii_upper (c : N) : bool := ((65 <=? c) && (c <=? 90))%N.
Definition is_ascii_lower (c : N) : bool := ((97 <=? c) && (c <=? 122))%N.
Definition is_ascii_alphanumeric (c : N) : bool :=
  is_ascii_digit c || is_ascii_upper c || is_ascii_lower c.
Definition is_ascii_hexdigit (c : N) : bool :=
  is_ascii_digit c || ((65 <=? c) && (c <=? 70))%N || ((97 <=? c) && (c <=? 102))%N.

(** [str::to_ascii_lowercase] *)
Definition lower_char (c : N) : N := if is_ascii_upper c then (c + 32)%N else c.
Definition to_ascii_lowercase (s : str) : str := lower_char <$> s.
Definition eq_ignore_ascii_case (a b : str) : bool :=
  bool_decide (to_ascii_lowercase a = to_ascii_lowercase b).

(** [char::len_utf8] and [str::len] *)
Definition utf8_len (c : N) : nat :=
  if (c <? 128)%N then 1 else if (c <? 2048)%N then 2 else if (c <? 65536)%N then 3 else 4.
Definition str_len (s : str) : nat := sum_list_with utf8_len s.

(** [str::split] on one character: always at least one piece. *)
Fixpoint split_char (c : N) (s : str) : list str :=
  match s with
  | [] => [[]]
  | x :: r =>
      if (x =? c)%N then [] :: split_char c r
      else match split_char c r with
           | [] => [[x]]
           | p :: ps => (x :: p) :: ps
           end
  end.

(** The line feed that ends a line *)
Definition LF : N := 10.

(** [str::split_once] on one character. *)
Fixpoint split_once (c : N) (s : str) : option (str * str) :=
  match s with
  | [] => None
  | x :: r =>
      if (x =? c)%N then Some ([], r)
      else match split_once c r with
           | Some (a, b) => Some (x :: a, b)
           | None => None
           end
  end.

(** [[T]::join] *)
Fixpoint join_with (sep : str) (l : list str) : str :=
  match l with
  | [] => []
  | [p] => p
  | p :: r => p ++ sep ++ join_with sep r
  end.

Fixpoint drop_while (f : N -> bool) (s : str) : str :=
  match s with
  | [] => []
  | x :: r => if f x then drop_while f r else s
  end.

(** [str::trim_start_matches], [str::trim_end_matches], [str::trim_matches]
    for a character predicate, and [str::trim]. *)
Definition trim_by (f : N -> bool) (s : str) : str :=
  reverse (drop_while f (reverse (drop_while f s))).
Definition trim (s : str) : str := trim_by is_whitespace s.
Definition trim_slashes (s : str) : str := trim_by (fun c => c =? 47)%N s.

(** [str::strip_prefix] and [str::starts_with] *)
Fixpoint strip_prefix (p s : str) : option str :=
  match p, s with
  | [], _ => Some s
  | x :: p', y :: s' => if (x =? y)%N then strip_prefix p' s' else None
  | _ :: _, [] => None
  end.
Definition starts_with (p s : str) : bool :=
  match strip_prefix p s with Some _ => true | None => false end.
Definition ends_with (p s : str) : bool := starts_with (reverse p) (reverse s).

(** [str::contains] for a pattern string *)
Fixpoint str_contains (p s : str) : bool :=
  starts_with p s || match s with [] => false | _ :: s' => str_contains p s' end.

Definition is_empty {A} (l : list A) : bool := match l with [] => true | _ => false end.

(** ** Machine integers *)
Definition U64_MODULUS : Z := 2 ^ 64.
Definition I64_MAX : Z := 2 ^ 63 - 1.
Definition I64_MIN : Z := - 2 ^ 63.

(** [+] on [u64] in a release build: wraps around. *)
Definition wrap64 (z : Z) : Z := z mod U64_MODULUS.
Definition u64_add (a b : Z) : Z := wrap64 (a + b).
(** [u64::saturating_sub] *)
Definition u64_saturating_sub (a b : Z) : Z := Z.max 0 (a - b).
(** [i64::saturating_add] and [i64::saturating_sub] *)
Definition clamp_i64 (z : Z) : Z := Z.max I64_MIN (Z.min I64_MAX z).
Definition i64_saturating_add (a b : Z) : Z := clamp_i64 (a + b).
Definition i64_saturating_sub (a b : Z) : Z := clamp_i64 (a - b).
(** [i64::try_from(u).unwrap_or(i64::MAX)] for a [u64] *)
Definition i64_of_u64 (u : Z) : Z := if bool_decide (u <= I64_MAX)%Z then u else I64_MAX.

Definition is_u64 (z : Z) : Prop := (0 <= z < U64_MODULUS)%Z.
Definition is_i64 (z : Z) : Prop := (I64_MIN <= z <= I64_MAX)%Z.

(** ** Lemmas on lists *)
Lemma list_filter_all {A} (P : A -> Prop) `{!forall x, Decision (P x)} (l : list A) :
  (forall x, x ∈ l -> P x) -> filter P l = l.
Proof.
  induction l as [|x l IH]; intros Hl; [done|].
  rewrite filter_cons_True by (apply Hl; left). f_equal. apply IH. intros. apply Hl. by right.
Qed.

Lemma list_filter_none {A} (P : A -> Prop) `{!forall x, Decision (P x)} (l : list A) :
  (forall x, x ∈ l -> ~ P x) -> filter P l = [].
Proof.
  induction l as [|x l IH]; intros Hl; [done|].
  rewrite filter_cons_False by (apply Hl; left). apply IH. intros. apply Hl. by right.
Qed.

Lemma list_filter_ext {A} (P Q : A -> Prop) `{!forall x, Decision (P x), !forall x, Decision (Q x)} (l : list A) :
  (forall x, x ∈ l -> P x <-> Q x) -> filter P l = filter Q l.
Proof.
  induction l as [|x l IH]; intros Hl; [done|]. rewrite !filter_cons.
  assert (Hr : filter P l = filter Q l) by (apply IH; intros; apply Hl; by right).
  assert (Hx : P x <-> Q x) by (apply Hl; left). rewrite Hr.
  by destruct (decide (P x)), (decide (Q x)); tauto.
Qed.

Lemma list_fmap_same {A} (f : A -> A) (l : list A) : (forall x, x ∈ l -> f x = x) -> f <$> l = l.
Proof.
  induction l as [|x l IH]; intros Hl; [done|].
  rewrite fmap_cons, Hl, IH; [done| |left]. intros. apply Hl. by right.
Qed.

(** ** Ordered keys: the order a [BTreeMap] iterates in, and [sort_unstable]. *)
Fixpoint str_leb (a b : str) : bool :=
  match a, b with
  | [], _ => true
  | _ :: _, [] => false
  | x :: a', y :: b' => (x <? y)%N || ((x =? y)%N && str_leb a' b')
  end.
Definition str_le (a b : str) : Prop := Is_true (str_leb a b).
#[export] Instance str_le_dec : RelDecision str_le := fun a b => Is_true_dec (str_leb a b).

Class KeyOrder (K : Type) := {
  key_le : relation K;
  key_le_dec :: RelDecision key_le;
  key_le_trans :: Transitive key_le;
  key_le_total :: Total key_le;
  key_le_antisymm :: AntiSymm (=) key_le;
}.

#[export] Instance str_le_trans : Transitive str_le.
Proof.
  intros a. unfold str_le. induction a as [|x a IH]; [done|].
  intros [|y b] [|z c]; simpl; try done.
  rewrite !orb_True, !andb_True, !Is_true_true, !N.ltb_lt, !N.eqb_eq, <- !Is_true_true.
  intros [?|[-> ?]] [?|[-> ?]]; [left; lia..|right; eauto].
Qed.

#[export] Instance str_le_total : Total str_le.
Proof.
  intros a. unfold str_le. induction a as [|x a IH]; [by left|].
  intros [|y b]; [by right|]. simpl.
  rewrite !orb_True, !andb_True, !Is_true_true, !N.ltb_lt, !N.eqb_eq, <- !Is_true_true.
  destruct (N.lt_trichotomy x y) as [?|[->|?]]; [tauto| |tauto].
  destruct (IH b); tauto.
Qed.

#[export] Instance str_le_antisymm : AntiSymm (=) str_le.
Proof.
  intros a. unfold str_le. induction a as [|x a IH]; intros [|y b]; simpl; try done.
  rewrite !orb_True, !andb_True, !Is_true_true, !N.ltb_lt, !N.eqb_eq, <- !Is_true_true.
  intros [?|[-> ?]] [?|[? ?]]; [lia..|]. f_equal. eauto.
Qed.

#[export] Instance str_key_order : KeyOrder str := {| key_le := str_le |}.
#[export] Instance Z_key_order : KeyOrder Z.
Proof. refine {| key_le := Z.le |}; apply _. Defined.

Lemma StronglySorted_filter {A} (R : relation A) (P : A -> Prop) `{!forall x, Decision (P x)} l :
  StronglySorted R l -> StronglySorted R (filter P l).
Proof.
  induction 1 as [|p l _ IH Hall]; [constructor|]. rewrite filter_cons. case_decide; [|done].
  constructor; [done|]. rewrite Forall_forall in Hall |- *.
  intros q [_ Hq]%list_elem_of_filter. auto.
Qed.

(** Sorted lists without repeats are determined by their elements. *)
Lemma sorted_set_unique {A} (R : relation A) `{!AntiSymm (=) R} (l1 l2 : list A) :
  StronglySorted R l1 -> StronglySorted R l2 -> NoDup l1 -> NoDup l2 ->
  (forall x, x ∈ l1 <-> x ∈ l2) -> l1 = l2.
Proof. intros. apply (StronglySorted_unique R); [done..|by apply NoDup_Permutation]. Qed.

(** [sort_unstable] on distinct strings: the sorted permutation. *)
Definition sort_strs (l : list str) : list str := merge_sort str_le l.

Section BTree.
Context {K V : Type} `{Countable K} `{KeyOrder K}.

Definition entry_le (p q : K * V) : Prop := key_le p.1 q.1.
#[export] Instance entry_le_dec : RelDecision entry_le.
Proof. intros p q. unfold entry_le. apply _. Defined.
#[export] Instance entry_le_trans : Transitive entry_le.
Proof. intros p q r. unfold entry_le. apply transitivity. Qed.
#[export] Instance entry_le_total : Total entry_le.
Proof. intros p q. unfold entry_le. apply total, _. Qed.

(** The entries of a [BTreeMap] in iteration order. *)
Definition btree_iter (m : gmap K V) : list (K * V) := merge_sort entry_le (map_to_list m).
Definition btree_keys (m : gmap K V) : list K := (btree_iter m).*1.

Lemma btree_iter_perm m : btree_iter m ≡ₚ map_to_list m.
Proof. apply merge_sort_Permutation. Qed.

Lemma elem_of_btree_iter m k v : (k, v) ∈ btree_iter m <-> m !! k = Some v.
Proof. by rewrite btree_iter_perm, elem_of_map_to_list. Qed.

Lemma btree_iter_NoDup m : NoDup (btree_iter m).*1.
Proof. rewrite btree_iter_perm. apply NoDup_fst_map_to_list. Qed.

Lemma btree_iter_to_map m : list_to_map (btree_iter m) = m.
Proof.
  rewrite (list_to_map_proper (M := gmap K) _ (map_to_list m)).
  - apply list_to_map_to_list.
  - apply btree_iter_NoDup.
  - apply btree_iter_perm.
Qed.

Lemma btree_keys_NoDup m : NoDup (btree_keys m).
Proof. unfold btree_keys. rewrite btree_iter_perm. apply NoDup_fst_map_to_list. Qed.

Lemma elem_of_btree_keys m k : k ∈ btree_keys m <-> is_Some (m !! k).
Proof.
  unfold btree_keys. rewrite list_elem_of_fmap. split.
  - intros [[k' v] [-> Hin]]. apply elem_of_btree_iter in Hin. eauto.
  - intros [v Hv]. exists (k, v). split; [done|]. by apply elem_of_btree_iter.
Qed.

Lemma btree_keys_length m : length (btree_keys m) = size m.
Proof.
  unfold btree_keys. rewrite length_fmap, btree_iter_perm. apply length_map_to_list.
Qed.

Lemma btree_keys_sorted m : StronglySorted key_le (btree_keys m).
Proof.
  pose proof (StronglySorted_merge_sort entry_le (map_to_list m)) as Hs.
  fold (btree_iter m) in Hs. unfold btree_keys.
  induction Hs as [|p l _ IH Hall]; simpl; constructor; [done|].
  by apply Forall_fmap.
Qed.

Lemma btree_iter_sorted m : StronglySorted entry_le (btree_iter m).
Proof. apply (StronglySorted_merge_sort entry_le). Qed.

(** A list in key order without repeats is the iteration of its map. *)
Lemma btree_iter_unique m (l : list (K * V)) :
  StronglySorted entry_le l -> NoDup l.*1 -> (forall k v, (k, v) ∈ l <-> m !! k = Some v) ->
  btree_iter m = l.
Proof.
  intros Hs Hd Hin.
  assert (Hp : btree_iter m ≡ₚ l).
  { apply NoDup_Permutation.
    - apply (NoDup_fmap_1 fst), btree_iter_NoDup.
    - by apply (NoDup_fmap_1 fst).
    - intros [k v]. by rewrite elem_of_btree_iter, Hin. }
  apply (StronglySorted_unique_strong entry_le); [|apply btree_iter_sorted|done|done].
  intros [k1 v1] [k2 v2] H1 H2 H12 H21. unfold entry_le in *. simpl in *.
  assert (k1 = k2) as -> by by apply (anti_symm key_le).
  apply elem_of_btree_iter in H1. apply Hin in H2. congruence.
Qed.

Lemma btree_iter_delete m k :
  btree_iter (delete k m) = filter (fun p => p.1 <> k) (btree_iter m).
Proof.
  apply btree_iter_unique.
  - apply StronglySorted_filter, btree_iter_sorted.
  - eapply sublist_NoDup; [apply btree_iter_NoDup|]. apply fmap_sublist, sublist_filter.
  - intros k' v. rewrite list_elem_of_filter, elem_of_btree_iter, lookup_delete_Some. naive_solver.
Qed.

Lemma btree_iter_insert_last m k v :
  (forall k', is_Some (m !! k') -> key_le k' k /\ k' <> k) ->
  btree_iter (<[k := v]> m) = btree_iter m ++ [(k, v)].
Proof.
  intros Hlast. assert (Hk : m !! k = None).
  { destruct (m !! k) eqn:E; [|done]. destruct (Hlast k) as [_ ?]; [eauto|done]. }
  apply btree_iter_unique.
  - apply StronglySorted_app_2; [|apply btree_iter_sorted|repeat constructor].
    intros [k1 v1] p H1 ->%list_elem_of_singleton. apply elem_of_btree_iter in H1.
    unfold entry_le. simpl. apply Hlast. eauto.
  - rewrite fmap_app. apply NoDup_app. split_and!; [apply btree_iter_NoDup| |apply NoDup_singleton].
    intros k' Hk' Hin%list_elem_of_singleton. subst. change (k ∈ btree_keys m) in Hk'.
    apply elem_of_btree_keys in Hk'. rewrite Hk in Hk'. by destruct Hk'.
  - intros k' v'. rewrite elem_of_app, list_elem_of_singleton, elem_of_btree_iter, lookup_insert_Some.
    naive_solver.
Qed.

Lemma btree_iter_cons m p l : btree_iter m = p :: l -> btree_iter (delete p.1 m) = l.
Proof.
  intros E. pose proof (btree_iter_NoDup m) as Hd. pose proof (btree_iter_sorted m) as Hs.
  rewrite btree_iter_delete, E in *. rewrite filter_cons_False by tauto.
  apply list_filter_all. intros q Hq He. apply NoDup_cons in Hd as [Hp _].
  apply Hp. rewrite <- He. by apply list_elem_of_fmap_2.
Qed.
End BTree.

(** ** Hash maps and sets

    A [HashMap] or [HashSet] is iterated in an order nothing promises anything
    about.  Whatever it is, it lists every entry once. *)
Class HashOrder := {
  hash_iter : forall {V}, gmap str V -> list (str * V);
  hash_iter_perm : forall {V} (m : gmap str V), hash_iter m ≡ₚ map_to_list m;
  hash_elems : gset str -> list str;
  hash_elems_perm : forall s, hash_elems s ≡ₚ elements s;
}.

Section Hash.
Context `{HashOrder}.

Definition hash_keys {V} (m : gmap str V) : list str := (hash_iter m).*1.

Lemma elem_of_hash_iter {V} (m : gmap str V) k v : (k, v) ∈ hash_iter m <-> m !! k = Some v.
Proof. by rewrite hash_iter_perm, elem_of_map_to_list. Qed.

Lemma elem_of_hash_keys {V} (m : gmap str V) k : k ∈ hash_keys m <-> is_Some (m !! k).
Proof.
  unfold hash_keys. rewrite list_elem_of_fmap. split.
  - intros [[k' v] [-> Hin]]. apply elem_of_hash_iter in Hin. eauto.
  - intros [v Hv]. exists (k, v). split; [done|]. by apply elem_of_hash_iter.
Qed.

Lemma hash_keys_NoDup {V} (m : gmap str V) : NoDup (hash_keys m).
Proof. unfold hash_keys. rewrite hash_iter_perm. apply NoDup_fst_map_to_list. Qed.

Lemma elem_of_hash_elems s x : x ∈ hash_elems s <-> x ∈ s.
Proof. by rewrite hash_elems_perm, elem_of_elements. Qed.

Lemma hash_elems_NoDup s : NoDup (hash_elems s).
Proof. rewrite hash_elems_perm. apply NoDup_elements. Qed.

(** Sorting the keys undoes the order of the map. *)
Lemma sort_hash_keys {V} (m : gmap str V) : sort_strs (hash_keys m) = btree_keys m.
Proof.
  apply (StronglySorted_unique str_le).
  - apply (StronglySorted_merge_sort str_le).
  - change str_le with (@key_le str str_key_order). apply btree_keys_sorted.
  - unfold sort_strs. rewrite merge_sort_Permutation. unfold hash_keys, btree_keys.
    by rewrite hash_iter_perm, btree_iter_perm.
Qed.
End Hash.

(** One such order. *)
Definition some_order : HashOrder := {|
  hash_iter V m := map_to_list m;
  hash_iter_perm V m := Permutation_refl _;
  hash_elems s := elements s;
  hash_elems_perm s := Permutation_refl _;
|}.

(** ** Lemmas on the string operations *)
Section Strings.
Implicit Types (s p : str) (c : N) (f : N -> bool).

Lemma split_once_app c s r : c ∉ s -> split_once c (s ++ c :: r) = Some (s, r).
Proof.
  induction s as [|x s IH]; intros Hn; cbn; [by rewrite N.eqb_refl|].
  apply not_elem_of_cons in Hn as [Hx Hs]. rewrite IH by done.
  destruct (N.eqb_spec x c); [congruence|done].
Qed.

Lemma strip_prefix_spec p s r : strip_prefix p s = Some r <-> s = p ++ r.
Proof.
  revert s. induction p as [|x p IH]; intros s; simpl; [naive_solver|].
  destruct s as [|y s]; [naive_solver|].
  destruct (N.eqb_spec x y) as [->|Hne]; [rewrite IH|]; naive_solver.
Qed.

Lemma starts_with_spec p s : starts_with p s = true <-> exists r, s = p ++ r.
Proof.
  unfold starts_with. destruct (strip_prefix p s) as [r|] eqn:E.
  - apply strip_prefix_spec in E. naive_solver.
  - split; [done|]. intros [r ->]. by rewrite (proj2 (strip_prefix_spec p (p ++ r) r)) in E.
Qed.

Lemma split_char_ne c s : split_char c s <> [].
Proof. destruct s as [|x s]; simpl; [done|]. by repeat case_match. Qed.

Lemma split_char_no_sep c s p : p ∈ split_char c s -> c ∉ p.
Proof.
  revert p. induction s as [|x s IH]; intros p; simpl.
  - intros ->%list_elem_of_singleton. apply not_elem_of_nil.
  - destruct (N.eqb_spec x c) as [->|Hne].
    + rewrite elem_of_cons. intros [->|Hin]; [apply not_elem_of_nil|eauto].
    + destruct (split_char c s) as [|q qs] eqn:E; [by apply split_char_ne in E|].
      rewrite elem_of_cons. intros [->|Hin]; [|by apply IH; right].
      apply not_elem_of_cons. split; [done|]. apply IH. left.
Qed.

Lemma split_char_id c s : c ∉ s -> split_char c s = [s].
Proof.
  induction s as [|x s IH]; simpl; [done|]. intros Hn.
  destruct (N.eqb_spec x c) as [->|Hne]; [set_solver|].
  rewrite IH by set_solver. done.
Qed.

Lemma split_char_app c s r : c ∉ s -> split_char c (s ++ c :: r) = s :: split_char c r.
Proof.
  induction s as [|x s IH]; simpl; intros Hn.
  - by rewrite N.eqb_refl.
  - destruct (N.eqb_spec x c) as [->|Hne]; [set_solver|].
    rewrite IH by set_solver. done.
Qed.

Lemma split_char_cons c x s p ps :
  x <> c -> split_char c s = p :: ps -> split_char c (x :: s) = (x :: p) :: ps.
Proof. intros Hx Hs. simpl. rewrite (proj2 (N.eqb_neq x c) Hx). by rewrite Hs. Qed.

Lemma split_char_app_gen c s r :
  split_char c (s ++ c :: r) = split_char c s ++ split_char c r.
Proof.
  induction s as [|x s IH]; simpl; [by rewrite N.eqb_refl|].
  destruct (N.eqb_spec x c) as [->|Hne]; [by rewrite IH|]. rewrite IH.
  destruct (split_char c s) as [|p ps] eqn:E; [by apply split_char_ne in E|]. done.
Qed.

Lemma split_join c (l : list str) :
  l <> [] -> (forall p, p ∈ l -> c ∉ p) -> split_char c (join_with [c] l) = l.
Proof.
  induction l as [|p l IH]; [done|]. intros _ Hn.
  destruct l as [|q l].
  - simpl. apply split_char_id. set_solver.
  - change (join_with [c] (p :: q :: l)) with (p ++ c :: join_with [c] (q :: l)).
    rewrite split_char_app by set_solver. f_equal. apply IH; set_solver.
Qed.

Lemma drop_while_suffix f s : exists t, s = t ++ drop_while f s.
Proof.
  induction s as [|x s [t IH]]; simpl; [by exists []|].
  destruct (f x); [|by exists []]. exists (x :: t). simpl. by f_equal.
Qed.

Lemma drop_while_head f s x r : drop_while f s = x :: r -> f x = false.
Proof. induction s as [|y s IH]; simpl; [done|]. destruct (f y) eqn:E; naive_solver. Qed.

Lemma drop_while_id f s : (forall x r, s = x :: r -> f x = false) -> drop_while f s = s.
Proof. destruct s as [|x s]; simpl; [done|]. intros H. by rewrite (H x s). Qed.

(** No character of the class at either end. *)
Definition trimmed f s : Prop :=
  (forall x r, s = x :: r -> f x = false) /\ (forall x r, s = r ++ [x] -> f x = false).

Lemma trim_by_id f s : trimmed f s -> trim_by f s = s.
Proof.
  intros [Hh Hl]. unfold trim_by. rewrite (drop_while_id f s Hh).
  rewrite drop_while_id; [by rewrite reverse_involutive|].
  intros x r Hr. apply (Hl x (reverse r)).
  by rewrite <- (reverse_involutive s), Hr, reverse_cons.
Qed.

Lemma trim_by_trimmed f s : trimmed f (trim_by f s).
Proof.
  unfold trim_by. set (u := drop_while f s). split; intros x r Hr.
  - destruct (drop_while_suffix f (reverse u)) as [t Ht].
    apply (f_equal reverse) in Ht. rewrite reverse_involutive, reverse_app, Hr in Ht.
    by apply (drop_while_head f s x (r ++ reverse t)).
  - apply (f_equal reverse) in Hr. rewrite reverse_involutive, reverse_snoc in Hr.
    by eapply drop_while_head.
Qed.

Lemma trim_by_idemp f s : trim_by f (trim_by f s) = trim_by f s.
Proof. apply trim_by_id, trim_by_trimmed. Qed.

Lemma trim_by_elem f s c : c ∈ trim_by f s -> c ∈ s.
Proof.
  unfold trim_by. rewrite elem_of_reverse. intros Hc.
  destruct (drop_while_suffix f (reverse (drop_while f s))) as [t Ht].
  assert (Hc' : c ∈ reverse (drop_while f s)) by (rewrite Ht; set_solver).
  rewrite elem_of_reverse in Hc'.
  destruct (drop_while_suffix f s) as [t' Ht']. rewrite Ht'. set_solver.
Qed.

Lemma trim_idemp s : trim (trim s) = trim s.
Proof. apply trim_by_idemp. Qed.
End Strings.

(** ** Lemmas on machine integers *)
Lemma wrap64_id z : is_u64 z -> wrap64 z = z.
Proof. apply Z.mod_small. Qed.

Lemma wrap64_range z : is_u64 (wrap64 z).
Proof. apply Z.mod_pos_bound. unfold U64_MODULUS. lia. Qed.

Lemma clamp_i64_range z : is_i64 (clamp_i64 z).
Proof. unfold clamp_i64, is_i64, I64_MIN, I64_MAX. lia. Qed.

Lemma clamp_i64_id z : is_i64 z -> clamp_i64 z = z.
Proof. unfold clamp_i64, is_i64. lia. Qed.

Lemma clamp_i64_mono a b : (a <= b -> clamp_i64 a <= clamp_i64 b)%Z.
Proof. unfold clamp_i64. lia. Qed.

(** Close goals that are about widths only. *)
Ltac width :=
  unfold is_u64, is_i64, u64_add, u64_saturating_sub, i64_of_u64, wrap64,
    U64_MODULUS, I64_MAX, I64_MIN in *; repeat case_bool_decide; lia.

(** ** Time

    A [DateTime<Utc>] is an instant, in nanoseconds since the Unix epoch. *)
Definition NANOS : Z := 1000000000.
Definition UNIX_EPOCH : Z := 0.
(** [DateTime::timestamp] and [DateTime::timestamp_millis] *)
Definition timestamp (t : Z) : Z := t / NANOS.
Definition timestamp_millis (t : Z) : Z := t / 1000000.

(** [DateTime::from_timestamp(secs, 0)] belongs to the [chrono] crate: the
    instant [secs] seconds after the epoch, or [None] outside the range the
    crate can represent. *)
Class Chrono := {
  from_timestamp : Z -> option Z;
  from_timestamp_Some : forall s t, from_timestamp s = Some t -> t = (s * NANOS)%Z;
}.

(** A clock that represents ten thousand years either side of the epoch. *)
#[refine] Definition chrono_10000y : Chrono := {|
  from_timestamp s := if bool_decide (Z.abs s <= 315360000000)%Z then Some (s * NANOS)%Z else None
|}.
Proof. intros s t. case_bool_decide; naive_solver. Defined.

Lemma timestamp_from `{Chrono} s t : from_timestamp s = Some t -> timestamp t = s.
Proof. intros ->%from_timestamp_Some. apply Z.div_mul. done. Qed.

Lemma timestamp_mono a b : (a <= b -> timestamp a <= timestamp b)%Z.
Proof. intros. by apply Z.div_le_mono. Qed.

Lemma timestamp_whole s : timestamp (s * NANOS) = s.
Proof. by apply Z.div_mul. Qed.

Lemma timestamp_min a b : timestamp (Z.min a b) = Z.min (timestamp a) (timestamp b).
Proof.
  pose proof (timestamp_mono a b). pose proof (timestamp_mono b a).
  destruct (Z.min_spec a b) as [[? ->]|[? ->]]; lia.
Qed.

Lemma timestamp_max a b : timestamp (Z.max a b) = Z.max (timestamp a) (timestamp b).
Proof.
  pose proof (timestamp_mono a b). pose proof (timestamp_mono b a).
  destruct (Z.max_spec a b) as [[? ->]|[? ->]]; lia.
Qed.
