(* ===== verification/Attribute.v ===== *)
(** * Attributes: one value inside a namespace

    Models [src/src/attribute.rs]: the stored record [Attribute], the payload
    [Merge] a peer offers, the wire form [AttributeView], and every operation on
    them: counting, hourly statistics, tags, expiry, and the merge that
    replicas of a galaxy use to converge. *)

From stdpp Require Import base numbers list strings gmap sorting.
From S2P Require Import Prelude.

Definition STATS_BUCKET_SECS : Z := 3600.

(** ** The data *)
Record Attribute := mkAttribute {
  value : str;
  first_seen : Z;
  last_seen : Z;
  counts : gmap str Z;
  tags : str;
  tags_at : Z;
  ttl : Z;
  stats : gmap str (gmap Z Z);
  legacy_count : Z;
  legacy_stats : gmap Z Z;
}.

Record Merge := mkMerge {
  m_counts : gmap str Z;
  m_stats : gmap str (gmap Z Z);
  m_first_seen : Z;
  m_last_seen : Z;
  m_tags : str;
  m_tags_at : Z;
  m_ttl : Z;
}.

Record Merged := mkMerged { changed : bool; ignored_self : nat; merged_count : Z }.

Record AttributeView := mkView {
  v_value : str;
  v_first_seen : Z;
  v_last_seen : Z;
  v_count : Z;
  v_tags : str;
  v_ttl : Z;
  v_consensus : Z;
  v_stats : option (gmap Z Z);
}.

(** Field assignments of the source, [self.f = x]. *)
Definition set_window (a : Attribute) (f l : Z) : Attribute :=
  mkAttribute (value a) f l (counts a) (tags a) (tags_at a) (ttl a) (stats a)
    (legacy_count a) (legacy_stats a).
Definition set_counts (a : Attribute) (c : gmap str Z) : Attribute :=
  mkAttribute (value a) (first_seen a) (last_seen a) c (tags a) (tags_at a) (ttl a) (stats a)
    (legacy_count a) (legacy_stats a).
Definition set_stats (a : Attribute) (s : gmap str (gmap Z Z)) : Attribute :=
  mkAttribute (value a) (first_seen a) (last_seen a) (counts a) (tags a) (tags_at a) (ttl a) s
    (legacy_count a) (legacy_stats a).
Definition put_tags (a : Attribute) (t : str) (at_ : Z) : Attribute :=
  mkAttribute (value a) (first_seen a) (last_seen a) (counts a) t at_ (ttl a) (stats a)
    (legacy_count a) (legacy_stats a).
Definition set_ttl (a : Attribute) (t : Z) : Attribute :=
  mkAttribute (value a) (first_seen a) (last_seen a) (counts a) (tags a) (tags_at a) t (stats a)
    (legacy_count a) (legacy_stats a).
Definition clear_legacy_count (a : Attribute) : Attribute :=
  mkAttribute (value a) (first_seen a) (last_seen a) (counts a) (tags a) (tags_at a) (ttl a)
    (stats a) 0 (legacy_stats a).
Definition clear_legacy_stats (a : Attribute) : Attribute :=
  mkAttribute (value a) (first_seen a) (last_seen a) (counts a) (tags a) (tags_at a) (ttl a)
    (stats a) (legacy_count a) ∅.

(** ** Tags *)
Definition COMMA : N := 44.
Definition COLON : N := 58.

Definition split_tags (t : str) : list str :=
  filter (fun tag => tag <> []) (trim <$> split_char COMMA t).

Definition tag_values (t key : str) : list str :=
  omap (fun tag =>
          match split_once COLON tag with
          | None => None
          | Some (name, v) =>
              if eq_ignore_ascii_case (trim name) key && negb (is_empty (trim v))
              then Some (trim v) else None
          end) (split_tags t).

Definition tag_value (t key : str) : option str := head (tag_values t key).

(** The loop of [add_tags] and [set_tags]: push what is not there yet. *)
Definition push_new (st : list str * bool) (tag : str) : list str * bool :=
  if bool_decide (tag ∈ st.1) then st else (st.1 ++ [tag], true).

Definition add_tags (a : Attribute) (t : str) : Attribute :=
  let r := foldl push_new (split_tags (tags a), false) (split_tags t) in
  if r.2 then put_tags a (join_with [COMMA] r.1) (tags_at a) else a.

Definition set_tags (a : Attribute) (t : str) (at_ : Z) : Attribute :=
  let cleaned := (foldl push_new ([], false) (split_tags t)).1 in
  put_tags a (join_with [COMMA] cleaned) (Z.max (tags_at a) at_).

(** ** Counting *)
Definition new (v : str) : Attribute := mkAttribute v UNIX_EPOCH UNIX_EPOCH ∅ [] 0 0 ∅ 0 ∅.

(** Adding the values of a map, without and with the wrap-around of [u64]. *)
Definition map_total {K} `{Countable K} (m : gmap K Z) : Z := map_fold (fun _ v acc => v + acc)%Z 0%Z m.
Definition count (a : Attribute) : Z := wrap64 (map_total (counts a)).

(** [*m.entry(k).or_insert(0) += n] *)
Definition add_entry {K} `{Countable K} (k : K) (n : Z) (m : gmap K Z) : gmap K Z :=
  <[k := u64_add (default 0%Z (m !! k)) n]> m.

Definition migrate (a : Attribute) (node : str) : Attribute :=
  let a1 :=
    if bool_decide (0 < legacy_count a)%Z
    then clear_legacy_count (set_counts a (add_entry node (legacy_count a) (counts a)))
    else a in
  if bool_decide (legacy_stats a1 = ∅) then a1
  else
    let buckets := default ∅ (stats a1 !! node) in
    let buckets' := foldl (fun b p => add_entry p.1 p.2 b) buckets (btree_iter (legacy_stats a1)) in
    clear_legacy_stats (set_stats a1 (<[node := buckets']> (stats a1))).

Definition bucket_of (t : Z) : Z := timestamp t / STATS_BUCKET_SECS * STATS_BUCKET_SECS.

Definition make_stats (a : Attribute) (node : str) (w : Z) : Attribute :=
  set_stats a (<[node := add_entry (bucket_of w) 1 (default ∅ (stats a !! node))]> (stats a)).

Definition trim_stats (a : Attribute) (node : str) (keep : nat) : Attribute :=
  match stats a !! node with
  | None => a
  | Some buckets =>
      if bool_decide (keep = 0 \/ size buckets <= keep) then a
      else
        let excess := size buckets - keep in
        let oldest := take excess (btree_keys buckets) in
        set_stats a (<[node := foldl (fun b k => delete k b) buckets oldest]> (stats a))
  end.

Definition increment (a : Attribute) (node : str) (w : Z) (stats_retention : nat) : Attribute :=
  let a1 :=
    if bool_decide (count a = 0%Z) then set_window a w w
    else
      let a' := if bool_decide (w < first_seen a)%Z then set_window a w (last_seen a) else a in
      if bool_decide (last_seen a' < w)%Z then set_window a' (first_seen a') w else a' in
  let a2 := trim_stats (make_stats a1 node w) node stats_retention in
  set_counts a2 (add_entry node 1 (counts a2)).

Definition decrement (a : Attribute) (node : str) : Attribute * Z :=
  let a' :=
    match counts a !! node with
    | None => a
    | Some mine =>
        let mine' := u64_saturating_sub mine 1 in
        if bool_decide (mine' = 0%Z) then set_counts a (delete node (counts a))
        else set_counts a (<[node := mine']> (counts a))
    end in
  (a', count a').

(** ** Expiry *)
Definition expires_at (a : Attribute) : option Z :=
  if bool_decide (0 < ttl a)%Z
  then Some (i64_saturating_add (timestamp (last_seen a)) (i64_of_u64 (ttl a)))
  else None.

Definition is_expired (a : Attribute) (now : Z) : bool :=
  match expires_at a with
  | Some deadline => bool_decide (deadline < timestamp now)%Z
  | None => false
  end.

(** ** Views *)
Definition merged_stats (a : Attribute) : gmap Z Z :=
  foldl (fun m p => foldl (fun m q => add_entry q.1 q.2 m) m (btree_iter p.2)) ∅
    (btree_iter (stats a)).

Definition view (a : Attribute) (consensus : Z) (with_stats : bool) : AttributeView :=
  mkView (value a) (timestamp (first_seen a)) (timestamp (last_seen a)) (count a) (tags a) (ttl a)
    consensus (if with_stats then Some (merged_stats a) else None).

Definition as_merge (a : Attribute) : Merge :=
  mkMerge (counts a) (stats a) (timestamp (first_seen a)) (timestamp (last_seen a)) (tags a)
    (tags_at a) (ttl a).

(** ** Merging a peer's copy *)
Definition unseen (a : Attribute) : bool :=
  bool_decide (count a = 0%Z) && bool_decide (first_seen a = UNIX_EPOCH).

(** [let e = m.entry(k).or_insert(0); if v > *e { *e = v; changed = true }] *)
Definition raise_entry {K} `{Countable K} (st : gmap K Z * bool) (p : K * Z) : gmap K Z * bool :=
  let entry := default 0%Z (st.1 !! p.1) in
  if bool_decide (entry < p.2)%Z then (<[p.1 := p.2]> st.1, true)
  else (<[p.1 := entry]> st.1, st.2).

Definition merge_counts (mine : str) (st : gmap str Z * bool * nat) (p : str * Z) :
    gmap str Z * bool * nat :=
  if bool_decide (p.1 = mine) then (st.1, S st.2) else (raise_entry st.1 p, st.2).

Definition merge_stats (mine : str) (st : gmap str (gmap Z Z) * bool) (p : str * gmap Z Z) :
    gmap str (gmap Z Z) * bool :=
  if bool_decide (p.1 = mine) then st
  else
    let ours := default ∅ (st.1 !! p.1) in
    let r := foldl raise_entry (ours, st.2) (btree_iter p.2) in
    (<[p.1 := r.1]> st.1, r.2).

Definition merge_ttl (ours theirs : Z) : Z :=
  if bool_decide (ours = 0%Z) then theirs
  else if bool_decide (theirs = 0%Z) then ours
  else Z.min ours theirs.

(** The [if] chain on [tags_at]. *)
Definition merge_tags (a : Attribute) (incoming : Merge) : Attribute :=
  if bool_decide (tags_at a < m_tags_at incoming)%Z
  then put_tags a (m_tags incoming) (m_tags_at incoming)
  else if bool_decide (m_tags_at incoming < tags_at a)%Z then a
  else if is_empty (m_tags incoming) then a
  else add_tags a (m_tags incoming).

Section Merging.
Context `{Chrono}.

(** [self.first_seen] after its [if let], with whether it moved. *)
Definition merge_first (uns : bool) (ours theirs : Z) : Z * bool :=
  match from_timestamp theirs with
  | Some t => if uns || bool_decide (t < ours)%Z then (t, bool_decide (t <> ours)) else (ours, false)
  | None => (ours, false)
  end.

Definition merge_last (uns : bool) (ours theirs : Z) : Z * bool :=
  match from_timestamp theirs with
  | Some t => if uns || bool_decide (ours < t)%Z then (t, bool_decide (t <> ours)) else (ours, false)
  | None => (ours, false)
  end.

Definition attr_merge (a : Attribute) (incoming : Merge) (mine : str) : Attribute * Merged :=
  let uns := unseen a in
  let rc := foldl (merge_counts mine) (counts a, false, 0) (btree_iter (m_counts incoming)) in
  let rs := foldl (merge_stats mine) (stats a, rc.1.2) (btree_iter (m_stats incoming)) in
  let a1 := set_stats (set_counts a rc.1.1) rs.1 in
  let f := merge_first uns (first_seen a1) (m_first_seen incoming) in
  let l := merge_last uns (last_seen a1) (m_last_seen incoming) in
  let a2 := set_window a1 f.1 l.1 in
  let a3 := merge_tags a2 incoming in
  let t := merge_ttl (ttl a3) (m_ttl incoming) in
  let a4 := set_ttl a3 t in
  let ch := rs.2 || f.2 || l.2 || bool_decide (tags a3 <> tags a2) || bool_decide (t <> ttl a3) in
  (a4, mkMerged ch rc.2 (count a4)).
End Merging.
