(* ===== verification/AttributeFacts.v ===== *)
(** * Attributes: counting, tags, statistics and expiry

    The lemma library of [Attribute], and the properties of every operation
    but the merge, which has its own file. *)

From stdpp Require Import base numbers list strings gmap sorting.
From S2P Require Import Prelude Attribute.

Create HintDb sdb.
Create Rewrite HintDb sdb.

(** ** Totals *)
Section Totals.
Context {K : Type} `{Countable K}.
Implicit Types (m : gmap K Z) (k : K).

Lemma map_total_empty : map_total (∅ : gmap K Z) = 0%Z.
Proof. apply map_fold_empty. Qed.

Lemma map_total_insert m k v :
  m !! k = None -> map_total (<[k := v]> m) = (v + map_total m)%Z.
Proof.
  intros Hk. unfold map_total.
  apply (map_fold_insert_L (fun (_ : K) (v acc : Z) => (v + acc)%Z) 0%Z); [|done].
  intros. lia.
Qed.

Lemma map_total_delete m k :
  (map_total m = default 0 (m !! k) + map_total (delete k m))%Z.
Proof.
  destruct (m !! k) as [v|] eqn:E; simpl.
  - rewrite <- (insert_id m k v) at 1 by done. rewrite <- insert_delete_eq.
    apply map_total_insert, lookup_delete_eq.
  - by rewrite delete_id.
Qed.

Lemma map_total_update m k v :
  (map_total (<[k := v]> m) = map_total m - default 0 (m !! k) + v)%Z.
Proof.
  rewrite <- insert_delete_eq, map_total_insert by apply lookup_delete_eq.
  pose proof (map_total_delete m k). lia.
Qed.

(** Every entry is a [u64]. *)
Definition all_u64 m : Prop := map_Forall (fun _ v => is_u64 v) m.

Lemma all_u64_default m k : all_u64 m -> is_u64 (default 0%Z (m !! k)).
Proof.
  intros Hm. destruct (m !! k) eqn:E; simpl; [by eapply Hm|]. unfold is_u64, U64_MODULUS. lia.
Qed.

Lemma map_total_nonneg m : all_u64 m -> (0 <= map_total m)%Z.
Proof.
  induction m as [|k v m Hk IH] using map_ind; [by rewrite map_total_empty|].
  intros Hm. rewrite map_total_insert by done.
  apply map_Forall_insert in Hm as [Hv Hm]; [|done]. destruct Hv. specialize (IH Hm). lia.
Qed.

Lemma map_total_ge m k : all_u64 m -> (default 0 (m !! k) <= map_total m)%Z.
Proof.
  intros Hm. rewrite (map_total_delete m k).
  pose proof (map_total_nonneg (delete k m) (map_Forall_delete _ _ _ Hm)). lia.
Qed.

Lemma all_u64_insert m k v : is_u64 v -> all_u64 m -> all_u64 (<[k := v]> m).
Proof. intros. by apply map_Forall_insert_2. Qed.

Lemma all_u64_delete m k : all_u64 m -> all_u64 (delete k m).
Proof. intros. by apply map_Forall_delete. Qed.

Lemma all_u64_add_entry m k n : all_u64 m -> all_u64 (add_entry k n m).
Proof. intros. apply all_u64_insert; [apply wrap64_range|done]. Qed.

Lemma map_total_add_entry m k n :
  is_u64 (default 0 (m !! k) + n)%Z -> map_total (add_entry k n m) = (map_total m + n)%Z.
Proof.
  intros Hn. unfold add_entry. rewrite map_total_update.
  unfold u64_add. rewrite wrap64_id by done. lia.
Qed.
End Totals.

#[export] Hint Resolve all_u64_insert all_u64_delete all_u64_add_entry all_u64_default : sdb.

(** ** Tags *)
Definition tag_ok (t : str) : Prop := t <> [] /\ COMMA ∉ t /\ trim t = t.

Lemma split_tags_ok s t : t ∈ split_tags s -> tag_ok t.
Proof.
  unfold split_tags. rewrite list_elem_of_filter, list_elem_of_fmap.
  intros [Hne [p [-> Hp]]]. split_and!; [done| |apply trim_idemp].
  intros Hc. apply trim_by_elem in Hc. by eapply split_char_no_sep.
Qed.

Lemma split_tags_join l :
  (forall t, t ∈ l -> tag_ok t) -> split_tags (join_with [COMMA] l) = l.
Proof.
  intros Hok. destruct l as [|t l]; [done|]. unfold split_tags.
  rewrite split_join; [|done|by intros p (_ & ? & _)%Hok].
  rewrite list_fmap_same by (intros x Hx; by apply Hok).
  apply list_filter_all. intros x Hx. by apply Hok.
Qed.

(** [push_new] never reorders, never repeats, and keeps exactly the union. *)
Lemma push_new_spec l st :
  let r := foldl push_new st l in
  (forall t, t ∈ r.1 <-> t ∈ st.1 \/ t ∈ l)
  /\ (NoDup st.1 -> NoDup r.1)
  /\ (r.2 = false -> r = st)
  /\ ((forall t, t ∈ l -> t ∈ st.1) -> r = st).
Proof.
  revert st. induction l as [|x l IH]; intros [ts b]; simpl.
  - set_solver.
  - specialize (IH (push_new (ts, b) x)) as (He & Hn & Hf & Hid).
    unfold push_new in *; simpl in *. case_bool_decide as Hx; simpl in *.
    + split_and!; [set_solver|done|done|]. intros Hall. apply Hid. set_solver.
    + split_and!.
      * set_solver.
      * intros Hd. apply Hn. apply NoDup_app. split_and!; [done|set_solver|apply NoDup_singleton].
      * intros Hr. rewrite (Hf Hr) in Hr. done.
      * intros Hall. destruct Hx. apply Hall. left.
Qed.

Definition tag_set (a : Attribute) : gset str := list_to_set (split_tags (tags a)).

Lemma split_tags_add_tags a t x :
  x ∈ split_tags (tags (add_tags a t)) <-> x ∈ split_tags (tags a) \/ x ∈ split_tags t.
Proof.
  unfold add_tags.
  destruct (push_new_spec (split_tags t) (split_tags (tags a), false)) as (He & _ & Hf & _).
  destruct (foldl _ _ _) as [l b] eqn:E. simpl in *. destruct b; simpl.
  - rewrite split_tags_join; [apply He|].
    intros y [Hy|Hy]%He; by eapply split_tags_ok.
  - specialize (Hf eq_refl). simplify_eq. apply He.
Qed.

Lemma tag_set_add_tags a t : tag_set (add_tags a t) = tag_set a ∪ list_to_set (split_tags t).
Proof. apply set_eq. intros x. unfold tag_set. rewrite elem_of_union, !elem_of_list_to_set. apply split_tags_add_tags. Qed.

Lemma add_tags_id a t : list_to_set (split_tags t) ⊆ tag_set a -> add_tags a t = a.
Proof.
  intros Hs. unfold add_tags.
  destruct (push_new_spec (split_tags t) (split_tags (tags a), false)) as (_ & _ & _ & Hid).
  rewrite Hid; [done|]. intros x Hx. simpl.
  specialize (Hs x). unfold tag_set in Hs. rewrite !elem_of_list_to_set in Hs. auto.
Qed.

Lemma add_tags_frame a t :
  value (add_tags a t) = value a /\ first_seen (add_tags a t) = first_seen a
  /\ last_seen (add_tags a t) = last_seen a /\ counts (add_tags a t) = counts a
  /\ tags_at (add_tags a t) = tags_at a /\ ttl (add_tags a t) = ttl a
  /\ stats (add_tags a t) = stats a.
Proof. unfold add_tags. by case_match. Qed.

Lemma split_tags_set_tags a t at_ :
  NoDup (split_tags (tags (set_tags a t at_)))
  /\ forall x, x ∈ split_tags (tags (set_tags a t at_)) <-> x ∈ split_tags t.
Proof.
  unfold set_tags. simpl.
  destruct (push_new_spec (split_tags t) ([], false)) as (He & Hn & _).
  rewrite split_tags_join.
  - split; [apply Hn; constructor|]. intros x. rewrite He. simpl. set_solver.
  - intros y [Hy|Hy]%He; [set_solver|by eapply split_tags_ok].
Qed.

(** ** The invariant of a stored attribute *)
Record attr_wf (a : Attribute) : Prop := {
  wf_counts : all_u64 (counts a);
  wf_stats : forall n b, stats a !! n = Some b -> all_u64 b;
  wf_window : (first_seen a <= last_seen a)%Z;
  wf_ttl : is_u64 (ttl a);
  wf_legacy_count : is_u64 (legacy_count a);
  wf_legacy_stats : all_u64 (legacy_stats a);
}.
#[export] Hint Resolve wf_counts wf_window wf_ttl wf_legacy_count wf_legacy_stats : sdb.

Lemma count_range a : is_u64 (count a).
Proof. apply wrap64_range. Qed.

Lemma new_wf v : attr_wf (new v).
Proof.
  split; simpl; try (by intros ?; rewrite lookup_empty); try done;
    try (by intros ??; rewrite lookup_empty).
Qed.

Lemma foldl_all_u64 {K A} `{Countable K} (g : A -> K * Z) l (m : gmap K Z) :
  all_u64 m -> all_u64 (foldl (fun m q => add_entry (g q).1 (g q).2 m) m l).
Proof. revert m. induction l; intros; simpl; auto with sdb. Qed.

(** ** Statistics *)
Lemma foldl_delete_lookup {K V} `{Countable K} (l : list K) (m : gmap K V) k :
  foldl (fun b k => delete k b) m l !! k = if bool_decide (k ∈ l) then None else m !! k.
Proof.
  revert m. induction l as [|x l IH]; intros m; [done|].
  cbn [foldl]. rewrite IH, lookup_delete.
  destruct (decide (k ∈ x :: l)) as [Hk|[Hx Hl]%not_elem_of_cons].
  - rewrite (bool_decide_eq_true_2 (k ∈ x :: l)) by done.
    apply elem_of_cons in Hk as [->|Hk]; [|by rewrite bool_decide_eq_true_2].
    rewrite decide_True by done. by destruct (bool_decide _).
  - rewrite !bool_decide_eq_false_2, decide_False by (done || by apply not_elem_of_cons). done.
Qed.

Lemma foldl_delete_size {K V} `{Countable K} (l : list K) (m : gmap K V) :
  NoDup l -> (forall k, k ∈ l -> is_Some (m !! k)) ->
  size (foldl (fun b k => delete k b) m l) = size m - length l.
Proof.
  intros Hd. revert m. induction Hd as [|x l Hx Hd IH]; intros m Hin; simpl; [lia|].
  rewrite IH.
  - destruct (Hin x) as [v Hv]; [by left|]. rewrite map_size_delete_Some by eauto. lia.
  - intros k Hk. rewrite lookup_delete_ne by (intros ->; done). apply Hin. by right.
Qed.

(** What [trim_stats] leaves of one node's buckets. *)
Definition trimmed_buckets (keep : nat) (b : gmap Z Z) : gmap Z Z :=
  if bool_decide (keep = 0 \/ size b <= keep) then b
  else foldl (fun b k => delete k b) b (take (size b - keep) (btree_keys b)).

Lemma trim_stats_lookup a node keep n :
  stats (trim_stats a node keep) !! n
  = if decide (n = node) then trimmed_buckets keep <$> stats a !! n else stats a !! n.
Proof.
  unfold trim_stats, trimmed_buckets. destruct (decide (n = node)) as [->|Hn].
  - destruct (stats a !! node) as [b|] eqn:E; simpl; [|by rewrite E].
    case_bool_decide; [done|]. simpl. by rewrite lookup_insert_eq.
  - destruct (stats a !! node) as [b|] eqn:E; simpl; [|done].
    case_bool_decide; [done|]. simpl. by rewrite lookup_insert_ne.
Qed.

Lemma trimmed_buckets_subseteq keep b : trimmed_buckets keep b ⊆ b.
Proof.
  unfold trimmed_buckets. case_bool_decide; [done|]. apply map_subseteq_spec. intros k v.
  rewrite foldl_delete_lookup. by case_bool_decide.
Qed.

Lemma trimmed_buckets_size keep b :
  keep <> 0 -> size (trimmed_buckets keep b) = Nat.min (size b) keep.
Proof.
  intros Hk. unfold trimmed_buckets. case_bool_decide as Hc; [lia|].
  rewrite foldl_delete_size.
  - rewrite length_take, btree_keys_length. lia.
  - eapply sublist_NoDup; [apply (btree_keys_NoDup b)|apply sublist_take].
  - intros k Hin. apply elem_of_btree_keys. by apply (subseteq_take (size b - keep)).
Qed.

(** Sorted lists: what is taken is below what is dropped. *)
Lemma take_below {K} (R : relation K) (l : list K) n x y :
  StronglySorted R l -> NoDup l -> x ∈ take n l -> y ∈ l -> y ∉ take n l -> R x y /\ x <> y.
Proof.
  intros Hs Hd Hx Hy Hny. split; [|by intros ->].
  rewrite <- (take_drop n l) in Hs, Hy. apply elem_of_app in Hy as [?|Hy]; [done|].
  revert Hs Hx Hy. generalize (take n l) as u, (drop n l) as v. clear.
  induction u as [|a u IH]; intros v Hs Hx Hy; [by apply not_elem_of_nil in Hx|].
  simpl in Hs. apply StronglySorted_inv in Hs as [Hs Hall].
  apply elem_of_cons in Hx as [->|Hx]; [|eauto].
  rewrite Forall_forall in Hall. apply Hall. apply elem_of_app. by right.
Qed.

Lemma trimmed_buckets_newest keep b old kept :
  is_Some (b !! old) -> trimmed_buckets keep b !! old = None ->
  is_Some (trimmed_buckets keep b !! kept) -> (old < kept)%Z.
Proof.
  unfold trimmed_buckets. case_bool_decide as Hc; [intros [? E] E'; congruence|].
  rewrite !foldl_delete_lookup. intros [v Hold] Hgone Hkept.
  destruct (decide (old ∈ take (size b - keep) (btree_keys b))) as [Ho|Ho];
    [|rewrite bool_decide_eq_false_2 in Hgone by done; congruence].
  destruct (decide (kept ∈ take (size b - keep) (btree_keys b))) as [Hk|Hk];
    [rewrite bool_decide_eq_true_2 in Hkept by done; by destruct Hkept|].
  rewrite bool_decide_eq_false_2 in Hkept by done.
  destruct (take_below key_le (btree_keys b) (size b - keep) old kept) as [Hle Hne];
    eauto using btree_keys_sorted, btree_keys_NoDup.
  { by apply elem_of_btree_keys. }
  change (old <= kept)%Z in Hle. lia.
Qed.

(** ** Counting *)
Lemma trim_stats_frame a node keep :
  counts (trim_stats a node keep) = counts a /\ first_seen (trim_stats a node keep) = first_seen a
  /\ last_seen (trim_stats a node keep) = last_seen a /\ tags (trim_stats a node keep) = tags a
  /\ tags_at (trim_stats a node keep) = tags_at a /\ ttl (trim_stats a node keep) = ttl a
  /\ value (trim_stats a node keep) = value a
  /\ legacy_count (trim_stats a node keep) = legacy_count a
  /\ legacy_stats (trim_stats a node keep) = legacy_stats a.
Proof. unfold trim_stats. by repeat case_match. Qed.

(** The window after one more sighting. *)
Definition seen_window (a : Attribute) (w : Z) : Z * Z :=
  if bool_decide (count a = 0%Z) then (w, w)
  else (Z.min (first_seen a) w, Z.max (last_seen a) w).

Lemma increment_fields a node w keep :
  let a' := increment a node w keep in
  (first_seen a', last_seen a') = seen_window a w
  /\ counts a' = add_entry node 1 (counts a)
  /\ (forall n, stats a' !! n
        = if decide (n = node)
          then Some (trimmed_buckets keep (add_entry (bucket_of w) 1 (default ∅ (stats a !! n))))
          else stats a !! n)
  /\ tags a' = tags a /\ tags_at a' = tags_at a /\ ttl a' = ttl a /\ value a' = value a
  /\ legacy_count a' = legacy_count a /\ legacy_stats a' = legacy_stats a.
Proof.
  unfold increment, seen_window.
  set (a1 := if bool_decide (count a = 0%Z) then _ else _).
  assert (Ha1 : (first_seen a1, last_seen a1)
                = (if bool_decide (count a = 0%Z) then (w, w)
                   else (Z.min (first_seen a) w, Z.max (last_seen a) w))
                /\ counts a1 = counts a /\ stats a1 = stats a /\ tags a1 = tags a
                /\ tags_at a1 = tags_at a /\ ttl a1 = ttl a /\ value a1 = value a
                /\ legacy_count a1 = legacy_count a /\ legacy_stats a1 = legacy_stats a).
  { subst a1. repeat (case_bool_decide; simpl in * ); split_and!; try done; f_equal; lia. }
  destruct Ha1 as (Hw & Hc & Hs & Ht & Hta & Httl & Hv & Hlc & Hls).
  destruct (trim_stats_frame (make_stats a1 node w) node keep)
    as (Ec & Ef & El & Et & Eta & Ettl & Ev & Elc & Els).
  simpl. rewrite Ec, Ef, El, Et, Eta, Ettl, Ev, Elc, Els. unfold make_stats. simpl.
  split_and!; try congruence.
  intros n. rewrite trim_stats_lookup. simpl.
  destruct (decide (n = node)) as [->|Hn].
  - by rewrite lookup_insert_eq, Hs.
  - by rewrite lookup_insert_ne, Hs.
Qed.

Lemma all_u64_trimmed keep b : all_u64 b -> all_u64 (trimmed_buckets keep b).
Proof.
  intros Hb k v Hk. eapply Hb, lookup_weaken; [done|apply trimmed_buckets_subseteq].
Qed.

Lemma stats_default_u64 a n : attr_wf a -> all_u64 (default ∅ (stats a !! n)).
Proof.
  intros Ha. destruct (stats a !! n) eqn:E; simpl; [by eapply wf_stats|apply map_Forall_empty].
Qed.

Lemma increment_wf a node w keep : attr_wf a -> attr_wf (increment a node w keep).
Proof.
  intros Ha. destruct (increment_fields a node w keep) as (Hw & Hc & Hs & _ & _ & Ht & _ & Hlc & Hls).
  split; rewrite ?Hc, ?Ht, ?Hlc, ?Hls; auto with sdb.
  - intros n b. rewrite Hs. case_decide; [|by apply wf_stats]. intros [= <-].
    auto using all_u64_trimmed, all_u64_add_entry, stats_default_u64.
  - unfold seen_window in Hw. pose proof (wf_window a Ha). case_bool_decide; simplify_eq; lia.
Qed.

Lemma count_increment a node w keep :
  attr_wf a -> (map_total (counts a) + 1 < U64_MODULUS)%Z ->
  count (increment a node w keep) = (count a + 1)%Z.
Proof.
  intros Ha Hb. destruct (increment_fields a node w keep) as (_ & Hc & _).
  pose proof (map_total_nonneg _ (wf_counts a Ha)).
  pose proof (map_total_ge _ node (wf_counts a Ha)).
  pose proof (all_u64_default _ node (wf_counts a Ha)) as [? ?].
  unfold count. rewrite Hc, map_total_add_entry; [|split; lia].
  rewrite !wrap64_id; [done|split; lia..].
Qed.

(** Recording a sighting adds exactly one to the total and to the writing
    server's own entry, leaves every other server's count and buckets, the tags
    and the TTL alone, and makes the seen window the sighting itself when it is
    the first one and the hull of the old window and the sighting otherwise. *)
Theorem increment_correct a node w keep :
  attr_wf a -> (map_total (counts a) + 1 < U64_MODULUS)%Z ->
  let a' := increment a node w keep in
  attr_wf a'
  /\ count a' = (count a + 1)%Z
  /\ counts a' !! node = Some (default 0 (counts a !! node) + 1)%Z
  /\ (forall n, n <> node -> counts a' !! n = counts a !! n /\ stats a' !! n = stats a !! n)
  /\ (count a = 0%Z -> first_seen a' = w /\ last_seen a' = w)
  /\ (count a <> 0%Z -> first_seen a' = Z.min (first_seen a) w
                        /\ last_seen a' = Z.max (last_seen a) w)
  /\ tags a' = tags a /\ tags_at a' = tags_at a /\ ttl a' = ttl a /\ value a' = value a.
Proof.
  intros Ha Hb a'.
  destruct (increment_fields a node w keep) as (Hw & Hc & Hs & Ht & Hta & Httl & Hv & _).
  fold a' in Hw, Hc, Hs, Ht, Hta, Httl, Hv.
  pose proof (map_total_ge _ node (wf_counts a Ha)).
  pose proof (all_u64_default _ node (wf_counts a Ha)) as [? ?].
  unfold seen_window in Hw.
  split_and!; try done.
  - by apply increment_wf.
  - by apply count_increment.
  - rewrite Hc. unfold add_entry. rewrite lookup_insert_eq. f_equal. apply wrap64_id. split; lia.
  - intros n Hn. rewrite Hc, Hs. unfold add_entry.
    by rewrite lookup_insert_ne, decide_False by done.
  - intros E. rewrite bool_decide_eq_true_2 in Hw by done. by simplify_eq.
  - intros E. rewrite bool_decide_eq_false_2 in Hw by done. by simplify_eq.
Qed.

Definition demo_attr : Attribute :=
  increment (increment (new (lit "1.2.3.4")) (lit "n1") (5000 * NANOS) 2) (lit "n2") (100 * NANOS) 2.

Lemma demo_attr_wf : attr_wf demo_attr.
Proof. apply increment_wf, increment_wf, new_wf. Qed.

Lemma increment_correct_witness :
  count (increment demo_attr (lit "n1") (9000 * NANOS) 2) = 3%Z
  /\ first_seen (increment demo_attr (lit "n1") (9000 * NANOS) 2) = (100 * NANOS)%Z.
Proof.
  pose proof (increment_correct demo_attr (lit "n1") (9000 * NANOS) 2 demo_attr_wf
                ltac:(vm_compute; reflexivity)) as (_ & Hc & _ & _ & _ & Hf & _).
  split; [rewrite Hc; vm_compute; reflexivity|].
  destruct Hf as [-> _]; vm_compute; [discriminate|reflexivity].
Defined.

(** With a retention of [keep > 0] hourly buckets, a server that records a
    sighting afterwards holds at most [keep] of its own buckets, every bucket
    it dropped is older than every bucket it kept, and what it kept carries the
    hits it had; other servers' buckets are not spent. *)
Theorem retention_keeps_newest a node w keep :
  keep <> 0 ->
  let before := add_entry (bucket_of w) 1 (default ∅ (stats a !! node)) in
  exists after, stats (increment a node w keep) !! node = Some after
  /\ size after = Nat.min (size before) keep
  /\ after ⊆ before
  /\ (forall old kept, is_Some (before !! old) -> after !! old = None ->
        is_Some (after !! kept) -> (old < kept)%Z)
  /\ (forall n, n <> node -> stats (increment a node w keep) !! n = stats a !! n).
Proof.
  intros Hk before. destruct (increment_fields a node w keep) as (_ & _ & Hs & _).
  exists (trimmed_buckets keep before). split_and!.
  - by rewrite Hs, decide_True.
  - by apply trimmed_buckets_size.
  - apply trimmed_buckets_subseteq.
  - intros old kept. apply trimmed_buckets_newest.
  - intros n Hn. by rewrite Hs, decide_False.
Qed.

Lemma retention_keeps_newest_witness :
  exists after, stats (increment demo_attr (lit "n1") (9000 * NANOS) 1) !! lit "n1" = Some after
  /\ size after = 1.
Proof.
  destruct (retention_keeps_newest demo_attr (lit "n1") (9000 * NANOS) 1 ltac:(discriminate))
    as (after & H1 & H2 & _).
  exists after. split; [exact H1|]. rewrite H2. vm_compute. reflexivity.
Defined.

(** A server gives back what it put in. *)
Lemma decrement_spec a node :
  attr_wf a -> map_Forall (fun _ c => (0 < c)%Z) (counts a) ->
  (map_total (counts a) < U64_MODULUS)%Z ->
  let r := decrement a node in
  counts r.1 = (if decide (default 0 (counts a !! node) <= 1)%Z then delete node (counts a)
                else <[node := (default 0 (counts a !! node) - 1)%Z]> (counts a))
  /\ r.2 = count r.1
  /\ map_Forall (fun _ c => (0 < c)%Z) (counts r.1)
  /\ count r.1 = match counts a !! node with Some _ => count a - 1 | None => count a end%Z.
Proof.
  intros Ha Hpos Hb r. subst r. unfold decrement.
  pose proof (map_total_nonneg _ (wf_counts a Ha)).
  pose proof (map_total_delete (counts a) node) as Htd.
  pose proof (map_total_nonneg (delete node (counts a)) (all_u64_delete _ _ (wf_counts a Ha))).
  unfold count.
  destruct (counts a !! node) as [c|] eqn:E; simpl in *.
  - pose proof (Hpos _ _ E) as Hc. simpl in Hc. unfold u64_saturating_sub.
    case_bool_decide; simpl.
    + rewrite decide_True by lia. split_and!; [done|done|by apply map_Forall_delete|].
      rewrite !wrap64_id by (split; lia). lia.
    + rewrite decide_False by lia. rewrite Z.max_r by lia. split_and!; [done|done| |].
      * apply map_Forall_insert_2; [lia|done].
      * rewrite map_total_update, E. simpl. rewrite !wrap64_id by (split; lia). lia.
  - by rewrite delete_id.
Qed.

Lemma migrate_noop a node : legacy_count a = 0%Z -> legacy_stats a = ∅ -> migrate a node = a.
Proof. unfold migrate. intros -> Hs. simpl. by rewrite Hs, bool_decide_eq_true_2. Qed.

(** Folding in a total written by an older build gives the loading server
    exactly that many more sightings, and doing it again changes nothing. *)
Theorem migrate_once a node :
  attr_wf a -> (map_total (counts a) + legacy_count a < U64_MODULUS)%Z ->
  count (migrate a node) = (count a + legacy_count a)%Z
  /\ legacy_count (migrate a node) = 0%Z /\ legacy_stats (migrate a node) = ∅
  /\ migrate (migrate a node) node = migrate a node.
Proof.
  intros Ha Hb. pose proof (wf_legacy_count a Ha) as [Hl0 _].
  pose proof (map_total_nonneg _ (wf_counts a Ha)).
  pose proof (map_total_ge _ node (wf_counts a Ha)).
  pose proof (all_u64_default _ node (wf_counts a Ha)) as [? ?].
  set (a1 := if bool_decide (0 < legacy_count a)%Z
             then clear_legacy_count (set_counts a (add_entry node (legacy_count a) (counts a)))
             else a).
  assert (Ha1 : count a1 = (count a + legacy_count a)%Z /\ legacy_count a1 = 0%Z).
  { subst a1. case_bool_decide; simpl; [|split; lia]. split; [|done]. unfold count. simpl.
    rewrite map_total_add_entry by (split; lia). rewrite !wrap64_id by (split; lia). lia. }
  destruct Ha1 as [Hc Hlc].
  assert (Hm : count (migrate a node) = count a1 /\ legacy_count (migrate a node) = 0%Z
               /\ legacy_stats (migrate a node) = ∅).
  { unfold migrate. fold a1. case_bool_decide as Hs; simpl; split_and!; try done. }
  destruct Hm as (Hmc & Hml & Hms). split_and!; [congruence|done|done|]. by apply migrate_noop.
Qed.

Definition demo_legacy : Attribute :=
  mkAttribute [] 0 0 {[lit "n1" := 3%Z]} [] 0 0 ∅ 4 {[3600%Z := 4%Z]}.

Lemma demo_legacy_wf : attr_wf demo_legacy.
Proof.
  split; simpl; [by apply map_Forall_singleton|intros n b [=]|done|done|done|].
  by apply map_Forall_singleton.
Qed.

Lemma migrate_once_witness : count (migrate demo_legacy (lit "n1")) = 7%Z.
Proof.
  exact (proj1 (migrate_once demo_legacy (lit "n1") demo_legacy_wf
                  ltac:(vm_compute; reflexivity))).
Defined.

(** ** Expiry *)

(** Instants [chrono] can hold are far inside [i64] seconds. *)
Definition sane_instant (t : Z) : Prop := (- 2 ^ 61 <= timestamp t <= 2 ^ 61)%Z.

(** An attribute is expired exactly when it has a TTL and more whole
    seconds than that TTL have passed since its last sighting: the saturating
    arithmetic is never observable, whatever [u64] the TTL is. *)
Theorem expiry_exact a now :
  sane_instant (last_seen a) -> sane_instant now -> is_u64 (ttl a) ->
  is_expired a now = true <-> (0 < ttl a)%Z /\ (timestamp (last_seen a) + ttl a < timestamp now)%Z.
Proof.
  unfold sane_instant, is_expired, expires_at. intros Hl Hn Ht.
  case_bool_decide as H0; [|split; [done|lia]].
  rewrite bool_decide_eq_true. unfold i64_saturating_add, clamp_i64.
  width.
Qed.

Lemma expiry_exact_witness :
  is_expired (set_ttl demo_attr 60) (5061 * NANOS) = true
  /\ ~ is_expired (set_ttl demo_attr 60) (5060 * NANOS) = true.
Proof.
  split.
  - apply (expiry_exact (set_ttl demo_attr 60) (5061 * NANOS)); vm_compute; repeat split; congruence.
  - intros He. apply (expiry_exact (set_ttl demo_attr 60) (5060 * NANOS)) in He as [_ He];
      [vm_compute in He; discriminate|vm_compute; split; congruence..].
Defined.

Lemma is_expired_mono a t1 t2 : (t1 <= t2)%Z -> is_expired a t1 = true -> is_expired a t2 = true.
Proof.
  unfold is_expired. intros Ht. destruct (expires_at a) as [d|]; [|done].
  rewrite !bool_decide_eq_true. pose proof (timestamp_mono _ _ Ht). lia.
Qed.

Lemma is_expired_no_ttl a now : ttl a = 0%Z -> is_expired a now = false.
Proof. unfold is_expired, expires_at. by intros ->. Qed.
