(* ===== verification/Convergence.v ===== *)
(** * Merging replicas

    What [Attribute::merge] of [src/src/attribute.rs] computes, field by field,
    as joins of semilattices, and the properties a galaxy relies on: a merge
    can be repeated and reordered, never rolls a count back, never touches the
    receiving server's own entry, and two servers that exchange their copies
    converge. *)

From stdpp Require Import base numbers list strings gmap sorting.
From S2P Require Import Prelude Attribute AttributeFacts.

(** ** The joins *)
Section Joins.
Context {K : Type} `{Countable K}.
Implicit Types (m : gmap K Z) (k : K).

Definition join_max (m1 m2 : gmap K Z) : gmap K Z :=
  merge (fun o1 o2 => match o2 with
                      | Some v => Some (Z.max (default 0%Z o1) v)
                      | None => o1
                      end) m1 m2.

Lemma lookup_join_max m1 m2 k :
  join_max m1 m2 !! k
  = match m2 !! k with Some v => Some (Z.max (default 0%Z (m1 !! k)) v) | None => m1 !! k end.
Proof. unfold join_max. rewrite lookup_merge. by destruct (m1 !! k), (m2 !! k). Qed.

Lemma join_max_idemp m1 m2 : join_max (join_max m1 m2) m2 = join_max m1 m2.
Proof.
  apply map_eq. intros k. rewrite !lookup_join_max.
  destruct (m2 !! k); simpl; [f_equal; lia|done].
Qed.

Lemma join_max_comm m m1 m2 : join_max (join_max m m1) m2 = join_max (join_max m m2) m1.
Proof.
  apply map_eq. intros k. rewrite !lookup_join_max.
  destruct (m1 !! k), (m2 !! k); simpl; try done. f_equal. lia.
Qed.

Lemma join_max_ge m1 m2 k : (default 0 (m1 !! k) <= default 0 (join_max m1 m2 !! k))%Z.
Proof. rewrite lookup_join_max. destruct (m2 !! k); simpl; lia. Qed.

Lemma all_u64_join_max m1 m2 : all_u64 m1 -> all_u64 m2 -> all_u64 (join_max m1 m2).
Proof.
  intros H1 H2 k v. rewrite lookup_join_max. destruct (m2 !! k) eqn:E; [|by apply H1].
  intros [= <-]. pose proof (all_u64_default m1 k H1). pose proof (H2 _ _ E). simpl in *.
  unfold is_u64 in *. lia.
Qed.

Lemma join_max_sym m1 m2 : all_u64 m1 -> all_u64 m2 -> join_max m1 m2 = join_max m2 m1.
Proof.
  intros W1 W2. apply map_eq. intros k. rewrite !lookup_join_max.
  pose proof (all_u64_default m1 k W1) as [? _]. pose proof (all_u64_default m2 k W2) as [? _].
  destruct (m1 !! k), (m2 !! k); simpl in *; try done; f_equal; lia.
Qed.

Lemma join_max_absorb m1 m2 :
  (forall k v, m2 !! k = Some v -> exists w, m1 !! k = Some w /\ (v <= w)%Z) -> join_max m1 m2 = m1.
Proof.
  intros Hle. apply map_eq. intros k. rewrite lookup_join_max.
  destruct (m2 !! k) as [v|] eqn:E; [|done].
  destruct (Hle _ _ E) as (w & -> & ?). simpl. f_equal. lia.
Qed.

(** The loop of raises computes the join. *)
Lemma raise_all_lookup l m b k :
  NoDup l.*1 ->
  (foldl raise_entry (m, b) l).1 !! k
  = match (list_to_map l : gmap K Z) !! k with
    | Some v => Some (Z.max (default 0%Z (m !! k)) v)
    | None => m !! k
    end.
Proof.
  revert m b. induction l as [|[x v] l IH]; intros m b Hd.
  - by rewrite list_to_map_nil, lookup_empty.
  - apply NoDup_cons in Hd as [Hx Hd]. cbn [foldl].
    destruct (raise_entry (m, b) (x, v)) as [m' b'] eqn:E. rewrite IH by done.
    assert (Hm' : m' = <[x := Z.max (default 0%Z (m !! x)) v]> m).
    { unfold raise_entry in E. simpl in E. case_bool_decide; simplify_eq; f_equal; lia. }
    subst m'. rewrite list_to_map_cons. destruct (decide (k = x)) as [->|Hk].
    + rewrite !lookup_insert_eq. by rewrite (not_elem_of_list_to_map_1 l x Hx).
    + by rewrite !lookup_insert_ne by done.
Qed.

Lemma raise_all_id l m b :
  (forall k v, (k, v) ∈ l -> exists w, m !! k = Some w /\ (v <= w)%Z) ->
  foldl raise_entry (m, b) l = (m, b).
Proof.
  induction l as [|[x v] l IH]; intros Hl; [done|]. cbn [foldl].
  destruct (Hl x v) as (w & Hw & Hv); [by left|].
  unfold raise_entry at 2. simpl. rewrite Hw. simpl.
  rewrite bool_decide_eq_false_2 by lia. rewrite insert_id by done.
  apply IH. intros. apply Hl. by right.
Qed.

Lemma raise_all_join `{!KeyOrder K} m1 m2 b :
  (foldl raise_entry (m1, b) (btree_iter m2)).1 = join_max m1 m2.
Proof.
  apply map_eq. intros k. rewrite raise_all_lookup by apply btree_iter_NoDup.
  by rewrite btree_iter_to_map, lookup_join_max.
Qed.

Lemma raise_all_join_id `{!KeyOrder K} m1 m2 b :
  foldl raise_entry (join_max m1 m2, b) (btree_iter m2) = (join_max m1 m2, b).
Proof.
  apply raise_all_id. intros k v Hv%elem_of_btree_iter.
  rewrite lookup_join_max, Hv. eexists. split; [done|lia].
Qed.
End Joins.

Definition join_stats (s1 s2 : gmap str (gmap Z Z)) : gmap str (gmap Z Z) :=
  merge (fun o1 o2 => match o2 with
                      | Some b => Some (join_max (default ∅ o1) b)
                      | None => o1
                      end) s1 s2.

Lemma lookup_join_stats s1 s2 n :
  join_stats s1 s2 !! n
  = match s2 !! n with Some b => Some (join_max (default ∅ (s1 !! n)) b) | None => s1 !! n end.
Proof. unfold join_stats. rewrite lookup_merge. by destruct (s1 !! n), (s2 !! n). Qed.

Lemma join_stats_idemp s1 s2 : join_stats (join_stats s1 s2) s2 = join_stats s1 s2.
Proof.
  apply map_eq. intros n. rewrite !lookup_join_stats.
  destruct (s2 !! n); simpl; [by rewrite join_max_idemp|done].
Qed.

Lemma join_stats_comm s s1 s2 : join_stats (join_stats s s1) s2 = join_stats (join_stats s s2) s1.
Proof.
  apply map_eq. intros n. rewrite !lookup_join_stats.
  destruct (s1 !! n), (s2 !! n); simpl; try done. by rewrite join_max_comm.
Qed.

(** ** The loops of [merge] *)
Lemma merge_counts_skip mine l m b n :
  foldl (merge_counts mine) (m, b, n) l
  = (foldl raise_entry (m, b) (filter (fun p => p.1 <> mine) l),
     n + length (filter (fun p => p.1 = mine) l)).
Proof.
  revert m b n. induction l as [|p l IH]; intros m b n; simpl; [by rewrite Nat.add_0_r|].
  unfold merge_counts at 2. simpl. case_bool_decide as Hp.
  - rewrite filter_cons_False, filter_cons_True by tauto. rewrite IH. simpl. f_equal. lia.
  - rewrite filter_cons_True, filter_cons_False by tauto. cbn [foldl].
    destruct (raise_entry (m, b) p) as [m' b']. apply IH.
Qed.

Lemma filter_iter_delete {V} (mine : str) (m : gmap str V) :
  filter (fun p => p.1 <> mine) (btree_iter m) ≡ₚ btree_iter (delete mine m).
Proof.
  apply NoDup_Permutation.
  - apply NoDup_filter, (NoDup_fmap_1 fst), btree_iter_NoDup.
  - apply (NoDup_fmap_1 fst), btree_iter_NoDup.
  - intros [k v]. rewrite list_elem_of_filter, !elem_of_btree_iter, lookup_delete_Some. simpl. naive_solver.
Qed.

Lemma merge_counts_join mine m m2 b n :
  (foldl (merge_counts mine) (m, b, n) (btree_iter m2)).1.1 = join_max m (delete mine m2).
Proof.
  rewrite merge_counts_skip. simpl.
  assert (Hd : NoDup (filter (fun p => p.1 <> mine) (btree_iter m2)).*1).
  { rewrite filter_iter_delete. apply btree_iter_NoDup. }
  apply map_eq. intros k. rewrite raise_all_lookup, lookup_join_max by done.
  by rewrite (list_to_map_proper _ _ Hd (filter_iter_delete mine m2)), btree_iter_to_map.
Qed.

Lemma merge_counts_join_id mine m m2 n :
  (foldl (merge_counts mine) (join_max m (delete mine m2), false, n) (btree_iter m2)).1.2 = false.
Proof.
  rewrite merge_counts_skip. simpl. rewrite raise_all_id; [done|].
  intros k v. rewrite filter_iter_delete. intros Hv%elem_of_btree_iter.
  rewrite lookup_join_max, Hv. eexists. split; [done|lia].
Qed.

(** One node's buckets after the statistics loop. *)
Lemma merge_stats_lookup mine l s b n :
  NoDup l.*1 ->
  (foldl (merge_stats mine) (s, b) l).1 !! n
  = match (list_to_map l : gmap str (gmap Z Z)) !! n with
    | Some t => if decide (n = mine) then s !! n else Some (join_max (default ∅ (s !! n)) t)
    | None => s !! n
    end.
Proof.
  revert s b. induction l as [|[x t] l IH]; intros s b Hd.
  - by rewrite list_to_map_nil, lookup_empty.
  - apply NoDup_cons in Hd as [Hx Hd]. cbn [foldl].
    destruct (merge_stats mine (s, b) (x, t)) as [s' b'] eqn:E. rewrite IH by done.
    unfold merge_stats in E. simpl in E. rewrite list_to_map_cons.
    destruct (decide (n = x)) as [->|Hn].
    + rewrite lookup_insert_eq, (not_elem_of_list_to_map_1 l x Hx).
      case_bool_decide as Hm; simplify_eq; [by rewrite decide_True|].
      rewrite decide_False, lookup_insert_eq by done. by rewrite raise_all_join.
    + rewrite lookup_insert_ne by done.
      assert (s' !! n = s !! n) as ->; [|done].
      case_bool_decide; simplify_eq; [done|]. by rewrite lookup_insert_ne.
Qed.

Lemma merge_stats_join mine s s2 b :
  (foldl (merge_stats mine) (s, b) (btree_iter s2)).1 = join_stats s (delete mine s2).
Proof.
  apply map_eq. intros n. rewrite merge_stats_lookup by apply btree_iter_NoDup.
  rewrite btree_iter_to_map, lookup_join_stats, lookup_delete.
  destruct (decide (mine = n)) as [->|Hn].
  - by destruct (s2 !! n); [rewrite decide_True|].
  - by destruct (s2 !! n); [rewrite decide_False|].
Qed.

Lemma merge_stats_id mine l s b :
  (forall n t, (n, t) ∈ l -> n <> mine ->
     exists u, s !! n = Some u /\ foldl raise_entry (u, b) (btree_iter t) = (u, b)) ->
  foldl (merge_stats mine) (s, b) l = (s, b).
Proof.
  induction l as [|[x t] l IH]; intros Hl; [done|]. cbn [foldl].
  assert (Hstep : merge_stats mine (s, b) (x, t) = (s, b)).
  { unfold merge_stats. simpl. case_bool_decide as Hx; [done|].
    destruct (Hl x t) as (u & Hu & Hr); [by left|done|].
    rewrite Hu. simpl. rewrite Hr. simpl. by rewrite insert_id. }
  rewrite Hstep. apply IH. intros. apply Hl; [by right|done].
Qed.

Lemma merge_stats_join_id mine s s2 b :
  foldl (merge_stats mine) (join_stats s (delete mine s2), b) (btree_iter s2)
  = (join_stats s (delete mine s2), b).
Proof.
  apply merge_stats_id. intros n t Ht%elem_of_btree_iter Hn.
  rewrite lookup_join_stats, lookup_delete_ne, Ht by done.
  eexists. split; [done|]. apply raise_all_join_id.
Qed.

(** ** Tags as a last-write-wins register over a grow-only set *)
Lemma tags_merge_tags_ext a1 a2 i :
  tags a1 = tags a2 -> tags_at a1 = tags_at a2 ->
  tags (merge_tags a1 i) = tags (merge_tags a2 i) /\ tags_at (merge_tags a1 i) = tags_at (merge_tags a2 i).
Proof.
  intros Ht Hat. unfold merge_tags, add_tags. rewrite Hat, Ht. repeat case_match; done.
Qed.

Lemma merge_tags_frame a i :
  value (merge_tags a i) = value a /\ first_seen (merge_tags a i) = first_seen a
  /\ last_seen (merge_tags a i) = last_seen a /\ counts (merge_tags a i) = counts a
  /\ ttl (merge_tags a i) = ttl a /\ stats (merge_tags a i) = stats a
  /\ legacy_count (merge_tags a i) = legacy_count a
  /\ legacy_stats (merge_tags a i) = legacy_stats a.
Proof. unfold merge_tags, add_tags. by repeat case_match. Qed.

Definition tags_of (t : str) : gset str := list_to_set (split_tags t).

Definition join_reg (x y : Z * gset str) : Z * gset str :=
  if decide (x.1 < y.1)%Z then y else if decide (y.1 < x.1)%Z then x else (x.1, x.2 ∪ y.2).

Lemma join_reg_comm x y z : join_reg (join_reg x y) z = join_reg (join_reg x z) y.
Proof.
  destruct x as [x X], y as [y Y], z as [z Z0]. unfold join_reg. simpl.
  repeat (case_decide; simpl in * ); try lia; try done; f_equal; try lia; set_solver.
Qed.

Lemma join_reg_swap x y : join_reg x y = join_reg y x.
Proof.
  destruct x as [x X], y as [y Y]. unfold join_reg. simpl.
  repeat (case_decide; simpl in * ); try lia; try done; f_equal; try lia; set_solver.
Qed.

Definition reg (a : Attribute) : Z * gset str := (tags_at a, tag_set a).
Definition m_reg (i : Merge) : Z * gset str := (m_tags_at i, tags_of (m_tags i)).

Lemma reg_merge_tags a i : reg (merge_tags a i) = join_reg (reg a) (m_reg i).
Proof.
  unfold reg, m_reg, join_reg, merge_tags. simpl.
  case_bool_decide; [by rewrite decide_True|]. rewrite decide_False by done.
  case_bool_decide; [by rewrite decide_True|]. rewrite decide_False by done.
  destruct (m_tags i) as [|c r] eqn:E; simpl.
  { f_equal. assert (tags_of [] = ∅) as -> by reflexivity. set_solver. }
  rewrite <- E. f_equal; [by destruct (add_tags_frame a (m_tags i)) as (_ & _ & _ & _ & -> & _)|].
  apply tag_set_add_tags.
Qed.

Lemma merge_tags_id a i :
  (m_tags_at i <= tags_at a)%Z ->
  (m_tags_at i = tags_at a -> tags_of (m_tags i) ⊆ tag_set a) -> merge_tags a i = a.
Proof.
  intros Hle Hsub. unfold merge_tags. rewrite bool_decide_eq_false_2 by lia.
  case_bool_decide; [done|]. case_match; [done|]. apply add_tags_id, Hsub. lia.
Qed.

Lemma merge_tags_reg_bound a i :
  (m_tags_at i <= tags_at (merge_tags a i))%Z
  /\ (m_tags_at i = tags_at (merge_tags a i) -> tags_of (m_tags i) ⊆ tag_set (merge_tags a i)).
Proof.
  pose proof (reg_merge_tags a i) as Hr. unfold reg, m_reg, join_reg in Hr. simpl in Hr.
  repeat case_decide; simplify_eq; rewrite ?H1, ?H2, ?H3; split; try lia; set_solver by lia.
Qed.

(** ** The merge, field by field *)
Section Fields.
Context `{Chrono}.
Implicit Types (a : Attribute) (i : Merge).

Definition merged (a : Attribute) (i : Merge) (mine : str) : Attribute := (attr_merge a i mine).1.
Arguments merged a i mine : simpl never.

Lemma attr_merge_fields a i mine :
  let a' := merged a i mine in
  value a' = value a
  /\ counts a' = join_max (counts a) (delete mine (m_counts i))
  /\ stats a' = join_stats (stats a) (delete mine (m_stats i))
  /\ first_seen a' = (merge_first (unseen a) (first_seen a) (m_first_seen i)).1
  /\ last_seen a' = (merge_last (unseen a) (last_seen a) (m_last_seen i)).1
  /\ ttl a' = merge_ttl (ttl a) (m_ttl i)
  /\ tags a' = tags (merge_tags a i)
  /\ reg a' = join_reg (reg a) (m_reg i)
  /\ legacy_count a' = legacy_count a /\ legacy_stats a' = legacy_stats a.
Proof.
  unfold merged, attr_merge. simpl.
  set (a2 := set_window _ _ _).
  destruct (merge_tags_frame a2 i) as (-> & -> & -> & -> & -> & -> & -> & ->).
  destruct (tags_merge_tags_ext a2 a i eq_refl eq_refl) as [Ht Hat].
  pose proof (reg_merge_tags a i) as Hr. unfold reg, tag_set in Hr |- *. simpl. rewrite Ht, Hat.
  subst a2. simpl. by rewrite merge_counts_join, merge_stats_join.
Qed.

(** [unseen] is gone as soon as something has been counted. *)
Lemma unseen_false a : count a <> 0%Z -> unseen a = false.
Proof. intros Hc. unfold unseen. by rewrite bool_decide_eq_false_2. Qed.

Lemma merge_first_false ours theirs t :
  from_timestamp theirs = Some t -> (merge_first false ours theirs).1 = Z.min ours t.
Proof. unfold merge_first. intros ->. simpl. case_bool_decide; simpl; lia. Qed.

Lemma merge_last_false ours theirs t :
  from_timestamp theirs = Some t -> (merge_last false ours theirs).1 = Z.max ours t.
Proof. unfold merge_last. intros ->. simpl. case_bool_decide; simpl; lia. Qed.

Lemma merge_first_settled u ours theirs :
  merge_first false (merge_first u ours theirs).1 theirs
  = ((merge_first u ours theirs).1, false).
Proof.
  unfold merge_first. destruct (from_timestamp theirs) as [t|]; [|done]. simpl.
  destruct (u || bool_decide (t < ours)%Z) eqn:E; simpl.
  - by rewrite bool_decide_eq_false_2 by lia.
  - apply orb_false_iff in E as [_ ->]. done.
Qed.

Lemma merge_last_settled u ours theirs :
  merge_last false (merge_last u ours theirs).1 theirs
  = ((merge_last u ours theirs).1, false).
Proof.
  unfold merge_last. destruct (from_timestamp theirs) as [t|]; [|done]. simpl.
  destruct (u || bool_decide (ours < t)%Z) eqn:E; simpl.
  - by rewrite bool_decide_eq_false_2 by lia.
  - apply orb_false_iff in E as [_ ->]. done.
Qed.

Lemma merge_ttl_idemp x y : merge_ttl (merge_ttl x y) y = merge_ttl x y.
Proof. unfold merge_ttl. repeat case_bool_decide; lia. Qed.

Lemma merge_ttl_comm x y z : merge_ttl (merge_ttl x y) z = merge_ttl (merge_ttl x z) y.
Proof. unfold merge_ttl. repeat case_bool_decide; lia. Qed.

Lemma merge_ttl_swap x y : merge_ttl x y = merge_ttl y x.
Proof. unfold merge_ttl. repeat case_bool_decide; lia. Qed.

Lemma attr_ext a b :
  value a = value b -> first_seen a = first_seen b -> last_seen a = last_seen b ->
  counts a = counts b -> tags a = tags b -> tags_at a = tags_at b -> ttl a = ttl b ->
  stats a = stats b -> legacy_count a = legacy_count b -> legacy_stats a = legacy_stats b -> a = b.
Proof. destruct a, b. simpl. intros. by subst. Qed.

(** What the [changed] flag reports. *)
Lemma attr_merge_changed a i mine :
  changed (attr_merge a i mine).2
  = (foldl (merge_stats mine)
       (stats a, (foldl (merge_counts mine) (counts a, false, 0) (btree_iter (m_counts i))).1.2)
       (btree_iter (m_stats i))).2
    || (merge_first (unseen a) (first_seen a) (m_first_seen i)).2
    || (merge_last (unseen a) (last_seen a) (m_last_seen i)).2
    || bool_decide (tags (merge_tags a i) <> tags a)
    || bool_decide (merge_ttl (ttl a) (m_ttl i) <> ttl a).
Proof.
  unfold attr_merge. simpl. set (x := set_window _ _ _).
  destruct (merge_tags_frame x i) as (_ & _ & _ & _ & -> & _).
  by destruct (tags_merge_tags_ext x a i eq_refl eq_refl) as [-> _].
Qed.

(** The tags a merge left are a fixed point of the same merge. *)
Lemma merge_tags_settled a i mine : merge_tags (merged a i mine) i = merged a i mine.
Proof.
  destruct (attr_merge_fields a i mine) as (_ & _ & _ & _ & _ & _ & Ht & Hr & _).
  rewrite <- reg_merge_tags in Hr.
  pose proof (f_equal fst Hr) as Hat. pose proof (f_equal snd Hr) as Hts.
  change (tags_at (merged a i mine) = tags_at (merge_tags a i)) in Hat.
  change (tag_set (merged a i mine) = tag_set (merge_tags a i)) in Hts.
  destruct (merge_tags_reg_bound a i) as [Hle Hsub].
  apply merge_tags_id; [by rewrite Hat|]. rewrite Hat, Hts. apply Hsub.
Qed.

(** Applying a peer's copy a second time leaves the value exactly as the
    first application left it and reports no change, so a sync can be
    retried; the merged value only has to hold at least one sighting. *)
Theorem merge_idempotent a i mine :
  count (merged a i mine) <> 0%Z ->
  merged (merged a i mine) i mine = merged a i mine
  /\ changed (attr_merge (merged a i mine) i mine).2 = false.
Proof.
  intros Hc. pose proof (unseen_false _ Hc) as Hu.
  pose proof (merge_tags_settled a i mine) as Hset.
  destruct (attr_merge_fields a i mine) as (_ & Hcs & Hst & Hf & Hl & Httl & _).
  generalize dependent (merged a i mine). intros b _ Hu Hset Hcs Hst Hf Hl Httl. split.
  - destruct (attr_merge_fields b i mine)
      as (Ev & Ecs & Est & Ef & El & Ettl & Et & Er & Elc & Els).
    rewrite <- reg_merge_tags, Hset in Er. pose proof (f_equal fst Er) as Eat.
    change (tags_at (merged b i mine) = tags_at b) in Eat.
    rewrite Hu in Ef, El. apply attr_ext; try congruence.
    + by rewrite Ef, Hf, merge_first_settled.
    + by rewrite El, Hl, merge_last_settled.
    + by rewrite Ecs, Hcs, join_max_idemp.
    + by rewrite Ettl, Httl, merge_ttl_idemp.
    + by rewrite Est, Hst, join_stats_idemp.
  - rewrite attr_merge_changed, Hu, Hset, Hst, Hcs, merge_counts_join_id, merge_stats_join_id.
    rewrite Hf, Hl, Httl, merge_first_settled, merge_last_settled, merge_ttl_idemp. simpl.
    by rewrite !bool_decide_eq_false_2 by tauto.
Qed.

(** Equality of stored values, up to the order tags are written in. *)
Record attr_equiv (a b : Attribute) : Prop := {
  eqv_value : value a = value b;
  eqv_window : (first_seen a, last_seen a) = (first_seen b, last_seen b);
  eqv_counts : counts a = counts b;
  eqv_stats : stats a = stats b;
  eqv_ttl : ttl a = ttl b;
  eqv_tags : reg a = reg b;
  eqv_legacy : (legacy_count a, legacy_stats a) = (legacy_count b, legacy_stats b);
}.

#[export] Instance attr_equiv_equivalence : Equivalence attr_equiv.
Proof.
  split.
  - by intros a.
  - intros a b []. by split.
  - intros a b c [] []. split; by etrans.
Qed.

#[export] Instance merged_proper : Proper (attr_equiv ==> (=) ==> (=) ==> attr_equiv) merged.
Proof.
  intros a b [Hv Hw Hc Hs Ht Hr Hl] i ? <- mine ? <-.
  destruct (attr_merge_fields a i mine) as (Av & Ac & As & Af & Al & At & _ & Ar & Alc & Als).
  destruct (attr_merge_fields b i mine) as (Bv & Bc & Bs & Bf & Bl & Bt & _ & Br & Blc & Bls).
  injection Hw as Hw1 Hw2. injection Hl as Hl1 Hl2.
  assert (Hu : unseen a = unseen b) by (unfold unseen, count; by rewrite Hc, Hw1).
  split; congruence.
Qed.

(** Two peers' copies can be merged in either order: the results agree on
    every field, the tags as a set. *)
Theorem merge_order_independent a i j mine :
  is_Some (from_timestamp (m_first_seen i)) -> is_Some (from_timestamp (m_last_seen i)) ->
  is_Some (from_timestamp (m_first_seen j)) -> is_Some (from_timestamp (m_last_seen j)) ->
  count (merged a i mine) <> 0%Z -> count (merged a j mine) <> 0%Z ->
  attr_equiv (merged (merged a i mine) j mine) (merged (merged a j mine) i mine).
Proof.
  intros [fi Hfi] [li Hli] [fj Hfj] [lj Hlj] Hci Hcj.
  destruct (attr_merge_fields (merged a i mine) j mine) as (V1 & C1 & S1 & F1 & L1 & T1 & _ & R1 & Lc1 & Ls1).
  destruct (attr_merge_fields (merged a j mine) i mine) as (V2 & C2 & S2 & F2 & L2 & T2 & _ & R2 & Lc2 & Ls2).
  rewrite (unseen_false _ Hci) in F1, L1. rewrite (unseen_false _ Hcj) in F2, L2.
  erewrite merge_first_false in F1 by eassumption. erewrite merge_first_false in F2 by eassumption.
  erewrite merge_last_false in L1 by eassumption. erewrite merge_last_false in L2 by eassumption.
  destruct (attr_merge_fields a i mine) as (Vi & Ci & Si & Fi & Li & Ti & _ & Ri & Lci & Lsi).
  destruct (attr_merge_fields a j mine) as (Vj & Cj & Sj & Fj & Lj & Tj & _ & Rj & Lcj & Lsj).
  split.
  - congruence.
  - rewrite F1, F2, L1, L2, Fi, Fj, Li, Lj. unfold merge_first, merge_last.
    rewrite Hfi, Hfj, Hli, Hlj.
    destruct (unseen a); simpl; repeat case_bool_decide; simpl; f_equal; lia.
  - rewrite C1, C2, Ci, Cj. apply join_max_comm.
  - rewrite S1, S2, Si, Sj. apply join_stats_comm.
  - rewrite T1, T2, Ti, Tj. apply merge_ttl_comm.
  - rewrite R1, R2, Ri, Rj. apply join_reg_comm.
  - congruence.
Qed.

(** A merge never lowers any server's count, ignores everything a peer
    says about the receiving server, and takes the greater of the two counts
    for every other server. *)
Theorem merge_authority a i mine :
  let a' := merged a i mine in
  counts a' !! mine = counts a !! mine
  /\ stats a' !! mine = stats a !! mine
  /\ (forall n, (default 0 (counts a !! n) <= default 0 (counts a' !! n))%Z)
  /\ (forall n c, n <> mine -> m_counts i !! n = Some c ->
        counts a' !! n = Some (Z.max (default 0 (counts a !! n)) c)%Z)
  /\ (forall n, m_counts i !! n = None -> counts a' !! n = counts a !! n).
Proof.
  destruct (attr_merge_fields a i mine) as (_ & Hc & Hs & _).
  intros a'. unfold a'. rewrite Hc, Hs, lookup_join_max, lookup_join_stats, !lookup_delete_eq. split_and!; try done.
  - intros n. apply join_max_ge.
  - intros n c Hn Hi. by rewrite lookup_join_max, lookup_delete_ne, Hi.
  - intros n Hi. rewrite lookup_join_max, lookup_delete. case_decide; by rewrite ?Hi.
Qed.

Lemma merged_wf a i mine :
  attr_wf a -> all_u64 (m_counts i) -> (forall n b, m_stats i !! n = Some b -> all_u64 b) ->
  is_u64 (m_ttl i) -> (m_first_seen i <= m_last_seen i)%Z ->
  (is_Some (from_timestamp (m_first_seen i)) <-> is_Some (from_timestamp (m_last_seen i))) ->
  attr_wf (merged a i mine).
Proof.
  intros Ha Hc Hs Ht Hfl Hiff.
  destruct (attr_merge_fields a i mine) as (_ & Ec & Es & Ef & El & Et & _ & _ & Elc & Els).
  pose proof (wf_window a Ha). pose proof (wf_ttl a Ha).
  split; rewrite ?Ec, ?Ef, ?El, ?Et, ?Elc, ?Els; auto with sdb.
  - apply all_u64_join_max; auto with sdb.
  - intros n b. rewrite Es, lookup_join_stats, lookup_delete.
    case_decide; [by apply wf_stats|]. destruct (m_stats i !! n) eqn:E; [|by apply wf_stats].
    intros [= <-]. apply all_u64_join_max; [by apply stats_default_u64|eauto].
  - unfold merge_first, merge_last.
    destruct (from_timestamp (m_first_seen i)) as [f|] eqn:E1,
             (from_timestamp (m_last_seen i)) as [l|] eqn:E2; simpl.
    + apply from_timestamp_Some in E1, E2. unfold NANOS in *.
      destruct (unseen a); simpl; repeat case_bool_decide; simpl; nia.
    + destruct (proj1 Hiff ltac:(eauto)) as [? ?]. done.
    + destruct (proj2 Hiff ltac:(eauto)) as [? ?]. done.
    + done.
  - unfold merge_ttl. unfold is_u64 in *. repeat case_bool_decide; lia.
Qed.

(** Nobody knows more about a server's contribution than the server itself. *)
Record owner_ahead (x : str) (mine theirs : Attribute) : Prop := {
  ahead_counts : forall c, counts theirs !! x = Some c ->
    exists c', counts mine !! x = Some c' /\ (c <= c')%Z;
  ahead_stats : forall b, stats theirs !! x = Some b ->
    exists b', stats mine !! x = Some b'
               /\ forall k v, b !! k = Some v -> exists v', b' !! k = Some v' /\ (v <= v')%Z;
}.

Lemma join_max_swap (m1 m2 : gmap str Z) x y :
  all_u64 m1 -> all_u64 m2 ->
  (forall c, m2 !! x = Some c -> exists c', m1 !! x = Some c' /\ (c <= c')%Z) ->
  (forall c, m1 !! y = Some c -> exists c', m2 !! y = Some c' /\ (c <= c')%Z) ->
  join_max m1 (delete x m2) = join_max m2 (delete y m1).
Proof.
  intros W1 W2 Hx Hy. apply map_eq. intros k. rewrite !lookup_join_max, !lookup_delete.
  pose proof (all_u64_default m1 k W1) as [? _]. pose proof (all_u64_default m2 k W2) as [? _].
  destruct (decide (x = k)) as [->|Hxk], (decide (y = k)) as [->|Hyk].
  - destruct (m1 !! k) as [c1|] eqn:E1, (m2 !! k) as [c2|] eqn:E2; try done.
    + destruct (Hx _ eq_refl) as (? & [= <-] & ?). destruct (Hy _ eq_refl) as (? & [= <-] & ?).
      f_equal. lia.
    + by destruct (Hy _ eq_refl) as (? & ? & ?).
    + by destruct (Hx _ eq_refl) as (? & ? & ?).
  - destruct (m1 !! k) as [c1|] eqn:E1, (m2 !! k) as [c2|] eqn:E2; simpl in *; try done.
    + destruct (Hx _ eq_refl) as (? & [= <-] & ?). f_equal. lia.
    + f_equal. lia.
    + by destruct (Hx _ eq_refl) as (? & ? & ?).
  - destruct (m1 !! k) as [c1|] eqn:E1, (m2 !! k) as [c2|] eqn:E2; simpl in *; try done.
    + destruct (Hy _ eq_refl) as (? & [= <-] & ?). f_equal. lia.
    + by destruct (Hy _ eq_refl) as (? & ? & ?).
    + f_equal. lia.
  - destruct (m1 !! k) as [c1|] eqn:E1, (m2 !! k) as [c2|] eqn:E2; simpl in *; try done; f_equal; lia.
Qed.

Lemma join_stats_swap s1 s2 x y :
  (forall n b, s1 !! n = Some b -> all_u64 b) -> (forall n b, s2 !! n = Some b -> all_u64 b) ->
  (forall b, s2 !! x = Some b -> exists b', s1 !! x = Some b'
     /\ forall k v, b !! k = Some v -> exists v', b' !! k = Some v' /\ (v <= v')%Z) ->
  (forall b, s1 !! y = Some b -> exists b', s2 !! y = Some b'
     /\ forall k v, b !! k = Some v -> exists v', b' !! k = Some v' /\ (v <= v')%Z) ->
  join_stats s1 (delete x s2) = join_stats s2 (delete y s1).
Proof.
  intros W1 W2 Hx Hy. apply map_eq. intros n. rewrite !lookup_join_stats, !lookup_delete.
  specialize (W1 n). specialize (W2 n).
  assert (E0 : forall m : gmap Z Z, all_u64 m -> join_max ∅ m = m).
  { intros m Wm. rewrite join_max_sym by (done || apply map_Forall_empty). by apply join_max_absorb. }
  destruct (decide (x = n)) as [->|Hxn], (decide (y = n)) as [->|Hyn];
    destruct (s1 !! n) as [b1|] eqn:E1, (s2 !! n) as [b2|] eqn:E2; simpl in *; try done;
    try (by destruct (Hx _ eq_refl) as (? & ? & ?)); try (by destruct (Hy _ eq_refl) as (? & ? & ?)).
  - destruct (Hx _ eq_refl) as (? & [= <-] & L1). destruct (Hy _ eq_refl) as (? & [= <-] & L2).
    f_equal. rewrite <- (join_max_absorb _ _ L1), join_max_sym, join_max_absorb; auto.
  - destruct (Hx _ eq_refl) as (? & [= <-] & L1).
    f_equal. rewrite join_max_sym, join_max_absorb; auto.
  - by rewrite E0 by auto.
  - destruct (Hy _ eq_refl) as (? & [= <-] & L2).
    f_equal. rewrite join_max_sym, join_max_absorb; auto.
  - by rewrite E0 by auto.
  - f_equal. apply join_max_sym; auto.
  - by rewrite E0 by auto.
  - by rewrite E0 by auto.
Qed.

(** Two servers that each hold sightings of a value and offer each other
    their copies ([as_merge], read before either merge) end up agreeing: the
    same per-server counts and buckets, the same total, the same window to
    the second, the same TTL, the same tags and the same moment of their last
    replacement. *)
Theorem exchange_converges a b x y :
  attr_wf a -> attr_wf b -> owner_ahead x a b -> owner_ahead y b a ->
  count a <> 0%Z -> count b <> 0%Z ->
  is_Some (from_timestamp (timestamp (first_seen a))) ->
  is_Some (from_timestamp (timestamp (last_seen a))) ->
  is_Some (from_timestamp (timestamp (first_seen b))) ->
  is_Some (from_timestamp (timestamp (last_seen b))) ->
  let a' := merged a (as_merge b) x in
  let b' := merged b (as_merge a) y in
  counts a' = counts b' /\ stats a' = stats b' /\ count a' = count b'
  /\ timestamp (first_seen a') = timestamp (first_seen b')
  /\ timestamp (last_seen a') = timestamp (last_seen b')
  /\ ttl a' = ttl b' /\ tags_at a' = tags_at b' /\ tag_set a' = tag_set b'.
Proof.
  intros Wa Wb Ox Oy Hca Hcb [fa Hfa] [la Hla] [fb Hfb] [lb Hlb] a' b'.
  destruct (attr_merge_fields a (as_merge b) x) as (_ & C1 & S1 & F1 & L1 & T1 & _ & R1 & _).
  destruct (attr_merge_fields b (as_merge a) y) as (_ & C2 & S2 & F2 & L2 & T2 & _ & R2 & _).
  fold a' in C1, S1, F1, L1, T1, R1. fold b' in C2, S2, F2, L2, T2, R2.
  clearbody a' b'. rewrite unseen_false in F1, L1, F2, L2 by done.
  unfold as_merge in F1, L1, F2, L2. simpl in F1, L1, F2, L2.
  erewrite merge_first_false in F1, F2 by eassumption.
  erewrite merge_last_false in L1, L2 by eassumption.
  assert (HC : counts a' = counts b').
  { rewrite C1, C2. apply join_max_swap; [apply Wa|apply Wb|apply Ox|apply Oy]. }
  assert (HR : reg a' = reg b') by (rewrite R1, R2; apply join_reg_swap).
  split_and!.
  - done.
  - rewrite S1, S2. apply join_stats_swap; [apply Wa|apply Wb|apply Ox|apply Oy].
  - unfold count. by rewrite HC.
  - rewrite F1, F2, !timestamp_min, (timestamp_from _ _ Hfa), (timestamp_from _ _ Hfb). lia.
  - rewrite L1, L2, !timestamp_max, (timestamp_from _ _ Hla), (timestamp_from _ _ Hlb). lia.
  - rewrite T1, T2. apply merge_ttl_swap.
  - exact (f_equal fst HR).
  - exact (f_equal snd HR).
Qed.
End Fields.
Arguments merged {_} a i mine : simpl never.

(** ** Two servers, one value *)
Definition east : Attribute :=
  add_tags (increment (new (lit "1.2.3.4")) (lit "east") (1600000000 * NANOS) 0) (lit "tlp:amber").
Definition west : Attribute :=
  set_ttl (set_tags (increment (increment (new (lit "1.2.3.4")) (lit "west") (1500000000 * NANOS + 5) 0)
                       (lit "west") (1700000000 * NANOS) 0) (lit "a, b,a") 1000) 3600.

Lemma merge_idempotent_witness :
  merged (H := chrono_10000y) (merged (H := chrono_10000y) east (as_merge west) (lit "east"))
    (as_merge west) (lit "east")
  = merged (H := chrono_10000y) east (as_merge west) (lit "east").
Proof.
  apply (merge_idempotent (H := chrono_10000y) east (as_merge west) (lit "east")).
  vm_compute. discriminate.
Defined.

Lemma merge_order_independent_witness :
  attr_equiv (merged (H := chrono_10000y) (merged (H := chrono_10000y) (new (lit "1.2.3.4"))
                (as_merge east) (lit "hub")) (as_merge west) (lit "hub"))
    (merged (H := chrono_10000y) (merged (H := chrono_10000y) (new (lit "1.2.3.4"))
                (as_merge west) (lit "hub")) (as_merge east) (lit "hub")).
Proof.
  apply (merge_order_independent (H := chrono_10000y)); vm_compute; eauto; discriminate.
Defined.

Lemma merge_authority_witness :
  counts (merged (H := chrono_10000y) east (as_merge west) (lit "east")) !! lit "west" = Some 2%Z.
Proof.
  pose proof (merge_authority (H := chrono_10000y) east (as_merge west) (lit "east"))
    as (_ & _ & _ & Hn & _).
  rewrite (Hn (lit "west") 2%Z); vm_compute; [reflexivity|discriminate|reflexivity].
Defined.

Lemma east_wf : attr_wf east.
Proof.
  unfold east, add_tags. case_match; [|apply increment_wf, new_wf].
  destruct (increment_wf (new (lit "1.2.3.4")) (lit "east") (1600000000 * NANOS) 0 (new_wf _)).
  by split.
Qed.

Lemma west_wf : attr_wf west.
Proof.
  destruct (increment_wf _ (lit "west") (1700000000 * NANOS) 0
              (increment_wf _ (lit "west") (1500000000 * NANOS + 5) 0 (new_wf (lit "1.2.3.4")))).
  by split.
Qed.

Lemma exchange_converges_witness :
  count (merged (H := chrono_10000y) east (as_merge west) (lit "east"))
  = count (merged (H := chrono_10000y) west (as_merge east) (lit "west")).
Proof.
  apply (exchange_converges (H := chrono_10000y) east west (lit "east") (lit "west"));
    try apply east_wf; try apply west_wf; try (split; vm_compute; discriminate);
    vm_compute; eauto; discriminate.
Defined.

(** ** Where the merge is not a join

    A value that holds no sighting and starts at the epoch counts as unseen,
    and the window of an unseen value is overwritten rather than widened. *)
Definition ghost_copy : Attribute := mkAttribute [] (100 * NANOS) (200 * NANOS) ∅ [] 0 0 ∅ 0 ∅.
Definition epoch_offer : Merge := mkMerge ∅ ∅ 0 50 [] 0 0.

(** Repetition matters for a value nobody has counted: merging the same
    offer into a zero-count value twice moves its [last_seen] backwards the
    second time. *)
Lemma merge_not_idempotent_at_zero :
  exists (a : Attribute) (i : Merge) (mine : str),
    attr_wf a
    /\ last_seen (merged (H := chrono_10000y) a i mine) = (200 * NANOS)%Z
    /\ last_seen (merged (H := chrono_10000y) (merged (H := chrono_10000y) a i mine) i mine)
       = (50 * NANOS)%Z.
Proof.
  exists ghost_copy, epoch_offer, (lit "me"). split_and!; [|vm_compute; reflexivity..].
  split; try done; intros ? ?; by rewrite lookup_empty.
Qed.
