(* ===== verification/Paths.v ===== *)
(** * Namespaces as paths

    Namespaces are flat names; every component reads a hierarchy into them by
    splitting on slashes.  Models [shard_of] and [shard_file] of
    [src/src/persistence.rs], [is_internal], [counts_towards_consensus] and
    [StoragePolicy] of [src/src/db.rs], and [root_of] of
    [src/src/activity.rs]. *)

From stdpp Require Import base numbers list strings gmap sorting.
From S2P Require Import Prelude.

Definition SLASH : N := 47.
Definition UNDERSCORE : str := lit "_".

Definition ALL_NAMESPACE : str := lit "_all".
Definition SHADOW_PREFIX : str := lit "_shadow/".
Definition CONFIG_PREFIX : str := lit "_config/".
Definition APIKEYS_NAMESPACE : str := lit "_config/acl/apikeys/".
Definition ROOT_SHARD : str := lit "_internal".
Definition INTERNAL_SHARD : str := lit "_internal".
Definition INTERNAL_FILE : str := lit "sightingdb.json.zst".
Definition SHARD_SUFFIX : str := lit ".json.zst".

(** [path.split('/').filter(|s| !s.is_empty())] *)
Definition segments (path : str) : list str := filter (fun s => s <> []) (split_char SLASH path).

Definition shard_of (namespace : str) : str :=
  let first := default ROOT_SHARD (head (segments namespace)) in
  if starts_with UNDERSCORE first then INTERNAL_SHARD else first.

Definition is_internal (namespace : str) : bool :=
  match head (segments namespace) with
  | Some first => starts_with UNDERSCORE first
  | None => false
  end.

Definition counts_towards_consensus (name : str) : bool :=
  negb (bool_decide (name = ALL_NAMESPACE)) && negb (starts_with SHADOW_PREFIX name)
  && negb (starts_with CONFIG_PREFIX name).

Definition root_of (namespace : str) : option str :=
  match head (segments namespace) with
  | Some root => if starts_with UNDERSCORE root then None else Some root
  | None => None
  end.

(** [strip_prefix(p).is_some_and(|rest| rest.starts_with('/'))] *)
Definition below (p name : str) : bool :=
  match strip_prefix p name with
  | Some rest => starts_with [SLASH] rest
  | None => false
  end.

(** The rule of [latest::under] and [Database::namespaces_under]. *)
Definition under (namespace prefix : str) : bool :=
  is_empty prefix || bool_decide (namespace = prefix) || below prefix namespace.

(** ** What a server stores *)
Record StoragePolicy := mkStorage { prefixes : list str; everything : bool }.

Definition store_everything : StoragePolicy := mkStorage [] true.

Fixpoint from_prefixes_loop (held ps : list str) : StoragePolicy :=
  match ps with
  | [] => mkStorage held false
  | p :: rest =>
      let p' := trim_slashes (trim p) in
      if is_empty p' then store_everything
      else if bool_decide (p' ∈ held) then from_prefixes_loop held rest
      else from_prefixes_loop (held ++ [p']) rest
  end.
Definition from_prefixes (ps : list str) : StoragePolicy := from_prefixes_loop [] ps.

Definition holds (s : StoragePolicy) (namespace : str) : bool :=
  if is_internal namespace then true
  else if everything s then true
  else
    let ns := trim_slashes namespace in
    existsb (fun p => bool_decide (ns = p) || below p ns) (prefixes s).

Definition is_router (s : StoragePolicy) : bool := negb (everything s) && is_empty (prefixes s).

(** ** The file a shard is stored in *)
Definition hex_upper (n : N) : N := (if n <? 10 then 48 + n else 55 + n)%N.
Definition hex_lower (n : N) : N := (if n <? 10 then 48 + n else 87 + n)%N.

(** [char::encode_utf8] *)
Definition utf8_bytes (c : N) : list N :=
  (if c <? 128 then [c]
   else if c <? 2048 then [192 + c / 64; 128 + c mod 64]
   else if c <? 65536 then [224 + c / 4096; 128 + c / 64 mod 64; 128 + c mod 64]
   else [240 + c / 262144; 128 + c / 4096 mod 64; 128 + c / 64 mod 64; 128 + c mod 64])%N.

(** [format!("%{byte:02X}")] *)
Definition percent (b : N) : str := [37; hex_upper (b / 16); hex_upper (b mod 16)]%N.

Definition file_safe (c : N) : bool :=
  is_ascii_alphanumeric c || (c =? 46)%N || (c =? 95)%N || (c =? 45)%N.

Definition safe_char (c : N) : str :=
  if file_safe c then [c] else mjoin (percent <$> utf8_bytes c).

Definition safe_name (shard : str) : str := mjoin (safe_char <$> shard).

(** [format!("{:08x}", n)] for a [u32] *)
Definition hex8 (n : N) : str :=
  (fun i => hex_lower (n / 16 ^ i mod 16)%N) <$> [7; 6; 5; 4; 3; 2; 1; 0]%N.

Section ShardFile.
(** The first four bytes of the SHA-256 of the name, from the [sha2] crate. *)
Context (digest32 : str -> N).

Definition shard_file (shard : str) : str :=
  if bool_decide (shard = INTERNAL_SHARD) then INTERNAL_FILE
  else take 80 (safe_name shard) ++ lit "-" ++ hex8 (digest32 shard) ++ SHARD_SUFFIX.
End ShardFile.

(** ** Lemmas on segments *)
Lemma segments_elem path s : s ∈ segments path -> s <> [] /\ SLASH ∉ s.
Proof.
  unfold segments. rewrite list_elem_of_filter. intros [Hne Hs].
  split; [done|by eapply split_char_no_sep].
Qed.

Lemma is_internal_shard ns :
  is_internal ns = true -> shard_of ns = INTERNAL_SHARD.
Proof. unfold is_internal, shard_of. destruct (head _); [|done]. simpl. by intros ->. Qed.

Lemma is_internal_root ns : is_internal ns = true -> root_of ns = None.
Proof. unfold is_internal, root_of. destruct (head _); [|done]. by intros ->. Qed.

(** An ordinary namespace always lands in the shard named by its first
    path segment, which is also the name its activity is counted under and is
    never the internal shard; an internal one lands in the internal shard and
    is not counted. *)
Theorem shard_partition ns :
  (is_internal ns = true -> shard_of ns = INTERNAL_SHARD /\ root_of ns = None)
  /\ (is_internal ns = false -> segments ns <> [] ->
      shard_of ns <> INTERNAL_SHARD /\ root_of ns = Some (shard_of ns)
      /\ head (segments ns) = Some (shard_of ns) /\ SLASH ∉ shard_of ns).
Proof.
  split; [auto using is_internal_shard, is_internal_root|].
  unfold is_internal, shard_of, root_of. intros Hi Hne.
  destruct (segments ns) as [|first rest] eqn:E; [done|]. simpl in *. rewrite Hi.
  split_and!; [by intros ->|done|done|].
  apply (segments_elem ns). rewrite E. left.
Qed.

Lemma shard_partition_witness :
  shard_of (lit "/feeds//misp/_x") = lit "feeds" /\ shard_of (lit "_shadow/feeds") = INTERNAL_SHARD.
Proof.
  split.
  - pose proof (proj2 (shard_partition (lit "/feeds//misp/_x")) ltac:(reflexivity)
                  ltac:(vm_compute; discriminate)) as (_ & _ & Hh & _).
    vm_compute in Hh |- *. congruence.
  - apply (proj1 (shard_partition (lit "_shadow/feeds"))). reflexivity.
Defined.

(** ** The shard file name *)

Definition valid_str (s : str) : Prop := Forall (fun c => (c < 1114112)%N) s.

Lemma hex_upper_inj a b : (a < 16)%N -> (b < 16)%N -> hex_upper a = hex_upper b -> a = b.
Proof. unfold hex_upper. destruct (N.ltb_spec a 10), (N.ltb_spec b 10); lia. Qed.

Lemma percent_app_inj b b' (x y : str) :
  (b < 256)%N -> (b' < 256)%N -> percent b ++ x = percent b' ++ y -> b = b' /\ x = y.
Proof.
  unfold percent. simpl. intros Hb Hb' [= H1 H2 ->]. split; [|done].
  apply hex_upper_inj in H1; [|apply N.Div0.div_lt_upper_bound; lia..].
  apply hex_upper_inj in H2; [|by apply N.mod_lt..].
  rewrite (N.div_mod b 16), (N.div_mod b' 16) by done. by rewrite H1, H2.
Qed.

(** The base-64 digits of a code point. *)
Lemma base64_digits c :
  exists q1 q2 q3 r1 r2 r3 : N,
    (c = 64 * q1 + r1 /\ q1 = 64 * q2 + r2 /\ q2 = 64 * q3 + r3
     /\ r1 < 64 /\ r2 < 64 /\ r3 < 64
     /\ c / 64 = q1 /\ c / 4096 = q2 /\ c / 262144 = q3
     /\ c mod 64 = r1 /\ c / 64 mod 64 = r2 /\ c / 4096 mod 64 = r3)%N.
Proof.
  assert (E1 : (c / 4096 = c / 64 / 64)%N) by by rewrite N.Div0.div_div.
  assert (E2 : (c / 262144 = c / 64 / 64 / 64)%N) by by rewrite !N.Div0.div_div.
  exists (c / 64)%N, (c / 64 / 64)%N, (c / 64 / 64 / 64)%N,
    (c mod 64)%N, (c / 64 mod 64)%N, (c / 64 / 64 mod 64)%N.
  rewrite E1, E2. split_and!; try apply N.div_mod'; try (by apply N.mod_lt); done.
Qed.

(** Peel equal percent-encoded bytes off both sides. *)
Ltac peel_percent :=
  repeat match goal with
    | H : percent ?b ++ ?x = percent ?b' ++ ?y |- _ =>
        apply percent_app_inj in H as [? H]; [|lia..]
    end.

Lemma utf8_percent_app_inj c d (x y : str) :
  (c < 1114112)%N -> (d < 1114112)%N ->
  mjoin (percent <$> utf8_bytes c) ++ x = mjoin (percent <$> utf8_bytes d) ++ y -> c = d /\ x = y.
Proof.
  intros Hc Hd. unfold utf8_bytes.
  destruct (base64_digits c) as (q1 & q2 & q3 & r1 & r2 & r3 & ? & ? & ? & ? & ? & ? & -> & -> & -> & -> & -> & ->).
  destruct (base64_digits d) as (k1 & k2 & k3 & s1 & s2 & s3 & ? & ? & ? & ? & ? & ? & -> & -> & -> & -> & -> & ->).
  destruct (N.ltb_spec c 128); [|destruct (N.ltb_spec c 2048); [|destruct (N.ltb_spec c 65536)]];
  (destruct (N.ltb_spec d 128); [|destruct (N.ltb_spec d 2048); [|destruct (N.ltb_spec d 65536)]]);
  cbn [fmap list_fmap mjoin list_join]; rewrite <- ?(assoc_L (++)); intros He; peel_percent;
  try (exfalso; lia); (split; [lia|done]).
Qed.

Lemma safe_char_app_inj c d (x y : str) :
  (c < 1114112)%N -> (d < 1114112)%N ->
  safe_char c ++ x = safe_char d ++ y -> c = d /\ x = y.
Proof.
  intros Hc Hd. unfold safe_char.
  assert (Hp : forall e, exists b r, mjoin (percent <$> utf8_bytes e) = percent b ++ r).
  { intros e. unfold utf8_bytes. repeat case_match; simpl; eauto. }
  assert (H37 : file_safe 37 = false) by reflexivity.
  destruct (file_safe c) eqn:Ec, (file_safe d) eqn:Ed.
  - by intros [= -> ->].
  - destruct (Hp d) as (b & r & ->). simpl. intros [= -> _]. congruence.
  - destruct (Hp c) as (b & r & ->). simpl. intros [= <- _]. congruence.
  - by apply utf8_percent_app_inj.
Qed.

Lemma safe_char_ne c : safe_char c <> [].
Proof. unfold safe_char, utf8_bytes. repeat case_match; done. Qed.

Lemma safe_name_inj s1 s2 :
  valid_str s1 -> valid_str s2 -> safe_name s1 = safe_name s2 -> s1 = s2.
Proof.
  unfold safe_name. intros H1. revert s2. induction H1 as [|c s1 Hc H1 IH]; intros s2 H2.
  - destruct H2 as [|d s2 Hd H2]; [done|]. simpl. intros He. symmetry in He.
    apply app_eq_nil in He as [He _]. by apply safe_char_ne in He.
  - destruct H2 as [|d s2 Hd H2]; simpl.
    + intros [He _]%app_eq_nil. by apply safe_char_ne in He.
    + intros [-> He]%safe_char_app_inj; [|done..]. f_equal. by apply IH.
Qed.


Lemma hex_upper_safe n : (n < 16)%N -> file_safe (hex_upper n) = true.
Proof.
  intros Hn. unfold hex_upper.
  assert (n ∈ [0; 1; 2; 3; 4; 5; 6; 7; 8; 9; 10; 11; 12; 13; 14; 15]%N) as Hin.
  { rewrite !elem_of_cons. lia. }
  repeat (apply elem_of_cons in Hin as [->|Hin]; [reflexivity|]). by apply not_elem_of_nil in Hin.
Qed.

Lemma hex_lower_safe n : (n < 16)%N -> file_safe (hex_lower n) = true.
Proof.
  intros Hn. unfold hex_lower.
  assert (n ∈ [0; 1; 2; 3; 4; 5; 6; 7; 8; 9; 10; 11; 12; 13; 14; 15]%N) as Hin.
  { rewrite !elem_of_cons. lia. }
  repeat (apply elem_of_cons in Hin as [->|Hin]; [reflexivity|]). by apply not_elem_of_nil in Hin.
Qed.

Definition file_char (c : N) : Prop := file_safe c = true \/ c = 37%N.

Lemma utf8_bytes_bound c b : (c < 1114112)%N -> b ∈ utf8_bytes c -> (b < 256)%N.
Proof.
  intros Hc. unfold utf8_bytes.
  destruct (base64_digits c) as (q1 & q2 & q3 & r1 & r2 & r3 & ? & ? & ? & ? & ? & ? & -> & -> & -> & -> & -> & ->).
  destruct (N.ltb_spec c 128); [|destruct (N.ltb_spec c 2048); [|destruct (N.ltb_spec c 65536)]];
    rewrite !elem_of_cons, elem_of_nil; lia.
Qed.

Lemma safe_name_chars s c : valid_str s -> c ∈ safe_name s -> file_char c.
Proof.
  unfold safe_name, file_char. intros Hs. rewrite list_elem_of_join. intros (w & Hc & Hw).
  apply list_elem_of_fmap in Hw as (d & -> & Hd). unfold safe_char in Hc.
  destruct (file_safe d) eqn:E; [apply list_elem_of_singleton in Hc; naive_solver|].
  apply list_elem_of_join in Hc as (p & Hc & Hp).
  apply list_elem_of_fmap in Hp as (b & -> & Hb). unfold percent in Hc.
  unfold valid_str in Hs. rewrite Forall_forall in Hs.
  pose proof (utf8_bytes_bound d b (Hs d Hd) Hb).
  rewrite !elem_of_cons, elem_of_nil in Hc. destruct Hc as [->|[->|[->|[]]]]; [by right|left..].
  - apply hex_upper_safe, N.Div0.div_lt_upper_bound. lia.
  - by apply hex_upper_safe, N.mod_lt.
Qed.

Lemma hex8_chars n c : c ∈ hex8 n -> file_char c.
Proof.
  unfold hex8. rewrite list_elem_of_fmap. intros (i & -> & _). left.
  by apply hex_lower_safe, N.mod_lt.
Qed.

Lemma file_name_shape (p q : str) h1 h2 :
  p ++ lit "-" ++ hex8 h1 ++ SHARD_SUFFIX = q ++ lit "-" ++ hex8 h2 ++ SHARD_SUFFIX -> p = q.
Proof. intros He. apply app_inj_2 in He; [tauto|reflexivity]. Qed.

(** The file a shard is stored in never leaves the database directory (its
    name has no slash and is not a dot name), a user shard never gets the
    internal shard's file, and distinct shards get distinct files whatever the
    digest, as long as their encoded names are not truncated at 80
    characters. *)
Theorem shard_file_safe (digest32 : str -> N) s1 s2 :
  valid_str s1 -> valid_str s2 ->
  (forall c, c ∈ shard_file digest32 s1 -> file_char c)
  /\ SLASH ∉ shard_file digest32 s1
  /\ 18 <= length (shard_file digest32 s1)
  /\ (s1 <> INTERNAL_SHARD -> shard_file digest32 s1 <> shard_file digest32 INTERNAL_SHARD)
  /\ (length (safe_name s1) <= 80 -> length (safe_name s2) <= 80 ->
      shard_file digest32 s1 = shard_file digest32 s2 -> s1 = s2).
Proof.
  intros V1 V2.
  assert (Hch : forall c, c ∈ shard_file digest32 s1 -> file_char c).
  { intros c. unfold shard_file. case_bool_decide.
    - intros Hc. left. vm_compute in Hc |- *.
      repeat (apply elem_of_cons in Hc as [->|Hc]; [reflexivity|]). by apply not_elem_of_nil in Hc.
    - rewrite !elem_of_app. intros [Hc|[Hc|[Hc|Hc]]].
      + apply (subseteq_take 80) in Hc. exact (safe_name_chars s1 c V1 Hc).
      + left. apply list_elem_of_singleton in Hc. by subst.
      + by eapply hex8_chars.
      + left. vm_compute in Hc |- *.
        repeat (apply elem_of_cons in Hc as [->|Hc]; [reflexivity|]). by apply not_elem_of_nil in Hc. }
  assert (Hint : forall s, s <> INTERNAL_SHARD -> shard_file digest32 s <> INTERNAL_FILE).
  { intros s Hs. unfold shard_file. rewrite bool_decide_eq_false_2 by done. intros He.
    pose proof (f_equal length He) as Hl. rewrite !length_app in Hl. simpl in Hl.
    destruct (take 80 (safe_name s)) as [|x [|y r]]; simpl in Hl; try lia. discriminate He. }
  split_and!; [done| | | |].
  - intros Hs. destruct (Hch _ Hs) as [Hc|Hc]; discriminate Hc.
  - unfold shard_file. case_bool_decide; [vm_compute; lia|]. rewrite !length_app. simpl. lia.
  - intros Hs. replace (shard_file digest32 INTERNAL_SHARD) with INTERNAL_FILE by reflexivity. auto.
  - intros L1 L2 He.
    destruct (decide (s1 = INTERNAL_SHARD)) as [->|N1], (decide (s2 = INTERNAL_SHARD)) as [->|N2];
      [done|by destruct (Hint s2 N2); rewrite <- He|by destruct (Hint s1 N1); rewrite He|].
    unfold shard_file in He. rewrite !bool_decide_eq_false_2 in He by done.
    apply file_name_shape in He. rewrite !take_ge in He by done. by apply safe_name_inj.
Qed.

Lemma shard_file_safe_witness :
  SLASH ∉ shard_file (fun _ => 7%N) (lit "../../etc")
  /\ shard_file (fun _ => 7%N) (lit "Feeds") <> shard_file (fun _ => 7%N) (lit "feeds").
Proof.
  assert (V : forall s, forallb (fun c => c <? 1114112)%N s = true -> valid_str s).
  { intros s Hs. apply Forall_forall. intros c Hc. apply N.ltb_lt.
    eapply forallb_forall in Hs; [exact Hs|]. by apply list_elem_of_In. }
  split.
  - apply (shard_file_safe (fun _ => 7%N) (lit "../../etc") (lit "../../etc")); by apply V.
  - intros He. apply (shard_file_safe (fun _ => 7%N) (lit "Feeds") (lit "feeds")) in He;
      [vm_compute in He; discriminate|by apply V..|vm_compute; lia|vm_compute; lia].
Defined.
