(* ===== verification/Acl.v ===== *)
(** * Access control

    Models [src/src/acl.rs]: grants over subtrees of the namespace hierarchy,
    the table of API keys, the checks made on every request, the syntax of the
    [[acl]] table both ways, and the validation of key and namespace names. *)

From stdpp Require Import base numbers list strings gmap sorting.
From S2P Require Import Prelude Paths.

Record Grant := mkGrant { g_prefix : str; g_read : bool; g_write : bool; g_admin : bool }.

#[export] Instance Grant_eq_dec : EqDecision Grant.
Proof. solve_decision. Defined.

Definition all_data : Grant := mkGrant [] true true false.
Definition admin : Grant := mkGrant [] false false true.

(** [for wanted in segments(prefix) { match actual.next() { .. } }] *)
Fixpoint covers_loop (wanted actual : list str) : bool :=
  match wanted with
  | [] => true
  | w :: ws =>
      match actual with
      | a :: rest => if bool_decide (a = w) then covers_loop ws rest else false
      | [] => false
      end
  end.
Definition covers (g : Grant) (namespace : str) : bool :=
  covers_loop (segments (g_prefix g)) (segments namespace).

Definition to_spec (g : Grant) : str :=
  if g_admin g then lit "admin"
  else
    let render letters :=
      if is_empty (g_prefix g) then letters else letters ++ lit ":" ++ g_prefix g in
    match g_read g, g_write g with
    | true, true => render (lit "rw")
    | true, false => render (lit "r")
    | false, true => render (lit "w")
    | false, false => []
    end.

(** ** Validation *)
Inductive NameError :=
| NameEmpty
| NameTooLong
| NameBadChar (c : N)
| NameInternal.

Definition key_bad (c : N) : bool :=
  is_whitespace c || bool_decide (c ∈ lit "=:,[];#\" ++ [34; 39]%N).

Definition validate_key (key : str) : option NameError :=
  if is_empty key then Some NameEmpty
  else if bool_decide (256 < str_len key) then Some NameTooLong
  else match list_find (fun c => Is_true (key_bad c)) key with
       | Some (_, bad) => Some (NameBadChar bad)
       | None => None
       end.

Definition ns_bad (c : N) : bool := is_whitespace c || bool_decide (c ∈ lit "=:,[];#").

Definition validate_namespace (ns : str) : option NameError :=
  if bool_decide (512 < str_len ns) then Some NameTooLong
  else match list_find (fun c => Is_true (ns_bad c)) ns with
       | Some (_, bad) => Some (NameBadChar bad)
       | None => if starts_with UNDERSCORE ns then Some NameInternal else None
       end.

(** ** The table *)
Abbreviation Acl := (gmap str (list Grant)).

Definition grant_full (acl : Acl) (key : str) : Acl := <[key := [all_data; admin]]> acl.
Definition acl_set (acl : Acl) (key : str) (grants : list Grant) : Acl := <[key := grants]> acl.
Definition acl_remove (acl : Acl) (key : str) : Acl * bool :=
  (delete key acl, bool_decide (is_Some (acl !! key))).
Definition entries (acl : Acl) : list (str * list Grant) := btree_iter acl.
Definition contains (acl : Acl) (key : str) : bool := bool_decide (is_Some (acl !! key)).
Definition admin_count (acl : Acl) : nat :=
  length (filter (fun p => Is_true (existsb g_admin p.2)) (map_to_list acl)).

Definition allows (acl : Acl) (key namespace : str) (permitted : Grant -> bool) : bool :=
  match acl !! key with
  | None => false
  | Some grants => existsb (fun g => permitted g && covers g namespace) grants
  end.
Definition can_read (acl : Acl) (key namespace : str) : bool := allows acl key namespace g_read.
Definition can_write (acl : Acl) (key namespace : str) : bool := allows acl key namespace g_write.
Definition is_admin (acl : Acl) (key : str) : bool :=
  match acl !! key with
  | None => false
  | Some grants => existsb g_admin grants
  end.

(** ** The syntax of the table *)
Definition TOML_HEADER : str :=
  lit "# Written by the SightingDB management interface. Comments added" ++ [10%N]
  ++ lit "# here are replaced the next time a key is saved." ++ [10%N] ++ lit "#" ++ [10%N]
  ++ lit "# " ++ [34%N] ++ lit "<apikey>" ++ [34%N] ++ lit " = " ++ [34%N]
  ++ lit "<grant>[, <grant>...]" ++ [34; 10]%N
  ++ lit "# grant: r | w | rw [:<namespace>]  |  admin" ++ [10; 10]%N ++ lit "[acl]" ++ [10%N].

Definition to_toml_entry (p : str * list Grant) : str :=
  let specs := filter (fun s => s <> []) (to_spec <$> p.2) in
  match specs with
  | [] => []
  | _ => [34%N] ++ p.1 ++ [34%N] ++ lit " = " ++ [34%N] ++ join_with (lit ", ") specs ++ [34; 10]%N
  end.
Definition to_toml (acl : Acl) : str := TOML_HEADER ++ mjoin (to_toml_entry <$> entries acl).

Inductive GrantError :=
| UnknownPermission (other : str)
| NoGrants.

(** One comma-separated part: nothing, a grant, or an error. *)
Definition parse_grant (part : str) : option Grant + GrantError :=
  let part := trim part in
  if is_empty part then inl None
  else
    let '(permissions, prefix) :=
      match split_once 58 part with
      | Some (p, q) => (trim p, trim q)
      | None => (part, [])
      end in
    if bool_decide (permissions = lit "admin") then inl (Some admin)
    else if bool_decide (permissions = lit "r") then inl (Some (mkGrant prefix true false false))
    else if bool_decide (permissions = lit "w") then inl (Some (mkGrant prefix false true false))
    else if bool_decide (permissions = lit "rw" \/ permissions = lit "wr")
    then inl (Some (mkGrant prefix true true false))
    else inr (UnknownPermission permissions).

Fixpoint parse_loop (parts : list str) (grants : list Grant) : list Grant + GrantError :=
  match parts with
  | [] => inl grants
  | p :: rest =>
      match parse_grant p with
      | inr e => inr e
      | inl None => parse_loop rest grants
      | inl (Some g) => parse_loop rest (grants ++ [g])
      end
  end.

Definition parse_grants (spec : str) : list Grant + GrantError :=
  match parse_loop (split_char 44 spec) [] with
  | inr e => inr e
  | inl [] => inr NoGrants
  | inl grants => inl grants
  end.

(** ** Decisions *)
Lemma covers_loop_spec wanted actual : covers_loop wanted actual = true <-> wanted `prefix_of` actual.
Proof.
  revert actual. induction wanted as [|w ws IH]; intros actual; simpl.
  - split; [intros _; apply prefix_nil|done].
  - destruct actual as [|a rest].
    + split; [done|]. intros Hp. by apply prefix_nil_not in Hp.
    + case_bool_decide as Ha; [subst; rewrite IH|].
      * split; [apply prefix_cons|apply prefix_cons_inv_2].
      * split; [done|]. intros Hp. by apply prefix_cons_inv_1 in Hp.
Qed.

Lemma allows_spec acl key ns permitted :
  allows acl key ns permitted = true <->
  exists grants g, acl !! key = Some grants /\ g ∈ grants /\ permitted g = true
                   /\ segments (g_prefix g) `prefix_of` segments ns.
Proof.
  unfold allows, covers. destruct (acl !! key) as [grants|]; [|naive_solver].
  rewrite existsb_exists. setoid_rewrite andb_true_iff. setoid_rewrite covers_loop_spec.
  setoid_rewrite <- list_elem_of_In. naive_solver.
Qed.

(** Access is allow-only and follows whole path segments: a key may read or
    write a namespace exactly when it is registered and one of its grants
    carries that permission on a path whose segments begin the namespace's;
    granting a key one thing changes nothing for any other key, and removing
    it takes everything away. *)
Theorem acl_decision acl key ns :
  (can_read acl key ns = true <->
     exists grants g, acl !! key = Some grants /\ g ∈ grants /\ g_read g = true
                      /\ segments (g_prefix g) `prefix_of` segments ns)
  /\ (can_write acl key ns = true <->
     exists grants g, acl !! key = Some grants /\ g ∈ grants /\ g_write g = true
                      /\ segments (g_prefix g) `prefix_of` segments ns)
  /\ (forall gs k, k <> key ->
        can_read (acl_set acl k gs) key ns = can_read acl key ns
        /\ can_write (acl_set acl k gs) key ns = can_write acl key ns
        /\ is_admin (acl_set acl k gs) key = is_admin acl key)
  /\ (let gone := (acl_remove acl key).1 in
      can_read gone key ns = false /\ can_write gone key ns = false /\ is_admin gone key = false)
  /\ (can_read (grant_full acl key) key ns = true /\ can_write (grant_full acl key) key ns = true
      /\ is_admin (grant_full acl key) key = true).
Proof.
  split; [apply allows_spec|]. split; [apply allows_spec|].
  unfold can_read, can_write, allows, is_admin, acl_set, acl_remove, grant_full. simpl.
  rewrite lookup_delete_eq, lookup_insert_eq. split_and!; try done.
  intros gs k Hk. by rewrite lookup_insert_ne.
Qed.

Lemma acl_decision_witness :
  let acl := acl_set ∅ (lit "feed") [mkGrant (lit "feeds/misp/") true false false] in
  can_read acl (lit "feed") (lit "/feeds/misp/ips") = true
  /\ can_read acl (lit "feed") (lit "feeds/misp-internal") = false.
Proof.
  intros acl. split; [|reflexivity].
  apply (proj1 (acl_decision acl (lit "feed") (lit "/feeds/misp/ips"))).
  exists [mkGrant (lit "feeds/misp/") true false false], (mkGrant (lit "feeds/misp/") true false false).
  split; [reflexivity|]. split; [left|]. split; [reflexivity|]. by exists [lit "ips"].
Defined.

(** ** The table survives being written and read back *)
Definition prefix_ok (p : str) : Prop := Forall (fun c => is_whitespace c = false /\ c <> 44%N) p.

(** A grant as the code builds them: [Grant::admin], or some letters over a
    prefix the interface accepts. *)
Definition renderable (g : Grant) : Prop :=
  g = admin \/ (g_admin g = false /\ (g_read g || g_write g) = true /\ prefix_ok (g_prefix g)).

Lemma validate_namespace_prefix_ok p : validate_namespace p = None -> prefix_ok p.
Proof.
  unfold validate_namespace. case_bool_decide; [done|].
  destruct (list_find _ p) as [[i c]|] eqn:E; [done|]. intros _.
  apply list_find_None in E. eapply Forall_impl; [exact E|]. intros c Hc. simpl in Hc.
  unfold ns_bad in Hc. apply Is_true_false in Hc. apply orb_false_iff in Hc as [Hw Hb].
  split; [done|]. intros ->. vm_compute in Hb. discriminate.
Qed.

Lemma no_ws_trimmed s : Forall (fun c => is_whitespace c = false) s -> trim s = s.
Proof.
  intros Hs. apply trim_by_id. rewrite Forall_forall in Hs. split; intros x r ->; apply Hs.
  - left.
  - apply elem_of_app. right. left.
Qed.

Lemma trim_space s : trim s = s -> trim (32%N :: s) = s.
Proof. intros Hs. unfold trim, trim_by in *. simpl. exact Hs. Qed.

Lemma to_spec_ok g : renderable g ->
  Forall (fun c => is_whitespace c = false /\ c <> 44%N) (to_spec g) /\ to_spec g <> [].
Proof.
  intros [->|(Ha & Hrw & Hp)]; [split; [repeat constructor; done|done]|].
  unfold to_spec. rewrite Ha.
  assert (Hr : forall l, l <> [] -> Forall (fun c => is_whitespace c = false /\ c <> 44%N) l ->
    let r := if is_empty (g_prefix g) then l else l ++ lit ":" ++ g_prefix g in
    Forall (fun c => is_whitespace c = false /\ c <> 44%N) r /\ r <> []).
  { intros l Hl Hok r. subst r. destruct (is_empty (g_prefix g)); [done|]. split; [|by destruct l].
    apply Forall_app. split; [done|]. apply Forall_app. split; [by repeat constructor|done]. }
  destruct (g_read g), (g_write g); try done; apply Hr; try done; by repeat constructor.
Qed.

Lemma parse_grant_to_spec g : renderable g -> parse_grant (to_spec g) = inl (Some g).
Proof.
  intros Hg. destruct (to_spec_ok g Hg) as [Hch Hne]. unfold parse_grant.
  rewrite no_ws_trimmed by (eapply Forall_impl; [exact Hch|by intros ? []]).
  destruct (to_spec g) as [|x r] eqn:E; [done|]. simpl is_empty. cbv iota. rewrite <- E. clear x r E Hne Hch.
  destruct Hg as [->|(Ha & Hrw & Hp)]; [reflexivity|].
  assert (Ht : trim (g_prefix g) = g_prefix g).
  { apply no_ws_trimmed. eapply Forall_impl; [exact Hp|by intros ? []]. }
  destruct g as [p rd wr ad]. simpl in *. subst ad. unfold to_spec. simpl.
  destruct rd, wr; try done; destruct p as [|c p]; try reflexivity; simpl; rewrite Ht; reflexivity.
Qed.

Lemma parse_grant_space s : s <> [] -> Forall (fun c => is_whitespace c = false) s ->
  parse_grant (32%N :: s) = parse_grant s.
Proof.
  intros Hne Hs. unfold parse_grant. pose proof (no_ws_trimmed s Hs) as Ht.
  by rewrite trim_space, Ht.
Qed.

Lemma split_join_comma_space p l :
  44%N ∉ p -> (forall s, s ∈ l -> 44%N ∉ s) ->
  split_char 44 (join_with (lit ", ") (p :: l)) = p :: ((fun s => 32%N :: s) <$> l).
Proof.
  revert p. induction l as [|q l IH]; intros p Hp Hl; [by apply split_char_id|].
  change (join_with (lit ", ") (p :: q :: l)) with (p ++ 44%N :: 32%N :: join_with (lit ", ") (q :: l)).
  rewrite split_char_app by done. f_equal.
  apply split_char_cons; [done|]. apply IH; [apply Hl; left|]. intros. apply Hl. by right.
Qed.

Lemma parse_loop_specs gs acc (f : str -> str) :
  (forall g, g ∈ gs -> parse_grant (f (to_spec g)) = inl (Some g)) ->
  parse_loop (f <$> (to_spec <$> gs)) acc = inl (acc ++ gs).
Proof.
  revert acc. induction gs as [|g gs IH]; intros acc Hg; simpl; [by rewrite app_nil_r|].
  rewrite Hg by left. rewrite IH; [by rewrite <- (assoc_L (++))|]. intros. apply Hg. by right.
Qed.

(** A key's grants survive being saved and read back: parsing the list the
    management interface writes for them gives the same grants in the same
    order. *)
Theorem grants_roundtrip gs :
  gs <> [] -> Forall renderable gs ->
  parse_grants (join_with (lit ", ") (to_spec <$> gs)) = inl gs.
Proof.
  intros Hne Hall. rewrite Forall_forall in Hall.
  assert (Hno : forall g, g ∈ gs -> 44%N ∉ to_spec g).
  { intros g Hg Hc. destruct (to_spec_ok g (Hall g Hg)) as [Hok _].
    rewrite Forall_forall in Hok. by destruct (Hok _ Hc). }
  destruct gs as [|g gs]; [done|]. unfold parse_grants. rewrite fmap_cons, split_join_comma_space.
  - cbn [parse_loop]. rewrite parse_grant_to_spec by (apply Hall; left).
    rewrite parse_loop_specs; [done|]. intros h Hh.
    destruct (to_spec_ok h) as [Hok Hn]; [apply Hall; by right|].
    rewrite parse_grant_space; [|done|eapply Forall_impl; [exact Hok|by intros ? []]].
    apply parse_grant_to_spec, Hall. by right.
  - apply Hno. left.
  - intros s (h & -> & Hh)%list_elem_of_fmap. apply Hno. by right.
Qed.

Lemma grants_roundtrip_witness :
  parse_grants (join_with (lit ", ") (to_spec <$> [admin; mkGrant (lit "feeds/misp") true true false]))
  = inl [admin; mkGrant (lit "feeds/misp") true true false].
Proof.
  apply grants_roundtrip; [discriminate|].
  constructor; [by left|]. constructor; [|constructor]. right. split; [done|]. split; [done|].
  by apply validate_namespace_prefix_ok.
Defined.

(** What [parse_grants] accepts is never empty, and every grant it returns
    is one that can be written back. *)
Theorem parse_grants_sound spec gs :
  parse_grants spec = inl gs ->
  gs <> [] /\ Forall (fun g => g = admin \/ (g_admin g = false /\ (g_read g || g_write g) = true)) gs.
Proof.
  unfold parse_grants.
  assert (Hl : forall parts acc gs, parse_loop parts acc = inl gs ->
    Forall (fun g => g = admin \/ (g_admin g = false /\ (g_read g || g_write g) = true)) acc ->
    Forall (fun g => g = admin \/ (g_admin g = false /\ (g_read g || g_write g) = true)) gs).
  { induction parts as [|p parts IH]; intros acc gs'; simpl; [by intros [= <-]|].
    destruct (parse_grant p) as [[g|]|e] eqn:E; [|apply IH|done].
    intros Hp Hacc. eapply IH; [exact Hp|]. apply Forall_app. split; [done|].
    constructor; [|constructor]. unfold parse_grant in E.
    repeat case_match; simplify_eq; auto. }
  destruct (parse_loop _ _) as [[|g gs']|e] eqn:E; [done| |done]. intros [= <-].
  split; [done|]. by eapply Hl.
Qed.

Lemma parse_grants_sound_witness :
  (forall gs, parse_grants (lit "r, w:staging,, rw:feeds") = inl gs -> length gs = 3)
  /\ parse_grants (lit " , ") = inr NoGrants.
Proof.
  split; [|reflexivity]. intros gs Hg. pose proof (parse_grants_sound _ _ Hg) as [_ _].
  vm_compute in Hg. by simplify_eq.
Defined.

(** ** One rule for the ACL and for storage *)

(** A path with no empty segment: what a caller gets by writing the name
    without leading, trailing or doubled slashes. *)
Definition normal (path : str) : Prop :=
  segments path <> [] /\ path = join_with [SLASH] (segments path).

Lemma split_join_app c (l : list str) r :
  l <> [] -> (forall p, p ∈ l -> c ∉ p) ->
  split_char c (join_with [c] l ++ c :: r) = l ++ split_char c r.
Proof.
  induction l as [|p l IH]; [done|]. intros _ Hn. destruct l as [|q l].
  - simpl. apply split_char_app, Hn. left.
  - change (join_with [c] (p :: q :: l)) with (p ++ c :: join_with [c] (q :: l)).
    rewrite <- (assoc_L (++)). simpl. rewrite split_char_app by (apply Hn; left).
    f_equal. apply IH; [done|]. intros. apply Hn. by right.
Qed.

Lemma join_app c (l k : list str) :
  l <> [] -> k <> [] -> join_with [c] (l ++ k) = join_with [c] l ++ c :: join_with [c] k.
Proof.
  intros Hl Hk. induction l as [|p l IH]; [done|]. destruct l as [|q l].
  - destruct k; [done|]. reflexivity.
  - change (join_with [c] ((p :: q :: l) ++ k)) with (p ++ c :: join_with [c] ((q :: l) ++ k)).
    rewrite IH by done.
    change (join_with [c] (p :: q :: l)) with (p ++ c :: join_with [c] (q :: l)).
    by rewrite <- (assoc_L (++)).
Qed.

Lemma below_spec p name : below p name = true <-> exists r, name = p ++ SLASH :: r.
Proof.
  unfold below. destruct (strip_prefix p name) as [rest|] eqn:E.
  - apply strip_prefix_spec in E. subst. rewrite starts_with_spec. split.
    + intros [r ->]. by exists r.
    + intros [r He]. apply app_inv_head in He. by exists r.
  - split; [done|]. intros [r ->].
    by rewrite (proj2 (strip_prefix_spec p (p ++ SLASH :: r) (SLASH :: r))) in E.
Qed.

Lemma normal_under p ns :
  normal p -> normal ns ->
  (bool_decide (ns = p) || below p ns = true) <-> segments p `prefix_of` segments ns.
Proof.
  intros [Np Ep] [Nn En].
  assert (Hs : forall path s, s ∈ segments path -> SLASH ∉ s) by (intros ? ? ?%segments_elem; tauto).
  rewrite orb_true_iff, bool_decide_eq_true, below_spec. split.
  - intros [->|[r Hr]]; [done|]. exists (split_char SLASH r).
    rewrite Ep in Hr. rewrite En in Hr. apply (f_equal (split_char SLASH)) in Hr.
    rewrite split_join, split_join_app in Hr by eauto. done.
  - intros [k Hk]. destruct k as [|q k].
    + left. rewrite En, Hk, app_nil_r. by symmetry.
    + right. exists (join_with [SLASH] (q :: k)). rewrite En, Hk, join_app by done. by rewrite <- Ep.
Qed.

Lemma normal_split ns : normal ns -> split_char SLASH ns = segments ns.
Proof.
  intros [Hne E]. rewrite E at 1. apply split_join; [done|].
  intros p [_ Hp]%segments_elem. done.
Qed.

Lemma normal_trim ns : normal ns -> trim_slashes ns = ns.
Proof.
  intros Hn. pose proof (normal_split ns Hn) as Hs.
  assert (Hno : [] ∉ split_char SLASH ns) by (rewrite Hs; by intros [? _]%segments_elem).
  apply trim_by_id. split; intros x r ->; apply N.eqb_neq; intros ->; apply Hno.
  - left.
  - change [47%N] with (SLASH :: []). rewrite split_char_app_gen. apply elem_of_app. right. left.
Qed.

(** A storage prefix and an ACL grant cover exactly the same ordinary
    namespaces, as long as neither name has an empty segment. *)
Theorem storage_acl_same_rule p ns rd wr ad :
  normal p -> normal ns -> is_internal ns = false ->
  holds (mkStorage [p] false) ns = covers (mkGrant p rd wr ad) ns.
Proof.
  intros Hp Hn Hi. unfold holds, covers. rewrite Hi. simpl. rewrite (normal_trim ns Hn), orb_false_r.
  apply eq_iff_eq_true. rewrite (normal_under p ns Hp Hn), covers_loop_spec. done.
Qed.

Lemma storage_acl_same_rule_witness :
  holds (mkStorage [lit "feeds/misp"] false) (lit "feeds/misp/ips")
  = covers (mkGrant (lit "feeds/misp") true false false) (lit "feeds/misp/ips").
Proof.
  apply storage_acl_same_rule; [split; [vm_compute; discriminate|reflexivity]..|reflexivity].
Defined.

(** With an empty segment in the name the two rules part: the ACL skips
    it, the storage policy does not. *)
Lemma storage_acl_differ_on_doubled_slash :
  exists p ns, normal p /\ is_internal ns = false
    /\ covers (mkGrant p true true false) ns = true /\ holds (mkStorage [p] false) ns = false.
Proof.
  exists (lit "feeds/misp"), (lit "feeds//misp/ips"). split_and!; try reflexivity.
  split; [vm_compute; discriminate|reflexivity].
Qed.
