(* ===== verification/Latest.v ===== *)
(** * The values written most recently

    Models [src/src/latest.rs]: the bounded record behind [/_api/latest], kept
    as an ordered map from arrival number to entry and an index from
    namespace-and-value to arrival number.  The refinement theorem shows the
    two maps together are a bounded move-to-front list. *)

From stdpp Require Import base numbers list strings gmap sorting.
From S2P Require Import Prelude Paths.

Definition DEFAULT_CAPACITY : nat := N.to_nat 10000.
Definition MAX_LIMIT : nat := N.to_nat 1000.

Record Entry := mkEntry { e_namespace : str; e_value : str; e_written : Z }.

#[export] Instance Entry_eq_dec : EqDecision Entry.
Proof. solve_decision. Defined.

Record Inner := mkInner {
  order : gmap Z Entry;
  position : gmap str Z;
  next : Z;
  dirty : bool;
}.

Record Latest := mkLatest { capacity : nat; inner : Inner }.

Definition key_of (namespace value : str) : str := namespace ++ 0%N :: value.
Definition entry_key (e : Entry) : str := key_of (e_namespace e) (e_value e).

Definition empty_inner : Inner := mkInner ∅ ∅ 0 false.
Definition default_latest : Latest := mkLatest DEFAULT_CAPACITY empty_inner.

(** [Inner::remove] *)
Definition inner_remove (i : Inner) (key : str) : Inner :=
  match position i !! key with
  | Some at_ => mkInner (delete at_ (order i)) (delete key (position i)) (next i) (dirty i)
  | None => i
  end.

(** The [while] loop of [Inner::trim]; each turn removes one entry, so the
    number of entries is fuel enough. *)
Fixpoint trim_loop (fuel : nat) (i : Inner) (cap : nat) : Inner :=
  match fuel with
  | 0 => i
  | S fuel' =>
      if bool_decide (cap < size (order i)) then
        match btree_iter (order i) with
        | [] => i
        | (at_, oldest) :: _ =>
            trim_loop fuel'
              (mkInner (delete at_ (order i)) (delete (entry_key oldest) (position i)) (next i) (dirty i))
              cap
        end
      else i
  end.
Definition inner_trim (i : Inner) (cap : nat) : Inner := trim_loop (size (order i)) i cap.

(** [Inner::push] *)
Definition push (i : Inner) (e : Entry) (cap : nat) : Inner :=
  let key := entry_key e in
  let i1 := inner_remove i key in
  let at_ := next i1 in
  inner_trim
    (mkInner (<[at_ := e]> (order i1)) (<[key := at_]> (position i1)) (u64_add (next i1) 1) (dirty i1))
    cap.

Definition set_dirty (i : Inner) (d : bool) : Inner := mkInner (order i) (position i) (next i) d.

Definition set_capacity (l : Latest) (cap : nat) : Latest :=
  let i' := inner_trim (inner l) cap in
  mkLatest cap
    (if bool_decide (size (order i') <> size (order (inner l))) then set_dirty i' true else i').

Definition record_at (l : Latest) (namespace value : str) (written : Z) : Latest :=
  if bool_decide (capacity l = 0) || is_internal namespace then l
  else mkLatest (capacity l)
         (set_dirty (push (inner l) (mkEntry namespace value written) (capacity l)) true).

(** Entries oldest first. *)
Definition listed (i : Inner) : list Entry := (btree_iter (order i)).*2.

Definition forget_namespace (l : Latest) (namespace : str) : Latest :=
  let gone := entry_key <$> filter (fun e => e_namespace e = namespace) (listed (inner l)) in
  if is_empty gone then l
  else mkLatest (capacity l) (set_dirty (foldl inner_remove (inner l) gone) true).

Section Recent.
Context (limit : nat) (since : option Z) (prefix : str) (visible : str -> bool).

Definition too_old (e : Entry) : bool :=
  match since with Some s => bool_decide (e_written e < s)%Z | None => false end.

(** The loop over [inner.order.values().rev()], with the cache of the ACL's
    answers. *)
Fixpoint recent_loop (es : list Entry) (allowed : gmap str bool) (found : list Entry) : list Entry :=
  match es with
  | [] => found
  | e :: rest =>
      if bool_decide (limit <= length found) then found
      else if too_old e then found
      else if negb (under (e_namespace e) prefix) then recent_loop rest allowed found
      else
        let ns := e_namespace e in
        let ok := match allowed !! ns with Some b => b | None => visible ns end in
        let allowed' := match allowed !! ns with Some _ => allowed | None => <[ns := visible ns]> allowed end in
        recent_loop rest allowed' (if ok then found ++ [e] else found)
  end.
End Recent.

Definition recent (l : Latest) (limit : nat) (since : option Z) (prefix : str)
    (visible : str -> bool) : list Entry :=
  recent_loop (Nat.min limit MAX_LIMIT) since (trim_slashes prefix) visible
    (reverse (listed (inner l))) ∅ [].

Definition take_snapshot (l : Latest) (force : bool) : Latest * option (list Entry) :=
  if negb (dirty (inner l)) && negb force then (l, None)
  else (mkLatest (capacity l) (set_dirty (inner l) false), Some (listed (inner l))).

Definition mark_dirty (l : Latest) : Latest := mkLatest (capacity l) (set_dirty (inner l) true).

Definition restore (l : Latest) (saved : list Entry) : Latest :=
  let since_startup := listed (inner l) in
  let i0 := mkInner ∅ ∅ (next (inner l)) (dirty (inner l)) in
  mkLatest (capacity l) (foldl (fun i e => push i e (capacity l)) i0 (saved ++ since_startup)).

(** ** The two maps describe one list *)
Record latest_inv (i : Inner) : Prop := {
  inv_index : forall k a, position i !! k = Some a <-> exists e, order i !! a = Some e /\ entry_key e = k;
  inv_next : forall a, is_Some (order i !! a) -> (0 <= a < next i)%Z;
}.

Lemma empty_inv n d : latest_inv (mkInner ∅ ∅ n d).
Proof. split; simpl; intros *; rewrite lookup_empty; [|by intros []]. setoid_rewrite lookup_empty. naive_solver. Qed.

Lemma fmap_snd_filter {A B} (P : B -> Prop) `{!forall x, Decision (P x)} (l : list (A * B)) :
  (filter (fun p => P p.2) l).*2 = filter P l.*2.
Proof.
  induction l as [|[a b] l IH]; [done|]. rewrite fmap_cons, !filter_cons. simpl.
  case_decide; [rewrite fmap_cons; f_equal; exact IH|exact IH].
Qed.

Lemma inner_remove_inv i key : latest_inv i -> latest_inv (inner_remove i key).
Proof.
  intros [Hix Hn]. unfold inner_remove. destruct (position i !! key) as [a|] eqn:E; [|by split].
  apply Hix in E as (e & He & <-). split; simpl.
  - intros k b. rewrite lookup_delete_Some, Hix. setoid_rewrite lookup_delete_Some. split.
    + intros [Hk (e' & He' & <-)]. exists e'. split; [split; [|done]|done]. intros ->. congruence.
    + intros (e' & [Hb He'] & <-). split; [|eauto]. intros Heq.
      assert (position i !! entry_key e = Some a) by (apply Hix; eauto).
      assert (position i !! entry_key e = Some b) by (apply Hix; eauto). congruence.
  - intros b [e' He']. apply lookup_delete_Some in He' as [_ ?]. eauto.
Qed.

Lemma inner_remove_listed i key :
  latest_inv i -> listed (inner_remove i key) = filter (fun e => entry_key e <> key) (listed i).
Proof.
  intros [Hix Hn]. unfold listed, inner_remove. rewrite <- fmap_snd_filter.
  destruct (position i !! key) as [a|] eqn:E; simpl.
  - rewrite btree_iter_delete. f_equal. apply list_filter_ext.
    intros [b e] Hb%elem_of_btree_iter. simpl. split; intros Hne Heq; apply Hne.
    + assert (position i !! key = Some b) by (apply Hix; eauto). congruence.
    + subst b. apply Hix in E as (e' & He' & <-). congruence.
  - f_equal. symmetry. apply list_filter_all. intros [b e] Hb%elem_of_btree_iter <-. simpl in E.
    assert (position i !! entry_key e = Some b) by (apply Hix; eauto). congruence.
Qed.

Lemma trim_loop_spec fuel i cap :
  latest_inv i -> size (order i) <= fuel + cap ->
  latest_inv (trim_loop fuel i cap)
  /\ listed (trim_loop fuel i cap) = drop (length (listed i) - cap) (listed i)
  /\ next (trim_loop fuel i cap) = next i.
Proof.
  assert (Hlen : forall i, length (listed i) = size (order i)).
  { intros j. unfold listed. rewrite length_fmap, <- (length_fmap fst). apply btree_keys_length. }
  revert i. induction fuel as [|fuel IH]; intros i Hi Hsz; simpl.
  - rewrite Hlen, (proj2 (Nat.sub_0_le _ _)) by lia. done.
  - case_bool_decide as Hc.
    + destruct (btree_iter (order i)) as [|[a e] rest] eqn:E.
      { exfalso. rewrite <- Hlen in Hc. unfold listed in Hc. rewrite E in Hc. simpl in Hc. lia. }
      assert (Ha : order i !! a = Some e) by (apply elem_of_btree_iter; rewrite E; left).
      assert (Hp : position i !! entry_key e = Some a) by (apply Hi; eauto).
      assert (Hrm : mkInner (delete a (order i)) (delete (entry_key e) (position i)) (next i) (dirty i)
                    = inner_remove i (entry_key e)) by (unfold inner_remove; by rewrite Hp).
      rewrite Hrm. destruct (IH (inner_remove i (entry_key e))) as (I1 & I2 & I3).
      { by apply inner_remove_inv. }
      { rewrite <- Hrm. simpl. rewrite map_size_delete_Some by eauto. lia. }
      split_and!; [done| |rewrite I3; by rewrite <- Hrm].
      rewrite I2, <- Hrm. unfold listed. simpl.
      pose proof (btree_iter_cons _ _ _ E) as Ec. simpl in Ec. rewrite Ec, E, fmap_cons. cbn [length snd].
      assert (length rest.*2 = size (order i) - 1) as Hr.
      { pose proof (Hlen i) as Hli. unfold listed in Hli. rewrite E, fmap_cons in Hli. simpl in Hli. lia. }
      rewrite Hr. replace (S (size (order i) - 1) - cap) with (S (size (order i) - 1 - cap)) by lia. done.
    + rewrite Hlen, (proj2 (Nat.sub_0_le _ _)) by lia. done.
Qed.

Lemma push_spec i e cap :
  latest_inv i -> (next i + 1 < U64_MODULUS)%Z -> (0 <= next i)%Z ->
  latest_inv (push i e cap)
  /\ next (push i e cap) = (next i + 1)%Z
  /\ let l := filter (fun x => entry_key x <> entry_key e) (listed i) ++ [e] in
     listed (push i e cap) = drop (length l - cap) l.
Proof.
  intros Hi Hb H0. unfold push, inner_trim.
  pose proof (inner_remove_inv i (entry_key e) Hi) as Hr.
  pose proof (inner_remove_listed i (entry_key e) Hi) as Hl.
  assert (Hn : next (inner_remove i (entry_key e)) = next i) by (unfold inner_remove; by case_match).
  assert (Hgone : forall a x, order (inner_remove i (entry_key e)) !! a = Some x -> entry_key x <> entry_key e).
  { intros a x Hx. assert (x ∈ listed (inner_remove i (entry_key e))) as Hin.
    { apply list_elem_of_fmap. exists (a, x). split; [done|]. by apply elem_of_btree_iter. }
    rewrite Hl in Hin. by apply list_elem_of_filter in Hin as [? _]. }
  destruct (inner_remove i (entry_key e)) as [ord pos nx d]. simpl in *. subst nx.
  destruct Hr as [Hix Hnx]. simpl in *.
  assert (Hu : u64_add (next i) 1 = (next i + 1)%Z) by (apply wrap64_id; split; lia).
  rewrite Hu. set (j := mkInner _ _ _ _).
  assert (Hj : latest_inv j).
  { split; simpl.
    - intros k a. rewrite lookup_insert_Some, Hix. setoid_rewrite lookup_insert_Some. split.
      + intros [[<- <-]|[Hk (x & Hx & <-)]]; [exists e; auto|].
        exists x. split; [right; split; [|done]|done]. intros <-. destruct (Hnx (next i)); [eauto|lia].
      + intros (x & [[<- <-]|[Ha Hx]] & <-); [by left|]. right. split; [|eauto].
        intros Heq. by eapply Hgone.
    - intros a Ha. destruct (decide (a = next i)) as [->|Hne]; [lia|].
      rewrite lookup_insert_ne in Ha by done. destruct (Hnx _ Ha). lia. }
  assert (Hlj : listed j = filter (fun x => entry_key x <> entry_key e) (listed i) ++ [e]).
  { rewrite <- Hl. unfold listed, j. simpl. rewrite btree_iter_insert_last; [by rewrite fmap_app|].
    intros a Ha. destruct (Hnx _ Ha). split; [change (a <= next i)%Z|]; lia. }
  destruct (trim_loop_spec (size (order j)) j cap Hj) as (I1 & I2 & I3); [lia|].
  split; [exact I1|]. split; [exact I3|]. cbv zeta. rewrite <- Hlj. exact I2.
Qed.

Lemma listed_NoDup i : latest_inv i -> NoDup (entry_key <$> listed i).
Proof.
  intros [Hix _]. unfold listed. rewrite <- list_fmap_compose. apply NoDup_fmap_2_strong.
  - intros [a x] [b y] Ha%elem_of_btree_iter Hb%elem_of_btree_iter Heq. simpl in Heq.
    assert (position i !! entry_key x = Some a) by (apply Hix; eauto).
    assert (position i !! entry_key x = Some b) by (apply Hix; eauto). congruence.
  - apply (NoDup_fmap_1 fst), btree_iter_NoDup.
Qed.

Lemma set_dirty_inv i d : latest_inv i -> latest_inv (set_dirty i d).
Proof. intros [? ?]. by split. Qed.

(** The record is a bounded move-to-front list.  Writing a value to an
    ordinary namespace puts it in front of everything else, takes its previous
    occurrence out, keeps the others in order, and drops the oldest beyond the
    capacity; a disabled record and an internal namespace are left alone; the
    index stays exact and no value is listed twice. *)
Theorem latest_move_to_front l ns v w :
  latest_inv (inner l) -> (0 <= next (inner l))%Z -> (next (inner l) + 1 < U64_MODULUS)%Z ->
  let l' := record_at l ns v w in
  let e := mkEntry ns v w in
  latest_inv (inner l') /\ NoDup (entry_key <$> listed (inner l'))
  /\ reverse (listed (inner l'))
     = (if bool_decide (capacity l = 0) || is_internal ns then reverse (listed (inner l))
        else take (capacity l)
               (e :: filter (fun x => entry_key x <> entry_key e) (reverse (listed (inner l))))).
Proof.
  intros Hi H0 Hb l' e. subst l'. unfold record_at. fold e.
  destruct (bool_decide (capacity l = 0) || is_internal ns) eqn:E; [auto using listed_NoDup|].
  cbn [inner].
  destruct (push_spec (inner l) e (capacity l) Hi Hb H0) as (I1 & _ & I3). cbv zeta in I3.
  split; [by apply set_dirty_inv|]. split; [by apply listed_NoDup, set_dirty_inv|].
  unfold listed in *. cbn [order set_dirty]. rewrite I3, <- take_reverse, reverse_snoc, filter_reverse.
  done.
Qed.

Definition demo_latest : Latest :=
  record_at (record_at (mkLatest 2 empty_inner) (lit "a") (lit "x") 10) (lit "b") (lit "y") 20.

Lemma latest_move_to_front_witness :
  reverse (listed (inner (record_at demo_latest (lit "a") (lit "x") 30)))
  = [mkEntry (lit "a") (lit "x") 30; mkEntry (lit "b") (lit "y") 20].
Proof.
  assert (H1 : latest_inv (inner demo_latest)).
  { unfold demo_latest. apply set_dirty_inv, push_spec;
      [apply set_dirty_inv, push_spec; [apply empty_inv|done|done]|by vm_compute|by vm_compute]. }
  pose proof (latest_move_to_front demo_latest (lit "a") (lit "x") 30 H1 ltac:(by vm_compute)
                ltac:(by vm_compute)) as (_ & _ & ->).
  vm_compute. reflexivity.
Defined.

(** ** Reading it back *)
Fixpoint take_while {A} (f : A -> bool) (l : list A) : list A :=
  match l with
  | [] => []
  | x :: r => if f x then x :: take_while f r else []
  end.

Lemma recent_loop_spec limit since prefix visible es allowed found :
  (forall ns b, allowed !! ns = Some b -> b = visible ns) -> length found <= limit ->
  recent_loop limit since prefix visible es allowed found
  = take limit (found ++ filter (fun e => Is_true (under (e_namespace e) prefix && visible (e_namespace e)))
                           (take_while (fun e => negb (too_old since e)) es)).
Proof.
  revert allowed found. induction es as [|e es IH]; intros allowed found Hc Hl; simpl.
  - rewrite app_nil_r, take_ge; done.
  - case_bool_decide as Hfull.
    { rewrite take_app_le, take_ge by lia. done. }
    destruct (too_old since e); simpl; [by rewrite app_nil_r, take_ge by lia|].
    rewrite filter_cons.
    destruct (under (e_namespace e) prefix) eqn:Eu; simpl; [|by apply IH].
    assert (Hok : match allowed !! e_namespace e with Some b => b | None => visible (e_namespace e) end
                  = visible (e_namespace e)).
    { destruct (allowed !! e_namespace e) eqn:Ea; [by apply Hc|done]. }
    rewrite Hok, IH.
    + destruct (visible (e_namespace e)); simpl; [|done]. by rewrite <- (assoc_L (++)).
    + intros ns b. destruct (allowed !! e_namespace e) eqn:Ea; [apply Hc|].
      rewrite lookup_insert_Some. intros [[<- <-]|[_ ?]]; [done|by apply Hc].
    + destruct (visible (e_namespace e)); [rewrite length_app; simpl; lia|lia].
Qed.

(** What a caller is shown is the newest entries first, none written
    before [since], all under the prefix on whole segments, all in namespaces
    its key may read, and never more than it asked for or than the fixed
    maximum; the cache of ACL answers changes nothing. *)
Theorem recent_exact l limit since prefix visible :
  recent l limit since prefix visible
  = take (Nat.min limit MAX_LIMIT)
      (filter (fun e => Is_true (under (e_namespace e) (trim_slashes prefix) && visible (e_namespace e)))
         (take_while (fun e => negb (too_old since e)) (reverse (listed (inner l))))).
Proof. unfold recent. rewrite recent_loop_spec; [done| |simpl; lia]. intros ns b. by rewrite lookup_empty. Qed.
