(* ===== verification/Tags.v ===== *)
(** * The tag vocabulary

    Models [src/src/tags.rs]: a colour and a description per tag, families
    named by a trailing colon, the validation of names and colours, and the
    text of the file.  The TOML parser is the [toml] crate's: [from_toml]
    takes the tables it read. *)

From stdpp Require Import base numbers list strings gmap sorting.
From S2P Require Import Prelude Attribute.

Definition MAX_NAME : nat := 128.
Definition HASH : N := 35.
Definition DQUOTE : N := 34.
Definition BACKSLASH : N := 92.

Record Tag := mkTag { colour : str; description : str }.
#[export] Instance tag_eq_dec : EqDecision Tag.
Proof. solve_decision. Defined.

(** [BTreeMap<String, Tag>] *)
Abbreviation Vocabulary := (gmap str Tag).

Inductive TagError :=
  NeedsName | NameTooLong | HasComma | OuterSpace | HasControl | NoHash | BadLength | NotHex | NoSuchTag.

Definition validate_colour (c : str) : option TagError :=
  match strip_prefix [HASH] c with
  | None => Some NoHash
  | Some hex =>
      if negb (str_len hex =? 3) && negb (str_len hex =? 6) then Some BadLength
      else if negb (forallb is_ascii_hexdigit hex) then Some NotHex
      else None
  end.

Definition validate (name c : str) : option TagError :=
  if is_empty name then Some NeedsName
  else if MAX_NAME <? str_len name then Some NameTooLong
  else if bool_decide (COMMA ∈ name) then Some HasComma
  else if negb (bool_decide (trim name = name)) then Some OuterSpace
  else if existsb is_control name then Some HasControl
  else validate_colour c.

(** [colour.trim().to_lowercase()], of a colour that was just validated and so
    is ASCII. *)
Definition normalise_colour (c : str) : str := to_ascii_lowercase (trim c).

(** [split] *)
Definition tag_split (t : str) : list str := filter (fun tag => tag <> []) (trim <$> split_char COMMA t).

Definition from_toml (parsed : gmap str Tag) : Vocabulary :=
  filter (fun p => validate p.1 (colour p.2) = None) parsed.

Definition escape_char (c : N) : str :=
  if (c =? BACKSLASH)%N || (c =? DQUOTE)%N then [BACKSLASH; c] else [c].
Definition in_quotes (s : str) : str := [DQUOTE] ++ s ++ [DQUOTE].

(** Backslashes are doubled, then quotes get one: no character the first
    replacement writes is a quote, so both happen in one pass. *)
Definition escape (s : str) : str := mjoin (escape_char <$> s).

Definition tag_header : str :=
  lit "# Written by the SightingDB management interface. Comments added" ++ [LF]
  ++ lit "# here are replaced the next time a tag is saved." ++ [LF]
  ++ lit "#" ++ [LF]
  ++ lit "# A name ending in ':' colours a whole family, so " ++ in_quotes (lit "tlp:") ++ lit " would" ++ [LF]
  ++ lit "# cover every tlp: tag at once." ++ [LF] ++ [LF].

Definition tag_table (p : str * Tag) : str :=
  lit "[tags." ++ in_quotes p.1 ++ lit "]" ++ [LF]
  ++ lit "colour = " ++ in_quotes (colour p.2) ++ [LF]
  ++ (if is_empty (description p.2) then []
      else lit "description = " ++ in_quotes (escape (description p.2)) ++ [LF])
  ++ [LF].

Definition tags_to_toml (v : Vocabulary) : str := tag_header ++ mjoin (tag_table <$> btree_iter v).

Definition is_family (name : str) : bool := bool_decide (last name = Some COLON).

(** [max_by_key] keeps the last of the greatest. *)
Definition longer (best : option (str * Tag)) (p : str * Tag) : option (str * Tag) :=
  match best with
  | Some b => if str_len p.1 <? str_len b.1 then Some b else Some p
  | None => Some p
  end.

Definition colour_of (v : Vocabulary) (tag : str) : option str :=
  match v !! tag with
  | Some known => Some (colour known)
  | None =>
      (fun p => colour p.2)
      <$> foldl longer None (filter (fun p => is_family p.1 && starts_with p.1 tag = true) (btree_iter v))
  end.

Definition vocab_set (v : Vocabulary) (name c desc : str) : Vocabulary + TagError :=
  let name := trim name in
  match validate name c with
  | Some e => inr e
  | None => inl (<[name := mkTag (normalise_colour c) (trim desc)]> v)
  end.

Definition vocab_remove (v : Vocabulary) (name : str) : Vocabulary + TagError :=
  match v !! trim name with
  | None => inr NoSuchTag
  | Some _ => inl (delete (trim name) v)
  end.

(** ** Invariant *)
Definition vocab_ok (v : Vocabulary) : Prop := map_Forall (fun n t => validate n (colour t) = None) v.

Lemma lower_hexdigit c : is_ascii_hexdigit c = true -> is_ascii_hexdigit (lower_char c) = true.
Proof.
  unfold is_ascii_hexdigit, lower_char, is_ascii_upper, is_ascii_digit. intros Hc.
  destruct ((65 <=? c) && (c <=? 90))%N eqn:E; [|done].
  apply andb_true_iff in E as [E1%N.leb_le E2%N.leb_le].
  apply orb_true_iff in Hc as [Hc|Hc]; [apply orb_true_iff in Hc as [Hc|Hc]|];
    apply andb_true_iff in Hc as [H1%N.leb_le H2%N.leb_le]; [lia| |lia].
  apply orb_true_iff. right. apply andb_true_iff. split; apply N.leb_le; lia.
Qed.

Lemma hexdigit_ascii c : is_ascii_hexdigit c = true -> (48 <= c <= 102)%N.
Proof.
  unfold is_ascii_hexdigit, is_ascii_digit. intros Hc.
  apply orb_true_iff in Hc as [Hc|Hc]; [apply orb_true_iff in Hc as [Hc|Hc]|];
    apply andb_true_iff in Hc as [H1%N.leb_le H2%N.leb_le]; lia.
Qed.

Lemma hexdigit_utf8 c : is_ascii_hexdigit c = true -> utf8_len c = 1.
Proof. intros Hc%hexdigit_ascii. unfold utf8_len. by rewrite (proj2 (N.ltb_lt c 128)) by lia. Qed.

Lemma hexdigit_graphic c : is_ascii_hexdigit c = true -> is_whitespace c = false.
Proof.
  intros Hc%hexdigit_ascii. unfold is_whitespace.
  repeat (apply orb_false_iff; split); try (apply N.eqb_neq; lia); apply andb_false_iff;
    rewrite !N.leb_gt; lia.
Qed.

Lemma lower_utf8 s : forallb is_ascii_hexdigit s = true -> str_len (to_ascii_lowercase s) = str_len s.
Proof.
  induction s as [|c s IH]; [done|]. simpl. intros [Hc Hs]%andb_true_iff.
  unfold str_len, to_ascii_lowercase in *. simpl. rewrite IH by done.
  by rewrite !hexdigit_utf8 by auto using lower_hexdigit.
Qed.

Lemma colour_shape c :
  validate_colour c = None <->
  exists hex, c = HASH :: hex /\ (str_len hex = 3 \/ str_len hex = 6) /\ forallb is_ascii_hexdigit hex = true.
Proof.
  unfold validate_colour. split.
  - destruct (strip_prefix [HASH] c) as [hex|] eqn:E; [|done]. apply strip_prefix_spec in E. intros H. exists hex.
    split; [done|]. destruct (str_len hex =? 3) eqn:E1, (str_len hex =? 6) eqn:E2, (forallb is_ascii_hexdigit hex);
      try done; rewrite ?Nat.eqb_eq in *; auto.
  - intros (hex & -> & Hl & Hh). rewrite (proj2 (strip_prefix_spec [HASH] (HASH :: hex) hex)) by done.
    destruct Hl as [Hl|Hl]; rewrite Hl, Hh; done.
Qed.

(** Saving a colour in lower case keeps it valid, and is all that happens to it. *)
Lemma normalise_valid c :
  validate_colour c = None ->
  normalise_colour c = to_ascii_lowercase c /\ validate_colour (normalise_colour c) = None.
Proof.
  intros (hex & -> & Hl & Hh)%colour_shape.
  assert (Ht : trim (HASH :: hex) = HASH :: hex).
  { apply trim_by_id. split.
    - intros x r [= <- _]. done.
    - intros x r Hr. assert (Hx : x ∈ HASH :: hex).
      { rewrite Hr. apply elem_of_app. right. by apply list_elem_of_singleton. }
      apply elem_of_cons in Hx as [-> |Hx]; [done|]. apply hexdigit_graphic.
      rewrite forallb_forall in Hh. apply Hh. by apply list_elem_of_In. }
  unfold normalise_colour. rewrite Ht. split; [done|]. apply colour_shape. exists (to_ascii_lowercase hex).
  split_and!; [done|by rewrite lower_utf8|].
  apply forallb_forall. intros x Hx%list_elem_of_In. unfold to_ascii_lowercase in Hx.
  apply list_elem_of_fmap in Hx as (y & -> & Hy). apply lower_hexdigit. rewrite forallb_forall in Hh.
  apply Hh. by apply list_elem_of_In.
Qed.

Lemma validate_split name c : validate name c = None -> validate_colour c = None
  /\ forall c', validate_colour c' = None -> validate name c' = None.
Proof. unfold validate. intros H. repeat case_match; try done. Qed.

(** ** The longest family *)
Lemma longer_spec l b p :
  foldl longer b l = Some p ->
  (p ∈ l \/ b = Some p) /\ forall q, q ∈ l \/ b = Some q -> str_len q.1 <= str_len p.1.
Proof.
  revert b. induction l as [|x l IH]; intros b; simpl.
  - intros ->. split; [by right|]. intros q [Hq|[= ->]]; [by apply elem_of_nil in Hq|done].
  - intros H. destruct (IH _ H) as [H1 H2]. unfold longer in H1, H2. destruct b as [b|].
    + destruct (str_len x.1 <? str_len b.1) eqn:E; [apply Nat.ltb_lt in E|apply Nat.ltb_ge in E].
      * split; [destruct H1; [left; by right|by right]|].
        intros q [[-> |Hq]%elem_of_cons|[= <-]]; [|auto|auto]. specialize (H2 b (or_intror eq_refl)). lia.
      * split; [destruct H1 as [|[= ->]]; left; [by right|by left]|].
        intros q [[-> |Hq]%elem_of_cons|[= <-]]; [auto|auto|]. specialize (H2 x (or_intror eq_refl)). lia.
    + split; [destruct H1 as [|[= ->]]; left; [by right|by left]|].
      intros q [[-> |Hq]%elem_of_cons|[=]]; auto.
Qed.

Lemma longer_none l b : foldl longer b l = None -> l = [] /\ b = None.
Proof.
  revert b. induction l as [|x l IH]; intros b; simpl; [done|]. intros H.
  destruct (IH _ H) as [_ Hx]. unfold longer in Hx. destruct b; [by case_match|done].
Qed.

Lemma str_len_app a b : str_len (a ++ b) = str_len a + str_len b.
Proof. unfold str_len. induction a as [|x a IH]; simpl; [done|]. rewrite IH. lia. Qed.

Lemma str_len_0 s : str_len s = 0 -> s = [].
Proof.
  destruct s as [|x s]; [done|]. unfold str_len. simpl. unfold utf8_len.
  repeat destruct (_ <? _)%N; simpl; lia.
Qed.

(** Two prefixes of one tag of the same length are the same. *)
Lemma same_prefix a b s : starts_with a s = true -> starts_with b s = true -> str_len a = str_len b -> a = b.
Proof.
  intros [r1 ->]%starts_with_spec [r2 H]%starts_with_spec Hl.
  destruct (app_eq_inv _ _ _ _ H) as [(k & -> & _)|(k & -> & _)]; rewrite str_len_app in Hl;
    assert (Hk : k = []) by (apply str_len_0; lia); subst; by rewrite app_nil_r.
Qed.

(** The families of a vocabulary that cover a tag. *)
Definition covers_tag (v : Vocabulary) (tag fam : str) (t : Tag) : Prop :=
  v !! fam = Some t /\ is_family fam = true /\ starts_with fam tag = true.

(** The colour of a tag is its own when the vocabulary defines it, else that
    of the longest family it belongs to, which is unique, else none; and what
    the vocabulary holds stays valid under every change: reading a file keeps
    exactly its valid entries, so reading back a valid vocabulary changes
    nothing; defining a tag changes that tag alone, to the colour asked for in
    lower case; removing one removes that one. *)
Theorem vocabulary_exact v tag c parsed name col desc :
  vocab_ok v ->
  (colour_of v tag = Some c <->
     (exists t, v !! tag = Some t /\ colour t = c)
     \/ v !! tag = None /\ exists fam t, covers_tag v tag fam t /\ colour t = c
          /\ forall fam' t', covers_tag v tag fam' t' -> fam' = fam \/ str_len fam' < str_len fam)
  /\ vocab_ok (from_toml parsed) /\ from_toml v = v
  /\ (forall v', vocab_set v name col desc = inl v' ->
        vocab_ok v' /\ colour_of v' (trim name) = Some (to_ascii_lowercase col)
        /\ forall n, n <> trim name -> v' !! n = v !! n)
  /\ (forall v', vocab_remove v name = inl v' -> vocab_ok v' /\ v' = delete (trim name) v).
Proof.
  intros Hok. split_and!.
  - assert (Hin : forall q, q ∈ filter (fun p => is_family p.1 && starts_with p.1 tag = true) (btree_iter v)
                   <-> covers_tag v tag q.1 q.2).
    { intros [n t]. rewrite list_elem_of_filter, elem_of_btree_iter, andb_true_iff. unfold covers_tag. simpl. tauto. }
    unfold colour_of. destruct (v !! tag) as [t|] eqn:Et.
    + split; [intros [= <-]; eauto|]. intros [(t' & [= <-] & <-)|[[=] _]]. done.
    + split.
      * intros (p & Hp & ->)%fmap_Some. right. split; [done|]. exists p.1, p.2.
        destruct (longer_spec _ _ _ Hp) as [[Hi|[=]] Hm]. apply Hin in Hi. split_and!; [done|done|].
        intros fam' t' Hf. specialize (Hm (fam', t')). rewrite Hin in Hm. specialize (Hm (or_introl Hf)). simpl in Hm.
        destruct (decide (str_len fam' < str_len p.1)); [by right|left].
        apply (same_prefix _ _ tag); [apply Hf|apply Hi|lia].
      * intros [(t & [=] & _)|(_ & fam & t & Hf & <- & Hm)].
        destruct (foldl longer None _) as [p|] eqn:Ep.
        -- destruct (longer_spec _ _ _ Ep) as [[Hi|[=]] Hx]. apply Hin in Hi.
           specialize (Hx (fam, t)). rewrite Hin in Hx. specialize (Hx (or_introl Hf)). simpl in Hx.
           destruct (Hm p.1 p.2 Hi) as [E|Hlt]; [|lia]. simpl. f_equal.
           destruct Hi as [Hi _]. destruct Hf as [Hf _]. rewrite E in Hi. congruence.
        -- apply longer_none in Ep as [Ep _]. assert (H : (fam, t) ∈ @nil (str * Tag)); [|by apply elem_of_nil in H].
           rewrite <- Ep. apply Hin. done.
  - intros n t [_ H]%map_lookup_filter_Some. done.
  - unfold from_toml. apply map_filter_id. intros n t Hn. by apply Hok.
  - intros v'. unfold vocab_set. destruct (validate (trim name) col) eqn:E; [done|]. intros [= <-].
    destruct (validate_split _ _ E) as [Hc Hn]. destruct (normalise_valid col Hc) as [E1 E2]. split_and!.
    + apply map_Forall_insert_2; [by apply Hn|done].
    + unfold colour_of. rewrite lookup_insert_eq. simpl. by rewrite E1.
    + intros n Hne. by rewrite lookup_insert_ne.
  - intros v'. unfold vocab_remove. destruct (v !! trim name); [|done]. intros [= <-].
    split; [by apply map_Forall_delete|done].
Qed.

(** A vocabulary with a tag and two families over it. *)
Definition demo_tags : Vocabulary :=
  {[lit "tlp:red" := mkTag (lit "#ff0000") []; lit "misp:" := mkTag (lit "#aaa") [];
    lit "misp:event:" := mkTag (lit "#bbb") []]}.

Lemma vocabulary_exact_witness :
  colour_of demo_tags (lit "misp:event:7") = Some (lit "#bbb")
  /\ from_toml demo_tags = demo_tags.
Proof.
  assert (Hok : vocab_ok demo_tags) by (apply (bool_decide_unpack _); by vm_compute).
  split.
  - apply (proj1 (vocabulary_exact demo_tags (lit "misp:event:7") (lit "#bbb") ∅ [] [] [] Hok)).
    right. split; [by vm_compute|]. exists (lit "misp:event:"), (mkTag (lit "#bbb") []).
    split_and!; [by vm_compute|done|].
    intros fam t (Hf & Hfam & Hs). apply elem_of_map_to_list in Hf. revert Hfam Hs.
    assert (Hl : map_to_list demo_tags ≡ₚ [(lit "tlp:red", mkTag (lit "#ff0000") []); (lit "misp:", mkTag (lit "#aaa") []);
      (lit "misp:event:", mkTag (lit "#bbb") [])]) by (apply (bool_decide_unpack _); by vm_compute).
    rewrite Hl in Hf. rewrite !elem_of_cons in Hf.
    destruct Hf as [[= -> ->]|[[= -> ->]|[[= -> ->]|Hf]]]; [by vm_compute|right; vm_compute; lia|by left|].
    by apply elem_of_nil in Hf.
  - exact (proj1 (proj2 (proj2 (vocabulary_exact demo_tags [] [] ∅ [] [] [] Hok)))).
Defined.
