(* ===== verification/Rejections.v ===== *)
(** * Values that were turned away

    Models [src/src/rejections.rs]: the bounded record of rejected values, kept
    oldest first, and its newest-first listing.  The clock is an argument. *)

From stdpp Require Import base numbers list strings gmap sorting.
From S2P Require Import Prelude Paths.

Definition DEFAULT_CAPACITY : nat := 1000.

Inductive Source := SourceWrite | BulkWrite | Management | Ingest.

Record Rejection := mkRejection {
  rj_when : Z; rj_namespace : str; rj_value : str; reason : str; rj_source : Source
}.

Record Rejections := mkRejections { rj_entries : list Rejection; rj_capacity : nat }.

Definition rj_new (capacity : nat) : Rejections := mkRejections [] capacity.
Definition rj_default : Rejections := rj_new DEFAULT_CAPACITY.
Definition rj_enabled (r : Rejections) : bool := 0 <? rj_capacity r.

(** [while entries.len() >= capacity { entries.pop_front(); }] *)
Fixpoint pop_while (capacity : nat) (l : list Rejection) : list Rejection :=
  match l with
  | [] => []
  | _ :: rest => if capacity <=? length l then pop_while capacity rest else l
  end.

Definition rj_record (r : Rejections) (now : Z) (ns v why : str) (from : Source) : Rejections :=
  if negb (rj_enabled r) then r
  else mkRejections (pop_while (rj_capacity r) (rj_entries r) ++ [mkRejection now ns v why from]) (rj_capacity r).

(** Whether a rejection is listed for the namespace asked about. *)
Definition rj_wanted (wanted : option str) (e : Rejection) : bool :=
  match wanted with
  | Some w =>
      bool_decide (rj_namespace e = w)
      || match strip_prefix w (rj_namespace e) with Some rest => starts_with [SLASH] rest | None => false end
  | None => true
  end.

Definition rj_recent (r : Rejections) (ns : option str) (limit : nat) : list Rejection :=
  take limit (filter (fun e => rj_wanted ns e = true) (reverse (rj_entries r))).

Definition rj_len (r : Rejections) : nat := length (rj_entries r).
Definition rj_clear (r : Rejections) : Rejections := mkRejections [] (rj_capacity r).

(** ** The ring *)
Lemma pop_while_drop c l : c <> 0 -> pop_while c l = drop (S (length l) - c) l.
Proof.
  intros Hc. induction l as [|x l IH]; [by rewrite drop_nil|]. cbn [pop_while].
  destruct (c <=? length (x :: l)) eqn:E; [apply Nat.leb_le in E|apply Nat.leb_gt in E]; simpl in E.
  - rewrite IH. replace (S (length (x :: l)) - c) with (S (S (length l) - c)) by (simpl; lia). done.
  - replace (S (length (x :: l)) - c) with 0 by (simpl; lia). done.
Qed.

(** What the record keeps of everything ever recorded: the last [n]. *)
Definition last_n {A} (n : nat) (l : list A) : list A := drop (length l - n) l.

Lemma last_n_snoc {A} n (l : list A) x :
  n <> 0 -> last_n n (l ++ [x]) = drop (S (length (last_n n l)) - n) (last_n n l) ++ [x].
Proof.
  intros Hn. unfold last_n. rewrite length_app, length_drop, drop_drop. simpl.
  rewrite drop_app_le by lia. f_equal. f_equal. lia.
Qed.

Record Refusal := mkRefusal { at_ : Z; in_ : str; what : str; why : str; by_ : Source }.
Definition rejection_of (e : Refusal) : Rejection := mkRejection (at_ e) (in_ e) (what e) (why e) (by_ e).
Definition record_all (r : Rejections) (es : list Refusal) : Rejections :=
  foldl (fun r e => rj_record r (at_ e) (in_ e) (what e) (why e) (by_ e)) r es.

Lemma record_all_snoc r es e :
  record_all r (es ++ [e]) = rj_record (record_all r es) (at_ e) (in_ e) (what e) (why e) (by_ e).
Proof. unfold record_all. by rewrite foldl_app. Qed.

Lemma record_all_entries c es :
  record_all (rj_new c) es = mkRejections (last_n c (rejection_of <$> es)) c.
Proof.
  induction es as [|e es IH] using rev_ind.
  - unfold last_n. simpl. done.
  - rewrite record_all_snoc, IH, fmap_app. unfold rj_record, rj_enabled. simpl.
    destruct (0 <? c) eqn:E; [apply Nat.ltb_lt in E|apply Nat.ltb_ge in E]; simpl; f_equal.
    + rewrite pop_while_drop by lia. rewrite last_n_snoc by lia. done.
    + assert (c = 0) by lia. subst. unfold last_n. rewrite !Nat.sub_0_r, !drop_all. done.
Qed.

(** The record of rejected values is exactly the last ones there was room
    for: whatever has been turned away since the start or the last clearing,
    the record never holds more than its capacity, holds everything while there
    is room, drops only the oldest, and lists the newest first: those in the
    namespace asked about or below it on whole segments, at most [limit]. *)
Theorem rejections_keep_newest c before es ns limit :
  let r := record_all (rj_clear (record_all (rj_new c) before)) es in
  rj_entries r = last_n c (rejection_of <$> es)
  /\ rj_len r = Nat.min c (length es)
  /\ rj_recent r ns limit
     = take limit (filter (fun e => rj_wanted ns e = true) (take c (reverse (rejection_of <$> es))))
  /\ (forall w e, rj_wanted (Some w) e = true
        <-> rj_namespace e = w \/ exists rest, rj_namespace e = w ++ [SLASH] ++ rest).
Proof.
  intros r. unfold r. rewrite (record_all_entries c before). unfold rj_clear. cbn [rj_capacity].
  change (mkRejections [] c) with (rj_new c). rewrite record_all_entries.
  assert (Hrev : reverse (last_n c (rejection_of <$> es)) = take c (reverse (rejection_of <$> es))).
  { unfold last_n. set (l := rejection_of <$> es).
    replace (reverse l) with (reverse (drop (length l - c) l) ++ reverse (take (length l - c) l))
      by (rewrite <- reverse_app, take_drop; done).
    rewrite take_app. rewrite take_ge by (rewrite length_reverse, length_drop; lia).
    assert (H : take (c - length (reverse (drop (length l - c) l))) (reverse (take (length l - c) l)) = []).
    { rewrite length_reverse, length_drop. destruct (decide (c <= length l)).
      - by replace (c - (length l - (length l - c))) with 0 by lia.
      - replace (length l - c) with 0 by lia. rewrite take_0. apply take_nil. }
    rewrite H. by rewrite app_nil_r. }
  split_and!.
  - done.
  - unfold rj_len. simpl. unfold last_n. rewrite length_drop, length_fmap. lia.
  - unfold rj_recent. cbn [rj_entries]. by rewrite Hrev.
  - intros w e. unfold rj_wanted. rewrite orb_true_iff, bool_decide_eq_true. f_equiv.
    destruct (strip_prefix w (rj_namespace e)) as [rest|] eqn:E.
    + apply strip_prefix_spec in E. rewrite starts_with_spec. split.
      * intros [q ->]. exists q. by rewrite E.
      * intros [q Hq]. exists q. rewrite E in Hq. by apply app_inv_head in Hq.
    + split; [done|]. intros [q Hq]. rewrite (proj2 (strip_prefix_spec w _ ([SLASH] ++ q)) Hq) in E. done.
Qed.
