(* ===== verification/Tier.v ===== *)
(** * Tiers: how long a shard stays in memory

    Models [src/src/tier.rs]: the three tiers, a shard's own settings, the
    policy that resolves them, reading the [[tiers]] table and rendering the
    file the management interface writes. *)

From stdpp Require Import base numbers list strings gmap sorting pretty.
From S2P Require Import Prelude Paths.

Inductive Tier := Hot | Warm | Cold.

#[export] Instance Tier_eq_dec : EqDecision Tier.
Proof. solve_decision. Defined.

Inductive TierError :=
  | UnknownTier (raw : str)
  | TierNotString
  | BadWarmIdle
  | UnknownKey (key : str)
  | SaysNothing
  | NotAnEntry.

(** [Tier::parse] *)
Definition tier_parse (raw : str) : Tier + TierError :=
  let t := to_ascii_lowercase (trim raw) in
  if bool_decide (t = lit "hot") then inl Hot
  else if bool_decide (t = lit "warm") then inl Warm
  else if bool_decide (t = lit "cold") then inl Cold
  else inr (UnknownTier t).

Definition as_str (t : Tier) : str :=
  match t with Hot => lit "hot" | Warm => lit "warm" | Cold => lit "cold" end.

Record Entry := mkTierEntry { tier : option Tier; warm_idle : option Z }.

#[export] Instance Entry_eq_dec : EqDecision Entry.
Proof. solve_decision. Defined.

Definition default_entry : Entry := mkTierEntry None None.

(** [Entry::is_empty] *)
Definition entry_is_empty (e : Entry) : bool :=
  bool_decide (tier e = None) && bool_decide (warm_idle e = None).

Record Resolved := mkResolved {
  r_tier : Tier;
  r_warm_idle : Z;
  own_tier : option Tier;
  own_warm_idle : option Z;
}.

(** A [Duration] of whole seconds is its number of seconds. *)
Definition resolved_allowance (r : Resolved) : option Z :=
  match r_tier r with Hot => None | Warm => Some (r_warm_idle r) | Cold => Some 0%Z end.

Record TierPolicy := mkTierPolicy {
  default_tier : Tier;
  entries : gmap str Entry;
  policy_warm_idle : Z;
}.

Definition default_policy : TierPolicy := mkTierPolicy Hot ∅ 3600.

(** [shard.trim().trim_matches('/')] *)
Definition shard_key (shard : str) : str := trim_slashes (trim shard).

Definition entry (p : TierPolicy) (shard : str) : Entry :=
  default default_entry (entries p !! shard_key shard).

Definition resolve (p : TierPolicy) (shard : str) : Resolved :=
  if bool_decide (shard = INTERNAL_SHARD) then mkResolved Hot (policy_warm_idle p) None None
  else
    let e := entry p shard in
    mkResolved (default (default_tier p) (tier e)) (default (policy_warm_idle p) (warm_idle e))
      (tier e) (warm_idle e).

Definition idle_allowance (p : TierPolicy) (shard : str) : option Z :=
  resolved_allowance (resolve p shard).

(** [TierPolicy::set] *)
Definition set_tier (p : TierPolicy) (shard : str) (e : Entry) : TierPolicy :=
  let k := shard_key shard in
  mkTierPolicy (default_tier p)
    (if entry_is_empty e then delete k (entries p) else <[k := e]> (entries p))
    (policy_warm_idle p).

(** ** The file on disk

    [toml::Value], as far as its cases are told apart here; a table is given in
    the order it is iterated in. *)
Inductive toml_value :=
  | TString (s : str)
  | TInteger (n : Z)
  | TFloat
  | TBoolean (b : bool)
  | TDatetime
  | TArray (l : list toml_value)
  | TTable (t : list (str * toml_value)).

(** The body of the loop over the table's fields. *)
Definition parse_field (e : Entry) (key : str) (field : toml_value) : Entry + TierError :=
  if bool_decide (key = lit "tier") then
    match field with
    | TString t =>
        match tier_parse t with
        | inl t' => inl (mkTierEntry (Some t') (warm_idle e))
        | inr err => inr err
        end
    | _ => inr TierNotString
    end
  else if bool_decide (key = lit "warm_idle") then
    match field with
    | TInteger n => if bool_decide (0 <= n)%Z then inl (mkTierEntry (tier e) (Some n)) else inr BadWarmIdle
    | _ => inr BadWarmIdle
    end
  else inr (UnknownKey key).

Fixpoint parse_fields (e : Entry) (table : list (str * toml_value)) : Entry + TierError :=
  match table with
  | [] => inl e
  | (key, field) :: rest =>
      match parse_field e key field with
      | inl e' => parse_fields e' rest
      | inr err => inr err
      end
  end.

Definition parse_entry (v : toml_value) : Entry + TierError :=
  match v with
  | TString t =>
      match tier_parse t with
      | inl t' => inl (mkTierEntry (Some t') None)
      | inr err => inr err
      end
  | TTable table =>
      match parse_fields default_entry table with
      | inl e => if entry_is_empty e then inr SaysNothing else inl e
      | inr err => inr err
      end
  | _ => inr NotAnEntry
  end.

Record TierFile := mkTierFile {
  file_default_tier : str;
  file_warm_idle : Z;
  file_tiers : list (str * toml_value);
}.

(** The loop of [TierPolicy::load] over [file.tiers], in the order it is
    iterated in. *)
Fixpoint load_entries (acc : gmap str Entry) (l : list (str * toml_value)) :
    gmap str Entry + TierError :=
  match l with
  | [] => inl acc
  | (namespace, v) :: rest =>
      match parse_entry v with
      | inl e => load_entries (<[namespace := e]> acc) rest
      | inr err => inr err
      end
  end.

(** [TierPolicy::load], from the parsed file. *)
Definition load_policy (f : TierFile) : TierPolicy + TierError :=
  match load_entries ∅ (file_tiers f) with
  | inr err => inr err
  | inl es =>
      match tier_parse (file_default_tier f) with
      | inl t => inl (mkTierPolicy t es (file_warm_idle f))
      | inr err => inr err
      end
  end.

(** ** Rendering the file *)
Definition QUOTE : N := 34.
Definition NEWLINE : N := 10.
Definition quoted (s : str) : str := QUOTE :: s ++ [QUOTE].
(** [format!("{n}")] for an unsigned number *)
Definition decimal (n : Z) : str := lit (pretty (Z.to_N n)).

Definition file_header : str :=
  mjoin ((fun l => lit l ++ [NEWLINE]) <$>
    ["# Written by the SightingDB management interface. Comments added here";
     "# are replaced the next time a tier is changed.";
     "#";
     "# hot   never evicted";
     "# warm  dropped once untouched for warm_idle seconds";
     "# cold  dropped at the next sweep once idle";
     "#";
     "# Keyed by the top-level namespace, which is the unit that is paged in"]%string)
  ++ lit "# and out: " ++ quoted (lit "feeds") ++ lit " covers " ++ quoted (lit "feeds/misp/ips")
  ++ lit " and everything beside it." ++ [NEWLINE]
  ++ lit "# An entry may set the tier, the idle window, or both." ++ [NEWLINE; NEWLINE].

Definition entry_text (e : Entry) : option str :=
  match tier e, warm_idle e with
  | Some t, None => Some (quoted (as_str t))
  | Some t, Some idle =>
      Some (lit "{ tier = " ++ quoted (as_str t) ++ lit ", warm_idle = " ++ decimal idle ++ lit " }")
  | None, Some idle => Some (lit "{ warm_idle = " ++ decimal idle ++ lit " }")
  | None, None => None
  end.

Definition entry_line (p : str * Entry) : str :=
  match entry_text p.2 with
  | Some v => quoted p.1 ++ lit " = " ++ v ++ [NEWLINE]
  | None => []
  end.

(** The body [TierPolicy::save] writes. *)
Definition save_body (p : TierPolicy) : str :=
  file_header
  ++ lit "default_tier = " ++ quoted (as_str (default_tier p)) ++ [NEWLINE]
  ++ lit "warm_idle = " ++ decimal (policy_warm_idle p) ++ [NEWLINE; NEWLINE]
  ++ lit "[tiers]" ++ [NEWLINE]
  ++ mjoin (entry_line <$> btree_iter (entries p)).

(** ** Properties *)
Lemma entry_set_tier p shard e s :
  entry (set_tier p shard e) s =
    if bool_decide (shard_key s = shard_key shard) then e else entry p s.
Proof.
  unfold entry, set_tier. simpl. destruct (entry_is_empty e) eqn:E; case_bool_decide as Hs.
  - rewrite Hs, lookup_delete_eq. simpl. destruct e as [[]  []]; done.
  - by rewrite lookup_delete_ne.
  - by rewrite Hs, lookup_insert_eq.
  - by rewrite lookup_insert_ne.
Qed.

Definition set_all (p : TierPolicy) (changes : list (str * Entry)) : TierPolicy :=
  foldl (fun p c => set_tier p c.1 c.2) p changes.

(** Whatever the configuration says and whatever changes the management
    interface makes, in any order, the internal shard resolves to hot and has
    no idle allowance, so it is never a candidate for eviction. *)
Theorem internal_never_evictable p changes :
  r_tier (resolve (set_all p changes) INTERNAL_SHARD) = Hot
  /\ idle_allowance (set_all p changes) INTERNAL_SHARD = None.
Proof. unfold idle_allowance, resolve. by rewrite bool_decide_eq_true_2. Qed.

(** Changing one shard's settings takes effect for exactly that shard: its
    resolved tier and idle window are the new ones where the entry names them
    and the configured defaults where it does not (an empty entry removes the
    setting), every other shard resolves as before, and a hot, warm or cold
    tier allows idling forever, for the resolved window or not at all. *)
Theorem set_tier_exact p shard e s :
  s <> INTERNAL_SHARD ->
  resolve (set_tier p shard e) s =
    (if bool_decide (shard_key s = shard_key shard)
     then mkResolved (default (default_tier p) (tier e)) (default (policy_warm_idle p) (warm_idle e))
            (tier e) (warm_idle e)
     else resolve p s)
  /\ idle_allowance (set_tier p shard e) s =
       match r_tier (resolve (set_tier p shard e) s) with
       | Hot => None
       | Warm => Some (r_warm_idle (resolve (set_tier p shard e) s))
       | Cold => Some 0%Z
       end.
Proof.
  intros Hs. split; [|done]. unfold resolve. rewrite !(bool_decide_eq_false_2 (s = _)) by done.
  rewrite entry_set_tier. by case_bool_decide.
Qed.

Lemma set_tier_exact_witness :
  resolve (set_tier default_policy (lit "feeds/") (mkTierEntry (Some Cold) None)) (lit "feeds")
  = mkResolved Cold 3600 (Some Cold) None.
Proof.
  rewrite (proj1 (set_tier_exact default_policy (lit "feeds/") (mkTierEntry (Some Cold) None)
    (lit "feeds") ltac:(vm_compute; discriminate))).
  vm_compute. reflexivity.
Defined.

Lemma tier_parse_as_str t : tier_parse (as_str t) = inl t.
Proof. by destruct t. Qed.

(** The values the three spellings of the file denote. *)
Definition entry_toml (e : Entry) : toml_value :=
  match tier e, warm_idle e with
  | Some t, None => TString (as_str t)
  | Some t, Some idle => TTable [(lit "tier", TString (as_str t)); (lit "warm_idle", TInteger idle)]
  | None, Some idle => TTable [(lit "warm_idle", TInteger idle)]
  | None, None => TTable []
  end.

(** Every spelling of a tier entry reads back as the entry it was written
    from, an entry that says nothing is refused, and whatever is accepted says
    something and names no negative idle window. *)
Theorem parse_entry_exact e v e' :
  (forall i, warm_idle e = Some i -> (0 <= i)%Z) -> parse_entry v = inl e' ->
  parse_entry (entry_toml e) = (if entry_is_empty e then inr SaysNothing else inl e)
  /\ entry_is_empty e' = false
  /\ (forall i, warm_idle e' = Some i -> (0 <= i)%Z).
Proof.
  intros Hi Hv. split; [|].
  - destruct e as [[t|] [i|]]; unfold entry_toml; cbn [tier warm_idle parse_entry]; try done.
    + cbn [parse_fields]. unfold parse_field at 1. simpl bool_decide. cbn iota.
      rewrite tier_parse_as_str. unfold parse_field. simpl bool_decide. cbn iota.
      rewrite bool_decide_eq_true_2 by (by apply Hi). done.
    + by rewrite tier_parse_as_str.
    + cbn [parse_fields]. unfold parse_field. simpl bool_decide. cbn iota.
      rewrite bool_decide_eq_true_2 by (by apply Hi). done.
  - destruct v as [t| | | | | |table]; simpl in Hv; try done.
    + destruct (tier_parse t) as [t'|]; [|done]. by simplify_eq.
    + assert (Hl : forall l a b, (forall i, warm_idle a = Some i -> (0 <= i)%Z) ->
        parse_fields a l = inl b -> forall i, warm_idle b = Some i -> (0 <= i)%Z).
      { induction l as [|[k f] l IH]; intros a b Ha Hp; simpl in Hp; [by simplify_eq|].
        destruct (parse_field a k f) as [a'|] eqn:Ef; [|done]. eapply IH; [|exact Hp].
        unfold parse_field in Ef. repeat case_match; simplify_eq; try done; simpl.
        intros i ?. simplify_eq. by apply bool_decide_eq_true in H2. }
      destruct (parse_fields default_entry table) as [b|] eqn:Ep; [|done].
      destruct (entry_is_empty b) eqn:Eb; simplify_eq. split; [done|]. by eapply Hl, Ep.
Qed.

Lemma parse_entry_exact_witness :
  parse_entry (entry_toml (mkTierEntry (Some Warm) (Some 300%Z)))
  = inl (mkTierEntry (Some Warm) (Some 300%Z)).
Proof.
  eapply (parse_entry_exact (mkTierEntry (Some Warm) (Some 300%Z)) (TString (lit " HOT "))).
  - cbn. intros i [= <-]. lia.
  - vm_compute. reflexivity.
Defined.

(** Two policies: one shard whose name holds a quote and a line break, and two
    shards. *)
Definition quoting_shard : str :=
  lit "a" ++ [QUOTE] ++ lit " = " ++ quoted (lit "cold") ++ [NEWLINE] ++ [QUOTE] ++ lit "b".
Definition one_shard : TierPolicy :=
  set_tier default_policy quoting_shard (mkTierEntry (Some Hot) None).
Definition two_shards : TierPolicy :=
  set_tier (set_tier default_policy (lit "a") (mkTierEntry (Some Cold) None)) (lit "b")
    (mkTierEntry (Some Hot) None).

(** A shard's name goes into the file without escaping, so the file does
    not determine the policy it was written from: one shard with a quote in
    its name and two plain shards, with different tiers, are written as the
    same text. *)
Lemma tier_file_ambiguous :
  save_body one_shard = save_body two_shards
  /\ resolve one_shard (lit "a") <> resolve two_shards (lit "a").
Proof. split; [vm_compute; reflexivity|vm_compute; discriminate]. Qed.
