(* ===== verification/Activity.v ===== *)
(** * How busy each top-level namespace has been

    Models [src/src/activity.rs]: reads and writes counted per first path
    segment in hourly and daily buckets, the report over a window, and the
    snapshot taken for a save and merged back after a restart.  Instants are
    seconds since the epoch, within the range where [i64] does not wrap. *)

From stdpp Require Import base numbers list strings gmap sorting.
From S2P Require Import Prelude Paths.

Definition HOUR : Z := 3600.
Definition DAY : Z := 86400.
Definition HOURLY_BUCKETS : Z := 31 * 24.
Definition DAILY_BUCKETS : Z := 400.

Record Counts := mkCounts { reads : Z; writes : Z }.

#[export] Instance Counts_eq_dec : EqDecision Counts.
Proof. solve_decision. Defined.

Definition no_counts : Counts := mkCounts 0 0.

(** [Counts::add] *)
Definition add_counts (a b : Counts) : Counts :=
  mkCounts (u64_add (reads a) (reads b)) (u64_add (writes a) (writes b)).

Record Series := mkSeries { hourly : gmap Z Counts; daily : gmap Z Counts }.

Definition empty_series : Series := mkSeries ∅ ∅.

Definition bucket_start (now step : Z) : Z := now / step * step.

(** [buckets.split_off(&oldest)] keeps the keys from [oldest] on. *)
Definition bump (buckets : gmap Z Counts) (now step keep : Z) (c : Counts) : gmap Z Counts :=
  let start := bucket_start now step in
  match buckets !! start with
  | Some b => <[start := add_counts b c]> buckets
  | None =>
      let oldest := (start - (keep - 1) * step)%Z in
      filter (fun p => (oldest <= p.1)%Z) (<[start := c]> buckets)
  end.

(** [Series::record] *)
Definition series_record (s : Series) (now : Z) (c : Counts) : Series :=
  mkSeries (bump (hourly s) now HOUR HOURLY_BUCKETS c) (bump (daily s) now DAY DAILY_BUCKETS c).

Definition series_is_empty (s : Series) : bool :=
  bool_decide (hourly s = ∅) && bool_decide (daily s = ∅).

Record Activity := mkActivity {
  enabled : bool;
  roots : gmap str Series;
  dirty : bool;
}.

Definition default_activity : Activity := mkActivity true ∅ false.

Definition set_enabled (a : Activity) (e : bool) : Activity := mkActivity e (roots a) (dirty a).

Definition record_at (a : Activity) (namespace : str) (now : Z) (c : Counts) : Activity :=
  match root_of namespace with
  | None => a
  | Some root =>
      mkActivity (enabled a)
        (<[root := series_record (default empty_series (roots a !! root)) now c]> (roots a)) true
  end.

(** [Activity::record] *)
Definition record (a : Activity) (namespace : str) (now : Z) (c : Counts) : Activity :=
  if enabled a then record_at a namespace now c else a.

Definition record_read (a : Activity) (namespace : str) (now : Z) : Activity :=
  record a namespace now (mkCounts 1 0).
Definition record_write (a : Activity) (namespace : str) (now : Z) : Activity :=
  record a namespace now (mkCounts 0 1).

(** ** The report *)
Inductive Granularity := Hour | Day.

Definition step (g : Granularity) : Z := match g with Hour => HOUR | Day => DAY end.
Definition retained (g : Granularity) : Z := match g with Hour => HOURLY_BUCKETS | Day => DAILY_BUCKETS end.
Definition held (g : Granularity) (s : Series) : gmap Z Counts :=
  match g with Hour => hourly s | Day => daily s end.

Record RootReport := mkRootReport {
  name : str;
  r_reads : list Z;
  r_writes : list Z;
  total : Counts;
  previous : Counts;
}.

Record Report := mkReport {
  rp_enabled : bool;
  granularity : Granularity;
  rp_step : Z;
  rp_start : Z;
  rp_buckets : Z;
  oldest : option Z;
  rp_now : Z;
  rp_roots : list RootReport;
}.

(** [buckets.clamp(1, retained)] *)
Definition clamp_buckets (g : Granularity) (buckets : Z) : Z := Z.max 1 (Z.min (retained g) buckets).

(** The entries of [held.range(lo..hi)], oldest first. *)
Definition range (m : gmap Z Counts) (lo hi : Z) : list (Z * Counts) :=
  filter (fun p => lo <= p.1 < hi)%Z (btree_iter m).

(** One turn of the loop that fills the two vectors. *)
Definition fill (start step : Z) (st : list Z * list Z * Counts) (p : Z * Counts) :
    list Z * list Z * Counts :=
  let i := Z.to_nat ((p.1 - start) / step) in
  (<[i := reads p.2]> st.1.1, <[i := writes p.2]> st.1.2, add_counts st.2 p.2).

Definition root_report (m : gmap Z Counts) (stp start last previous_start n : Z) (nm : str) : RootReport :=
  let zeros := replicate (Z.to_nat n) 0%Z in
  let r := foldl (fill start stp) (zeros, zeros, no_counts) (range m start (last + 1)) in
  mkRootReport nm r.1.1 r.1.2 r.2
    (foldl (fun acc p => add_counts acc p.2) no_counts (range m previous_start start)).

Definition busy (r : RootReport) : Z := u64_add (reads (total r)) (writes (total r)).

(** Busiest first, then by name. *)
Definition report_le (a b : RootReport) : Prop :=
  (busy b < busy a)%Z \/ (busy a = busy b /\ str_le (name a) (name b)).
#[export] Instance report_le_dec : RelDecision report_le.
Proof. intros a b. unfold report_le. apply _. Defined.

Definition min_opt (o : option Z) (z : Z) : option Z :=
  Some (match o with Some o' => Z.min o' z | None => z end).

Section Reporting.
Context `{HashOrder}.

Definition report (a : Activity) (g : Granularity) (end_ buckets : Z) (visible : str -> bool) (now : Z) :
    Report :=
  let stp := step g in
  let n := clamp_buckets g buckets in
  let last := bucket_start end_ stp in
  let start := (last - (n - 1) * stp)%Z in
  let previous_start := (start - n * stp)%Z in
  let seen := filter (fun p => visible p.1 = true) (hash_iter (roots a)) in
  let firsts := omap (fun p => head (btree_keys (held g p.2))) seen in
  mkReport (enabled a) g stp start n (foldl min_opt None firsts) (bucket_start now stp)
    (merge_sort report_le
       ((fun p => root_report (held g p.2) stp start last previous_start n p.1) <$> seen)).
End Reporting.

(** ** Saving and restoring *)
Definition take_snapshot (a : Activity) (force : bool) : Activity * option (gmap str Series) :=
  if negb (dirty a) && negb force then (a, None)
  else
    let kept := filter (fun p => series_is_empty p.2 = false) (roots a) in
    (mkActivity (enabled a) kept false, Some kept).

Definition mark_dirty (a : Activity) : Activity := mkActivity (enabled a) (roots a) true.

(** [*m.entry(at).or_default() += c] *)
Definition add_bucket (m : gmap Z Counts) (p : Z * Counts) : gmap Z Counts :=
  <[p.1 := add_counts (default no_counts (m !! p.1)) p.2]> m.

Definition restore_series (s saved : Series) : Series :=
  mkSeries (foldl add_bucket (hourly s) (btree_iter (hourly saved)))
           (foldl add_bucket (daily s) (btree_iter (daily saved))).

Definition restore_root (rs : gmap str Series) (p : str * Series) : gmap str Series :=
  <[p.1 := restore_series (default empty_series (rs !! p.1)) p.2]> rs.

Section Restoring.
Context `{HashOrder}.

Definition restore (a : Activity) (data : gmap str Series) : Activity :=
  mkActivity (enabled a) (foldl restore_root (roots a) (hash_iter data)) (dirty a).
End Restoring.

(** ** Buckets hold what happened in them *)
Definition counts_u64 (c : Counts) : Prop := is_u64 (reads c) /\ is_u64 (writes c).

Lemma bucket_start_mono a b s : (0 < s)%Z -> (a <= b)%Z -> (bucket_start a s <= bucket_start b s)%Z.
Proof. intros Hs Hab. unfold bucket_start. pose proof (Z.div_le_mono a b s Hs Hab). nia. Qed.

Definition Event : Type := Z * Counts.

(** The events of one bucket, and what they add up to. *)
Definition events_in (s b : Z) (es : list Event) : list Event :=
  filter (fun e => bucket_start e.1 s = b) es.
Definition sum_events (es : list Event) : option Counts :=
  match es with [] => None | e :: r => Some (foldl add_counts e.2 r.*2) end.

Lemma sum_events_snoc es e :
  sum_events (es ++ [e]) =
    Some (match sum_events es with Some c => add_counts c e.2 | None => e.2 end).
Proof. destruct es as [|e0 r]; [done|]. simpl. by rewrite fmap_app, foldl_app. Qed.

Definition newest (s : Z) (es : list Event) : Z :=
  match last es with Some e => bucket_start e.1 s | None => 0%Z end.

Definition bump_all (s keep : Z) (es : list Event) : gmap Z Counts :=
  foldl (fun m e => bump m e.1 s keep e.2) ∅ es.

(** In order of time. *)
Definition in_order (es : list Event) : Prop := StronglySorted (fun a b => a.1 <= b.1)%Z es.

Lemma in_order_snoc es e : in_order (es ++ [e]) -> in_order es /\ forall x, x ∈ es -> (x.1 <= e.1)%Z.
Proof.
  unfold in_order. induction es as [|a es IH]; intros Hs; [split; [constructor|]; intros x Hx; by apply elem_of_nil in Hx|].
  apply StronglySorted_inv in Hs as [Hs Ha]. rewrite Forall_forall in Ha. destruct (IH Hs) as [H1 H2].
  split.
  - constructor; [done|]. rewrite Forall_forall. intros x Hx. apply Ha. set_solver.
  - intros x [->|Hx]%elem_of_cons; [apply Ha; set_solver|auto].
Qed.

Lemma events_in_snoc s b es e :
  events_in s b (es ++ [e]) = events_in s b es ++ (if decide (bucket_start e.1 s = b) then [e] else []).
Proof. unfold events_in. rewrite filter_app, filter_cons, filter_nil. by case_decide. Qed.

Lemma newest_snoc s es e : newest s (es ++ [e]) = bucket_start e.1 s.
Proof. unfold newest. by rewrite last_snoc. Qed.

Lemma bump_all_lookup s keep es b :
  (0 < s)%Z -> (1 <= keep)%Z -> in_order es ->
  bump_all s keep es !! b =
    if decide (newest s es - (keep - 1) * s <= b)%Z then sum_events (events_in s b es) else None.
Proof.
  intros Hs Hk. revert b. induction es as [|e es IH] using rev_ind; intros b Ho.
  { simpl. by case_decide. }
  destruct (in_order_snoc es e Ho) as [Ho' Hle]. specialize (fun b => IH b Ho').
  unfold bump_all at 1. rewrite foldl_app. cbn [foldl]. fold (bump_all s keep es).
  set (m := bump_all s keep es) in *.
  rewrite newest_snoc. set (st := bucket_start e.1 s).
  assert (Hlt : forall x, x ∈ es -> (bucket_start x.1 s <= st)%Z).
  { intros x Hx. by apply bucket_start_mono, Hle. }
  assert (Hnew : es <> [] -> (newest s es <= st)%Z).
  { intros Hne. unfold newest. destruct (last es) as [x|] eqn:El; [|by apply last_None in El].
    apply Hlt. by apply last_Some_elem_of. }
  rewrite events_in_snoc. fold st. unfold bump. fold st.
  destruct (m !! st) as [c|] eqn:Em.
  - (* the bucket exists, so it is the newest one *)
    rewrite IH in Em. case_decide as Hc; [|done].
    assert (Hn : newest s es = st).
    { destruct (events_in s st es) as [|x r] eqn:Ee; [done|].
      assert (Hx : x ∈ events_in s st es) by (rewrite Ee; left).
      apply list_elem_of_filter in Hx as [Hx Hin].
      apply Z.le_antisymm; [apply Hnew; by intros ->|]. rewrite <- Hx.
      apply list_elem_of_split in Hin as (l1 & l2 & ->).
      clear -Ho' Hs. unfold newest, in_order in *. rewrite last_app_cons.
      destruct (last (x :: l2)) as [y|] eqn:El; [|by apply last_None in El].
      apply bucket_start_mono; [done|]. apply StronglySorted_app in Ho' as (_ & _ & Ho').
      apply StronglySorted_inv in Ho' as [_ Ha]. rewrite Forall_forall in Ha.
      apply last_Some_elem_of, elem_of_cons in El as [->|Hy]; [lia|auto]. }
    rewrite lookup_insert. destruct (decide (st = b)) as [<-|Hne].
    + rewrite decide_True by nia. rewrite sum_events_snoc, Em. done.
    + rewrite app_nil_r, IH, Hn. done.
  - rewrite map_lookup_filter, lookup_insert.
    assert (Hno : events_in s st es = []).
    { rewrite IH in Em. case_decide as Hc.
      - destruct (events_in s st es) eqn:Ee; done.
      - destruct es as [|x es]; [done|]. pose proof (Hnew ltac:(done)). nia. }
    destruct (decide (st = b)) as [<-|Hne].
    + rewrite Hno. simpl. rewrite option_guard_True by (simpl; nia). rewrite decide_True by nia. done.
    + rewrite app_nil_r. destruct (decide (st - (keep - 1) * s <= b)%Z) as [Hb|Hb].
      * rewrite IH. destruct es as [|x es]; [by repeat case_decide|].
        pose proof (Hnew ltac:(done)). rewrite decide_True by nia.
        destruct (sum_events _); simpl; [|done]. by rewrite option_guard_True.
      * destruct (m !! b) eqn:Eb; simpl; [|done]. by rewrite option_guard_False.
Qed.

(** Keys at bucket starts inside a window of [keep] buckets. *)
Lemma window_size (m : gmap Z Counts) s keep top :
  (0 < s)%Z -> (0 <= keep)%Z ->
  (forall k, is_Some (m !! k) -> exists i, (0 <= i < keep)%Z /\ k = (top - i * s)%Z) ->
  (Z.of_nat (size m) <= keep)%Z.
Proof.
  intros Hs Hk Hm.
  assert (Hsub : btree_keys m ⊆ (fun i => (top - Z.of_nat i * s)%Z) <$> seq 0 (Z.to_nat keep)).
  { intros k Hin%elem_of_btree_keys. destruct (Hm k Hin) as (i & Hi & ->).
    apply list_elem_of_fmap. exists (Z.to_nat i). rewrite elem_of_seq. split; [f_equal|]; lia. }
  pose proof (NoDup_incl_length (l := btree_keys m)
    (l' := (fun i => (top - Z.of_nat i * s)%Z) <$> seq 0 (Z.to_nat keep))) as Hlen.
  rewrite length_fmap, length_seq, btree_keys_length in Hlen.
  assert (size m <= Z.to_nat keep); [|lia]. apply Hlen.
  - apply NoDup_ListNoDup, btree_keys_NoDup.
  - intros k Hin. apply list_elem_of_In, Hsub. by apply list_elem_of_In.
Qed.

Lemma bump_all_size s keep es :
  (0 < s)%Z -> (1 <= keep)%Z -> in_order es -> (Z.of_nat (size (bump_all s keep es)) <= keep)%Z.
Proof.
  intros Hs Hk Ho. apply (window_size _ s keep (newest s es)); [done|lia|].
  intros k [c Hc]. rewrite bump_all_lookup in Hc by done. case_decide as Hle; [|done].
  destruct (events_in s k es) as [|e r] eqn:Ee; [done|].
  assert (He : e ∈ events_in s k es) by (rewrite Ee; left).
  apply list_elem_of_filter in He as [Hek Hin].
  assert (Hn : exists x, x ∈ es /\ newest s es = bucket_start x.1 s /\ (e.1 <= x.1)%Z).
  { unfold newest. apply list_elem_of_split in Hin as (l1 & l2 & ->). rewrite last_app_cons.
    destruct (last (e :: l2)) as [y|] eqn:El; [|by apply last_None in El]. exists y.
    apply last_Some_elem_of in El. unfold in_order in Ho. apply StronglySorted_app in Ho as (_ & _ & Ho).
    apply StronglySorted_inv in Ho as [_ Ha]. rewrite Forall_forall in Ha.
    split_and!; [apply elem_of_app; by right|done|]. apply elem_of_cons in El as [->|Hy]; [lia|auto]. }
  destruct Hn as (x & _ & Hn & Hex). pose proof (Z.div_le_mono e.1 x.1 s Hs Hex).
  rewrite Hn in *. unfold bucket_start in *. exists (x.1 / s - e.1 / s)%Z. split; [|nia].
  split; [lia|]. nia.
Qed.

Lemma series_bumps es s0 :
  let s := foldl (fun s e => series_record s e.1 e.2) s0 es in
  hourly s = foldl (fun m e => bump m e.1 HOUR HOURLY_BUCKETS e.2) (hourly s0) es
  /\ daily s = foldl (fun m e => bump m e.1 DAY DAILY_BUCKETS e.2) (daily s0) es.
Proof. revert s0. induction es as [|e es IH]; intros s0; [done|]. apply (IH (series_record s0 e.1 e.2)). Qed.

(** Counting is exact and bounded: after any events in order of time, a
    namespace's hourly and daily buckets hold exactly the sum of the events of
    each bucket inside the retention window ending at the newest event, nothing
    older, and never more than a month of hours and 400 days. *)
Theorem activity_exact es b :
  in_order es ->
  let s := foldl (fun s e => series_record s e.1 e.2) empty_series es in
  hourly s !! b =
    (if decide (newest HOUR es - 743 * HOUR <= b)%Z then sum_events (events_in HOUR b es) else None)
  /\ daily s !! b =
    (if decide (newest DAY es - 399 * DAY <= b)%Z then sum_events (events_in DAY b es) else None)
  /\ size (hourly s) <= 744 /\ size (daily s) <= 400.
Proof.
  intros Ho s.
  assert (Hs : hourly s = bump_all HOUR HOURLY_BUCKETS es /\ daily s = bump_all DAY DAILY_BUCKETS es).
  { exact (series_bumps es empty_series). }
  destruct Hs as [Hh Hd]. rewrite Hh, Hd, !bump_all_lookup by (done || lia).
  pose proof (bump_all_size HOUR HOURLY_BUCKETS es ltac:(done) ltac:(done) Ho).
  pose proof (bump_all_size DAY DAILY_BUCKETS es ltac:(done) ltac:(done) Ho).
  split_and!; [done|done|unfold HOURLY_BUCKETS in *; lia|unfold DAILY_BUCKETS in *; lia].
Qed.

Definition demo_events : list Event :=
  [(10, mkCounts 1 0); (20, mkCounts 0 1); (4000, mkCounts 1 0); (5000000, mkCounts 1 0)]%Z.

Lemma demo_in_order : in_order demo_events.
Proof. unfold in_order, demo_events. repeat (constructor; simpl; try lia). Qed.

Lemma activity_exact_witness :
  let s := foldl (fun s e => series_record s e.1 e.2) empty_series demo_events in
  hourly s !! 0%Z = None /\ daily s !! 0%Z = Some (mkCounts 2 1).
Proof.
  destruct (activity_exact demo_events 0 demo_in_order) as (Hh & Hd & _).
  split; [rewrite Hh|rewrite Hd]; vm_compute; reflexivity.
Defined.

(** ** The report over a window *)
Definition zsum (l : list Z) : Z := foldr Z.add 0%Z l.

Lemma zsum_insert l i x y : l !! i = Some y -> zsum (<[i := x]> l) = (zsum l - y + x)%Z.
Proof.
  revert i. induction l as [|z l IH]; intros [|i] Hi; simplify_eq/=; [lia|]. rewrite (IH i Hi). lia.
Qed.

Lemma zsum_zeros n : zsum (replicate n 0%Z) = 0%Z.
Proof. induction n; simpl; lia. Qed.

Section Filling.
Context (s start n : Z).
Hypothesis Hs : (0 < s)%Z.
Hypothesis Hn : (0 <= n)%Z.

(** A bucket of the window: its slot is inside the vectors. *)
Definition slot_ok (p : Z * Counts) : Prop := exists i, (0 <= i < n)%Z /\ p.1 = (start + i * s)%Z.

Lemma slot_index i : Z.to_nat ((start + i * s - start) / s) = Z.to_nat i.
Proof. f_equal. replace (start + i * s - start)%Z with (i * s)%Z by lia. apply Z.div_mul. lia. Qed.

Definition slot_of (l : list (Z * Counts)) (i : nat) : Counts :=
  default no_counts (list_to_map (M := gmap Z Counts) l !! (start + Z.of_nat i * s)%Z).

Lemma fill_spec l :
  NoDup l.*1 -> Forall slot_ok l ->
  let zeros := replicate (Z.to_nat n) 0%Z in
  let r := foldl (fill start s) (zeros, zeros, no_counts) l in
  length r.1.1 = Z.to_nat n /\ length r.1.2 = Z.to_nat n
  /\ (forall i, i < Z.to_nat n -> r.1.1 !! i = Some (reads (slot_of l i))
                              /\ r.1.2 !! i = Some (writes (slot_of l i)))
  /\ reads r.2 = wrap64 (zsum r.1.1) /\ writes r.2 = wrap64 (zsum r.1.2).
Proof.
  intros Hd Hok zeros. induction l as [|p l IH] using rev_ind.
  { simpl. unfold zeros. rewrite !length_replicate, zsum_zeros. split_and!; try done.
    intros i Hi. rewrite !lookup_replicate_2 by done. unfold slot_of. simpl. by rewrite lookup_empty. }
  rewrite fmap_app in Hd. apply NoDup_app in Hd as (Hd & Hnew & _).
  apply Forall_app in Hok as [Hok Hp]. apply Forall_singleton in Hp as (j & Hj & Hpj).
  destruct p as [k c]. simpl in Hpj, Hnew. subst k.
  destruct (IH Hd Hok) as (L1 & L2 & Hl & Hr & Hw). clear IH. rewrite foldl_app. cbn [foldl].
  set (r := foldl (fill start s) (zeros, zeros, no_counts) l) in *.
  unfold fill. cbn [fst snd]. rewrite slot_index.
  assert (Hfresh : list_to_map (M := gmap Z Counts) l !! (start + j * s)%Z = None).
  { apply not_elem_of_list_to_map. intros Hin. apply (Hnew _ Hin). left. }
  assert (Hslot : forall i, slot_of (l ++ [((start + j * s)%Z, c)]) i
      = if decide (i = Z.to_nat j) then c else slot_of l i).
  { intros i. unfold slot_of. rewrite list_to_map_app, list_to_map_cons, list_to_map_nil.
    case_decide as Hi.
    - subst. rewrite Z2Nat.id by lia. rewrite lookup_union_r by done.
      by rewrite lookup_insert_eq.
    - by rewrite lookup_union_l by (rewrite lookup_insert_ne; [apply lookup_empty|nia]). }
  assert (Hold : reads (slot_of l (Z.to_nat j)) = 0%Z /\ writes (slot_of l (Z.to_nat j)) = 0%Z).
  { unfold slot_of. rewrite Z2Nat.id by lia. by rewrite Hfresh. }
  destruct (Hl (Z.to_nat j) ltac:(lia)) as [Hjr Hjw]. rewrite (proj1 Hold) in Hjr. rewrite (proj2 Hold) in Hjw.
  rewrite !length_insert. split_and!; [done|done| | |].
  - intros i Hi. rewrite Hslot. destruct (Hl i Hi) as [Hi1 Hi2]. case_decide as Hij.
    + subst. rewrite !list_lookup_insert_eq by lia. done.
    + rewrite !list_lookup_insert_ne by done. done.
  - simpl. rewrite (zsum_insert _ _ _ _ Hjr), Hr. unfold u64_add, wrap64.
    rewrite Zplus_mod_idemp_l. f_equal. lia.
  - simpl. rewrite (zsum_insert _ _ _ _ Hjw), Hw. unfold u64_add, wrap64.
    rewrite Zplus_mod_idemp_l. f_equal. lia.
Qed.
End Filling.

Definition aligned (s : Z) (m : gmap Z Counts) : Prop :=
  forall k, is_Some (m !! k) -> exists q, k = (q * s)%Z.

(** The report over a window puts every bucket in its own slot, in order
    and inside the vectors, whose length is the clamped number of buckets: slot
    [i] holds what the bucket starting [i] steps into the window holds, zero
    where nothing happened, and the totals are the sums of the slots. *)
Theorem report_slots m g end_ buckets nm i :
  aligned (step g) m ->
  let s := step g in
  let n := clamp_buckets g buckets in
  let last := bucket_start end_ s in
  let start := (last - (n - 1) * s)%Z in
  let r := root_report m s start last (start - n * s) n nm in
  (1 <= n <= retained g)%Z
  /\ length (r_reads r) = Z.to_nat n /\ length (r_writes r) = Z.to_nat n
  /\ (i < Z.to_nat n ->
      r_reads r !! i = Some (reads (default no_counts (m !! (start + Z.of_nat i * s)%Z)))
      /\ r_writes r !! i = Some (writes (default no_counts (m !! (start + Z.of_nat i * s)%Z))))
  /\ reads (total r) = wrap64 (zsum (r_reads r)) /\ writes (total r) = wrap64 (zsum (r_writes r)).
Proof.
  intros Ha s n last start r.
  assert (Hs : (0 < s)%Z) by (unfold s; by destruct g).
  assert (Hn : (1 <= n <= retained g)%Z) by (unfold n, clamp_buckets; destruct g; vm_compute retained; lia).
  set (l := range m start (last + 1)).
  assert (Hd : NoDup l.*1).
  { eapply sublist_NoDup; [apply (btree_keys_NoDup m)|]. apply fmap_sublist, sublist_filter. }
  assert (Hok : Forall (slot_ok s start n) l).
  { apply Forall_forall. intros [k c] [Hk Hin]%list_elem_of_filter. apply elem_of_btree_iter in Hin.
    destruct (Ha k ltac:(eauto)) as [q Hq]. simpl in *. unfold slot_ok. simpl.
    unfold start, last, bucket_start in *. exists (q - (end_ / s - (n - 1)))%Z. fold s in Hq. nia. }
  destruct (fill_spec s start n Hs ltac:(lia) l Hd Hok) as (L1 & L2 & Hl & Hr & Hw).
  split_and!; [lia|lia|exact L1|exact L2| |exact Hr|exact Hw].
  intros Hi. destruct (Hl i Hi) as [H1 H2].
  assert (Hslot : slot_of s start l i = default no_counts (m !! (start + Z.of_nat i * s)%Z)).
  { unfold slot_of. f_equal. destruct (m !! (start + Z.of_nat i * s)%Z) as [c|] eqn:Em.
    - apply elem_of_list_to_map; [done|]. apply list_elem_of_filter. simpl.
      split; [|by apply elem_of_btree_iter]. unfold start. nia.
    - apply not_elem_of_list_to_map. intros ([k c] & Hk & [_ Hin]%list_elem_of_filter)%list_elem_of_fmap.
      apply elem_of_btree_iter in Hin. simpl in Hk. subst. congruence. }
  rewrite Hslot in H1, H2. split; [exact H1|exact H2].
Qed.

Lemma report_slots_witness :
  r_reads (root_report {[0%Z := mkCounts 2 1]} HOUR 0 3600 (-7200) 2 (lit "feeds")) !! 0 = Some 2%Z.
Proof.
  assert (Ha : aligned (step Hour) {[0%Z := mkCounts 2 1]}).
  { intros k [c Hc]. apply lookup_singleton_Some in Hc as [<- _]. by exists 0%Z. }
  destruct (report_slots {[0%Z := mkCounts 2 1]} Hour 5000 2 (lit "feeds") 0 Ha) as (_ & _ & _ & Hi & _).
  apply Hi. vm_compute. lia.
Defined.

(** ** Restarting *)
Lemma add_buckets_lookup l m k :
  NoDup l.*1 ->
  foldl add_bucket m l !! k =
    match list_to_map (M := gmap Z Counts) l !! k with
    | Some c => Some (add_counts (default no_counts (m !! k)) c)
    | None => m !! k
    end.
Proof.
  revert m. induction l as [|[x c] l IH]; intros m Hd; [done|].
  apply NoDup_cons in Hd as [Hx Hd]. cbn [foldl]. rewrite IH by done. unfold add_bucket. simpl.
  rewrite !lookup_insert. case_decide as Hk; [|done]. subst.
  by rewrite not_elem_of_list_to_map_1.
Qed.

Definition join_counts (a b : option Counts) : option Counts :=
  match b with Some c => Some (add_counts (default no_counts a) c) | None => a end.

Lemma restore_series_lookup s saved g k :
  held g (restore_series s saved) !! k = join_counts (held g s !! k) (held g saved !! k).
Proof.
  destruct g; simpl; rewrite add_buckets_lookup, btree_iter_to_map; try done; apply btree_iter_NoDup.
Qed.

Section RestoreFacts.
Context `{HashOrder}.

Definition series_of (a : Activity) (root : str) : Series := default empty_series (roots a !! root).

Lemma restore_roots_lookup l rs root :
  NoDup l.*1 ->
  foldl restore_root rs l !! root =
    match list_to_map (M := gmap str Series) l !! root with
    | Some saved => Some (restore_series (default empty_series (rs !! root)) saved)
    | None => rs !! root
    end.
Proof.
  revert rs. induction l as [|[x c] l IH]; intros rs Hd; [done|].
  apply NoDup_cons in Hd as [Hx Hd]. cbn [foldl]. rewrite IH by done. unfold restore_root. simpl.
  rewrite !lookup_insert. case_decide as Hk; [|done]. subst.
  by rewrite not_elem_of_list_to_map_1.
Qed.

Lemma hash_iter_to_map {V} (m : gmap str V) : list_to_map (hash_iter m) = m.
Proof.
  rewrite (list_to_map_proper (M := gmap str) _ (map_to_list m)); [apply list_to_map_to_list| |].
  - apply hash_keys_NoDup.
  - apply hash_iter_perm.
Qed.

Lemma restore_lookup a data root g k :
  held g (series_of (restore a data) root) !! k
  = join_counts (held g (series_of a root) !! k) (held g (default empty_series (data !! root)) !! k).
Proof.
  unfold series_of, restore. simpl. rewrite restore_roots_lookup by apply hash_keys_NoDup.
  rewrite hash_iter_to_map. destruct (data !! root) as [saved|]; simpl.
  - apply restore_series_lookup.
  - by destruct g; simpl; rewrite lookup_empty.
Qed.

(** A restart loses no count: restoring what a save took gives back every
    bucket of every namespace, and adds to, rather than replaces, what was
    counted between the start and the restore. *)
Theorem activity_restart a force a' data fresh root g k :
  take_snapshot a force = (a', Some data) ->
  (forall c, held g (series_of a root) !! k = Some c -> counts_u64 c) ->
  held g (series_of (restore default_activity data) root) !! k = held g (series_of a root) !! k
  /\ held g (series_of (restore fresh data) root) !! k
     = join_counts (held g (series_of fresh root) !! k) (held g (series_of a root) !! k)
  /\ dirty a' = false /\ (forall r, series_of a' r = series_of a r).
Proof.
  intros Ht Hu. unfold take_snapshot in Ht. case_match; [done|]. simplify_eq.
  set (kept := filter (fun p => series_is_empty p.2 = false) (roots a)).
  assert (Hk : forall r, default empty_series (kept !! r) = series_of a r).
  { intros r. unfold kept, series_of. rewrite map_lookup_filter.
    destruct (roots a !! r) as [s|] eqn:E; simpl; [|done].
    destruct (series_is_empty s) eqn:Es; simpl; [|done]. unfold series_is_empty in Es.
    apply andb_true_iff in Es as [E1%bool_decide_eq_true E2%bool_decide_eq_true].
    destruct s. simpl in *. by subst. }
  rewrite !restore_lookup, !Hk. split_and!; [|done|done|].
  - assert (He : held g (series_of default_activity root) !! k = None)
      by (unfold series_of; simpl; rewrite lookup_empty; by destruct g; simpl; rewrite lookup_empty).
    rewrite He. destruct (held g (series_of a root) !! k) as [c|] eqn:E; [|done].
    destruct (Hu c eq_refl) as [Hr Hw]. simpl. unfold add_counts, u64_add. simpl.
    rewrite !wrap64_id by done. by destruct c.
  - intros r. unfold series_of at 1. simpl. apply Hk.
Qed.
End RestoreFacts.

Definition demo_activity : Activity :=
  record_write (record_read default_activity (lit "feeds/misp") 10) (lit "feeds") 4000.

Lemma activity_restart_witness :
  let O := some_order in
  exists a' data, take_snapshot demo_activity false = (a', Some data)
    /\ held Hour (series_of (restore default_activity data) (lit "feeds")) !! 3600%Z = Some (mkCounts 0 1).
Proof.
  intros O. do 2 eexists. split; [reflexivity|].
  rewrite (proj1 (@activity_restart O demo_activity false _ _ default_activity (lit "feeds") Hour 3600
    eq_refl ltac:(intros c Hc; vm_compute in Hc; injection Hc as <-; done))).
  vm_compute. reflexivity.
Defined.
