(* ===== verification/Namespace.v ===== *)
(** * One namespace's values

    Models [Namespace] of [src/src/db.rs]: the map from value to attribute with
    the sticky flag that lets a sweep skip namespaces nothing can expire in.
    Every operation is atomic here; the race of two writers on the map's lock
    is in its own file.  [now] is the reading of the clock the caller passes
    in, or the one the operation takes. *)

From stdpp Require Import base numbers list strings gmap sorting.
From S2P Require Import Prelude Attribute AttributeFacts Convergence.

Record Namespace := mkNamespace { values : gmap str Attribute; has_ttl : bool }.

(** [Namespace::default] *)
Definition empty_namespace : Namespace := mkNamespace ∅ false.

(** A slice of a listing, with the total before paging. *)
Record Page (A : Type) := mkPage { items : list A; total : nat; offset : nat }.
Arguments mkPage {A}.
Arguments items {A}.
Arguments total {A}.
Arguments offset {A}.

(** [.skip(offset).take(limit)] *)
Definition page_of {A} (off limit : nat) (l : list A) : list A := take limit (drop off l).

Definition from_values (vs : gmap str Attribute) (node : str) : Namespace :=
  mkNamespace ((fun a => migrate a node) <$> vs)
    (bool_decide (map_Exists (fun _ a => 0 < ttl a)%Z vs)).

(** What both paths of [Namespace::record] do to the attribute. *)
Definition write_attr (a : Attribute) (node : str) (w : Z) (t : option Z) (retention : nat) (tgs : str) :
    Attribute :=
  let a1 := match t with Some t' => set_ttl a t' | None => a end in
  let a2 := if is_empty tgs then a1 else add_tags a1 tgs in
  increment a2 node w retention.

Definition positive_ttl (t : option Z) : bool :=
  match t with Some t' => bool_decide (0 < t')%Z | None => false end.

(** The fast path of [Namespace::record], under the map's read lock: taken when
    the value exists. *)
Definition record_fast (vs : gmap str Attribute) (node v : str) (w : Z) (t : option Z)
    (retention : nat) (tgs : str) : option (gmap str Attribute * (Z * bool * AttributeView)) :=
  match vs !! v with
  | None => None
  | Some a =>
      let a' := write_attr a node w t retention tgs in
      Some (<[v := a']> vs, (count a', false, view a' 0 false))
  end.

(** The slow path, under the write lock. *)
Definition record_slow (vs : gmap str Attribute) (node v : str) (w : Z) (t : option Z)
    (retention : nat) (tgs : str) : gmap str Attribute * (Z * bool * AttributeView) :=
  let is_new := bool_decide (vs !! v = None) in
  let a' := write_attr (default (new v) (vs !! v)) node w t retention tgs in
  (<[v := a']> vs, (count a', is_new, view a' 0 false)).

Definition record (ns : Namespace) (node v : str) (w : Z) (t : option Z) (retention : nat) (tgs : str) :
    Namespace * (Z * bool * AttributeView) :=
  let flag := has_ttl ns || positive_ttl t in
  let r := match record_fast (values ns) node v w t retention tgs with
           | Some r => r
           | None => record_slow (values ns) node v w t retention tgs
           end in
  (mkNamespace r.1 flag, r.2).

Definition set_count (ns : Namespace) (node v : str) (c : Z) (now : Z) : Namespace * bool :=
  if bool_decide (c = 0%Z) then
    (mkNamespace (delete v (values ns)) (has_ttl ns), bool_decide (is_Some (values ns !! v)))
  else
    let a := default (new v) (values ns !! v) in
    if bool_decide (count a = c) then (mkNamespace (<[v := a]> (values ns)) (has_ttl ns), false)
    else
      let a1 := set_counts a {[ node := c ]} in
      let a2 := if bool_decide (first_seen a1 = UNIX_EPOCH) then set_window a1 now now else a1 in
      (mkNamespace (<[v := a2]> (values ns)) (has_ttl ns), true).

Section MergeValue.
Context `{Chrono}.

(** [Namespace::merge] *)
Definition merge_value (ns : Namespace) (node v : str) (incoming : Merge) : Namespace * (Merged * bool) :=
  let flag := has_ttl ns || bool_decide (0 < m_ttl incoming)%Z in
  let is_new := bool_decide (values ns !! v = None) in
  let r := attr_merge (default (new v) (values ns !! v)) incoming node in
  (mkNamespace (<[v := r.1]> (values ns)) flag, (r.2, is_new)).
End MergeValue.

Definition live (ns : Namespace) (now : Z) (v : str) : bool :=
  match values ns !! v with Some a => negb (is_expired a now) | None => false end.

Definition merge_payload (ns : Namespace) (v : str) (now : Z) : option Merge :=
  match values ns !! v with
  | Some a => if is_expired a now then None else Some (as_merge a)
  | None => None
  end.

(** [Namespace::view] and [Namespace::count] *)
Definition view_value (ns : Namespace) (v : str) (consensus : Z) (with_stats : bool) (now : Z) :
    option AttributeView :=
  match values ns !! v with
  | Some a => if is_expired a now then None else Some (view a consensus with_stats)
  | None => None
  end.

Definition count_value (ns : Namespace) (v : str) (now : Z) : Z :=
  match values ns !! v with
  | Some a => if is_expired a now then 0%Z else count a
  | None => 0%Z
  end.

(** [Namespace::retag] *)
Definition retag (ns : Namespace) (v tgs : str) (now : Z) : Namespace * bool :=
  match values ns !! v with
  | None => (ns, false)
  | Some a =>
      if is_expired a now then (ns, false)
      else (mkNamespace (<[v := set_tags a tgs (timestamp_millis now)]> (values ns)) (has_ttl ns), true)
  end.

Definition release (ns : Namespace) (node v : str) : Namespace :=
  match values ns !! v with
  | None => ns
  | Some a =>
      let r := decrement a node in
      mkNamespace (if bool_decide (r.2 = 0%Z) then delete v (values ns) else <[v := r.1]> (values ns))
        (has_ttl ns)
  end.

Definition ns_is_empty (ns : Namespace) : bool := bool_decide (values ns = ∅).
Definition len (ns : Namespace) : nat := size (values ns).

Section Iterating.
Context `{HashOrder}.

Definition value_names (ns : Namespace) : list str := hash_keys (values ns).

Definition all_views (ns : Namespace) (with_stats : bool) (now : Z) : list AttributeView :=
  omap (fun p => if is_expired p.2 now then None else Some (view p.2 0 with_stats))
    (hash_iter (values ns)).

(** The sorted names of the values not expired. *)
Definition alive_names (ns : Namespace) (now : Z) : list str :=
  filter (fun v => live ns now v = true) (sort_strs (value_names ns)).

Definition merge_page (ns : Namespace) (off limit : nat) (now : Z) : Page (str * Merge) :=
  let alive := alive_names ns now in
  mkPage (omap (fun v => (fun a => (v, as_merge a)) <$> values ns !! v) (page_of off limit alive))
    (length alive) off.

(** The map [retain] leaves, and the names it removes in the order it visits
    them. *)
Definition remove_expired (ns : Namespace) (now : Z) : Namespace * list str :=
  if negb (has_ttl ns) then (ns, [])
  else if negb (bool_decide (map_Exists (fun _ a => is_expired a now = true) (values ns))) then (ns, [])
  else
    (mkNamespace (filter (fun p => is_expired p.2 now = false) (values ns)) (has_ttl ns),
     (filter (fun p => is_expired p.2 now = true) (hash_iter (values ns))).*1).
End Iterating.

(** ** The invariant

    Every attribute is well formed and filed under its own value, and the flag
    is set whenever some attribute has a TTL. *)
Record ns_wf (ns : Namespace) : Prop := {
  ns_attr : forall v a, values ns !! v = Some a -> attr_wf a /\ value a = v;
  ns_flag : has_ttl ns = false -> forall v a, values ns !! v = Some a -> ttl a = 0%Z;
}.
#[export] Hint Resolve ns_attr : sdb.

Definition opt_u64 (t : option Z) : Prop := match t with Some z => is_u64 z | None => True end.

Lemma ns_wf_insert ns v a flag :
  ns_wf ns -> attr_wf a -> value a = v -> (flag = false -> has_ttl ns = false /\ ttl a = 0%Z) ->
  ns_wf (mkNamespace (<[v := a]> (values ns)) flag).
Proof.
  intros [Ha Hf] Hwf Hv Hflag. split; simpl.
  - intros k b [[<- <-]|[_ Hb]]%lookup_insert_Some; eauto.
  - intros [Hn Ht]%Hflag k b [[<- <-]|[_ Hb]]%lookup_insert_Some; eauto.
Qed.

Lemma ns_wf_sub ns vs : ns_wf ns -> vs ⊆ values ns -> ns_wf (mkNamespace vs (has_ttl ns)).
Proof. intros [Ha Hf] Hs. split; simpl; intros; eauto using lookup_weaken. Qed.

Lemma empty_namespace_wf : ns_wf empty_namespace.
Proof. split; simpl; intros; simplify_map_eq. Qed.

Lemma default_wf ns v : ns_wf ns ->
  attr_wf (default (new v) (values ns !! v)) /\ value (default (new v) (values ns !! v)) = v.
Proof. intros [Ha _]. destruct (values ns !! v) eqn:E; simpl; [eauto|]. split; [apply new_wf|done]. Qed.

Lemma attr_wf_ext a b :
  counts a = counts b -> stats a = stats b -> first_seen a = first_seen b -> last_seen a = last_seen b ->
  is_u64 (ttl b) -> legacy_count a = legacy_count b -> legacy_stats a = legacy_stats b ->
  attr_wf a -> attr_wf b.
Proof. intros H1 H2 H3 H4 H5 H6 H7 [? ? ? ? ? ?]. split; rewrite <- ?H1, <- ?H2, <- ?H3, <- ?H4, <- ?H6, <- ?H7; done. Qed.

Lemma write_attr_prep a t tgs :
  let a' := (if is_empty tgs then match t with Some t' => set_ttl a t' | None => a end
             else add_tags (match t with Some t' => set_ttl a t' | None => a end) tgs) in
  counts a' = counts a /\ stats a' = stats a /\ first_seen a' = first_seen a
  /\ last_seen a' = last_seen a /\ value a' = value a /\ ttl a' = default (ttl a) t
  /\ legacy_count a' = legacy_count a /\ legacy_stats a' = legacy_stats a.
Proof. unfold add_tags. destruct t, (is_empty tgs); simpl; repeat case_match; done. Qed.

Lemma write_attr_wf a node w t keep tgs :
  attr_wf a -> opt_u64 t -> attr_wf (write_attr a node w t keep tgs).
Proof.
  intros Ha Ht. unfold write_attr. apply increment_wf.
  destruct (write_attr_prep a t tgs) as (?&?&?&?&?&E&?&?).
  eapply attr_wf_ext; [symmetry..| | | |exact Ha]; try done. rewrite E.
  destruct t; [done|]. apply Ha.
Qed.

Lemma write_attr_fields a node w t keep tgs :
  value (write_attr a node w t keep tgs) = value a
  /\ ttl (write_attr a node w t keep tgs) = default (ttl a) t
  /\ counts (write_attr a node w t keep tgs) = add_entry node 1 (counts a)
  /\ count (write_attr a node w t keep tgs) = count (increment a node w keep).
Proof.
  destruct (write_attr_prep a t tgs) as (Ec&?&?&?&Ev&Et&_). unfold write_attr, count.
  destruct (increment_fields a node w keep) as (_ & -> & _).
  match goal with |- context [increment ?x node w keep] =>
    destruct (increment_fields x node w keep) as (_ & -> & _ & _ & _ & -> & -> & _) end.
  by rewrite Ec, Ev, Et.
Qed.

(** One more sighting, whatever wraps around. *)
Lemma count_write_attr a node w t keep tgs :
  count (write_attr a node w t keep tgs) = u64_add (count a) 1.
Proof.
  unfold count. destruct (write_attr_fields a node w t keep tgs) as (_ & _ & -> & _).
  unfold add_entry, u64_add, wrap64. rewrite map_total_update.
  set (e := default 0%Z (counts a !! node)). set (T := map_total (counts a)).
  rewrite <- (Zplus_mod_idemp_r _ (T - e)), Zmod_mod, Zplus_mod_idemp_r, Zplus_mod_idemp_l.
  f_equal. lia.
Qed.

Lemma record_values ns node v w t keep tgs :
  let a := write_attr (default (new v) (values ns !! v)) node w t keep tgs in
  record ns node v w t keep tgs
  = (mkNamespace (<[v := a]> (values ns)) (has_ttl ns || positive_ttl t),
     (count a, bool_decide (values ns !! v = None), view a 0 false)).
Proof. unfold record, record_fast, record_slow. by destruct (values ns !! v). Qed.

Lemma record_wf ns node v w t keep tgs :
  ns_wf ns -> opt_u64 t -> ns_wf (record ns node v w t keep tgs).1.
Proof.
  intros Hns Ht. rewrite record_values. destruct (default_wf ns v Hns) as [Ha Hv].
  destruct (write_attr_fields (default (new v) (values ns !! v)) node w t keep tgs) as (Ev & Et & _).
  apply ns_wf_insert; [done|by apply write_attr_wf|congruence|].
  intros [Hf Hp]%orb_false_elim. split; [done|]. rewrite Et. destruct t as [z|]; simpl in *.
  - apply bool_decide_eq_false in Hp. unfold is_u64 in Ht. lia.
  - destruct (values ns !! v) eqn:E; [|done]. by eapply ns_flag.
Qed.

Lemma set_count_wf ns node v c now :
  ns_wf ns -> is_u64 c -> ns_wf (set_count ns node v c now).1.
Proof.
  intros Hns Hc. destruct (default_wf ns v Hns) as [Ha Hv]. unfold set_count.
  assert (Ht : has_ttl ns = false -> ttl (default (new v) (values ns !! v)) = 0%Z).
  { intros Hf. destruct (values ns !! v) eqn:E; [|done]. by eapply ns_flag. }
  case_bool_decide; [apply ns_wf_sub; [done|apply delete_subseteq]|].
  case_bool_decide; [apply ns_wf_insert; auto|].
  set (a := default (new v) (values ns !! v)) in *.
  assert (Hwf : attr_wf (set_counts a {[node := c]})).
  { destruct Ha. split; try done. by apply map_Forall_singleton. }
  assert (H2 : forall a2, a2 = (if bool_decide (first_seen (set_counts a {[node := c]}) = UNIX_EPOCH)
      then set_window (set_counts a {[node := c]}) now now else set_counts a {[node := c]}) ->
    attr_wf a2 /\ value a2 = v /\ ttl a2 = ttl a).
  { intros a2 ->. case_bool_decide; [|done]. split; [|done].
    destruct Hwf. split; simpl; try done. }
  destruct (H2 _ eq_refl) as (H3 & H4 & H5). apply ns_wf_insert; [done..|].
  intros Hf. split; [done|]. rewrite H5. by apply Ht.
Qed.

Lemma retag_wf ns v tgs now : ns_wf ns -> ns_wf (retag ns v tgs now).1.
Proof.
  intros Hns. unfold retag. destruct (values ns !! v) as [a|] eqn:E; [|done].
  destruct (is_expired a now); [done|].
  destruct (ns_attr ns Hns v a E) as [Ha Hv].
  apply ns_wf_insert; [done| |done|].
  - eapply attr_wf_ext; [..|exact Ha]; try done. apply Ha.
  - intros Hf. split; [done|]. exact (ns_flag ns Hns Hf v a E).
Qed.

Lemma decrement_frame a node :
  let a' := (decrement a node).1 in
  value a' = value a /\ ttl a' = ttl a /\ stats a' = stats a /\ first_seen a' = first_seen a
  /\ last_seen a' = last_seen a /\ legacy_count a' = legacy_count a /\ legacy_stats a' = legacy_stats a.
Proof. unfold decrement. by repeat (case_match || case_bool_decide). Qed.

Lemma decrement_u64 a node : all_u64 (counts a) -> all_u64 (counts (decrement a node).1).
Proof.
  intros Ha. unfold decrement. destruct (counts a !! node) as [c|] eqn:E; simpl; [|done].
  pose proof (Ha _ _ E) as Hc. simpl in Hc.
  case_bool_decide; simpl; [by apply all_u64_delete|apply all_u64_insert; [|done]]. width.
Qed.

Lemma release_wf ns node v : ns_wf ns -> ns_wf (release ns node v).
Proof.
  intros Hns. unfold release. destruct (values ns !! v) as [a|] eqn:E; [|done].
  destruct (ns_attr ns Hns v a E) as [Ha Hv].
  destruct (decrement_frame a node) as (Ev & Et & Es & Ef & El & Elc & Els).
  case_bool_decide; [apply ns_wf_sub; [done|apply delete_subseteq]|].
  apply ns_wf_insert; [done| |congruence|].
  - split; rewrite ?Et, ?Es, ?Ef, ?El, ?Elc, ?Els; auto using decrement_u64 with sdb. apply Ha.
  - intros Hf. split; [done|]. rewrite Et. by eapply (ns_flag ns Hns Hf v).
Qed.

Lemma migrate_wf a node :
  attr_wf a -> attr_wf (migrate a node) /\ value (migrate a node) = value a /\ ttl (migrate a node) = ttl a.
Proof.
  intros Ha. unfold migrate.
  set (a1 := if bool_decide (0 < legacy_count a)%Z then _ else a).
  assert (H1 : attr_wf a1 /\ value a1 = value a /\ ttl a1 = ttl a).
  { subst a1. case_bool_decide; [|done]. split; [|done].
    destruct Ha. split; simpl; auto using all_u64_add_entry. width. }
  destruct H1 as (H1 & Hv & Ht). case_bool_decide; [done|]. split; [|done].
  split; simpl; try apply H1; [|by intros ?; rewrite lookup_empty].
  intros n b. rewrite lookup_insert_Some. intros [[<- <-]|[_ Hb]]; [|by eapply wf_stats].
  apply (foldl_all_u64 (fun q => q)), stats_default_u64, H1.
Qed.

Lemma from_values_wf vs node :
  (forall v a, vs !! v = Some a -> attr_wf a /\ value a = v) -> ns_wf (from_values vs node).
Proof.
  intros Hvs. split; simpl.
  - intros v a (b & <- & Hb)%lookup_fmap_Some. destruct (Hvs v b Hb) as [Hw <-].
    destruct (migrate_wf b node Hw) as (? & ? & _). done.
  - intros Hf%bool_decide_eq_false v a (b & <- & Hb)%lookup_fmap_Some.
    destruct (Hvs v b Hb) as [Hw _]. destruct (migrate_wf b node Hw) as (_ & _ & ->).
    destruct (decide (0 < ttl b)%Z) as [Hp|Hp].
    + destruct Hf. exists v, b. done.
    + pose proof (wf_ttl b Hw) as [? ?]. lia.
Qed.

(** A payload a peer of this build can have offered. *)
Record payload_ok `{Chrono} (i : Merge) : Prop := {
  pl_counts : all_u64 (m_counts i);
  pl_stats : forall n b, m_stats i !! n = Some b -> all_u64 b;
  pl_ttl : is_u64 (m_ttl i);
  pl_window : (m_first_seen i <= m_last_seen i)%Z;
  pl_range : is_Some (from_timestamp (m_first_seen i)) <-> is_Some (from_timestamp (m_last_seen i));
}.

Lemma merge_value_wf `{Chrono} ns node v i :
  ns_wf ns -> payload_ok i -> ns_wf (merge_value ns node v i).1.
Proof.
  intros Hns [Hc Hs Ht Hw Hr]. unfold merge_value. destruct (default_wf ns v Hns) as [Ha Hv].
  set (a := default (new v) (values ns !! v)) in *.
  destruct (attr_merge_fields a i node) as (Ev & _ & _ & _ & _ & Et & _).
  change (attr_merge a i node).1 with (merged a i node).
  apply ns_wf_insert; [done|by apply merged_wf|by rewrite Ev|].
  intros [Hf Hp]%orb_false_elim. split; [done|]. rewrite Et. apply bool_decide_eq_false in Hp.
  assert (Hta : ttl a = 0%Z).
  { subst a. destruct (values ns !! v) eqn:E; [|done]. by eapply ns_flag. }
  rewrite Hta. unfold merge_ttl. rewrite bool_decide_eq_true_2 by done. unfold is_u64 in Ht. lia.
Qed.

Section Swept.
Context `{HashOrder}.

(** The flag and the check under the read lock only save work. *)
Lemma remove_expired_values ns now :
  ns_wf ns ->
  values (remove_expired ns now).1 = filter (fun p => is_expired p.2 now = false) (values ns)
  /\ (remove_expired ns now).2 = (filter (fun p => is_expired p.2 now = true) (hash_iter (values ns))).*1
  /\ has_ttl (remove_expired ns now).1 = has_ttl ns.
Proof.
  intros Hns. unfold remove_expired.
  assert (Hnone : (forall v a, values ns !! v = Some a -> is_expired a now = false) ->
    values ns = filter (fun p => is_expired p.2 now = false) (values ns)
    /\ [] = (filter (fun p => is_expired p.2 now = true) (hash_iter (values ns))).*1).
  { intros Hall. split.
    - symmetry. apply map_filter_id. intros v a Hv. by eapply Hall.
    - rewrite list_filter_none; [done|]. intros [v a] Hin%elem_of_hash_iter. simpl.
      by rewrite (Hall v a Hin). }
  destruct (has_ttl ns) eqn:Ef; simpl.
  - case_bool_decide as He; simpl; [done|].
    destruct Hnone as [H1 H2]; [|rewrite <- H1, <- H2; done].
    intros v a Hv. destruct (is_expired a now) eqn:Ea; [|done]. destruct He. by exists v, a.
  - destruct Hnone as [H1 H2]; [|rewrite <- H1, <- H2; done].
    intros v a Hv. apply is_expired_no_ttl. by eapply ns_flag.
Qed.

Lemma remove_expired_lookup ns now v :
  ns_wf ns ->
  values (remove_expired ns now).1 !! v =
    match values ns !! v with Some a => if is_expired a now then None else Some a | None => None end.
Proof.
  intros Hns. rewrite (proj1 (remove_expired_values ns now Hns)), map_lookup_filter.
  destruct (values ns !! v) as [a|]; simpl; [|done]. by destruct (is_expired a now).
Qed.

Lemma remove_expired_names ns now v :
  ns_wf ns ->
  v ∈ (remove_expired ns now).2 <-> exists a, values ns !! v = Some a /\ is_expired a now = true.
Proof.
  intros Hns. rewrite (proj1 (proj2 (remove_expired_values ns now Hns))), list_elem_of_fmap. split.
  - intros ([k a] & -> & [Hx Hin]%list_elem_of_filter). apply elem_of_hash_iter in Hin. eauto.
  - intros (a & Ha & Hx). exists (v, a). split; [done|]. apply list_elem_of_filter. split; [done|].
    by apply elem_of_hash_iter.
Qed.

Lemma remove_expired_NoDup ns now : NoDup (remove_expired ns now).2.
Proof.
  unfold remove_expired. repeat case_match; simpl; try apply NoDup_nil; try done.
  eapply sublist_NoDup; [apply (hash_keys_NoDup (values ns))|]. apply fmap_sublist, sublist_filter.
Qed.

Lemma remove_expired_none ns now : is_empty (remove_expired ns now).2 = true -> (remove_expired ns now).1 = ns.
Proof.
  unfold remove_expired. destruct (has_ttl ns); simpl; [|done]. case_bool_decide as He; simpl; [|done].
  destruct He as (v & a & Hv & Hx). intros Hn.
  assert (Hin : (v, a) ∈ filter (fun p => is_expired p.2 now = true) (hash_iter (values ns)))
    by (apply list_elem_of_filter; split; [done|by apply elem_of_hash_iter]).
  destruct (filter _ (hash_iter (values ns))); [by apply elem_of_nil in Hin|done].
Qed.

Lemma remove_expired_wf ns now : ns_wf ns -> ns_wf (remove_expired ns now).1.
Proof.
  intros Hns. destruct (remove_expired_values ns now Hns) as (Hv & _ & Hf).
  destruct (remove_expired ns now).1 as [vs f]. simpl in *. subst.
  apply ns_wf_sub; [done|apply map_filter_subseteq].
Qed.
End Swept.

(** ** Properties *)

(** Every operation on a namespace keeps its invariant: attributes are
    well formed and filed under their own value, and whenever one of them has a
    TTL the flag that sweeps consult is set. *)
Theorem namespace_invariant `{Chrono, HashOrder} ns node v w t keep tgs c now i vs :
  ns_wf ns -> opt_u64 t -> is_u64 c -> payload_ok i ->
  (forall v a, vs !! v = Some a -> attr_wf a /\ value a = v) ->
  ns_wf empty_namespace
  /\ ns_wf (from_values vs node)
  /\ ns_wf (record ns node v w t keep tgs).1
  /\ ns_wf (merge_value ns node v i).1
  /\ ns_wf (set_count ns node v c now).1
  /\ ns_wf (retag ns v tgs now).1
  /\ ns_wf (release ns node v)
  /\ ns_wf (remove_expired ns now).1.
Proof.
  intros. split_and!; auto using empty_namespace_wf, from_values_wf, record_wf, merge_value_wf,
    set_count_wf, retag_wf, release_wf, remove_expired_wf.
Qed.

Definition demo_ns : Namespace :=
  (record (record empty_namespace (lit "n1") (lit "1.2.3.4") (5000 * NANOS) (Some 60%Z) 0 []).1
     (lit "n1") (lit "evil.example") (6000 * NANOS) None 0 (lit "tlp:amber")).1.

Lemma demo_ns_wf : ns_wf demo_ns.
Proof. repeat apply record_wf; done || apply empty_namespace_wf. Qed.

Lemma demo_payload_ok `{Chrono} : payload_ok (as_merge (new [])).
Proof. split; simpl; try done; try (intros ?; by rewrite lookup_empty). Qed.

Lemma namespace_invariant_witness :
  let C := chrono_10000y in let O := some_order in
  ns_wf (remove_expired demo_ns (9000 * NANOS)).1.
Proof.
  intros C O.
  pose proof (@namespace_invariant C O demo_ns [] [] 0 None 0 [] 5 (9000 * NANOS) (as_merge (new [])) ∅
    demo_ns_wf I ltac:(done) demo_payload_ok ltac:(intros *; by rewrite lookup_empty)) as Hall.
  apply Hall.
Defined.

(** Recording a sighting reports the value as new exactly when it was
    absent, returns the count it stored, one more than before, and leaves every
    other value of the namespace alone, whichever of its two paths it takes. *)
Theorem record_exact ns node v w t keep tgs :
  ns_wf ns ->
  (map_total (counts (default (new v) (values ns !! v))) + 1 < U64_MODULUS)%Z ->
  let r := record ns node v w t keep tgs in
  r.2.1.2 = bool_decide (values ns !! v = None)
  /\ (exists a, values r.1 !! v = Some a /\ count a = r.2.1.1 /\ r.2.2 = view a 0 false
        /\ counts a !! node
           = Some (default 0 (counts (default (new v) (values ns !! v)) !! node) + 1)%Z)
  /\ r.2.1.1 = (count (default (new v) (values ns !! v)) + 1)%Z
  /\ (forall v', v' <> v -> values r.1 !! v' = values ns !! v').
Proof.
  intros Hns Hb r. unfold r. rewrite record_values. simpl. destruct (default_wf ns v Hns) as [Ha _].
  set (a := default (new v) (values ns !! v)) in *.
  destruct (write_attr_fields a node w t keep tgs) as (_ & _ & Ec & En).
  split_and!; [done| | |intros; by rewrite lookup_insert_ne].
  - exists (write_attr a node w t keep tgs). rewrite lookup_insert_eq. split_and!; try done.
    rewrite Ec. unfold add_entry. rewrite lookup_insert_eq. f_equal. apply wrap64_id.
    pose proof (map_total_ge _ node (wf_counts a Ha)).
    pose proof (all_u64_default _ node (wf_counts a Ha)) as [? ?]. split; lia.
  - rewrite En. by apply count_increment.
Qed.

Lemma record_exact_witness :
  (record demo_ns (lit "n1") (lit "1.2.3.4") (7000 * NANOS) None 0 []).2.1 = (2%Z, false).
Proof.
  pose proof (record_exact demo_ns (lit "n1") (lit "1.2.3.4") (7000 * NANOS) None 0 []
    demo_ns_wf ltac:(vm_compute; reflexivity)) as (H1 & _ & H2 & _).
  apply injective_projections; [rewrite H2|rewrite H1]; vm_compute; reflexivity.
Defined.

Section Alive.
Context `{HashOrder}.

Lemma elem_of_alive ns now v :
  v ∈ alive_names ns now <-> exists a, values ns !! v = Some a /\ is_expired a now = false.
Proof.
  unfold alive_names, value_names. rewrite sort_hash_keys, list_elem_of_filter, elem_of_btree_keys.
  unfold live. destruct (values ns !! v) as [a|]; split.
  - intros [Hx _]. exists a. split; [done|]. by destruct (is_expired a now).
  - intros (b & [= <-] & Hx). rewrite Hx. eauto.
  - by intros [? _].
  - by intros (b & ? & _).
Qed.

Lemma alive_sorted ns now : StronglySorted str_le (alive_names ns now).
Proof. apply StronglySorted_filter, (StronglySorted_merge_sort str_le). Qed.

Lemma alive_NoDup ns now : NoDup (alive_names ns now).
Proof.
  unfold alive_names, value_names. rewrite sort_hash_keys. apply NoDup_filter, btree_keys_NoDup.
Qed.

(** What a caller paging through the namespace is offered. *)
Definition offers (ns : Namespace) (names : list str) : list (str * Merge) :=
  omap (fun v => (fun a => (v, as_merge a)) <$> values ns !! v) names.

Lemma offers_ext ns1 ns2 names :
  (forall v, v ∈ names -> values ns1 !! v = values ns2 !! v) -> offers ns1 names = offers ns2 names.
Proof.
  induction names as [|v l IH]; intros Hv; [done|].
  assert (E : offers ns1 l = offers ns2 l) by (apply IH; intros; apply Hv; by right).
  unfold offers in *. simpl. rewrite (Hv v) by left. destruct (values ns2 !! v); simpl; [f_equal|]; exact E.
Qed.

Lemma swept_alive ns now later :
  ns_wf ns -> (now <= later)%Z -> alive_names (remove_expired ns now).1 later = alive_names ns later.
Proof.
  intros Hns Hl. apply (sorted_set_unique str_le); auto using alive_sorted, alive_NoDup.
  intros v. rewrite !elem_of_alive, remove_expired_lookup by done.
  destruct (values ns !! v) as [a|]; [|done]. destruct (is_expired a now) eqn:E; [|done].
  pose proof (is_expired_mono a now later Hl E). split; [by intros (? & ? & _)|].
  intros (b & [= <-] & Hx). congruence.
Qed.

Lemma swept_page ns now later off limit :
  ns_wf ns -> (now <= later)%Z ->
  merge_page (remove_expired ns now).1 off limit later = merge_page ns off limit later.
Proof.
  intros Hns Hl. unfold merge_page. rewrite swept_alive by done. f_equal. apply offers_ext.
  intros v Hv. assert (Hv' : v ∈ alive_names ns later) by by apply (subseteq_take limit), (subseteq_drop off) in Hv.
  clear Hv. rename Hv' into Hv. rewrite remove_expired_lookup by done.
  apply elem_of_alive in Hv as (a & -> & Hx).
  destruct (is_expired a now) eqn:E; [|done]. by rewrite (is_expired_mono a now later Hl E) in Hx.
Qed.
End Alive.

(** Sweeping is invisible: once the expired values of a namespace have been
    removed, every read at that moment or later (a view with or without
    statistics, a count, the payload offered to a peer, a page of payloads)
    answers what it answered before, the removed names are exactly the expired
    values, each listed once, and no live value has been touched. *)
Theorem sweep_invisible `{HashOrder} ns now later v consensus with_stats off limit :
  ns_wf ns -> (now <= later)%Z ->
  let ns' := (remove_expired ns now).1 in
  view_value ns' v consensus with_stats later = view_value ns v consensus with_stats later
  /\ count_value ns' v later = count_value ns v later
  /\ merge_payload ns' v later = merge_payload ns v later
  /\ merge_page ns' off limit later = merge_page ns off limit later
  /\ NoDup (remove_expired ns now).2
  /\ (v ∈ (remove_expired ns now).2 <-> exists a, values ns !! v = Some a /\ is_expired a now = true)
  /\ (forall a, values ns !! v = Some a -> is_expired a now = false -> values ns' !! v = Some a).
Proof.
  intros Hns Hl ns'. pose proof (fun v => remove_expired_lookup ns now v Hns) as Hv. fold ns' in Hv.
  assert (Hread : forall {B} (d : B) (f : Attribute -> B) u,
    match values ns' !! u with Some a => if is_expired a later then d else f a | None => d end
    = match values ns !! u with Some a => if is_expired a later then d else f a | None => d end).
  { intros B d f u. rewrite Hv. destruct (values ns !! u) as [a|]; [|done].
    destruct (is_expired a now) eqn:E; [|done]. by rewrite (is_expired_mono a now later Hl E). }
  unfold view_value, count_value, merge_payload. split_and!; try apply Hread.
  - by apply swept_page.
  - apply remove_expired_NoDup.
  - by apply remove_expired_names.
  - intros a Ha Hx. by rewrite Hv, Ha, Hx.
Qed.

Lemma sweep_invisible_witness :
  let O := some_order in
  count_value demo_ns (lit "1.2.3.4") (5060 * NANOS) = 1%Z
  /\ count_value (remove_expired demo_ns (9000 * NANOS)).1 (lit "1.2.3.4") (9000 * NANOS) = 0%Z
  /\ lit "1.2.3.4" ∈ (remove_expired demo_ns (9000 * NANOS)).2.
Proof.
  intros O.
  pose proof (@sweep_invisible O demo_ns (9000 * NANOS) (9000 * NANOS) (lit "1.2.3.4") 0 false 0 0
    demo_ns_wf ltac:(lia)) as (_ & H1 & _ & _ & _ & H2 & _).
  split_and!; [vm_compute; reflexivity|rewrite H1; vm_compute; reflexivity|].
  apply H2. destruct (values demo_ns !! lit "1.2.3.4") as [a|] eqn:E; [|vm_compute in E; discriminate E].
  exists a. split; [done|]. vm_compute in E. injection E as <-. vm_compute. reflexivity.
Defined.

(** ** Paging *)
Lemma page_of_chunks {A} (limit k : nat) (l : list A) :
  length l <= k * limit -> mjoin ((fun i => page_of (i * limit) limit l) <$> seq 0 k) = l.
Proof.
  revert l. induction k as [|k IH]; intros l Hl; [by destruct l; [|simpl in Hl; lia]|].
  rewrite <- cons_seq, fmap_cons, <- (fmap_S_seq 0 k), <- list_fmap_compose.
  rewrite (list_fmap_ext (_ ∘ S) (fun i => page_of (i * limit) limit (drop limit l))).
  - cbn [mjoin list_join]. rewrite IH; [apply take_drop|]. rewrite length_drop. lia.
  - intros i x _. unfold page_of. simpl. by rewrite drop_drop.
Qed.

Lemma offers_names `{HashOrder} ns now l :
  (forall v, v ∈ l -> v ∈ alive_names ns now) -> (offers ns l).*1 = l.
Proof.
  induction l as [|v l IH]; intros Hl; [done|].
  destruct (proj1 (elem_of_alive ns now v) (Hl v ltac:(left))) as (a & Ha & _).
  assert (E : (offers ns l).*1 = l) by (apply IH; intros; apply Hl; by right).
  unfold offers in *. simpl. rewrite Ha. simpl. f_equal. exact E.
Qed.

(** A peer catching up page by page sees every live value exactly once: the
    pages, one after the other, list the live values in order of value without
    repeats, each with its payload, and every page reports their number as its
    total. *)
Theorem merge_pages_complete `{HashOrder} ns limit k now :
  length (alive_names ns now) <= k * limit ->
  let pages := (fun i => merge_page ns (i * limit) limit now) <$> seq 0 k in
  let names := mjoin ((fun p => (items p).*1) <$> pages) in
  names = alive_names ns now
  /\ NoDup names /\ StronglySorted str_le names
  /\ (forall v, v ∈ names <-> is_Some (merge_payload ns v now))
  /\ (forall p v m, p ∈ pages -> (v, m) ∈ items p -> merge_payload ns v now = Some m)
  /\ (forall p, p ∈ pages -> total p = length names).
Proof.
  intros Hl pages names.
  assert (Hn : names = alive_names ns now).
  { unfold names, pages. rewrite <- list_fmap_compose.
    rewrite (list_fmap_ext _ (fun i => page_of (i * limit) limit (alive_names ns now))).
    - by apply page_of_chunks.
    - intros i x _. simpl. apply (offers_names ns now). intros v Hv.
      by apply (subseteq_take limit), (subseteq_drop (x * limit)) in Hv. }
  rewrite Hn. split_and!; [done|apply alive_NoDup|apply alive_sorted| | |].
  - intros v. rewrite elem_of_alive. unfold merge_payload.
    destruct (values ns !! v) as [a|]; [|split; [by intros (?&?&_)|by intros []]].
    destruct (is_expired a now) eqn:E; [|split; eauto].
    split; [intros (b & [= <-] & Hx); congruence|by intros []].
  - intros p v m Hp Hm. apply list_elem_of_fmap in Hp as (i & -> & _). simpl in Hm.
    apply list_elem_of_omap in Hm as (u & Hu & Hv).
    apply (subseteq_take limit), (subseteq_drop (i * limit)), elem_of_alive in Hu as (a & Ha & Hx).
    rewrite Ha in Hv. simpl in Hv. simplify_eq. unfold merge_payload. by rewrite Ha, Hx.
  - intros p Hp. by apply list_elem_of_fmap in Hp as (i & -> & _).
Qed.

Lemma merge_pages_complete_witness :
  let O := some_order in
  mjoin ((fun i => (items (merge_page demo_ns (i * 1) 1 (5010 * NANOS))).*1) <$> seq 0 2)
  = [lit "1.2.3.4"; lit "evil.example"].
Proof.
  intros O.
  pose proof (proj1 (@merge_pages_complete O demo_ns 1 2 (5010 * NANOS) ltac:(vm_compute; lia))) as Hn.
  rewrite <- list_fmap_compose in Hn. etransitivity; [exact Hn|]. vm_compute. reflexivity.
Defined.
