(* ===== verification/Racing.v ===== *)
(** * Writers racing in one namespace

    [Namespace::record] of [src/src/db.rs] takes the map's read lock, looks the
    value up, and, when it is not there, lets go and takes the write lock, where
    it decides again whether the value is new.  Between the two another writer,
    or a sweep, may get in.  A run is a sequence of the critical sections of any
    number of writers and removals. *)

From stdpp Require Import base numbers list strings gmap sorting relations.
From S2P Require Import Prelude Attribute AttributeFacts Namespace.

Record Request := mkRequest {
  q_node : str;
  q_value : str;
  q_when : Z;
  q_ttl : option Z;
  q_keep : nat;
  q_tags : str;
}.

(** Where a call of [record] is: before the fast path, between the two locks,
    or returned with its count and whether it said the value was new. *)
Inductive Phase := AtFast | AtSlow | Returned (c : Z) (is_new : bool).

Record Race := mkRace {
  shared : gmap str Attribute;
  writers : list (Request * Phase);
  removals : list str;
}.

Definition fast (s : Race) (q : Request) :=
  record_fast (shared s) (q_node q) (q_value q) (q_when q) (q_ttl q) (q_keep q) (q_tags q).
Definition slow (s : Race) (q : Request) :=
  record_slow (shared s) (q_node q) (q_value q) (q_when q) (q_ttl q) (q_keep q) (q_tags q).

Inductive step : Race -> Race -> Prop :=
  | step_fast s i q vs c b vw :
      writers s !! i = Some (q, AtFast) -> fast s q = Some (vs, (c, b, vw)) ->
      step s (mkRace vs (<[i := (q, Returned c b)]> (writers s)) (removals s))
  | step_miss s i q :
      writers s !! i = Some (q, AtFast) -> fast s q = None ->
      step s (mkRace (shared s) (<[i := (q, AtSlow)]> (writers s)) (removals s))
  | step_slow s i q vs c b vw :
      writers s !! i = Some (q, AtSlow) -> slow s q = (vs, (c, b, vw)) ->
      step s (mkRace vs (<[i := (q, Returned c b)]> (writers s)) (removals s))
  | step_remove s v :
      is_Some (shared s !! v) ->
      step s (mkRace (delete v (shared s)) (writers s) (v :: removals s)).

Definition start (vs : gmap str Attribute) (qs : list Request) : Race :=
  mkRace vs ((fun q => (q, AtFast)) <$> qs) [].

(** Calls that returned saying [v] was new, and calls on [v] that returned. *)
Definition said_new (v : str) (w : Request * Phase) : Prop :=
  q_value w.1 = v /\ match w.2 with Returned _ true => True | _ => False end.
Definition returned (v : str) (w : Request * Phase) : Prop :=
  q_value w.1 = v /\ match w.2 with Returned _ _ => True | _ => False end.
#[export] Instance said_new_dec v w : Decision (said_new v w).
Proof. unfold said_new. destruct w as [? [| |? []]]; simpl; apply _. Defined.
#[export] Instance returned_dec v w : Decision (returned v w).
Proof. unfold returned. destruct w as [? []]; simpl; apply _. Defined.

Definition tally (P : Request * Phase -> Prop) `{!forall w, Decision (P w)} (ws : list (Request * Phase)) : nat :=
  length (filter P ws).

Definition present (vs : gmap str Attribute) (v : str) : nat :=
  if bool_decide (is_Some (vs !! v)) then 1 else 0.
Definition removed (v : str) (l : list str) : nat := length (filter (fun x => x = v) l).

(** Turns left: two for a call that has not looked yet, one between locks. *)
Definition turns (w : Request * Phase) : nat :=
  match w.2 with AtFast => 2 | AtSlow => 1 | Returned _ _ => 0 end.
Definition work (s : Race) : nat := sum_list_with turns (writers s).

(** ** Bookkeeping lemmas *)
Lemma tally_update P `{!forall w, Decision (P w)} ws i w w' :
  ws !! i = Some w ->
  tally P (<[i := w']> ws) + (if decide (P w) then 1 else 0)
  = tally P ws + (if decide (P w') then 1 else 0).
Proof.
  unfold tally. revert i. induction ws as [|x ws IH]; intros [|i] Hi; simplify_eq/=.
  - rewrite !filter_cons. repeat case_decide; simpl; lia.
  - specialize (IH i Hi). rewrite !filter_cons. repeat case_decide; simpl in *; lia.
Qed.

Lemma tally_none P `{!forall w, Decision (P w)} ws : (forall w, w ∈ ws -> ~ P w) -> tally P ws = 0.
Proof. intros Hn. unfold tally. by rewrite list_filter_none. Qed.

Lemma turns_update (ws : list (Request * Phase)) i w w' :
  ws !! i = Some w ->
  sum_list_with turns (<[i := w']> ws) + turns w = sum_list_with turns ws + turns w'.
Proof.
  revert i. induction ws as [|x ws IH]; intros [|i] Hi; simplify_eq/=; [lia|].
  specialize (IH i Hi). lia.
Qed.

Definition stored (vs : gmap str Attribute) (v : str) : Z :=
  match vs !! v with Some a => count a | None => 0%Z end.

Lemma fast_spec s q vs c b vw :
  fast s q = Some (vs, (c, b, vw)) ->
  exists a a', shared s !! q_value q = Some a /\ vs = <[q_value q := a']> (shared s)
    /\ c = count a' /\ b = false /\ count a' = u64_add (count a) 1.
Proof.
  unfold fast, record_fast. destruct (shared s !! q_value q) as [a|] eqn:E; [|done].
  intros Hr. simplify_eq. eexists _, _. split_and!; [done..|apply count_write_attr].
Qed.

Lemma slow_spec s q vs c b vw :
  slow s q = (vs, (c, b, vw)) ->
  exists a', vs = <[q_value q := a']> (shared s) /\ c = count a'
    /\ b = bool_decide (shared s !! q_value q = None)
    /\ count a' = u64_add (stored (shared s) (q_value q)) 1.
Proof.
  unfold slow, record_slow. intros Hr. simplify_eq. eexists. split_and!; [done..|].
  rewrite count_write_attr. unfold stored. by destruct (shared s !! q_value q).
Qed.

Lemma present_insert vs v a v' :
  present (<[v := a]> vs) v' = if decide (v = v') then 1 else present vs v'.
Proof.
  unfold present. rewrite lookup_insert. case_decide; [|done]. by rewrite bool_decide_eq_true_2 by eauto.
Qed.

Lemma present_Some vs v a : vs !! v = Some a -> present vs v = 1.
Proof. intros E. unfold present. by rewrite E, bool_decide_eq_true_2 by eauto. Qed.

Lemma present_None vs v : vs !! v = None -> present vs v = 0.
Proof. intros E. unfold present. by rewrite E. Qed.

Lemma said_new_returned v q c b :
  (if decide (said_new v (q, Returned c b)) then 1 else 0) = if decide (q_value q = v) then Nat.b2n b else 0.
Proof. unfold said_new. simpl. repeat case_decide; destruct b; naive_solver. Qed.

Lemma returned_returned v q c b :
  (if decide (returned v (q, Returned c b)) then 1 else 0) = if decide (q_value q = v) then 1 else 0.
Proof. unfold returned. simpl. repeat case_decide; naive_solver. Qed.

Lemma waiting_not v q p :
  (p = AtFast \/ p = AtSlow) ->
  (if decide (said_new v (q, p)) then 1 else 0) = 0
  /\ (if decide (returned v (q, p)) then 1 else 0) = 0.
Proof. unfold said_new, returned. simpl. intros [->| ->]; repeat case_decide; naive_solver. Qed.

(** ** The invariant of a run *)
Definition race_inv (vs0 : gmap str Attribute) (s : Race) : Prop :=
  forall v, tally (said_new v) (writers s) + present vs0 v
            = present (shared s) v + removed v (removals s).

Lemma step_inv vs0 s s' : step s s' -> race_inv vs0 s -> race_inv vs0 s'.
Proof.
  intros Hst Hinv v. specialize (Hinv v).
  destruct Hst as [s i q vs c b vw Hi Hf|s i q Hi Hf|s i q vs c b vw Hi Hf|s x Hx]; simpl.
  - apply fast_spec in Hf as (a & a' & Ha & -> & _ & -> & _).
    pose proof (tally_update (said_new v) _ i _ (q, Returned c false) Hi) as Hu.
    rewrite said_new_returned, (proj1 (waiting_not v q AtFast ltac:(tauto))) in Hu.
    rewrite present_insert. simpl in Hu.
    case_decide; [subst; rewrite (present_Some _ _ _ Ha) in Hinv|]; lia.
  - pose proof (tally_update (said_new v) _ i _ (q, AtSlow) Hi) as Hu.
    rewrite (proj1 (waiting_not v q AtFast ltac:(tauto))), (proj1 (waiting_not v q AtSlow ltac:(tauto))) in Hu.
    lia.
  - apply slow_spec in Hf as (a' & -> & _ & -> & _).
    pose proof (tally_update (said_new v) _ i _
      (q, Returned c (bool_decide (shared s !! q_value q = None))) Hi) as Hu.
    rewrite said_new_returned, (proj1 (waiting_not v q AtSlow ltac:(tauto))) in Hu.
    rewrite present_insert. case_decide; [|lia]. subst.
    destruct (shared s !! q_value q) eqn:E.
    + rewrite (present_Some _ _ _ E) in Hinv. rewrite bool_decide_eq_false_2 in Hu |- * by done.
      simpl in Hu. lia.
    + rewrite (present_None _ _ E) in Hinv. rewrite bool_decide_eq_true_2 in Hu |- * by done.
      simpl in Hu. lia.
  - destruct Hx as [a Ha]. unfold removed in *. rewrite filter_cons. case_decide as Hv; simpl.
    + subst. rewrite (present_Some _ _ _ Ha) in Hinv. rewrite (present_None (delete v (shared s))) by apply lookup_delete_eq. lia.
    + unfold present in *. rewrite lookup_delete_ne by done. lia.
Qed.

Lemma start_inv vs qs : race_inv vs (start vs qs).
Proof.
  intros v. unfold start. simpl. rewrite tally_none; [unfold removed; simpl; lia|].
  intros w (q & -> & _)%list_elem_of_fmap [_ []].
Qed.

Lemma reach_inv vs qs s : rtc step (start vs qs) s -> race_inv vs s.
Proof.
  intros Hr. remember (start vs qs) as s0 eqn:E. assert (H0 : race_inv vs s0) by (subst; apply start_inv).
  clear E. induction Hr; eauto using step_inv.
Qed.

(** ** Counts *)
Definition count_inv (vs0 : gmap str Attribute) (s : Race) : Prop :=
  removals s = [] ->
  forall v, stored (shared s) v = wrap64 (stored vs0 v + Z.of_nat (tally (returned v) (writers s))).

Lemma stored_insert vs v a v' :
  stored (<[v := a]> vs) v' = if decide (v = v') then count a else stored vs v'.
Proof. unfold stored. rewrite lookup_insert. by case_decide. Qed.

Lemma wrap64_succ z n : u64_add (wrap64 (z + Z.of_nat n)) 1 = wrap64 (z + Z.of_nat (n + 1)).
Proof. unfold u64_add, wrap64. rewrite Zplus_mod_idemp_l. f_equal. lia. Qed.

(** A call returns: its value's count and its tally go up together. *)
Lemma count_returned vs0 s i q p c b a' :
  writers s !! i = Some (q, p) -> p = AtFast \/ p = AtSlow ->
  count a' = u64_add (stored (shared s) (q_value q)) 1 -> count_inv vs0 s ->
  count_inv vs0 (mkRace (<[q_value q := a']> (shared s)) (<[i := (q, Returned c b)]> (writers s)) (removals s)).
Proof.
  intros Hi Hp Hc Hinv Hr v. specialize (Hinv Hr v). simpl.
  pose proof (tally_update (returned v) _ i _ (q, Returned c b) Hi) as Hu.
  rewrite returned_returned, (proj2 (waiting_not v q p Hp)) in Hu. rewrite stored_insert.
  case_decide as Hv.
  - subst. rewrite Hc, Hinv, wrap64_succ. do 2 f_equal. lia.
  - rewrite Hinv. do 2 f_equal. lia.
Qed.

Lemma step_count vs0 s s' : step s s' -> count_inv vs0 s -> count_inv vs0 s'.
Proof.
  intros Hst Hinv.
  destruct Hst as [s i q vs c b vw Hi Hf|s i q Hi Hf|s i q vs c b vw Hi Hf|s x Hx].
  - apply fast_spec in Hf as (a & a' & Ha & -> & _ & -> & Hc).
    eapply count_returned; eauto. rewrite Hc. unfold stored. by rewrite Ha.
  - intros Hr v. simpl. rewrite (Hinv Hr v).
    pose proof (tally_update (returned v) _ i _ (q, AtSlow) Hi) as Hu.
    rewrite (proj2 (waiting_not v q AtFast ltac:(tauto))), (proj2 (waiting_not v q AtSlow ltac:(tauto))) in Hu.
    do 2 f_equal. lia.
  - apply slow_spec in Hf as (a' & -> & _ & _ & Hc). eapply count_returned; eauto.
  - intros Hr. done.
Qed.

Lemma start_count vs qs :
  (forall v, is_u64 (stored vs v)) -> count_inv vs (start vs qs).
Proof.
  intros Hu _ v. unfold start. simpl. rewrite tally_none.
  - rewrite Z.add_0_r. by rewrite wrap64_id.
  - intros w (q & -> & _)%list_elem_of_fmap [_ []].
Qed.

Lemma stored_u64 vs v : is_u64 (stored vs v).
Proof. unfold stored. case_match; [apply count_range|done]. Qed.

Lemma reach_count vs qs s : rtc step (start vs qs) s -> count_inv vs s.
Proof.
  intros Hr. remember (start vs qs) as s0 eqn:E.
  assert (H0 : count_inv vs s0) by (subst; apply start_count, stored_u64).
  clear E. induction Hr; eauto using step_count.
Qed.

(** ** Properties *)

(** C19: however the critical sections of any number of writers and removals
    interleave, for every value the writers told "this was new" and the times
    it was removed account exactly for whether it is there now: a value absent
    at the start and never removed is reported new by exactly one writer as
    soon as it is there.  This is what makes one consensus count per namespace
    hold under concurrency. *)
Theorem new_reported_once vs qs s v :
  rtc step (start vs qs) s ->
  tally (said_new v) (writers s) + present vs v = present (shared s) v + removed v (removals s)
  /\ (vs !! v = None -> removals s = [] -> is_Some (shared s !! v) ->
      tally (said_new v) (writers s) = 1).
Proof.
  intros Hr. pose proof (reach_inv vs qs s Hr v) as Hi. split; [done|].
  intros Hn Hm [a Ha]. rewrite (present_None _ _ Hn), (present_Some _ _ _ Ha), Hm in Hi.
  unfold removed in Hi. simpl in Hi. lia.
Qed.

Definition racer (node : str) : Request := mkRequest node (lit "x") NANOS None 0 [].

(** Both writers miss, then both take the write lock. *)
Lemma both_slow : exists s, rtc step (start ∅ [racer (lit "a"); racer (lit "b")]) s
  /\ is_Some (shared s !! lit "x") /\ removals s = [].
Proof.
  eexists. split.
  { eapply rtc_l; [eapply (step_miss _ 0); reflexivity|].
    eapply rtc_l; [eapply (step_miss _ 1); reflexivity|].
    eapply rtc_l; [eapply (step_slow _ 0); reflexivity|].
    eapply rtc_l; [eapply (step_slow _ 1); reflexivity|]. apply rtc_refl. }
  split; [|reflexivity]. vm_compute. eauto.
Qed.

Lemma new_reported_once_witness :
  exists s, rtc step (start ∅ [racer (lit "a"); racer (lit "b")]) s
    /\ tally (said_new (lit "x")) (writers s) = 1.
Proof.
  destruct both_slow as (s & Hr & Hs & Hm). exists s. split; [exact Hr|].
  exact (proj2 (new_reported_once ∅ _ s (lit "x") Hr) eq_refl Hm Hs).
Defined.

(** C20: no sighting is lost in a race: with no removal, the stored count of
    every value is what it was plus the number of calls on it that returned
    (modulo [u64]); every step but a removal uses up one of the at most two
    turns of a call, and a run that cannot move has returned from every
    call. *)
Theorem no_lost_sighting vs qs s :
  rtc step (start vs qs) s ->
  (removals s = [] ->
   forall v, stored (shared s) v = wrap64 (stored vs v + Z.of_nat (tally (returned v) (writers s))))
  /\ (forall s', step s s' -> removals s' = removals s -> work s' < work s)
  /\ (work s = 0 \/ exists s', step s s' /\ removals s' = removals s).
Proof.
  intros Hr. split_and!.
  - exact (reach_count vs qs s Hr).
  - clear. intros s' Hst Hm.
    destruct Hst as [s i q vs c b vw Hi Hf|s i q Hi Hf|s i q vs c b vw Hi Hf|s x Hx]; unfold work; simpl.
    + pose proof (turns_update _ i _ (q, Returned c b) Hi). unfold turns in *. simpl in *. lia.
    + pose proof (turns_update _ i _ (q, AtSlow) Hi). unfold turns in *. simpl in *. lia.
    + pose proof (turns_update _ i _ (q, Returned c b) Hi). unfold turns in *. simpl in *. lia.
    + simpl in Hm. by apply (f_equal length), Nat.neq_succ_diag_l in Hm.
  - clear. destruct (decide (work s = 0)) as [|Hw]; [by left|right].
    assert (He : exists i q p, writers s !! i = Some (q, p) /\ (p = AtFast \/ p = AtSlow)).
    { revert Hw. unfold work. generalize (writers s). intros l. induction l as [|[q p] l IH]; [done|].
      simpl. intros Hw. destruct p.
      - exists 0, q, AtFast. auto.
      - exists 0, q, AtSlow. auto.
      - destruct IH as (i & q' & p & ? & ?); [done|]. exists (S i), q', p. done. }
    destruct He as (i & q & p & Hi & [-> | ->]).
    + destruct (fast s q) as [[vs [[c b] vw]]|] eqn:E; eexists; (split; [by econstructor|done]).
    + destruct (slow s q) as [vs [[c b] vw]] eqn:E. eexists; (split; [by econstructor|done]).
Qed.

Lemma no_lost_sighting_witness :
  exists s, rtc step (start ∅ [racer (lit "a"); racer (lit "b")]) s
    /\ stored (shared s) (lit "x") = wrap64 (Z.of_nat (tally (returned (lit "x")) (writers s))).
Proof.
  destruct both_slow as (s & Hr & Hs & Hm). exists s. split; [exact Hr|].
  exact (proj1 (no_lost_sighting ∅ _ s Hr) Hm (lit "x")).
Defined.
