(* ===== verification/Disk.v ===== *)
(** * What is on disk

    Models the reading and writing of one shard's file in
    [src/src/persistence.rs] ([read_shard], [check_version],
    [read_shard_file], [write_shard]) and the stored form of an attribute,
    which keeps whole seconds and no legacy fields ([serde] attributes of
    [src/src/attribute.rs]).  A directory is a map from file name to contents;
    compression and JSON are the libraries' and are taken to give back what was
    written, an unreadable file standing for everything that can go wrong. *)

From stdpp Require Import base numbers list strings gmap sorting.
From S2P Require Import Prelude Attribute AttributeFacts Paths.

Definition SNAPSHOT_VERSION : Z := 2.

(** A namespace's values, as the deserializer builds them. *)
Abbreviation NsData := (gmap str Attribute).
Abbreviation ShardNamespaces := (gmap str NsData).

Record SnapshotData := mkSnapshot { version : Z; sd_namespaces : ShardNamespaces }.

Inductive DiskFile := Readable (data : SnapshotData) | Unreadable.

Abbreviation Disk := (gmap str DiskFile).

(** [ts_seconds]: an instant is stored as whole seconds. *)
Definition floor_secs (t : Z) : Z := (timestamp t * NANOS)%Z.

(** An instant that is the epoch if it is in the epoch's second: any client's
    timestamp, any whole second, and the clock since 1970-01-01T00:00:01. *)
Definition plausible (t : Z) : Prop := timestamp t = 0%Z -> t = 0%Z.

(** Writing an attribute and reading it back. *)
Definition stored_attr (a : Attribute) : Attribute :=
  mkAttribute (value a) (floor_secs (first_seen a)) (floor_secs (last_seen a)) (counts a) (tags a)
    (tags_at a) (ttl a) (stats a) 0 ∅.

Definition stored_values (vs : NsData) : NsData := stored_attr <$> vs.

Inductive ReadError := TooNew (v : Z) | NoVersion | CannotRead.

Definition check_version (v : Z) : option ReadError :=
  if bool_decide (SNAPSHOT_VERSION < v)%Z then Some (TooNew v)
  else if bool_decide (v = 0%Z) then Some NoVersion
  else None.

(** [read_shard] and the version check that follows it. *)
Definition read_checked (f : DiskFile) : ShardNamespaces + ReadError :=
  match f with
  | Unreadable => inr CannotRead
  | Readable data =>
      match check_version (version data) with
      | Some e => inr e
      | None => inl (sd_namespaces data)
      end
  end.

Section Files.
Context (digest32 : str -> N).

Definition read_shard_file (disk : Disk) (shard : str) : ShardNamespaces + ReadError :=
  match disk !! shard_file digest32 shard with
  | None => inl ∅
  | Some f => read_checked f
  end.

(** [write_shard] once nothing failed: the temporary file has replaced the
    shard's. *)
Definition put_shard (disk : Disk) (shard : str) (data : ShardNamespaces) : Disk :=
  <[shard_file digest32 shard := Readable (mkSnapshot SNAPSHOT_VERSION (stored_values <$> data))]> disk.
End Files.

(** ** Whole seconds are all anyone sees *)
Lemma floor_secs_timestamp t : timestamp (floor_secs t) = timestamp t.
Proof. apply timestamp_whole. Qed.

Lemma floor_secs_idemp t : floor_secs (floor_secs t) = floor_secs t.
Proof. unfold floor_secs. by rewrite timestamp_whole. Qed.

Lemma plausible_whole s : plausible (s * NANOS).
Proof. unfold plausible. rewrite timestamp_whole. by intros ->. Qed.

Lemma plausible_min a b : plausible a -> plausible b -> plausible (Z.min a b).
Proof. intros. by destruct (Z.min_spec a b) as [[_ ->]|[_ ->]]. Qed.

Lemma floor_secs_mono a b : (a <= b -> floor_secs a <= floor_secs b)%Z.
Proof. intros Hab. pose proof (timestamp_mono a b Hab). unfold floor_secs, NANOS. lia. Qed.

Lemma floor_secs_min a b : floor_secs (Z.min a b) = floor_secs (Z.min (floor_secs a) b).
Proof. unfold floor_secs. by rewrite !timestamp_min, timestamp_whole. Qed.

Lemma floor_secs_max a b : floor_secs (Z.max a b) = floor_secs (Z.max (floor_secs a) b).
Proof. unfold floor_secs. by rewrite !timestamp_max, timestamp_whole. Qed.

Lemma stored_attr_idemp a : stored_attr (stored_attr a) = stored_attr a.
Proof. unfold stored_attr. simpl. by rewrite !floor_secs_idemp. Qed.

Lemma stored_attr_wf a : attr_wf a -> attr_wf (stored_attr a).
Proof. intros []. split; simpl; try done. by apply floor_secs_mono. Qed.

Lemma count_stored a : count (stored_attr a) = count a.
Proof. done. Qed.

Lemma is_expired_stored a now : is_expired (stored_attr a) now = is_expired a now.
Proof. unfold is_expired, expires_at. simpl. by rewrite floor_secs_timestamp. Qed.

Lemma view_stored a c s : view (stored_attr a) c s = view a c s.
Proof. unfold view. simpl. by rewrite !floor_secs_timestamp. Qed.

Lemma as_merge_stored a : as_merge (stored_attr a) = as_merge a.
Proof. unfold as_merge. simpl. by rewrite !floor_secs_timestamp. Qed.

Lemma migrate_stored a node : migrate (stored_attr a) node = stored_attr a.
Proof. by apply migrate_noop. Qed.

(** ** Round trip *)
Lemma read_put_shard digest32 disk shard data :
  read_shard_file digest32 (put_shard digest32 disk shard data) shard
  = inl (stored_values <$> data).
Proof. unfold read_shard_file, put_shard. by rewrite lookup_insert_eq. Qed.

Lemma read_put_other digest32 disk shard shard' data :
  shard_file digest32 shard <> shard_file digest32 shard' ->
  read_shard_file digest32 (put_shard digest32 disk shard data) shard'
  = read_shard_file digest32 disk shard'.
Proof. intros Hne. unfold read_shard_file, put_shard. by rewrite lookup_insert_ne. Qed.

(** A shard read back from its file is what was written, up to the
    sub-second part of the seen window, and no reader can tell the difference:
    counts, expiry, views with or without statistics and the payload offered to
    peers are the same for every value, loading it migrates nothing, and no
    other shard's file is affected. *)
Theorem shard_file_roundtrip digest32 disk shard other data name v a now c s node :
  shard_file digest32 shard <> shard_file digest32 other ->
  data !! name = Some v.2 -> v.2 !! v.1 = Some a ->
  let disk' := put_shard digest32 disk shard data in
  (exists data' vs' a', read_shard_file digest32 disk' shard = inl data'
     /\ dom data' = dom data /\ data' !! name = Some vs' /\ dom vs' = dom v.2
     /\ vs' !! v.1 = Some a'
     /\ count a' = count a /\ is_expired a' now = is_expired a now /\ view a' c s = view a c s
     /\ as_merge a' = as_merge a /\ migrate a' node = a')
  /\ read_shard_file digest32 disk' other = read_shard_file digest32 disk other.
Proof.
  intros Hne Hn Hv disk'. split; [|by apply read_put_other].
  eexists _, (stored_values v.2), (stored_attr a).
  split; [apply read_put_shard|].
  unfold stored_values. rewrite !dom_fmap_L, !lookup_fmap, Hn, Hv. split_and!; try done.
  - apply is_expired_stored.
  - apply view_stored.
  - apply as_merge_stored.
Qed.

Lemma shard_file_roundtrip_witness :
  exists data', read_shard_file (fun _ => 7%N)
    (put_shard (fun _ => 7%N) ∅ (lit "feeds") {[lit "feeds/misp" := {[lit "x" := demo_attr]}]}) (lit "feeds")
    = inl data' /\ dom data' = {[lit "feeds/misp"]}.
Proof.
  destruct (shard_file_roundtrip (fun _ => 7%N) ∅ (lit "feeds") (lit "other")
    {[lit "feeds/misp" := {[lit "x" := demo_attr]}]} (lit "feeds/misp") (lit "x", {[lit "x" := demo_attr]})
    demo_attr 0 0 false (lit "n1")) as [(d & vs & a & Hr & Hd & _) _];
    [vm_compute; discriminate|apply lookup_singleton_eq|apply lookup_singleton_eq|].
  exists d. split; [exact Hr|]. rewrite Hd. apply dom_singleton_L.
Defined.

(** A snapshot is refused exactly when its version is missing or newer than
    this build's; older versions are read. *)
Theorem version_gate (d : SnapshotData) :
  (0 <= version d)%Z ->
  (read_checked (Readable d) = inl (sd_namespaces d) <-> (1 <= version d <= SNAPSHOT_VERSION)%Z)
  /\ ((SNAPSHOT_VERSION < version d)%Z -> read_checked (Readable d) = inr (TooNew (version d)))
  /\ (version d = 0%Z -> read_checked (Readable d) = inr NoVersion).
Proof.
  intros Hv. unfold read_checked, check_version, SNAPSHOT_VERSION. repeat case_bool_decide; split_and!;
    try done; try lia; split; try done; lia.
Qed.

Lemma version_gate_witness :
  read_checked (Readable (mkSnapshot 1 ∅)) = inl ∅ /\ read_checked (Readable (mkSnapshot 3 ∅)) = inr (TooNew 3).
Proof.
  split.
  - apply (version_gate (mkSnapshot 1 ∅)); simpl; unfold SNAPSHOT_VERSION; lia.
  - apply (version_gate (mkSnapshot 3 ∅)); simpl; unfold SNAPSHOT_VERSION; lia.
Defined.
