(* ===== verification/Replicas.v ===== *)
(** * What a replica's copy of a value says

    A galaxy's servers each count their own sightings of a value and merge each
    other's copies ([Attribute::merge] of [src/src/attribute.rs]).  Given the
    history of the sightings, a copy is described by its counts alone: it is the
    summary of the first so many sightings of each server, as many as it has
    counted for it ([summarises]).  A write and a merge keep it one, and a merge
    learns all that either copy knew.  [Mirrors] takes this to whole servers. *)

From stdpp Require Import base numbers list strings gmap sorting.
From S2P Require Import Prelude Attribute AttributeFacts Convergence Disk Namespace.

(** ** Histories *)

(** One sighting: the server that took it, the value, when and with which tags. *)
Record Sighted := mkSighted { by_server : str; of_what : str; at_time : Z; with_tags : str }.

(** The sightings of [v] that [x] took, oldest first. *)
Definition said (h : list Sighted) (x v : str) : list Sighted :=
  filter (fun e => by_server e = x /\ of_what e = v) h.

(** How many of them a vector of counts claims. *)
Definition claimed (c : gmap str Z) (x : str) : nat := Z.to_nat (default 0%Z (c !! x)).

Definition known (h : list Sighted) (v : str) (c : gmap str Z) (e : Sighted) : Prop :=
  exists x, e ∈ take (claimed c x) (said h x v).

(** The first and the last second of a set of sightings. *)
Definition least (K : Sighted -> Prop) (f : Z) : Prop :=
  (forall e, K e -> f <= floor_secs (at_time e))%Z /\ exists e, K e /\ f = floor_secs (at_time e).
Definition greatest (K : Sighted -> Prop) (l : Z) : Prop :=
  (forall e, K e -> floor_secs (at_time e) <= l)%Z /\ exists e, K e /\ l = floor_secs (at_time e).

Record summarises `{Chrono} (h : list Sighted) (v : str) (a : Attribute) : Prop := {
  sm_counts : forall x c, counts a !! x = Some c -> (0 < c <= Z.of_nat (length (said h x v)))%Z;
  sm_some : exists x, is_Some (counts a !! x);
  sm_first : least (known h v (counts a)) (first_seen a);
  sm_last : greatest (known h v (counts a)) (last_seen a);
  sm_tags : forall t, t ∈ tag_set a <-> exists e, known h v (counts a) e /\ t ∈ tags_of (with_tags e);
  sm_plain : tags_at a = 0%Z /\ ttl a = 0%Z;
}.

(** The time of every sighting is one the wire can carry. *)
Definition carried `{Chrono} (h : list Sighted) : Prop :=
  Forall (fun e => is_Some (from_timestamp (timestamp (at_time e)))) h.

Section Summaries.
Context `{Chrono}.

Lemma length_filter_ext {A} (P Q : A -> Prop) `{!forall x, Decision (P x), !forall x, Decision (Q x)} (l : list A) :
  (forall x, x ∈ l -> P x <-> Q x) -> length (filter P l) = length (filter Q l).
Proof.
  induction l as [|x l IH]; intros Hl; [done|]. rewrite !filter_cons.
  pose proof (Hl x ltac:(left)). specialize (IH (fun y Hy => Hl y (list_elem_of_further _ _ _ Hy))).
  repeat case_decide; cbn [length]; tauto || lia.
Qed.

Lemma said_app h e x v :
  said (h ++ [e]) x v = said h x v ++ (if decide (by_server e = x /\ of_what e = v) then [e] else []).
Proof. unfold said. by rewrite filter_app. Qed.

Lemma elem_of_said h x v e : e ∈ said h x v <-> e ∈ h /\ by_server e = x /\ of_what e = v.
Proof. unfold said. rewrite list_elem_of_filter. tauto. Qed.

Lemma known_elem h v c e : known h v c e -> e ∈ h /\ of_what e = v.
Proof. intros (x & Hin%(subseteq_take _)%elem_of_said). tauto. Qed.

Lemma claimed_Some c x n : c !! x = Some n -> claimed c x = Z.to_nat n.
Proof. unfold claimed. by intros ->. Qed.

Lemma known_more h v c c' :
  (forall x, claimed c x <= claimed c' x) -> forall e, known h v c e -> known h v c' e.
Proof.
  intros Hle e (x & Hin). exists x.
  replace (take (claimed c x) (said h x v)) with (take (claimed c x) (take (claimed c' x) (said h x v))) in Hin
    by (rewrite take_take; f_equal; specialize (Hle x); lia).
  by eapply subseteq_take.
Qed.

(** Nothing is known twice: a copy claims no more sightings than there are. *)
Lemma total_said (h : list Sighted) (v : str) (m : gmap str Z) :
  (forall x c, m !! x = Some c -> (0 < c <= Z.of_nat (length (said h x v)))%Z) ->
  (0 <= map_total m <= Z.of_nat (length (filter (fun e => by_server e ∈ dom m) h)))%Z.
Proof.
  induction m as [|k c m Hk IH] using map_ind; intros Hm.
  { split; [done|]. apply Nat2Z.is_nonneg. }
  rewrite map_total_insert by done.
  assert (Hc := Hm k c ltac:(by rewrite lookup_insert_eq)).
  assert (Hi := IH ltac:(intros x d Hx; apply Hm; rewrite lookup_insert_ne; [done|congruence])).
  assert (Hsplit : forall l : list Sighted,
    length (filter (fun e => by_server e = k /\ of_what e = v) l) + length (filter (fun e => by_server e ∈ dom m) l)
    <= length (filter (fun e => by_server e ∈ dom (<[k := c]> m)) l)).
  { apply not_elem_of_dom in Hk. induction l as [|e l IHl]; [done|]. rewrite !filter_cons, dom_insert_L in *.
    repeat case_decide; cbn [length]; try lia; set_solver. }
  specialize (Hsplit h). unfold said in Hc. lia.
Qed.

Lemma total_all (h : list Sighted) (v : str) (m : gmap str Z) :
  (forall x c, m !! x = Some c -> c = Z.of_nat (length (said h x v))) ->
  map_total m = Z.of_nat (length (filter (fun e => by_server e ∈ dom m /\ of_what e = v) h)).
Proof.
  induction m as [|k c m Hk IH] using map_ind; intros Hm.
  { clear Hm. induction h as [|e h IHh]; [done|]. rewrite filter_cons_False; [done|]. set_solver. }
  rewrite map_total_insert by done. rewrite (Hm k c) by (by rewrite lookup_insert_eq).
  rewrite IH by (intros x d Hx; apply Hm; rewrite lookup_insert_ne; [done|congruence]).
  rewrite <- Nat2Z.inj_add. f_equal. apply not_elem_of_dom in Hk. clear Hm IH. unfold said.
  induction h as [|e h IHh]; [done|]. rewrite !filter_cons, dom_insert_L in *.
  repeat case_decide; cbn [length]; try lia; set_solver.
Qed.

Lemma summary_count h v a :
  (Z.of_nat (length h) < U64_MODULUS)%Z -> summarises h v a ->
  count a = map_total (counts a) /\ (0 < map_total (counts a) <= Z.of_nat (length h))%Z.
Proof.
  intros Hb [Hc [x [n Hx]] _ _ _ _].
  pose proof (total_said h v (counts a) Hc) as Ht.
  pose proof (length_filter (fun e => by_server e ∈ dom (counts a)) h) as Hl.
  assert (Hd := map_total_delete (counts a) x). rewrite Hx in Hd. cbn [default from_option id] in Hd.
  assert (Ht' : (0 <= map_total (delete x (counts a)))%Z).
  { refine (proj1 (total_said h v _ _)). intros y d [_ Hy]%lookup_delete_Some. by apply Hc. }
  pose proof (Hc _ _ Hx). split; [|lia]. unfold count. apply wrap64_id. unfold is_u64. lia.
Qed.

(** ** The history grows *)
Lemma claimed_le h v a x : summarises h v a -> claimed (counts a) x <= length (said h x v).
Proof.
  intros Hs. unfold claimed. destruct (counts a !! x) as [c|] eqn:E; [|simpl; lia].
  pose proof (sm_counts _ _ _ Hs _ _ E). simpl. lia.
Qed.

Lemma known_grow h e v a e' : summarises h v a -> known (h ++ [e]) v (counts a) e' <-> known h v (counts a) e'.
Proof.
  intros Hs. unfold known. apply exist_proper. intros x. rewrite said_app, take_app_le; [done|]. by apply claimed_le.
Qed.

Lemma summarises_grow h e v a : summarises h v a -> summarises (h ++ [e]) v a.
Proof.
  intros Hs. pose proof (fun e' => known_grow h e v a e' Hs) as Hk. destruct Hs as [H1 H2 H3 H4 H5 H6].
  split; try done; unfold least, greatest in *; try (setoid_rewrite Hk; done).
  intros x c Hx. specialize (H1 x c Hx). rewrite said_app, length_app. lia.
Qed.

(** ** A sighting of one's own *)

(** What a copy claims of a server, nothing when there is none. *)
Definition claims (o : option Attribute) (x : str) : nat :=
  match o with Some a => claimed (counts a) x | None => 0 end.

Definition fully_claims (h : list Sighted) (v : str) (o : option Attribute) (x : str) : Prop :=
  claims o x = length (said h x v).

Lemma claims_default o v x : claims o x = claimed (counts (default (new v) o)) x.
Proof. by destruct o. Qed.

Lemma known_write h x v w tgs o :
  let e := mkSighted x v w tgs in let a := default (new v) o in
  (forall b, o = Some b -> summarises h v b) -> fully_claims h v o x -> (Z.of_nat (length h) + 1 < U64_MODULUS)%Z ->
  let c := add_entry x 1 (counts a) in
  claimed c x = S (length (said h x v)) /\ (forall y, y <> x -> claimed c y = claimed (counts a) y)
  /\ forall e', known (h ++ [e]) v c e' <-> known h v (counts a) e' \/ e' = e.
Proof.
  intros e a Hs Hf Hb c. unfold fully_claims in Hf. rewrite (claims_default o v) in Hf. fold a in Hf.
  assert (Hlen : length (said h x v) <= length h) by apply length_filter.
  assert (Hpos : (0 <= default 0 (counts a !! x))%Z).
  { unfold a. destruct o as [b|]; [|done]. cbn [default from_option id].
    destruct (counts b !! x) as [n|] eqn:E; [|done]. pose proof (sm_counts _ _ _ (Hs b eq_refl) _ _ E). simpl. lia. }
  assert (Hx : claimed c x = S (length (said h x v))).
  { unfold claimed, c, add_entry. rewrite lookup_insert_eq. cbn [default from_option id].
    unfold claimed in Hf. unfold u64_add. rewrite wrap64_id; [lia|]. unfold is_u64. lia. }
  assert (Hy : forall y, y <> x -> claimed c y = claimed (counts a) y).
  { intros y Hy. unfold claimed, c, add_entry. by rewrite lookup_insert_ne. }
  split_and!; [done|done|]. intros e'.
  assert (Hle : forall y, claimed (counts a) y <= length (said h y v)).
  { intros y. unfold a. destruct o as [b|]; [|unfold claimed; cbn [default from_option counts new id]; rewrite lookup_empty; simpl; lia]. by apply claimed_le, Hs. }
  unfold known. split.
  - intros (y & Hin). destruct (decide (y = x)) as [->|Hne].
    + rewrite Hx, said_app, decide_True in Hin by done. rewrite take_ge in Hin by (rewrite length_app; simpl; lia).
      apply elem_of_app in Hin as [Hin| ->%list_elem_of_singleton]; [|by right]. left. exists x.
      by rewrite Hf, take_ge.
    + rewrite Hy, said_app, take_app_le in Hin by (done || apply Hle). left. by exists y.
  - intros [(y & Hin)| ->].
    + exists y. destruct (decide (y = x)) as [->|Hne].
      * rewrite Hf, take_ge in Hin by done. rewrite Hx, said_app. rewrite decide_True by done.
        rewrite take_ge by (rewrite length_app; simpl; lia). apply elem_of_app. by left.
      * rewrite Hy, said_app, take_app_le by (done || apply Hle). done.
    + exists x. rewrite Hx, said_app, decide_True by done. rewrite take_ge by (rewrite length_app; simpl; lia).
      apply elem_of_app. right. by apply list_elem_of_singleton.
Qed.

Lemma counts_new v x : counts (new v) !! x = None.
Proof. apply lookup_empty. Qed.

Lemma known_new h v e : ~ known h v (counts (new v)) e.
Proof. intros (x & Hin). unfold claimed in Hin. rewrite counts_new in Hin. by apply not_elem_of_nil in Hin. Qed.

Lemma write_attr_plain a x w keep tgs :
  let a' := write_attr a x w None keep tgs in
  counts a' = add_entry x 1 (counts a) /\ tag_set a' = tag_set a ∪ tags_of tgs
  /\ tags_at a' = tags_at a /\ ttl a' = ttl a /\ (first_seen a', last_seen a') = seen_window a w.
Proof.
  unfold write_attr. set (b := if is_empty tgs then a else add_tags a tgs).
  assert (Hb : counts b = counts a /\ tag_set b = tag_set a ∪ tags_of tgs /\ tags_at b = tags_at a /\ ttl b = ttl a
    /\ first_seen b = first_seen a /\ last_seen b = last_seen a).
  { unfold b. destruct (is_empty tgs) eqn:E.
    - destruct tgs; [|done]. split_and!; try done. change (tags_of []) with (∅ : gset str). set_solver.
    - destruct (add_tags_frame a tgs) as (_ & -> & -> & -> & -> & -> & _). by rewrite tag_set_add_tags. }
  destruct Hb as (B1 & B2 & B3 & B4 & B5 & B6).
  destruct (increment_fields b x w keep) as (F1 & F2 & _ & F3 & F4 & F5 & _).
  split_and!; [by rewrite F2, B1| |by rewrite F4|by rewrite F5|].
  - unfold tag_set at 1. rewrite F3. exact B2.
  - rewrite F1. unfold seen_window, count. by rewrite B1, B5, B6.
Qed.

Lemma floor_min a b : floor_secs (Z.min a b) = Z.min (floor_secs a) (floor_secs b).
Proof. unfold floor_secs. rewrite timestamp_min. unfold NANOS. lia. Qed.
Lemma floor_max a b : floor_secs (Z.max a b) = Z.max (floor_secs a) (floor_secs b).
Proof. unfold floor_secs. rewrite timestamp_max. unfold NANOS. lia. Qed.

Lemma least_ext K K' f : (forall e, K e <-> K' e) -> least K f -> least K' f.
Proof. intros HK [H1 (e & H2 & ->)]. split; [intros e' He'; by apply H1, HK|]. exists e. by rewrite <- HK. Qed.
Lemma greatest_ext K K' f : (forall e, K e <-> K' e) -> greatest K f -> greatest K' f.
Proof. intros HK [H1 (e & H2 & ->)]. split; [intros e' He'; by apply H1, HK|]. exists e. by rewrite <- HK. Qed.

Lemma least_join K1 K2 f1 f2 : least K1 f1 -> least K2 f2 -> least (fun e => K1 e \/ K2 e) (Z.min f1 f2).
Proof.
  intros [H1 (e1 & I1 & E1)] [H2 (e2 & I2 & E2)]. split.
  - intros e [He|He]; [specialize (H1 e He)|specialize (H2 e He)]; lia.
  - destruct (Z.min_spec f1 f2) as [[_ ->]|[_ ->]]; eauto.
Qed.
Lemma greatest_join K1 K2 f1 f2 : greatest K1 f1 -> greatest K2 f2 -> greatest (fun e => K1 e \/ K2 e) (Z.max f1 f2).
Proof.
  intros [H1 (e1 & I1 & E1)] [H2 (e2 & I2 & E2)]. split.
  - intros e [He|He]; [specialize (H1 e He)|specialize (H2 e He)]; lia.
  - destruct (Z.max_spec f1 f2) as [[_ ->]|[_ ->]]; eauto.
Qed.

Lemma least_one e : least (fun e' => e' = e) (floor_secs (at_time e)).
Proof. split; [by intros ? ->|eauto]. Qed.
Lemma greatest_one e : greatest (fun e' => e' = e) (floor_secs (at_time e)).
Proof. split; [by intros ? ->|eauto]. Qed.

Lemma least_floor K f : least K f -> floor_secs f = f.
Proof. intros [_ (e & _ & ->)]. apply floor_secs_idemp. Qed.
Lemma greatest_floor K f : greatest K f -> floor_secs f = f.
Proof. intros [_ (e & _ & ->)]. apply floor_secs_idemp. Qed.

Lemma summarises_write h x v w tgs keep o :
  (forall b, o = Some b -> summarises h v b) -> fully_claims h v o x -> (Z.of_nat (length h) + 1 < U64_MODULUS)%Z ->
  let a' := stored_attr (write_attr (default (new v) o) x w None keep tgs) in
  summarises (h ++ [mkSighted x v w tgs]) v a' /\ claimed (counts a') x = S (length (said h x v))
  /\ forall y, y <> x -> claimed (counts a') y = claims o y.
Proof.
  intros Hs Hf Hb a'. destruct (known_write h x v w tgs o Hs Hf Hb) as (Kx & Ky & Hk).
  set (a := default (new v) o) in *. set (e := mkSighted x v w tgs) in *.
  destruct (write_attr_plain a x w keep tgs) as (F1 & F2 & F3 & F4 & F5).
  assert (C1 : counts a' = add_entry x 1 (counts a)) by exact F1.
  split; [|rewrite C1; split; [done|intros y Hy; rewrite (claims_default o v); by apply Ky]].
  assert (Hwin : first_seen a' = floor_secs (seen_window a w).1 /\ last_seen a' = floor_secs (seen_window a w).2)
    by (rewrite <- F5; done).
  destruct Hwin as [W1 W2].
  assert (Hplain : tags_at a = 0%Z /\ ttl a = 0%Z) by (unfold a; destruct o as [b|]; [apply (Hs b eq_refl)|done]).
  assert (Htag : forall t, t ∈ tag_set a <-> exists e', known h v (counts a) e' /\ t ∈ tags_of (with_tags e')).
  { unfold a. destruct o as [b|]; [apply (Hs b eq_refl)|]. intros t. split; [intros Ht; by apply not_elem_of_empty in Ht|].
    intros (e' & []%known_new & _). }
  assert (Hcase : (seen_window a w = (w, w) /\ forall e', ~ known h v (counts a) e')
    \/ (seen_window a w = (Z.min (first_seen a) w, Z.max (last_seen a) w) /\ summarises h v a)).
  { unfold seen_window, a. destruct o as [b|]; [right|left; split; [done|apply known_new]].
    cbn [default from_option id]. destruct (summary_count h v b ltac:(lia) (Hs b eq_refl)) as [-> ?].
    rewrite bool_decide_eq_false_2 by lia. split; [done|by apply Hs]. }
  split; rewrite ?C1.
  - intros y c. destruct (decide (y = x)) as [->|Hy].
    + intros Hc. apply claimed_Some in Hc. rewrite Kx in Hc. rewrite said_app, length_app, decide_True by done. simpl. lia.
    + unfold add_entry. rewrite lookup_insert_ne by done. intros Hc. rewrite said_app, length_app. unfold a in Hc.
      destruct o as [b|]; [|cbn [default from_option counts new id] in Hc; by rewrite lookup_empty in Hc]. pose proof (sm_counts _ _ _ (Hs b eq_refl) _ _ Hc). lia.
  - exists x. unfold add_entry. rewrite lookup_insert_eq. by eexists.
  - rewrite W1. eapply least_ext; [intros e'; symmetry; apply Hk|]. destruct Hcase as [[-> Hno]|[-> Hsa]]; cbn [fst].
    + eapply least_ext, (least_one e). intros e'. specialize (Hno e'). tauto.
    + pose proof (sm_first _ _ _ Hsa) as Hf1. rewrite floor_min, (least_floor _ _ Hf1).
      by apply least_join, (least_one e).
  - rewrite W2. eapply greatest_ext; [intros e'; symmetry; apply Hk|]. destruct Hcase as [[-> Hno]|[-> Hsa]]; cbn [snd].
    + eapply greatest_ext, (greatest_one e). intros e'. specialize (Hno e'). tauto.
    + pose proof (sm_last _ _ _ Hsa) as Hf1. rewrite floor_max, (greatest_floor _ _ Hf1).
      by apply greatest_join, (greatest_one e).
  - intros t. setoid_rewrite Hk. change (tag_set a') with (tag_set (write_attr a x w None keep tgs)).
    rewrite F2, elem_of_union, Htag. unfold e. naive_solver.
  - split; [etransitivity; [exact F3|]|etransitivity; [exact F4|]]; tauto.
Qed.

(** ** A peer's copy *)
Lemma elem_of_take_max {A} (l : list A) m n x : x ∈ take (m `max` n) l <-> x ∈ take m l \/ x ∈ take n l.
Proof.
  assert (Hle : forall i j, i <= j -> x ∈ take i l -> x ∈ take j l).
  { intros i j Hij Hin. rewrite <- (Nat.min_l i j Hij), <- take_take in Hin. by eapply subseteq_take. }
  split.
  - destruct (Nat.max_spec m n) as [[_ ->]|[_ ->]]; auto.
  - intros [Hin|Hin]; (eapply Hle; [|exact Hin]); lia.
Qed.

(** The wire carries the window of a summary to the second, which is all it has. *)
Lemma carried_seen h v a t :
  carried h -> (exists e, known h v (counts a) e /\ t = floor_secs (at_time e)) -> from_timestamp (timestamp t) = Some t.
Proof.
  intros Hc (e & [Hin _]%known_elem & ->). unfold carried in Hc. rewrite Forall_forall in Hc.
  destruct (Hc e Hin) as [s Hs]. rewrite floor_secs_timestamp, Hs. apply from_timestamp_Some in Hs. by subst.
Qed.

Lemma merged_window h v a b x :
  carried h -> (Z.of_nat (length h) < U64_MODULUS)%Z -> summarises h v b ->
  (a = new v \/ summarises h v a) ->
  let a' := merged a (as_merge b) x in
  first_seen a' = (if bool_decide (count a = 0%Z) then first_seen b else Z.min (first_seen a) (first_seen b))
  /\ last_seen a' = (if bool_decide (count a = 0%Z) then last_seen b else Z.max (last_seen a) (last_seen b)).
Proof.
  intros Hc Hb Hs Ha a'. unfold a'. destruct (attr_merge_fields a (as_merge b) x) as (_ & _ & _ & -> & -> & _).
  destruct (sm_first _ _ _ Hs) as [_ Hf]. destruct (sm_last _ _ _ Hs) as [_ Hl].
  apply (carried_seen h v b _ Hc) in Hf, Hl. unfold as_merge. cbn [m_first_seen m_last_seen].
  destruct Ha as [->|Ha].
  - unfold merge_first, merge_last. by rewrite Hf, Hl.
  - destruct (summary_count h v a Hb Ha) as [E Hpos]. rewrite bool_decide_eq_false_2 by lia.
    rewrite unseen_false by lia. by rewrite (merge_first_false _ _ _ Hf), (merge_last_false _ _ _ Hl).
Qed.

Lemma merged_claims o v b x y :
  (forall c, counts b !! y = Some c -> 0 < c)%Z -> claimed (counts b) x <= claims o x ->
  claimed (join_max (counts (default (new v) o)) (delete x (counts b))) y = claims o y `max` claimed (counts b) y.
Proof.
  intros Hpos Hx. rewrite (claims_default o v) in *. unfold claimed in *. rewrite lookup_join_max, lookup_delete.
  destruct (decide (x = y)) as [->|Hxy]; [lia|]. destruct (counts b !! y) as [c|]; cbn [default from_option id]; lia.
Qed.

(** A copy, or the empty value a merge starts from where there is none. *)
Definition copy_or_new (h : list Sighted) (v : str) (o : option Attribute) (a : Attribute) : Prop :=
  a = new v /\ o = None \/ summarises h v a /\ o = Some a.

Lemma copy_or_new_intro h v o : (forall a, o = Some a -> summarises h v a) -> copy_or_new h v o (default (new v) o).
Proof. intros Hs. destruct o as [a|]; [right; auto|by left]. Qed.

Lemma copy_counts h v o a y c :
  copy_or_new h v o a -> counts a !! y = Some c -> (0 < c <= Z.of_nat (length (said h y v)))%Z.
Proof. intros [[-> _]|[Ha _]]; [by rewrite counts_new|by apply sm_counts]. Qed.

Lemma copy_plain h v o a : copy_or_new h v o a -> tags_at a = 0%Z /\ ttl a = 0%Z.
Proof. intros [[-> _]|[Ha _]]; [done|apply Ha]. Qed.

Lemma copy_tags h v o a t :
  copy_or_new h v o a -> t ∈ tag_set a <-> exists e, known h v (counts a) e /\ t ∈ tags_of (with_tags e).
Proof.
  intros [[-> _]|[Ha _]]; [|by apply sm_tags].
  split; [intros Ht; by apply not_elem_of_empty in Ht|intros (e & []%known_new & _)].
Qed.

Lemma copy_count h v o a :
  copy_or_new h v o a -> (Z.of_nat (length h) < U64_MODULUS)%Z ->
  if bool_decide (count a = 0%Z) then forall e, ~ known h v (counts a) e else summarises h v a.
Proof.
  intros [[-> _]|[Ha _]] Hb; [rewrite bool_decide_eq_true_2 by done; intros e; apply known_new|].
  destruct (summary_count h v a Hb Ha) as [E Hpos]. by rewrite bool_decide_eq_false_2 by lia.
Qed.

Lemma pulled_counts h x v o a b :
  copy_or_new h v o a -> summarises h v b -> claimed (counts b) x <= claims o x ->
  let c := join_max (counts a) (delete x (counts b)) in
  (forall y n, c !! y = Some n -> (0 < n <= Z.of_nat (length (said h y v)))%Z) /\ exists y, is_Some (c !! y).
Proof.
  intros Ha Hsb Hx c. unfold c. split.
  - intros y n Hc. rewrite lookup_join_max, lookup_delete in Hc.
    pose proof (fun d => copy_counts _ _ _ _ y d Ha) as Hay.
    case_decide; [by apply Hay|]. destruct (counts b !! y) as [d|] eqn:Ed; [|by apply Hay]. injection Hc as <-.
    pose proof (sm_counts _ _ _ Hsb _ _ Ed). destruct (counts a !! y) as [m|]; [specialize (Hay m eq_refl)|]; simpl; lia.
  - destruct (sm_some _ _ _ Hsb) as [y [n Hy]]. exists y. rewrite lookup_join_max, lookup_delete.
    case_decide as Exy; [|rewrite Hy; by eexists]. subst y.
    pose proof (sm_counts _ _ _ Hsb _ _ Hy). rewrite (claimed_Some _ _ _ Hy) in Hx. destruct Ha as [[_ ->]|[_ ->]].
    + simpl in Hx. lia.
    + unfold claims, claimed in Hx. destruct (counts a !! x); [by eexists|simpl in Hx; lia].
Qed.

Lemma summarises_merge h x v o b :
  carried h -> (Z.of_nat (length h) < U64_MODULUS)%Z ->
  (forall a, o = Some a -> summarises h v a) -> summarises h v b -> claimed (counts b) x <= claims o x ->
  let a' := stored_attr (merged (default (new v) o) (as_merge b) x) in
  summarises h v a' /\ forall y, claimed (counts a') y = claims o y `max` claimed (counts b) y.
Proof.
  intros Hca Hb Hs Hsb Hx a'. pose proof (copy_or_new_intro h v o Hs) as Ha. set (a := default (new v) o) in *.
  destruct (attr_merge_fields a (as_merge b) x) as (_ & Fc & _ & _ & _ & Ft & _ & Fr & _).
  destruct (merged_window h v a b x Hca Hb Hsb ltac:(unfold copy_or_new in Ha; tauto)) as [Ff Fl].
  assert (C1 : counts a' = join_max (counts a) (delete x (counts b))) by exact Fc.
  assert (Hcl : forall y, claimed (counts a') y = claims o y `max` claimed (counts b) y).
  { intros y. rewrite C1. apply merged_claims; [|done]. intros c Hc. pose proof (sm_counts _ _ _ Hsb _ _ Hc). lia. }
  assert (Hk : forall e, known h v (counts a') e <-> known h v (counts a) e \/ known h v (counts b) e).
  { intros e. unfold known. setoid_rewrite Hcl. setoid_rewrite elem_of_take_max. setoid_rewrite (claims_default o v).
    fold a. naive_solver. }
  destruct (copy_plain _ _ _ _ Ha) as [Ha1 Ha2]. destruct (sm_plain _ _ _ Hsb) as [Hb1 Hb2].
  assert (Hreg : reg a' = (0%Z, tag_set a ∪ tag_set b)).
  { change (reg a') with (reg (merged a (as_merge b) x)). rewrite Fr. unfold join_reg, reg, m_reg, as_merge. cbn.
    by rewrite Ha1, Hb1. }
  destruct (pulled_counts h x v o a b Ha Hsb Hx) as [Hc1 Hc2]. rewrite <- C1 in Hc1, Hc2.
  pose proof (copy_count _ _ _ _ Ha Hb) as Hcnt. pose proof (sm_first _ _ _ Hsb) as Bf. pose proof (sm_last _ _ _ Hsb) as Bl.
  split; [|exact Hcl]. split; [exact Hc1|exact Hc2|..].
  - eapply least_ext; [intros e; symmetry; apply Hk|].
    change (first_seen a') with (floor_secs (first_seen (merged a (as_merge b) x))). rewrite Ff. destruct (bool_decide _).
    + rewrite (least_floor _ _ Bf). eapply least_ext, Bf. intros e. specialize (Hcnt e). tauto.
    + rewrite floor_min, (least_floor _ _ Bf), (least_floor _ _ (sm_first _ _ _ Hcnt)). by apply least_join; [apply sm_first|].
  - eapply greatest_ext; [intros e; symmetry; apply Hk|].
    change (last_seen a') with (floor_secs (last_seen (merged a (as_merge b) x))). rewrite Fl. destruct (bool_decide _).
    + rewrite (greatest_floor _ _ Bl). eapply greatest_ext, Bl. intros e. specialize (Hcnt e). tauto.
    + rewrite floor_max, (greatest_floor _ _ Bl), (greatest_floor _ _ (sm_last _ _ _ Hcnt)).
      by apply greatest_join; [apply sm_last|].
  - intros t. setoid_rewrite Hk. change (tag_set a') with (reg a').2. rewrite Hreg. cbn [snd].
    rewrite elem_of_union, (sm_tags _ _ _ Hsb), (copy_tags _ _ _ _ t Ha). naive_solver.
  - split; [by change (tags_at a') with (reg a').1; rewrite Hreg|].
    change (ttl a') with (ttl (merged a (as_merge b) x)). rewrite Ft. unfold as_merge. cbn [m_ttl]. by rewrite Ha2, Hb2.
Qed.

(** ** Copies that know everything *)
Definition complete (h : list Sighted) (v : str) (a : Attribute) : Prop :=
  summarises h v a /\ forall x, claimed (counts a) x = length (said h x v).

Lemma complete_known h v a e : complete h v a -> known h v (counts a) e <-> e ∈ h /\ of_what e = v.
Proof.
  intros [_ Hc]. split; [apply known_elem|]. intros [Hin Hv]. exists (by_server e). rewrite Hc, take_ge by done.
  by apply elem_of_said.
Qed.

Lemma complete_lookup h v a x c :
  complete h v a -> counts a !! x = Some c <-> c = Z.of_nat (length (said h x v)) /\ (0 < c)%Z.
Proof.
  intros [Hs Hc]. specialize (Hc x). unfold claimed in Hc. split.
  - intros E. pose proof (sm_counts _ _ _ Hs _ _ E). rewrite E in Hc. simpl in Hc. lia.
  - intros [-> Hpos]. destruct (counts a !! x) as [n|] eqn:E; simpl in Hc; [|lia].
    pose proof (sm_counts _ _ _ Hs _ _ E). f_equal. lia.
Qed.

(** Its count is the number of the sightings, its window theirs, its tags theirs. *)
Lemma complete_exact h v a :
  complete h v a -> (Z.of_nat (length h) < U64_MODULUS)%Z ->
  count a = Z.of_nat (length (filter (fun e => of_what e = v) h))
  /\ least (fun e => e ∈ h /\ of_what e = v) (first_seen a)
  /\ greatest (fun e => e ∈ h /\ of_what e = v) (last_seen a)
  /\ (forall t, t ∈ tag_set a <-> exists e, e ∈ h /\ of_what e = v /\ t ∈ tags_of (with_tags e)).
Proof.
  intros Hc Hb. pose proof (fun e => complete_known h v a e Hc) as Hk. pose proof Hc as [Hs _]. split_and!.
  - destruct (summary_count h v a Hb Hs) as [-> _].
    rewrite (total_all h v) by (intros x c; rewrite (complete_lookup h v a) by done; tauto).
    f_equal. apply length_filter_ext. intros e He. split; [by intros [_ ?]|]. intros Hv. split; [|done].
    apply elem_of_dom. eexists. apply (complete_lookup h v a _ _ Hc). split; [done|].
    assert (Hin : e ∈ said h (by_server e) v) by by apply elem_of_said. destruct (said _ _ _); [by apply not_elem_of_nil in Hin|].
    simpl. lia.
  - eapply least_ext, Hs. exact Hk.
  - eapply greatest_ext, Hs. exact Hk.
  - intros t. rewrite (sm_tags _ _ _ Hs). setoid_rewrite Hk. naive_solver.
Qed.

(** Two copies that say the same. *)
Record agree (a b : Attribute) : Prop := {
  ag_counts : counts a = counts b; ag_count : count a = count b;
  ag_window : first_seen a = first_seen b /\ last_seen a = last_seen b;
  ag_tags : tag_set a = tag_set b /\ tags_at a = tags_at b; ag_ttl : ttl a = ttl b;
}.

Lemma complete_agree h v a b : complete h v a -> complete h v b -> agree a b.
Proof.
  intros Ha Hb.
  assert (Hc : counts a = counts b).
  { apply map_eq. intros x. apply option_eq. intros c. by rewrite (complete_lookup h v a), (complete_lookup h v b). }
  pose proof Ha as [Sa _]. pose proof Hb as [Sb _].
  destruct (sm_plain _ _ _ Sa) as [A1 A2], (sm_plain _ _ _ Sb) as [B1 B2].
  split; [done|unfold count; by rewrite Hc| |split; [|congruence]|congruence].
  - destruct (sm_first _ _ _ Sa) as [F1 (e1 & K1 & E1)], (sm_first _ _ _ Sb) as [F2 (e2 & K2 & E2)].
    destruct (sm_last _ _ _ Sa) as [L1 (e3 & K3 & E3)], (sm_last _ _ _ Sb) as [L2 (e4 & K4 & E4)].
    rewrite <- Hc in F2, L2, K2, K4. pose proof (F1 _ K2). pose proof (F2 _ K1). pose proof (L1 _ K4). pose proof (L2 _ K3).
    lia.
  - apply set_eq. intros t. rewrite (sm_tags _ _ _ Sa), (sm_tags _ _ _ Sb). by rewrite Hc.
Qed.
End Summaries.
