(* ===== verification/Database.v ===== *)
(** * The database

    Models [Database] of [src/src/db.rs]: the map of namespaces in memory, the
    catalogue of shards, the dirty set, the consensus tally kept in [_all], and
    every operation on them.  An operation is a function of the database and
    returns the new one, because even reads touch the catalogue and may page a
    shard in.  [now] is the clock and [disk] the directory the operation sees;
    a namespace handle ([Arc<Namespace>]) is the name it is filed under, and
    [held] is the set of names whose handles somebody else still has. *)

From stdpp Require Import base numbers list strings gmap sorting pretty.
From S2P Require Import Prelude Activity Latest Attribute AttributeFacts Paths Tier Namespace Disk.

Record DatabasePolicy := mkPolicy { stats_retention : nat; shadow_ttl : Z }.

Record ShardMeta := mkMeta {
  meta_namespaces : gset str;
  resident : bool;
  last_access : Z;
}.

Definition default_meta : ShardMeta := mkMeta ∅ false 0.

Record Store := mkStore { dbdir : str; level : Z }.

Record Database := mkDatabase {
  namespaces : gmap str Namespace;
  policy : DatabasePolicy;
  stores : StoragePolicy;
  node : str;
  dirty : gset str;
  shards : gmap str ShardMeta;
  store : option Store;
  tiers : TierPolicy;
  activity : Activity;
  latest : Latest;
}.

Record Written := mkWritten { written_count : Z; written_new : bool }.

Record WriteOpts := mkOpts { consensus : bool; opt_ttl : option Z }.
Definition default_opts : WriteOpts := mkOpts false None.

(** Assignments to one field. *)
Definition with_namespaces (db : Database) (m : gmap str Namespace) : Database :=
  mkDatabase m (policy db) (stores db) (node db) (dirty db) (shards db) (store db) (tiers db)
    (activity db) (latest db).
Definition with_dirty (db : Database) (d : gset str) : Database :=
  mkDatabase (namespaces db) (policy db) (stores db) (node db) d (shards db) (store db) (tiers db)
    (activity db) (latest db).
Definition with_shards (db : Database) (s : gmap str ShardMeta) : Database :=
  mkDatabase (namespaces db) (policy db) (stores db) (node db) (dirty db) s (store db) (tiers db)
    (activity db) (latest db).
Definition with_tiers (db : Database) (t : TierPolicy) : Database :=
  mkDatabase (namespaces db) (policy db) (stores db) (node db) (dirty db) (shards db) (store db) t
    (activity db) (latest db).
Definition with_activity (db : Database) (a : Activity) : Database :=
  mkDatabase (namespaces db) (policy db) (stores db) (node db) (dirty db) (shards db) (store db)
    (tiers db) a (latest db).
Definition with_latest (db : Database) (l : Latest) : Database :=
  mkDatabase (namespaces db) (policy db) (stores db) (node db) (dirty db) (shards db) (store db)
    (tiers db) (activity db) l.

(** Storing what an operation made of the namespace behind a handle. *)
Definition put_ns (db : Database) (name : str) (ns : Namespace) : Database :=
  with_namespaces db (<[name := ns]> (namespaces db)).

(** ** Construction *)
Definition with_node (p : DatabasePolicy) (s : StoragePolicy) (n : str) : Database :=
  mkDatabase ∅ p s n ∅ ∅ None default_policy default_activity default_latest.

(** The catalogue entry every namespace of a snapshot goes into. *)
Definition catalogue_snapshot (now : Z) (cat : gmap str ShardMeta) (name : str) : gmap str ShardMeta :=
  let meta := default default_meta (cat !! shard_of name) in
  <[shard_of name := mkMeta (meta_namespaces meta ∪ {[name]}) true (timestamp now)]> cat.

Section Snapshots.
Context `{HashOrder}.

Definition from_snapshot_as (data : SnapshotData) (p : DatabasePolicy) (s : StoragePolicy) (n : str)
    (now : Z) : Database :=
  let nss := (fun vs => from_values vs n) <$> sd_namespaces data in
  mkDatabase nss p s n ∅ (foldl (catalogue_snapshot now) ∅ (hash_keys nss)) None default_policy
    default_activity default_latest.

Definition legacy_apikeys (db : Database) : list str :=
  filter (fun key => key <> []) (omap (strip_prefix APIKEYS_NAMESPACE) (hash_keys (namespaces db))).

(** [Database::shards]: the shards with a namespace in memory. *)
Definition present_shards (db : Database) : gset str := list_to_set (shard_of <$> hash_keys (namespaces db)).
End Snapshots.

Definition attach_store (db : Database) (s : Store) (t : TierPolicy) : Database :=
  mkDatabase (namespaces db) (policy db) (stores db) (node db) (dirty db) (shards db) (Some s) t
    (activity db) (latest db).

(** ** The dirty set and the catalogue *)
Definition mark_shard_dirty (db : Database) (shard : str) : Database :=
  with_dirty db (dirty db ∪ {[shard]}).
Definition mark_dirty (db : Database) (namespace : str) : Database :=
  mark_shard_dirty db (shard_of namespace).
Definition take_dirty (db : Database) : Database * gset str := (with_dirty db ∅, dirty db).

Definition catalogued (db : Database) (shard name : str) : bool :=
  match shards db !! shard with
  | Some meta => negb (resident meta) && bool_decide (name ∈ meta_namespaces meta)
  | None => false
  end.

Definition namespace_exists (db : Database) (namespace : str) : bool :=
  bool_decide (is_Some (namespaces db !! namespace))
  || match shards db !! shard_of namespace with
     | Some meta => bool_decide (namespace ∈ meta_namespaces meta)
     | None => false
     end.

(** Forget a namespace in its shard's catalogue entry. *)
Definition uncatalogue (db : Database) (name : str) : Database :=
  match shards db !! shard_of name with
  | Some meta =>
      with_shards db (<[shard_of name :=
        mkMeta (meta_namespaces meta ∖ {[name]}) (resident meta) (last_access meta)]> (shards db))
  | None => db
  end.

(** The shadow retention rule of [record_write]. *)
Definition write_ttl (db : Database) (path : str) (t : option Z) : option Z :=
  match t with
  | Some t' => Some t'
  | None =>
      if starts_with SHADOW_PREFIX path && bool_decide (0 < shadow_ttl (policy db))%Z
      then Some (shadow_ttl (policy db)) else None
  end.

Section Operations.
Context `{Chrono} `{HashOrder} (digest32 : str -> N) (disk : Disk) (now : Z).

Definition touch (db : Database) (shard : str) : Database :=
  match shards db !! shard with
  | Some meta =>
      with_shards db (<[shard := mkMeta (meta_namespaces meta) (resident meta) (timestamp now)]> (shards db))
  | None => db
  end.

(** [Database::record]: note a namespace in the catalogue. *)
Definition catalogue (db : Database) (name : str) : Database :=
  let shard := shard_of name in
  let meta := default default_meta (shards db !! shard) in
  with_shards db (<[shard := mkMeta (meta_namespaces meta ∪ {[name]}) true (timestamp now)]> (shards db)).

Definition shard_resident (db : Database) (shard : str) : bool :=
  match shards db !! shard with Some meta => resident meta | None => false end.

Definition page_in (db : Database) (shard : str) : Database + ReadError :=
  match store db with
  | None => inl db
  | Some _ =>
      if shard_resident db shard then inl db
      else
        match read_shard_file digest32 disk shard with
        | inr e => inr e
        | inl data =>
            let db1 := with_namespaces db
                         (((fun vs => from_values vs (node db)) <$> data) ∪ namespaces db) in
            let meta := default default_meta (shards db !! shard) in
            inl (with_shards db1
                   (<[shard := mkMeta (meta_namespaces meta ∪ dom data) true (timestamp now)]> (shards db)))
        end
  end.

Definition namespace (db : Database) (name : str) : Database * option Namespace :=
  let shard := shard_of name in
  let db1 := touch db shard in
  match namespaces db1 !! name with
  | Some ns => (db1, Some ns)
  | None =>
      if negb (catalogued db1 shard name) then (db1, None)
      else
        match page_in db1 shard with
        | inr _ => (db1, None)
        | inl db2 => (db2, namespaces db2 !! name)
        end
  end.

Definition namespace_or_create (db : Database) (name : str) : Database * Namespace :=
  match namespace db name with
  | (db1, Some ns) => (db1, ns)
  | (db1, None) =>
      let shard := shard_of name in
      let evicted := match shards db1 !! shard with Some meta => negb (resident meta) | None => false end in
      let db2 := if evicted then match page_in db1 shard with inl d => d | inr _ => db1 end else db1 in
      let ns := default empty_namespace (namespaces db2 !! name) in
      (catalogue (put_ns db2 name ns) name, ns)
  end.

(** [Database::count] *)
Definition count_in (db : Database) (path v : str) : Database * Z :=
  let r := namespace db path in
  (r.1, match r.2 with Some ns => count_value ns v now | None => 0%Z end).

(** [Database::view] *)
Definition view_in (db : Database) (path v : str) (cons : Z) (with_stats : bool) :
    Database * option AttributeView :=
  let r := namespace db path in
  (r.1, match r.2 with Some ns => view_value ns v cons with_stats now | None => None end).

Definition merge_page_in (db : Database) (path : str) (off limit : nat) :
    Database * option (Page (str * Merge)) :=
  let r := namespace db path in
  (r.1, match r.2 with Some ns => Some (merge_page ns off limit now) | None => None end).

Definition merge_payload_in (db : Database) (path v : str) : Database * option Merge :=
  let r := namespace db path in
  (r.1, match r.2 with Some ns => merge_payload ns v now | None => None end).

(** ** Writing

    [record_write] calls itself once, for [_all] and without consensus; [bump]
    stands for that call. *)
Definition record_write_with (bump : Database -> str -> Z -> Database) (db : Database)
    (nd path v : str) (w : Z) (opts : WriteOpts) (tgs : str) : Database * Written :=
  let t := write_ttl db path (opt_ttl opts) in
  let r := namespace_or_create db path in
  let rec := record r.2 nd v w t (stats_retention (policy db)) tgs in
  let db1 := put_ns r.1 path rec.1 in
  let is_new := rec.2.1.2 in
  let db2 := if consensus opts && is_new then bump db1 v w else db1 in
  let db3 := (count_in db2 ALL_NAMESPACE v).1 in
  (mark_dirty db3 path, mkWritten rec.2.1.1 is_new).

(** [self.write(ALL_NAMESPACE, value, when, WriteOpts::default())] *)
Definition write_all (db : Database) (v : str) (w : Z) : Database :=
  (record_write_with (fun d _ _ => d) db (node db) ALL_NAMESPACE v w default_opts []).1.

Definition record_write (db : Database) (nd path v : str) (w : Z) (opts : WriteOpts) (tgs : str) :
    Database * Written :=
  record_write_with write_all db nd path v w opts tgs.

(** [write_tagged] and [write_tagged_as], and [write], which keeps the count. *)
Definition write_tagged_as := record_write.
Definition write_tagged (db : Database) (path v : str) (w : Z) (opts : WriteOpts) (tgs : str) :
    Database * Written := record_write db (node db) path v w opts tgs.
Definition write (db : Database) (path v : str) (w : Z) (opts : WriteOpts) : Database * Z :=
  let r := write_tagged db path v w opts [] in (r.1, written_count r.2).

(** [Database::merge] *)
Definition merge_in (db : Database) (path v : str) (incoming : Merge) : Database * Merged :=
  let r := namespace_or_create db path in
  let m := merge_value r.2 (node db) v incoming in
  let db1 := put_ns r.1 path m.1 in
  let db2 := if m.2.2 && counts_towards_consensus path then (write db1 ALL_NAMESPACE v now default_opts).1
             else db1 in
  (if changed m.2.1 then mark_dirty db2 path else db2, m.2.1).

(** The two loops of [set_consensus]. *)
Definition set_counts_to (nd : str) (st : Namespace * nat) (p : str * gset str) : Namespace * nat :=
  let r := set_count st.1 nd p.1 (Z.of_nat (size p.2)) now in
  (r.1, if r.2 then S st.2 else st.2).
Definition clear_unseen (nd : str) (holders : gmap str (gset str)) (st : Namespace * nat) (v : str) :
    Namespace * nat :=
  if bool_decide (is_Some (holders !! v)) then st
  else
    let r := set_count st.1 nd v 0 now in
    (r.1, if r.2 then S st.2 else st.2).

Definition set_consensus (db : Database) (holders : gmap str (gset str)) : Database * nat :=
  let r := namespace_or_create db ALL_NAMESPACE in
  let st1 := foldl (set_counts_to (node db)) (r.2, 0) (hash_iter holders) in
  let st2 := foldl (clear_unseen (node db) holders) st1 (value_names st1.1) in
  let db1 := put_ns r.1 ALL_NAMESPACE st2.1 in
  (if bool_decide (0 < st2.2) then mark_dirty db1 ALL_NAMESPACE else db1, st2.2).

(** [Database::set_tags] *)
Definition set_tags_in (db : Database) (path v tgs : str) : Database * bool :=
  let r := namespace db path in
  match r.2 with
  | None => (r.1, false)
  | Some ns =>
      let t := retag ns v tgs now in
      let db1 := put_ns r.1 path t.1 in
      (if t.2 then mark_dirty db1 path else db1, t.2)
  end.

Definition create_namespace (db : Database) (name : str) : Database * bool :=
  if namespace_exists db name then (db, false)
  else (mark_dirty (namespace_or_create db name).1 name, true).

(** ** Giving consensus back *)
Definition release_consensus (db : Database) (v : str) : Database :=
  let r := namespace db ALL_NAMESPACE in
  match r.2 with
  | Some all => put_ns r.1 ALL_NAMESPACE (release all (node db) v)
  | None => r.1
  end.

(** [Database::delete] *)
Definition delete_namespace (db : Database) (name : str) : Database * bool :=
  let r := namespace db name in
  match r.2 with
  | None => (r.1, false)
  | Some ns =>
      let vs := value_names ns in
      let removed := bool_decide (is_Some (namespaces r.1 !! name)) in
      let db1 := with_namespaces r.1 (delete name (namespaces r.1)) in
      let db2 := if removed then uncatalogue (mark_dirty db1 name) name else db1 in
      let db3 := if removed && counts_towards_consensus name then foldl release_consensus db2 vs else db2 in
      (if removed then with_latest db3 (Latest.forget_namespace (latest db3) name) else db3, removed)
  end.

Record SweepReport := mkSweep { values_removed : nat; namespaces_removed : nat }.

(** One namespace of a sweep: database, values removed, namespaces emptied. *)
Definition sweep_one (st : Database * nat * list str) (name : str) : Database * nat * list str :=
  let '(db, removed, emptied) := st in
  if starts_with CONFIG_PREFIX name then st
  else
    match namespaces db !! name with
    | None => st
    | Some ns =>
        let r := remove_expired ns now in
        let db1 := put_ns db name r.1 in
        let gone := negb (is_empty r.2) in
        let db2 := if gone then mark_dirty db1 name else db1 in
        let emptied' := if gone && ns_is_empty r.1 then emptied ++ [name] else emptied in
        let db3 := if counts_towards_consensus name then foldl release_consensus db2 r.2 else db2 in
        (db3, removed + length r.2, emptied')
    end.

(** One name of [prune_empty]: reclaimed when empty and held by nobody else. *)
Definition prune_one (held : gset str) (st : Database * list str) (name : str) : Database * list str :=
  let '(db, removed) := st in
  if starts_with CONFIG_PREFIX name then st
  else
    match namespaces db !! name with
    | Some ns =>
        if negb (bool_decide (name ∈ held)) && ns_is_empty ns
        then (with_namespaces db (delete name (namespaces db)), removed ++ [name])
        else st
    | None => st
    end.

Definition prune_empty (held : gset str) (db : Database) (emptied : list str) : Database * nat :=
  let r := foldl (prune_one held) (db, []) emptied in
  (foldl uncatalogue r.1 r.2, length r.2).

Definition sweep (held : gset str) (db : Database) : Database * SweepReport :=
  let '(db1, removed, emptied) := foldl sweep_one (db, 0, []) (hash_keys (namespaces db)) in
  let r := prune_empty held db1 emptied in
  (r.1, mkSweep removed r.2).
End Operations.
