(* ===== verification/Persistence.v ===== *)
(** * Saving, loading and evicting

    Models [save], [load], [write_shard], [save_shard] and the two JSON files
    of [src/src/persistence.rs], the serialization of one shard, and the
    eviction of idle shards, [evict_idle] and [drop_shard] of [src/src/db.rs].
    Which writes and removals fail is up to [fails]; a file is replaced whole or
    not at all, as a rename does. *)

From stdpp Require Import base numbers list strings gmap sorting.
From S2P Require Import Prelude Activity Latest Attribute AttributeFacts Paths Tier Namespace Disk Database.

(** ** The directory *)
Record Directory := mkDirectory {
  shard_files : Disk;
  legacy_file : option DiskFile;
  activity_file : option (gmap str Series);
  latest_file : option (list Latest.Entry);
}.

Definition empty_directory : Directory := mkDirectory ∅ None None None.

Definition with_shard_files (d : Directory) (f : Disk) : Directory :=
  mkDirectory f (legacy_file d) (activity_file d) (latest_file d).

(** What is being written or removed, for saying what fails. *)
Inductive Target := ShardTarget (shard : str) | ActivityTarget | LatestTarget | StaleTarget (shard : str).

Record SaveReport := mkSave { shards_written : nat; shards_skipped : nat }.
Record EvictReport := mkEvict { evicted : nat; busy : nat; failed : nat }.

(** [ShardSnapshot]: the namespaces of one shard in memory. *)
Definition shard_snapshot (db : Database) (shard : str) : ShardNamespaces :=
  values <$> filter (fun p => shard_of p.1 = shard) (namespaces db).

Section Saving.
Context `{HashOrder} (digest32 : str -> N) (fails : Target -> bool).

Definition write_shard (db : Database) (disk : Disk) (shard : str) : option Disk :=
  if fails (ShardTarget shard) then None
  else Some (put_shard digest32 disk shard (shard_snapshot db shard)).

(** [save_shard] creates the directory first, which the model has. *)
Definition save_shard := write_shard.

(** The loop of [save] over the shards present; stops at the first failure,
    whose shard goes back to the dirty set. *)
Fixpoint save_loop (all : bool) (was_dirty : gset str) (present : list str) (db : Database) (disk : Disk)
    (r : SaveReport) : Database * Disk * option SaveReport :=
  match present with
  | [] => (db, disk, Some r)
  | shard :: rest =>
      if negb all && negb (bool_decide (shard ∈ was_dirty)) then
        save_loop all was_dirty rest db disk (mkSave (shards_written r) (S (shards_skipped r)))
      else
        match write_shard db disk shard with
        | Some disk' =>
            save_loop all was_dirty rest db disk' (mkSave (S (shards_written r)) (shards_skipped r))
        | None => (mark_shard_dirty db shard, disk, None)
        end
  end.

(** Files of shards that have no namespace left.  A file that cannot be removed
    stays, and the save succeeds all the same. *)
Definition remove_stale (disk : Disk) (stale : list str) : Disk :=
  foldl (fun d shard => if fails (StaleTarget shard) then d else delete (shard_file digest32 shard) d) disk stale.

(** The two [if let] of [save] that write the JSON files; [false] is a failed
    write, which is put back for the next save. *)
Definition save_activity (all : bool) (db : Database) (d : Directory) : Database * Directory * bool :=
  let s := Activity.take_snapshot (activity db) all in
  match s.2 with
  | None => (with_activity db s.1, d, true)
  | Some data =>
      if fails ActivityTarget then (with_activity db (Activity.mark_dirty s.1), d, false)
      else (with_activity db s.1, mkDirectory (shard_files d) (legacy_file d) (Some data) (latest_file d), true)
  end.

Definition save_latest (all : bool) (db : Database) (d : Directory) : Database * Directory * bool :=
  let s := Latest.take_snapshot (latest db) all in
  match s.2 with
  | None => (with_latest db s.1, d, true)
  | Some data =>
      if fails LatestTarget then (with_latest db (Latest.mark_dirty s.1), d, false)
      else (with_latest db s.1, mkDirectory (shard_files d) (legacy_file d) (activity_file d) (Some data), true)
  end.

Definition save (db : Database) (d : Directory) (all : bool) : Database * Directory * option SaveReport :=
  let present := present_shards db in
  let '(db0, was_dirty) := take_dirty db in
  match save_loop all was_dirty (hash_elems present) db0 (shard_files d) (mkSave 0 0) with
  | (db1, disk1, None) => (db1, with_shard_files d disk1, None)
  | (db1, disk1, Some r) =>
      match save_activity all db1 (with_shard_files d disk1) with
      | (db2, d2, false) => (db2, d2, None)
      | (db2, d2, true) =>
          match save_latest all db2 d2 with
          | (db3, d3, false) => (db3, d3, None)
          | (db3, d3, true) =>
              (db3, with_shard_files d3 (remove_stale (shard_files d3) (hash_elems (was_dirty ∖ present))), Some r)
          end
      end
  end.

(** ** Loading *)
Fixpoint load_files (acc : ShardNamespaces) (files : list DiskFile) : ShardNamespaces + ReadError :=
  match files with
  | [] => inl acc
  | f :: rest =>
      match read_checked f with
      | inl data => load_files (data ∪ acc) rest
      | inr e => inr e
      end
  end.

(** The single-file snapshot first, then every shard file in order of name. *)
Definition load (d : Directory) : option SnapshotData + ReadError :=
  let files := (match legacy_file d with Some f => [f] | None => [] end)
               ++ (btree_iter (shard_files d)).*2 in
  match load_files ∅ files with
  | inr e => inr e
  | inl data => inl (if is_empty files then None else Some (mkSnapshot SNAPSHOT_VERSION data))
  end.

(** ** Evicting *)

(** [u64 as i64] *)
Definition i64_cast (u : Z) : Z := if bool_decide (u <= I64_MAX)%Z then u else (u - U64_MODULUS)%Z.

(** Whether a shard has been idle longer than its tier allows. *)
Definition idle_too_long (t : TierPolicy) (now : Z) (shard : str) (meta : ShardMeta) : bool :=
  resident meta
  && match idle_allowance t shard with
     | None => false
     | Some allowance => bool_decide (i64_cast allowance <= i64_saturating_sub now (last_access meta))%Z
     end.

(** Keep nothing of a shard in memory, unless one of its namespaces is held. *)
Definition drop_shard (held : gset str) (db : Database) (shard : str) : Database * bool :=
  let mine := filter (fun name => shard_of name = shard) (hash_keys (namespaces db)) in
  if existsb (fun name => bool_decide (name ∈ held)) mine then (db, false)
  else
    let db1 := with_namespaces db (foldl (fun m name => delete name m) (namespaces db) mine) in
    match shards db1 !! shard with
    | Some meta =>
        (with_shards db1 (<[shard := mkMeta (meta_namespaces meta) false (last_access meta)]> (shards db1)), true)
    | None => (db1, true)
    end.

(** One candidate of [evict_idle].  First it is written, if it is marked; *)
Definition evict_save (db : Database) (disk : Disk) (shard : str) : option Disk :=
  if bool_decide (shard ∈ dirty db) then save_shard db disk shard else Some disk.

(** then, the locks of the first half released, the mark goes and the shard. *)
Definition evict_drop (held : gset str) (db : Database) (shard : str) : Database * bool :=
  drop_shard held (with_dirty db (dirty db ∖ {[shard]})) shard.

Definition evict_one (held : gset str) (st : Database * Disk * EvictReport) (shard : str) :
    Database * Disk * EvictReport :=
  let '(db, disk, r) := st in
  match evict_save db disk shard with
  | None => (db, disk, mkEvict (evicted r) (busy r) (S (failed r)))
  | Some disk' =>
      let q := evict_drop held db shard in
      (q.1, disk', if q.2 then mkEvict (S (evicted r)) (busy r) (failed r)
                   else mkEvict (evicted r) (S (busy r)) (failed r))
  end.

Definition evict_candidates (db : Database) (now : Z) : list str :=
  (filter (fun p => idle_too_long (tiers db) now p.1 p.2 = true) (hash_iter (shards db))).*1.

Definition evict_idle (held : gset str) (db : Database) (d : Directory) (now : Z) :
    Database * Directory * EvictReport :=
  match store db with
  | None => (db, d, mkEvict 0 0 0)
  | Some _ =>
      let '(db', disk', r) :=
        foldl (evict_one held) (db, shard_files d, mkEvict 0 0 0) (evict_candidates db now) in
      (db', with_shard_files d disk', r)
  end.
End Saving.
