(* ===== verification/Contents.v ===== *)
(** * What the database holds, in memory or not

    The abstract view of a [Database]: every namespace that exists, resident or
    evicted, with its values to the second, as one finite map.  The lemmas show
    that fetching a namespace, which touches the catalogue and may page a shard
    in, never changes it, and what creating and updating one does. *)

From stdpp Require Import base numbers list strings gmap sorting.
From S2P Require Import Prelude Activity Latest Attribute AttributeFacts Convergence Paths Tier Namespace Disk Database.

(** ** Namespaces without leftovers of an older build

    Every value of theirs was first seen at the epoch exactly, as nothing has
    been counted yet, or later than the epoch's second. *)
Record ns_ok (ns : Namespace) : Prop := {
  ok_wf : ns_wf ns;
  ok_legacy : forall v a, values ns !! v = Some a ->
    legacy_count a = 0%Z /\ legacy_stats a = ∅ /\ plausible (first_seen a);
}.

Definition data_ok (data : ShardNamespaces) : Prop :=
  forall name vs v a, data !! name = Some vs -> vs !! v = Some a ->
    attr_wf a /\ value a = v /\ plausible (first_seen a).

Lemma migrate_first a node : first_seen (migrate a node) = first_seen a.
Proof. unfold migrate. by repeat case_bool_decide. Qed.

Lemma migrate_legacy a node :
  attr_wf a -> legacy_count (migrate a node) = 0%Z /\ legacy_stats (migrate a node) = ∅.
Proof.
  intros Ha. pose proof (wf_legacy_count a Ha) as [? ?]. unfold migrate.
  set (a1 := if bool_decide (0 < legacy_count a)%Z then _ else a).
  assert (Hc : legacy_count a1 = 0%Z) by (subst a1; case_bool_decide; simpl; [done|lia]).
  case_bool_decide as Hs; simpl; done.
Qed.

Lemma from_values_ok vs node :
  (forall v a, vs !! v = Some a -> attr_wf a /\ value a = v /\ plausible (first_seen a)) ->
  ns_ok (from_values vs node).
Proof.
  intros Hvs. split; [apply from_values_wf; intros v a Ha; split; apply (Hvs v a Ha)|]. simpl.
  intros v a (b & <- & Hb)%lookup_fmap_Some. destruct (Hvs v b Hb) as (Hw & _ & Hp).
  rewrite migrate_first. destruct (migrate_legacy b node Hw). done.
Qed.

Lemma empty_ns_ok : ns_ok empty_namespace.
Proof. split; [apply empty_namespace_wf|]. intros v a Ha. simpl in Ha. simplify_map_eq. Qed.

(** The abstract state: every namespace with its values. *)
Abbreviation Abs := (gmap str NsData).

(** The fields nothing below assigns. *)
Definition same_config (db db' : Database) : Prop :=
  policy db' = policy db /\ stores db' = stores db /\ node db' = node db /\ store db' = store db
  /\ tiers db' = tiers db /\ activity db' = activity db /\ latest db' = latest db.

#[export] Instance same_config_trans : Transitive same_config.
Proof. intros a b c. unfold same_config. intuition congruence. Qed.
#[export] Instance same_config_refl : Reflexive same_config.
Proof. intros a. unfold same_config. tauto. Qed.

(** Two databases with the same namespaces and the same catalogue, up to the
    times of the last access and what is dirty. *)
Record same_data (db db' : Database) : Prop := {
  sd_ns : namespaces db' = namespaces db;
  sd_config : same_config db db';
  sd_shards : forall s, (fun m => (meta_namespaces m, resident m)) <$> shards db' !! s
                = (fun m => (meta_namespaces m, resident m)) <$> shards db !! s;
}.

(** Small facts about sets of shards. *)
Lemma sub_pair_l (a b : str) : ({[a]} : gset str) ⊆ {[a; b]}.
Proof. set_solver. Qed.
Lemma sub_pair_r (a b : str) : ({[b]} : gset str) ⊆ {[a; b]}.
Proof. set_solver. Qed.
Lemma sub_empty (X : gset str) : ∅ ⊆ X.
Proof. set_solver. Qed.
Lemma in_union_r (X : gset str) a : a ∈ X ∪ {[a]}.
Proof. set_solver. Qed.
Lemma sub_same_pair (a : str) : ({[a; a]} : gset str) ⊆ {[a]}.
Proof. set_solver. Qed.
#[export] Hint Resolve sub_pair_l sub_pair_r sub_empty in_union_r sub_same_pair : sdb.

(** What an operation other than an eviction may have changed: the namespaces
    and residency of the shards in [S]; what was dirty or resident stays so, and
    what it marked dirty is resident; no shard leaves the catalogue, and no
    namespace leaves memory without its shard being marked. *)
Record touches (S : gset str) (db db' : Database) : Prop := {
  t_node : node db' = node db;
  t_store : store db' = store db;
  t_ns : forall n, shard_of n ∉ S -> namespaces db' !! n = namespaces db !! n;
  t_shards : forall s, s ∉ S -> resident <$> shards db' !! s = resident <$> shards db !! s;
  t_dirty : dirty db ⊆ dirty db';
  t_stays : forall s, shard_resident db s = true -> shard_resident db' s = true;
  t_marked : forall s, s ∈ dirty db' -> s ∈ dirty db \/ shard_resident db' s = true;
  t_kept : dom (shards db) ⊆ dom (shards db');
  t_gone : forall n, is_Some (namespaces db !! n) -> is_Some (namespaces db' !! n) \/ shard_of n ∈ dirty db';
}.

Lemma touches_refl S db : touches S db db.
Proof. split; auto. Qed.

Lemma touches_trans S1 S2 S db1 db2 db3 :
  touches S1 db1 db2 -> touches S2 db2 db3 -> S1 ⊆ S -> S2 ⊆ S -> touches S db1 db3.
Proof.
  intros [A1 A2 A3 A4 A5 A6 A7 A8 A9] [B1 B2 B3 B4 B5 B6 B7 B8 B9] HS1 HS2.
  split; [congruence|congruence| | |set_solver|auto| |by etransitivity|].
  - intros n Hn. rewrite B3, A3 by set_solver. done.
  - intros s Hs. rewrite B4, A4 by set_solver. done.
  - intros s [Hs|Hs]%B7; [|by right]. destruct (A7 s Hs); auto.
  - intros n [Hn|Hn]%A9; [by apply B9|]. right. by apply B5.
Qed.

Lemma touches_weaken S S' db db' : touches S db db' -> S ⊆ S' -> touches S' db db'.
Proof. intros Ht HS. eapply touches_trans; [exact Ht|apply (touches_refl S)|done|done]. Qed.

Lemma shard_resident_fmap db s : shard_resident db s = default false (resident <$> shards db !! s).
Proof. unfold shard_resident. by destruct (shards db !! s). Qed.

Lemma same_data_resident db db' s : same_data db db' -> resident <$> shards db' !! s = resident <$> shards db !! s.
Proof.
  intros [_ _ Hs]. specialize (Hs s). destruct (shards db' !! s), (shards db !! s); simpl in *; try done.
  injection Hs as _ E. by rewrite E.
Qed.

Lemma same_data_touches S db db' :
  same_data db db' -> dirty db ⊆ dirty db' ->
  (forall s, s ∈ dirty db' -> s ∈ dirty db \/ shard_resident db' s = true) -> touches S db db'.
Proof.
  intros Hsd Hd Hm. pose proof (fun s => same_data_resident db db' s Hsd) as Hr.
  destruct Hsd as [Hn (_ & _ & Hnd & Hst & _) Hs]. split; [done|done|by intros; rewrite Hn|auto|done| |done| |].
  - intros s. by rewrite !shard_resident_fmap, Hr.
  - intros s. specialize (Hr s). rewrite !elem_of_dom. intros [m Em]. rewrite Em in Hr. by destruct (shards db' !! s).
  - intros n. rewrite Hn. by left.
Qed.

Lemma same_data_shard db db' s m :
  same_data db db' -> shards db' !! s = Some m ->
  exists m', shards db !! s = Some m' /\ meta_namespaces m = meta_namespaces m'
             /\ resident m = resident m'.
Proof.
  intros [_ _ Hs] Hm. specialize (Hs s). rewrite Hm in Hs. symmetry in Hs. simpl in Hs.
  apply fmap_Some in Hs as (m' & Hm' & He). exists m'. naive_solver.
Qed.

Lemma same_data_sym db db' : same_data db db' -> same_data db' db.
Proof. intros [Hn Hc Hs]. split; [done| |intros; by rewrite Hs]. unfold same_config in *. intuition congruence. Qed.

Lemma same_data_catalogued db db' s n : same_data db db' -> catalogued db' s n = catalogued db s n.
Proof.
  intros [_ _ Hs]. specialize (Hs s). unfold catalogued.
  destruct (shards db' !! s) as [m'|], (shards db !! s) as [m|]; simpl in Hs; try done.
  injection Hs as E1 E2. by rewrite E1, E2.
Qed.

Lemma mark_dirty_same db n : same_data db (mark_dirty db n).
Proof. by split. Qed.

Lemma put_ns_touches db name ns : touches {[shard_of name]} db (put_ns db name ns).
Proof.
  split; try done; [|by left|].
  - intros n Hn. simpl. rewrite lookup_insert_ne; [done|]. intros ->. set_solver.
  - intros n Hn. left. simpl. rewrite lookup_insert. case_decide; [by eexists|done].
Qed.

Lemma mark_dirty_touches S db name :
  shard_resident db (shard_of name) = true -> touches S db (mark_dirty db name).
Proof.
  intros Hr. apply same_data_touches; [apply mark_dirty_same|..]; unfold mark_dirty, mark_shard_dirty; simpl.
  - set_solver.
  - intros s [Hs|Hs%elem_of_singleton]%elem_of_union; [by left|right]. by subst.
Qed.

Section Contents.
Context `{HashOrder} (digest32 : str -> N) (disk : Disk).

(** The values of a namespace: those in memory, or those its shard's file
    would be paged in with. *)
Definition content (db : Database) (name : str) : option NsData :=
  match namespaces db !! name with
  | Some ns => Some (stored_values (values ns))
  | None =>
      if catalogued db (shard_of name) name then
        match read_shard_file digest32 disk (shard_of name) with
        | inl data => (fun vs => stored_values (values (from_values vs (node db)))) <$> data !! name
        | inr _ => None
        end
      else None
  end.

(** A namespace in memory belongs to a resident shard, whose catalogue entry
    lists exactly the namespaces in memory; an evicted shard's file can be read
    and holds exactly the namespaces its entry lists. *)
Record db_inv (db : Database) : Prop := {
  inv_ns : forall name ns, namespaces db !! name = Some ns -> ns_ok ns;
  inv_mem : forall name, is_Some (namespaces db !! name) ->
    exists meta, shards db !! shard_of name = Some meta /\ resident meta = true
                 /\ name ∈ meta_namespaces meta;
  inv_cat : forall s meta name, shards db !! s = Some meta -> name ∈ meta_namespaces meta ->
    shard_of name = s /\ (resident meta = true -> is_Some (namespaces db !! name));
  inv_disk : forall s meta, shards db !! s = Some meta -> resident meta = false ->
    is_Some (store db) /\ exists data, read_shard_file digest32 disk s = inl data
      /\ dom data = meta_namespaces meta /\ data_ok data;
}.

(** The database implements an abstract state. *)
Definition implements (db : Database) (abs : Abs) : Prop :=
  db_inv db /\ forall name, content db name = abs !! name.

Lemma same_data_content db db' n : same_data db db' -> content db' n = content db n.
Proof.
  intros Hsd. unfold content. rewrite (same_data_catalogued db db') by done.
  destruct Hsd as [-> (_ & _ & -> & _) _]. done.
Qed.

Lemma same_data_inv db db' : same_data db db' -> db_inv db -> db_inv db'.
Proof.
  intros Hsd [Hns Hmem Hcat Hdisk]. pose proof (sd_ns _ _ Hsd) as Hn.
  destruct (sd_config _ _ Hsd) as (_ & _ & _ & Hst & _). split; rewrite ?Hn.
  - done.
  - intros name Hi. destruct (Hmem name Hi) as (m & Hm & Hr & Hin).
    destruct (same_data_shard db' db _ _ (same_data_sym _ _ Hsd) Hm) as (m' & Hm' & E1 & E2).
    exists m'. rewrite <- E1, <- E2. done.
  - intros s m name Hm Hin. destruct (same_data_shard db db' _ _ Hsd Hm) as (m' & Hm' & E1 & E2).
    rewrite E1 in Hin. rewrite E2. eauto.
  - intros s m Hm Hr. destruct (same_data_shard db db' _ _ Hsd Hm) as (m' & Hm' & E1 & E2).
    rewrite E1, Hst. apply (Hdisk s m'); congruence.
Qed.

Lemma same_data_implements db db' abs : same_data db db' -> implements db abs -> implements db' abs.
Proof.
  intros Hsd [Hi Hc]. split; [by eapply same_data_inv|]. intros n. by rewrite (same_data_content db db').
Qed.

Lemma implements_fields db db' abs :
  namespaces db' = namespaces db -> shards db' = shards db -> node db' = node db -> store db' = store db ->
  implements db abs -> implements db' abs.
Proof.
  intros E1 E2 E3 E4 [[H1 H2 H3 H4] Hc]. split; [split; rewrite ?E1, ?E2, ?E4; done|].
  intros n. rewrite <- Hc. unfold content, catalogued. by rewrite E1, E2, E3.
Qed.

Lemma touch_same now db s : same_data db (touch now db s).
Proof.
  unfold touch. destruct (shards db !! s) as [m|] eqn:E; [|by split]. split; [done|done|].
  intros s'. simpl. rewrite lookup_insert. case_decide; [|done]. subst. by rewrite E.
Qed.

Lemma mem_not_catalogued db n : db_inv db -> is_Some (namespaces db !! n) -> catalogued db (shard_of n) n = false.
Proof.
  intros Hi Hn. destruct (inv_mem _ Hi n Hn) as (m & Hm & Hr & _). unfold catalogued. by rewrite Hm, Hr.
Qed.

Lemma not_resident_mem db s m n :
  db_inv db -> shards db !! s = Some m -> resident m = false -> shard_of n = s -> namespaces db !! n = None.
Proof.
  intros Hi Hm Hr <-. destruct (namespaces db !! n) eqn:E; [|done].
  destruct (inv_mem _ Hi n ltac:(eauto)) as (m' & Hm' & Hr' & _). congruence.
Qed.

Lemma mem_resident db n : db_inv db -> is_Some (namespaces db !! n) -> shard_resident db (shard_of n) = true.
Proof. intros Hi Hn. destruct (inv_mem _ Hi n Hn) as (m & Hm & Hr & _). unfold shard_resident. by rewrite Hm. Qed.

(** Paging a shard in changes nothing anybody can see. *)
Lemma page_in_spec now db abs s m :
  implements db abs -> shards db !! s = Some m -> resident m = false ->
  exists db', page_in digest32 disk now db s = inl db' /\ implements db' abs
    /\ same_config db db' /\ dirty db' = dirty db /\ touches {[s]} db db'
    /\ (exists m', shards db' !! s = Some m' /\ resident m' = true
                   /\ meta_namespaces m' = meta_namespaces m).
Proof.
  intros [Hi Hc] Hm Hr. destruct (inv_disk _ Hi s m Hm Hr) as ([st Hst] & data & Hd & Hdom & Hok).
  unfold page_in, shard_resident. rewrite Hst, Hm, Hr, Hd. eexists. split; [done|].
  assert (Hnone : forall n, shard_of n = s -> namespaces db !! n = None)
    by (intros; by eapply not_resident_mem).
  assert (Hin : forall n, is_Some (data !! n) -> shard_of n = s /\ n ∈ meta_namespaces m).
  { intros n Hn%elem_of_dom. rewrite Hdom in Hn. split; [|done]. by eapply inv_cat. }
  set (loaded := (fun vs => from_values vs (node db)) <$> data).
  assert (Hun : forall n, (loaded ∪ namespaces db) !! n
            = match loaded !! n with Some ns => Some ns | None => namespaces db !! n end).
  { intros n. rewrite lookup_union. by destruct (loaded !! n), (namespaces db !! n). }
  assert (Hl : forall n, loaded !! n = (fun vs => from_values vs (node db)) <$> data !! n)
    by (intros; apply lookup_fmap).
  split_and!; try done.
  - split; [split|]; simpl.
    + intros n ns. rewrite Hun, Hl. destruct (data !! n) as [vs|] eqn:E; simpl; [|apply (inv_ns _ Hi)].
      intros [= <-]. apply from_values_ok. intros v a. by eapply Hok.
    + intros n. rewrite Hun, Hl. destruct (data !! n) as [vs|] eqn:E; simpl.
      * intros _. destruct (Hin n ltac:(eauto)) as [-> Hn]. rewrite lookup_insert_eq.
        eexists. split_and!; [done|done|]. simpl. set_solver.
      * intros Hn. destruct (inv_mem _ Hi n Hn) as (m' & Hm' & Hr' & Hin').
        exists m'. rewrite lookup_insert_ne; [done|]. intros ->. congruence.
    + intros s' m' n. rewrite lookup_insert. case_decide as Hs.
      * intros [= <-]. subst s'. simpl. intros Hn.
        assert (Hn' : n ∈ meta_namespaces m) by (rewrite Hdom in Hn; set_solver).
        split; [by eapply inv_cat|]. intros _. rewrite Hun, Hl.
        rewrite <- Hdom in Hn'. apply elem_of_dom in Hn' as [vs ->]. eauto.
      * intros Hm' Hn. destruct (inv_cat _ Hi s' m' n Hm' Hn) as [Hsn Hres]. split; [done|].
        intros Hr'. rewrite Hun. destruct (Hres Hr') as [ns ->]. destruct (loaded !! n); eauto.
    + intros s' m'. rewrite lookup_insert. case_decide as Hs; [by intros [= <-]|]. apply (inv_disk _ Hi).
    + intros n. rewrite <- Hc. unfold content at 1. simpl. rewrite Hun, Hl.
      destruct (data !! n) as [vs|] eqn:E; simpl.
      * destruct (Hin n ltac:(eauto)) as [Hs Hn]. unfold content. rewrite Hnone by done.
        unfold catalogued. rewrite Hs, Hm, Hr, bool_decide_eq_true_2 by done. simpl. by rewrite Hd, E.
      * unfold content. destruct (namespaces db !! n) as [ns|] eqn:En; [done|].
        unfold catalogued. simpl. destruct (decide (shard_of n = s)) as [Hs|Hs].
        -- rewrite Hs, lookup_insert_eq, Hm, Hr. simpl. rewrite bool_decide_eq_false_2; [done|].
           rewrite <- Hdom. by apply not_elem_of_dom.
        -- by rewrite lookup_insert_ne by done.
  - split; try done; simpl; [| | |by left|rewrite dom_insert_L; set_solver|].
    + intros n Hn. rewrite Hun, Hl. destruct (data !! n) eqn:E; [|done].
      destruct (Hin n ltac:(eauto)). set_solver.
    + intros s' Hs'. rewrite lookup_insert_ne; [done|set_solver].
    + intros s' Hs'. unfold shard_resident in *. simpl. rewrite lookup_insert. by case_decide.
    + intros n [ns Hn]. left. rewrite Hun, Hn. by destruct (loaded !! n).
  - eexists. simpl. rewrite lookup_insert_eq. split_and!; [done|done|]. simpl. rewrite Hdom. set_solver.
Qed.

(** Fetching a namespace: nothing changes, and what comes back is there. *)
Lemma namespace_spec now db abs name :
  implements db abs ->
  let r := namespace digest32 disk now db name in
  implements r.1 abs /\ same_config db r.1 /\ dirty r.1 = dirty db
  /\ touches {[shard_of name]} db r.1
  /\ match r.2 with
     | Some ns => namespaces r.1 !! name = Some ns /\ abs !! name = Some (stored_values (values ns))
     | None => abs !! name = None /\ namespaces r.1 !! name = None
     end.
Proof.
  intros Himp r. unfold r, namespace. set (db1 := touch now db (shard_of name)).
  assert (Hsd : same_data db db1) by apply touch_same.
  assert (Hd1 : dirty db1 = dirty db) by (unfold db1, touch; by case_match).
  assert (Ht1 : touches {[shard_of name]} db db1) by (apply same_data_touches; rewrite ?Hd1; auto).
  pose proof (same_data_implements db db1 abs Hsd Himp) as H1.
  pose proof (sd_config _ _ Hsd) as Hcfg. pose proof (sd_ns _ _ Hsd) as Hns.
  pose proof H1 as [Hi1 Hc1].
  destruct (namespaces db1 !! name) as [ns|] eqn:En.
  - simpl. split_and!; try done. rewrite <- Hc1. unfold content. by rewrite En.
  - destruct (catalogued db1 (shard_of name) name) eqn:Ec; simpl.
    + unfold catalogued in Ec. destruct (shards db1 !! shard_of name) as [m|] eqn:Em; [|done].
      apply andb_true_iff in Ec as [Hr%negb_true_iff Hin%bool_decide_eq_true].
      destruct (page_in_spec now db1 abs (shard_of name) m H1 Em Hr)
        as (db2 & -> & Himp2 & Hcfg2 & Hd2 & Ht2 & (m' & Hm' & Hr' & Hn')). simpl.
      split_and!; [done|by etransitivity|congruence|by eapply touches_trans|].
      destruct Himp2 as [Hi2 Hc2]. destruct (namespaces db2 !! name) as [ns|] eqn:E2.
      * split; [done|]. rewrite <- Hc2. unfold content. by rewrite E2.
      * split; [|done]. rewrite <- Hc2. unfold content, catalogued. by rewrite E2, Hm', Hr'.
    + split_and!; try done. rewrite <- Hc1. unfold content. by rewrite En, Ec.
Qed.

(** Replacing what a namespace in memory holds. *)
Lemma put_ns_spec db abs name ns0 ns :
  implements db abs -> namespaces db !! name = Some ns0 -> ns_ok ns ->
  implements (put_ns db name ns) (<[name := stored_values (values ns)]> abs).
Proof.
  intros [[Hns Hmem Hcat Hdisk] Hc] Hn Hok. split; [split|]; simpl.
  - intros n x [[<- <-]|[_ Hx]]%lookup_insert_Some; eauto.
  - intros n. rewrite lookup_insert. case_decide; [subst|]; intros; apply Hmem; eauto.
  - intros s m n Hs Hin. destruct (Hcat s m n Hs Hin) as [? Hm]. split; [done|].
    rewrite lookup_insert. case_decide; eauto.
  - done.
  - intros n. rewrite lookup_insert, <- Hc. unfold content, catalogued. simpl. rewrite lookup_insert.
    by case_decide.
Qed.

(** Creating a namespace that is not there adds an empty one. *)
Lemma noc_spec now db abs name :
  implements db abs ->
  let r := namespace_or_create digest32 disk now db name in
  implements r.1 (<[name := default ∅ (abs !! name)]> abs)
  /\ same_config db r.1 /\ dirty r.1 = dirty db
  /\ touches {[shard_of name]} db r.1
  /\ namespaces r.1 !! name = Some r.2 /\ ns_ok r.2
  /\ stored_values (values r.2) = default ∅ (abs !! name).
Proof.
  intros Himp r. unfold r, namespace_or_create.
  destruct (namespace_spec now db abs name Himp) as (H1 & Hcfg & Hd & Ho & Hr).
  destruct (namespace digest32 disk now db name) as [db1 [ns|]]; simpl in *.
  - destruct Hr as [Hn Ha]. rewrite Ha. simpl. rewrite insert_id by done.
    split_and!; try done. by eapply inv_ns; [apply H1|].
  - destruct Hr as [Ha Hn].
    set (evicted := match shards db1 !! shard_of name with Some m => negb (resident m) | None => false end).
    assert (H2 : exists db2,
      (if evicted then match page_in digest32 disk now db1 (shard_of name) with inl d => d | inr _ => db1 end
       else db1) = db2
      /\ implements db2 abs /\ same_config db db2 /\ dirty db2 = dirty db
      /\ touches {[shard_of name]} db db2
      /\ (forall m, shards db2 !! shard_of name = Some m -> resident m = true)).
    { unfold evicted. destruct (shards db1 !! shard_of name) as [m|] eqn:Em.
      - destruct (resident m) eqn:Er; simpl.
        + exists db1. split_and!; try done. intros m' ?. by simplify_eq.
        + destruct (page_in_spec now db1 abs _ m H1 Em Er)
            as (db2 & -> & Himp2 & Hcfg2 & Hd2 & Ho2 & (m' & Hm' & Hr' & _)).
          exists db2. split_and!; [done|done|by etransitivity|congruence|by eapply touches_trans|].
          intros m'' ?. simplify_eq. done.
      - exists db1. split_and!; try done. congruence. }
    destruct H2 as (db2 & -> & Himp2 & Hcfg2 & Hd2 & Ho2 & Hres). destruct Himp2 as [Hi2 Hc2].
    assert (Hmem2 : namespaces db2 !! name = None).
    { destruct (namespaces db2 !! name) as [x|] eqn:Ex; [|done]. specialize (Hc2 name).
      unfold content in Hc2. rewrite Ex, Ha in Hc2. done. }
    rewrite Hmem2, Ha. simpl.
    split_and!; try done; try apply empty_ns_ok; try (by rewrite lookup_insert_eq).
    2: { destruct Ho2 as [T1 T2 T3 T4 T5 T6 T7 T8 T9]. split; try done; simpl.
         - intros n Hn'. rewrite lookup_insert_ne; [by apply T3|set_solver].
         - intros s Hs'. rewrite lookup_insert_ne; [by apply T4|set_solver].
         - intros s Hs'. unfold shard_resident. simpl. rewrite lookup_insert. case_decide; [done|]. by apply T6.
         - intros s Hs'. destruct (T7 s Hs') as [|Hr]; [by left|right]. unfold shard_resident. simpl.
           rewrite lookup_insert. by case_decide.
         - rewrite dom_insert_L. set_solver.
         - intros n [Hn'|Hn']%T9; [left|by right]. rewrite lookup_insert. case_decide; [by eexists|done]. }
    destruct Hi2 as [Hns Hmem Hcat Hdisk].
    split; [split|]; simpl.
    + intros n x [[<- <-]|[_ Hx]]%lookup_insert_Some; [apply empty_ns_ok|eauto].
    + intros n. rewrite lookup_insert. destruct (decide (shard_of name = shard_of n)) as [Hs|Hs].
      * intros Hn'. rewrite <- Hs, lookup_insert_eq. eexists. split_and!; [done|done|]. simpl.
        case_decide as Hnn; [set_solver|]. destruct (Hmem n Hn') as (m & Hm & _ & Hin).
        rewrite Hs, Hm. simpl. set_solver.
      * rewrite lookup_insert_ne by done. case_decide; [congruence|]. apply Hmem.
    + intros s m n. rewrite !lookup_insert. case_decide as Hs.
      * intros [= <-]. simpl. rewrite elem_of_union, elem_of_singleton. intros [Hin| ->].
        -- destruct (shards db2 !! shard_of name) as [m|] eqn:Em; simpl in Hin; [|set_solver].
           destruct (Hcat _ _ _ Em Hin) as [Hsn Hm]. split; [congruence|]. intros _.
           case_decide; [eauto|]. apply Hm, (Hres m); congruence.
        -- split; [done|]. intros _. rewrite decide_True by done. eauto.
      * intros Hm Hin. destruct (Hcat _ _ _ Hm Hin) as [Hsn Hm']. split; [done|]. intros Hr.
        case_decide; eauto.
    + intros s m. rewrite lookup_insert. case_decide; [by intros [= <-]|]. apply Hdisk.
    + intros n. rewrite lookup_insert. unfold content. simpl. rewrite lookup_insert.
      case_decide as Hnn; [done|]. rewrite <- Hc2. unfold content.
      destruct (namespaces db2 !! n) eqn:En; [done|]. unfold catalogued. simpl.
      destruct (decide (shard_of name = shard_of n)) as [Hs|Hs].
      * rewrite <- Hs, lookup_insert_eq. simpl.
        destruct (shards db2 !! shard_of name) as [m|] eqn:Em; [|done]. by rewrite (Hres m eq_refl).
      * by rewrite lookup_insert_ne.
Qed.

(** Every read of the database is a read of the contents. *)
Lemma count_in_spec now db abs path v :
  implements db abs ->
  let r := count_in digest32 disk now db path v in
  implements r.1 abs /\ same_config db r.1 /\ dirty r.1 = dirty db
  /\ touches {[shard_of path]} db r.1
  /\ r.2 = match abs !! path with
           | Some vs => match vs !! v with
                        | Some a => if is_expired a now then 0%Z else count a
                        | None => 0%Z
                        end
           | None => 0%Z
           end.
Proof.
  intros Himp r. destruct (namespace_spec now db abs path Himp) as (H1 & Hcfg & Hd & Ho & Hr).
  unfold r, count_in. simpl. split_and!; try done.
  destruct (namespace digest32 disk now db path).2 as [ns|]; destruct Hr as [Hr1 Hr2].
  - rewrite Hr2. unfold count_value, stored_values. rewrite lookup_fmap.
    destruct (values ns !! v) as [a|]; simpl; [|done]. by rewrite is_expired_stored.
  - by rewrite Hr1.
Qed.
End Contents.
