(* ===== verification/Refine.v ===== *)
(** * The database implements an abstract store

    What each write operation of [Database] does, stated on the contents alone:
    a finite map from namespace to values, with no residency, catalogue, dirty
    set or disk.  The lemmas are the simulation: an operation on a database
    that implements an abstract state gives a database that implements the
    abstract operation's result, whatever was evicted. *)

From stdpp Require Import base numbers list strings gmap sorting.
From S2P Require Import Prelude Activity Latest Attribute AttributeFacts Convergence Paths Tier Namespace Disk Database Contents.

(** ** The abstract store *)
Definition a_values (abs : Abs) (path : str) : NsData := default ∅ (abs !! path).

Definition a_update (abs : Abs) (path v : str) (f : Attribute -> Attribute) : Abs :=
  <[path := <[v := stored_attr (f (default (new v) (a_values abs path !! v)))]> (a_values abs path)]> abs.

(** One sighting. *)
Definition a_record (abs : Abs) (nd path v : str) (w : Z) (t : option Z) (keep : nat) (tgs : str) : Abs :=
  a_update abs path v (fun a => write_attr a nd w t keep tgs).

Definition a_absent (abs : Abs) (path v : str) : bool := bool_decide (a_values abs path !! v = None).

Definition a_write (abs : Abs) (self nd path v : str) (w : Z) (t : option Z) (keep : nat) (tgs : str)
    (cons : bool) : Abs :=
  let abs1 := a_record abs nd path v w t keep tgs in
  if cons && a_absent abs path v then a_record abs1 self ALL_NAMESPACE v w None keep [] else abs1.

(** A peer's copy. *)
Definition a_merge `{Chrono} (abs : Abs) (self path v : str) (i : Merge) (now : Z) (keep : nat) : Abs :=
  let abs1 := a_update abs path v (fun a => merged a i self) in
  if a_absent abs path v && counts_towards_consensus path
  then a_record abs1 self ALL_NAMESPACE v now None keep [] else abs1.

(** One consensus count given back. *)
Definition a_release (self : str) (abs : Abs) (v : str) : Abs :=
  match abs !! ALL_NAMESPACE with
  | None => abs
  | Some all =>
      <[ALL_NAMESPACE := match all !! v with
                         | None => all
                         | Some a => if bool_decide ((decrement a self).2 = 0%Z) then delete v all
                                     else <[v := (decrement a self).1]> all
                         end]> abs
  end.

(** ** Operations on attributes and whole seconds *)
Lemma stored_attr_ext a b :
  value a = value b -> floor_secs (first_seen a) = floor_secs (first_seen b) ->
  floor_secs (last_seen a) = floor_secs (last_seen b) -> counts a = counts b -> tags a = tags b ->
  tags_at a = tags_at b -> ttl a = ttl b -> stats a = stats b -> stored_attr a = stored_attr b.
Proof. intros. unfold stored_attr. congruence. Qed.

Lemma stored_write_attr a nd w t keep tgs :
  stored_attr (write_attr a nd w t keep tgs) = stored_attr (write_attr (stored_attr a) nd w t keep tgs).
Proof.
  unfold write_attr.
  set (prep := fun a => if is_empty tgs then match t with Some t' => set_ttl a t' | None => a end
                        else add_tags (match t with Some t' => set_ttl a t' | None => a end) tgs).
  change (stored_attr (increment (prep a) nd w keep) = stored_attr (increment (prep (stored_attr a)) nd w keep)).
  assert (Hp : prep (stored_attr a) = stored_attr (prep a)).
  { unfold prep, add_tags, stored_attr. destruct t; simpl; repeat case_match; done. }
  rewrite Hp. set (b := prep a).
  destruct (increment_fields b nd w keep) as (Hw & Hc & Hs & Ht & Hta & Httl & Hv & _).
  destruct (increment_fields (stored_attr b) nd w keep) as (Hw' & Hc' & Hs' & Ht' & Hta' & Httl' & Hv' & _).
  unfold seen_window in *. change (count (stored_attr b)) with (count b) in Hw'.
  change (first_seen (stored_attr b)) with (floor_secs (first_seen b)) in Hw'.
  change (last_seen (stored_attr b)) with (floor_secs (last_seen b)) in Hw'.
  assert (Hf : floor_secs (first_seen (increment b nd w keep)) = floor_secs (first_seen (increment (stored_attr b) nd w keep))
    /\ floor_secs (last_seen (increment b nd w keep)) = floor_secs (last_seen (increment (stored_attr b) nd w keep))).
  { destruct (bool_decide (count b = 0%Z)); apply pair_equal_spec in Hw as [-> ->];
      apply pair_equal_spec in Hw' as [-> ->]; [done|].
    split; [apply floor_secs_min|apply floor_secs_max]. }
  apply stored_attr_ext; [by rewrite Hv, Hv'|apply Hf|apply Hf|by rewrite Hc, Hc'|by rewrite Ht, Ht'
    |by rewrite Hta, Hta'|by rewrite Httl, Httl'|].
  apply map_eq. intros n. by rewrite Hs, Hs'.
Qed.

Lemma stored_default v vs : default (new v) (stored_values vs !! v) = stored_attr (default (new v) (vs !! v)).
Proof. unfold stored_values. rewrite lookup_fmap. by destruct (vs !! v). Qed.

Lemma stored_insert_values v a vs :
  stored_values (<[v := a]> vs) = <[v := stored_attr a]> (stored_values vs).
Proof. apply fmap_insert. Qed.

Lemma stored_absent v vs : (stored_values vs !! v = None) <-> vs !! v = None.
Proof. unfold stored_values. rewrite lookup_fmap. by destruct (vs !! v). Qed.

Lemma write_attr_legacy a nd w t keep tgs :
  legacy_count (write_attr a nd w t keep tgs) = legacy_count a
  /\ legacy_stats (write_attr a nd w t keep tgs) = legacy_stats a
  /\ (plausible (first_seen a) -> plausible w -> plausible (first_seen (write_attr a nd w t keep tgs))).
Proof.
  destruct (write_attr_prep a t tgs) as (_&_&Ef&_&_&_&El&Es). unfold write_attr.
  match goal with |- context [increment ?x nd w keep] =>
    destruct (increment_fields x nd w keep) as (Hw & _ & _ & _ & _ & _ & _ & -> & ->) end.
  rewrite El, Es. split_and!; [done|done|]. intros Ha Hpw. unfold seen_window in Hw.
  case_bool_decide; apply pair_equal_spec in Hw as [-> _]; [done|].
  rewrite Ef. by apply plausible_min.
Qed.

Lemma ns_ok_insert ns v a flag :
  ns_ok ns -> ns_wf (mkNamespace (<[v := a]> (values ns)) flag) ->
  legacy_count a = 0%Z /\ legacy_stats a = ∅ /\ plausible (first_seen a) -> ns_ok (mkNamespace (<[v := a]> (values ns)) flag).
Proof.
  intros [_ Hl] Hwf Ha. split; [done|]. simpl. intros u b [[<- <-]|[_ Hb]]%lookup_insert_Some; eauto.
Qed.

Lemma default_legacy ns v :
  ns_ok ns -> let a := default (new v) (values ns !! v) in
  legacy_count a = 0%Z /\ legacy_stats a = ∅ /\ plausible (first_seen a).
Proof. intros [_ Hl]. destruct (values ns !! v) eqn:E; simpl; [eauto|done]. Qed.

Lemma record_ok ns nd v w t keep tgs :
  ns_ok ns -> opt_u64 t -> plausible w -> ns_ok (record ns nd v w t keep tgs).1.
Proof.
  intros Hok Ht Hpw. pose proof (record_wf ns nd v w t keep tgs (ok_wf _ Hok) Ht) as Hwf.
  rewrite record_values in *. simpl in *. apply ns_ok_insert; [done|done|].
  destruct (write_attr_legacy (default (new v) (values ns !! v)) nd w t keep tgs) as (-> & -> & Hp).
  destruct (default_legacy ns v Hok) as (? & ? & ?). auto.
Qed.

Lemma record_stored ns nd v w t keep tgs vs :
  stored_values (values ns) = vs ->
  stored_values (values (record ns nd v w t keep tgs).1)
  = <[v := stored_attr (write_attr (default (new v) (vs !! v)) nd w t keep tgs)]> vs.
Proof.
  intros <-. rewrite record_values. simpl. rewrite stored_insert_values, stored_default.
  by rewrite stored_write_attr.
Qed.

Section Refinement.
Context `{Chrono} `{HashOrder} (digest32 : str -> N) (disk : Disk) (now : Z).

Abbreviation impl := (implements digest32 disk).

(** One call of [record_write], up to the consensus it may call for. *)
Lemma record_write_with_spec (bump : Database -> str -> Z -> Database) (fb : Abs -> Abs) (d : gset str) db abs nd path v w opts tgs :
  impl db abs -> opt_u64 (write_ttl db path (opt_ttl opts)) -> plausible w ->
  (consensus opts = true -> forall db1 abs1, impl db1 abs1 -> same_config db db1 ->
     impl (bump db1 v w) (fb abs1) /\ same_config db1 (bump db1 v w)
     /\ dirty (bump db1 v w) = dirty db1 ∪ d /\ touches {[INTERNAL_SHARD]} db1 (bump db1 v w)) ->
  let r := record_write_with digest32 disk now bump db nd path v w opts tgs in
  let abs1 := a_record abs nd path v w (write_ttl db path (opt_ttl opts)) (stats_retention (policy db)) tgs in
  let new_here := a_absent abs path v in
  impl r.1 (if consensus opts && new_here then fb abs1 else abs1)
  /\ same_config db r.1
  /\ dirty r.1 = dirty db ∪ (if consensus opts && new_here then d else ∅) ∪ {[shard_of path]}
  /\ written_new r.2 = new_here
  /\ written_count r.2 = u64_add (count (default (new v) (a_values abs path !! v))) 1
  /\ touches {[shard_of path; INTERNAL_SHARD]} db r.1.
Proof.
  intros Himp Ht Hpw Hb r abs1 new_here.
  destruct (noc_spec digest32 disk now db abs path Himp) as (H1 & Hc1 & Hd1 & Ht1 & Hn & Hok & Hst).
  unfold r, record_write_with.
  set (q := namespace_or_create digest32 disk now db path) in *.
  set (t := write_ttl db path (opt_ttl opts)) in *.
  pose proof (record_ok q.2 nd v w t (stats_retention (policy db)) tgs Hok Ht Hpw) as Hok'.
  pose proof (record_stored q.2 nd v w t (stats_retention (policy db)) tgs _ Hst) as Hst'.
  rewrite record_values in *. cbn [fst snd] in *.
  set (a' := write_attr (default (new v) (values q.2 !! v)) nd w t (stats_retention (policy db)) tgs) in *.
  pose proof (put_ns_spec digest32 disk _ _ path _ _ H1 Hn Hok') as H2.
  rewrite insert_insert_eq in H2. rewrite Hst' in H2.
  change (<[path := _]> abs) with abs1 in H2.
  assert (Hnew : bool_decide (values q.2 !! v = None) = new_here).
  { unfold new_here, a_absent, a_values. rewrite <- Hst. apply bool_decide_ext. by rewrite stored_absent. }
  rewrite Hnew.
  set (db1 := put_ns q.1 path _) in *.
  assert (Hcfg1 : same_config db db1) by (etransitivity; [exact Hc1|done]).
  set (db2 := if consensus opts && new_here then bump db1 v w else db1).
  set (abs2 := if consensus opts && new_here then fb abs1 else abs1).
  assert (H3 : impl db2 abs2 /\ same_config db1 db2
    /\ dirty db2 = dirty db ∪ (if consensus opts && new_here then d else ∅)
    /\ touches {[INTERNAL_SHARD]} db1 db2).
  { unfold db2, abs2. destruct (consensus opts) eqn:Ec, new_here; simpl;
      try (split_and!; [done|done|change (dirty db1) with (dirty q.1); rewrite Hd1; set_solver|apply touches_refl]).
    destruct (Hb eq_refl db1 abs1 H2 Hcfg1) as (? & ? & Hd & ?). split_and!; [done|done| |done].
    rewrite Hd. change (dirty db1) with (dirty q.1). by rewrite Hd1. }
  destruct H3 as (H3 & Hcfg2 & Hd2 & Ht2).
  destruct (count_in_spec digest32 disk now db2 abs2 ALL_NAMESPACE v H3) as (H4 & Hcfg3 & Hd3 & Ht3 & _).
  change (shard_of ALL_NAMESPACE) with INTERNAL_SHARD in Ht3.
  split_and!.
  - eapply same_data_implements; [apply mark_dirty_same|exact H4].
  - etransitivity; [exact Hcfg1|]. etransitivity; [exact Hcfg2|exact Hcfg3].
  - unfold mark_dirty, mark_shard_dirty, with_dirty. cbn [fst dirty]. by rewrite Hd3, Hd2.
  - done.
  - simpl. unfold a'. unfold a_values. rewrite <- Hst, stored_default, count_stored.
    apply count_write_attr.
  - eapply (touches_trans {[shard_of path]} {[INTERNAL_SHARD]} _ db db1); [| |auto with sdb..].
    + eapply touches_trans; [exact Ht1|apply put_ns_touches|done|done].
    + assert (Hres : shard_resident db1 (shard_of path) = true).
      { eapply mem_resident; [apply H2|]. unfold db1. simpl. rewrite lookup_insert_eq. eauto. }
      eapply touches_trans; [exact Ht2| |done|done].
      eapply touches_trans; [exact Ht3|apply (mark_dirty_touches ∅)|done|auto with sdb].
      apply (t_stays _ _ _ Ht3), (t_stays _ _ _ Ht2), Hres.
Qed.

Definition ttls_ok (db : Database) (opts : WriteOpts) : Prop :=
  opt_u64 (opt_ttl opts) /\ is_u64 (shadow_ttl (policy db)).

Lemma write_ttl_u64 db path opts : ttls_ok db opts -> opt_u64 (write_ttl db path (opt_ttl opts)).
Proof. intros [Ho Hs]. unfold write_ttl. destruct (opt_ttl opts); [done|]. by case_match. Qed.

Lemma write_ttl_all db : write_ttl db ALL_NAMESPACE None = None.
Proof. done. Qed.

(** Counting a value in [_all]. *)
Lemma write_all_spec db abs v w :
  impl db abs -> plausible w ->
  impl (write_all digest32 disk now db v w)
    (a_record abs (node db) ALL_NAMESPACE v w None (stats_retention (policy db)) [])
  /\ same_config db (write_all digest32 disk now db v w)
  /\ dirty (write_all digest32 disk now db v w) = dirty db ∪ {[INTERNAL_SHARD]}
  /\ touches {[INTERNAL_SHARD]} db (write_all digest32 disk now db v w).
Proof.
  intros Himp Hw.
  destruct (record_write_with_spec (fun d _ _ => d) (fun a => a) ∅ db abs (node db) ALL_NAMESPACE v w
    default_opts [] Himp I Hw ltac:(done)) as (H1 & H2 & H3 & _ & _ & H4).
  change (shard_of ALL_NAMESPACE) with INTERNAL_SHARD in H3, H4.
  split_and!; [exact H1|exact H2| |].
  - unfold write_all. rewrite H3. simpl. set_solver.
  - eapply touches_weaken; [exact H4|auto with sdb].
Qed.

(** A sighting, with the consensus it may add. *)
Lemma record_write_spec db abs nd path v w opts tgs :
  impl db abs -> ttls_ok db opts -> plausible w ->
  let r := record_write digest32 disk now db nd path v w opts tgs in
  impl r.1 (a_write abs (node db) nd path v w (write_ttl db path (opt_ttl opts))
              (stats_retention (policy db)) tgs (consensus opts))
  /\ same_config db r.1
  /\ dirty r.1 = dirty db ∪ (if consensus opts && a_absent abs path v then {[INTERNAL_SHARD]} else ∅)
                  ∪ {[shard_of path]}
  /\ written_new r.2 = a_absent abs path v
  /\ written_count r.2 = u64_add (count (default (new v) (a_values abs path !! v))) 1
  /\ touches {[shard_of path; INTERNAL_SHARD]} db r.1.
Proof.
  intros Himp Ht Hw r.
  apply (record_write_with_spec (write_all digest32 disk now)
    (fun a => a_record a (node db) ALL_NAMESPACE v w None (stats_retention (policy db)) [])
    {[INTERNAL_SHARD]} db abs nd path v w opts tgs Himp (write_ttl_u64 _ _ _ Ht) Hw).
  intros _ db1 abs1 H1 Hcfg. destruct (write_all_spec db1 abs1 v w H1 Hw) as (H2 & H3 & H4 & H5).
  destruct Hcfg as (Hp & _ & Hn & _). rewrite Hn, Hp in H2. done.
Qed.

(** ** Merging *)
Lemma stored_merged a i mine :
  plausible (first_seen a) -> stored_attr (merged a i mine) = stored_attr (merged (stored_attr a) i mine).
Proof.
  intros Hp.
  destruct (attr_merge_fields a i mine) as (Ev & Ec & Es & Ef & El & Et & Eg & Er & _).
  destruct (attr_merge_fields (stored_attr a) i mine) as (Ev' & Ec' & Es' & Ef' & El' & Et' & Eg' & Er' & _).
  assert (Hu : unseen (stored_attr a) = unseen a).
  { unfold unseen. change (count (stored_attr a)) with (count a). f_equal. apply bool_decide_ext. simpl.
    unfold floor_secs, UNIX_EPOCH, NANOS in *. unfold plausible in Hp. split; [|by intros ->].
    intros Hz. apply Hp. lia. }
  rewrite Hu in Ef', El'.
  assert (Hreg : tags_at (merged a i mine) = tags_at (merged (stored_attr a) i mine)).
  { change ((reg (merged a i mine)).1 = (reg (merged (stored_attr a) i mine)).1). by rewrite Er, Er'. }
  destruct (tags_merge_tags_ext (stored_attr a) a i eq_refl eq_refl) as [Htg _].
  apply stored_attr_ext.
  - by rewrite Ev, Ev'.
  - rewrite Ef, Ef'. unfold merge_first. destruct (from_timestamp (m_first_seen i)) as [t|] eqn:E;
      [|simpl; by rewrite floor_secs_idemp].
    apply from_timestamp_Some in E. destruct (unseen a); [done|]. simpl.
    unfold floor_secs, timestamp in *. pose proof (Z.mul_div_le (first_seen a) NANOS).
    pose proof (Z.mul_succ_div_gt (first_seen a) NANOS). unfold NANOS in *.
    repeat case_bool_decide; simpl; try done; subst; rewrite ?Z.div_mul by lia; nia.
  - rewrite El, El'. unfold merge_last. destruct (from_timestamp (m_last_seen i)) as [t|] eqn:E;
      [|simpl; by rewrite floor_secs_idemp].
    apply from_timestamp_Some in E. destruct (unseen a); [done|]. simpl.
    unfold floor_secs, timestamp in *. pose proof (Z.mul_div_le (last_seen a) NANOS).
    pose proof (Z.mul_succ_div_gt (last_seen a) NANOS). unfold NANOS in *.
    repeat case_bool_decide; simpl; try done; subst; rewrite ?Z.div_mul by lia; nia.
  - by rewrite Ec, Ec'.
  - by rewrite Eg, Eg', Htg.
  - exact Hreg.
  - by rewrite Et, Et'.
  - by rewrite Es, Es'.
Qed.

Lemma merge_value_ok ns nd v i :
  ns_ok ns -> payload_ok i -> ns_ok (merge_value ns nd v i).1.
Proof.
  intros Hok Hi. pose proof (merge_value_wf ns nd v i (ok_wf _ Hok) Hi) as Hwf.
  unfold merge_value in *. cbn [fst] in *. apply ns_ok_insert; [done|done|].
  destruct (default_legacy ns v Hok) as (Hl1 & Hl2 & Hp).
  change (attr_merge ?a i nd).1 with (merged a i nd).
  destruct (attr_merge_fields (default (new v) (values ns !! v)) i nd)
    as (_ & _ & _ & Ef & _ & _ & _ & _ & -> & ->).
  split_and!; [done|done|]. rewrite Ef. unfold merge_first.
  destruct (from_timestamp (m_first_seen i)) as [t|] eqn:E; [|done].
  apply from_timestamp_Some in E. subst. case_match; simpl; [apply plausible_whole|done].
Qed.

(** [Database::merge] *)
Lemma merge_in_spec db abs path v i :
  impl db abs -> payload_ok i -> plausible now -> is_u64 (shadow_ttl (policy db)) ->
  let r := merge_in digest32 disk now db path v i in
  impl r.1 (a_merge abs (node db) path v i now (stats_retention (policy db)))
  /\ same_config db r.1
  /\ merged_count r.2 = count (merged (default (new v) (a_values abs path !! v)) i (node db))
  /\ touches {[shard_of path; INTERNAL_SHARD]} db r.1
  /\ (changed r.2 = true -> shard_of path ∈ dirty r.1).
Proof.
  intros Himp Hi Hnow Hsh r.
  destruct (noc_spec digest32 disk now db abs path Himp) as (H1 & Hc1 & Hd1 & Ht1 & Hn & Hok & Hst).
  unfold r, merge_in. set (q := namespace_or_create digest32 disk now db path) in *.
  pose proof (merge_value_ok q.2 (node db) v i Hok Hi) as Hok'.
  pose proof (put_ns_spec digest32 disk _ _ path _ _ H1 Hn Hok') as H2. rewrite insert_insert_eq in H2.
  destruct (default_legacy q.2 v Hok) as (_ & _ & Hp).
  assert (Ha : stored_values (values (merge_value q.2 (node db) v i).1)
    = <[v := stored_attr (merged (default (new v) (a_values abs path !! v)) i (node db))]> (a_values abs path)).
  { unfold merge_value. cbn [fst values]. rewrite stored_insert_values. unfold a_values. rewrite <- Hst.
    rewrite stored_default. f_equal. by apply stored_merged. }
  rewrite Ha in H2. change (<[path := _]> abs) with (a_update abs path v (fun a => merged a i (node db))) in H2.
  set (db1 := put_ns q.1 path (merge_value q.2 (node db) v i).1) in *.
  assert (Hcfg1 : same_config db db1) by (etransitivity; [exact Hc1|done]).
  assert (Hnew : (merge_value q.2 (node db) v i).2.2 = a_absent abs path v).
  { unfold merge_value, a_absent, a_values. cbn [fst snd]. rewrite <- Hst. apply bool_decide_ext.
    by rewrite stored_absent. }
  set (db2 := if (merge_value q.2 (node db) v i).2.2 && counts_towards_consensus path
              then (write digest32 disk now db1 ALL_NAMESPACE v now default_opts).1 else db1).
  assert (H3 : impl db2 (a_merge abs (node db) path v i now (stats_retention (policy db)))
               /\ same_config db1 db2 /\ touches {[INTERNAL_SHARD]} db1 db2).
  { unfold db2, a_merge. rewrite Hnew.
    destruct (a_absent abs path v && counts_towards_consensus path);
      [|split_and!; [done|done|apply touches_refl]].
    destruct (record_write_spec db1 _ (node db1) ALL_NAMESPACE v now default_opts [] H2)
      as (Hw1 & Hw2 & _ & _ & _ & Hw3).
    { split; [done|]. destruct Hcfg1 as (-> & _). done. }
    { done. }
    split_and!; [|exact Hw2|eapply touches_weaken; [exact Hw3|]; apply sub_same_pair].
    destruct Hcfg1 as (Hpol & _ & Hnode & _).
    replace (a_record _ (node db) ALL_NAMESPACE v now None (stats_retention (policy db)) [])
      with (a_write (a_update abs path v (fun a => merged a i (node db))) (node db1) (node db1)
              ALL_NAMESPACE v now (write_ttl db1 ALL_NAMESPACE (opt_ttl default_opts))
              (stats_retention (policy db1)) [] (consensus default_opts)); [exact Hw1|].
    unfold a_write. cbn [consensus default_opts andb opt_ttl]. by rewrite write_ttl_all, Hpol, Hnode. }
  destruct H3 as (H3 & Hcfg2 & Ht2). cbn [fst snd]. split_and!.
  - destruct (changed _); [|exact H3]. eapply same_data_implements; [apply mark_dirty_same|exact H3].
  - etransitivity; [exact Hcfg1|]. by destruct (changed _).
  - unfold merge_value. cbn [fst snd]. change (count (merged (default (new v) (values q.2 !! v)) i (node db))
      = count (merged (default (new v) (a_values abs path !! v)) i (node db))).
    unfold a_values. rewrite <- Hst, stored_default.
    rewrite <- (count_stored (merged (stored_attr _) _ _)), <- stored_merged by done. done.
  - eapply (touches_trans {[shard_of path]} {[INTERNAL_SHARD]} _ db db1); [| |auto with sdb..].
    + eapply touches_trans; [exact Ht1|apply put_ns_touches|done|done].
    + destruct (changed _); [|exact Ht2].
      eapply touches_trans; [exact Ht2|apply (mark_dirty_touches ∅)|done|auto with sdb].
      apply (t_stays _ _ _ Ht2). eapply mem_resident; [apply H2|]. unfold db1. simpl.
      rewrite lookup_insert_eq. eauto.
  - intros ->. unfold mark_dirty, mark_shard_dirty, with_dirty. cbn [dirty]. auto with sdb.
Qed.

(** ** Giving consensus back *)
Lemma stored_decrement a nd :
  stored_attr (decrement a nd).1 = (decrement (stored_attr a) nd).1
  /\ (decrement (stored_attr a) nd).2 = (decrement a nd).2.
Proof. unfold decrement. simpl. destruct (counts a !! nd); [case_bool_decide|]; done. Qed.

Lemma release_ok ns nd v : ns_ok ns -> ns_ok (release ns nd v).
Proof.
  intros Hok. pose proof (release_wf ns nd v (ok_wf _ Hok)) as Hwf. unfold release in *.
  destruct (values ns !! v) as [a|] eqn:E; [|done]. destruct Hok as [_ Hl]. split; [done|].
  destruct (decrement_frame a nd) as (_ & _ & _ & Ef & _ & E1 & E2). destruct (Hl v a E) as (L1 & L2 & L3).
  cbn [values]. case_bool_decide; intros u b.
  - intros [_ Hb]%lookup_delete_Some. eauto.
  - intros [[<- <-]|[_ Hb]]%lookup_insert_Some; [|eauto]. rewrite Ef, E1, E2. done.
Qed.

Lemma release_consensus_spec db abs v :
  impl db abs ->
  let db' := release_consensus digest32 disk now db v in
  impl db' (a_release (node db) abs v) /\ same_config db db' /\ dirty db' = dirty db
  /\ touches {[INTERNAL_SHARD]} db db'.
Proof.
  intros Himp db'. unfold db', release_consensus.
  destruct (namespace_spec digest32 disk now db abs ALL_NAMESPACE Himp) as (H1 & Hcfg & Hd & Ht & Hr).
  change (shard_of ALL_NAMESPACE) with INTERNAL_SHARD in Ht.
  destruct (namespace digest32 disk now db ALL_NAMESPACE) as [db1 [all|]]; cbn [fst snd] in *.
  - destruct Hr as [Hn Ha].
    pose proof (put_ns_spec digest32 disk db1 abs ALL_NAMESPACE all (release all (node db) v) H1 Hn
      (release_ok _ _ _ (inv_ns _ _ _ (proj1 H1) _ _ Hn))) as H2.
    split_and!; [|exact Hcfg|exact Hd|].
    2: { eapply touches_trans; [exact Ht|apply (put_ns_touches db1 ALL_NAMESPACE)|done|done]. }
    unfold a_release. rewrite Ha.
    assert (Hs : stored_values (values (release all (node db) v))
      = match stored_values (values all) !! v with
        | Some a => if bool_decide ((decrement a (node db)).2 = 0%Z) then delete v (stored_values (values all))
                    else <[v := (decrement a (node db)).1]> (stored_values (values all))
        | None => stored_values (values all)
        end).
    { unfold release, stored_values. rewrite lookup_fmap. destruct (values all !! v) as [a|]; [|done].
      cbn [values fmap option_fmap option_map]. destruct (stored_decrement a (node db)) as [<- ->].
      case_bool_decide; [apply fmap_delete|apply fmap_insert]. }
    rewrite Hs in H2. exact H2.
  - destruct Hr as [Ha _]. unfold a_release. by rewrite Ha.
Qed.

Lemma release_all_spec vs db abs :
  impl db abs ->
  let db' := foldl (release_consensus digest32 disk now) db vs in
  impl db' (foldl (a_release (node db)) abs vs) /\ same_config db db' /\ dirty db' = dirty db
  /\ touches {[INTERNAL_SHARD]} db db'.
Proof.
  revert db abs. induction vs as [|v vs IH]; intros db abs Himp.
  { split_and!; [done|done|done|apply touches_refl]. }
  cbn [foldl]. destruct (release_consensus_spec db abs v Himp) as (H1 & H2 & H3 & T1).
  destruct (IH _ _ H1) as (H4 & H5 & H6 & T2). pose proof H2 as (_ & _ & E3 & _).
  rewrite E3 in H4. split_and!; [exact H4|by etransitivity|congruence|by eapply touches_trans].
Qed.

(** ** Removing a namespace *)
Definition remove_ns (db : Database) (name : str) : Database :=
  uncatalogue (with_namespaces db (delete name (namespaces db))) name.

Lemma uncatalogue_ns db name : namespaces (uncatalogue db name) = namespaces db.
Proof. unfold uncatalogue. by case_match. Qed.

Lemma uncatalogue_all_ns l d : namespaces (foldl uncatalogue d l) = namespaces d.
Proof. revert d. induction l as [|x l IH]; intros d; [done|]. cbn [foldl]. by rewrite IH, uncatalogue_ns. Qed.

Lemma uncatalogue_comm l d m :
  foldl uncatalogue (with_namespaces d m) l = with_namespaces (foldl uncatalogue d l) m.
Proof.
  revert d. induction l as [|x l IH]; intros d; [done|]. cbn [foldl]. rewrite <- IH. f_equal.
  unfold uncatalogue. simpl. by destruct (shards d !! shard_of x).
Qed.

Lemma remove_ns_spec db abs name :
  impl db abs -> is_Some (namespaces db !! name) -> impl (remove_ns db name) (delete name abs).
Proof.
  intros [[Hns Hmem Hcat Hdisk] Hc] Hn. destruct (Hmem name Hn) as (m & Hm & Hr & Hin).
  unfold remove_ns, uncatalogue. simpl. rewrite Hm. split; [split|]; simpl.
  - intros n ns [_ Hx]%lookup_delete_Some. eauto.
  - intros n [ns [Hne Hx]%lookup_delete_Some]. destruct (Hmem n ltac:(eauto)) as (m' & Hm' & Hr' & Hin').
    rewrite lookup_insert. case_decide as Hs; [|eauto]. rewrite <- Hs in Hm'. simplify_eq.
    eexists. split_and!; [done|done|]. simpl. set_solver.
  - intros s m' n. rewrite lookup_insert. case_decide as Hs.
    + intros [= <-]. simpl. intros [Hn' Hne]%elem_of_difference. apply not_elem_of_singleton in Hne.
      destruct (Hcat _ _ _ Hm Hn') as [H1 H2]. split; [congruence|]. rewrite lookup_delete_ne by done. done.
    + intros Hm' Hn'. destruct (Hcat _ _ _ Hm' Hn') as [H1 H2]. split; [done|].
      rewrite lookup_delete_ne by (intros ->; done). done.
  - intros s m'. rewrite lookup_insert. case_decide; [|apply Hdisk]. intros [= <-]. simpl. congruence.
  - intros n. rewrite lookup_delete, <- Hc. unfold content, catalogued. simpl. rewrite lookup_delete.
    case_decide as Hnn.
    + subst. rewrite lookup_insert_eq. simpl. by rewrite Hr.
    + destruct (namespaces db !! n); [done|]. rewrite lookup_insert. case_decide as Hs; [|done].
      rewrite <- Hs, Hm. simpl. by rewrite Hr.
Qed.

Lemma with_latest_implements db abs l : impl db abs -> impl (with_latest db l) abs.
Proof. by apply implements_fields. Qed.

Lemma with_activity_implements db abs a : impl db abs -> impl (with_activity db a) abs.
Proof. by apply implements_fields. Qed.

Lemma value_names_spec ns v :
  v ∈ value_names ns <-> is_Some (stored_values (values ns) !! v).
Proof.
  unfold value_names, stored_values. rewrite elem_of_hash_keys, lookup_fmap.
  by destruct (values ns !! v); split; intros []; eauto.
Qed.

(** [Database::delete] *)
Lemma delete_spec db abs name :
  impl db abs ->
  let r := delete_namespace digest32 disk now db name in
  r.2 = bool_decide (is_Some (abs !! name))
  /\ node r.1 = node db /\ policy r.1 = policy db
  /\ touches {[shard_of name; INTERNAL_SHARD]} db r.1 /\ (r.2 = true -> shard_of name ∈ dirty r.1)
  /\ (r.2 = false -> r.1 = (namespace digest32 disk now db name).1)
  /\ match abs !! name with
     | None => impl r.1 abs
     | Some vs => exists l, NoDup l /\ (forall v, v ∈ l <-> is_Some (vs !! v))
         /\ impl r.1 (if counts_towards_consensus name then foldl (a_release (node db)) (delete name abs) l
                      else delete name abs)
     end.
Proof.
  intros Himp r. unfold r, delete_namespace.
  destruct (namespace_spec digest32 disk now db abs name Himp) as (H1 & Hcfg & Hd & Ht & Hr).
  destruct (namespace digest32 disk now db name) as [db1 [ns|]]; cbn [fst snd] in *.
  2: { destruct Hr as [-> _]. destruct Hcfg as (-> & _ & -> & _). split_and!; try done.
       eapply touches_weaken; [exact Ht|auto with sdb]. }
  destruct Hr as [Hn Ha]. rewrite Hn, Ha.
  rewrite !bool_decide_eq_true_2 by eauto. cbn [andb].
  set (db2 := uncatalogue (mark_dirty (with_namespaces db1 (delete name (namespaces db1))) name) name).
  assert (H2 : impl db2 (delete name abs)).
  { eapply (same_data_implements digest32 disk (remove_ns db1 name)); [|apply remove_ns_spec; eauto].
    unfold db2, remove_ns, uncatalogue. simpl. by destruct (shards db1 !! shard_of name). }
  assert (Hcfg2 : same_config db db2).
  { etransitivity; [exact Hcfg|]. unfold db2, uncatalogue. simpl. by destruct (shards db1 !! shard_of name). }
  assert (Ht2 : touches {[shard_of name]} db1 db2 /\ shard_of name ∈ dirty db2).
  { unfold db2, uncatalogue. simpl. destruct (shards db1 !! shard_of name) as [m|] eqn:Em;
      [|destruct (inv_mem _ _ _ (proj1 H1) name ltac:(eauto)) as (m & Hm & _); congruence].
    destruct (inv_mem _ _ _ (proj1 H1) name ltac:(eauto)) as (m' & Hm' & Hr' & _).
    rewrite Em in Hm'. injection Hm' as <-.
    assert (Hres : forall s, shard_resident db1 s = true -> shard_resident (with_shards
      (mark_dirty (with_namespaces db1 (delete name (namespaces db1))) name)
      (<[shard_of name := mkMeta (meta_namespaces m ∖ {[name]}) (resident m) (last_access m)]> (shards db1))) s = true).
    { intros s. unfold shard_resident. simpl. rewrite lookup_insert. by case_decide. }
    split; [split; simpl; try done|simpl; auto with sdb].
    - intros n Hsn. rewrite lookup_delete_ne; [done|intros ->; set_solver].
    - intros s Hs. rewrite lookup_insert_ne; [done|set_solver].
    - apply union_subseteq_l.
    - intros s [Hs|Hs%elem_of_singleton]%elem_of_union; [by left|right]. subst. apply Hres.
      unfold shard_resident. by rewrite Em.
    - rewrite dom_insert_L. apply union_subseteq_r.
    - intros n Hin. destruct (decide (n = name)) as [->|Hne]; [right; auto with sdb|left]. by rewrite lookup_delete_ne. }
  pose proof Hcfg2 as (E1 & _ & E3 & _).
  set (db3 := if counts_towards_consensus name then foldl (release_consensus digest32 disk now) db2 (value_names ns)
              else db2).
  assert (H3 : impl db3 (if counts_towards_consensus name
                         then foldl (a_release (node db)) (delete name abs) (value_names ns) else delete name abs)
               /\ same_config db2 db3 /\ dirty db3 = dirty db2 /\ touches {[INTERNAL_SHARD]} db2 db3).
  { unfold db3. destruct (counts_towards_consensus name); [|split_and!; [done|done|done|apply touches_refl]].
    destruct (release_all_spec (value_names ns) db2 _ H2) as (H4 & H5 & H6 & H7). rewrite E3 in H4. done. }
  destruct H3 as (H3 & Hcfg3 & Hd3 & Ht3).
  assert (Ht4 : touches {[shard_of name; INTERNAL_SHARD]} db db3).
  { eapply (touches_trans {[shard_of name]} {[INTERNAL_SHARD]} _ db db2); [|exact Ht3|auto with sdb..].
    eapply touches_trans; [exact Ht|apply Ht2|done|done]. }
  split_and!; [done| | | | |done|].
  - destruct Hcfg3 as (_ & _ & E & _). change (node db3 = node db). congruence.
  - destruct Hcfg3 as (E & _). change (policy db3 = policy db). congruence.
  - destruct Ht4 as [T1 T2 T3 T4 T5 T6 T7 T8 T9]. by split.
  - intros _. change (shard_of name ∈ dirty db3). rewrite Hd3. apply Ht2.
  - exists (value_names ns). split_and!; [apply hash_keys_NoDup|intros; apply value_names_spec|].
    by apply with_latest_implements.
Qed.

(** ** Sweeping *)
Definition a_sweep (abs : Abs) (name : str) : Abs :=
  <[name := filter (fun p => is_expired p.2 now = false) (a_values abs name)]> abs.

(** The expired values of a namespace, each once. *)
Definition expired_of (vs : NsData) (l : list str) : Prop :=
  NoDup l /\ forall v, v ∈ l <-> exists a, vs !! v = Some a /\ is_expired a now = true.

Lemma remove_expired_ok ns : ns_ok ns -> ns_ok (remove_expired ns now).1.
Proof.
  intros [Hwf Hl]. split; [by apply remove_expired_wf|]. intros v a.
  rewrite remove_expired_lookup by done. destruct (values ns !! v) as [b|] eqn:E; [|done].
  destruct (is_expired b now); [done|]. intros [= <-]. eauto.
Qed.

Lemma remove_expired_stored ns vs :
  ns_wf ns -> stored_values (values ns) = vs ->
  stored_values (values (remove_expired ns now).1) = filter (fun p => is_expired p.2 now = false) vs
  /\ expired_of vs (remove_expired ns now).2.
Proof.
  intros Hwf <-. split.
  - apply map_eq. intros v. unfold stored_values. rewrite lookup_fmap, map_lookup_filter, lookup_fmap.
    rewrite remove_expired_lookup by done. destruct (values ns !! v) as [a|]; [|done]. simpl.
    rewrite is_expired_stored. by destruct (is_expired a now).
  - split; [apply remove_expired_NoDup|]. intros v. rewrite remove_expired_names by done.
    unfold stored_values. rewrite lookup_fmap. destruct (values ns !! v) as [a|]; simpl.
    + split; intros (b & Hb & Hx); simplify_eq; eexists; (split; [done|]);
        [by rewrite is_expired_stored|by rewrite is_expired_stored in Hx].
    + by split; intros (b & Hb & _).
Qed.

(** A property of the contents that survives sweeping one namespace and
    removing an empty one survives a sweep. *)
Definition sweep_stable (self : str) (P : Abs -> Prop) : Prop :=
  (forall abs name vs l, P abs -> abs !! name = Some vs -> expired_of vs l ->
     P (if counts_towards_consensus name then foldl (a_release self) (a_sweep abs name) l
        else a_sweep abs name))
  /\ (forall abs name, P abs -> abs !! name = Some ∅ -> P (delete name abs)).

Lemma sweep_one_spec P st name abs :
  impl st.1.1 abs -> P abs -> sweep_stable (node st.1.1) P ->
  exists abs', impl (sweep_one digest32 disk now st name).1.1 abs' /\ P abs'
    /\ same_config st.1.1 (sweep_one digest32 disk now st name).1.1.
Proof.
  destruct st as [[db removed] emptied]. cbn [fst snd]. intros Himp HP [Hs _]. unfold sweep_one.
  destruct (starts_with CONFIG_PREFIX name); [by exists abs|].
  destruct (namespaces db !! name) as [ns|] eqn:En; [|by exists abs].
  pose proof (inv_ns _ _ _ (proj1 Himp) _ _ En) as Hok.
  assert (Ha : abs !! name = Some (stored_values (values ns))).
  { rewrite <- (proj2 Himp). unfold content. by rewrite En. }
  destruct (remove_expired_stored ns _ (ok_wf _ Hok) eq_refl) as [Hst Hex].
  pose proof (put_ns_spec digest32 disk db abs name ns _ Himp En (remove_expired_ok ns Hok)) as H1.
  rewrite Hst in H1. specialize (Hs abs name _ _ HP Ha Hex).
  assert (H2 : impl (put_ns db name (remove_expired ns now).1) (a_sweep abs name)).
  { unfold a_sweep, a_values. rewrite Ha. exact H1. }
  set (db2 := if negb (is_empty (remove_expired ns now).2)
              then mark_dirty (put_ns db name (remove_expired ns now).1) name
              else put_ns db name (remove_expired ns now).1).
  assert (H3 : impl db2 (a_sweep abs name) /\ same_config db db2).
  { unfold db2. destruct (negb _); [|done]. split; [|done].
    eapply same_data_implements; [apply mark_dirty_same|exact H2]. }
  destruct H3 as [H3 Hcfg]. destruct (counts_towards_consensus name).
  - destruct (release_all_spec (remove_expired ns now).2 db2 _ H3) as (H4 & H5 & _ & _).
    pose proof Hcfg as (_ & _ & E & _). rewrite E in H4.
    eexists. split_and!; [exact H4|exact Hs|by etransitivity].
  - exists (a_sweep abs name). done.
Qed.

Lemma prune_one_spec P held db removed name abs self :
  impl (foldl uncatalogue db removed) abs -> P abs -> sweep_stable self P ->
  let r := prune_one held (db, removed) name in
  exists abs', impl (foldl uncatalogue r.1 r.2) abs' /\ P abs'
    /\ same_config (foldl uncatalogue db removed) (foldl uncatalogue r.1 r.2).
Proof.
  intros Himp HP [_ Hs] r. unfold r, prune_one.
  destruct (starts_with CONFIG_PREFIX name); [by exists abs|].
  destruct (namespaces db !! name) as [ns|] eqn:En; [|by exists abs].
  destruct (negb (bool_decide (name ∈ held)) && ns_is_empty ns) eqn:Ee; [|by exists abs].
  apply andb_true_iff in Ee as [_ Ee%bool_decide_eq_true]. cbn [fst snd].
  rewrite foldl_app, uncatalogue_comm. cbn [foldl].
  set (d := foldl uncatalogue db removed) in *.
  assert (Hd : namespaces d = namespaces db) by apply uncatalogue_all_ns.
  assert (Ha : abs !! name = Some ∅).
  { rewrite <- (proj2 Himp). unfold content. by rewrite Hd, En, Ee. }
  replace (uncatalogue (with_namespaces d (delete name (namespaces db))) name) with (remove_ns d name)
    by (unfold remove_ns; by rewrite Hd).
  exists (delete name abs). split_and!.
  - apply remove_ns_spec; [done|]. rewrite Hd. eauto.
  - by apply Hs.
  - unfold remove_ns, uncatalogue. by case_match.
Qed.

Lemma sweep_spec P held db abs :
  impl db abs -> P abs -> sweep_stable (node db) P ->
  exists abs', impl (sweep digest32 disk now held db).1 abs' /\ P abs'
    /\ same_config db (sweep digest32 disk now held db).1.
Proof.
  intros Himp HP Hs. unfold sweep.
  assert (H1 : forall names st abs, impl st.1.1 abs -> P abs -> same_config db st.1.1 ->
    exists abs', impl (foldl (sweep_one digest32 disk now) st names).1.1 abs' /\ P abs'
      /\ same_config db (foldl (sweep_one digest32 disk now) st names).1.1).
  { induction names as [|n names IH]; intros st abs0 Hi0 HP0 Hc0; [by exists abs0|]. cbn [foldl].
    pose proof Hc0 as (_ & _ & E & _).
    destruct (sweep_one_spec P st n abs0 Hi0 HP0 ltac:(by rewrite E)) as (abs1 & H1 & H2 & H3).
    apply (IH _ abs1 H1 H2). by etransitivity. }
  destruct (H1 (hash_keys (namespaces db)) (db, 0, []) abs Himp HP ltac:(done)) as (abs1 & Hi1 & HP1 & Hc1).
  destruct (foldl (sweep_one digest32 disk now) (db, 0, []) (hash_keys (namespaces db))) as [[db1 removed] emptied].
  cbn [fst snd] in *. unfold prune_empty.
  assert (H2 : forall names st abs, impl (foldl uncatalogue st.1 st.2) abs -> P abs ->
    same_config db (foldl uncatalogue st.1 st.2) ->
    exists abs', impl (foldl uncatalogue (foldl (prune_one held) st names).1 (foldl (prune_one held) st names).2) abs'
      /\ P abs' /\ same_config db (foldl uncatalogue (foldl (prune_one held) st names).1 (foldl (prune_one held) st names).2)).
  { induction names as [|n names IH]; intros [d rm] abs0 Hi0 HP0 Hc0; [by exists abs0|]. cbn [foldl].
    destruct (prune_one_spec P held d rm n abs0 (node db) Hi0 HP0 Hs) as (abs2 & H2 & H3 & H4).
    apply (IH _ abs2 H2 H3). by etransitivity. }
  destruct (H2 emptied (db1, []) abs1 Hi1 HP1 Hc1) as (abs2 & Hi2 & HP2 & Hc2).
  exists abs2. done.
Qed.
End Refinement.
