(* ===== verification/Consensus.v ===== *)
(** * The consensus tally

    [_all] holds, for every value, how many namespaces hold it.  The invariant
    says exactly that of the abstract store, and every operation of [Database]
    that writes, merges, deletes or expires values keeps it. *)

From stdpp Require Import base numbers list strings gmap sorting.
From S2P Require Import Prelude Activity Latest Attribute AttributeFacts Convergence Paths Tier Namespace Disk Database Contents Refine.

(** How many namespaces count [v] towards consensus. *)
Definition holders (abs : Abs) (v : str) : nat :=
  size (filter (fun p => counts_towards_consensus p.1 = true /\ is_Some (p.2 !! v)) abs).

Definition tally (abs : Abs) (v : str) : option Attribute := a_values abs ALL_NAMESPACE !! v.

(** The tally says [n]: under this server's own name, never expiring, and with
    no entry at all for nothing. *)
Definition tally_is (self : str) (o : option Attribute) (n : nat) : Prop :=
  match o with
  | Some a => counts a = {[self := Z.of_nat n]} /\ n <> 0 /\ ttl a = 0%Z
  | None => n = 0
  end.

(** Exact, but for one count still to be given back for each value of [l]. *)
Definition consensus_owed (self : str) (abs : Abs) (l : list str) : Prop :=
  forall v, tally_is self (tally abs v) (holders abs v + if bool_decide (v ∈ l) then 1 else 0).

Definition consensus_ok (self : str) (abs : Abs) : Prop :=
  forall v, tally_is self (tally abs v) (holders abs v).

(** ** Counting holders *)
Definition has (n : str) (o : option NsData) (v : str) : nat :=
  match o with
  | Some vs => if counts_towards_consensus n && bool_decide (is_Some (vs !! v)) then 1 else 0
  | None => 0
  end.

Lemma holders_insert_new abs n vs v :
  abs !! n = None -> holders (<[n := vs]> abs) v = has n (Some vs) v + holders abs v.
Proof.
  intros Hn. unfold holders, has. destruct (counts_towards_consensus n) eqn:Ec; simpl.
  - case_bool_decide as Hv.
    + rewrite map_filter_insert_True by done. rewrite map_size_insert_None; [done|].
      apply map_lookup_filter_None. by left.
    + rewrite map_filter_insert_False by (simpl; tauto). rewrite delete_id by done. done.
  - rewrite map_filter_insert_False by (simpl; rewrite Ec; naive_solver). by rewrite delete_id.
Qed.

Lemma holders_delete abs n v : holders abs v = has n (abs !! n) v + holders (delete n abs) v.
Proof.
  destruct (abs !! n) as [vs|] eqn:E.
  - rewrite <- (insert_id abs n vs) at 1 by done. rewrite <- insert_delete_eq.
    apply holders_insert_new, lookup_delete_eq.
  - by rewrite delete_id.
Qed.

Lemma holders_insert abs n vs v :
  holders (<[n := vs]> abs) v + has n (abs !! n) v = holders abs v + has n (Some vs) v.
Proof.
  rewrite (holders_delete abs n v), <- insert_delete_eq, holders_insert_new by apply lookup_delete_eq. lia.
Qed.

Lemma has_uncounted n o v : counts_towards_consensus n = false -> has n o v = 0.
Proof. intros Hc. unfold has. rewrite Hc. by destruct o. Qed.

Lemma holders_uncounted abs n vs v :
  counts_towards_consensus n = false -> holders (<[n := vs]> abs) v = holders abs v.
Proof. intros Hc. pose proof (holders_insert abs n vs v). rewrite !has_uncounted in H by done. lia. Qed.

Lemma holders_le abs v : holders abs v <= size abs.
Proof. apply map_size_filter. Qed.

Lemma tally_other abs n vs v : n <> ALL_NAMESPACE -> tally (<[n := vs]> abs) v = tally abs v.
Proof. intros Hn. unfold tally, a_values. by rewrite lookup_insert_ne. Qed.

Lemma all_uncounted : counts_towards_consensus ALL_NAMESPACE = false.
Proof. done. Qed.

Lemma counted_not_all n : counts_towards_consensus n = true -> n <> ALL_NAMESPACE.
Proof. intros Hc ->. done. Qed.

(** ** Writing *)
Lemma bump_tally_is self o v w keep n :
  (Z.of_nat n + 1 < U64_MODULUS)%Z -> tally_is self o n ->
  tally_is self (Some (stored_attr (write_attr (default (new v) o) self w None keep []))) (n + 1).
Proof.
  intros Hb Hn.
  destruct (write_attr_fields (default (new v) o) self w None keep []) as (_ & Ht & Hc & _).
  unfold tally_is, stored_attr. cbn [counts ttl]. rewrite Ht, Hc. destruct o as [a|]; simpl in *.
  - destruct Hn as (-> & _ & ->). split_and!; [|lia|done]. unfold add_entry.
    rewrite lookup_singleton_eq, insert_singleton_eq. simpl. do 2 f_equal. unfold u64_add.
    rewrite wrap64_id by (split; lia). lia.
  - subst. split_and!; done.
Qed.

Lemma record_all_owed self abs v w keep n :
  (Z.of_nat n + 1 < U64_MODULUS)%Z -> tally_is self (tally abs v) n ->
  let abs' := a_record abs self ALL_NAMESPACE v w None keep [] in
  tally_is self (tally abs' v) (n + 1)
  /\ (forall u, u <> v -> tally abs' u = tally abs u) /\ (forall u, holders abs' u = holders abs u).
Proof.
  intros Hb Hn abs'. unfold abs', a_record, a_update. split_and!.
  - unfold tally, a_values at 1. rewrite lookup_insert_eq. simpl. rewrite lookup_insert_eq.
    by apply bump_tally_is.
  - intros u Hu. unfold tally, a_values at 1. rewrite lookup_insert_eq. simpl. by rewrite lookup_insert_ne.
  - intros u. by apply holders_uncounted.
Qed.

Lemma has_update n abs path v f u :
  counts_towards_consensus path = true -> n = a_update abs path v f !! path ->
  has path n u = (if bool_decide (u = v) && a_absent abs path v then 1 else 0) + has path (abs !! path) u.
Proof.
  intros Hc ->. unfold a_update. rewrite lookup_insert_eq. unfold has, a_absent, a_values. rewrite Hc. simpl.
  destruct (decide (u = v)) as [->|Hu].
  - rewrite lookup_insert_eq, !bool_decide_eq_true_2 by eauto. simpl.
    destruct (abs !! path) as [vs|]; simpl; [|done].
    destruct (vs !! v) eqn:E; [rewrite (bool_decide_eq_false_2 (Some _ = None)) by done|]; done.
  - rewrite lookup_insert_ne, (bool_decide_eq_false_2 (u = v)) by done. simpl.
    by destruct (abs !! path).
Qed.

(** An update that brings a value to a counted namespace, followed by the bump
    of [_all] when it is new there. *)
Lemma update_consensus self abs path v f w keep :
  consensus_ok self abs -> (Z.of_nat (size abs) + 1 < U64_MODULUS)%Z ->
  counts_towards_consensus path = true ->
  let abs1 := a_update abs path v f in
  consensus_ok self (if a_absent abs path v then a_record abs1 self ALL_NAMESPACE v w None keep [] else abs1).
Proof.
  intros Hok Hb Hc abs1.
  assert (Hh : forall u, holders abs1 u
     = holders abs u + if bool_decide (u = v) && a_absent abs path v then 1 else 0).
  { intros u.
    pose proof (holders_insert abs path
      (<[v := stored_attr (f (default (new v) (a_values abs path !! v)))]> (a_values abs path)) u) as Hi.
    assert (Hu := has_update _ abs path v f u Hc eq_refl). unfold a_update in Hu.
    rewrite lookup_insert_eq in Hu. rewrite Hu in Hi. unfold abs1, a_update. lia. }
  assert (Ht : forall u, tally abs1 u = tally abs u).
  { intros u. apply tally_other. by apply counted_not_all. }
  destruct (a_absent abs path v) eqn:Ea.
  - destruct (record_all_owed self abs1 v w keep (holders abs v)) as (H1 & H2 & H3).
    { pose proof (holders_le abs v). lia. }
    { rewrite Ht. apply Hok. }
    intros u. rewrite H3, Hh. destruct (decide (u = v)) as [->|Hu].
    + rewrite bool_decide_eq_true_2 by done. exact H1.
    + rewrite bool_decide_eq_false_2 by done. simpl. rewrite Nat.add_0_r, H2, Ht by done. apply Hok.
  - intros u. rewrite Hh, Ht, andb_false_r, Nat.add_0_r. apply Hok.
Qed.

Lemma write_consensus self abs nd path v w t keep tgs :
  consensus_ok self abs -> (Z.of_nat (size abs) + 1 < U64_MODULUS)%Z ->
  counts_towards_consensus path = true -> consensus_ok self (a_write abs self nd path v w t keep tgs true).
Proof. intros. by apply (update_consensus self abs path v (fun a => write_attr a nd w t keep tgs)). Qed.

Lemma merge_consensus `{Chrono} self abs path v i now keep :
  consensus_ok self abs -> (Z.of_nat (size abs) + 1 < U64_MODULUS)%Z ->
  counts_towards_consensus path = true -> consensus_ok self (a_merge abs self path v i now keep).
Proof.
  intros. unfold a_merge. rewrite H2, andb_true_r.
  by apply (update_consensus self abs path v (fun a => merged a i self)).
Qed.

(** A namespace that does not count, other than the tally itself. *)
Lemma uncounted_consensus self abs n vs :
  consensus_ok self abs -> counts_towards_consensus n = false -> n <> ALL_NAMESPACE ->
  consensus_ok self (<[n := vs]> abs).
Proof. intros Hok Hc Hn v. rewrite holders_uncounted, tally_other by done. apply Hok. Qed.

Lemma delete_uncounted_consensus self abs n :
  consensus_ok self abs -> counts_towards_consensus n = false -> n <> ALL_NAMESPACE ->
  consensus_ok self (delete n abs).
Proof.
  intros Hok Hc Hn v. pose proof (holders_delete abs n v) as Hh. rewrite has_uncounted in Hh by done.
  assert (Ht : tally (delete n abs) v = tally abs v) by (unfold tally, a_values; by rewrite lookup_delete_ne).
  rewrite Ht. simpl in Hh. rewrite <- Hh. apply Hok.
Qed.

(** An empty namespace holds nothing. *)
Lemma create_consensus self abs n :
  consensus_ok self abs -> consensus_ok self (<[n := default ∅ (abs !! n)]> abs).
Proof.
  intros Hok v. pose proof (holders_insert abs n (default ∅ (abs !! n)) v) as Hi.
  assert (He : has n (Some (default ∅ (abs !! n))) v = has n (abs !! n) v).
  { destruct (abs !! n); [done|]. unfold has. simpl. rewrite lookup_empty, bool_decide_eq_false_2 by by intros [].
    by rewrite andb_false_r. }
  assert (Ht : tally (<[n := default ∅ (abs !! n)]> abs) v = tally abs v).
  { unfold tally, a_values. rewrite lookup_insert. case_decide; [|done]. subst. by destruct (abs !! ALL_NAMESPACE). }
  rewrite Ht. replace (holders _ v) with (holders abs v) by lia. apply Hok.
Qed.

(** ** Giving back *)
Lemma owed_nil self abs : consensus_owed self abs [] <-> consensus_ok self abs.
Proof.
  split; intros Hok v; specialize (Hok v); rewrite bool_decide_eq_false_2, Nat.add_0_r in *;
    try done; apply not_elem_of_nil.
Qed.

(** What giving one back leaves of an entry. *)
Definition released (self : str) (o : option Attribute) : option Attribute :=
  match o with
  | None => None
  | Some a => if bool_decide ((decrement a self).2 = 0%Z) then None else Some (decrement a self).1
  end.

Lemma released_is self o n :
  (Z.of_nat n < U64_MODULUS)%Z -> n <> 0 -> tally_is self o n -> tally_is self (released self o) (n - 1).
Proof.
  intros Hb Hn. destruct o as [a|]; simpl; [|done]. intros (Hc & _ & Ht).
  unfold decrement. rewrite Hc, lookup_singleton_eq. unfold u64_saturating_sub.
  rewrite Z.max_r by lia. destruct (decide (n = 1)) as [->|Hn1].
  - rewrite (bool_decide_eq_true_2 (Z.of_nat 1 - 1 = 0)%Z), delete_singleton_eq by lia. cbn [fst snd].
    assert (Hcnt : count (set_counts a ∅) = 0%Z) by done.
    by rewrite Hcnt, bool_decide_eq_true_2.
  - rewrite (bool_decide_eq_false_2 (Z.of_nat n - 1 = 0)%Z) by lia. rewrite insert_singleton_eq. cbn [fst snd].
    assert (Hcnt : count (set_counts a {[self := (Z.of_nat n - 1)%Z]}) = (Z.of_nat n - 1)%Z).
    { unfold count, set_counts. cbn [counts]. rewrite <- insert_empty, map_total_insert, map_total_empty
        by apply lookup_empty. rewrite wrap64_id by (split; lia). lia. }
    rewrite Hcnt, bool_decide_eq_false_2 by lia. unfold tally_is. simpl. split_and!; [|lia|done].
    f_equal. lia.
Qed.

Lemma a_release_spec self abs v :
  (forall u, tally (a_release self abs v) u = if decide (u = v) then released self (tally abs v) else tally abs u)
  /\ (forall u, holders (a_release self abs v) u = holders abs u)
  /\ size (a_release self abs v) = size abs.
Proof.
  unfold a_release, tally, a_values. destruct (abs !! ALL_NAMESPACE) as [all|] eqn:E.
  - split_and!; [|intros; by apply holders_uncounted|by apply map_size_insert_Some; eauto].
    intros u. rewrite lookup_insert_eq. cbn [from_option id]. unfold released.
    destruct (all !! v) as [a|] eqn:Ev.
    + case_bool_decide.
      * rewrite lookup_delete. repeat case_decide; congruence.
      * rewrite lookup_insert. repeat case_decide; congruence.
    + case_decide; congruence.
  - rewrite E. simpl. split_and!; [|done|done]. intros u. rewrite !lookup_empty. by case_decide.
Qed.

Lemma release_owed self abs v l :
  (Z.of_nat (size abs) + 1 < U64_MODULUS)%Z -> v ∉ l ->
  consensus_owed self abs (v :: l) -> consensus_owed self (a_release self abs v) l.
Proof.
  intros Hb Hv Hok u. destruct (a_release_spec self abs v) as (Ht & Hh & _). rewrite Ht, Hh.
  specialize (Hok u). pose proof (holders_le abs u). destruct (decide (u = v)) as [->|Hu].
  - rewrite bool_decide_eq_true_2 in Hok by left. rewrite bool_decide_eq_false_2 by done.
    replace (holders abs v + 0) with (holders abs v + 1 - 1) by lia. apply released_is; [lia|lia|done].
  - replace (bool_decide (u ∈ l)) with (bool_decide (u ∈ v :: l)); [done|].
    apply bool_decide_ext. rewrite elem_of_cons. tauto.
Qed.

Lemma release_all_owed self l abs :
  (Z.of_nat (size abs) + 1 < U64_MODULUS)%Z -> NoDup l -> consensus_owed self abs l ->
  consensus_ok self (foldl (a_release self) abs l) /\ size (foldl (a_release self) abs l) = size abs.
Proof.
  intros Hb Hd. revert abs Hb. induction Hd as [|v l Hv Hd IH]; intros abs Hb Hok.
  - split; [by apply owed_nil|done].
  - cbn [foldl]. destruct (a_release_spec self abs v) as (_ & _ & Hs).
    destruct (IH (a_release self abs v)) as [H1 H2]; [lia|by apply release_owed|]. split; [done|lia].
Qed.

(** Deleting a namespace, or sweeping values out of it, then giving back one
    count for each value that went. *)
Lemma shrink_consensus self abs name vs vs' l :
  consensus_ok self abs -> (Z.of_nat (size abs) + 1 < U64_MODULUS)%Z -> counts_towards_consensus name = true ->
  abs !! name = Some vs -> NoDup l ->
  (forall v, is_Some (vs !! v) <-> v ∈ l \/ is_Some (default ∅ vs' !! v)) ->
  (forall v, v ∈ l -> default ∅ vs' !! v = None) ->
  let abs' := match vs' with Some x => <[name := x]> abs | None => delete name abs end in
  consensus_ok self (foldl (a_release self) abs' l) /\ size (foldl (a_release self) abs' l) <= size abs.
Proof.
  intros Hok Hb Hc Hn Hd Hiff Hgone abs'.
  assert (Hs : size abs' <= size abs).
  { unfold abs'. destruct vs'; [by rewrite map_size_insert_Some by eauto|].
    rewrite map_size_delete_Some by eauto. lia. }
  assert (Ht : forall v, tally abs' v = tally abs v).
  { intros v. unfold abs'. pose proof (counted_not_all _ Hc). destruct vs'; [by apply tally_other|].
    unfold tally, a_values. by rewrite lookup_delete_ne. }
  assert (Hh : forall v, holders abs' v + (if bool_decide (v ∈ l) then 1 else 0) = holders abs v).
  { intros v. assert (Hhas : has name (abs !! name) v
      = has name vs' v + if bool_decide (v ∈ l) then 1 else 0).
    { rewrite Hn. unfold has. rewrite Hc. simpl.
      destruct (decide (v ∈ l)) as [Hv|Hv].
      - rewrite !(bool_decide_eq_true_2 (v ∈ l)) by done.
        rewrite (bool_decide_eq_true_2 (is_Some (vs !! v))) by (apply Hiff; by left).
        specialize (Hgone v Hv). destruct vs' as [x|]; simpl in Hgone; [|done].
        rewrite Hgone. by rewrite bool_decide_eq_false_2 by by intros [].
      - rewrite (bool_decide_eq_false_2 (v ∈ l)) by done. destruct vs' as [x|]; simpl in Hiff.
        + rewrite Nat.add_0_r. erewrite bool_decide_ext; [done|]. rewrite Hiff. tauto.
        + rewrite bool_decide_eq_false_2; [done|]. rewrite Hiff, lookup_empty. intros [?|[]]; done. }
    unfold abs'. destruct vs' as [x|].
    - pose proof (holders_insert abs name x v). lia.
    - pose proof (holders_delete abs name v). simpl in Hhas. lia. }
  destruct (release_all_owed self l abs') as [H1 H2]; [lia|done| |split; [done|lia]].
  intros v. rewrite Ht, Hh. apply Hok.
Qed.

Lemma delete_empty_consensus self abs name :
  consensus_ok self abs -> abs !! name = Some ∅ -> consensus_ok self (delete name abs).
Proof.
  intros Hok Hn v. pose proof (holders_delete abs name v) as Hh. rewrite Hn in Hh. unfold has in Hh.
  rewrite lookup_empty, bool_decide_eq_false_2, andb_false_r in Hh by by intros [].
  assert (Ht : tally (delete name abs) v = tally abs v).
  { unfold tally, a_values. rewrite lookup_delete. case_decide; [|done]. subst. by rewrite Hn. }
  rewrite Ht. simpl in Hh. rewrite <- Hh. apply Hok.
Qed.

Lemma sweep_consensus_stable self now (bound : nat) :
  (Z.of_nat bound + 1 < U64_MODULUS)%Z ->
  sweep_stable now self (fun abs => consensus_ok self abs /\ size abs <= bound).
Proof.
  intros Hb. split.
  - intros abs name vs l [Hok Hsz] Hn [Hd Hl].
    assert (Hlook : forall v, filter (fun p => is_expired p.2 now = false) vs !! v
       = match vs !! v with Some a => if is_expired a now then None else Some a | None => None end).
    { intros v. rewrite map_lookup_filter. destruct (vs !! v) as [a|]; simpl; [|done]. by destruct (is_expired a now). }
    assert (Hsw : a_sweep now abs name = <[name := filter (fun p => is_expired p.2 now = false) vs]> abs).
    { unfold a_sweep, a_values. by rewrite Hn. }
    rewrite Hsw. destruct (counts_towards_consensus name) eqn:Ec.
    + destruct (shrink_consensus self abs name vs (Some (filter (fun p => is_expired p.2 now = false) vs)) l)
        as [H1 H2]; try done; [lia| | |split; [done|]; lia].
      * intros v. simpl. rewrite Hlook, Hl. destruct (vs !! v) as [a|] eqn:Ev.
        -- split; [|eauto]. intros _. destruct (is_expired a now) eqn:Ex; eauto.
        -- split; [by intros []|]. intros [(a & ? & _)|[]]; done.
      * intros v (a & Ha & Hx)%Hl. simpl. by rewrite Hlook, Ha, Hx.
    + rewrite map_size_insert_Some by eauto. split; [|done].
      destruct (decide (name = ALL_NAMESPACE)) as [->|Hne]; [|by apply uncounted_consensus].
      assert (Hid : filter (fun p => is_expired p.2 now = false) vs = vs).
      { apply map_filter_id. intros v a Ha. simpl. apply is_expired_no_ttl.
        specialize (Hok v). unfold tally, a_values in Hok. rewrite Hn in Hok. simpl in Hok. rewrite Ha in Hok.
        apply Hok. }
      rewrite Hid, insert_id by done. done.
  - intros abs name [Hok Hsz] Hn. split; [by apply delete_empty_consensus|].
    rewrite map_size_delete_Some by eauto. lia.
Qed.

(** What the database answers for the consensus of a value. *)
Lemma consensus_count `{HashOrder} digest32 disk now db abs v :
  implements digest32 disk db abs -> consensus_ok (node db) abs -> (Z.of_nat (size abs) < U64_MODULUS)%Z ->
  (count_in digest32 disk now db ALL_NAMESPACE v).2 = Z.of_nat (holders abs v).
Proof.
  intros Himp Hok Hb. pose proof (holders_le abs v) as Hle.
  destruct (count_in_spec digest32 disk now db abs ALL_NAMESPACE v Himp) as (_ & _ & _ & _ & ->).
  specialize (Hok v). unfold tally, a_values, tally_is in Hok. destruct (abs !! ALL_NAMESPACE) as [vs|]; simpl in Hok.
  - destruct (vs !! v) as [a|]; [|by rewrite Hok]. destruct Hok as (Hc & _ & Ht).
    unfold is_expired, expires_at. rewrite Ht. simpl. unfold count. rewrite Hc.
    change ({[node db := Z.of_nat (holders abs v)]} : gmap str Z)
      with (<[node db := Z.of_nat (holders abs v)]> (∅ : gmap str Z)).
    rewrite map_total_insert, map_total_empty, Z.add_0_r by apply lookup_empty.
    apply wrap64_id. unfold is_u64. lia.
  - rewrite lookup_empty in Hok. simpl in Hok. by rewrite Hok.
Qed.
