(* ===== verification/Eviction.v ===== *)
(** * Eviction is invisible

    A shard that is resident and not dirty is on disk as it is in memory, so it
    can be dropped without being written; a dirty one is written first.  Either
    way the contents of the database stay what they were. *)

From stdpp Require Import base numbers list strings gmap sorting.
From S2P Require Import Prelude Activity Latest Attribute AttributeFacts Convergence Paths Tier Namespace Disk Database Persistence Contents Refine.

Section Eviction.
Context `{HashOrder} (digest32 : str -> N).

(** The values a namespace in memory, and a namespace of a file, stand for. *)
Definition mem_content (db : Database) (n : str) : option NsData :=
  (fun ns => stored_values (values ns)) <$> namespaces db !! n.
Definition file_content (nd : str) (data : ShardNamespaces) (n : str) : option NsData :=
  (fun vs => stored_values (values (from_values vs nd))) <$> data !! n.

(** The file of [s] holds what memory holds of it. *)
Definition synced (disk : Disk) (db : Database) (s : str) : Prop :=
  exists data, read_shard_file digest32 disk s = inl data /\ data_ok data
    /\ (forall n, shard_of n = s -> file_content (node db) data n = mem_content db n)
    /\ (forall n, is_Some (data !! n) -> shard_of n = s).

(** Every resident shard that is not dirty is synced, those of [risk] and the
    internal shard, which is never evicted, apart. *)
Definition clean (risk : gset str) (disk : Disk) (db : Database) : Prop :=
  is_Some (store db)
  /\ forall s meta, shards db !! s = Some meta -> resident meta = true -> s ∉ dirty db ->
       s ∉ risk -> s <> INTERNAL_SHARD -> synced disk db s.

(** The eviction of [s] writes it or finds it on disk. *)
Definition safe_to_evict (risk : gset str) (db : Database) (s : str) : Prop := s ∈ risk -> s ∈ dirty db.

(** No two shards share a file. *)
Definition files_distinct (db : Database) : Prop :=
  forall s1 s2, is_Some (shards db !! s1) -> is_Some (shards db !! s2) ->
    shard_file digest32 s1 = shard_file digest32 s2 -> s1 = s2.

Lemma migrate_stored_values vs nd :
  stored_values (values (from_values (stored_values vs) nd)) = stored_values vs.
Proof.
  unfold from_values, stored_values. cbn [values]. rewrite <- !map_fmap_compose. apply map_fmap_ext.
  intros v a _. unfold compose. by rewrite migrate_stored, stored_attr_idemp.
Qed.

Lemma shard_snapshot_lookup db s n :
  (stored_values <$> shard_snapshot db s) !! n = if decide (shard_of n = s) then mem_content db n else None.
Proof.
  unfold shard_snapshot, mem_content. rewrite !lookup_fmap, map_lookup_filter.
  destruct (namespaces db !! n) as [ns|]; simpl; case_decide; try done.
  - by rewrite option_guard_True.
  - by rewrite option_guard_False.
Qed.

Lemma snapshot_data_ok db s :
  (forall n ns, namespaces db !! n = Some ns -> ns_ok ns) -> data_ok (stored_values <$> shard_snapshot db s).
Proof.
  intros Hi n vs v a Hn Hv. rewrite shard_snapshot_lookup in Hn. case_decide; [|done].
  unfold mem_content in Hn. apply fmap_Some in Hn as (ns & Hns & ->).
  unfold stored_values in Hv. rewrite lookup_fmap in Hv. apply fmap_Some in Hv as (b & Hb & ->).
  destruct (ns_attr ns (ok_wf _ (Hi _ _ Hns)) v b Hb) as [Hw Hval].
  split_and!; [by apply stored_attr_wf|done|]. apply plausible_whole.
Qed.
Lemma stored_data_ok disk db s : db_inv digest32 disk db -> data_ok (stored_values <$> shard_snapshot db s).
Proof. intros Hi. apply snapshot_data_ok, Hi. Qed.

(** Writing a shard out syncs it. *)
Lemma synced_save disk disk0 db s :
  db_inv digest32 disk0 db -> synced (put_shard digest32 disk s (shard_snapshot db s)) db s.
Proof.
  intros Hi. eexists. split; [apply read_put_shard|]. split_and!.
  - by eapply stored_data_ok.
  - intros n Hn. unfold file_content. rewrite shard_snapshot_lookup, decide_True by done.
    unfold mem_content. destruct (namespaces db !! n) as [ns|]; simpl; [|done]. f_equal.
    apply migrate_stored_values.
  - intros n. rewrite shard_snapshot_lookup. case_decide; [done|by intros []].
Qed.

Lemma synced_ext disk disk' db db' s :
  synced disk db s -> read_shard_file digest32 disk' s = read_shard_file digest32 disk s ->
  node db' = node db -> (forall n, shard_of n = s -> namespaces db' !! n = namespaces db !! n) ->
  synced disk' db' s.
Proof.
  intros (data & Hr & Hok & Hc & Hs) Hd Hn Hns. exists data. rewrite Hd, Hn. split_and!; [done|done| |done].
  intros n Hsn. rewrite Hc by done. unfold mem_content. by rewrite Hns.
Qed.

(** Only the files of evicted shards matter to the contents. *)
Lemma implements_disk disk disk' db abs :
  implements digest32 disk db abs ->
  (forall s meta, shards db !! s = Some meta -> resident meta = false ->
     read_shard_file digest32 disk' s = read_shard_file digest32 disk s) ->
  implements digest32 disk' db abs.
Proof.
  intros [[H1 H2 H3 H4] Hc] Hd. split; [split|]; try done.
  - intros s meta Hs Hr. rewrite (Hd s meta) by done. eauto.
  - intros n. rewrite <- Hc. unfold content. destruct (namespaces db !! n); [done|].
    unfold catalogued. destruct (shards db !! shard_of n) as [m|] eqn:E; [|done].
    destruct (resident m) eqn:Er; [done|]. by rewrite (Hd _ _ E Er).
Qed.

Lemma foldl_delete_filter {V} (m : gmap str V) s n :
  foldl (fun m name => delete name m) m (filter (fun name => shard_of name = s) (hash_keys m)) !! n
  = if decide (shard_of n = s) then None else m !! n.
Proof.
  rewrite foldl_delete_lookup. destruct (decide (shard_of n = s)) as [Hs|Hs].
  - case_bool_decide as Hin; [done|]. destruct (m !! n) eqn:E; [|done]. destruct Hin.
    apply list_elem_of_filter. split; [done|]. apply elem_of_hash_keys. eauto.
  - rewrite bool_decide_eq_false_2; [done|]. intros [? _]%list_elem_of_filter. done.
Qed.

(** Dropping a synced shard. *)
Lemma drop_shard_spec disk db abs held s meta :
  implements digest32 disk db abs -> is_Some (store db) -> synced disk db s ->
  shards db !! s = Some meta -> resident meta = true ->
  let r := drop_shard held db s in
  implements digest32 disk r.1 abs /\ same_config db r.1 /\ dirty r.1 = dirty db
  /\ (forall n, shard_of n <> s -> namespaces r.1 !! n = namespaces db !! n)
  /\ (forall s', s' <> s -> shards r.1 !! s' = shards db !! s')
  /\ is_Some (shards r.1 !! s)
  /\ (r.2 = true -> exists m, shards r.1 !! s = Some m /\ resident m = false)
  /\ (r.2 = false -> r.1 = db).
Proof.
  intros Himp Hst (data & Hr & Hok & Hc & Hds) Hm Hres r. unfold r, drop_shard.
  destruct (existsb _ _); [by split_and!; eauto|]. cbn [shards with_namespaces]. rewrite Hm. cbn [fst snd].
  set (m' := foldl _ _ _).
  assert (Hm' : forall n, m' !! n = if decide (shard_of n = s) then None else namespaces db !! n)
    by (intros; apply foldl_delete_filter).
  destruct Himp as [[Hns Hmem Hcat Hdisk] Hcon].
  split_and!; try done.
  - split; [split|]; simpl.
    + intros n ns. rewrite Hm'. case_decide; [done|]. apply Hns.
    + intros n. rewrite Hm'. case_decide as Hs; [by intros []|]. intros Hn.
      rewrite lookup_insert_ne by congruence. by apply Hmem.
    + intros s' x n. rewrite lookup_insert. case_decide as Hs.
      * intros [= <-]. simpl. intros Hn. destruct (Hcat _ _ _ Hm Hn). split; [congruence|done].
      * intros Hx Hn. destruct (Hcat _ _ _ Hx Hn) as [H1 H2]. split; [done|]. rewrite Hm'.
        case_decide; [congruence|done].
    + intros s' x. rewrite lookup_insert. case_decide as Hs; [|apply Hdisk]. subst s'. intros [= <-] _. simpl.
      split; [done|]. exists data. split_and!; [done| |done]. apply set_eq. intros n.
      rewrite elem_of_dom. split.
      * intros Hn. pose proof (Hds n Hn) as Hsn. specialize (Hc n Hsn). unfold file_content, mem_content in Hc.
        destruct Hn as [vs Hvs]. rewrite Hvs in Hc. simpl in Hc. symmetry in Hc.
        apply fmap_Some in Hc as (ns & Hns' & _). destruct (Hmem n ltac:(eauto)) as (x & Hx & _ & Hin).
        rewrite Hsn, Hm in Hx. by simplify_eq.
      * intros Hn. destruct (Hcat _ _ _ Hm Hn) as [Hsn Hin]. specialize (Hc n Hsn).
        destruct (Hin Hres) as [ns Hns']. unfold file_content, mem_content in Hc. rewrite Hns' in Hc. simpl in Hc.
        apply fmap_Some in Hc as (vs & Hvs & _). eauto.
    + intros n. rewrite <- Hcon. unfold content, catalogued. simpl. rewrite Hm'. case_decide as Hs.
      * subst s. rewrite lookup_insert_eq. simpl. specialize (Hc n eq_refl).
        unfold file_content, mem_content in Hc. rewrite Hr.
        destruct (namespaces db !! n) as [ns|] eqn:En; simpl in Hc.
        -- destruct (Hmem n ltac:(eauto)) as (x & Hx & _ & Hin). rewrite Hm in Hx. simplify_eq.
           rewrite bool_decide_eq_true_2 by done. exact Hc.
        -- rewrite Hm, Hres. simpl. case_bool_decide as Hin; [|done].
           destruct (Hcat _ _ _ Hm Hin) as [_ Hx]. destruct (Hx Hres). congruence.
      * destruct (namespaces db !! n); [done|]. by rewrite lookup_insert_ne.
  - intros n Hn. simpl. rewrite Hm'. by case_decide.
  - intros s' Hs'. simpl. by rewrite lookup_insert_ne.
  - simpl. rewrite lookup_insert_eq. eauto.
  - intros _. simpl. rewrite lookup_insert_eq. eauto.
Qed.

Lemma with_dirty_same db d : same_data db (with_dirty db d).
Proof. by split. Qed.

(** The first half of a candidate: its file is as memory has it, and the files of
    the others are what they were. *)
Lemma evict_save_spec fails risk db disk disk1 abs s meta :
  implements digest32 disk db abs -> clean risk disk db -> files_distinct db -> safe_to_evict risk db s ->
  shards db !! s = Some meta -> resident meta = true -> s <> INTERNAL_SHARD ->
  evict_save digest32 fails db disk s = Some disk1 ->
  implements digest32 disk1 db abs /\ synced disk1 db s
  /\ forall s', s' <> s -> is_Some (shards db !! s') ->
       read_shard_file digest32 disk1 s' = read_shard_file digest32 disk s'.
Proof.
  intros Himp [_ Hcl] Hfd Hsafe Hm Hres Hint Hsave.
  assert (Ho : synced disk1 db s /\ forall s', s' <> s -> is_Some (shards db !! s') ->
         read_shard_file digest32 disk1 s' = read_shard_file digest32 disk s').
  { revert Hsave. unfold evict_save. case_bool_decide as Hd.
    - unfold save_shard, write_shard. destruct (fails (ShardTarget s)); [done|]. intros [= <-].
      split; [eapply synced_save, Himp|].
      intros s' Hne Hs'. apply read_put_other. intros He. apply Hne. symmetry. apply (Hfd s s'); eauto.
    - intros [= <-]. split; [|done]. eapply Hcl; try done. intros Hx. by apply Hd, Hsafe. }
  destruct Ho as [Hsync Hread]. split; [|done]. eapply implements_disk; [exact Himp|].
  intros s' m' Hs' Hr'. apply Hread; [|eauto]. intros ->. congruence.
Qed.

(** The step of [evict_idle] on one candidate. *)
Lemma evict_one_spec fails held risk db disk r abs s meta :
  implements digest32 disk db abs -> clean risk disk db -> files_distinct db -> safe_to_evict risk db s ->
  shards db !! s = Some meta -> resident meta = true -> s <> INTERNAL_SHARD ->
  let st := evict_one digest32 fails held (db, disk, r) s in
  implements digest32 st.1.2 st.1.1 abs /\ clean risk st.1.2 st.1.1 /\ same_config db st.1.1
  /\ (forall s', s' <> s -> shards st.1.1 !! s' = shards db !! s')
  /\ (forall s', is_Some (shards st.1.1 !! s') <-> is_Some (shards db !! s'))
  /\ (forall s', s' ∈ dirty st.1.1 -> s' ∈ dirty db /\ shards st.1.1 !! s' = shards db !! s')
  /\ (forall s', s' <> s -> s' ∈ dirty db -> s' ∈ dirty st.1.1).
Proof.
  intros Himp [Hst Hcl] Hfd Hsafe Hm Hres Hint st. unfold st, evict_one, evict_drop.
  destruct (evict_save digest32 fails db disk s) as [disk'|] eqn:Eo; [|done].
  destruct (evict_save_spec fails risk db disk disk' abs s meta Himp (conj Hst Hcl) Hfd Hsafe Hm Hres Hint Eo)
    as (Himp0 & Hsync & Hread).
  set (db1 := with_dirty db (dirty db ∖ {[s]})).
  assert (Himp1 : implements digest32 disk' db1 abs).
  { eapply same_data_implements; [apply with_dirty_same|exact Himp0]. }
  destruct (drop_shard_spec disk' db1 abs held s meta Himp1 Hst Hsync Hm Hres)
    as (H1 & H2 & H3 & H4 & H5 & H6 & H7 & H8).
  cbn [fst snd]. split_and!.
  - exact H1.
  - split; [by destruct H2 as (_ & _ & _ & -> & _)|].
    intros s' m' Hs' Hr' Hd' Hk' Hi'. destruct (decide (s' = s)) as [->|Hne].
    + destruct (drop_shard held db1 s).2 eqn:E.
      * destruct (H7 eq_refl) as (x & Hx & Hxr). congruence.
      * rewrite (H8 eq_refl). exact Hsync.
    + rewrite H5 in Hs' by done. rewrite H3 in Hd'.
      eapply (synced_ext disk disk' db).
      * eapply Hcl; [exact Hs'|done| |done|done]. simpl in Hd'. set_solver.
      * apply Hread; eauto.
      * by destruct H2 as (_ & _ & -> & _).
      * intros n Hn. rewrite H4; [done|congruence].
  - exact H2.
  - intros s' Hne. by rewrite H5.
  - intros s'. destruct (decide (s' = s)) as [->|Hne]; [|by rewrite H5]. split; eauto.
  - intros s'. rewrite H3. simpl. intros [Hd' Hne]%elem_of_difference. split; [done|]. rewrite H5; [done|].
    intros ->. by apply Hne, elem_of_singleton.
  - intros s' Hne Hd'. rewrite H3. simpl. set_solver.
Qed.

Lemma files_distinct_dom db db' :
  (forall s, is_Some (shards db' !! s) <-> is_Some (shards db !! s)) -> files_distinct db -> files_distinct db'.
Proof. intros Hs Hf s1 s2. rewrite !Hs. apply Hf. Qed.

Lemma evict_loop_spec fails held risk l st abs :
  NoDup l -> (forall s, s ∈ l -> safe_to_evict risk st.1.1 s) -> (forall s, s ∈ l -> s <> INTERNAL_SHARD /\ exists m, shards st.1.1 !! s = Some m /\ resident m = true) ->
  implements digest32 st.1.2 st.1.1 abs -> clean risk st.1.2 st.1.1 -> files_distinct st.1.1 ->
  let st' := foldl (evict_one digest32 fails held) st l in
  implements digest32 st'.1.2 st'.1.1 abs /\ clean risk st'.1.2 st'.1.1 /\ same_config st.1.1 st'.1.1
  /\ (forall s, is_Some (shards st'.1.1 !! s) <-> is_Some (shards st.1.1 !! s))
  /\ (forall s, s ∈ dirty st'.1.1 -> s ∈ dirty st.1.1 /\ shards st'.1.1 !! s = shards st.1.1 !! s).
Proof.
  intros Hd. revert st. induction Hd as [|s l Hs Hd IH]; intros [[db disk] r] Hsafe Hl Himp Hcl Hfd; [done|].
  cbn [foldl fst snd] in *. destruct (Hl s ltac:(left)) as (Hint & m & Hm & Hr).
  destruct (evict_one_spec fails held risk db disk r abs s m Himp Hcl Hfd (Hsafe s ltac:(left)) Hm Hr Hint)
    as (H1 & H2 & H3 & H4 & H5 & H5' & H5'').
  destruct (IH (evict_one digest32 fails held (db, disk, r) s)) as (H6 & H7 & H8 & H9 & H10); try done.
  - intros s' Hs' Hk. apply H5''; [by intros ->|]. apply Hsafe; [by right|done].
  - intros s' Hs'. destruct (Hl s' ltac:(by right)) as (Hi' & m' & Hm' & Hr'). split; [done|].
    exists m'. split; [|done]. rewrite H4; [done|]. intros ->. done.
  - by eapply files_distinct_dom.
  - split_and!; [done|done|by etransitivity| |].
    + intros s'. by rewrite H9, H5.
    + intros s' Hs'. destruct (H10 s' Hs') as [Ha Hb]. destruct (H5' s' Ha) as [Hc He]. split; [done|congruence].
Qed.

Lemma candidates_spec db now :
  NoDup (evict_candidates db now)
  /\ forall s, s ∈ evict_candidates db now -> s <> INTERNAL_SHARD
       /\ exists m, shards db !! s = Some m /\ resident m = true.
Proof.
  split.
  - eapply sublist_NoDup; [apply (hash_keys_NoDup (shards db))|]. apply fmap_sublist, sublist_filter.
  - intros s ([s' m] & -> & [Hx Hin]%list_elem_of_filter)%list_elem_of_fmap. apply elem_of_hash_iter in Hin.
    unfold idle_too_long in Hx. simpl in Hx. apply andb_true_iff in Hx as [Hr Hx]. split; [|eauto].
    cbn [fst]. intros ->. unfold idle_allowance, resolve in Hx. by rewrite bool_decide_eq_true_2 in Hx.
Qed.

Lemma evict_spec fails held risk db d now abs :
  implements digest32 (shard_files d) db abs -> clean risk (shard_files d) db -> files_distinct db ->
  (forall s, s ∈ evict_candidates db now -> safe_to_evict risk db s) ->
  let r := evict_idle digest32 fails held db d now in
  implements digest32 (shard_files r.1.2) r.1.1 abs
  /\ clean risk (shard_files r.1.2) r.1.1
  /\ same_config db r.1.1
  /\ (legacy_file r.1.2 = legacy_file d /\ activity_file r.1.2 = activity_file d
      /\ latest_file r.1.2 = latest_file d)
  /\ (forall s, is_Some (shards r.1.1 !! s) <-> is_Some (shards db !! s))
  /\ (forall s, s ∈ dirty r.1.1 -> s ∈ dirty db /\ shards r.1.1 !! s = shards db !! s).
Proof.
  intros Himp Hcl Hfd Hsafe r. unfold r, evict_idle. destruct (store db) eqn:Es; [|done].
  destruct (candidates_spec db now) as [Hd Hl].
  destruct (evict_loop_spec fails held risk (evict_candidates db now) (db, shard_files d, mkEvict 0 0 0) abs
    Hd Hsafe Hl Himp Hcl Hfd) as (H1 & H2 & H3 & H4 & H5).
  destruct (foldl (evict_one digest32 fails held) (db, shard_files d, mkEvict 0 0 0) (evict_candidates db now))
    as [[db' disk'] rep]. done.
Qed.
End Eviction.

(** C10: eviction is invisible.  Take a database in which every resident shard
    that is not marked is on disk as it is in memory, but for those of [risk], and
    no two of whose shards share a file; let nothing else run meanwhile and let no
    unmarked shard of [risk] be among the idle ones.  When the pass over the idle
    shards is done, whatever it wrote, dropped, found busy or failed to write, the
    database still implements the same contents to the second (every namespace
    with every value, from memory or from disk), every unmarked resident shard
    outside [risk] is still on disk as it is in memory, and nothing else about the
    database changed. *)
Theorem evict_invisible `{HashOrder} digest32 fails held risk db d now abs :
  implements digest32 (shard_files d) db abs -> clean digest32 risk (shard_files d) db -> files_distinct digest32 db ->
  (forall s, s ∈ evict_candidates db now -> safe_to_evict risk db s) ->
  let r := evict_idle digest32 fails held db d now in
  implements digest32 (shard_files r.1.2) r.1.1 abs
  /\ clean digest32 risk (shard_files r.1.2) r.1.1
  /\ same_config db r.1.1
  /\ legacy_file r.1.2 = legacy_file d /\ activity_file r.1.2 = activity_file d
  /\ latest_file r.1.2 = latest_file d.
Proof.
  intros Himp Hcl Hfd Hsafe r.
  destruct (evict_spec digest32 fails held risk db d now abs Himp Hcl Hfd Hsafe) as (H1 & H2 & H3 & (? & ? & ?) & _). done.
Qed.
