(* ===== verification/Service.v ===== *)
(** * Reading and writing for a client

    Models [src/src/sighting_reader.rs], [src/src/sighting_writer.rs] and
    [src/src/error.rs]: what a client's read or write is refused for, what it
    leaves behind (activity, shadow sightings, the latest writes, consensus),
    and how refusals become HTTP answers. *)

From stdpp Require Import base numbers list strings gmap sorting pretty.
From S2P Require Import Prelude Activity Latest Attribute AttributeFacts Convergence Paths Tier Namespace Disk Database Contents Refine.

(** ** Errors *)
Record NotFound := mkNotFound { nf_error : str; nf_namespace : str; nf_value : str }.

(** [NotFound::namespace] and [NotFound::value] *)
Definition not_found_namespace (ns v : str) : NotFound := mkNotFound (lit "Path not found") ns v.
Definition not_found_value (ns v : str) : NotFound := mkNotFound (lit "Value not found") ns v.

Inductive ApiError :=
  | ConfigNamespace
  | InternalNamespace (ns : str)
  | NotStored (ns : str)
  | ENotFound (nf : NotFound)
  | EmptyValue
  | InvalidTimestamp (t : Z).

(** The HTTP status codes the source names. *)
Definition BAD_REQUEST : Z := 400.
Definition FORBIDDEN : Z := 403.
Definition NOT_FOUND : Z := 404.
Definition MISDIRECTED_REQUEST : Z := 421.

Definition status (e : ApiError) : Z :=
  match e with
  | ConfigNamespace | InternalNamespace _ => FORBIDDEN
  | NotStored _ => MISDIRECTED_REQUEST
  | ENotFound _ => NOT_FOUND
  | EmptyValue | InvalidTimestamp _ => BAD_REQUEST
  end.

Definition signed_decimal (z : Z) : str := lit (pretty z).

(** [Display] *)
Definition display (e : ApiError) : str :=
  match e with
  | ConfigNamespace => lit "No access to _config namespace from outside!"
  | InternalNamespace ns =>
      lit "'" ++ ns ++ lit "' is an internal namespace and is not writable from outside."
  | NotStored ns =>
      lit "This server does not store '" ++ ns
      ++ lit "'. Its [storage] namespaces list says what it holds."
  | ENotFound nf => nf_error nf
  | EmptyValue => lit "Refusing to write an empty value."
  | InvalidTimestamp t => lit "Timestamp out of range: " ++ signed_decimal t
  end.

(** The JSON object, as its fields. *)
Definition body (e : ApiError) : list (str * str) :=
  match e with
  | ENotFound nf =>
      [(lit "error", nf_error nf); (lit "namespace", nf_namespace nf); (lit "value", nf_value nf)]
  | ConfigNamespace => [(lit "message", lit "No access to _config namespace from outside!")]
  | InternalNamespace _ | NotStored _ => [(lit "message", display e)]
  | EmptyValue => [(lit "message", lit "Refusing to write an empty value.")]
  | InvalidTimestamp t => [(lit "message", lit "Timestamp out of range: " ++ signed_decimal t)]
  end.

(** ** Writing *)

(** [sighting_writer::check]: [None] lets the write through. *)
Definition check (db : Database) (ns v : str) : option ApiError :=
  if is_empty v then Some EmptyValue
  else if is_internal ns then Some (InternalNamespace ns)
  else if negb (holds (stores db) ns) then Some (NotStored ns)
  else None.

Definition timestamp_to_instant `{Chrono} (t : Z) : Z + ApiError :=
  match from_timestamp t with
  | Some instant => inl instant
  | None => inr (InvalidTimestamp t)
  end.

Section Service.
Context `{Chrono} `{HashOrder} (digest32 : str -> N) (disk : Disk) (now : Z).

(** [sighting_writer::write_tagged_as] *)
Definition client_write (db : Database) (origin : option str) (ns v : str) (w : option Z) (t : option Z)
    (tgs : str) : Database * (Written + ApiError) :=
  match check db ns v with
  | Some e => (db, inr e)
  | None =>
      let nd := default (node db) origin in
      let db1 := with_activity db (Activity.record_write (activity db) ns (timestamp now)) in
      let r := Database.write_tagged_as digest32 disk now db1 nd ns v (default now w) (mkOpts true t) tgs in
      (with_latest r.1 (Latest.record_at (latest r.1) ns v (timestamp now)), inl r.2)
  end.

(** ** Reading *)
Definition shadow_path (ns : str) : str := SHADOW_PREFIX ++ ns.

(** [sighting_reader::read] *)
Definition client_read (db : Database) (ns v : str) (with_stats with_shadow : bool) :
    Database * (AttributeView + ApiError) :=
  if starts_with CONFIG_PREFIX ns then (db, inr ConfigNamespace)
  else
    let db1 := with_activity db (Activity.record_read (activity db) ns (timestamp now)) in
    let c := count_in digest32 disk now db1 ALL_NAMESPACE v in
    let q := view_in digest32 disk now c.1 ns v c.2 with_stats in
    let result :=
      match q.2 with
      | Some vw => inl vw
      | None => if namespace_exists q.1 ns then inr (ENotFound (not_found_value ns v))
                else inr (ENotFound (not_found_namespace ns v))
      end in
    (if with_shadow then (write digest32 disk now q.1 (shadow_path ns) v now default_opts).1 else q.1, result).

(** The views of [Database::namespace_views], each with its consensus. *)
Definition fill_consensus (st : Database * list AttributeView) (vw : AttributeView) :
    Database * list AttributeView :=
  let c := count_in digest32 disk now st.1 ALL_NAMESPACE (v_value vw) in
  (c.1, st.2 ++ [mkView (v_value vw) (v_first_seen vw) (v_last_seen vw) (v_count vw) (v_tags vw) (v_ttl vw)
                   c.2 (v_stats vw)]).

Definition namespace_views (db : Database) (ns : str) : Database * option (list AttributeView) :=
  let r := namespace digest32 disk now db ns in
  match r.2 with
  | None => (r.1, None)
  | Some n =>
      let q := foldl fill_consensus (r.1, []) (all_views n false now) in
      (q.1, Some q.2)
  end.

(** [sighting_reader::read_namespace] *)
Definition client_read_namespace (db : Database) (ns : str) : Database * (list AttributeView + ApiError) :=
  if starts_with CONFIG_PREFIX ns then (db, inr ConfigNamespace)
  else
    let db1 := with_activity db (Activity.record_read (activity db) ns (timestamp now)) in
    let r := namespace_views db1 ns in
    (r.1, match r.2 with
          | Some views => inl views
          | None => inr (ENotFound (not_found_namespace ns []))
          end).
End Service.

(** ** What the database answers, from its contents *)
Lemma segments_prefixed seg r :
  seg <> [] -> SLASH ∉ seg -> head (segments (seg ++ SLASH :: r)) = Some seg.
Proof.
  intros Hne Hs. unfold segments. rewrite split_char_app by done. by rewrite filter_cons_True.
Qed.

Lemma prefixed_internal seg ns :
  seg <> [] -> SLASH ∉ seg -> starts_with UNDERSCORE seg = true ->
  starts_with (seg ++ [SLASH]) ns = true -> is_internal ns = true.
Proof.
  intros Hne Hs Hu [r ->]%starts_with_spec. unfold is_internal. rewrite <- app_assoc. simpl.
  by rewrite segments_prefixed.
Qed.

(** Every namespace a client may write counts towards consensus. *)
Lemma ordinary_counts ns : is_internal ns = false -> counts_towards_consensus ns = true.
Proof.
  intros Hi. unfold counts_towards_consensus.
  assert (Hall : ns <> ALL_NAMESPACE) by (intros ->; discriminate Hi).
  rewrite bool_decide_eq_false_2 by done. simpl.
  assert (Hno : forall seg : str, seg <> [] -> SLASH ∉ seg -> starts_with UNDERSCORE seg = true ->
     negb (starts_with (seg ++ [SLASH]) ns) = true).
  { intros seg H1 H2 H3. destruct (starts_with (seg ++ [SLASH]) ns) eqn:E; [|done].
    by rewrite (prefixed_internal seg ns H1 H2 H3 E) in Hi. }
  apply andb_true_iff. split.
  - apply (Hno (lit "_shadow")); [done| |done]. by apply (bool_decide_unpack _).
  - apply (Hno (lit "_config")); [done| |done]. by apply (bool_decide_unpack _).
Qed.

Section ServiceFacts.
Context `{Chrono} `{HashOrder} (digest32 : str -> N) (disk : Disk) (now : Z).

Definition visible (abs : Abs) (path v : str) : option Attribute :=
  match a_values abs path !! v with
  | Some a => if is_expired a now then None else Some a
  | None => None
  end.

Lemma view_in_spec db abs path v c s :
  implements digest32 disk db abs ->
  let r := view_in digest32 disk now db path v c s in
  implements digest32 disk r.1 abs /\ same_config db r.1 /\ dirty r.1 = dirty db
  /\ touches {[shard_of path]} db r.1
  /\ r.2 = (fun a => view a c s) <$> visible abs path v.
Proof.
  intros Himp r. destruct (namespace_spec digest32 disk now db abs path Himp) as (H1 & H2 & H3 & H4 & Hr).
  unfold r, view_in. cbn [fst snd]. split_and!; try done. unfold visible, a_values.
  destruct (namespace digest32 disk now db path).2 as [ns|]; destruct Hr as [Hr1 Hr2].
  - rewrite Hr2. cbn [default from_option id]. unfold view_value, stored_values. rewrite lookup_fmap.
    destruct (values ns !! v) as [a|]; [|done]. cbn [fmap option_fmap option_map].
    rewrite is_expired_stored. destruct (is_expired a now); [done|]. cbn. by rewrite view_stored.
  - by rewrite Hr1.
Qed.

Lemma count_in_visible db abs path v :
  implements digest32 disk db abs ->
  (count_in digest32 disk now db path v).2 = match visible abs path v with Some a => count a | None => 0%Z end.
Proof.
  intros Himp. destruct (count_in_spec digest32 disk now db abs path v Himp) as (_ & _ & _ & _ & ->).
  unfold visible, a_values. destruct (abs !! path) as [vs|]; [|done]. simpl.
  destruct (vs !! v) as [a|]; [|done]. by destruct (is_expired a now).
Qed.

Lemma exists_spec db abs ns :
  implements digest32 disk db abs -> namespace_exists db ns = bool_decide (is_Some (abs !! ns)).
Proof.
  intros [Hi Hc]. rewrite <- Hc. unfold namespace_exists, content.
  destruct (namespaces db !! ns) as [x|] eqn:En; [by rewrite !bool_decide_eq_true_2 by eauto|].
  rewrite bool_decide_eq_false_2 by by intros []. simpl. unfold catalogued.
  destruct (shards db !! shard_of ns) as [m|] eqn:Em; [|by rewrite bool_decide_eq_false_2 by by intros []].
  destruct (decide (ns ∈ meta_namespaces m)) as [Hin|Hin].
  - rewrite !(bool_decide_eq_true_2 (ns ∈ _)) by done. destruct (resident m) eqn:Er; simpl.
    + destruct (inv_cat _ _ _ Hi _ _ _ Em Hin) as [_ Hx]. destruct (Hx Er). congruence.
    + destruct (inv_disk _ _ _ Hi _ _ Em Er) as (_ & data & -> & Hdom & _).
      rewrite <- Hdom in Hin. apply elem_of_dom in Hin as [vs ->]. by rewrite bool_decide_eq_true_2 by eauto.
  - rewrite !(bool_decide_eq_false_2 (ns ∈ _)) by done. rewrite andb_false_r.
    by rewrite bool_decide_eq_false_2 by by intros [].
Qed.

End ServiceFacts.

Section ServiceExact.
Context `{Chrono} `{HashOrder} (digest32 : str -> N) (disk : Disk) (now : Z).

Lemma write_ttl_ordinary db ns t : is_internal ns = false -> write_ttl db ns t = t.
Proof.
  intros Hi. apply ordinary_counts in Hi. unfold counts_towards_consensus in Hi.
  apply andb_true_iff in Hi as [[_ Hs%negb_true_iff]%andb_true_iff _].
  unfold write_ttl. destruct t; [done|]. by rewrite Hs.
Qed.

Lemma client_write_accepted db abs origin ns v w t tgs :
  implements digest32 disk db abs -> opt_u64 t -> is_u64 (shadow_ttl (policy db)) -> plausible (default now w) ->
  check db ns v = None ->
  let r := client_write digest32 disk now db origin ns v w t tgs in
  implements digest32 disk r.1
    (a_write abs (node db) (default (node db) origin) ns v (default now w) t (stats_retention (policy db)) tgs true)
  /\ node r.1 = node db /\ policy r.1 = policy db /\ stores r.1 = stores db
  /\ touches {[shard_of ns; INTERNAL_SHARD]} db r.1 /\ shard_of ns ∈ dirty r.1
  /\ is_internal ns = false
  /\ r.2 = inl (mkWritten (u64_add (count (default (new v) (a_values abs ns !! v))) 1) (a_absent abs ns v)).
Proof.
  intros Himp Ht Hsh Hpw Hck r. unfold r, client_write. rewrite Hck.
  assert (Hint : is_internal ns = false) by (unfold check in Hck; by repeat case_match).
  set (db1 := with_activity db (Activity.record_write (activity db) ns (timestamp now))).
  assert (H1 : implements digest32 disk db1 abs) by by apply with_activity_implements.
  destruct (record_write_spec digest32 disk now db1 abs (default (node db) origin) ns v (default now w)
    (mkOpts true t) tgs H1 (conj Ht Hsh) Hpw) as (H2 & H3 & H4 & H5 & H6 & H7).
  cbn [consensus opt_ttl] in *. rewrite write_ttl_ordinary in H2 by done.
  unfold Database.write_tagged_as.
  set (q := record_write digest32 disk now db1 (default (node db) origin) ns v (default now w) (mkOpts true t) tgs) in *.
  cbn [fst snd]. split_and!.
  - apply with_latest_implements. exact H2.
  - destruct H3 as (_ & _ & E & _). exact E.
  - destruct H3 as (E & _). exact E.
  - destruct H3 as (_ & E & _). exact E.
  - destruct H7 as [T1 T2 T3 T4 T5 T6 T7]. by split.
  - change (shard_of ns ∈ dirty q.1). rewrite H4. auto with sdb.
  - exact Hint.
  - f_equal. destruct q.2 as [c b]. cbn [written_new written_count] in H5, H6. by subst.
Qed.

Lemma count_stored_view a c s : v_count (view a c s) = count a.
Proof. done. Qed.

(** A read, from the contents. *)
Lemma client_read_spec db abs ns v s shadow :
  implements digest32 disk db abs -> is_u64 (shadow_ttl (policy db)) -> plausible now ->
  starts_with CONFIG_PREFIX ns = false ->
  let r := client_read digest32 disk now db ns v s shadow in
  implements digest32 disk r.1
    (if shadow then a_record abs (node db) (shadow_path ns) v now (write_ttl db (shadow_path ns) None)
                      (stats_retention (policy db)) [] else abs)
  /\ node r.1 = node db /\ policy r.1 = policy db /\ stores r.1 = stores db
  /\ r.2 = match visible now abs ns v with
           | Some a => inl (view a (match visible now abs ALL_NAMESPACE v with Some t => count t | None => 0%Z end) s)
           | None => inr (ENotFound (if bool_decide (is_Some (abs !! ns)) then not_found_value ns v
                                     else not_found_namespace ns v))
           end.
Proof.
  intros Himp Hsh Hnow Hcfg r. unfold r, client_read. rewrite Hcfg.
  set (db1 := with_activity db (Activity.record_read (activity db) ns (timestamp now))).
  assert (H1 : implements digest32 disk db1 abs) by by apply with_activity_implements.
  pose proof (count_in_visible digest32 disk now db1 abs ALL_NAMESPACE v H1) as Hcons.
  destruct (count_in_spec digest32 disk now db1 abs ALL_NAMESPACE v H1) as (H2 & C2 & _ & _ & _).
  set (c := count_in digest32 disk now db1 ALL_NAMESPACE v) in *.
  destruct (view_in_spec digest32 disk now c.1 abs ns v c.2 s H2) as (H3 & C3 & _ & _ & Hview).
  set (q := view_in digest32 disk now c.1 ns v c.2 s) in *.
  assert (Cq : same_config db1 q.1) by (etransitivity; [exact C2|exact C3]).
  destruct Cq as (Ep & Es & En & _).
  assert (Hres : forall o, o = match q.2 with
      | Some vw => inl vw
      | None => if namespace_exists q.1 ns then inr (ENotFound (not_found_value ns v))
                else inr (ENotFound (not_found_namespace ns v))
      end -> o = match visible now abs ns v with
           | Some a => inl (view a (match visible now abs ALL_NAMESPACE v with Some t => count t | None => 0%Z end) s)
           | None => inr (ENotFound (if bool_decide (is_Some (abs !! ns)) then not_found_value ns v
                                     else not_found_namespace ns v))
           end).
  { intros o ->. rewrite Hview, Hcons. destruct (visible now abs ns v); cbn [fmap option_fmap option_map]; [done|].
    rewrite (exists_spec digest32 disk q.1 abs ns H3). by case_bool_decide. }
  cbn [fst snd]. destruct shadow; [|by split_and!; auto].
  destruct (record_write_spec digest32 disk now q.1 abs (node q.1) (shadow_path ns) v now default_opts [] H3)
    as (H4 & C4 & _).
  { split; [done|]. by rewrite Ep. }
  { done. }
  assert (Et : write_ttl q.1 (shadow_path ns) None = write_ttl db (shadow_path ns) None)
    by (unfold write_ttl; by rewrite Ep).
  unfold a_write in H4. cbn [consensus default_opts andb opt_ttl] in H4. rewrite Et in H4.
  destruct C4 as (Ep4 & Es4 & En4 & _). split_and!; [| | | |by apply Hres].
  - replace (a_record abs (node db) (shadow_path ns) v now (write_ttl db (shadow_path ns) None)
      (stats_retention (policy db)) []) with (a_record abs (node q.1) (shadow_path ns) v now
      (write_ttl db (shadow_path ns) None) (stats_retention (policy q.1)) []); [exact H4|].
    by rewrite En, Ep.
  - transitivity (node q.1); [exact En4|exact En].
  - transitivity (policy q.1); [exact Ep4|exact Ep].
  - transitivity (stores q.1); [exact Es4|exact Es].
Qed.
End ServiceExact.

(** ** Properties *)
Lemma empty_implements digest32 disk p s n : implements digest32 disk (with_node p s n) ∅.
Proof.
  split; [split|]; simpl; try (intros *; by rewrite lookup_empty).
Qed.

(** C7: a client's write is let through exactly when the value is not empty and
    the namespace is an ordinary one this server stores; a refusal says which
    of these failed, in that order, and changes nothing at all.  An accepted
    write is one sighting in the contents, counted for its origin, bringing the
    value to [_all] when it is new in its namespace, and it reports the new
    count and whether the value was new. *)
Theorem client_write_exact `{Chrono, HashOrder} digest32 disk now db abs origin ns v w t tgs :
  implements digest32 disk db abs -> opt_u64 t -> is_u64 (shadow_ttl (policy db)) -> plausible (default now w) ->
  let r := client_write digest32 disk now db origin ns v w t tgs in
  (check db ns v = None <-> v <> [] /\ is_internal ns = false /\ holds (stores db) ns = true)
  /\ match check db ns v with
     | Some e => r = (db, inr e)
         /\ e = (if is_empty v then EmptyValue else if is_internal ns then InternalNamespace ns else NotStored ns)
     | None =>
         implements digest32 disk r.1
           (a_write abs (node db) (default (node db) origin) ns v (default now w) t
              (stats_retention (policy db)) tgs true)
         /\ counts_towards_consensus ns = true /\ shard_of ns ∈ dirty r.1
         /\ r.2 = inl (mkWritten (u64_add (count (default (new v) (a_values abs ns !! v))) 1) (a_absent abs ns v))
     end.
Proof.
  intros Himp Ht Hsh Hpw r. split.
  - unfold check. destruct v; [naive_solver|]. simpl. destruct (is_internal ns); [naive_solver|].
    destruct (holds (stores db) ns); naive_solver.
  - destruct (check db ns v) as [e|] eqn:E.
    + split; [unfold r, client_write; by rewrite E|]. unfold check in E. by repeat case_match; simplify_eq.
    + destruct (client_write_accepted digest32 disk now db abs origin ns v w t tgs Himp Ht Hsh Hpw E)
        as (H1 & _ & _ & _ & _ & H2 & H3 & H4). split_and!; [done|by apply ordinary_counts|done|done].
Qed.

Definition demo_db : Database := with_node (mkPolicy 0 0) (from_prefixes [lit "feeds"]) (lit "n1").

Lemma client_write_exact_witness :
  let C := chrono_10000y in let O := some_order in
  (client_write (fun _ => 7%N) ∅ (100 * NANOS) demo_db None (lit "feeds/misp") (lit "1.2.3.4") None None []).2
  = inl (mkWritten 1 true)
  /\ client_write (fun _ => 7%N) ∅ (100 * NANOS) demo_db None (lit "_all") (lit "1.2.3.4") None None []
     = (demo_db, inr (InternalNamespace (lit "_all"))).
Proof.
  intros C O. split.
  - exact (proj2 (proj2 (proj2 (proj2 (@client_write_exact C O (fun _ => 7%N) ∅ (100 * NANOS) demo_db ∅ None (lit "feeds/misp")
      (lit "1.2.3.4") None None [] (empty_implements _ _ _ _ _) I ltac:(done) (plausible_whole 100)))))).
  - exact (proj1 (proj2 (@client_write_exact C O (fun _ => 7%N) ∅ (100 * NANOS) demo_db ∅ None (lit "_all")
      (lit "1.2.3.4") None None [] (empty_implements _ _ _ _ _) I ltac:(done) (plausible_whole 100)))).
Defined.

(** C8: a client's read answers from the contents, wherever they are: the live
    value with its consensus, or that the value or the namespace is not there;
    an expired value reads as absent.  Asking leaves exactly one shadow
    sighting, whether or not the value was found, and nothing when shadowing is
    off; the configuration namespaces are refused and untouched. *)
Theorem client_read_exact `{Chrono, HashOrder} digest32 disk now db abs ns v s shadow :
  implements digest32 disk db abs -> is_u64 (shadow_ttl (policy db)) -> plausible now ->
  let r := client_read digest32 disk now db ns v s shadow in
  if starts_with CONFIG_PREFIX ns then r = (db, inr ConfigNamespace)
  else
    implements digest32 disk r.1
      (if shadow then a_record abs (node db) (shadow_path ns) v now (write_ttl db (shadow_path ns) None)
                        (stats_retention (policy db)) [] else abs)
    /\ r.2 = match visible now abs ns v with
             | Some a => inl (view a (match visible now abs ALL_NAMESPACE v with Some t => count t | None => 0%Z end) s)
             | None => inr (ENotFound (if bool_decide (is_Some (abs !! ns)) then not_found_value ns v
                                       else not_found_namespace ns v))
             end.
Proof.
  intros Himp Hsh Hnow r. destruct (starts_with CONFIG_PREFIX ns) eqn:E.
  - unfold r, client_read. by rewrite E.
  - destruct (client_read_spec digest32 disk now db abs ns v s shadow Himp Hsh Hnow E) as (H1 & _ & _ & _ & H2).
    done.
Qed.

Lemma client_read_exact_witness :
  let C := chrono_10000y in let O := some_order in
  (client_read (fun _ => 7%N) ∅ (100 * NANOS) demo_db (lit "feeds/misp") (lit "x") false true).2
  = inr (ENotFound (not_found_namespace (lit "feeds/misp") (lit "x"))).
Proof.
  intros C O.
  exact (proj2 (@client_read_exact C O (fun _ => 7%N) ∅ (100 * NANOS) demo_db ∅ (lit "feeds/misp") (lit "x") false true
    (empty_implements _ _ _ _ _) ltac:(done) (plausible_whole 100))).
Defined.

(** Every refusal is answered with a client error whose body is one message,
    or the three fields of a lookup that found nothing; only a lookup gives 404,
    and only a namespace stored elsewhere gives 421. *)
Theorem error_answers e :
  (400 <= status e < 500)%Z
  /\ (status e = NOT_FOUND <-> exists nf, e = ENotFound nf)
  /\ (status e = MISDIRECTED_REQUEST <-> exists ns, e = NotStored ns)
  /\ match e with
     | ENotFound nf => body e = [(lit "error", nf_error nf); (lit "namespace", nf_namespace nf); (lit "value", nf_value nf)]
     | _ => body e = [(lit "message", display e)]
     end.
Proof.
  destruct e; unfold status, FORBIDDEN, MISDIRECTED_REQUEST, NOT_FOUND, BAD_REQUEST;
    (split; [lia|]); (split; [split; [try (by intros); eauto|by intros [? [=]]]|]);
    (split; [split; [try (by intros); eauto|by intros [? [=]]]|]); done.
Qed.
