(* ===== verification/Accounted.v ===== *)
(** * Nothing changes in memory without being marked

    Every operation that changes what a shard holds leaves the shard dirty, the
    internal shard apart; a read may page a shard in, which leaves it as its
    file says.  So a resident shard that is not dirty is always on disk. *)

From stdpp Require Import base numbers list strings gmap sorting.
From S2P Require Import Prelude Activity Latest Attribute AttributeFacts Convergence Paths Tier Namespace Disk Database Persistence Contents Refine Eviction Service.

(** Whatever was touched is dirty now, or internal. *)
Definition accounted (db db' : Database) : Prop :=
  exists S, touches S db db' /\ forall s, s ∈ S -> s = INTERNAL_SHARD \/ s ∈ dirty db'.

Lemma accounted_refl db : accounted db db.
Proof. exists ∅. split; [apply touches_refl|]. intros s Hs. by apply elem_of_empty in Hs. Qed.

Lemma accounted_trans db1 db2 db3 : accounted db1 db2 -> accounted db2 db3 -> accounted db1 db3.
Proof.
  intros (S1 & T1 & H1) (S2 & T2 & H2). exists (S1 ∪ S2). split.
  - eapply touches_trans; [exact T1|exact T2|apply union_subseteq_l|apply union_subseteq_r].
  - pose proof (t_dirty _ _ _ T2). intros s [Hs|Hs]%elem_of_union; [|auto]. destruct (H1 s Hs); [by left|right; auto].
Qed.

Lemma accounted_pair a db db' :
  touches {[a; INTERNAL_SHARD]} db db' -> a ∈ dirty db' -> accounted db db'.
Proof.
  intros Ht Ha. exists {[a; INTERNAL_SHARD]}. split; [done|].
  intros s [Hs|Hs]%elem_of_union; apply elem_of_singleton in Hs; subst; auto.
Qed.

Lemma accounted_internal db db' : touches {[INTERNAL_SHARD]} db db' -> accounted db db'.
Proof. intros Ht. exists {[INTERNAL_SHARD]}. split; [done|]. intros s Hs%elem_of_singleton. by left. Qed.

(** A dirty shard is in memory, so its file is not the only copy. *)
Definition dirty_resident (db : Database) : Prop := forall s, s ∈ dirty db -> shard_resident db s = true.

Lemma dirty_resident_accounted db db' : dirty_resident db -> accounted db db' -> dirty_resident db'.
Proof.
  intros Hd (S & Ht & _) s Hs. destruct (t_marked _ _ _ Ht s Hs) as [H1|]; [|done].
  apply (t_stays _ _ _ Ht), Hd, H1.
Qed.

Section Clean.
Context `{Chrono} `{HashOrder} (digest32 : str -> N) (risk : gset str) (disk : Disk) (now : Z).

Lemma resident_some db s m : shards db !! s = Some m -> resident m = true <-> resident <$> shards db !! s = Some true.
Proof. intros ->. simpl. split; [by intros ->|by intros [= ->]]. Qed.

Lemma clean_touches risk' S db db' :
  clean digest32 risk disk db -> touches S db db' -> risk ⊆ risk' ->
  (forall s, s ∈ S -> s = INTERNAL_SHARD \/ s ∈ dirty db' \/ s ∈ risk' \/ synced digest32 disk db' s) ->
  clean digest32 risk' disk db'.
Proof.
  intros [Hst Hcl] Ht Hsub HS. split; [by rewrite (t_store _ _ _ Ht)|].
  intros s m Hm Hr Hd Hk Hi. destruct (decide (s ∈ S)) as [Hs|Hs].
  - destruct (HS s Hs) as [|[|[|]]]; done.
  - pose proof (t_shards _ _ _ Ht s Hs) as Hsh. rewrite Hm in Hsh. simpl in Hsh. symmetry in Hsh.
    apply fmap_Some in Hsh as (m0 & Hm0 & Hr0).
    eapply synced_ext; [eapply (Hcl s m0)|done|apply Ht|].
    + done.
    + congruence.
    + intros Hx. apply Hd. by apply (t_dirty _ _ _ Ht).
    + intros Hx. by apply Hk, Hsub.
    + done.
    + intros n <-. apply (t_ns _ _ _ Ht). done.
Qed.

Lemma clean_accounted db db' : clean digest32 risk disk db -> accounted db db' -> clean digest32 risk disk db'.
Proof. intros Hc (S & Ht & HS). eapply clean_touches; [done|done|done|]. intros s Hs. destruct (HS s Hs); auto. Qed.

(** A shard paged in is as its file says. *)
Lemma page_in_synced db abs s m db' :
  implements digest32 disk db abs -> shards db !! s = Some m -> resident m = false ->
  page_in digest32 disk now db s = inl db' -> synced digest32 disk db' s.
Proof.
  intros [Hi _] Hm Hr. destruct (inv_disk _ _ _ Hi s m Hm Hr) as ([st Hst] & data & Hd & Hdom & Hok).
  unfold page_in, shard_resident. rewrite Hst, Hm, Hr, Hd. intros [= <-].
  exists data. split_and!; [done|done| |].
  - intros n Hn. unfold file_content, mem_content. simpl. rewrite lookup_union, lookup_fmap.
    rewrite (not_resident_mem _ _ _ _ _ _ Hi Hm Hr Hn). destruct (data !! n); done.
  - intros n Hn%elem_of_dom. rewrite Hdom in Hn. exact (proj1 (inv_cat _ _ _ Hi s m n Hm Hn)).
Qed.

Lemma namespace_clean db abs name :
  implements digest32 disk db abs -> clean digest32 risk disk db -> dirty_resident db ->
  clean digest32 risk disk (namespace digest32 disk now db name).1
  /\ dirty_resident (namespace digest32 disk now db name).1.
Proof.
  intros Himp Hc Hdr.
  destruct (namespace_spec digest32 disk now db abs name Himp) as (_ & _ & Hd & Ht & _).
  split; [|intros s; rewrite Hd; intros Hs; by apply (t_stays _ _ _ Ht), Hdr].
  unfold namespace in *. set (db1 := touch now db (shard_of name)) in *.
  assert (Hsd : same_data db db1) by apply touch_same.
  assert (Hd1 : dirty db1 = dirty db) by (unfold db1, touch; by destruct (shards db !! shard_of name)).
  assert (H1 : clean digest32 risk disk db1).
  { eapply (clean_touches _ ∅); [exact Hc|apply same_data_touches; rewrite ?Hd1; auto|done|].
    intros s Hs. by apply elem_of_empty in Hs. }
  destruct (namespaces db1 !! name); [done|].
  destruct (catalogued db1 (shard_of name) name) eqn:Ec; [|done]. simpl in *.
  unfold catalogued in Ec. destruct (shards db1 !! shard_of name) as [m|] eqn:Em; [|done].
  apply andb_true_iff in Ec as [Hr%negb_true_iff _].
  pose proof (same_data_implements digest32 disk db db1 abs Hsd Himp) as Himp1.
  destruct (page_in digest32 disk now db1 (shard_of name)) as [db2|] eqn:Ep; [|done]. simpl in *.
  eapply clean_touches; [exact Hc|exact Ht|done|]. intros s Hs%elem_of_singleton. subst. do 3 right.
  by eapply page_in_synced.
Qed.

Lemma record_write_accounted db abs nd path v w opts tgs :
  implements digest32 disk db abs -> ttls_ok db opts -> plausible w ->
  accounted db (record_write digest32 disk now db nd path v w opts tgs).1.
Proof.
  intros Himp Ht Hw.
  destruct (record_write_spec digest32 disk now db abs nd path v w opts tgs Himp Ht Hw) as (_ & _ & Hd & _ & _ & Hto).
  eapply accounted_pair; [exact Hto|]. rewrite Hd. auto with sdb.
Qed.

Lemma with_activity_accounted db a : accounted db (with_activity db a).
Proof. exists ∅. split; [split; auto|]. intros s Hs. by apply elem_of_empty in Hs. Qed.

Lemma with_latest_accounted db l : accounted db (with_latest db l).
Proof. exists ∅. split; [split; auto|]. intros s Hs. by apply elem_of_empty in Hs. Qed.

Lemma shadow_shard ns : shard_of (shadow_path ns) = INTERNAL_SHARD.
Proof.
  unfold shadow_path, shard_of. change SHADOW_PREFIX with (lit "_shadow" ++ [SLASH]). rewrite <- app_assoc.
  cbn [app]. rewrite segments_prefixed; [done|done|]. by apply (bool_decide_unpack _).
Qed.

Lemma client_read_clean db abs ns v s shadow :
  implements digest32 disk db abs -> clean digest32 risk disk db -> dirty_resident db ->
  is_u64 (shadow_ttl (policy db)) -> plausible now ->
  clean digest32 risk disk (client_read digest32 disk now db ns v s shadow).1
  /\ dirty_resident (client_read digest32 disk now db ns v s shadow).1.
Proof.
  intros Himp Hc Hdr Hsh Hnow. unfold client_read. destruct (starts_with CONFIG_PREFIX ns); [done|].
  set (db1 := with_activity db (Activity.record_read (activity db) ns (timestamp now))).
  assert (H1 : implements digest32 disk db1 abs) by by apply with_activity_implements.
  assert (Hc1 : clean digest32 risk disk db1) by (eapply clean_accounted; [exact Hc|apply with_activity_accounted]).
  assert (Hd1 : dirty_resident db1) by (eapply dirty_resident_accounted; [exact Hdr|apply with_activity_accounted]).
  destruct (namespace_clean db1 abs ALL_NAMESPACE H1 Hc1 Hd1) as [Hc2 Hd2].
  destruct (count_in_spec digest32 disk now db1 abs ALL_NAMESPACE v H1) as (H2 & C2 & _ & _ & _).
  set (c := count_in digest32 disk now db1 ALL_NAMESPACE v) in *.
  destruct (namespace_clean c.1 abs ns H2 Hc2 Hd2) as [Hc3 Hd3].
  destruct (view_in_spec digest32 disk now c.1 abs ns v c.2 s H2) as (H3 & C3 & _ & _ & _).
  set (q := view_in digest32 disk now c.1 ns v c.2 s) in *. cbn [fst].
  destruct shadow; [|done].
  assert (Ht : ttls_ok q.1 default_opts).
  { split; [done|]. destruct C3 as (-> & _). destruct C2 as (-> & _). done. }
  assert (Ha : accounted q.1 (write digest32 disk now q.1 (shadow_path ns) v now default_opts).1)
    by (by eapply record_write_accounted).
  split; [by eapply clean_accounted|by eapply dirty_resident_accounted].
Qed.

Lemma client_write_accounted db abs origin ns v w t tgs :
  implements digest32 disk db abs -> opt_u64 t -> is_u64 (shadow_ttl (policy db)) -> plausible (default now w) ->
  accounted db (client_write digest32 disk now db origin ns v w t tgs).1.
Proof.
  intros Himp Ht Hsh Hpw. destruct (check db ns v) as [e|] eqn:E.
  - unfold client_write. rewrite E. apply accounted_refl.
  - destruct (client_write_accepted digest32 disk now db abs origin ns v w t tgs Himp Ht Hsh Hpw E)
      as (_ & _ & _ & _ & H1 & H2 & _). by eapply accounted_pair.
Qed.

Lemma merge_accounted db abs path v i :
  implements digest32 disk db abs -> payload_ok i -> plausible now -> is_u64 (shadow_ttl (policy db)) ->
  changed (merge_in digest32 disk now db path v i).2 = true ->
  accounted db (merge_in digest32 disk now db path v i).1.
Proof.
  intros Himp Hi Hn Hs Hch.
  destruct (merge_in_spec digest32 disk now db abs path v i Himp Hi Hn Hs) as (_ & _ & _ & Ht & Hd).
  eapply accounted_pair; [exact Ht|auto].
Qed.

Lemma delete_clean db abs name :
  implements digest32 disk db abs -> clean digest32 risk disk db -> dirty_resident db ->
  clean digest32 risk disk (delete_namespace digest32 disk now db name).1
  /\ dirty_resident (delete_namespace digest32 disk now db name).1.
Proof.
  intros Himp Hc Hdr. destruct (delete_spec digest32 disk now db abs name Himp) as (_ & _ & _ & Ht & Hd & Hno & _).
  destruct (delete_namespace digest32 disk now db name).2.
  - assert (Ha : accounted db (delete_namespace digest32 disk now db name).1) by (eapply accounted_pair; eauto).
    split; [by eapply clean_accounted|by eapply dirty_resident_accounted].
  - rewrite (Hno eq_refl). by eapply namespace_clean.
Qed.

Lemma create_spec db abs name :
  implements digest32 disk db abs ->
  let r := create_namespace digest32 disk now db name in
  implements digest32 disk r.1 (<[name := default ∅ (abs !! name)]> abs)
  /\ node r.1 = node db /\ policy r.1 = policy db /\ accounted db r.1
  /\ touches {[shard_of name]} db r.1
  /\ r.2 = negb (bool_decide (is_Some (abs !! name))).
Proof.
  intros Himp r. unfold r, create_namespace. rewrite (exists_spec digest32 disk db abs name Himp).
  case_bool_decide as Hn.
  - destruct Hn as [vs Hvs]. rewrite Hvs. simpl. rewrite insert_id by done.
    split_and!; try done; [apply accounted_refl|].
    eapply touches_weaken; [apply touches_refl|apply empty_subseteq].
  - destruct (noc_spec digest32 disk now db abs name Himp) as (H1 & H2 & H3 & H4 & H5 & _). cbn [fst snd].
    set (db1 := (namespace_or_create digest32 disk now db name).1) in *.
    assert (Ht : touches {[shard_of name]} db (mark_dirty db1 name)).
    { eapply touches_trans; [exact H4|apply (mark_dirty_touches ∅)|done|auto with sdb].
      eapply mem_resident; [apply H1|eauto]. }
    destruct H2 as (Ep & _ & En & _). split_and!; try done.
    + eapply same_data_implements; [apply mark_dirty_same|exact H1].
    + exists {[shard_of name]}. split; [exact Ht|].
      intros s Hs%elem_of_singleton. subst. right. simpl. auto with sdb.
Qed.

(** ** Sweeping *)
Lemma sweep_one_accounted st name abs :
  implements digest32 disk st.1.1 abs ->
  let st' := sweep_one digest32 disk now st name in
  accounted st.1.1 st'.1.1
  /\ (forall n, n ∈ st'.2 -> n ∈ st.2 \/ shard_of n ∈ dirty st'.1.1).
Proof.
  destruct st as [[db removed] emptied]. cbn [fst snd]. intros Himp. unfold sweep_one.
  destruct (starts_with CONFIG_PREFIX name); [split; [apply accounted_refl|auto]|].
  destruct (namespaces db !! name) as [ns|] eqn:En; [|split; [apply accounted_refl|auto]].
  set (r := remove_expired ns now). cbn [fst snd].
  assert (Hrel : forall d abs' l, implements digest32 disk d abs' ->
     touches {[INTERNAL_SHARD]} d (foldl (release_consensus digest32 disk now) d l)
     /\ dirty (foldl (release_consensus digest32 disk now) d l) = dirty d).
  { intros d abs' l Hd. destruct (release_all_spec digest32 disk now l d abs' Hd) as (_ & _ & H1 & H2). done. }
  pose proof (inv_ns _ _ _ (proj1 Himp) _ _ En) as Hok.
  pose proof (put_ns_spec digest32 disk db abs name ns r.1 Himp En (remove_expired_ok now ns Hok)) as H1.
  destruct (is_empty r.2) eqn:Ee; cbn [negb andb].
  - assert (Hsame : r.1 = ns) by by apply remove_expired_none.
    assert (Hp : put_ns db name r.1 = db).
    { unfold put_ns, with_namespaces. rewrite Hsame, insert_id by done. by destruct db. }
    rewrite Hp. destruct (counts_towards_consensus name); [|split; [apply accounted_refl|auto]].
    destruct (Hrel db abs r.2 Himp) as [Ht Hd]. split; [by apply accounted_internal|auto].
  - set (db2 := mark_dirty (put_ns db name r.1) name).
    assert (Ha : accounted db db2).
    { exists {[shard_of name]}. split.
      - eapply touches_trans; [apply put_ns_touches|apply (mark_dirty_touches ∅)|done|auto with sdb].
        eapply mem_resident; [apply H1|]. simpl. rewrite lookup_insert_eq. eauto.
      - intros s Hs%elem_of_singleton. subst. right. simpl. auto with sdb. }
    assert (H2 : implements digest32 disk db2 (<[name := stored_values (values r.1)]> abs))
      by (eapply same_data_implements; [apply mark_dirty_same|exact H1]).
    assert (Hin : shard_of name ∈ dirty db2) by (simpl; auto with sdb).
    set (db3 := if counts_towards_consensus name then foldl (release_consensus digest32 disk now) db2 r.2 else db2).
    assert (H3 : accounted db2 db3 /\ dirty db3 = dirty db2).
    { unfold db3. destruct (counts_towards_consensus name); [|split; [apply accounted_refl|done]].
      destruct (Hrel db2 _ r.2 H2) as [Ht Hd]. split; [by apply accounted_internal|done]. }
    destruct H3 as [H3 Hd3]. split; [by eapply accounted_trans|].
    intros n Hn. destruct (ns_is_empty r.1); [|by left].
    apply elem_of_app in Hn as [Hn|Hn%list_elem_of_singleton]; [by left|right]. subst. rewrite Hd3. done.
Qed.

Lemma remove_ns_accounted db name :
  shard_of name ∈ dirty db -> accounted db (remove_ns db name).
Proof.
  intros Hd. exists {[shard_of name]}. unfold remove_ns, uncatalogue. simpl.
  split; [|intros s Hs%elem_of_singleton; subst; right; by case_match].
  split; try (by case_match); simpl.
  - intros n Hn. case_match; simpl; (rewrite lookup_delete_ne; [done|intros ->; by apply Hn, elem_of_singleton]).
  - intros s Hs. case_match; [|done]. simpl. rewrite lookup_insert_ne; [done|].
    intros He. apply Hs. rewrite <- He. by apply elem_of_singleton.
  - intros s Hs. case_match eqn:E; [|done]. unfold shard_resident in *. simpl. rewrite lookup_insert.
    case_decide; [|done]. subst. by rewrite E in Hs.
  - intros s Hs. left. by case_match.
  - case_match; [|done]. simpl. rewrite dom_insert_L. apply union_subseteq_r.
  - intros n Hin. destruct (decide (n = name)) as [->|Hne]; [right; by case_match|left].
    case_match; simpl; by rewrite lookup_delete_ne.
Qed.

Lemma sweep_accounted held db abs :
  implements digest32 disk db abs -> accounted db (sweep digest32 disk now held db).1.
Proof.
  intros Himp. unfold sweep.
  assert (Htrue : sweep_stable now (node db) (fun _ => True)) by by split.
  assert (H1 : forall names st abs, implements digest32 disk st.1.1 abs -> accounted db st.1.1 ->
    (forall n, n ∈ st.2 -> shard_of n ∈ dirty st.1.1) ->
    let st' := foldl (sweep_one digest32 disk now) st names in
    accounted db st'.1.1 /\ (forall n, n ∈ st'.2 -> shard_of n ∈ dirty st'.1.1)).
  { induction names as [|n names IH]; intros st abs0 Hi0 Ha0 He0; [done|]. cbn [foldl].
    destruct (sweep_one_spec digest32 disk now (fun _ => True) st n abs0 Hi0 I ltac:(by split)) as (abs1 & Hi1 & _ & _).
    destruct (sweep_one_accounted st n abs0 Hi0) as [Ha1 He1].
    apply (IH _ abs1 Hi1); [by eapply accounted_trans|].
    intros x [Hx|Hx]%He1; [|done]. destruct Ha1 as (S & Ht & _). by apply (t_dirty _ _ _ Ht), He0. }
  destruct (H1 (hash_keys (namespaces db)) (db, 0, []) abs Himp (accounted_refl db)) as [Ha He].
  { intros n Hn. by apply elem_of_nil in Hn. }
  destruct (foldl (sweep_one digest32 disk now) (db, 0, []) (hash_keys (namespaces db))) as [[db1 removed] emptied].
  cbn [fst snd] in *. unfold prune_empty.
  assert (H2 : forall names st, (forall n, n ∈ names -> shard_of n ∈ dirty (foldl uncatalogue st.1 st.2)) ->
     accounted db (foldl uncatalogue st.1 st.2) ->
     accounted db (foldl uncatalogue (foldl (prune_one held) st names).1 (foldl (prune_one held) st names).2)).
  { induction names as [|n names IH]; intros [d rm] Hd Hacc; [done|]. cbn [foldl].
    assert (Hone : accounted (foldl uncatalogue d rm)
       (foldl uncatalogue (prune_one held (d, rm) n).1 (prune_one held (d, rm) n).2)).
    { unfold prune_one. destruct (starts_with CONFIG_PREFIX n); [apply accounted_refl|].
      destruct (namespaces d !! n) as [ns|]; [|apply accounted_refl].
      destruct (negb (bool_decide (n ∈ held)) && ns_is_empty ns); [|apply accounted_refl]. cbn [fst snd].
      rewrite foldl_app, uncatalogue_comm. cbn [foldl].
      replace (uncatalogue _ n) with (remove_ns (foldl uncatalogue d rm) n)
        by (unfold remove_ns; by rewrite uncatalogue_all_ns).
      apply remove_ns_accounted, Hd. left. }
    apply IH; [|by eapply accounted_trans]. intros x Hx. destruct Hone as (S & Ht & _).
    apply (t_dirty _ _ _ Ht), Hd. by right. }
  apply (H2 emptied (db1, [])); [|exact Ha]. exact He.
Qed.

(** Sweeping brings in no shard but the internal one. *)
Definition no_new_shards (db db' : Database) : Prop :=
  forall s, is_Some (shards db' !! s) -> is_Some (shards db !! s) \/ s = INTERNAL_SHARD.

Lemma no_new_shards_trans db1 db2 db3 :
  no_new_shards db1 db2 -> no_new_shards db2 db3 -> no_new_shards db1 db3.
Proof. intros H1 H2 s [Hs| ->]%H2; auto. Qed.

Lemma sweep_one_shards st name abs :
  implements digest32 disk st.1.1 abs -> no_new_shards st.1.1 (sweep_one digest32 disk now st name).1.1.
Proof.
  destruct st as [[db removed] emptied]. cbn [fst snd]. intros Himp. unfold sweep_one.
  destruct (starts_with CONFIG_PREFIX name); [by left|].
  destruct (namespaces db !! name) as [ns|] eqn:En; [|by left].
  set (r := remove_expired ns now). cbn [fst snd].
  pose proof (inv_ns _ _ _ (proj1 Himp) _ _ En) as Hok.
  pose proof (put_ns_spec digest32 disk db abs name ns r.1 Himp En (remove_expired_ok now ns Hok)) as H1.
  set (db2 := if negb (is_empty r.2) then mark_dirty (put_ns db name r.1) name else put_ns db name r.1).
  assert (H2 : implements digest32 disk db2 (<[name := stored_values (values r.1)]> abs)).
  { unfold db2. destruct (negb (is_empty r.2)); [|done].
    eapply same_data_implements; [apply mark_dirty_same|exact H1]. }
  assert (Hs : shards db2 = shards db) by (unfold db2; by destruct (negb (is_empty r.2))).
  destruct (counts_towards_consensus name); [|intros s Hx; left; by rewrite <- Hs].
  destruct (release_all_spec digest32 disk now r.2 db2 _ H2) as (_ & _ & _ & Ht).
  intros s [m Hm]. destruct (decide (s = INTERNAL_SHARD)) as [|Hne]; [by right|left]. rewrite <- Hs.
  assert (E : s ∉ ({[INTERNAL_SHARD]} : gset str)) by by intros ?%elem_of_singleton.
  apply (t_shards _ _ _ Ht s) in E. rewrite Hm in E. simpl in E.
  symmetry in E. apply fmap_Some in E as (m' & -> & _). eauto.
Qed.

Lemma uncatalogue_all_shards db names s :
  is_Some (shards (foldl uncatalogue db names) !! s) <-> is_Some (shards db !! s).
Proof.
  revert db. induction names as [|n names IH]; intros db; [done|]. simpl. rewrite IH. unfold uncatalogue.
  destruct (shards db !! shard_of n) eqn:E; [|done]. simpl. rewrite lookup_insert. case_decide; [|done].
  subst. rewrite E. split; eauto.
Qed.

Lemma sweep_shards held db abs :
  implements digest32 disk db abs -> no_new_shards db (sweep digest32 disk now held db).1.
Proof.
  intros Himp. unfold sweep.
  assert (H1 : forall names st abs, implements digest32 disk st.1.1 abs ->
    no_new_shards st.1.1 (foldl (sweep_one digest32 disk now) st names).1.1).
  { induction names as [|n names IH]; intros st abs0 Hi0; [by left|]. cbn [foldl].
    destruct (sweep_one_spec digest32 disk now (fun _ => True) st n abs0 Hi0 I ltac:(by split)) as (abs1 & Hi1 & _ & _).
    eapply no_new_shards_trans; [by eapply sweep_one_shards|by eapply IH]. }
  specialize (H1 (hash_keys (namespaces db)) (db, 0, []) abs Himp).
  destruct (foldl (sweep_one digest32 disk now) (db, 0, []) (hash_keys (namespaces db))) as [[db1 removed] emptied].
  cbn [fst snd] in *. unfold prune_empty. intros s Hs. apply H1.
  apply uncatalogue_all_shards in Hs.
  assert (H2 : forall names st, shards (foldl (prune_one held) st names).1 = shards st.1).
  { induction names as [|n names IH]; intros [d rm]; [done|]. cbn [foldl]. rewrite IH. unfold prune_one.
    repeat case_match; done. }
  by rewrite H2 in Hs.
Qed.
End Clean.
