(* ===== verification/System.v ===== *)
(** * The running server

    The state is the database and its directory; the steps are everything that
    changes either while the server runs: client reads and writes, merges from
    peers, deletions, new namespaces, sweeps, evictions and saves, with saves
    that fail among them.  A run also remembers which shards are at risk: a save
    that fails takes the marks of shards it has not written, a file that could
    not be removed outlives its namespaces, and a merge that reports no change
    marks nothing.  The invariant ties memory, disk and the consensus tally
    together; it is kept as long as no eviction drops a shard at risk, which
    [Losses] shows is needed. *)

From stdpp Require Import base numbers list strings gmap sorting relations.
From S2P Require Import Prelude Activity Latest Attribute AttributeFacts Convergence Paths Tier Namespace Disk Database Persistence Contents Refine Consensus Eviction Service Accounted.

Section Saving.
Context `{HashOrder} (digest32 : str -> N).

(** The files after a loop that wrote everything it meant to. *)
Definition saved_files (all : bool) (was_dirty : gset str) (db : Database) (disk : Disk) (present : list str) : Disk :=
  foldl (fun d s => if negb all && negb (bool_decide (s ∈ was_dirty)) then d
                    else put_shard digest32 d s (shard_snapshot db s)) disk present.

Lemma save_loop_success fails all was_dirty present db disk r db' disk' r' :
  save_loop digest32 fails all was_dirty present db disk r = (db', disk', Some r') ->
  db' = db /\ disk' = saved_files all was_dirty db disk present.
Proof.
  revert disk r. induction present as [|s l IH]; intros disk r; simpl; [by intros [= -> -> _]|].
  destruct (negb all && negb (bool_decide (s ∈ was_dirty))); [apply IH|].
  unfold write_shard. destruct (fails (ShardTarget s)); [done|]. apply IH.
Qed.

Definition writes (all : bool) (was_dirty : gset str) (s : str) : bool := all || bool_decide (s ∈ was_dirty).

Lemma saved_files_read all was_dirty db disk l s (U : str -> Prop) :
  (forall s1 s2, U s1 -> U s2 -> shard_file digest32 s1 = shard_file digest32 s2 -> s1 = s2) ->
  (forall x, x ∈ l -> U x) -> U s ->
  read_shard_file digest32 (saved_files all was_dirty db disk l) s
  = if bool_decide (s ∈ l) && writes all was_dirty s
    then inl (stored_values <$> shard_snapshot db s) else read_shard_file digest32 disk s.
Proof.
  intros Hinj Hl Hs. revert disk Hl. induction l as [|x l IH]; intros disk Hl.
  { by rewrite bool_decide_eq_false_2 by apply not_elem_of_nil. }
  unfold saved_files. cbn [foldl]. fold (saved_files all was_dirty db
    (if negb all && negb (bool_decide (x ∈ was_dirty)) then disk else put_shard digest32 disk x (shard_snapshot db x)) l).
  rewrite IH by (intros; apply Hl; by right).
  assert (Hw : negb all && negb (bool_decide (x ∈ was_dirty)) = negb (writes all was_dirty x))
    by (unfold writes; by rewrite negb_orb).
  rewrite Hw. destruct (decide (s = x)) as [->|Hne].
  - rewrite (bool_decide_eq_true_2 (x ∈ x :: l)) by left. destruct (writes all was_dirty x) eqn:Ew; cbn [negb andb].
    + rewrite andb_true_r. destruct (bool_decide (x ∈ l)); [done|]. apply read_put_shard.
    + by rewrite andb_false_r.
  - replace (bool_decide (s ∈ x :: l)) with (bool_decide (s ∈ l)).
    2: { apply bool_decide_ext. rewrite elem_of_cons. tauto. }
    destruct (bool_decide (s ∈ l) && writes all was_dirty s); [done|].
    destruct (writes all was_dirty x); simpl; [|done]. apply read_put_other. intros He. apply Hne. symmetry.
    apply Hinj; [apply Hl; left|done|done].
Qed.

(** The loop that failed: what it wrote before, and the shard it marked. *)
Lemma save_loop_failure fails all was_dirty present db disk r db' disk' :
  save_loop digest32 fails all was_dirty present db disk r = (db', disk', None) ->
  exists f l, f ∈ present /\ l ⊆ present /\ db' = mark_shard_dirty db f
    /\ disk' = saved_files all was_dirty db disk l.
Proof.
  revert disk r. induction present as [|s present IH]; intros disk r; cbn [save_loop]; [done|].
  destruct (negb all && negb (bool_decide (s ∈ was_dirty))) eqn:E; [|unfold write_shard; destruct (fails (ShardTarget s))].
  - intros (f & l & H1 & H2 & H3 & H4)%IH. exists f, l. split_and!; [by right| |done|done].
    intros x Hx. right. by apply H2.
  - intros [= <- <-]. exists s, []. split_and!; [left|apply list_subseteq_nil|done|done].
  - intros (f & l & H1 & H2 & H3 & H4)%IH. exists f, (s :: l). split_and!; [by right| |done|].
    + intros x [->|Hx]%elem_of_cons; [left|right; by apply H2].
    + unfold saved_files. cbn [foldl]. by rewrite E.
Qed.

Lemma remove_stale_read fails disk l s (U : str -> Prop) :
  (forall s1 s2, U s1 -> U s2 -> shard_file digest32 s1 = shard_file digest32 s2 -> s1 = s2) ->
  (forall x, x ∈ l -> U x) -> U s ->
  read_shard_file digest32 (remove_stale digest32 fails disk l) s
  = if bool_decide (s ∈ l) && negb (fails (StaleTarget s)) then inl ∅ else read_shard_file digest32 disk s.
Proof.
  intros Hinj Hl Hs. revert disk Hl. induction l as [|x l IH]; intros disk Hl.
  { by rewrite bool_decide_eq_false_2 by apply not_elem_of_nil. }
  unfold remove_stale. cbn [foldl]. fold (remove_stale digest32 fails
    (if fails (StaleTarget x) then disk else delete (shard_file digest32 x) disk) l).
  rewrite IH by (intros; apply Hl; by right). destruct (decide (s = x)) as [->|Hne].
  - rewrite (bool_decide_eq_true_2 (x ∈ x :: l)) by left. destruct (fails (StaleTarget x)); cbn [negb andb];
      [by rewrite andb_false_r|]. rewrite andb_true_r. case_bool_decide; [done|].
    unfold read_shard_file. by rewrite lookup_delete_eq.
  - replace (bool_decide (s ∈ x :: l)) with (bool_decide (s ∈ l)).
    2: { apply bool_decide_ext. rewrite elem_of_cons. tauto. }
    destruct (bool_decide (s ∈ l) && negb (fails (StaleTarget s))); [done|].
    destruct (fails (StaleTarget x)); [done|]. unfold read_shard_file. rewrite lookup_delete_ne; [done|].
    intros He. apply Hne. symmetry. apply Hinj; [apply Hl; left|done|done].
Qed.

Lemma elem_of_present db s :
  s ∈ present_shards db <-> exists n, is_Some (namespaces db !! n) /\ shard_of n = s.
Proof.
  unfold present_shards. rewrite elem_of_list_to_set, list_elem_of_fmap. split.
  - intros (n & -> & Hn%elem_of_hash_keys). eauto.
  - intros (n & Hn & <-). exists n. split; [done|]. by apply elem_of_hash_keys.
Qed.

(** What a successful save comes down to. *)
Lemma save_success fails db d all db' d' r :
  save digest32 fails db d all = (db', d', Some r) ->
  namespaces db' = namespaces db /\ shards db' = shards db /\ dirty db' = ∅
  /\ policy db' = policy db /\ stores db' = stores db /\ node db' = node db /\ store db' = store db
  /\ tiers db' = tiers db /\ legacy_file d' = legacy_file d
  /\ shard_files d' = remove_stale digest32 fails
       (saved_files all (dirty db) db (shard_files d) (hash_elems (present_shards db)))
       (hash_elems (dirty db ∖ present_shards db)).
Proof.
  unfold save, take_dirty.
  destruct (save_loop digest32 fails all (dirty db) (hash_elems (present_shards db)) (with_dirty db ∅)
    (shard_files d) (mkSave 0 0)) as [[db1 disk1] [r1|]] eqn:El; [|done].
  apply save_loop_success in El as [-> ->].
  unfold save_activity. destruct (Activity.take_snapshot _ all) as [a' oa]. cbn [fst snd].
  destruct oa as [ad|]; [destruct (fails ActivityTarget); [done|]|]; unfold save_latest;
    destruct (Latest.take_snapshot _ all) as [l' ol]; cbn [fst snd]; destruct ol;
    try (destruct (fails LatestTarget); [done|]); intros [= <- <- _]; done.
Qed.

(** And a failed one. *)
Lemma save_failure fails db d all db' d' :
  save digest32 fails db d all = (db', d', None) ->
  namespaces db' = namespaces db /\ shards db' = shards db /\ dirty db' ⊆ present_shards db
  /\ policy db' = policy db /\ stores db' = stores db /\ node db' = node db /\ store db' = store db
  /\ tiers db' = tiers db /\ legacy_file d' = legacy_file d
  /\ exists l, l ⊆ hash_elems (present_shards db)
       /\ shard_files d' = saved_files all (dirty db) db (shard_files d) l.
Proof.
  unfold save, take_dirty.
  destruct (save_loop digest32 fails all (dirty db) (hash_elems (present_shards db)) (with_dirty db ∅)
    (shard_files d) (mkSave 0 0)) as [[db1 disk1] [r1|]] eqn:El.
  - apply save_loop_success in El as [-> ->]. intros E.
    assert (Hd : dirty db' = ∅ /\ namespaces db' = namespaces db /\ shards db' = shards db /\ policy db' = policy db
      /\ stores db' = stores db /\ node db' = node db /\ store db' = store db /\ tiers db' = tiers db
      /\ legacy_file d' = legacy_file d
      /\ shard_files d' = saved_files all (dirty db) db (shard_files d) (hash_elems (present_shards db))).
    { revert E. unfold save_activity. destruct (Activity.take_snapshot _ all) as [a' oa]. cbn [fst snd].
      destruct oa as [ad|]; [destruct (fails ActivityTarget); [by intros [= <- <-]|]|]; unfold save_latest;
        destruct (Latest.take_snapshot _ all) as [l' ol]; cbn [fst snd]; destruct ol;
        try (destruct (fails LatestTarget)); intros [= <- <-]; done. }
    destruct Hd as (-> & -> & -> & -> & -> & -> & -> & -> & -> & Hf). split_and!; try done.
    exists (hash_elems (present_shards db)). done.
  - apply save_loop_failure in El as (f & l & Hf & Hl & -> & ->). intros [= <- <-]. split_and!; try done.
    + intros x Hx. cbn in Hx. apply elem_of_union in Hx as [Hx|Hx]; [by apply elem_of_empty in Hx|].
      apply elem_of_singleton in Hx as ->. by apply elem_of_hash_elems in Hf.
    + exists l. done.
Qed.

(** Whether a save that succeeds leaves a shard's file as memory has it, and which
    shards are at risk after a save.  After one that failed, every shard that was
    marked counts as such until it is saved. *)
Definition settled (fails : Target -> bool) (all : bool) (db : Database) (s : str) : bool :=
  if bool_decide (s ∈ present_shards db) then writes all (dirty db) s
  else bool_decide (s ∈ dirty db) && negb (fails (StaleTarget s)).

Definition risk_saved (fails : Target -> bool) (all : bool) (db : Database) (ok : bool) (risk : gset str) : gset str :=
  if ok then filter (fun s => settled fails all db s = false) (risk ∪ dirty db) else risk ∪ dirty db.

(** Nothing is, while saves succeed and stale files go. *)
Lemma nothing_at_risk fails all db : (forall s, fails (StaleTarget s) = false) -> risk_saved fails all db true ∅ = ∅.
Proof.
  intros Hf. apply set_eq. intros s. unfold risk_saved. rewrite elem_of_filter, elem_of_union. split; [|set_solver].
  intros [Hs [?|Hd]]; [done|]. unfold settled, writes in Hs. rewrite Hf in Hs. rewrite (bool_decide_eq_true_2 _ Hd) in Hs.
  rewrite orb_true_r in Hs. by case_bool_decide.
Qed.

Lemma save_spec fails risk db d all db' d' r abs :
  save digest32 fails db d all = (db', d', Some r) ->
  implements digest32 (shard_files d) db abs -> clean digest32 risk (shard_files d) db -> dirty_resident db ->
  files_distinct digest32 db ->
  let risk' := risk_saved fails all db true risk in
  implements digest32 (shard_files d') db' abs /\ clean digest32 risk' (shard_files d') db'
  /\ dirty_resident db' /\ node db' = node db /\ policy db' = policy db /\ shards db' = shards db
  /\ (forall s m, shards db' !! s = Some m -> resident m = true -> s ∉ risk' -> s <> INTERNAL_SHARD \/ all = true ->
        s = INTERNAL_SHARD /\ s ∉ present_shards db \/ synced digest32 (shard_files d') db' s).
Proof.
  intros Hsave Himp [Hst Hcl] Hdr Hfd risk'.
  destruct (save_success _ _ _ _ _ _ _ Hsave) as (En & Esh & Ed & Ep & Es & End & Est & Et & _ & Ef).
  set (U := fun s => is_Some (shards db !! s)).
  assert (Hinj : forall s1 s2, U s1 -> U s2 -> shard_file digest32 s1 = shard_file digest32 s2 -> s1 = s2)
    by exact Hfd.
  assert (Hpres : forall s, s ∈ present_shards db -> U s /\ shard_resident db s = true).
  { intros s (n & Hn & <-)%elem_of_present. split; [|by eapply mem_resident; [apply Himp|]].
    destruct (inv_mem _ _ _ (proj1 Himp) n Hn) as (m & Hm & _). unfold U. eauto. }
  assert (Hdu : forall s, s ∈ dirty db -> U s).
  { intros s Hs. specialize (Hdr s Hs). unfold shard_resident in Hdr. unfold U.
    destruct (shards db !! s); [eauto|done]. }
  assert (Hread : forall s, U s -> read_shard_file digest32 (shard_files d') s
    = if bool_decide (s ∈ dirty db ∖ present_shards db) && negb (fails (StaleTarget s)) then inl ∅
      else if bool_decide (s ∈ present_shards db) && writes all (dirty db) s
           then inl (stored_values <$> shard_snapshot db s) else read_shard_file digest32 (shard_files d) s).
  { intros s Hs. rewrite Ef, (remove_stale_read _ _ _ _ U); [|done| |done].
    - rewrite (saved_files_read _ _ _ _ _ _ U); [|done| |done].
      + by rewrite (bool_decide_ext _ _ (elem_of_hash_elems (dirty db ∖ present_shards db) s)),
          (bool_decide_ext _ _ (elem_of_hash_elems (present_shards db) s)).
      + intros x Hx%elem_of_hash_elems. by apply Hpres.
    - intros x [Hx _]%elem_of_hash_elems%elem_of_difference. by apply Hdu. }
  assert (Hsettled : forall s, s ∉ risk' -> s ∈ risk \/ s ∈ dirty db -> settled fails all db s = true).
  { intros s Hs Hor. destruct (settled fails all db s) eqn:E; [done|]. destruct Hs. unfold risk', risk_saved.
    apply elem_of_filter. split; [done|]. by apply elem_of_union. }
  assert (Hsync : forall s m, shards db !! s = Some m -> resident m = true -> s ∉ risk' ->
     (s <> INTERNAL_SHARD \/ s ∈ present_shards db /\ all = true) -> synced digest32 (shard_files d') db' s).
  { intros s m Hm Hr Hk Hor. specialize (Hread s ltac:(unfold U; eauto)). specialize (Hsettled s Hk). unfold settled in Hsettled.
    destruct (decide (s ∈ present_shards db)) as [Hp|Hp].
    - rewrite (bool_decide_eq_true_2 (s ∈ present_shards db)) in Hsettled by done.
      rewrite bool_decide_eq_false_2 in Hread by set_solver. rewrite bool_decide_eq_true_2 in Hread by done.
      simpl in Hread. destruct (writes all (dirty db) s) eqn:Ew.
      + eapply (synced_ext digest32 (put_shard digest32 ∅ s (shard_snapshot db s)) _ db).
        * eapply synced_save, Himp.
        * rewrite Hread. symmetry. apply read_put_shard.
        * done.
        * intros n _. by rewrite En.
      + assert (Hnk : s ∉ risk) by (intros Hx; discriminate (Hsettled (or_introl Hx))).
        unfold writes in Ew. apply orb_false_iff in Ew as [Ea Ew%bool_decide_eq_false].
        eapply (synced_ext digest32 (shard_files d) _ db); [eapply Hcl; eauto|done|done|intros; by rewrite En].
        destruct Hor as [|[_ ->]]; done.
    - destruct Hor as [Hi|[? _]]; [|done]. rewrite (bool_decide_eq_false_2 (s ∈ present_shards db)) in Hsettled by done.
      destruct (decide (s ∈ dirty db)) as [Hd|Hd].
      + specialize (Hsettled (or_intror Hd)). apply andb_true_iff in Hsettled as [_ Hsettled].
        rewrite bool_decide_eq_true_2, Hsettled in Hread by set_solver. cbn [andb] in Hread. exists ∅. split_and!; [done|by intros ? ? ? ? ?| |].
        * intros n Hn. unfold file_content, mem_content. rewrite lookup_empty, En.
          destruct (namespaces db !! n) eqn:E; [|done]. destruct Hp. apply elem_of_present. eauto.
        * intros n Hn. rewrite lookup_empty in Hn. by destruct Hn.
      + rewrite (bool_decide_eq_false_2 (s ∈ dirty db)) in Hsettled by done.
        assert (Hnk : s ∉ risk) by (intros Hx; discriminate (Hsettled (or_introl Hx))).
        rewrite !bool_decide_eq_false_2 in Hread by set_solver. simpl in Hread.
        eapply (synced_ext digest32 (shard_files d) _ db); [eapply Hcl; eauto|done|done|intros; by rewrite En]. }
  split_and!; [| | |done|done|done|].
  - assert (H1 : implements digest32 (shard_files d') db abs).
    { eapply implements_disk; [exact Himp|]. intros s m Hm Hr. rewrite Hread by (unfold U; eauto).
      assert (Hres : shard_resident db s = false) by (unfold shard_resident; by rewrite Hm).
      rewrite !bool_decide_eq_false_2; [done| |].
      - intros Hp. destruct (Hpres s Hp). congruence.
      - intros [Hd _]%elem_of_difference. specialize (Hdr s Hd). congruence. }
    by eapply implements_fields.
  - split; [by rewrite Est|]. intros s m. rewrite Esh. intros Hm Hr _ Hk Hi. apply (Hsync s m); auto.
  - intros s. rewrite Ed. intros Hs. by apply elem_of_empty in Hs.
  - intros s m. rewrite Esh. intros Hm Hr Hk Hor. destruct (decide (s = INTERNAL_SHARD)) as [->|Hi].
    + destruct Hor as [|Ha]; [done|]. destruct (decide (INTERNAL_SHARD ∈ present_shards db)); [|by left].
      right. apply (Hsync _ m); auto.
    + right. apply (Hsync s m); auto.
Qed.

Lemma save_fail_spec fails risk db d all db' d' abs :
  save digest32 fails db d all = (db', d', None) ->
  implements digest32 (shard_files d) db abs -> clean digest32 risk (shard_files d) db -> dirty_resident db ->
  files_distinct digest32 db ->
  implements digest32 (shard_files d') db' abs /\ clean digest32 (risk_saved fails all db false risk) (shard_files d') db'
  /\ dirty_resident db' /\ node db' = node db /\ policy db' = policy db /\ shards db' = shards db.
Proof.
  intros Hsave Himp [Hst Hcl] Hdr Hfd.
  destruct (save_failure _ _ _ _ _ _ Hsave) as (En & Esh & Ed & Ep & Es & End & Est & Et & _ & l & Hl & Ef).
  set (U := fun s => is_Some (shards db !! s)).
  assert (Hpres : forall s, s ∈ present_shards db -> U s /\ shard_resident db s = true).
  { intros s (n & Hn & <-)%elem_of_present. split; [|by eapply mem_resident; [apply Himp|]].
    destruct (inv_mem _ _ _ (proj1 Himp) n Hn) as (m & Hm & _). unfold U. eauto. }
  assert (Hlp : forall x, x ∈ l -> x ∈ present_shards db) by (intros x Hx; by apply elem_of_hash_elems, Hl).
  assert (Hread : forall s, U s -> read_shard_file digest32 (shard_files d') s
    = if bool_decide (s ∈ l) && writes all (dirty db) s then inl (stored_values <$> shard_snapshot db s)
      else read_shard_file digest32 (shard_files d) s).
  { intros s Hs. rewrite Ef. apply (saved_files_read _ _ _ _ _ _ U); [exact Hfd| |done]. intros x Hx. by apply Hpres, Hlp. }
  split_and!; [| | |done|done|done].
  - assert (H1 : implements digest32 (shard_files d') db abs).
    { eapply implements_disk; [exact Himp|]. intros s m Hm Hr. rewrite Hread by (unfold U; eauto).
      rewrite bool_decide_eq_false_2; [done|]. intros Hx. destruct (Hpres s (Hlp s Hx)) as [_ Hres].
      unfold shard_resident in Hres. rewrite Hm in Hres. congruence. }
    by eapply implements_fields.
  - split; [by rewrite Est|]. intros s m. rewrite Esh. intros Hm Hr _ Hkd Hi. unfold risk_saved in Hkd.
    apply not_elem_of_union in Hkd as [Hk Hd].
    specialize (Hread s ltac:(unfold U; eauto)). destruct (bool_decide (s ∈ l) && writes all (dirty db) s).
    + eapply (synced_ext digest32 (put_shard digest32 ∅ s (shard_snapshot db s)) _ db);
        [eapply synced_save, Himp|rewrite Hread; symmetry; apply read_put_shard|done|intros n _; by rewrite En].
    + eapply (synced_ext digest32 (shard_files d) _ db); [by eapply Hcl|done|done|intros; by rewrite En].
  - intros s Hs. apply Ed in Hs. unfold shard_resident. rewrite Esh. by apply Hpres.
Qed.
End Saving.

(** ** Steps *)
Record Sys := mkSys { db : Database; dir : Directory }.

(** The server, and the shards at risk. *)
Abbreviation Tracked := (Sys * gset str)%type.

Section Running.
Context `{Chrono} `{HashOrder} (digest32 : str -> N).
(** The shards the run ever names. *)
Context (U : gset str).

Inductive step : Tracked -> Tracked -> Prop :=
  | st_write s risk now origin ns v w t tgs :
      opt_u64 t -> plausible (default now w) -> shard_of ns ∈ U ->
      step (s, risk) (mkSys (client_write digest32 (shard_files (dir s)) now (db s) origin ns v w t tgs).1 (dir s), risk)
  | st_read s risk now ns v stats shadow :
      plausible now -> shard_of ns ∈ U ->
      step (s, risk) (mkSys (client_read digest32 (shard_files (dir s)) now (db s) ns v stats shadow).1 (dir s), risk)
  | st_merge s risk now path v i :
      is_internal path = false -> payload_ok i -> plausible now -> shard_of path ∈ U ->
      let r := merge_in digest32 (shard_files (dir s)) now (db s) path v i in
      step (s, risk) (mkSys r.1 (dir s), if changed r.2 then risk else {[shard_of path]} ∪ risk)
  | st_delete s risk now name :
      name <> ALL_NAMESPACE -> shard_of name ∈ U ->
      step (s, risk) (mkSys (delete_namespace digest32 (shard_files (dir s)) now (db s) name).1 (dir s), risk)
  | st_create s risk now name :
      shard_of name ∈ U ->
      step (s, risk) (mkSys (create_namespace digest32 (shard_files (dir s)) now (db s) name).1 (dir s), risk)
  | st_sweep s risk now held :
      step (s, risk) (mkSys (sweep digest32 (shard_files (dir s)) now held (db s)).1 (dir s), risk)
  | st_evict s risk now held fails :
      (forall sh, sh ∈ evict_candidates (db s) now -> safe_to_evict risk (db s) sh) ->
      let r := evict_idle digest32 fails held (db s) (dir s) now in step (s, risk) (mkSys r.1.1 r.1.2, risk)
  | st_save s risk fails all :
      let r := save digest32 fails (db s) (dir s) all in
      step (s, risk) (mkSys r.1.1 r.1.2, risk_saved fails all (db s) (bool_decide (is_Some r.2)) risk).

(** No two shards of the run share a file. *)
Definition distinct_files : Prop :=
  forall s1 s2, s1 ∈ U -> s2 ∈ U -> shard_file digest32 s1 = shard_file digest32 s2 -> s1 = s2.

Definition in_U (db : Database) : Prop := forall s, is_Some (shards db !! s) -> s ∈ U.

Record sys_inv (bound : nat) (s : Sys) (risk : gset str) (abs : Abs) : Prop := {
  si_impl : implements digest32 (shard_files (dir s)) (db s) abs;
  si_clean : clean digest32 risk (shard_files (dir s)) (db s);
  si_dirty : dirty_resident (db s);
  si_cons : consensus_ok (node (db s)) abs;
  si_size : size abs <= bound;
  si_names : in_U (db s);
  si_ttl : is_u64 (shadow_ttl (policy (db s)));
}.

Lemma touches_in_U S db db' : touches S db db' -> S ⊆ U -> in_U db -> in_U db'.
Proof.
  intros Ht HS Hin s [m Hm]. destruct (decide (s ∈ S)) as [Hs|Hs]; [auto|]. apply Hin.
  pose proof (t_shards _ _ _ Ht s Hs) as E. rewrite Hm in E. simpl in E. symmetry in E.
  apply fmap_Some in E as (m' & -> & _). eauto.
Qed.

Lemma pair_sub (a b : str) : a ∈ U -> b ∈ U -> ({[a; b]} : gset str) ⊆ U.
Proof. set_solver. Qed.
Lemma single_sub (a : str) : a ∈ U -> ({[a]} : gset str) ⊆ U.
Proof. set_solver. Qed.

Lemma size_insert_le {V} (m : gmap str V) k v : size (<[k := v]> m) <= S (size m).
Proof. rewrite map_size_insert. case_match; simpl; lia. Qed.

Lemma size_insert_ge {V} (m : gmap str V) k v : size m <= size (<[k := v]> m).
Proof. rewrite map_size_insert. case_match; simpl; lia. Qed.

Lemma size_a_update abs path v f : size (a_update abs path v f) <= S (size abs).
Proof. apply size_insert_le. Qed.

Lemma size_a_write abs self nd path v w t keep tgs cons :
  size (a_write abs self nd path v w t keep tgs cons) <= 2 + size abs.
Proof.
  unfold a_write. pose proof (size_a_update abs path v (fun a => write_attr a nd w t keep tgs)) as H1.
  fold (a_record abs nd path v w t keep tgs) in H1. destruct (cons && a_absent abs path v); [|lia].
  pose proof (size_a_update (a_record abs nd path v w t keep tgs) ALL_NAMESPACE v (fun a => write_attr a self w None keep [])).
  unfold a_record at 1. lia.
Qed.

Lemma size_a_merge abs self path v i now keep : size (a_merge abs self path v i now keep) <= 2 + size abs.
Proof.
  unfold a_merge. pose proof (size_a_update abs path v (fun a => merged a i self)) as H1.
  destruct (a_absent abs path v && counts_towards_consensus path); [|lia].
  pose proof (size_a_update (a_update abs path v (fun a => merged a i self)) ALL_NAMESPACE v
    (fun a => write_attr a self now None keep [])). unfold a_record at 1. lia.
Qed.

Hypothesis Hdist : distinct_files.
Hypothesis Hint : INTERNAL_SHARD ∈ U.

Lemma in_U_distinct db : in_U db -> files_distinct digest32 db.
Proof. intros Hin s1 s2 H1 H2. apply Hdist; auto. Qed.

Lemma step_write bound s risk abs now origin ns v w t tgs :
  (Z.of_nat bound + 1 < U64_MODULUS)%Z -> sys_inv bound s risk abs ->
  opt_u64 t -> plausible (default now w) -> shard_of ns ∈ U ->
  exists abs', sys_inv (2 + bound)
    (mkSys (client_write digest32 (shard_files (dir s)) now (db s) origin ns v w t tgs).1 (dir s)) risk abs'.
Proof.
  intros Hb [Himp Hc Hd Hok Hsz Hn Ht] H1 H2 H3.
  pose proof (client_write_accounted digest32 _ now (db s) abs origin ns v w t tgs Himp H1 Ht H2) as Hacc.
  destruct (check (db s) ns v) as [e|] eqn:E.
  - exists abs. unfold client_write. rewrite E. split; try done. simpl. lia.
  - destruct (client_write_accepted digest32 _ now (db s) abs origin ns v w t tgs Himp H1 Ht H2 E)
      as (I1 & I2 & I3 & _ & I4 & _ & I5 & _).
    eexists. split; cbn [db dir]; [exact I1|by eapply clean_accounted|by eapply dirty_resident_accounted| | | |].
    + rewrite I2. apply write_consensus; [done|lia|by apply ordinary_counts].
    + pose proof (size_a_write abs (node (db s)) (default (node (db s)) origin) ns v (default now w) t
        (stats_retention (policy (db s))) tgs true). lia.
    + eapply touches_in_U; [exact I4|by apply pair_sub|done].
    + by rewrite I3.
Qed.

Lemma client_read_touches disk now db abs ns v stats shadow :
  implements digest32 disk db abs -> is_u64 (shadow_ttl (policy db)) -> plausible now ->
  exists S, touches S db (client_read digest32 disk now db ns v stats shadow).1
    /\ forall s, s ∈ S -> s = INTERNAL_SHARD \/ s = shard_of ns.
Proof.
  intros Himp Hsh Hnow. unfold client_read. destruct (starts_with CONFIG_PREFIX ns).
  { exists ∅. split; [apply touches_refl|]. intros s Hs. by apply elem_of_empty in Hs. }
  set (db1 := with_activity db _). assert (T1 : touches ∅ db db1) by (split; auto).
  assert (H1 : implements digest32 disk db1 abs) by by apply with_activity_implements.
  destruct (count_in_spec digest32 disk now db1 abs ALL_NAMESPACE v H1) as (H2 & C2 & _ & T2 & _).
  change (shard_of ALL_NAMESPACE) with INTERNAL_SHARD in T2.
  set (c := count_in digest32 disk now db1 ALL_NAMESPACE v) in *.
  destruct (view_in_spec digest32 disk now c.1 abs ns v c.2 stats H2) as (H3 & C3 & _ & T3 & _).
  set (q := view_in digest32 disk now c.1 ns v c.2 stats) in *. cbn [fst].
  set (S := {[shard_of ns; INTERNAL_SHARD]} : gset str).
  assert (T : touches S db q.1).
  { eapply touches_trans; [exact T1| |apply empty_subseteq|reflexivity].
    eapply touches_trans; [exact T2|exact T3| |]; unfold S; auto with sdb. }
  exists S. split; [|intros s [Hs|Hs]%elem_of_union; apply elem_of_singleton in Hs; auto].
  destruct shadow; [|exact T].
  assert (Ht : ttls_ok q.1 default_opts).
  { split; [done|]. destruct C3 as (-> & _). destruct C2 as (-> & _). done. }
  destruct (record_write_spec digest32 disk now q.1 abs (node q.1) (shadow_path ns) v now default_opts [] H3 Ht Hnow)
    as (_ & _ & _ & _ & _ & T4).
  eapply touches_trans; [exact T|exact T4|reflexivity|]. rewrite shadow_shard. unfold S.
  intros y [Hy|Hy]%elem_of_union; by apply elem_of_union_r.
Qed.

Lemma step_read bound s risk abs now ns v stats shadow :
  sys_inv bound s risk abs -> plausible now -> shard_of ns ∈ U ->
  exists abs', sys_inv (2 + bound)
    (mkSys (client_read digest32 (shard_files (dir s)) now (db s) ns v stats shadow).1 (dir s)) risk abs'.
Proof.
  intros [Himp Hc Hd Hok Hsz Hn Ht] H1 H2.
  destruct (client_read_clean digest32 risk _ now (db s) abs ns v stats shadow Himp Hc Hd Ht H1) as [C1 C2].
  destruct (starts_with CONFIG_PREFIX ns) eqn:E.
  - exists abs. unfold client_read. rewrite E. split; try done. simpl. lia.
  - destruct (client_read_spec digest32 _ now (db s) abs ns v stats shadow Himp Ht H1 E) as (I1 & I2 & I3 & _ & _).
    eexists. split; cbn [db dir]; [exact I1|exact C1|exact C2| | | |by rewrite I3].
    + rewrite I2. destruct shadow; [|done]. unfold a_record, a_update. apply uncounted_consensus; [done| |].
      * unfold counts_towards_consensus, shadow_path.
        assert (Hs : starts_with SHADOW_PREFIX (SHADOW_PREFIX ++ ns) = true) by (apply starts_with_spec; eauto).
        by rewrite Hs.
      * unfold shadow_path. intros He. pose proof (f_equal length He) as Hl. rewrite length_app in Hl.
        simpl in Hl. lia.
    + destruct shadow; [|lia]. unfold a_record, a_update. etransitivity; [apply size_insert_le|]. lia.
    + destruct (client_read_touches _ now (db s) abs ns v stats shadow Himp Ht H1) as (S & T & HS).
      eapply touches_in_U; [exact T| |done]. intros x Hx. destruct (HS x Hx) as [-> | ->]; done.
Qed.

Lemma step_merge bound s risk abs now path v i :
  (Z.of_nat bound + 1 < U64_MODULUS)%Z -> sys_inv bound s risk abs ->
  is_internal path = false -> payload_ok i -> plausible now -> shard_of path ∈ U ->
  let r := merge_in digest32 (shard_files (dir s)) now (db s) path v i in
  exists abs', sys_inv (2 + bound) (mkSys r.1 (dir s)) (if changed r.2 then risk else {[shard_of path]} ∪ risk) abs'.
Proof.
  intros Hb [Himp Hc Hd Hok Hsz Hn Ht] H1 H2 H3 H4 r.
  destruct (merge_in_spec digest32 _ now (db s) abs path v i Himp H2 H3 Ht) as (I1 & (Ep & _ & En & _) & _ & I4 & I5).
  fold r in I1, Ep, En, I4, I5. eexists. split; cbn [db dir]; [exact I1| | | | | |by rewrite Ep].
  - eapply (clean_touches digest32 risk); [exact Hc|exact I4|by destruct (changed r.2); [|apply union_subseteq_r]|].
    intros x [Hx|Hx]%elem_of_union; apply elem_of_singleton in Hx as ->; [|by left]. right.
    destruct (changed r.2) eqn:E; [left; auto|right; left]. apply elem_of_union_l, elem_of_singleton. done.
  - intros x Hx. destruct (t_marked _ _ _ I4 x Hx) as [Hx'|]; [|done]. apply (t_stays _ _ _ I4), Hd, Hx'.
  - rewrite En. apply merge_consensus; [done|lia|by apply ordinary_counts].
  - pose proof (size_a_merge abs (node (db s)) path v i now (stats_retention (policy (db s)))). lia.
  - eapply touches_in_U; [exact I4|by apply pair_sub|done].
Qed.

Lemma step_delete bound s risk abs now name :
  (Z.of_nat bound + 1 < U64_MODULUS)%Z -> sys_inv bound s risk abs -> name <> ALL_NAMESPACE -> shard_of name ∈ U ->
  exists abs', sys_inv (2 + bound) (mkSys (delete_namespace digest32 (shard_files (dir s)) now (db s) name).1 (dir s)) risk abs'.
Proof.
  intros Hb [Himp Hc Hd Hok Hsz Hn Ht] H1 H2.
  destruct (delete_clean digest32 risk _ now (db s) abs name Himp Hc Hd) as [C1 C2].
  destruct (delete_spec digest32 _ now (db s) abs name Himp) as (_ & En & Ep & T & _ & _ & Hm).
  assert (Hin : in_U (delete_namespace digest32 (shard_files (dir s)) now (db s) name).1)
    by (eapply touches_in_U; [exact T|by apply pair_sub|done]).
  destruct (abs !! name) as [vs|] eqn:Ea.
  - destruct Hm as (l & Hl & Hlv & Hi).
    eexists. split; cbn [db dir]; [exact Hi|done|done|rewrite En| |done|by rewrite Ep];
      destruct (counts_towards_consensus name) eqn:Ec.
    + refine (proj1 (shrink_consensus (node (db s)) abs name vs None l Hok ltac:(lia) Ec Ea Hl _ _)); [|done].
      intros v. rewrite Hlv. simpl. rewrite lookup_empty. split; [by left|]. by intros [|[? [=]]].
    + by apply delete_uncounted_consensus.
    + etransitivity; [|apply (Nat.le_trans _ bound); [exact Hsz|lia]].
      refine (proj2 (shrink_consensus (node (db s)) abs name vs None l Hok ltac:(lia) Ec Ea Hl _ _)); [|done].
      intros v. rewrite Hlv. simpl. rewrite lookup_empty. split; [by left|]. by intros [|[? [=]]].
    + rewrite map_size_delete, Ea. simpl. lia.
  - exists abs. split; cbn [db dir]; [exact Hm|done|done|by rewrite En|lia|done|by rewrite Ep].
Qed.

Lemma step_create bound s risk abs now name :
  sys_inv bound s risk abs -> shard_of name ∈ U ->
  exists abs', sys_inv (2 + bound) (mkSys (create_namespace digest32 (shard_files (dir s)) now (db s) name).1 (dir s)) risk abs'.
Proof.
  intros [Himp Hc Hd Hok Hsz Hn Ht] H1.
  destruct (create_spec digest32 _ now (db s) abs name Himp) as (I1 & En & Ep & Hacc & T & _).
  eexists. split; cbn [db dir]; [exact I1|by eapply clean_accounted|by eapply dirty_resident_accounted| | | |by rewrite Ep].
  - rewrite En. by apply create_consensus.
  - etransitivity; [apply size_insert_le|lia].
  - eapply touches_in_U; [exact T|by apply single_sub|done].
Qed.

Lemma step_sweep bound s risk abs now held :
  (Z.of_nat bound + 1 < U64_MODULUS)%Z -> sys_inv bound s risk abs ->
  exists abs', sys_inv (2 + bound) (mkSys (sweep digest32 (shard_files (dir s)) now held (db s)).1 (dir s)) risk abs'.
Proof.
  intros Hb [Himp Hc Hd Hok Hsz Hn Ht].
  pose proof (sweep_accounted digest32 _ now held (db s) abs Himp) as Hacc.
  destruct (sweep_spec digest32 _ now (fun abs => consensus_ok (node (db s)) abs /\ size abs <= bound) held (db s) abs
    Himp ltac:(done) (sweep_consensus_stable _ _ _ Hb)) as (abs' & I1 & [I2 I3] & (Ep & _ & En & _)).
  exists abs'. split; cbn [db dir]; [exact I1|by eapply clean_accounted|by eapply dirty_resident_accounted| |lia| |by rewrite Ep].
  - by rewrite En.
  - intros x Hx. destruct (sweep_shards digest32 _ now held (db s) abs Himp x Hx) as [| ->]; auto.
Qed.

Lemma step_evict bound s risk abs now held fails :
  sys_inv bound s risk abs -> (forall sh, sh ∈ evict_candidates (db s) now -> safe_to_evict risk (db s) sh) ->
  let r := evict_idle digest32 fails held (db s) (dir s) now in
  exists abs', sys_inv (2 + bound) (mkSys r.1.1 r.1.2) risk abs'.
Proof.
  intros [Himp Hc Hd Hok Hsz Hn Ht] Hsafe.
  destruct (evict_spec digest32 fails held risk (db s) (dir s) now abs Himp Hc (in_U_distinct _ Hn) Hsafe)
    as (I1 & I2 & (Ep & _ & En & _) & _ & I3 & I4).
  exists abs. split; cbn [db dir]; [exact I1|exact I2| |by rewrite En|lia| |by rewrite Ep].
  - intros x Hx. destruct (I4 x Hx) as [Hx' E]. unfold shard_resident. rewrite E. apply Hd, Hx'.
  - intros x Hx. apply Hn, I3, Hx.
Qed.

Lemma step_save bound s risk abs fails all :
  sys_inv bound s risk abs ->
  let r := save digest32 fails (db s) (dir s) all in
  exists abs', sys_inv (2 + bound) (mkSys r.1.1 r.1.2) (risk_saved fails all (db s) (bool_decide (is_Some r.2)) risk) abs'.
Proof.
  intros [Himp Hc Hd Hok Hsz Hn Ht] r. destruct r as [[db' d'] [rep|]] eqn:E; cbn [fst snd].
  - rewrite bool_decide_eq_true_2 by eauto.
    destruct (save_spec digest32 fails risk (db s) (dir s) all db' d' rep abs E Himp Hc Hd (in_U_distinct _ Hn))
      as (I1 & I2 & I3 & En & Ep & Es & _).
    exists abs. split; cbn [db dir]; [exact I1|exact I2|exact I3|by rewrite En|lia| |by rewrite Ep].
    intros x. rewrite Es. apply Hn.
  - rewrite bool_decide_eq_false_2 by (by intros []).
    destruct (save_fail_spec digest32 fails risk (db s) (dir s) all db' d' abs E Himp Hc Hd (in_U_distinct _ Hn))
      as (I1 & I2 & I3 & En & Ep & Es).
    exists abs. split; cbn [db dir]; [exact I1|exact I2|exact I3|by rewrite En|lia| |by rewrite Ep].
    intros x. rewrite Es. apply Hn.
Qed.

Lemma sys_step_inv (bound : nat) (x x' : Tracked) (abs : Abs) :
  (Z.of_nat bound + 1 < U64_MODULUS)%Z -> sys_inv bound x.1 x.2 abs -> step x x' ->
  exists abs', sys_inv (2 + bound) x'.1 x'.2 abs'.
Proof.
  intros Hb Hs Hst. destruct Hst; cbn [fst snd] in *;
    [by eapply step_write|by eapply step_read|by eapply step_merge|by eapply step_delete|by eapply step_create
    |by eapply step_sweep|by eapply step_evict|by eapply step_save].
Qed.

Lemma steps_inv (k bound : nat) (x x' : Tracked) (abs : Abs) :
  (Z.of_nat (2 * k + bound) < U64_MODULUS)%Z -> sys_inv bound x.1 x.2 abs -> nsteps step k x x' ->
  exists abs', sys_inv (2 * k + bound) x'.1 x'.2 abs'.
Proof.
  intros Hb Hs Hk. revert bound abs Hb Hs. induction Hk as [|k s1 s2 s3 H1 Hk IH]; intros bound abs Hb Hs; [by exists abs|].
  destruct (sys_step_inv bound s1 s2 abs) as [abs' Hs']; [lia|done|done|].
  destruct (IH (2 + bound) abs') as [abs'' Hs'']; [lia|done|]. exists abs''.
  by replace (2 * S k + bound) with (2 * k + (2 + bound)) by lia.
Qed.

Definition start (p : DatabasePolicy) (sp : StoragePolicy) (nd : str) (st : Store) (t : TierPolicy) : Sys :=
  mkSys (attach_store (with_node p sp nd) st t) empty_directory.

Lemma sys_start_inv p sp nd st t : is_u64 (shadow_ttl p) -> sys_inv 0 (start p sp nd st t) ∅ ∅.
Proof.
  intros Hp. split; cbn [db dir start].
  - split; [split|]; simpl; try (intros *; by rewrite lookup_empty).
  - split; [by eexists|]. intros s m Hm. by apply (lookup_empty_Some s m) in Hm.
  - intros s Hs. by apply elem_of_empty in Hs.
  - intros v. unfold tally, a_values, holders. rewrite lookup_empty. simpl. by rewrite lookup_empty, map_filter_empty.
  - done.
  - intros s [m Hm]. by apply (lookup_empty_Some s m) in Hm.
  - done.
Qed.

(** A step that puts nothing at risk. *)
Inductive calm : Tracked -> Tracked -> Prop :=
  | ca_other s s' risk : step (s, risk) (s', risk) -> calm (s, risk) (s', risk)
  | ca_save s risk fails all db' d' r :
      (forall sh, fails (StaleTarget sh) = false) -> save digest32 fails (db s) (dir s) all = (db', d', Some r) ->
      calm (s, risk) (mkSys db' d', risk_saved fails all (db s) true risk).

Lemma calm_steps (k : nat) (x x' : Tracked) : nsteps calm k x x' -> x.2 = ∅ -> x'.2 = ∅.
Proof.
  induction 1 as [|k x1 x2 x3 H1 _ IH]; [done|]. intros E. apply IH. destruct H1 as [|s risk fails all db' d' r Hf _]; [done|].
  cbn [snd] in *. subst. by apply nothing_at_risk.
Qed.
End Running.

(** C1: consensus is exact.  Start a server on an empty directory and let it go
    through any sequence of client writes and reads, merges from peers, deletions
    of namespaces other than [_all] itself, creations, expiry sweeps, evictions
    and saves, whole or failing at any file, such that no two shards named share a
    file name and no eviction has an unmarked shard at risk among its candidates:
    one that was marked when a save failed, or whose file could not be removed, or
    that a merge without effect touched, and that was not saved since.  Then the
    count the server gives a value in [_all] is the number of ordinary namespaces
    that hold the value. *)
Theorem consensus_exact `{Chrono, HashOrder} digest32 U p sp nd st t k s risk :
  distinct_files digest32 U -> INTERNAL_SHARD ∈ U -> is_u64 (shadow_ttl p) ->
  (Z.of_nat (2 * k) < U64_MODULUS)%Z -> nsteps (step digest32 U) k (start p sp nd st t, ∅) (s, risk) ->
  exists abs, implements digest32 (shard_files (dir s)) (db s) abs
    /\ forall v now,
      (count_in digest32 (shard_files (dir s)) now (db s) ALL_NAMESPACE v).2 = Z.of_nat (holders abs v).
Proof.
  intros Hd HI Hp Hk Hs.
  destruct (steps_inv digest32 U Hd HI k 0 (_, _) (s, risk) ∅ ltac:(lia) (sys_start_inv digest32 U p sp nd st t Hp) Hs) as [abs Habs].
  exists abs. split; [apply Habs|]. intros v now. destruct Habs as [Himp _ _ Hok Hsz _ _].
  apply consensus_count; [done|done|lia].
Qed.

(** C2: nothing unsaved is droppable unnoticed.  In any run as above, failing
    saves and evictions that failed to write or found a shard busy included,
    every shard in memory that is neither marked dirty nor at risk is on disk,
    value for value, as it is in memory (the internal shard apart, which is never
    evicted); a shard marked dirty is in memory; every catalogued shard that is
    not in memory reads back; and as long as every save of the run succeeded with
    the stale files removed, and every merge reported a change, nothing is at
    risk. *)
Theorem unsaved_is_dirty `{Chrono, HashOrder} digest32 U p sp nd st t k s risk :
  distinct_files digest32 U -> INTERNAL_SHARD ∈ U -> is_u64 (shadow_ttl p) ->
  (Z.of_nat (2 * k) < U64_MODULUS)%Z -> nsteps (step digest32 U) k (start p sp nd st t, ∅) (s, risk) ->
  (forall sh m, shards (db s) !! sh = Some m -> resident m = true -> sh ∉ dirty (db s) -> sh ∉ risk -> sh <> INTERNAL_SHARD ->
     exists data, read_shard_file digest32 (shard_files (dir s)) sh = inl data
       /\ forall n, shard_of n = sh -> file_content (node (db s)) data n = mem_content (db s) n)
  /\ (forall sh, sh ∈ dirty (db s) -> shard_resident (db s) sh = true)
  /\ (forall sh m, shards (db s) !! sh = Some m -> resident m = false ->
        exists data, read_shard_file digest32 (shard_files (dir s)) sh = inl data
          /\ dom data = meta_namespaces m)
  /\ (nsteps (calm digest32 U) k (start p sp nd st t, ∅) (s, risk) -> risk = ∅).
Proof.
  intros Hd HI Hp Hk Hs.
  destruct (steps_inv digest32 U Hd HI k 0 (_, _) (s, risk) ∅ ltac:(lia) (sys_start_inv digest32 U p sp nd st t Hp) Hs) as [abs Habs].
  destruct Habs as [[Hi _] [_ Hc] Hdr _ _ _ _]. split_and!.
  - intros sh m H1 H2 H3 H4 H5. destruct (Hc sh m H1 H2 H3 H4 H5) as (data & Hr & _ & Hm & _). eauto.
  - exact Hdr.
  - intros sh m H1 H2. destruct (inv_disk _ _ _ Hi sh m H1 H2) as (_ & data & Hr & Hdom & _). eauto.
  - intros Hcalm. by apply (calm_steps digest32 U) in Hcalm.
Qed.

(** ** A run *)
Definition demo_names : gset str := {[INTERNAL_SHARD; lit "feeds"]}.
Definition demo_start : Sys :=
  start (mkPolicy 3600 0) (from_prefixes [lit "feeds"]) (lit "n1") (mkStore (lit "db") 3) default_policy.

Lemma demo_distinct : distinct_files (fun _ => 7%N) demo_names.
Proof.
  intros s1 s2 H1 H2. unfold demo_names in *.
  apply elem_of_union in H1 as [H1|H1]; apply elem_of_singleton in H1;
    apply elem_of_union in H2 as [H2|H2]; apply elem_of_singleton in H2; subst; vm_compute; congruence.
Qed.

Lemma demo_internal : INTERNAL_SHARD ∈ demo_names.
Proof. apply (bool_decide_unpack _). by vm_compute. Qed.

Lemma demo_feeds ns : shard_of ns = lit "feeds" -> shard_of ns ∈ demo_names.
Proof. intros ->. apply (bool_decide_unpack _). by vm_compute. Qed.

(** Two writes, a full save, an eviction that drops the shard, and a read that
    brings it back. *)
Definition demo_write (ns : str) `{Chrono, HashOrder} (s : Sys) : Sys :=
  mkSys (client_write (fun _ => 7%N) (shard_files (dir s)) (100 * NANOS) (db s) None ns (lit "x") None None []).1 (dir s).
Definition demo_save `{Chrono, HashOrder} (s : Sys) : Sys :=
  let r := save (fun _ => 7%N) (fun _ => false) (db s) (dir s) true in mkSys r.1.1 r.1.2.
Definition demo_evict `{Chrono, HashOrder} (s : Sys) : Sys :=
  let r := evict_idle (fun _ => 7%N) (fun _ => false) ∅ (db s) (dir s) (9000 * NANOS) in mkSys r.1.1 r.1.2.
Definition demo_read `{Chrono, HashOrder} (s : Sys) : Sys :=
  mkSys (client_read (fun _ => 7%N) (shard_files (dir s)) (100 * NANOS) (db s) (lit "feeds/a") (lit "x") false false).1 (dir s).

Definition demo_run `{Chrono, HashOrder} : Sys :=
  demo_read (demo_evict (demo_save (demo_write (lit "feeds/b") (demo_write (lit "feeds/a") demo_start)))).

(** A save whose writes all work returns its report. *)
Lemma save_loop_total `{HashOrder} digest32 all wd l db disk r :
  exists db' disk' r', save_loop digest32 (fun _ => false) all wd l db disk r = (db', disk', Some r').
Proof.
  revert db disk r. induction l as [|s l IH]; intros db disk r; [by eauto|]. cbn [save_loop].
  destruct (negb all && negb (bool_decide (s ∈ wd))); apply IH.
Qed.

Lemma save_total `{HashOrder} digest32 db d all :
  exists db' d' r, save digest32 (fun _ => false) db d all = (db', d', Some r).
Proof.
  unfold save, take_dirty, save_activity, save_latest.
  destruct (save_loop_total digest32 all (dirty db) (hash_elems (present_shards db)) (with_dirty db ∅) (shard_files d)
    (mkSave 0 0)) as (db1 & disk1 & r & ->).
  repeat case_match; simplify_eq; eauto.
Qed.

Lemma demo_write_step `{Chrono, HashOrder} ns s risk :
  shard_of ns = lit "feeds" -> step (fun _ => 7%N) demo_names (s, risk) (demo_write ns s, risk).
Proof. intros Hn. apply st_write; [exact I|apply (plausible_whole 100)|by apply demo_feeds]. Qed.

Lemma demo_save_risk `{Chrono, HashOrder} s : step (fun _ => 7%N) demo_names (s, ∅) (demo_save s, ∅).
Proof.
  pose proof (st_save (fun _ => 7%N) demo_names s ∅ (fun _ => false) true) as Hst. cbv zeta in Hst.
  destruct (save_total (fun _ => 7%N) (db s) (dir s) true) as (db' & d' & r & E). unfold demo_save. cbv zeta.
  rewrite E in Hst |- *. cbn [fst snd] in *. rewrite bool_decide_eq_true_2, nothing_at_risk in Hst by eauto. exact Hst.
Qed.

Lemma demo_run_steps `{Chrono, HashOrder} : nsteps (step (fun _ => 7%N) demo_names) 5 (demo_start, ∅) (demo_run, ∅).
Proof.
  unfold demo_run. set (s1 := demo_write (lit "feeds/a") demo_start). set (s2 := demo_write (lit "feeds/b") s1).
  apply (nsteps_l _ _ _ (s1, ∅)); [by apply demo_write_step|].
  apply (nsteps_l _ _ _ (s2, ∅)); [by apply demo_write_step|].
  apply (nsteps_l _ _ _ (demo_save s2, ∅)); [apply demo_save_risk|].
  apply (nsteps_l _ _ _ (demo_evict (demo_save s2), ∅)); [apply st_evict; by intros sh _ Hx%elem_of_empty|].
  apply (nsteps_l _ _ _ (demo_read (demo_evict (demo_save s2)), ∅)); [|apply nsteps_O].
  apply st_read; [apply (plausible_whole 100)|by apply demo_feeds].
Qed.

Lemma consensus_exact_witness :
  let C := chrono_10000y in let O := some_order in
  exists abs, implements (fun _ => 7%N) (shard_files (dir demo_run)) (db demo_run) abs
    /\ forall v now, (count_in (fun _ => 7%N) (shard_files (dir demo_run)) now (db demo_run) ALL_NAMESPACE v).2
                     = Z.of_nat (holders abs v).
Proof.
  intros C O.
  exact (@consensus_exact C O (fun _ => 7%N) demo_names (mkPolicy 3600 0) (from_prefixes [lit "feeds"]) (lit "n1")
    (mkStore (lit "db") 3) default_policy 5 demo_run ∅ demo_distinct demo_internal ltac:(done) ltac:(done) demo_run_steps).
Defined.

(** The shard the read brought back is clean, and on disk as it is in memory. *)
Lemma unsaved_is_dirty_witness :
  let C := chrono_10000y in let O := some_order in
  exists data, read_shard_file (fun _ => 7%N) (shard_files (dir demo_run)) (lit "feeds") = inl data
    /\ forall n, shard_of n = lit "feeds" -> file_content (node (db demo_run)) data n = mem_content (db demo_run) n.
Proof.
  intros C O.
  apply (proj1 (@unsaved_is_dirty C O (fun _ => 7%N) demo_names (mkPolicy 3600 0) (from_prefixes [lit "feeds"]) (lit "n1")
    (mkStore (lit "db") 3) default_policy 5 demo_run ∅ demo_distinct demo_internal ltac:(done) ltac:(done) demo_run_steps)
    (lit "feeds") (default default_meta (shards (db demo_run) !! lit "feeds"))); by vm_compute.
Defined.

(** After one write the shard is dirty: the eviction has to write it. *)
Lemma evict_invisible_witness :
  let C := chrono_10000y in let O := some_order in
  let s := demo_write (lit "feeds/a") demo_start in
  exists abs, implements (fun _ => 7%N) (shard_files (dir (demo_evict s))) (db (demo_evict s)) abs
    /\ lit "feeds" ∈ dirty (db s).
Proof.
  intros C O s.
  destruct (steps_inv (fun _ => 7%N) demo_names demo_distinct demo_internal 1 0 (demo_start, ∅) (s, ∅) ∅ ltac:(done)
    (sys_start_inv (fun _ => 7%N) demo_names (mkPolicy 3600 0) _ _ _ _ ltac:(done))
    (nsteps_l _ _ _ _ _ (demo_write_step (lit "feeds/a") demo_start ∅ eq_refl) (nsteps_O _ _))) as [abs Habs].
  exists abs. split.
  - exact (proj1 (evict_invisible (fun _ => 7%N) (fun _ => false) ∅ ∅ (db s) (dir s) (9000 * NANOS) abs
      (si_impl _ _ _ _ _ _ Habs) (si_clean _ _ _ _ _ _ Habs)
      (in_U_distinct _ _ demo_distinct (db s) (si_names _ _ _ _ _ _ Habs)) (fun _ _ Hx => match proj1 (elem_of_empty _) Hx with end))).
  - apply (bool_decide_unpack _). by vm_compute.
Defined.
