(* ===== verification/Listing.v ===== *)
(** * Looking around in the database

    Models the read-only listings of [Database] in [src/src/db.rs]: the pages
    of namespaces and of values, the namespace tree, the search for a value's
    sightings, tag usage, and the small reports on shards and tiers.  Listings
    walk the catalogue, so an evicted namespace is listed like any other. *)

From stdpp Require Import base numbers list strings gmap sorting pretty.
From S2P Require Import Prelude Activity Latest Attribute AttributeFacts Convergence Paths Tags Tier Namespace Disk Database Persistence Contents Refine Consensus Eviction Service Accounted System.

Record StorageView := mkStorageView { sv_warm_idle : Z; sv_own_tier : bool; sv_own_warm_idle : bool }.
Record NamespaceEntry := mkNamespaceEntry {
  ne_namespace : str; ne_shard : str; ne_tier : str; ne_resident : bool; ne_storage : StorageView
}.
Record TreeEntry := mkTreeEntry {
  te_name : str; te_path : str; te_is_namespace : bool; te_descendants : nat;
  te_shard : str; te_tier : str; te_resident : bool; te_storage : StorageView
}.
Record Sighting := mkSighting {
  sg_namespace : str; sg_shard : str; sg_count : Z; sg_first_seen : Z; sg_last_seen : Z
}.
Record Sightings := mkSightings { sg_items : list Sighting; truncated : bool; sg_paged_in : bool }.
Record ValueCount := mkValueCount { vc_values : nat; vc_exact : bool; vc_paged_in : bool }.

Definition storage_view_of (p : TierPolicy) (shard : str) : str * StorageView :=
  let r := resolve p shard in
  (as_str (r_tier r),
   mkStorageView (r_warm_idle r) (bool_decide (is_Some (own_tier r))) (bool_decide (is_Some (own_warm_idle r)))).

(** [Vec::dedup]: runs of equal elements become one. *)
Fixpoint dedup (l : list str) : list str :=
  match l with
  | [] => []
  | x :: rest =>
      match dedup rest with
      | (y :: _) as d => if bool_decide (x = y) then d else x :: d
      | [] => [x]
      end
  end.

Section Listing.
Context `{HashOrder}.

(** [shards.values().flat_map(|meta| meta.namespaces.iter())] *)
Definition all_names (db : Database) : list str :=
  mjoin ((fun p => hash_elems (meta_namespaces p.2)) <$> hash_iter (shards db)).

Definition namespace_count (db : Database) : nat :=
  sum_list ((fun p => size (meta_namespaces p.2)) <$> hash_iter (shards db)).

Definition residency (db : Database) : nat * nat :=
  (length (filter (fun p => resident p.2 = true) (hash_iter (shards db))), size (shards db)).

(** [filter.is_empty() || name.to_ascii_lowercase().contains(&filter)] *)
Definition matches (flt name : str) : bool := is_empty flt || str_contains flt (to_ascii_lowercase name).

(** Neither server state nor the consensus tally. *)
Definition browsable (name : str) : bool :=
  negb (starts_with CONFIG_PREFIX name) && negb (bool_decide (name = ALL_NAMESPACE)).

Definition namespace_entry (db : Database) (name : str) : NamespaceEntry :=
  let shard := shard_of name in
  let sv := storage_view_of (tiers db) shard in
  mkNamespaceEntry name shard sv.1 (shard_resident db shard) sv.2.

Definition namespace_page (db : Database) (flt : str) (off limit : nat) (allowed : str -> bool) :
    Page NamespaceEntry :=
  let flt := to_ascii_lowercase flt in
  let names := dedup (sort_strs (filter (fun n => allowed n = true)
                 (filter (fun n => matches flt n = true) (filter (fun n => browsable n = true) (all_names db))))) in
  mkPage (namespace_entry db <$> page_of off limit names) (length names) off.

Definition namespaces_under (db : Database) (prefix : str) (allowed : str -> bool) : list str :=
  let prefix := trim_slashes prefix in
  dedup (sort_strs (filter (fun n => allowed n = true)
    (filter (fun n => under n prefix = true) (filter (fun n => is_internal n = false) (all_names db))))).

(** One name of [namespace_children]: what follows the prefix, if anything. *)
Definition child_rest (prefix name : str) : option str :=
  if is_empty prefix then Some name
  else match strip_prefix prefix name with
       | Some r => strip_prefix [SLASH] r
       | None => None
       end.

Definition add_child (prefix : str) (children : gmap str (bool * nat)) (name : str) : gmap str (bool * nat) :=
  match child_rest prefix name with
  | None => children
  | Some rest =>
      let segment := default [] (head (split_char SLASH rest)) in
      if is_empty segment then children
      else
        let e := default (false, 0) (children !! segment) in
        <[segment := if str_len segment =? str_len rest then (true, e.2) else (e.1, S e.2)]> children
  end.

Definition tree_entry (db : Database) (prefix : str) (children : gmap str (bool * nat)) (name : str) : TreeEntry :=
  let path := if is_empty prefix then name else prefix ++ [SLASH] ++ name in
  let c := default (false, 0) (children !! name) in
  let shard := shard_of path in
  let sv := storage_view_of (tiers db) shard in
  mkTreeEntry name path c.1 c.2 shard sv.1 (shard_resident db shard) sv.2.

Definition namespace_children (db : Database) (prefix flt : str) (off limit : nat) (allowed : str -> bool) :
    Page TreeEntry :=
  let prefix := trim_slashes prefix in
  let flt := to_ascii_lowercase flt in
  let children := foldl (add_child prefix) ∅
    (filter (fun n => allowed n = true) (filter (fun n => browsable n = true) (all_names db))) in
  let names := sort_strs (filter (fun n => matches flt n = true) (hash_keys children)) in
  mkPage (tree_entry db prefix children <$> page_of off limit names) (length names) off.

(** ** Tags in use *)
Definition count_tag (m : gmap str Z) (tag : str) : gmap str Z := add_entry tag 1 m.
Definition count_tags (now : Z) (m : gmap str Z) (a : Attribute) : gmap str Z :=
  if is_expired a now then m else foldl count_tag m (tag_split (tags a)).

Definition tag_usage (db : Database) (now : Z) : gmap str Z * nat * nat :=
  let total := length (filter (fun n => is_internal n = false) (all_names db)) in
  let resident := filter (fun p => is_internal p.1 = false) (hash_iter (namespaces db)) in
  (foldl (fun m p => foldl (fun m q => count_tags now m q.2) m (hash_iter (values p.2))) ∅ resident,
   length resident, total).

(** ** Storage settings *)
Definition set_policy (db : Database) (shard : str) (e : Entry) : Database := with_tiers db (set_tier (tiers db) shard e).
Definition resolved_policy (db : Database) (shard : str) : Resolved := resolve (tiers db) shard.

Definition quote_name (s : str) : str := lit "'" ++ s ++ lit "'".
Definition shard_effect (db : Database) (shard : str) : str :=
  quote_name shard
  ++ match resolved_allowance (resolved_policy db shard) with
     | None => lit " and everything under it stays in memory"
     | Some window =>
         if bool_decide (window = 0%Z) then lit " and everything under it is dropped at the next sweep once idle"
         else lit " and everything under it is dropped after " ++ decimal window ++ lit "s untouched"
     end.

Definition tier_overrides (db : Database) : list (str * option str * option Z) :=
  (fun p => (p.1, as_str <$> tier p.2, warm_idle p.2)) <$> btree_iter (entries (tiers db)).
End Listing.

(** ** Operations that may page a shard in *)
Section Paging.
Context `{HashOrder} (digest32 : str -> N) (disk : Disk) (now : Z).

Definition value_count (db : Database) (ns : str) : Database * option ValueCount :=
  let db1 := touch now db (shard_of ns) in
  match namespaces db1 !! ns with
  | Some n => (db1, Some (mkValueCount (len n) (negb (has_ttl n)) false))
  | None =>
      let r := namespace digest32 disk now db1 ns in
      (r.1, (fun n => mkValueCount (len n) (negb (has_ttl n)) true) <$> r.2)
  end.

Definition value_page (db : Database) (ns flt : str) (off limit : nat) (with_stats : bool) :
    Database * option (Page AttributeView) :=
  let flt := to_ascii_lowercase flt in
  let r := namespace digest32 disk now db ns in
  match r.2 with
  | None => (r.1, None)
  | Some n =>
      let matching := sort_strs (filter (fun p => is_expired p.2 now = false)
                        (filter (fun p => matches flt p.1 = true) (hash_iter (values n)))).*1 in
      let views := omap (fun v => (fun a => view a 0 with_stats) <$> values n !! v) (page_of off limit matching) in
      let q := foldl (fill_consensus digest32 disk now) (r.1, []) views in
      (q.1, Some (mkPage q.2 (length matching) off))
  end.

(** The state of the search: the database, how many namespaces were found to
    hold the value, and what is to be returned. *)
Record Search := mkSearch { se_db : Database; seen : Z; found : Sightings }.

(** One list of names of [sightings_of]; [true] is [break 'search]. *)
Fixpoint search (v : str) (target : Z) (limit : nat) (allowed : str -> bool) (from_disk : bool)
    (names : list str) (st : Search) : Search * bool :=
  match names with
  | [] => (st, false)
  | name :: rest =>
      if bool_decide (0 < target)%Z && bool_decide (target <= seen st)%Z then (st, true)
      else
        let q := view_in digest32 disk now (se_db st) name v 0 false in
        match q.2 with
        | None => search v target limit allowed from_disk rest (mkSearch q.1 (seen st) (found st))
        | Some vw =>
            let f := mkSightings (sg_items (found st)) (truncated (found st)) (sg_paged_in (found st) || from_disk) in
            let st1 := mkSearch q.1 (u64_add (seen st) 1) f in
            if negb (allowed name) then search v target limit allowed from_disk rest st1
            else if limit <=? length (sg_items f) then
              (mkSearch q.1 (u64_add (seen st) 1) (mkSightings (sg_items f) true (sg_paged_in f)), true)
            else
              search v target limit allowed from_disk rest
                (mkSearch q.1 (u64_add (seen st) 1)
                   (mkSightings (sg_items f ++ [mkSighting name (shard_of name) (v_count vw) (v_first_seen vw) (v_last_seen vw)])
                      (truncated f) (sg_paged_in f)))
        end
  end.

(** The catalogued names that count towards consensus, in memory or not. *)
Definition searched (db : Database) (in_memory : bool) : list str :=
  mjoin ((fun p => filter (fun n => counts_towards_consensus n = true) (hash_elems (meta_namespaces p.2)))
           <$> filter (fun p => resident p.2 = in_memory) (hash_iter (shards db))).

Definition sighting_le (a b : Sighting) : Prop := str_le (sg_namespace a) (sg_namespace b).
#[export] Instance sighting_le_dec : RelDecision sighting_le := fun a b => str_le_dec _ _.

Definition sightings_of (db : Database) (v : str) (limit : nat) (allowed : str -> bool) : Database * Sightings :=
  let c := count_in digest32 disk now db ALL_NAMESPACE v in
  let st0 := mkSearch c.1 0 (mkSightings [] false false) in
  let r1 := search v c.2 limit allowed false (searched c.1 true) st0 in
  let r2 := if r1.2 then r1 else search v c.2 limit allowed true (searched c.1 false) r1.1 in
  (se_db r2.1, mkSightings (merge_sort sighting_le (sg_items (found r2.1))) (truncated (found r2.1))
                 (sg_paged_in (found r2.1))).
End Paging.

(** ** What the catalogue lists *)
Lemma dedup_elem x l : x ∈ dedup l -> x ∈ l.
Proof.
  revert x. induction l as [|y l IH]; intros x; cbn [dedup]; [done|]. destruct (dedup l) as [|z r].
  - intros ->%list_elem_of_singleton. left.
  - destruct (bool_decide _); [intros Hx; right; by apply IH|]. intros [->|Hx]%elem_of_cons; [left|right; by apply IH].
Qed.

Lemma dedup_id l : NoDup l -> dedup l = l.
Proof.
  induction l as [|x l IH]; [done|]. intros [Hx Hl]%NoDup_cons. simpl. rewrite IH by done.
  destruct l as [|y l]; [done|]. case_bool_decide as E; [|done]. subst. destruct Hx. left.
Qed.

Lemma sort_strs_elem l x : x ∈ sort_strs l <-> x ∈ l.
Proof. unfold sort_strs. by rewrite merge_sort_Permutation. Qed.
Lemma sort_strs_sorted l : StronglySorted str_le (sort_strs l).
Proof. apply (StronglySorted_merge_sort str_le). Qed.
Lemma sort_strs_NoDup l : NoDup l -> NoDup (sort_strs l).
Proof. unfold sort_strs. by rewrite merge_sort_Permutation. Qed.
Lemma sort_strs_length l : length (sort_strs l) = length l.
Proof. unfold sort_strs. by rewrite merge_sort_Permutation. Qed.

(** Lists joined under a key that each element determines. *)
Lemma NoDup_mjoin {A} (key : str -> str) (f : str * A -> list str) (l : list (str * A)) :
  NoDup l.*1 -> (forall p, p ∈ l -> NoDup (f p)) -> (forall p n, p ∈ l -> n ∈ f p -> key n = p.1) ->
  NoDup (mjoin (f <$> l)).
Proof.
  induction l as [|p l IH]; [intros; apply NoDup_nil_2|]. simpl. intros [Hp Hl]%NoDup_cons H1 H2.
  apply NoDup_app. split_and!; [apply H1; left| |apply IH; [done| |]; intros; [apply H1|apply H2]; try (by right); done].
  intros n Hn (q & Hq & Hin)%list_elem_of_join. apply list_elem_of_fmap in Hin as (p' & -> & Hp').
  apply Hp. rewrite <- (H2 p n ltac:(left) Hn), (H2 p' n ltac:(by right) Hq). by apply list_elem_of_fmap_2.
Qed.

Section Catalogue.
Context `{HashOrder} (digest32 : str -> N) (disk : Disk).

Lemma elem_of_all_names db n : n ∈ all_names db <-> exists s m, shards db !! s = Some m /\ n ∈ meta_namespaces m.
Proof.
  unfold all_names. rewrite list_elem_of_join. split.
  - intros (l & Hn & Hl). apply list_elem_of_fmap in Hl as ([s m] & -> & Hs). exists s, m.
    by rewrite <- elem_of_hash_iter, <- elem_of_hash_elems.
  - intros (s & m & Hs & Hn). exists (hash_elems (meta_namespaces m)). split; [by apply elem_of_hash_elems|].
    apply list_elem_of_fmap. exists (s, m). split; [done|]. by apply elem_of_hash_iter.
Qed.

Lemma catalogue_exists db abs n s m :
  implements digest32 disk db abs -> shards db !! s = Some m -> n ∈ meta_namespaces m -> is_Some (abs !! n).
Proof.
  intros [Hi Hc] Hs Hn. destruct (inv_cat _ _ _ Hi s m n Hs Hn) as [<- Hr]. rewrite <- Hc. unfold content, catalogued.
  destruct (namespaces db !! n); [by eauto|]. rewrite Hs. destruct (resident m) eqn:E.
  - destruct (Hr eq_refl) as [? [=]].
  - rewrite bool_decide_eq_true_2 by done. simpl.
    destruct (inv_disk _ _ _ Hi _ m Hs E) as (_ & data & -> & Hd & _). rewrite <- Hd in Hn.
    apply elem_of_dom in Hn as [vs ->]. simpl. eauto.
Qed.

Lemma exists_catalogue db abs n :
  implements digest32 disk db abs -> is_Some (abs !! n) ->
  exists m, shards db !! shard_of n = Some m /\ n ∈ meta_namespaces m.
Proof.
  intros [Hi Hc]. rewrite <- Hc. unfold content, catalogued. destruct (namespaces db !! n) as [ns|] eqn:E.
  - intros _. destruct (inv_mem _ _ _ Hi n ltac:(eauto)) as (m & Hm & _ & Hn). eauto.
  - destruct (shards db !! shard_of n) as [m|]; [|by intros []].
    destruct (resident m); simpl; [by intros []|]. case_bool_decide; [eauto|by intros []].
Qed.

Lemma all_names_exact db abs n : implements digest32 disk db abs -> n ∈ all_names db <-> is_Some (abs !! n).
Proof.
  intros Himp. rewrite elem_of_all_names. split.
  - intros (s & m & Hs & Hn). by eapply catalogue_exists.
  - intros Hn. destruct (exists_catalogue db abs n Himp Hn) as (m & Hm & Hin). eauto.
Qed.

Lemma all_names_NoDup db abs : implements digest32 disk db abs -> NoDup (all_names db).
Proof.
  intros [Hi _]. apply (NoDup_mjoin shard_of).
  - apply hash_keys_NoDup.
  - intros p _. apply hash_elems_NoDup.
  - intros [s m] n Hp Hn. apply elem_of_hash_iter in Hp. apply elem_of_hash_elems in Hn.
    exact (proj1 (inv_cat _ _ _ Hi s m n Hp Hn)).
Qed.
End Catalogue.

(** ** The search for a value *)
Section Searching.
Context `{HashOrder} (digest32 : str -> N) (disk : Disk) (now : Z).
Context (abs : Abs) (v : str) (limit : nat) (allowed : str -> bool).

Definition holding (n : str) : bool := bool_decide (is_Some (visible now abs n v)).
Definition wanted (n : str) : bool := holding n && allowed n.
Definition item_of (n : str) : Sighting :=
  let vw := view (default (new v) (visible now abs n v)) 0 false in
  mkSighting n (shard_of n) (v_count vw) (v_first_seen vw) (v_last_seen vw).

Definition holding_in (l : list str) : list str := filter (fun n => holding n = true) l.
Definition wanted_in (l : list str) : list str := filter (fun n => wanted n = true) l.

(** The state after the names of [P] have been looked at. *)
Record progress (P : list str) (st : Search) : Prop := {
  pr_impl : implements digest32 disk (se_db st) abs;
  pr_seen : seen st = Z.of_nat (length (holding_in P));
  pr_items : sg_items (found st) = item_of <$> wanted_in P;
  pr_room : length (wanted_in P) <= limit;
  pr_open : truncated (found st) = false;
}.

(** The answer, when [L] are all the names. *)
Definition answered (L : list str) (st : Search) : Prop :=
  implements digest32 disk (se_db st) abs
  /\ sg_items (found st) = item_of <$> take limit (wanted_in L)
  /\ truncated (found st) = bool_decide (limit < length (wanted_in L)).

Lemma holding_snoc P n : holding_in (P ++ [n]) = holding_in P ++ (if holding n then [n] else []).
Proof. unfold holding_in. rewrite filter_app. f_equal. rewrite filter_cons, filter_nil. by destruct (holding n). Qed.
Lemma wanted_snoc P n : wanted_in (P ++ [n]) = wanted_in P ++ (if wanted n then [n] else []).
Proof. unfold wanted_in. rewrite filter_app. f_equal. rewrite filter_cons, filter_nil. by destruct (wanted n). Qed.

Lemma progress_answered P st : progress P st -> answered P st.
Proof.
  intros [H1 H2 H3 H4 H5]. split; [done|]. rewrite take_ge by done. split; [done|].
  rewrite H5. symmetry. apply bool_decide_eq_false. lia.
Qed.

(** Nothing that is wanted comes after everything that holds the value. *)
Lemma no_more P rest : length (holding_in (P ++ rest)) <= length (holding_in P) -> wanted_in (P ++ rest) = wanted_in P.
Proof.
  unfold holding_in, wanted_in. rewrite !filter_app, length_app. intros Hl.
  rewrite (list_filter_none (fun n => wanted n = true) rest); [by rewrite app_nil_r|].
  intros n Hn Hw. unfold wanted in Hw. apply andb_true_iff in Hw as [Hw _].
  assert (Hx : n ∈ filter (fun n => holding n = true) rest) by (apply list_elem_of_filter; done).
  destruct (filter (fun n => holding n = true) rest); [by apply elem_of_nil in Hx|simpl in Hl; lia].
Qed.

(** One name that does not hold the value, one the caller may not see, one
    that is added, and one there is no room for. *)
Lemma absent_progress P st n db' :
  progress P st -> implements digest32 disk db' abs -> holding n = false ->
  progress (P ++ [n]) (mkSearch db' (seen st) (found st)).
Proof.
  intros [H1 H2 H3 H4 H5] Hi Hh.
  assert (E1 : holding_in (P ++ [n]) = holding_in P) by (rewrite holding_snoc, Hh; by rewrite app_nil_r).
  assert (E2 : wanted_in (P ++ [n]) = wanted_in P)
    by (rewrite wanted_snoc; unfold wanted; rewrite Hh; by rewrite app_nil_r).
  split; rewrite ?E1, ?E2; done.
Qed.

Lemma seen_next P st n :
  (Z.of_nat (length (P ++ [n])) < U64_MODULUS)%Z -> progress P st -> holding n = true ->
  u64_add (seen st) 1 = Z.of_nat (length (holding_in (P ++ [n]))).
Proof.
  intros Hb [_ H2 _ _ _] Hh. rewrite holding_snoc, Hh, length_app, H2. unfold u64_add. simpl. rewrite length_app in Hb.
  simpl in Hb. assert (Hle : length (holding_in P) <= length P) by apply length_filter.
  rewrite wrap64_id; [lia|]. unfold is_u64. lia.
Qed.

Lemma hidden_progress P st n db' pg :
  (Z.of_nat (length (P ++ [n])) < U64_MODULUS)%Z -> progress P st -> implements digest32 disk db' abs ->
  holding n = true -> allowed n = false ->
  progress (P ++ [n]) (mkSearch db' (u64_add (seen st) 1) (mkSightings (sg_items (found st)) (truncated (found st)) pg)).
Proof.
  intros Hb Hp Hi Hh Ha. pose proof (seen_next P st n Hb Hp Hh) as Hs. destruct Hp as [H1 H2 H3 H4 H5].
  assert (E2 : wanted_in (P ++ [n]) = wanted_in P)
    by (rewrite wanted_snoc; unfold wanted; rewrite Hh, Ha; by rewrite app_nil_r).
  split; rewrite ?E2; done.
Qed.

Lemma found_progress P st n db' pg :
  (Z.of_nat (length (P ++ [n])) < U64_MODULUS)%Z -> progress P st -> implements digest32 disk db' abs ->
  holding n = true -> allowed n = true -> length (wanted_in P) < limit ->
  progress (P ++ [n]) (mkSearch db' (u64_add (seen st) 1)
    (mkSightings (sg_items (found st) ++ [item_of n]) (truncated (found st)) pg)).
Proof.
  intros Hb Hp Hi Hh Ha Hl. pose proof (seen_next P st n Hb Hp Hh) as Hs. destruct Hp as [H1 H2 H3 H4 H5].
  assert (E2 : wanted_in (P ++ [n]) = wanted_in P ++ [n])
    by (rewrite wanted_snoc; unfold wanted; by rewrite Hh, Ha).
  split; cbn [se_db seen found sg_items truncated]; rewrite ?E2; [done|done| | |done].
  - by rewrite fmap_app, H3.
  - rewrite length_app. simpl. lia.
Qed.

Lemma full_answered P st n db' pg more :
  progress P st -> implements digest32 disk db' abs ->
  holding n = true -> allowed n = true -> limit <= length (wanted_in P) ->
  answered ((P ++ [n]) ++ more) (mkSearch db' (u64_add (seen st) 1) (mkSightings (sg_items (found st)) true pg)).
Proof.
  intros [H1 H2 H3 H4 H5] Hi Hh Ha Hl. split; [done|]. cbn [found sg_items truncated].
  assert (E : wanted_in ((P ++ [n]) ++ more) = wanted_in P ++ [n] ++ wanted_in more).
  { unfold wanted_in at 1. rewrite filter_app. fold (wanted_in (P ++ [n])) (wanted_in more).
    rewrite wanted_snoc. unfold wanted. rewrite Hh, Ha. by rewrite <- app_assoc. }
  rewrite E. split.
  - rewrite take_app_le by lia. by rewrite take_ge.
  - symmetry. apply bool_decide_eq_true. rewrite !length_app. simpl. lia.
Qed.

Lemma search_spec target from_disk names P later st :
  ((0 < target)%Z -> (Z.of_nat (length (holding_in (P ++ names ++ later))) <= target)%Z) ->
  (Z.of_nat (length (P ++ names ++ later)) < U64_MODULUS)%Z ->
  progress P st ->
  let r := search digest32 disk now v target limit allowed from_disk names st in
  if r.2 then answered (P ++ names ++ later) r.1 else progress (P ++ names) r.1.
Proof.
  revert P st. induction names as [|n names IH]; intros P st Ht Hb Hp; cbn [search]; [by rewrite app_nil_r|].
  destruct (bool_decide (0 < target)%Z && bool_decide (target <= seen st)%Z) eqn:Est.
  { apply andb_true_iff in Est as [Hpos%bool_decide_eq_true Hd%bool_decide_eq_true]. cbn [fst snd].
    specialize (Ht Hpos). rewrite (pr_seen _ _ Hp) in Hd.
    unfold answered. rewrite no_more by lia. by apply progress_answered. }
  replace (P ++ (n :: names) ++ later) with ((P ++ [n]) ++ names ++ later) in * by (by rewrite <- app_assoc).
  replace (P ++ n :: names) with ((P ++ [n]) ++ names) by (by rewrite <- app_assoc).
  destruct (view_in_spec digest32 disk now (se_db st) abs n v 0 false (pr_impl _ _ Hp)) as (I1 & _ & _ & _ & I2).
  set (q := view_in digest32 disk now (se_db st) n v 0 false) in *.
  assert (Hb' : (Z.of_nat (length (P ++ [n])) < U64_MODULUS)%Z)
    by (rewrite (length_app (P ++ [n]) (names ++ later)) in Hb; lia).
  destruct (visible now abs n v) as [a|] eqn:Ea; rewrite I2; cbn [fmap option_fmap option_map].
  - assert (Hh : holding n = true) by (unfold holding; rewrite Ea; by apply bool_decide_eq_true_2).
    destruct (allowed n) eqn:Eal; cbn [negb]; [|apply IH; [done|done|by apply hidden_progress]].
    cbn [sg_items]. destruct (limit <=? length (sg_items (found st))) eqn:El;
      rewrite (pr_items _ _ Hp), length_fmap in El.
    + apply Nat.leb_le in El. cbn [fst snd]. by apply full_answered.
    + apply Nat.leb_gt in El.
      assert (Ei : item_of n = mkSighting n (shard_of n) (v_count (view a 0 false)) (v_first_seen (view a 0 false))
                     (v_last_seen (view a 0 false))) by (unfold item_of; by rewrite Ea).
      rewrite <- Ei. apply IH; [done|done|by apply found_progress].
  - apply IH; [done|done|]. apply absent_progress; [done|done|]. unfold holding. rewrite Ea.
    apply bool_decide_eq_false_2. by intros [].
Qed.
End Searching.

#[export] Instance sighting_le_trans : Transitive sighting_le.
Proof. intros a b c. apply str_le_trans. Qed.
#[export] Instance sighting_le_total : Total sighting_le.
Proof. intros a b. apply str_le_total. Qed.

Section Complete.
Context `{HashOrder} (digest32 : str -> N) (disk : Disk).

Lemma elem_of_searched db b n :
  n ∈ searched db b <-> counts_towards_consensus n = true
    /\ exists s m, shards db !! s = Some m /\ resident m = b /\ n ∈ meta_namespaces m.
Proof.
  unfold searched. rewrite list_elem_of_join. split.
  - intros (l & Hn & Hl). apply list_elem_of_fmap in Hl as ([s m] & -> & [Hr Hs]%list_elem_of_filter). simpl in *.
    apply list_elem_of_filter in Hn as [Hc Hn]. split; [done|]. exists s, m.
    by rewrite <- elem_of_hash_iter, <- elem_of_hash_elems.
  - intros (Hc & s & m & Hs & Hr & Hn).
    exists (filter (fun n => counts_towards_consensus n = true) (hash_elems (meta_namespaces m))). split.
    + apply list_elem_of_filter. split; [exact Hc|]. apply elem_of_hash_elems, Hn.
    + apply list_elem_of_fmap. exists (s, m). split; [done|]. apply list_elem_of_filter. split; [done|].
      by apply elem_of_hash_iter.
Qed.

Lemma searched_NoDup db abs b : implements digest32 disk db abs -> NoDup (searched db b).
Proof.
  intros [Hi _]. apply (NoDup_mjoin shard_of).
  - eapply sublist_NoDup; [apply (hash_keys_NoDup (shards db))|]. apply fmap_sublist, sublist_filter.
  - intros p _. apply NoDup_filter, hash_elems_NoDup.
  - intros [s m] n Hp Hn. apply list_elem_of_filter in Hp as [_ Hp]. apply list_elem_of_filter in Hn as [_ Hn].
    apply elem_of_hash_iter in Hp. apply elem_of_hash_elems in Hn.
    exact (proj1 (inv_cat _ _ _ Hi s m n Hp Hn)).
Qed.

(** Both lists together are the namespaces that count. *)
Lemma searched_all db abs :
  implements digest32 disk db abs ->
  NoDup (searched db true ++ searched db false)
  /\ forall n, n ∈ searched db true ++ searched db false
       <-> counts_towards_consensus n = true /\ is_Some (abs !! n).
Proof.
  intros Himp. split.
  - apply NoDup_app. split_and!; [by eapply searched_NoDup| |by eapply searched_NoDup].
    intros n (_ & s & m & Hs & Hr & Hn)%elem_of_searched (_ & s' & m' & Hs' & Hr' & Hn')%elem_of_searched.
    pose proof (proj1 (inv_cat _ _ _ (proj1 Himp) s m n Hs Hn)).
    pose proof (proj1 (inv_cat _ _ _ (proj1 Himp) s' m' n Hs' Hn')). congruence.
  - intros n. rewrite elem_of_app, !elem_of_searched. split.
    + intros [(Hc & s & m & Hs & _ & Hn)|(Hc & s & m & Hs & _ & Hn)]; (split; [done|by eapply catalogue_exists]).
    + intros [Hc Hn]. destruct (exists_catalogue digest32 disk db abs n Himp Hn) as (m & Hm & Hin).
      destruct (resident m) eqn:E; [left|right]; eauto 10.
Qed.

Lemma holding_le now abs v L :
  NoDup L -> (forall n, n ∈ L -> counts_towards_consensus n = true) ->
  length (holding_in now abs v L) <= holders abs v.
Proof.
  intros Hd Hc. unfold holders. rewrite <- size_dom.
  rewrite <- (size_list_to_set (C := gset str)) by by apply NoDup_filter. apply subseteq_size.
  intros n Hn. apply elem_of_list_to_set, list_elem_of_filter in Hn as [Hh Hn]. unfold holding in Hh.
  apply bool_decide_eq_true in Hh as [a Ha]. unfold visible, a_values in Ha. apply elem_of_dom.
  destruct (abs !! n) as [vs|] eqn:E; simpl in Ha; [|by rewrite lookup_empty in Ha].
  exists vs. apply map_lookup_filter_Some. split; [done|]. split; [by apply Hc|]. simpl. destruct (vs !! v); [by eauto|done].
Qed.

Lemma implements_dom_size db abs :
  implements digest32 disk db abs -> length (searched db true ++ searched db false) <= size abs.
Proof.
  intros Himp. destruct (searched_all db abs Himp) as [Hd He]. rewrite <- size_dom.
  rewrite <- (size_list_to_set (C := gset str)) by done. apply subseteq_size.
  intros n Hn%elem_of_list_to_set. apply He in Hn as [_ Hn]. by apply elem_of_dom.
Qed.
End Complete.

(** C27: the search for everywhere a value was seen is complete although it stops
    early: while the tally in [_all] counts exactly, as it does in the runs of
    [consensus_exact], it returns every namespace that holds the
    value live and that the caller may see, in memory or not, in order, with
    the value's own count and window, up to the limit; it says the list was cut
    exactly when it was; and looking changes nothing that is stored. *)
Theorem sightings_complete `{HashOrder} digest32 disk now db abs v limit allowed :
  implements digest32 disk db abs -> consensus_ok (node db) abs -> (Z.of_nat (size abs) < U64_MODULUS)%Z ->
  let r := sightings_of digest32 disk now db v limit allowed in
  exists want,
    NoDup want
    /\ (forall n, n ∈ want <-> counts_towards_consensus n = true /\ allowed n = true /\ is_Some (visible now abs n v))
    /\ sg_items r.2 ≡ₚ item_of now abs v <$> take limit want
    /\ StronglySorted sighting_le (sg_items r.2)
    /\ truncated r.2 = bool_decide (limit < length want)
    /\ implements digest32 disk r.1 abs.
Proof.
  intros Himp Hok Hb r. unfold r, sightings_of.
  pose proof (consensus_count digest32 disk now db abs v Himp Hok Hb) as Hcnt.
  destruct (count_in_spec digest32 disk now db abs ALL_NAMESPACE v Himp) as (H1 & _ & _ & _ & _).
  set (c := count_in digest32 disk now db ALL_NAMESPACE v) in *.
  destruct (searched_all digest32 disk c.1 abs H1) as [Hnd Hall].
  pose proof (implements_dom_size digest32 disk c.1 abs H1) as Hlen.
  set (L1 := searched c.1 true) in *. set (L2 := searched c.1 false) in *.
  assert (Hle : length (holding_in now abs v (L1 ++ L2)) <= holders abs v)
    by (apply holding_le; [done|]; intros n Hn; by apply Hall in Hn as [? _]).
  set (st0 := mkSearch c.1 0 (mkSightings [] false false)).
  assert (P0 : progress digest32 disk now abs v limit allowed [] st0) by (split; try done; simpl; lia).
  assert (B1 : (0 < c.2)%Z -> (Z.of_nat (length (holding_in now abs v (L1 ++ L2))) <= c.2)%Z) by (rewrite Hcnt; lia).
  assert (B2 : (Z.of_nat (length (L1 ++ L2)) < U64_MODULUS)%Z) by lia.
  pose proof (search_spec digest32 disk now abs v limit allowed c.2 false L1 [] L2 st0 B1 B2 P0) as S1. cbv zeta in S1. cbn [app] in S1.
  set (r1 := search digest32 disk now v c.2 limit allowed false L1 st0) in *.
  set (r2 := if r1.2 then r1 else search digest32 disk now v c.2 limit allowed true L2 r1.1).
  assert (Ha : answered digest32 disk now abs v limit allowed (L1 ++ L2) r2.1).
  { unfold r2. destruct r1.2; [exact S1|].
    pose proof (search_spec digest32 disk now abs v limit allowed c.2 true L2 L1 [] r1.1) as S2.
    rewrite !app_nil_r in S2. specialize (S2 B1 B2 S1). cbv zeta in S2.
    destruct (search digest32 disk now v c.2 limit allowed true L2 r1.1).2; [done|by apply progress_answered]. }
  destruct Ha as (A1 & A2 & A3). exists (wanted_in now abs v allowed (L1 ++ L2)). cbn [fst snd sg_items truncated].
  split_and!; [by apply NoDup_filter| |by rewrite merge_sort_Permutation, A2| |done|done].
  - intros n. unfold wanted_in, wanted, holding. rewrite list_elem_of_filter, Hall, andb_true_iff, bool_decide_eq_true.
    split; [tauto|]. intros (Hc & Hal & Hv). split_and!; try done.
    destruct Hv as [a Hv]. unfold visible, a_values in Hv. destruct (abs !! n); [by eauto|].
    simpl in Hv. by rewrite lookup_empty in Hv.
  - apply (StronglySorted_merge_sort sighting_le).
Qed.

(** The run of [System], asked about its value: two namespaces hold it. *)
Lemma sightings_complete_witness :
  let C := chrono_10000y in let O := some_order in
  exists want : list str, NoDup want
    /\ truncated (sightings_of (fun _ => 7%N) (shard_files (dir demo_run)) (100 * NANOS) (db demo_run) (lit "x") 1
                   (fun _ => true)).2 = bool_decide (1 < length want).
Proof.
  intros C O.
  destruct (steps_inv (fun _ => 7%N) demo_names demo_distinct demo_internal 5 0 (demo_start, ∅) (demo_run, ∅) ∅ ltac:(done)
    (sys_start_inv (fun _ => 7%N) demo_names (mkPolicy 3600 0) _ _ _ _ ltac:(done)) demo_run_steps) as [abs Habs].
  assert (Hb : (Z.of_nat (size abs) < U64_MODULUS)%Z).
  { pose proof (si_size _ _ _ _ _ _ Habs). unfold U64_MODULUS. lia. }
  destruct (sightings_complete (fun _ => 7%N) (shard_files (dir demo_run)) (100 * NANOS) (db demo_run) abs (lit "x") 1
    (fun _ => true) (si_impl _ _ _ _ _ _ Habs) (si_cons _ _ _ _ _ _ Habs) Hb) as (want & H1 & _ & _ & _ & H2 & _).
  exists want. split; [exact H1|exact H2].
Defined.

(** ** Pages and the tree *)
Lemma filtered_sorted l : NoDup l -> dedup (sort_strs l) = sort_strs l.
Proof. intros Hl. by apply dedup_id, sort_strs_NoDup. Qed.

(** Listings show exactly what exists, evicted or not, and only what the
    caller may see: the pages of namespaces cut the sorted list of existing,
    browsable, matching and allowed names, each once, with the shard it belongs
    to and that shard's tier in force; and the names under a prefix are the
    existing ordinary names at or below it on whole segments. *)
Theorem listing_exact `{HashOrder} digest32 disk db abs flt off limit allowed prefix :
  implements digest32 disk db abs ->
  let p := namespace_page db flt off limit allowed in
  let u := namespaces_under db prefix allowed in
  (exists names, StronglySorted str_le names /\ NoDup names
     /\ (forall n, n ∈ names <-> is_Some (abs !! n) /\ browsable n = true
                               /\ matches (to_ascii_lowercase flt) n = true /\ allowed n = true)
     /\ ne_namespace <$> items p = page_of off limit names /\ total p = length names)
  /\ (forall e, e ∈ items p -> ne_shard e = shard_of (ne_namespace e)
        /\ ne_tier e = as_str (r_tier (resolve (tiers db) (ne_shard e))))
  /\ StronglySorted str_le u /\ NoDup u
  /\ (forall n, n ∈ u <-> is_Some (abs !! n) /\ is_internal n = false /\ under n (trim_slashes prefix) = true
                          /\ allowed n = true).
Proof.
  intros Himp p u. pose proof (all_names_NoDup digest32 disk db abs Himp) as Hnd.
  pose proof (fun n => all_names_exact digest32 disk db abs n Himp) as Hex. split_and!.
  - eexists. split_and!; [| | | |reflexivity].
    + rewrite filtered_sorted by by repeat apply NoDup_filter. apply sort_strs_sorted.
    + rewrite filtered_sorted by by repeat apply NoDup_filter. by apply sort_strs_NoDup; repeat apply NoDup_filter.
    + intros n. rewrite filtered_sorted by by repeat apply NoDup_filter.
      rewrite sort_strs_elem, !list_elem_of_filter, Hex. tauto.
    + unfold p, namespace_page. cbn [items]. rewrite <- list_fmap_compose. by apply list_fmap_same.
  - intros e He. unfold p, namespace_page in He. cbn [items] in He.
    apply list_elem_of_fmap in He as (n & -> & _). done.
  - unfold u, namespaces_under. rewrite filtered_sorted by by repeat apply NoDup_filter. apply sort_strs_sorted.
  - unfold u, namespaces_under. rewrite filtered_sorted by by repeat apply NoDup_filter.
    by apply sort_strs_NoDup; repeat apply NoDup_filter.
  - intros n. unfold u, namespaces_under. rewrite filtered_sorted by by repeat apply NoDup_filter.
    rewrite sort_strs_elem, !list_elem_of_filter, Hex. tauto.
Qed.

Lemma listing_exact_witness :
  let O := some_order in
  StronglySorted str_le (namespaces_under demo_db (lit "/feeds/") (fun _ => true)).
Proof.
  intros O.
  exact (proj1 (proj2 (proj2 (listing_exact (fun _ => 7%N) ∅ demo_db ∅ [] 0 10 (fun _ => true) (lit "/feeds/")
    (empty_implements _ _ _ _ _))))).
Defined.

(** ** One level of the tree *)

(** The segment a name is filed under, and whether the name ends there. *)
Definition child_kind (prefix name : str) : option (str * bool) :=
  match child_rest prefix name with
  | None => None
  | Some rest =>
      let segment := default [] (head (split_char SLASH rest)) in
      if is_empty segment then None else Some (segment, bool_decide (segment = rest))
  end.

Lemma split_first c s :
  exists x, head (split_char c s) = Some x /\ c ∉ x /\ (s = x \/ exists r, s = x ++ c :: r).
Proof.
  induction s as [|y s (x & Hh & Hx & Hs)]; [exists []; split_and!; [done|apply not_elem_of_nil|by left]|].
  simpl. destruct (y =? c)%N eqn:E.
  - apply N.eqb_eq in E. subst. exists []. split_and!; [done|apply not_elem_of_nil|right; by exists s].
  - apply N.eqb_neq in E. destruct (split_char c s) as [|z zs]; [done|]. injection Hh as ->. exists (y :: x).
    split_and!; [done|rewrite elem_of_cons; intuition|]. destruct Hs as [->|[r ->]]; [by left|right; by exists r].
Qed.

Lemma first_segment c x s :
  c ∉ x -> (head (split_char c s) = Some x <-> s = x \/ exists r, s = x ++ c :: r).
Proof.
  intros Hx. split.
  - intros Hh. destruct (split_first c s) as (y & Hy & _ & Hs).
    assert (x = y) by congruence. by subst.
  - intros [-> |[r ->]]; [by rewrite split_char_id|by rewrite split_char_app].
Qed.

Lemma str_len_prefix x r : str_len x = str_len (x ++ r) <-> r = [].
Proof.
  rewrite str_len_app. split; [intros; apply str_len_0; lia|]. intros ->. unfold str_len. simpl. lia.
Qed.

Lemma add_child_kind prefix m name :
  add_child prefix m name =
  match child_kind prefix name with
  | None => m
  | Some (seg, exact) =>
      let e := default (false, 0) (m !! seg) in <[seg := if exact then (true, e.2) else (e.1, S e.2)]> m
  end.
Proof.
  unfold add_child, child_kind. destruct (child_rest prefix name) as [rest|]; [|done].
  destruct (split_first SLASH rest) as (x & Hh & Hx & Hs). rewrite Hh. simpl. destruct (is_empty x); [done|].
  f_equal. destruct Hs as [->|[r ->]].
  - by rewrite Nat.eqb_refl, bool_decide_eq_true_2.
  - rewrite bool_decide_eq_false_2.
    + destruct (str_len x =? _) eqn:E; [|done]. apply Nat.eqb_eq, str_len_prefix in E. done.
    + intros E. rewrite <- (app_nil_r x) in E at 1. by apply app_inv_head in E.
Qed.

Definition kinds (prefix seg : str) (exact : bool) (l : list str) : list str :=
  filter (fun n => child_kind prefix n = Some (seg, exact)) l.

Lemma kinds_snoc prefix seg b l n :
  kinds prefix seg b (l ++ [n]) = kinds prefix seg b l ++ (if bool_decide (child_kind prefix n = Some (seg, b)) then [n] else []).
Proof.
  unfold kinds. rewrite filter_app. f_equal. rewrite filter_cons, filter_nil. by case_decide; case_bool_decide.
Qed.

Lemma children_lookup prefix l seg :
  foldl (add_child prefix) ∅ l !! seg =
  if bool_decide (kinds prefix seg true l = [] /\ kinds prefix seg false l = []) then None
  else Some (negb (is_empty (kinds prefix seg true l)), length (kinds prefix seg false l)).
Proof.
  induction l as [|n l IH] using rev_ind; [done|].
  rewrite foldl_app, !kinds_snoc. cbn [foldl]. rewrite add_child_kind.
  destruct (child_kind prefix n) as [[s b]|]; [|by rewrite !app_nil_r].
  destruct (decide (s = seg)) as [->|Hne].
  - rewrite lookup_insert_eq, IH.
    assert (Hb : forall b', bool_decide (Some (seg, b) = Some (seg, b')) = eqb b b')
      by (intros b'; destruct b, b'; by apply bool_decide_eq_true_2 || by apply bool_decide_eq_false_2).
    rewrite !Hb. destruct b; cbn [eqb]; rewrite app_nil_r.
    + rewrite (bool_decide_eq_false_2 (_ ++ _ = [] /\ _)) by (intros [Hx _]; by apply app_nil in Hx as [_ ?]).
      replace (is_empty (kinds prefix seg true l ++ [n])) with false by (by destruct (kinds prefix seg true l)).
      destruct (bool_decide_reflect (kinds prefix seg true l = [] /\ kinds prefix seg false l = [])) as [[_ ->]|_]; done.
    + rewrite (bool_decide_eq_false_2 (_ /\ _ ++ _ = [])) by (intros [_ Hx]; by apply app_nil in Hx as [_ ?]).
      rewrite length_app, Nat.add_comm.
      destruct (bool_decide_reflect (kinds prefix seg true l = [] /\ kinds prefix seg false l = [])) as [[-> ->]|_]; done.
  - rewrite lookup_insert_ne, IH by done.
    assert (Hn : forall b', bool_decide (Some (s, b) = Some (seg, b')) = false)
      by (intros b'; apply bool_decide_eq_false_2; congruence).
    by rewrite !Hn, !app_nil_r.
Qed.

(** The path of a child. *)
Definition child_path (prefix seg : str) : str := if is_empty prefix then seg else prefix ++ [SLASH] ++ seg.

Lemma child_rest_spec prefix name rest : child_rest prefix name = Some rest <-> name = child_path prefix rest.
Proof.
  unfold child_rest, child_path. destruct (is_empty prefix); [split; congruence|].
  destruct (strip_prefix prefix name) as [r|] eqn:E.
  - apply strip_prefix_spec in E. subst. rewrite strip_prefix_spec. split; [by intros ->|].
    intros Hx. by apply app_inv_head in Hx.
  - split; [done|]. intros ->. by rewrite (proj2 (strip_prefix_spec prefix _ ([SLASH] ++ rest)) eq_refl) in E.
Qed.

Lemma child_path_app prefix a b : child_path prefix (a ++ b) = child_path prefix a ++ b.
Proof. unfold child_path. destruct (is_empty prefix); [done|]. by rewrite <- !app_assoc. Qed.

Lemma child_kind_spec prefix name seg b :
  child_kind prefix name = Some (seg, b) <->
  seg <> [] /\ SLASH ∉ seg
  /\ if b then name = child_path prefix seg else exists r, name = child_path prefix seg ++ [SLASH] ++ r.
Proof.
  unfold child_kind. destruct (child_rest prefix name) as [rest|] eqn:E.
  - apply child_rest_spec in E. destruct (split_first SLASH rest) as (x & Hh & Hx & Hs). rewrite Hh. simpl.
    split.
    + destruct x as [|c x]; [done|]. simpl. intros [= <- <-]. split_and!; [done|done|].
      case_bool_decide as Ex; [by subst|]. destruct Hs as [->|[r ->]]; [done|]. exists r.
      rewrite E, child_path_app. done.
    + intros (Hne & Hsl & Hb). assert (Hrest : if b then rest = seg else exists r, rest = seg ++ SLASH :: r).
      { destruct b.
        - assert (Hc : child_rest prefix name = Some seg) by by apply child_rest_spec.
          apply (proj2 (child_rest_spec prefix name rest)) in E. congruence.
        - destruct Hb as [r Hr]. exists r. rewrite <- child_path_app in Hr.
          assert (Hc : child_rest prefix name = Some (seg ++ SLASH :: r)) by by apply child_rest_spec.
          apply (proj2 (child_rest_spec prefix name rest)) in E. congruence. }
      assert (x = seg) as ->.
      { assert (Hh' : head (split_char SLASH rest) = Some seg).
        { apply first_segment; [done|]. destruct b; [by left|by right]. }
        congruence. }
      destruct seg as [|c seg]; [done|]. simpl. f_equal. f_equal. destruct b.
      * by apply bool_decide_eq_true_2.
      * apply bool_decide_eq_false_2. destruct Hrest as [r Hr]. intros Ex. rewrite Hr in Ex.
        rewrite <- (app_nil_r (c :: seg)) in Ex at 1. by apply app_inv_head in Ex.
  - split; [done|]. intros (_ & _ & Hb). exfalso. destruct b.
    + by rewrite (proj2 (child_rest_spec prefix name seg) Hb) in E.
    + destruct Hb as [r Hr]. rewrite <- child_path_app in Hr. by rewrite (proj2 (child_rest_spec _ _ _) Hr) in E.
Qed.

(** ** The children of a prefix, for one list of names that may be shown *)
Section Children.
Context `{HashOrder} (prefix : str) (L : list str).

Definition children_map : gmap str (bool * nat) := foldl (add_child prefix) ∅ L.

Lemma elem_of_kinds seg b n :
  n ∈ kinds prefix seg b L <-> n ∈ L /\ seg <> [] /\ SLASH ∉ seg
    /\ if b then n = child_path prefix seg else exists r, n = child_path prefix seg ++ [SLASH] ++ r.
Proof. unfold kinds. rewrite list_elem_of_filter, child_kind_spec. tauto. Qed.

Lemma kinds_some seg b : kinds prefix seg b L <> [] <-> exists n, n ∈ kinds prefix seg b L.
Proof.
  destruct (kinds prefix seg b L) as [|n l]; [|split; [intros _; exists n; left|done]].
  split; [done|]. intros [n Hn]. by apply elem_of_nil in Hn.
Qed.

Lemma children_dom seg :
  is_Some (children_map !! seg) <-> seg <> [] /\ SLASH ∉ seg
    /\ (child_path prefix seg ∈ L \/ exists r, child_path prefix seg ++ [SLASH] ++ r ∈ L).
Proof.
  unfold children_map. rewrite children_lookup.
  transitivity (kinds prefix seg true L <> [] \/ kinds prefix seg false L <> []).
  - case_bool_decide as Hb; [split; [by intros []|tauto]|]. split; [intros _|by eauto].
    destruct (decide (kinds prefix seg true L = [])); [right|by left]. tauto.
  - rewrite !kinds_some. setoid_rewrite elem_of_kinds. split.
    + intros [(n & Hn & Hne & Hsl & ->)|(n & Hn & Hne & Hsl & r & ->)]; eauto 6.
    + intros (Hne & Hsl & [Hn|[r Hn]]); [left|right]; eauto 8.
Qed.

Lemma children_entry seg c :
  children_map !! seg = Some c ->
  (c.1 = true <-> child_path prefix seg ∈ L)
  /\ exists below, (NoDup L -> NoDup below) /\ c.2 = length below
       /\ forall n, n ∈ below <-> n ∈ L /\ exists r, n = child_path prefix seg ++ [SLASH] ++ r.
Proof.
  intros Hc. destruct (proj1 (children_dom seg) ltac:(eauto)) as (Hne & Hsl & _).
  unfold children_map in Hc. rewrite children_lookup in Hc.
  destruct (bool_decide_reflect (kinds prefix seg true L = [] /\ kinds prefix seg false L = [])) as [|_]; [done|].
  injection Hc as <-. cbn [fst snd]. split.
  - transitivity (kinds prefix seg true L <> []); [by destruct (kinds prefix seg true L)|].
    rewrite kinds_some. setoid_rewrite elem_of_kinds. split; [by intros (n & Hn & _ & _ & ->)|eauto 6].
  - exists (kinds prefix seg false L). split_and!; [by apply NoDup_filter|done|].
    intros n. rewrite elem_of_kinds. tauto.
Qed.
End Children.

(** One level of the namespace tree is exact: the children listed under a
    prefix are the first segments, each once and in order, below which the
    caller may see some existing namespace; a child is marked a namespace
    exactly when its path is one, and the number it carries is the number of
    visible namespaces strictly below it, evicted ones included. *)
Theorem tree_exact `{HashOrder} digest32 disk db abs prefix flt off limit allowed :
  implements digest32 disk db abs ->
  let p := namespace_children db prefix flt off limit allowed in
  let shown n := is_Some (abs !! n) /\ browsable n = true /\ allowed n = true in
  let path := child_path (trim_slashes prefix) in
  (exists names, StronglySorted str_le names /\ NoDup names
     /\ (forall n, n ∈ names <-> n <> [] /\ SLASH ∉ n /\ matches (to_ascii_lowercase flt) n = true
           /\ (shown (path n) \/ exists r, shown (path n ++ [SLASH] ++ r)))
     /\ te_name <$> items p = page_of off limit names /\ total p = length names)
  /\ (forall e, e ∈ items p ->
        te_path e = path (te_name e) /\ (te_is_namespace e = true <-> shown (te_path e))
        /\ exists below, NoDup below /\ te_descendants e = length below
             /\ forall n, n ∈ below <-> shown n /\ exists r, n = te_path e ++ [SLASH] ++ r).
Proof.
  intros Himp p shown path.
  set (L := filter (fun n => allowed n = true) (filter (fun n => browsable n = true) (all_names db))).
  assert (HL : forall n, n ∈ L <-> shown n).
  { intros n. unfold L, shown. rewrite !list_elem_of_filter, (all_names_exact digest32 disk db abs n Himp). tauto. }
  assert (HN : NoDup L) by (by repeat apply NoDup_filter; eapply all_names_NoDup).
  pose proof (children_dom (trim_slashes prefix) L) as Hm. setoid_rewrite HL in Hm.
  set (m := children_map (trim_slashes prefix) L) in *. split.
  - exists (sort_strs (filter (fun n => matches (to_ascii_lowercase flt) n = true) (hash_keys m))). split_and!.
    + apply sort_strs_sorted.
    + apply sort_strs_NoDup, NoDup_filter, hash_keys_NoDup.
    + intros n. rewrite sort_strs_elem, list_elem_of_filter, elem_of_hash_keys, Hm. tauto.
    + unfold p, namespace_children. cbn [items]. rewrite <- list_fmap_compose. by apply list_fmap_same.
    + done.
  - intros e He. apply list_elem_of_fmap in He as (seg & -> & Hseg).
    assert (Hs : is_Some (m !! seg)).
    { apply subseteq_take, subseteq_drop in Hseg.
      apply sort_strs_elem, list_elem_of_filter in Hseg as [_ Hj]. by apply elem_of_hash_keys. }
    destruct Hs as [c Hc]. destruct (children_entry _ L seg c Hc) as (H1 & below & H2 & H3 & H4).
    unfold tree_entry. cbn [te_path te_name te_is_namespace te_descendants].
    fold L. change (foldl (add_child (trim_slashes prefix)) ∅ L) with m. rewrite Hc. cbn [default].
    split; [done|]. split; [by rewrite <- HL|]. exists below. split_and!; [auto|done|].
    intros n. rewrite H4, HL. done.
Qed.

Lemma tree_exact_witness :
  let O := some_order in
  exists names, StronglySorted str_le names
    /\ te_name <$> items (namespace_children demo_db (lit "feeds") [] 0 10 (fun _ => true)) = page_of 0 10 names.
Proof.
  intros O.
  destruct (tree_exact (fun _ => 7%N) ∅ demo_db ∅ (lit "feeds") [] 0 10 (fun _ => true) (empty_implements _ _ _ _ _))
    as [(names & H1 & _ & _ & H2 & _) _].
  exists names. split; [exact H1|exact H2].
Defined.

(** ** The values of a namespace *)
Section Values.
Context `{HashOrder} (digest32 : str -> N) (disk : Disk) (now : Z) (abs : Abs).

(** A view with the consensus the database answers for its value. *)
Definition with_consensus (vw : AttributeView) : AttributeView :=
  mkView (v_value vw) (v_first_seen vw) (v_last_seen vw) (v_count vw) (v_tags vw) (v_ttl vw)
    (match visible now abs ALL_NAMESPACE (v_value vw) with Some t => count t | None => 0%Z end) (v_stats vw).

Lemma fill_consensus_spec views db acc :
  implements digest32 disk db abs ->
  let q := foldl (fill_consensus digest32 disk now) (db, acc) views in
  implements digest32 disk q.1 abs /\ q.2 = acc ++ (with_consensus <$> views).
Proof.
  revert db acc. induction views as [|vw views IH]; intros db acc Himp; [by rewrite app_nil_r|].
  cbn [foldl fmap list_fmap]. unfold fill_consensus at 2 4. cbn [fst snd].
  destruct (count_in_spec digest32 disk now db abs ALL_NAMESPACE (v_value vw) Himp) as (H1 & _ & _ & _ & H2).
  destruct (IH _ (acc ++ [with_consensus vw]) H1) as [H3 H4].
  assert (E : mkView (v_value vw) (v_first_seen vw) (v_last_seen vw) (v_count vw) (v_tags vw) (v_ttl vw)
    (count_in digest32 disk now db ALL_NAMESPACE (v_value vw)).2 (v_stats vw) = with_consensus vw).
  { unfold with_consensus. rewrite H2. f_equal. unfold visible, a_values.
    destruct (abs !! ALL_NAMESPACE) as [vs|]; simpl; [|by rewrite lookup_empty].
    destruct (vs !! v_value vw); [|done]. by destruct (is_expired _ now). }
  rewrite E. split; [exact H3|]. rewrite H4, <- app_assoc. done.
Qed.

(** What a namespace handle says of the stored values. *)
Lemma handle_count db ns n :
  implements digest32 disk db abs -> namespaces db !! ns = Some n -> abs !! ns = Some (stored_values (values n)) ->
  exists vs, abs !! ns = Some vs /\ len n = size vs
    /\ (negb (has_ttl n) = true -> forall v a t, vs !! v = Some a -> is_expired a t = false).
Proof.
  intros [Hi _] Hn Ha. exists (stored_values (values n)). split; [done|]. split.
  - unfold len, stored_values. by rewrite map_size_fmap.
  - intros Hf%negb_true_iff v a t Hv. unfold stored_values in Hv. rewrite lookup_fmap in Hv.
    apply fmap_Some in Hv as (b & Hb & ->). rewrite is_expired_stored.
    pose proof (ns_flag _ (ok_wf _ (inv_ns _ _ _ Hi _ _ Hn)) Hf v b Hb) as Ht.
    unfold is_expired, expires_at. by rewrite Ht.
Qed.

Lemma value_count_spec db ns :
  implements digest32 disk db abs ->
  let c := value_count digest32 disk now db ns in
  implements digest32 disk c.1 abs
  /\ match abs !! ns with
     | None => c.2 = None
     | Some vs => exists k, c.2 = Some k /\ vc_values k = size vs
         /\ (vc_exact k = true -> forall v a t, vs !! v = Some a -> is_expired a t = false)
     end.
Proof.
  intros Himp. unfold value_count. set (db1 := touch now db (shard_of ns)).
  pose proof (same_data_implements digest32 disk db db1 abs (touch_same now db _) Himp) as H1.
  destruct (namespaces db1 !! ns) as [n|] eqn:En; cbn [fst snd].
  - split; [done|]. assert (Ha : abs !! ns = Some (stored_values (values n))).
    { rewrite <- (proj2 H1). unfold content. by rewrite En. }
    destruct (handle_count db1 ns n H1 En Ha) as (vs & -> & Hl & Hx). eexists. split; [done|]. done.
  - destruct (namespace_spec digest32 disk now db1 abs ns H1) as (H2 & _ & _ & _ & Hr). split; [done|].
    destruct (namespace digest32 disk now db1 ns).2 as [n|]; destruct Hr as [Hr1 Hr2]; [|by rewrite Hr1].
    destruct (handle_count _ ns n H2 Hr1 Hr2) as (vs & -> & Hl & Hx). eexists. split; [done|]. done.
Qed.

Lemma value_page_spec db ns flt off limit with_stats :
  implements digest32 disk db abs ->
  let p := value_page digest32 disk now db ns flt off limit with_stats in
  implements digest32 disk p.1 abs
  /\ match abs !! ns with
     | None => p.2 = None
     | Some vs => exists names page, p.2 = Some page
         /\ StronglySorted str_le names /\ NoDup names
         /\ (forall v, v ∈ names <-> is_Some (visible now abs ns v) /\ matches (to_ascii_lowercase flt) v = true)
         /\ total page = length names
         /\ items page = (fun v => with_consensus (view (default (new v) (visible now abs ns v)) 0 with_stats))
                         <$> page_of off limit names
     end.
Proof.
  intros Himp. destruct (namespace_spec digest32 disk now db abs ns Himp) as (H1 & _ & _ & _ & Hr).
  unfold value_page. destruct (namespace digest32 disk now db ns).2 as [n|]; destruct Hr as [Hr1 Hr2]; [|by rewrite Hr1].
  cbv zeta. set (names := sort_strs _). set (views := omap _ _).
  destruct (fill_consensus_spec views _ [] H1) as [H2 H3]. cbn [fst snd]. split; [exact H2|]. rewrite Hr2.
  assert (Hvis : forall v, visible now abs ns v =
    match values n !! v with Some a => if is_expired a now then None else Some (stored_attr a) | None => None end).
  { intros v. unfold visible, a_values. rewrite Hr2. cbn [default from_option id]. unfold stored_values. rewrite lookup_fmap.
    destruct (values n !! v) as [a|]; [|done]. cbn [fmap option_fmap option_map]. by rewrite is_expired_stored. }
  assert (Hnames : forall v, v ∈ names <-> is_Some (visible now abs ns v) /\ matches (to_ascii_lowercase flt) v = true).
  { intros v. unfold names. rewrite sort_strs_elem, Hvis, list_elem_of_fmap. split.
    - intros ([v' a] & -> & [Hx [Hm Hin]%list_elem_of_filter]%list_elem_of_filter). apply elem_of_hash_iter in Hin.
      simpl in *. rewrite Hin, Hx. eauto.
    - intros [[b Hb] Hm]. destruct (values n !! v) as [a|] eqn:E; [|done]. destruct (is_expired a now) eqn:Ex; [done|].
      exists (v, a). split; [done|]. apply list_elem_of_filter. split; [done|]. apply list_elem_of_filter. split; [done|].
      by apply elem_of_hash_iter. }
  exists names. eexists. split; [done|]. split_and!; [apply sort_strs_sorted| |done|done|].
  - apply sort_strs_NoDup. eapply sublist_NoDup; [apply (hash_keys_NoDup (values n))|].
    apply fmap_sublist. etransitivity; apply sublist_filter.
  - cbn [items]. rewrite H3. cbn [app]. unfold views.
    assert (Hp : forall v, v ∈ page_of off limit names -> v ∈ names)
      by (intros v Hv; by apply subseteq_take, subseteq_drop in Hv).
    revert Hp. generalize (page_of off limit names). intros l Hl. induction l as [|v l IH]; [done|].
    assert (Hv : v ∈ names) by (apply Hl; left). apply Hnames in Hv as [Hv _]. rewrite Hvis in Hv.
    cbn [fmap list_fmap]. simpl. rewrite Hvis. destruct (values n !! v) as [a|] eqn:E; [|by destruct Hv].
    destruct (is_expired a now); [by destruct Hv|]. simpl. rewrite view_stored. f_equal.
    apply IH. intros x Hx. apply Hl. by right.
Qed.
End Values.

(** A namespace's values are listed as they are stored, resident or not: the
    count of values is the number stored and, when it is said to be exact, none
    of them can ever expire; a page of values cuts the sorted list of matching
    live values, each with its view and the consensus of its value, and neither
    question changes what is stored; both answer nothing only for a namespace
    that does not exist. *)
Theorem values_exact `{HashOrder} digest32 disk now db abs ns flt off limit with_stats :
  implements digest32 disk db abs ->
  let c := value_count digest32 disk now db ns in
  let p := value_page digest32 disk now db ns flt off limit with_stats in
  implements digest32 disk c.1 abs /\ implements digest32 disk p.1 abs
  /\ match abs !! ns with
     | None => c.2 = None /\ p.2 = None
     | Some vs =>
         (exists k, c.2 = Some k /\ vc_values k = size vs
            /\ (vc_exact k = true -> forall v a t, vs !! v = Some a -> is_expired a t = false))
         /\ exists names page, p.2 = Some page
              /\ StronglySorted str_le names /\ NoDup names
              /\ (forall v, v ∈ names <-> is_Some (visible now abs ns v) /\ matches (to_ascii_lowercase flt) v = true)
              /\ total page = length names
              /\ items page = (fun v => with_consensus now abs (view (default (new v) (visible now abs ns v)) 0 with_stats))
                              <$> page_of off limit names
     end.
Proof.
  intros Himp c p. destruct (value_count_spec digest32 disk now abs db ns Himp) as [H1 H2].
  destruct (value_page_spec digest32 disk now abs db ns flt off limit with_stats Himp) as [H3 H4].
  split; [done|]. split; [done|]. destruct (abs !! ns); done.
Qed.

Lemma values_exact_witness :
  let O := some_order in
  (value_count (fun _ => 7%N) ∅ (100 * NANOS) demo_db (lit "feeds/misp")).2 = None
  /\ (value_page (fun _ => 7%N) ∅ (100 * NANOS) demo_db (lit "feeds/misp") [] 0 10 false).2 = None.
Proof.
  intros O.
  exact (proj2 (proj2 (values_exact (fun _ => 7%N) ∅ (100 * NANOS) demo_db ∅ (lit "feeds/misp") [] 0 10 false
    (empty_implements _ _ _ _ _)))).
Defined.
