(* ===== verification/Maintenance.v ===== *)
(** * Background workers and how they stop

    Models [src/src/maintenance.rs], the flag and the threads that wait on it,
    and [nap] of [src/src/galaxy.rs], the sleep of the tasks that poll it.

    A worker is a thread of its own, so it is a step relation beside the steps of
    the threads that call [stop].  A step is what a thread does between two points
    where another thread can get in: a worker takes the lock and either returns
    from [wait] or goes to sleep, is woken and returns from [wait], acts on what
    [wait] answered with the lock already released, and runs its task; [stop]
    raises the flag under the lock, releases it, and only then notifies.  A
    condition variable may wake a thread for no reason at all. *)

From stdpp Require Import base numbers list relations.
From S2P Require Import Prelude.

(** ** Workers *)

(** Where the thread of [spawn_interval] is. *)
Inductive Worker :=
  | Checking                       (** about to call [wait] *)
  | Asleep (notified : bool)       (** in [wait_timeout], the lock released *)
  | Returned (answer : bool)       (** [wait] has returned, the lock released *)
  | Working                        (** in [task()] *)
  | Stopped.                       (** the loop is left *)

#[export] Instance Worker_eq_dec : EqDecision Worker.
Proof. solve_decision. Defined.

(** The flag, the calls of [stop] that raised it and have not notified yet, the
    worker, and how many times its task was started. *)
Record Running := mkRunning { stopped : bool; pending : nat; worker : Worker; tasks : nat }.

(** [Shutdown::is_stopped] *)
Definition is_stopped (r : Running) : bool := stopped r.

(** [Shutdown::stop], its first half: the flag, under a lock released at once. *)
Definition raise (r : Running) : Running :=
  mkRunning true (S (pending r)) (worker r) (tasks r).

(** Its second half, [notify_all]: whoever is asleep is woken. *)
Definition notify (r : Running) : Running :=
  mkRunning (stopped r) (pred (pending r))
    (match worker r with Asleep _ => Asleep true | w => w end) (tasks r).

(** The call when nothing comes between its halves. *)
Definition stop (r : Running) : Running := notify (raise r).

Definition at_ (w : Worker) (r : Running) : Running := mkRunning (stopped r) (pending r) w (tasks r).

(** The first half of [Shutdown::wait]: the flag is read under the lock, which
    [wait_timeout] gives up only once the thread is waiting. *)
Definition check (r : Running) : Running :=
  at_ (if stopped r then Returned true else Asleep false) r.

(** The second half: awake with the lock taken again, [wait] answers the flag and
    the lock goes. *)
Definition wake (r : Running) : Running := at_ (Returned (stopped r)) r.

(** The [while] of [spawn_interval] acts on the answer. *)
Definition loop (answer : bool) (r : Running) : Running :=
  if answer then at_ Stopped r else mkRunning (stopped r) (pending r) Working (S (tasks r)).

(** What a worker does without waiting for its period to pass. *)
Inductive prompt_step : Running -> Running -> Prop :=
  | do_check r : worker r = Checking -> prompt_step r (check r)
  | do_wake r : worker r = Asleep true -> prompt_step r (wake r)
  | do_loop r b : worker r = Returned b -> prompt_step r (loop b r)
  | do_task r : worker r = Working -> prompt_step r (at_ Checking r).

(** With the end of the period, or a wake-up for no reason. *)
Inductive worker_step : Running -> Running -> Prop :=
  | do_prompt r r' : prompt_step r r' -> worker_step r r'
  | do_timeout r : worker r = Asleep false -> worker_step r (wake r).

(** The threads that stop it. *)
Inductive stop_step : Running -> Running -> Prop :=
  | do_raise r : stop_step r (raise r)
  | do_notify r : 0 < pending r -> stop_step r (notify r).

Definition thread_step (r r' : Running) : Prop := worker_step r r' \/ stop_step r r'.

(** A run of all the threads in which the worker took [n] steps. *)
Inductive threads : nat -> Running -> Running -> Prop :=
  | threads_none r : threads 0 r r
  | threads_worker n r r' last : worker_step r r' -> threads n r' last -> threads (S n) r last
  | threads_stop n r r' last : stop_step r r' -> threads n r' last -> threads n r last.

(** [spawn_interval], which may come after a [stop]. *)
Definition spawn (flag : bool) (halfway : nat) : Running := mkRunning flag halfway Checking 0.

(** How many steps a worker that was asked to stop has left, and how many tasks
    it may still start. *)
Definition steps_left (w : Worker) : nat :=
  match w with
  | Returned false => 4 | Working => 3 | Checking | Asleep _ => 2 | Returned true => 1 | Stopped => 0
  end.

Definition starts_left (w : Worker) : nat := match w with Returned false => 1 | _ => 0 end.

(** No wake-up is lost: a thread asleep under a raised flag has been notified, or
    is about to be. *)
Definition heard (r : Running) : Prop := stopped r = true -> worker r = Asleep false -> 0 < pending r.

Lemma thread_step_heard r r' : heard r -> thread_step r r' -> heard r'.
Proof.
  intros Hh [[x y [z Hz|z Hz|z [] Hz|z Hz]|z Hz]|[z|z Hz]]; unfold heard in *; cbn; try done; [|lia|].
  - by destruct (stopped z).
  - by destruct (worker z).
Qed.

Lemma threads_heard n r last : threads n r last -> heard r -> heard last.
Proof. induction 1; intros; [done|apply IHthreads..]; eapply thread_step_heard; [done|by left|done|by right]. Qed.

(** Under the flag every step of the worker brings it nearer its end. *)
Lemma worker_step_stopped r r' :
  stopped r = true -> worker_step r r' ->
  stopped r' = true /\ steps_left (worker r') < steps_left (worker r)
  /\ tasks r' + starts_left (worker r') = tasks r + starts_left (worker r).
Proof.
  intros Hs Hst. revert Hs. destruct Hst as [x y [z Hz|z Hz|z [] Hz|z Hz]|z Hz]; intros Hs; rewrite Hz;
    unfold check, wake; cbn; rewrite ?Hs; cbn; split_and!; done || lia.
Qed.

Lemma stop_step_stopped r r' :
  stopped r = true -> stop_step r r' ->
  stopped r' = true /\ steps_left (worker r') = steps_left (worker r)
  /\ tasks r' + starts_left (worker r') = tasks r + starts_left (worker r).
Proof. intros Hs Hst. revert Hs. destruct Hst as [z|z Hz]; cbn; intros; split_and!; try done; by destruct (worker z). Qed.

Lemma threads_stopped n r last :
  threads n r last -> stopped r = true ->
  stopped last = true /\ n + steps_left (worker last) <= steps_left (worker r)
  /\ tasks last + starts_left (worker last) = tasks r + starts_left (worker r).
Proof.
  induction 1 as [r|n r r' last Hst _ IH|n r r' last Hst _ IH]; intros Hs; [done|..].
  - destruct (worker_step_stopped _ _ Hs Hst) as (H1 & H2 & H3). destruct (IH H1) as (H4 & H5 & H6).
    split_and!; [done|lia|lia].
  - destruct (stop_step_stopped _ _ Hs Hst) as (H1 & H2 & H3). destruct (IH H1) as (H4 & H5 & H6).
    split_and!; [done|lia|lia].
Qed.

(** The worker is never stuck, and needs its timeout only while asleep and not
    notified. *)
Lemma worker_prompt r : worker r <> Stopped -> worker r <> Asleep false -> exists next, prompt_step r next.
Proof.
  destruct (worker r) as [|[]|b| |] eqn:E; intros; try done; eexists;
    [by apply do_check|by apply do_wake|by eapply do_loop|by apply do_task].
Qed.

(** ** Naps *)
Definition SLICE : Z := 2 * NANOS.

(** [nap] from the instant [t], in nanoseconds, with [left] to go; [flag] is what
    [is_stopped] answers at each instant, and a sleep takes as long as it says.
    The fuel is the number of slices. *)
Fixpoint nap_loop (flag : Z -> bool) (fuel : nat) (t left : Z) : option (Z * bool) :=
  if bool_decide (left = 0%Z) then Some (t, flag t)
  else
    match fuel with
    | O => None
    | S f =>
        if flag t then Some (t, true)
        else let slice := Z.min left SLICE in nap_loop flag f (t + slice)%Z (left - slice)%Z
    end.

Definition slices (period : Z) : nat := Z.to_nat ((period + SLICE - 1) / SLICE).
Definition nap (flag : Z -> bool) (t period : Z) : option (Z * bool) := nap_loop flag (slices period) t period.

(** A flag that was put up stays up. *)
Definition stays_up (flag : Z -> bool) : Prop := forall a b, (a <= b)%Z -> flag a = true -> flag b = true.

Lemma slices_step left :
  (0 < left)%Z -> slices left = S (slices (left - Z.min left SLICE)).
Proof.
  intros Hl. unfold slices. assert (HS : (0 < SLICE)%Z) by done.
  destruct (Z.le_gt_cases left SLICE) as [Hle|Hgt].
  - rewrite Z.min_l by done. replace (left - left + SLICE - 1)%Z with (SLICE - 1)%Z by lia.
    rewrite (Z.div_small (SLICE - 1)) by lia.
    replace ((left + SLICE - 1) / SLICE)%Z with 1%Z; [done|].
    apply Z.div_unique with (left - 1)%Z; lia.
  - rewrite Z.min_r by lia. replace (left - SLICE + SLICE - 1)%Z with (left - 1)%Z by lia.
    replace (left + SLICE - 1)%Z with ((left - 1) + 1 * SLICE)%Z by lia. rewrite Z.div_add by lia.
    rewrite <- Z2Nat.inj_succ by (apply Z.div_pos; lia). f_equal.
Qed.

Lemma nap_loop_spec flag n : forall t left, stays_up flag -> (0 <= left)%Z -> slices left = n ->
  exists t' b, nap_loop flag n t left = Some (t', b) /\ b = flag t' /\ (t <= t' <= t + left)%Z
    /\ (b = false -> t' = t + left)%Z
    /\ (forall at_, flag at_ = true -> (t' <= Z.max t (at_ + SLICE))%Z).
Proof.
  induction n as [|n IH]; intros t left Hup Hl Hn.
  - assert (left = 0%Z) as ->.
    { destruct (decide (left = 0%Z)); [done|]. by rewrite slices_step in Hn by lia. }
    exists t, (flag t). cbn. split_and!; done || (intros; lia).
  - cbn [nap_loop]. case_bool_decide as E0.
    + subst. by vm_compute in Hn.
    + destruct (flag t) eqn:Ef.
      * exists t, true. split_and!; done || (intros; lia).
      * rewrite slices_step in Hn by lia. injection Hn as Hn.
        destruct (IH (t + Z.min left SLICE)%Z (left - Z.min left SLICE)%Z Hup ltac:(lia) Hn)
          as (t' & b & E & Hb & Ht & Hfull & Hp).
        exists t', b. assert (HS : (0 < SLICE)%Z) by done. split_and!; [done..|lia|lia|intros Hb0; rewrite (Hfull Hb0); lia|].
        intros at_ Hat. specialize (Hp at_ Hat).
        assert (t < at_)%Z; [|lia]. destruct (Z.lt_ge_cases t at_) as [|Hge]; [done|].
        by rewrite (Hup at_ t Hge Hat) in Ef.
Qed.

(** ** Properties *)

(** C34: a worker that is asked to stop stops.  Take a worker however it and any
    number of calls of [stop] interleaved since it was spawned, spurious wake-ups
    included, and let the flag be raised there.  Whatever the threads do next, the
    worker takes at most four more steps; it starts at most one more task, and
    that one only if its [wait] had returned [false] before the flag went up;
    once the call that raised the flag has notified it never has to wait for its
    period to pass before its next step; and it has a next step until it has left
    its loop. *)
Theorem worker_stops flag halfway n0 run n last :
  threads n0 (spawn flag halfway) run ->
  threads n (raise run) last ->
  stopped last = true
  /\ n <= 4
  /\ tasks last <= tasks run + starts_left (worker run)
  /\ (worker last <> Stopped -> exists next, worker_step last next)
  /\ (worker last <> Stopped -> pending last = 0 -> exists next, prompt_step last next).
Proof.
  intros Hrun Hlast. destruct (threads_stopped _ _ _ Hlast eq_refl) as (Hs & Hn & Ht). cbn in Hn, Ht.
  assert (Hh : heard last).
  { eapply threads_heard; [exact Hlast|]. by intros _ _; cbn; lia. }
  split_and!; [done| |lia| |].
  - assert (steps_left (worker run) <= 4); [|lia]. destruct (worker run) as [|[]|[]| |]; simpl; lia.
  - intros Hw. destruct (decide (worker last = Asleep false)) as [E|E]; [by eexists; apply do_timeout|].
    destruct (worker_prompt last Hw E) as [next Hx]. exists next. by apply do_prompt.
  - intros Hw Hp. apply worker_prompt; [done|]. intros E. specialize (Hh Hs E). lia.
Qed.

(** A worker caught between [wait] and its task starts that task after [stop] has
    returned, and stops afterwards. *)
Lemma worker_stops_witness :
  exists last, threads 4 (stop (wake (check (spawn false 0)))) last /\ worker last = Stopped /\ tasks last = 1
    /\ tasks last <= tasks (wake (check (spawn false 0))) + 1.
Proof.
  set (run := wake (check (spawn false 0))).
  set (last := loop true (check (at_ Checking (loop false (stop run))))).
  assert (H4 : threads 4 (stop run) last).
  { eapply threads_worker; [by eapply do_prompt, (do_loop _ false)|].
    eapply threads_worker; [by eapply do_prompt, do_task|].
    eapply threads_worker; [by eapply do_prompt, do_check|].
    eapply threads_worker; [by eapply do_prompt, (do_loop _ true)|]. apply threads_none. }
  exists last. split_and!; [exact H4|reflexivity|reflexivity|].
  refine (proj1 (proj2 (proj2 (worker_stops false 0 2 run 4 last _ _)))).
  - eapply threads_worker; [by eapply do_prompt, do_check|].
    eapply threads_worker; [by eapply do_timeout|]. apply threads_none.
  - eapply threads_stop; [|exact H4]. apply do_notify. cbn. lia.
Defined.

(** A nap ends, and ends promptly.  It always returns, after at most its
    period and after all of it unless it says to stop; it says to stop exactly
    when the flag is up as it returns; and a flag put up while it sleeps is seen
    within one slice of two seconds, however long the period. *)
Theorem nap_ends_promptly flag t period :
  stays_up flag -> (0 <= period)%Z ->
  exists t' b, nap flag t period = Some (t', b) /\ b = flag t' /\ (t <= t' <= t + period)%Z
    /\ (b = false -> t' = t + period)%Z
    /\ (forall at_, flag at_ = true -> (t' <= Z.max t (at_ + SLICE))%Z).
Proof. intros Hup Hp. by apply nap_loop_spec. Qed.

Lemma nap_ends_promptly_witness :
  exists t' b, nap (fun t => (5 * NANOS <=? t)%Z) 0 (300 * NANOS) = Some (t', b) /\ (t' <= 7 * NANOS)%Z.
Proof.
  destruct (nap_ends_promptly (fun t => (5 * NANOS <=? t)%Z) 0 (300 * NANOS)) as (t' & b & E & _ & _ & _ & Hp).
  - intros a b Hab Ha. apply Z.leb_le. apply Z.leb_le in Ha. lia.
  - done.
  - exists t', b. split; [exact E|]. specialize (Hp (5 * NANOS)%Z ltac:(by vm_compute)).
    transitivity (Z.max 0 (5 * NANOS + SLICE)); [exact Hp|]. by vm_compute.
Defined.
