(* ===== verification/Text.v ===== *)
(** * Text

    The standard library's operations on strings that the galaxy, the handlers
    and the DNS interface use beside those of the prelude: trimming at one end,
    splitting from the right, and reading and writing numbers in decimal. *)

From stdpp Require Import base numbers list strings gmap sorting pretty.
From Stdlib Require Import Ascii.
From S2P Require Import Prelude.

(** ** Numbers in text *)

(** [char::to_digit] *)
Definition to_digit (radix : N) (c : N) : option N :=
  let d := if is_ascii_digit c then Some (c - 48)%N
           else if is_ascii_lower c then Some (c - 87)%N
           else if is_ascii_upper c then Some (c - 55)%N else None in
  match d with Some x => if (x <? radix)%N then Some x else None | None => None end.

Fixpoint parse_digits (acc : N) (s : str) : option N :=
  match s with
  | [] => Some acc
  | c :: r => match to_digit 10 c with
              | Some d => let acc' := (acc * 10 + d)%N in if (acc' <=? 255)%N then parse_digits acc' r else None
              | None => None
              end
  end.

(** [u8::from_str]: one leading plus is allowed, and at least one digit. *)
Definition PLUS : N := 43.
Definition u8_from_str (s : str) : option N :=
  match s with
  | [] => None
  | [c] => if (c =? PLUS)%N then None else parse_digits 0 s
  | c :: r => if (c =? PLUS)%N then parse_digits 0 r else parse_digits 0 s
  end.

(** [str::parse::<u64>] *)
Fixpoint parse_u64_digits (acc : Z) (s : str) : option Z :=
  match s with
  | [] => Some acc
  | c :: r =>
      match to_digit 10 c with
      | None => None
      | Some d => let n := (acc * 10 + Z.of_N d)%Z in if (n <? U64_MODULUS)%Z then parse_u64_digits n r else None
      end
  end.
Definition u64_from_str (s : str) : option Z :=
  match s with
  | [] => None
  | [c] => if (c =? PLUS)%N then None else parse_u64_digits 0 s
  | c :: r => if (c =? PLUS)%N then parse_u64_digits 0 r else parse_u64_digits 0 s
  end.

(** [str::parse::<i64>]: a sign is allowed, and the digits are at most those of
    a [u64] here, which any [i64] is. *)
Definition MINUS : N := 45.
Definition i64_from_str (s : str) : option Z :=
  match s with
  | [] => None
  | c :: r =>
      if (c =? MINUS)%N && negb (is_empty r) then
        match parse_u64_digits 0 r with
        | Some n => if (- n <? I64_MIN)%Z then None else Some (- n)%Z
        | None => None
        end
      else match u64_from_str s with Some n => if (I64_MAX <? n)%Z then None else Some n | None => None end
  end.

(** [Display] of a number, in decimal. *)
Definition dec (n : N) : str := lit (pretty n).

(** ** Trimming and splitting *)

(** [str::trim_end_matches] for one character *)
Definition trim_end_char (c : N) (s : str) : str := reverse (drop_while (fun x => x =? c)%N (reverse s)).

(** [str::trim_start_matches] for a string: the prefix is taken off for as long
    as it is there.  The fuel is the length of the text, and every round but
    the last takes off at least one character. *)
Fixpoint trim_start_str_fuel (fuel : nat) (p s : str) : str :=
  match fuel with
  | O => s
  | S f => match strip_prefix p s with Some r => trim_start_str_fuel f p r | None => s end
  end.
Definition trim_start_str (p s : str) : str := trim_start_str_fuel (length s) p s.

(** [str::rsplit_once] on one character *)
Definition rsplit_once (c : N) (s : str) : option (str * str) :=
  match split_once c (reverse s) with
  | Some (after, before) => Some (reverse before, reverse after)
  | None => None
  end.

(** ** Facts *)
Lemma trim_end_char_prefix c s : exists r, s = trim_end_char c s ++ r.
Proof.
  destruct (drop_while_suffix (fun x => x =? c)%N (reverse s)) as [t Ht]. exists (reverse t).
  unfold trim_end_char. by rewrite <- reverse_app, <- Ht, reverse_involutive.
Qed.

Lemma trim_start_str_fuel_done p s fuel :
  p <> [] -> length s <= fuel -> starts_with p (trim_start_str_fuel fuel p s) = false.
Proof.
  intros Hp. revert s. induction fuel as [|f IH]; intros s Hs; simpl.
  - destruct s; [|simpl in Hs; lia]. by destruct p.
  - unfold starts_with. destruct (strip_prefix p s) as [r|] eqn:E; [|by rewrite E].
    apply strip_prefix_spec in E as ->. rewrite length_app in Hs.
    apply IH. destruct p; [done|]. simpl in Hs. lia.
Qed.

(** The loop of [trim_start_matches] ends with the prefix gone. *)
Lemma trim_start_str_done p s : p <> [] -> starts_with p (trim_start_str p s) = false.
Proof. intros Hp. by apply trim_start_str_fuel_done. Qed.

(** Every [u8] written in decimal is read back, with or without space around it
    trimmed off. *)
Definition u8_check : bool :=
  forallb (fun n => bool_decide (u8_from_str (trim (dec n)) = Some n)
                    && bool_decide (u8_from_str (dec n) = Some n)) (N.of_nat <$> seq 0 256).
Lemma u8_checked : u8_check = true.
Proof. by vm_compute. Qed.

Lemma u8_text n : (n < 256)%N -> u8_from_str (trim (dec n)) = Some n /\ u8_from_str (dec n) = Some n.
Proof.
  intros Hn. pose proof u8_checked as Hck. unfold u8_check in Hck. rewrite forallb_forall in Hck.
  specialize (Hck n). apply andb_true_iff in Hck as [H1%bool_decide_eq_true H2%bool_decide_eq_true]; [done|].
  apply list_elem_of_In, list_elem_of_fmap. exists (N.to_nat n). rewrite N2Nat.id. split; [done|].
  apply elem_of_seq. lia.
Qed.

Lemma lit_inj s1 s2 : lit s1 = lit s2 -> s1 = s2.
Proof.
  unfold lit. intros E. assert (Hn : Inj (=) (=) N_of_ascii).
  { intros a b Hab. by rewrite <- (ascii_N_embedding a), <- (ascii_N_embedding b), Hab. }
  apply list_fmap_eq_inj in E; [|done].
  by rewrite <- (String.string_of_list_ascii_of_string s1), <- (String.string_of_list_ascii_of_string s2), E.
Qed.

(** Reading digits back, however many there are. *)
Definition read_dec (s : str) : N := foldl (fun acc c => acc * 10 + (c - 48))%N 0%N s.

Lemma pretty_N_char_digit d : (d < 10)%N -> N_of_ascii (pretty_N_char d) = (48 + d)%N.
Proof. intros Hd. destruct d as [|p]; [done|]. do 4 (destruct p as [p|p|]; try done; try lia). Qed.

Lemma read_pretty_go x s :
  foldl (fun acc c => acc * 10 + (c - 48))%N 0%N (lit (pretty_N_go x s)) = foldl (fun acc c => acc * 10 + (c - 48))%N x (lit s).
Proof.
  revert s. induction (N.lt_wf_0 x) as [x _ IH]. intros s. destruct (decide (x = 0)%N) as [->|Hx].
  { by rewrite pretty_N_go_0. }
  rewrite pretty_N_go_step by lia. rewrite IH by (apply N.div_lt; lia).
  assert (El : forall c r, lit (String c r) = N_of_ascii c :: lit r) by done. rewrite El. cbn [foldl].
  pose proof (N.mod_lt x 10 ltac:(done)). rewrite pretty_N_char_digit by done. f_equal.
  rewrite (N.add_comm 48), N.add_sub, N.mul_comm. symmetry. by apply N.div_mod.
Qed.

Lemma read_dec_text n : read_dec (dec n) = n.
Proof.
  unfold read_dec, dec, pretty, pretty_N. case_decide as Hn; [by subst|]. by rewrite read_pretty_go.
Qed.

(** Two numbers are not written the same way. *)
Lemma dec_inj a b : dec a = dec b -> a = b.
Proof. unfold dec. intros E%lit_inj. by apply (inj pretty) in E. Qed.
