(* ===== verification/DnsName.v ===== *)
(** * DNS names to values

    Models [src/src/dns/name.rs]: reading the labels of a query name as a
    configured namespace and a value, reversed octets, reversed nibbles, plain
    labels or base32; with the standard library's rendering of addresses and
    its UTF-8 decoder.  Base32 itself is the [data-encoding] crate's and is the
    parameter [base32_decode]. *)

From stdpp Require Import base numbers list strings gmap sorting pretty.
From S2P Require Import Prelude Text.

Definition DOT : N := 46.

Inductive Encoding := EncIp | EncDomain | EncBase32.

Definition encoding_parse (raw : str) : option Encoding :=
  let s := to_ascii_lowercase (trim raw) in
  if bool_decide (s = lit "ip") then Some EncIp
  else if bool_decide (s = lit "domain") then Some EncDomain
  else if bool_decide (s = lit "base32") then Some EncBase32
  else None.

Record Exposed := mkExposed { label : str; ex_namespace : str; encoding : Encoding }.
Record Lookup_ := mkLookup { lk_exposed : Exposed; lk_value : str }.

(** ** Numbers in text *)
Definition ZERO : N := 48.
Definition parse_canonical_u8 (l : str) : option N :=
  if is_empty l || ((1 <? str_len l) && starts_with [ZERO] l) then None else u8_from_str l.

(** [Display] of a number in lower-case hexadecimal. *)
Definition hex_digit (d : N) : N := if (d <? 10)%N then (48 + d)%N else (87 + d)%N.
Fixpoint hex_loop (fuel : nat) (n : N) (acc : str) : str :=
  match fuel with
  | O => acc
  | S f => let acc' := hex_digit (n mod 16) :: acc in
           if (n <? 16)%N then acc' else hex_loop f (n / 16) acc'
  end.
(** A segment has sixteen bits: four digits. *)
Definition hex (n : N) : str := hex_loop 4 n [].

(** ** Addresses *)

(** [Display for Ipv4Addr] *)
Definition ipv4_text (octets : list N) : str := join_with [DOT] (dec <$> octets).

(** The first longest run of zero segments, as [Display for Ipv6Addr] finds it:
    start and length of the best and of the current run. *)
Record Run := mkRun { run_start : nat; run_len : nat }.
Fixpoint zero_run (i : nat) (longest current : Run) (l : list N) : Run :=
  match l with
  | [] => longest
  | s :: r =>
      if (s =? 0)%N then
        let start := if run_len current =? 0 then i else run_start current in
        let cur := mkRun start (S (run_len current)) in
        zero_run (S i) (if run_len longest <? run_len cur then cur else longest) cur r
      else zero_run (S i) longest (mkRun 0 0) r
  end.

Definition COLON2 : str := lit "::".
Definition hex_groups (l : list N) : str := join_with (lit ":") (hex <$> l).

Definition ipv6_text (segs : list N) : str :=
  match segs with
  | [0; 0; 0; 0; 0; 65535; a; b]%N =>
      lit "::ffff:" ++ ipv4_text [a / 256; a mod 256; b / 256; b mod 256]%N
  | _ =>
      let z := zero_run 0 (mkRun 0 0) (mkRun 0 0) segs in
      if 1 <? run_len z then
        hex_groups (take (run_start z) segs) ++ COLON2 ++ hex_groups (drop (run_start z + run_len z) segs)
      else hex_groups segs
  end.

(** Four nibbles to a segment, most significant first. *)
Fixpoint segments_of (nibbles : list N) : list N :=
  match nibbles with
  | a :: b :: c :: d :: r => (((N.lor (N.shiftl a 4) b) * 256) + N.lor (N.shiftl c 4) d)%N :: segments_of r
  | _ => []
  end.

Definition nibble (l : str) : option N :=
  match l with
  | [c] => if (c <? 128)%N then to_digit 16 c else None
  | _ => None
  end.

Definition decode_ip (labels : list str) : option str :=
  if length labels =? 4 then ipv4_text <$> mapM parse_canonical_u8 (reverse labels)
  else if length labels =? 32 then (fun n => ipv6_text (segments_of n)) <$> mapM nibble (reverse labels)
  else None.

(** ** UTF-8 *)
Definition is_cont (b : N) : bool := ((128 <=? b) && (b <? 192))%N.
Definition low6 (b : N) : N := (b - 128)%N.

(** [String::from_utf8]: shortest forms only, no surrogates, at most U+10FFFF. *)
Fixpoint from_utf8 (bs : list N) : option str :=
  match bs with
  | [] => Some []
  | b1 :: r1 =>
      if (b1 <? 128)%N then (cons b1) <$> from_utf8 r1
      else match r1 with
           | b2 :: r2 =>
               if ((194 <=? b1) && (b1 <? 224))%N then
                 if is_cont b2 then (cons ((b1 - 192) * 64 + low6 b2)%N) <$> from_utf8 r2 else None
               else match r2 with
                    | b3 :: r3 =>
                        if ((224 <=? b1) && (b1 <? 240))%N then
                          let c := ((b1 - 224) * 4096 + low6 b2 * 64 + low6 b3)%N in
                          if is_cont b2 && is_cont b3 && (2048 <=? c)%N && negb ((55296 <=? c) && (c <? 57344))%N
                          then (cons c) <$> from_utf8 r3 else None
                        else match r3 with
                             | b4 :: r4 =>
                                 let c := ((b1 - 240) * 262144 + low6 b2 * 4096 + low6 b3 * 64 + low6 b4)%N in
                                 if (240 <=? b1)%N && (b1 <? 248)%N && is_cont b2 && is_cont b3 && is_cont b4
                                    && (65536 <=? c)%N && (c <? 1114112)%N
                                 then (cons c) <$> from_utf8 r4 else None
                             | [] => None
                             end
                    | [] => None
                    end
           | [] => None
           end
  end.

(** [str::as_bytes] *)
Definition utf8_char (c : N) : list N :=
  if (c <? 128)%N then [c]
  else if (c <? 2048)%N then [192 + c / 64; 128 + c mod 64]%N
  else if (c <? 65536)%N then [224 + c / 4096; 128 + (c / 64) mod 64; 128 + c mod 64]%N
  else [240 + c / 262144; 128 + (c / 4096) mod 64; 128 + (c / 64) mod 64; 128 + c mod 64]%N.
Definition as_bytes (s : str) : list N := mjoin (utf8_char <$> s).

(** [str::to_ascii_uppercase] *)
Definition upper_char (c : N) : N := if is_ascii_lower c then (c - 32)%N else c.
Definition to_ascii_uppercase (s : str) : str := upper_char <$> s.

Section Base32.
(** [BASE32_NOPAD.decode] *)
Context (base32_decode : list N -> option (list N)).

Definition decode_base32 (labels : list str) : option str :=
  match base32_decode (as_bytes (to_ascii_uppercase (mjoin labels))) with
  | Some bs => from_utf8 bs
  | None => None
  end.

Definition decode (labels : list str) (e : Encoding) : option str :=
  match e with
  | EncIp => decode_ip labels
  | EncDomain => Some (join_with [DOT] labels)
  | EncBase32 => decode_base32 labels
  end.

(** [strip_suffix] on slices *)
Definition strip_labels (zone qlabels : list str) : option (list str) :=
  let k := length qlabels - length zone in
  if (length zone <=? length qlabels) && bool_decide (drop k qlabels = zone) then Some (take k qlabels) else None.

Definition dns_resolve (qlabels zone : list str) (exposed : list Exposed) : option Lookup_ :=
  match strip_labels zone qlabels with
  | None => None
  | Some rest =>
      match last rest with
      | None => None
      | Some l =>
          let value_labels := take (length rest - 1) rest in
          if is_empty value_labels then None
          else match head (filter (fun e => label e = l) exposed) with
               | None => None
               | Some e => mkLookup e <$> decode value_labels (encoding e)
               end
      end
  end.
End Base32.

Example ip4 : decode_ip [lit "4"; lit "3"; lit "2"; lit "1"] = Some (lit "1.2.3.4").
Proof. by vm_compute. Qed.
Example ip6 : decode_ip ((fun c => [c]) <$> lit "10000000000000000000000008bd0102") = Some (lit "2010:db80::1").
Proof. by vm_compute. Qed.

(** ** UTF-8 round trip *)
Definition is_scalar (c : N) : Prop := (c < 1114112)%N /\ ~ (55296 <= c < 57344)%N.

Lemma cont_low c : (c < 64)%N -> is_cont (128 + c) = true /\ low6 (128 + c) = c.
Proof.
  intros Hc. unfold is_cont, low6. split; [|lia].
  apply andb_true_iff. split; [apply N.leb_le; lia|apply N.ltb_lt; lia].
Qed.

Lemma mod64 c : (c mod 64 < 64)%N.
Proof. by apply N.mod_lt. Qed.

Lemma split64 c : (c = c / 64 * 64 + c mod 64)%N.
Proof. rewrite N.mul_comm. by apply N.div_mod. Qed.

Lemma div4096 c : (c / 4096 = c / 64 / 64)%N.
Proof. by rewrite N.Div0.div_div. Qed.
Lemma div262144 c : (c / 262144 = c / 64 / 64 / 64)%N.
Proof. by rewrite !N.Div0.div_div. Qed.

Lemma from_utf8_char c r : is_scalar c -> from_utf8 (utf8_char c ++ r) = cons c <$> from_utf8 r.
Proof.
  intros [Hmax Hsur]. unfold utf8_char.
  destruct (c <? 128)%N eqn:E1; [cbn [app from_utf8]; by rewrite E1|]. apply N.ltb_ge in E1.
  pose proof (split64 c) as S1. pose proof (split64 (c / 64)) as S2. pose proof (split64 (c / 64 / 64)) as S3.
  destruct (cont_low _ (mod64 c)) as [C1 L1]. destruct (cont_low _ (mod64 (c / 64))) as [C2 L2].
  destruct (cont_low _ (mod64 (c / 64 / 64))) as [C3 L3].
  pose proof (mod64 c). pose proof (mod64 (c / 64)). pose proof (mod64 (c / 64 / 64)).
  destruct (c <? 2048)%N eqn:E2; [apply N.ltb_lt in E2|apply N.ltb_ge in E2].
  { cbn [app from_utf8]. rewrite (proj2 (N.ltb_ge _ _)) by lia.
    rewrite (proj2 (N.leb_le _ _)), (proj2 (N.ltb_lt _ _)) by lia. cbn [andb]. rewrite C1, L1. f_equal. f_equal. lia. }
  destruct (c <? 65536)%N eqn:E3; [apply N.ltb_lt in E3|apply N.ltb_ge in E3].
  { rewrite div4096. cbn [app from_utf8]. rewrite (proj2 (N.ltb_ge _ 128)) by lia.
    rewrite (proj2 (N.leb_le 194 _)), (proj2 (N.ltb_ge _ 224)) by lia. cbn [andb].
    rewrite (proj2 (N.leb_le 224 _)), (proj2 (N.ltb_lt _ 240)) by lia. cbn [andb]. rewrite C1, C2, L1, L2. cbn [andb].
    replace ((224 + c / 64 / 64 - 224) * 4096 + (c / 64) mod 64 * 64 + c mod 64)%N with c by lia.
    rewrite (proj2 (N.leb_le 2048 c)) by lia. cbn [andb].
    destruct (55296 <=? c)%N eqn:E4; [|done]. apply N.leb_le in E4.
    by rewrite (proj2 (N.ltb_ge c 57344)) by lia. }
  rewrite div262144, div4096. cbn [app from_utf8]. rewrite (proj2 (N.ltb_ge _ 128)) by lia.
  rewrite (proj2 (N.leb_le 194 _)), (proj2 (N.ltb_ge _ 224)) by lia. cbn [andb].
  rewrite (proj2 (N.leb_le 224 _)), (proj2 (N.ltb_ge _ 240)) by lia. cbn [andb].
  rewrite (proj2 (N.leb_le 240 _)), (proj2 (N.ltb_lt _ 248)) by lia. cbn [andb]. rewrite C1, C2, C3, L1, L2, L3. cbn [andb].
  replace ((240 + c / 64 / 64 / 64 - 240) * 262144 + (c / 64 / 64) mod 64 * 4096 + (c / 64) mod 64 * 64 + c mod 64)%N
    with c by lia.
  by rewrite (proj2 (N.leb_le 65536 c)), (proj2 (N.ltb_lt c 1114112)) by lia.
Qed.

Lemma utf8_roundtrip s : Forall is_scalar s -> from_utf8 (as_bytes s) = Some s.
Proof.
  unfold as_bytes. induction 1 as [|c s Hc Hs IH]; [done|].
  change (from_utf8 (utf8_char c ++ mjoin (utf8_char <$> s)) = Some (c :: s)).
  rewrite from_utf8_char by done. by rewrite IH.
Qed.

(** ** One spelling per address *)

(** A label of digits, at most three of them. *)
Definition digit_labels : list str :=
  let d := lit "0123456789" in
  ((fun a => [a]) <$> d) ++ (a ← d; b ← d; [[a; b]]) ++ (a ← d; b ← d; c ← d; [[a; b; c]]).

Definition canonical_check : bool :=
  forallb (fun l => match parse_canonical_u8 l with
                    | Some n => bool_decide (l = dec n) && (n <? 256)%N
                    | None => true
                    end) digit_labels.

Definition octet_check : bool :=
  forallb (fun n => bool_decide (parse_canonical_u8 (dec n) = Some n)) (N.of_nat <$> seq 0 256).

Lemma canonical_checked : canonical_check = true.
Proof. by vm_compute. Qed.
Lemma octets_checked : octet_check = true.
Proof. by vm_compute. Qed.

Lemma to_digit_range c d : to_digit 10 c = Some d -> c ∈ lit "0123456789" /\ c = (48 + d)%N /\ (d < 10)%N.
Proof.
  unfold to_digit, is_ascii_digit, is_ascii_lower, is_ascii_upper.
  destruct ((48 <=? c) && (c <=? 57))%N eqn:E.
  - apply andb_true_iff in E as [E1%N.leb_le E2%N.leb_le]. destruct (c - 48 <? 10)%N eqn:E; [|done].
    intros [= <-]. split; [|lia]. assert (Hc : (c = 48 \/ c = 49 \/ c = 50 \/ c = 51 \/ c = 52 \/ c = 53 \/ c = 54
      \/ c = 55 \/ c = 56 \/ c = 57)%N) by lia.
    repeat destruct Hc as [Hc|Hc]; subst; apply (bool_decide_unpack _); by vm_compute.
  - destruct ((97 <=? c) && (c <=? 122))%N eqn:E'.
    + apply andb_true_iff in E' as [E1%N.leb_le E2%N.leb_le]. rewrite (proj2 (N.ltb_ge _ _)); [done|lia].
    + destruct ((65 <=? c) && (c <=? 90))%N eqn:E''; [|done].
      apply andb_true_iff in E'' as [E1%N.leb_le E2%N.leb_le]. rewrite (proj2 (N.ltb_ge _ _)); [done|lia].
Qed.

(** Four digits that do not start with a zero are too much for an octet. *)
Lemma parse_digits_short s acc n :
  parse_digits acc s = Some n -> (0 < acc <= 255)%N ->
  Forall (fun c => c ∈ lit "0123456789") s /\ (acc * 10 ^ N.of_nat (length s) <= 255)%N.
Proof.
  revert acc. induction s as [|c s IH]; intros acc Hp Hacc; cbn [parse_digits] in Hp.
  - split; [done|]. simpl. lia.
  - destruct (to_digit 10 c) as [d|] eqn:Ed; [|done]. apply to_digit_range in Ed as (Hc & _ & Hd).
    cbv zeta in Hp. destruct (acc * 10 + d <=? 255)%N eqn:E; [|done]. apply N.leb_le in E.
    destruct (IH _ Hp ltac:(lia)) as [Hs Hl]. split; [by constructor|].
    cbn [length]. rewrite Nat2N.inj_succ, N.pow_succ_r'. etransitivity; [|exact Hl]. nia.
Qed.

Lemma plain_octet l n :
  parse_canonical_u8 l = Some n -> PLUS ∉ l -> l = dec n /\ (n < 256)%N.
Proof.
  intros Hp Hplus. assert (Hin : l ∈ digit_labels).
  { unfold parse_canonical_u8 in Hp. destruct l as [|c l]; [done|]. cbn [is_empty orb] in Hp.
    assert (Hc : (c =? PLUS)%N = false) by (apply N.eqb_neq; intros ->; apply Hplus; left).
    destruct ((1 <? str_len (c :: l)) && starts_with [ZERO] (c :: l)) eqn:Ez; [done|].
    assert (Hd : parse_digits 0 (c :: l) = Some n) by (unfold u8_from_str in Hp; rewrite Hc in Hp; by destruct l).
    clear Hp. cbn [parse_digits] in Hd. destruct (to_digit 10 c) as [d|] eqn:Ed; [|done].
    apply to_digit_range in Ed as (Hcd & Hcv & Hd10). cbv zeta in Hd.
    destruct (0 * 10 + d <=? 255)%N eqn:E; [|done].
    destruct l as [|c2 l]; [apply elem_of_app; left; apply list_elem_of_fmap; by exists c|].
    assert (Hd0 : (0 < d)%N).
    { destruct (N.eq_dec d 0%N) as [->|]; [|lia]. exfalso. apply andb_false_iff in Ez as [Ez|Ez].
      - apply Nat.ltb_ge in Ez. unfold str_len in Ez. simpl in Ez. unfold utf8_len in Ez.
        repeat destruct (_ <? _)%N in Ez; simpl in Ez; lia.
      - unfold starts_with in Ez. subst c. simpl in Ez. done. }
    destruct (parse_digits_short _ _ _ Hd ltac:(apply N.leb_le in E; lia)) as [Hf Hl].
    apply Forall_cons in Hf as [Hc2 Hf]. destruct l as [|c3 l].
    - apply elem_of_app. right. apply elem_of_app. left.
      apply list_elem_of_bind. exists c. split; [|done]. apply list_elem_of_bind. exists c2. split; [|done].
      by apply list_elem_of_singleton.
    - apply Forall_cons in Hf as [Hc3 Hf]. destruct l as [|c4 l].
      + apply elem_of_app. right. apply elem_of_app. right.
        apply list_elem_of_bind. exists c. split; [|done]. apply list_elem_of_bind. exists c2. split; [|done].
        apply list_elem_of_bind. exists c3. split; [|done]. by apply list_elem_of_singleton.
      + exfalso. cbn [length] in Hl. rewrite !Nat2N.inj_succ, !N.pow_succ_r' in Hl.
        pose proof (N.pow_nonzero 10 (N.of_nat (length l)) ltac:(done)).
        nia. }
  pose proof canonical_checked as Hck. unfold canonical_check in Hck. rewrite forallb_forall in Hck.
  specialize (Hck l ltac:(by apply list_elem_of_In)). rewrite Hp in Hck.
  apply andb_true_iff in Hck as [H1%bool_decide_eq_true H2%N.ltb_lt]. done.
Qed.

Lemma octet_roundtrip n : (n < 256)%N -> parse_canonical_u8 (dec n) = Some n.
Proof.
  intros Hn. pose proof octets_checked as Hck. unfold octet_check in Hck. rewrite forallb_forall in Hck.
  refine (bool_decide_eq_true_1 _ (Hck n _)). apply list_elem_of_In, list_elem_of_fmap. exists (N.to_nat n).
  rewrite N2Nat.id. split; [done|]. apply elem_of_seq. lia.
Qed.

Lemma mapM_octets ls ns :
  mapM parse_canonical_u8 ls = Some ns -> (forall l, l ∈ ls -> PLUS ∉ l) ->
  ls = dec <$> ns /\ Forall (fun n => (n < 256)%N) ns.
Proof.
  revert ns. induction ls as [|l ls IH]; intros ns Hm Hp; simpl in Hm; [by injection Hm as <-|].
  apply bind_Some in Hm as (n & Hn & Hm). apply bind_Some in Hm as (ns' & Hns & [= <-]).
  destruct (IH ns' Hns) as [-> Hf]; [intros x Hx; apply Hp; by right|].
  destruct (plain_octet l n Hn) as [-> Hlt]; [apply Hp; left|]. split; [done|by constructor].
Qed.

Lemma mapM_dec ns : Forall (fun n => (n < 256)%N) ns -> mapM parse_canonical_u8 (dec <$> ns) = Some ns.
Proof.
  induction 1 as [|n ns Hn Hf IH]; [done|]. cbn [fmap list_fmap mapM].
  change (dec n :: list_fmap N str dec ns) with (dec n :: (dec <$> ns)). cbn [mapM].
  rewrite octet_roundtrip by done. cbn [mbind option_bind]. by rewrite IH.
Qed.

(** Every IPv4 address has exactly one spelling over DNS, among labels that
    do not contain a plus sign: the labels of a query read as an address exactly
    when they are its four octets in decimal, last octet first. *)
Theorem dns_ipv4_canonical ls t :
  length ls = 4 -> (forall l, l ∈ ls -> PLUS ∉ l) ->
  (decode_ip ls = Some t <->
   exists octets, length octets = 4 /\ Forall (fun n => (n < 256)%N) octets
     /\ ls = reverse (dec <$> octets) /\ t = ipv4_text octets).
Proof.
  intros Hl Hp. unfold decode_ip. rewrite Hl. cbn [Nat.eqb]. split.
  - intros (ns & Hns & ->)%fmap_Some. destruct (mapM_octets _ _ Hns) as [Hr Hf].
    { intros l Hin. by apply Hp, elem_of_reverse. }
    exists ns. split_and!; [|done| |done].
    + rewrite <- (length_fmap dec), <- Hr. by rewrite length_reverse.
    + rewrite <- Hr. by rewrite reverse_involutive.
  - intros (ns & Hn & Hf & -> & ->). rewrite reverse_involutive, mapM_dec by done. done.
Qed.

Lemma dns_ipv4_canonical_witness :
  decode_ip [lit "4"; lit "3"; lit "2"; lit "1"] = Some (lit "1.2.3.4").
Proof.
  apply (dns_ipv4_canonical [lit "4"; lit "3"; lit "2"; lit "1"] (lit "1.2.3.4")).
  - reflexivity.
  - intros l Hl. repeat apply elem_of_cons in Hl as [-> |Hl]; try (by apply (bool_decide_unpack _); vm_compute).
    by apply elem_of_nil in Hl.
  - exists [1; 2; 3; 4]%N. split_and!; [reflexivity| |by vm_compute|by vm_compute].
    repeat constructor.
Defined.

(** With a plus sign there are more, since [u8::from_str] allows one. *)
Lemma dns_plus_spelling :
  decode_ip [lit "+4"; lit "3"; lit "2"; lit "1"] = decode_ip [lit "4"; lit "3"; lit "2"; lit "1"]
  /\ decode_ip [lit "+004"; lit "3"; lit "2"; lit "1"] = decode_ip [lit "4"; lit "3"; lit "2"; lit "1"].
Proof. split; by vm_compute. Qed.

(** ** Base32 *)
Lemma upper_lower s :
  Forall (fun c => is_ascii_upper c = true \/ is_ascii_digit c = true) s ->
  to_ascii_uppercase (to_ascii_lowercase s) = s.
Proof.
  unfold to_ascii_uppercase, to_ascii_lowercase. induction 1 as [|c s Hc Hs IH]; [done|].
  cbn [fmap list_fmap]. f_equal; [|exact IH]. unfold lower_char, upper_char, is_ascii_lower.
  destruct (is_ascii_upper c) eqn:E.
  - unfold is_ascii_upper in E. apply andb_true_iff in E as [E1%N.leb_le E2%N.leb_le].
    rewrite (proj2 (N.leb_le _ _)), (proj2 (N.leb_le _ _)) by lia. simpl. lia.
  - destruct Hc as [|Hc]; [done|]. unfold is_ascii_digit in Hc. apply andb_true_iff in Hc as [E1%N.leb_le E2%N.leb_le].
    rewrite (proj2 (N.leb_gt 97 c)) by lia. done.
Qed.

Lemma ascii_bytes s : Forall (fun c => (c < 128)%N) s -> as_bytes s = s.
Proof.
  unfold as_bytes. induction 1 as [|c s Hc Hs IH]; [done|].
  change (utf8_char c ++ mjoin (utf8_char <$> s) = c :: s). rewrite IH. unfold utf8_char.
  by rewrite (proj2 (N.ltb_lt c 128)).
Qed.

Section Base32Roundtrip.
(** What RFC 4648 says of the encoding: bytes come back, and the text is made of
    upper-case letters and digits. *)
Context (base32_encode : list N -> str) (base32_decode : list N -> option (list N)).
Hypothesis base32_roundtrip : forall bs, Forall (fun b => (b < 256)%N) bs -> base32_decode (base32_encode bs) = Some bs.
Hypothesis base32_alphabet : forall bs,
  Forall (fun b => (b < 256)%N) bs -> Forall (fun c => is_ascii_upper c = true \/ is_ascii_digit c = true) (base32_encode bs).

Lemma utf8_bytes s : Forall is_scalar s -> Forall (fun b => (b < 256)%N) (as_bytes s).
Proof.
  unfold as_bytes. induction 1 as [|c s [Hc _] Hs IH]; [constructor|].
  change (Forall (fun b => (b < 256)%N) (utf8_char c ++ mjoin (utf8_char <$> s))).
  apply Forall_app. split; [|exact IH]. unfold utf8_char.
  pose proof (mod64 c). pose proof (mod64 (c / 64)). pose proof (mod64 (c / 4096)).
  destruct (c <? 128)%N eqn:E1; [apply N.ltb_lt in E1; constructor; [lia|constructor]|].
  destruct (c <? 2048)%N eqn:E2; [apply N.ltb_lt in E2|destruct (c <? 65536)%N eqn:E3; [apply N.ltb_lt in E3|]].
  - assert (c / 64 < 32)%N by (apply N.Div0.div_lt_upper_bound; lia). repeat constructor; lia.
  - assert (c / 4096 < 16)%N by (apply N.Div0.div_lt_upper_bound; lia). repeat constructor; lia.
  - assert (c / 262144 < 16)%N by (apply N.Div0.div_lt_upper_bound; lia). repeat constructor; lia.
Qed.

(** Any value can be asked about over DNS: its base32 form, lower-cased as
    names are and cut into labels anywhere, reads back as the value; and a value
    without empty labels, cut at its dots, reads back as itself. *)
Theorem dns_value_roundtrip v labels plain :
  Forall is_scalar v -> mjoin labels = to_ascii_lowercase (base32_encode (as_bytes v)) ->
  decode base32_decode labels EncBase32 = Some v
  /\ decode base32_decode (split_char DOT plain) EncDomain = Some plain.
Proof.
  intros Hv Hl. split.
  - cbn [decode]. unfold decode_base32. rewrite Hl. pose proof (utf8_bytes v Hv) as Hb.
    pose proof (base32_alphabet _ Hb) as Ha. rewrite upper_lower by done. rewrite ascii_bytes.
    + rewrite base32_roundtrip by done. by apply utf8_roundtrip.
    + eapply Forall_impl; [exact Ha|]. intros c [Hc|Hc]; unfold is_ascii_upper, is_ascii_digit in Hc;
        apply andb_true_iff in Hc as [_ Hc%N.leb_le]; lia.
  - cbn [decode]. f_equal. clear. induction plain as [|c s IH]; [done|]. simpl.
    destruct (c =? DOT)%N eqn:E.
    + apply N.eqb_eq in E. subst. destruct (split_char DOT s) as [|p ps] eqn:Es; [by apply split_char_ne in Es|].
      change (DOT :: join_with [DOT] (p :: ps) = DOT :: s). by rewrite IH.
    + destruct (split_char DOT s) as [|p ps] eqn:Es; [by apply split_char_ne in Es|].
      rewrite <- IH. by destruct ps.
Qed.
End Base32Roundtrip.

(** A stand-in for the codec, two letters to a byte, to run the theorem on. *)
Definition letters_encode (bs : list N) : str := mjoin ((fun b => [65 + b / 16; 65 + b mod 16]%N) <$> bs).
Fixpoint letters_decode (s : list N) : option (list N) :=
  match s with
  | [] => Some []
  | a :: b :: r => cons ((a - 65) * 16 + (b - 65))%N <$> letters_decode r
  | [_] => None
  end.

Lemma letters_roundtrip bs : Forall (fun b => (b < 256)%N) bs -> letters_decode (letters_encode bs) = Some bs.
Proof.
  unfold letters_encode. induction 1 as [|b bs Hb Hbs IH]; [done|].
  change (cons ((65 + b / 16 - 65) * 16 + (65 + b mod 16 - 65))%N
            <$> letters_decode (mjoin ((fun b => [65 + b / 16; 65 + b mod 16]%N) <$> bs)) = Some (b :: bs)).
  rewrite IH. pose proof (N.div_mod' b 16) as Hd.
  replace ((65 + b / 16 - 65) * 16 + (65 + b mod 16 - 65))%N with b; [done|].
  rewrite !(N.add_comm 65), !N.add_sub. by rewrite (N.mul_comm (b / 16)).
Qed.

Lemma letter_upper x : (x < 16)%N -> is_ascii_upper (65 + x) = true.
Proof. intros Hx. unfold is_ascii_upper. apply andb_true_iff. split; apply N.leb_le; lia. Qed.

Lemma letters_alphabet bs :
  Forall (fun b => (b < 256)%N) bs -> Forall (fun c => is_ascii_upper c = true \/ is_ascii_digit c = true) (letters_encode bs).
Proof.
  unfold letters_encode. induction 1 as [|b bs Hb Hbs IH]; [constructor|].
  assert (b / 16 < 16)%N by (apply N.Div0.div_lt_upper_bound; lia).
  assert (b mod 16 < 16)%N by by apply N.mod_lt.
  constructor; [|constructor; [|exact IH]]; left; by apply letter_upper.
Qed.

Lemma dns_value_roundtrip_witness :
  decode letters_decode [lit "gi"; lit "gj"] EncBase32 = Some (lit "hi").
Proof.
  apply (dns_value_roundtrip letters_encode letters_decode letters_roundtrip letters_alphabet (lit "hi")
    [lit "gi"; lit "gj"] (lit "a.b")).
  - repeat constructor; vm_compute; intros; try done; intuition congruence.
  - by vm_compute.
Defined.
