(* ===== verification/Peers.v ===== *)
(** * The galaxy's peers

    Models the part of [src/src/galaxy.rs] that keeps the peers and what is
    known about them, with the peers of [src/src/config.rs] they come from:
    which peers hold a namespace, which of those are answering, which mirror
    serves a read, what a probe leaves behind, and the edits the management
    interface makes while the server runs.  The locks are held for one of these
    operations at a time, so each is a function of the galaxy.

    The rendezvous weight is the head of a SHA-256 digest, which is the [sha2]
    crate's: [digest64] stands for it. *)

From stdpp Require Import base numbers list strings gmap sorting.
From S2P Require Import Prelude Text Paths Acl.

(** ** Peers *)

(** [config::Peer] *)
Record Peer := mkPeer { p_url : str; p_key : str; p_stores : StoragePolicy; p_enabled : bool }.

#[export] Instance StoragePolicy_eq_dec : EqDecision StoragePolicy.
Proof. solve_decision. Defined.
#[export] Instance Peer_eq_dec : EqDecision Peer.
Proof. solve_decision. Defined.

Definition HTTP : str := lit "http://".
Definition HTTPS : str := lit "https://".

(** [.trim().trim_end_matches('/')] *)
Definition clean_url (url : str) : str := trim_end_char SLASH (trim url).

Inductive PeerError :=
  | NoUrl
  | NotHttp (url : str)
  | NoKey (url : str)
  | BadNamespace (url : str) (e : NameError)
  | EmptyNamespaces (url : str).

(** The loop over the prefixes: the first one that is not a namespace. *)
Fixpoint first_bad_prefix (ps : list str) : option NameError :=
  match ps with
  | [] => None
  | p :: r => match validate_namespace p with Some e => Some e | None => first_bad_prefix r end
  end.

Definition validated_peer (url key : str) (namespaces : option (list str)) (enabled : bool) : Peer + PeerError :=
  let url := clean_url url in
  let key := trim key in
  if is_empty url then inr NoUrl
  else if negb (starts_with HTTP url) && negb (starts_with HTTPS url) then inr (NotHttp url)
  else if is_empty key then inr (NoKey url)
  else
    let stores := match namespaces with Some l => from_prefixes l | None => store_everything end in
    match first_bad_prefix (prefixes stores) with
    | Some e => inr (BadNamespace url e)
    | None => if is_router stores then inr (EmptyNamespaces url) else inl (mkPeer url key stores enabled)
    end.

(** ** Settings *)
Record RawPeer := mkRawPeer {
  raw_url : str; raw_key : str; raw_namespaces : option (list str); raw_enabled : option bool;
}.

Record GalaxySettings := mkGalaxySettings {
  gs_peers : list Peer;
  gs_health_interval : Z;
  gs_sync_interval : Z;
  gs_reconcile_interval : Z;
  gs_gossip_interval : Z;
  gs_acl_authority : bool;
  gs_acl_replaceable : bool;
  gs_verify_tls : bool;
  gs_max_hops : Z;
  gs_fixed : list str;
}.

Inductive GalaxyError :=
  | BadPeer (e : PeerError)
  | PeerTwice (url : str)
  | NoHops
  | AuthorityReplaceable
  | NoHealthInterval.

Definition known_url (ps : list Peer) (url : str) : bool := existsb (fun p => bool_decide (p_url p = url)) ps.

(** The loop over [[galaxy] peers]. *)
Fixpoint configured_peers (raws : list RawPeer) (acc : list Peer) : list Peer + GalaxyError :=
  match raws with
  | [] => inl acc
  | raw :: rest =>
      match validated_peer (raw_url raw) (raw_key raw) (raw_namespaces raw) (default true (raw_enabled raw)) with
      | inr e => inr (BadPeer e)
      | inl peer => if known_url acc (p_url peer) then inr (PeerTwice (p_url peer))
                    else configured_peers rest (acc ++ [peer])
      end
  end.

(** The loop of [load_file_peers] over a file that parsed: an entry that is not
    a peer is reported and skipped. *)
Definition file_peers (entries : list RawPeer) : list Peer :=
  omap (fun e => match validated_peer (raw_url e) (raw_key e) (raw_namespaces e) (default true (raw_enabled e)) with
                 | inl p => Some p
                 | inr _ => None
                 end) entries.

(** One peer of the file: the configuration wins. *)
Definition add_file_peer (ps : list Peer) (p : Peer) : list Peer :=
  if known_url ps (p_url p) then ps else ps ++ [p].

(** The raw table, with the peers of the peers file already read. *)
Record RawGalaxy := mkRawGalaxy {
  rg_peers : list RawPeer;
  rg_file : list RawPeer;
  rg_max_hops : Z;
  rg_health_interval : Z;
  rg_sync_interval : Z;
  rg_reconcile_interval : Z;
  rg_gossip_interval : Z;
  rg_acl_authority : bool;
  rg_acl_replaceable : bool;
  rg_verify_tls : bool;
}.

(** [RawGalaxy::into_settings] *)
Definition galaxy_settings (raw : RawGalaxy) : GalaxySettings + GalaxyError :=
  match configured_peers (rg_peers raw) [] with
  | inr e => inr e
  | inl declared =>
      let fixed := p_url <$> declared in
      let peers := foldl add_file_peer declared (file_peers (rg_file raw)) in
      if bool_decide (rg_max_hops raw = 0%Z) then inr NoHops
      else if rg_acl_authority raw && rg_acl_replaceable raw then inr AuthorityReplaceable
      else if bool_decide (rg_health_interval raw = 0%Z) then inr NoHealthInterval
      else inl (mkGalaxySettings peers (rg_health_interval raw) (rg_sync_interval raw)
                  (rg_reconcile_interval raw) (rg_gossip_interval raw) (rg_acl_authority raw)
                  (rg_acl_replaceable raw) (rg_verify_tls raw) (rg_max_hops raw) fixed)
  end.

(** ** Health *)
Record PeerHealth := mkHealth {
  h_url : str;
  online : bool;
  probed : bool;
  last_seen_at : Z;
  latency_ms : option Z;
  version : option str;
  h_error : option str;
  failures : Z;
  catching_up : bool;
}.

Definition unprobed (url : str) : PeerHealth := mkHealth url false false 0 None None None 0 false.

(** What one peer's [/health] said. *)
Record Probed := mkProbed { pb_version : option str; pb_latency_ms : Z; pb_catching_up : bool }.

Record Galaxy := mkGalaxy {
  g_peers : list Peer;
  max_hops : Z;
  health_interval : Z;
  sync_interval : Z;
  reconcile_interval : Z;
  gossip_interval : Z;
  acl_authority : bool;
  verify_tls : bool;
  g_health : gmap str PeerHealth;
  g_fixed : list str;
}.

Definition with_peers (g : Galaxy) (ps : list Peer) : Galaxy :=
  mkGalaxy ps (max_hops g) (health_interval g) (sync_interval g) (reconcile_interval g) (gossip_interval g)
    (acl_authority g) (verify_tls g) (g_health g) (g_fixed g).
Definition with_health (g : Galaxy) (h : gmap str PeerHealth) : Galaxy :=
  mkGalaxy (g_peers g) (max_hops g) (health_interval g) (sync_interval g) (reconcile_interval g)
    (gossip_interval g) (acl_authority g) (verify_tls g) h (g_fixed g).

(** [Galaxy::new]: collecting into the map keeps the last of two equal keys. *)
Definition galaxy_new (s : GalaxySettings) : Galaxy :=
  mkGalaxy (gs_peers s) (gs_max_hops s) (gs_health_interval s) (gs_sync_interval s) (gs_reconcile_interval s)
    (gs_gossip_interval s) (gs_acl_authority s) (gs_verify_tls s)
    (foldl (fun m p => <[p_url p := unprobed (p_url p)]> m) ∅ (gs_peers s)) (gs_fixed s).

(** ** Who holds what *)
Definition peers (g : Galaxy) : list Peer := filter (fun p => p_enabled p = true) (g_peers g).
Definition all_peers (g : Galaxy) : list Peer := g_peers g.

(** [Galaxy::holders] *)
Definition peer_holders (g : Galaxy) (ns : str) : list Peer :=
  filter (fun p => p_enabled p && holds (p_stores p) ns = true) (g_peers g).

Definition answering (g : Galaxy) (p : Peer) : bool :=
  match g_health g !! p_url p with Some known => online known || negb (probed known) | None => true end.

Definition live_holders (g : Galaxy) (ns : str) : list Peer :=
  filter (fun p => answering g p = true) (peer_holders g ns).

(** [Iterator::max_by_key]: the last of the greatest. *)
Definition max_by_key {A} (key : A -> N) (l : list A) : option A :=
  match l with
  | [] => None
  | x :: r => Some (foldl (fun best y => if (key best <=? key y)%N then y else best) x r)
  end.

Section Reader.
Context `{HashOrder} (digest64 : str -> N).

(** [weigh]: three updates hash their concatenation. *)
Definition COLON : N := 58.
Definition weigh (value url : str) : N := digest64 (value ++ COLON :: url).

(** The URLs of the peers known to be catching up. *)
Definition behind (g : Galaxy) : list str :=
  h_url <$> filter (fun h => catching_up h = true) ((hash_iter (g_health g)).*2).

Definition reader_for (g : Galaxy) (ns value : str) : option Peer :=
  let live := live_holders g ns in
  let current := filter (fun p => p_url p ∉ behind g) live in
  let choose_from := if is_empty current then live else current in
  max_by_key (fun p => weigh value (p_url p)) choose_from.
End Reader.

(** [Galaxy::health] *)
Definition health_rows (g : Galaxy) : list PeerHealth :=
  (fun p => default (unprobed (p_url p)) (g_health g !! p_url p)) <$> all_peers g.

Definition U32_MAX : Z := 4294967295.

(** [Galaxy::record], without what it logs. *)
Definition galaxy_record (now : Z) (g : Galaxy) (url : str) (outcome : Probed + str) : Galaxy :=
  let entry := default (unprobed url) (g_health g !! url) in
  with_health g (<[url :=
    match outcome with
    | inl pb => mkHealth (h_url entry) true true (timestamp now) (Some (pb_latency_ms pb)) (pb_version pb) None 0
                  (pb_catching_up pb)
    | inr e => mkHealth (h_url entry) false true (last_seen_at entry) None (version entry) (Some e)
                 (Z.min U32_MAX (failures entry + 1)) (catching_up entry)
    end]> (g_health g)).

(** ** Editing the peers *)
Inductive AddPeer := AddInvalid (message : str) | AlreadyThere (message : str).

Definition bare_host (url : str) : str := trim_start_str HTTP (trim_start_str HTTPS url).

Definition is_own_address (url own_listen : str) : bool :=
  let host_port := trim_end_char SLASH (bare_host url) in
  if bool_decide (host_port = own_listen) then true
  else
    match rsplit_once COLON own_listen with
    | None => false
    | Some (own_host, own_port) =>
        match rsplit_once COLON host_port with
        | None => false
        | Some (host, port) =>
            bool_decide (port = own_port)
            && bool_decide (own_host ∈ [lit "0.0.0.0"; lit "[::]"; lit "::"])
            && bool_decide (host ∈ [lit "127.0.0.1"; lit "localhost"; lit "[::1]"; lit "::1"])
        end
    end.

Definition is_fixed (g : Galaxy) (url : str) : bool := bool_decide (clean_url url ∈ g_fixed g).

Definition editable_peers (g : Galaxy) : list Peer :=
  filter (fun p => is_fixed g (p_url p) = false) (all_peers g).

Definition add_peer (g : Galaxy) (peer : Peer) (own_listen : str) : Galaxy * (Peer + AddPeer) :=
  let peer := mkPeer (clean_url (p_url peer)) (trim (p_key peer)) (p_stores peer) (p_enabled peer) in
  if negb (starts_with HTTP (p_url peer) || starts_with HTTPS (p_url peer))
  then (g, inr (AddInvalid (lit "a peer URL starts with http:// or https://")))
  else if is_empty (bare_host (p_url peer))
  then (g, inr (AddInvalid (lit "a peer URL needs a host")))
  else if is_empty (p_key peer)
  then (g, inr (AddInvalid (lit "a peer needs the key this server will authenticate with there")))
  else if is_own_address (p_url peer) own_listen
  then (g, inr (AddInvalid (p_url peer ++ lit " is this server's own address, which would make it its own mirror")))
  else if known_url (g_peers g) (p_url peer)
  then (g, inr (AlreadyThere (p_url peer ++ lit " is already in this galaxy")))
  else if is_fixed g (p_url peer)
  then (g, inr (AlreadyThere (p_url peer ++ lit " is declared in the configuration file, so it cannot be changed here")))
  else (with_peers g (g_peers g ++ [peer]), inl peer).

Definition remove_peer (g : Galaxy) (url : str) : Galaxy * bool :=
  let url := clean_url url in
  let kept := filter (fun p => p_url p <> url) (g_peers g) in
  let removed := negb (bool_decide (length kept = length (g_peers g))) in
  let g1 := with_peers g kept in
  (if removed then with_health g1 (delete url (g_health g1)) else g1, removed).

(** [iter_mut().find(..)] and an assignment through it: the first peer that
    matches is replaced. *)
Fixpoint replace_first (url : str) (f : Peer -> Peer) (ps : list Peer) : option (list Peer * Peer) :=
  match ps with
  | [] => None
  | p :: r =>
      if bool_decide (p_url p = url) then Some (f p :: r, f p)
      else match replace_first url f r with
           | Some (r', q) => Some (p :: r', q)
           | None => None
           end
  end.

Definition set_enabled (g : Galaxy) (url : str) (enabled : bool) : Galaxy * option Peer :=
  let url := clean_url url in
  match replace_first url (fun p => mkPeer (p_url p) (p_key p) (p_stores p) enabled) (g_peers g) with
  | None => (g, None)
  | Some (ps, updated) => (with_health (with_peers g ps) (delete url (g_health g)), Some updated)
  end.

Definition update_peer (g : Galaxy) (peer : Peer) : Galaxy * option Peer :=
  let peer := mkPeer (clean_url (p_url peer)) (trim (p_key peer)) (p_stores peer) (p_enabled peer) in
  if is_empty (p_key peer) then (g, None)
  else
    match replace_first (p_url peer) (fun _ => peer) (g_peers g) with
    | None => (g, None)
    | Some (ps, updated) => (with_peers g ps, Some updated)
    end.

(** [PeersFile::to_toml] *)
Definition QUOTE : N := 34.
Definition quoted (s : str) : str := QUOTE :: s ++ [QUOTE].
Definition NEWLINE : N := 10.

Definition PEERS_HEADER : str :=
  lit "# Written by the SightingDB management interface. Comments added" ++ [NEWLINE]
  ++ lit "# here are replaced the next time a peer is saved." ++ [NEWLINE]
  ++ lit "#" ++ [NEWLINE]
  ++ lit "# Peers listed in [galaxy] peers in the main configuration are not" ++ [NEWLINE]
  ++ lit "# here and are not editable from the interface." ++ [NEWLINE] ++ [NEWLINE].

Definition peer_to_toml (p : Peer) : str :=
  lit "[[peers]]" ++ [NEWLINE]
  ++ lit "url = " ++ quoted (p_url p) ++ [NEWLINE]
  ++ lit "key = " ++ quoted (p_key p) ++ [NEWLINE]
  ++ (if everything (p_stores p) then []
      else lit "namespaces = [" ++ join_with (lit ", ") (quoted <$> prefixes (p_stores p)) ++ lit "]" ++ [NEWLINE])
  ++ (if p_enabled p then [] else lit "enabled = false" ++ [NEWLINE])
  ++ [NEWLINE].

Definition peers_to_toml (ps : list Peer) : str := PEERS_HEADER ++ mjoin (peer_to_toml <$> ps).

(** ** Choosing by weight *)
Lemma Forall_filtered {A} (Q P : A -> Prop) `{!forall x, Decision (P x)} l : Forall Q l -> Forall Q (filter P l).
Proof. rewrite !Forall_forall. intros HQ x [_ Hx]%list_elem_of_filter. by apply HQ. Qed.

Lemma max_fold_spec {A} (key : A -> N) r x :
  exists l1 l2, x :: r = l1 ++ foldl (fun best y => if (key best <=? key y)%N then y else best) x r :: l2
    /\ Forall (fun y => key y <= key (foldl (fun best y => if (key best <=? key y)%N then y else best) x r))%N l1
    /\ Forall (fun y => key y < key (foldl (fun best y => if (key best <=? key y)%N then y else best) x r))%N l2.
Proof.
  induction r as [|y r IH] using rev_ind; [by exists [], []|].
  rewrite foldl_snoc. destruct IH as (l1 & l2 & E & H1 & H2).
  set (b := foldl _ x r) in *. destruct (key b <=? key y)%N eqn:Ek.
  - apply N.leb_le in Ek. exists (x :: r), []. split; [done|]. split; [|done].
    rewrite E. apply Forall_app. split; [|constructor; [done|]]; eapply Forall_impl; eauto; simpl; lia.
  - apply N.leb_gt in Ek. exists l1, (l2 ++ [y]). split; [|split; [done|]].
    + change (x :: r ++ [y]) with ((x :: r) ++ [y]). by rewrite E, <- app_assoc.
    + apply Forall_app. by split; [|repeat constructor].
Qed.

(** The last of the greatest, whatever the rest. *)
Lemma max_by_key_spec {A} (key : A -> N) l x :
  max_by_key key l = Some x <->
  exists l1 l2, l = l1 ++ x :: l2 /\ Forall (fun y => key y <= key x)%N l1 /\ Forall (fun y => key y < key x)%N l2.
Proof.
  split.
  - destruct l as [|y r]; [done|]. intros [= <-]. apply max_fold_spec.
  - intros (l1 & l2 & -> & H1 & H2).
    destruct (l1 ++ x :: l2) as [|y r] eqn:E; [by destruct l1|]. simpl. f_equal.
    destruct (max_fold_spec key r y) as (k1 & k2 & E' & K1 & K2). set (b := foldl _ y r) in *.
    rewrite <- E in E'. destruct (app_eq_inv _ _ _ _ E') as [(k & -> & Ek)|(k & -> & Ek)].
    + destruct k as [|z k]; simplify_eq/=; [done|]. exfalso.
      rewrite Forall_app, Forall_cons in H1. rewrite Forall_app, Forall_cons in K2. lia.
    + destruct k as [|z k]; simplify_eq/=; [done|]. exfalso.
      rewrite Forall_app, Forall_cons in K1. rewrite Forall_app, Forall_cons in H2. lia.
Qed.

Lemma max_by_key_None {A} (key : A -> N) l : max_by_key key l = None <-> l = [].
Proof. by destruct l. Qed.

Lemma max_by_key_filter {A} (key : A -> N) (P : A -> Prop) `{!forall x, Decision (P x)} l x :
  max_by_key key l = Some x -> P x -> max_by_key key (filter P l) = Some x.
Proof.
  rewrite !max_by_key_spec. intros (l1 & l2 & -> & H1 & H2) HP.
  exists (filter P l1), (filter P l2). rewrite filter_app, filter_cons_True by done.
  split_and!; [done| |]; by apply Forall_filtered.
Qed.

Lemma max_by_key_elem {A} (key : A -> N) l x : max_by_key key l = Some x -> x ∈ l.
Proof. intros (l1 & l2 & -> & _)%max_by_key_spec. apply elem_of_app. right. left. Qed.

Lemma max_by_key_snoc {A} (key : A -> N) l x y :
  max_by_key key l = Some x ->
  max_by_key key (l ++ [y]) = Some x \/ max_by_key key (l ++ [y]) = Some y.
Proof.
  destruct l as [|z r]; [done|]. intros [= <-]. simpl. rewrite foldl_snoc.
  by destruct (_ <=? _)%N; [right|left].
Qed.

(** ** What holds of the galaxy at all times *)
Definition peer_ok (p : Peer) : Prop :=
  starts_with HTTP (p_url p) || starts_with HTTPS (p_url p) = true /\ p_key p <> [] /\ is_router (p_stores p) = false.

Record galaxy_ok (g : Galaxy) : Prop := {
  ok_urls : NoDup (p_url <$> g_peers g);
  ok_peers : Forall peer_ok (g_peers g);
  ok_hops : (1 <= max_hops g)%Z;
  ok_health : map_Forall (fun url h => h_url h = url) (g_health g);
}.

Lemma known_url_spec ps url : known_url ps url = true <-> url ∈ p_url <$> ps.
Proof.
  unfold known_url. rewrite existsb_exists, list_elem_of_fmap.
  setoid_rewrite bool_decide_eq_true. setoid_rewrite list_elem_of_In. naive_solver.
Qed.

Lemma known_url_false ps url : known_url ps url = false <-> url ∉ p_url <$> ps.
Proof. rewrite <- known_url_spec. by destruct (known_url ps url). Qed.

Lemma validated_peer_ok url key l e p :
  validated_peer url key l e = inl p ->
  peer_ok p /\ p_url p = clean_url url /\ p_key p = trim key /\ p_enabled p = e
  /\ p_stores p = match l with Some l => from_prefixes l | None => store_everything end
  /\ Forall (fun q => validate_namespace q = None) (prefixes (p_stores p)).
Proof.
  unfold validated_peer. intros Hv.
  destruct (is_empty (clean_url url)); [done|].
  destruct (negb (starts_with HTTP _) && _) eqn:Eh; [done|].
  destruct (is_empty (trim key)) eqn:Ek; [done|].
  set (s := match l with Some l => from_prefixes l | None => store_everything end) in *.
  destruct (first_bad_prefix (prefixes s)) eqn:Eb; [done|].
  destruct (is_router s) eqn:Er; [done|]. injection Hv as <-. unfold peer_ok. simpl. split_and!; try done.
  - destruct (starts_with HTTP _); [done|]. by destruct (starts_with HTTPS _).
  - by intros E; rewrite E in Ek.
  - clear -Eb. induction (prefixes s) as [|q qs IH]; simpl in Eb; [done|].
    destruct (validate_namespace q) eqn:E; [done|]. constructor; auto.
Qed.

Lemma nodup_snoc ps p :
  NoDup (p_url <$> ps) -> known_url ps (p_url p) = false -> NoDup (p_url <$> ps ++ [p]).
Proof.
  intros Hn Hk%known_url_false. rewrite fmap_app. apply NoDup_app. split_and!; [done| |apply NoDup_singleton].
  intros x Hx Hin. by apply list_elem_of_singleton in Hin as ->.
Qed.

Lemma configured_peers_ok raws acc ps :
  configured_peers raws acc = inl ps -> NoDup (p_url <$> acc) -> Forall peer_ok acc ->
  NoDup (p_url <$> ps) /\ Forall peer_ok ps /\ length ps = length acc + length raws.
Proof.
  revert acc. induction raws as [|raw raws IH]; intros acc Hc Hn Ha; simpl in Hc.
  - injection Hc as <-. split_and!; [done..|]. simpl. lia.
  - destruct (validated_peer _ _ _ _) as [p|] eqn:Ev; [|done].
    destruct (known_url acc (p_url p)) eqn:Ek; [done|].
    apply validated_peer_ok in Ev as [Hp _].
    destruct (IH _ Hc) as (H1 & H2 & H3); [by apply nodup_snoc|apply Forall_app; by split; [|constructor]|].
    split_and!; [done..|]. rewrite H3, length_app. simpl. lia.
Qed.

Lemma file_peers_ok entries : Forall peer_ok (file_peers entries).
Proof.
  apply Forall_forall. intros p (e & _ & He)%list_elem_of_omap.
  destruct (validated_peer _ _ _ _) as [q|] eqn:Ev; simplify_eq. by apply validated_peer_ok in Ev as [Hp _].
Qed.

Lemma add_file_peers_ok l ps :
  NoDup (p_url <$> ps) -> Forall peer_ok ps -> Forall peer_ok l ->
  NoDup (p_url <$> foldl add_file_peer ps l) /\ Forall peer_ok (foldl add_file_peer ps l)
  /\ ps `prefix_of` foldl add_file_peer ps l.
Proof.
  revert ps. induction l as [|p l IH]; intros ps Hn Hp Hl; [done|]. apply Forall_cons in Hl as [Hq Hl].
  cbn [foldl]. unfold add_file_peer at 2 4 6. destruct (known_url ps (p_url p)) eqn:Ek; [by apply IH|].
  destruct (IH (ps ++ [p])) as (H1 & H2 & H3); [by apply nodup_snoc|apply Forall_app; by split; [|constructor]|done|].
  split_and!; [done..|]. etransitivity; [|exact H3]. by apply prefix_app_r.
Qed.

Lemma new_health (ps : list Peer) (m : gmap str PeerHealth) :
  map_Forall (fun url h => h_url h = url) m ->
  map_Forall (fun url h => h_url h = url) (foldl (fun m p => <[p_url p := unprobed (p_url p)]> m) m ps).
Proof.
  revert m. induction ps as [|p ps IH]; intros m Hm; [done|]. simpl. apply IH.
  by apply map_Forall_insert_2.
Qed.

(** Everything that changes a galaxy while the server runs: a probe, and the
    edits of the management interface, which passes on validated peers. *)
Inductive galaxy_step (g : Galaxy) : Galaxy -> Prop :=
  | step_probe now url outcome : galaxy_step g (galaxy_record now g url outcome)
  | step_add p own : is_router (p_stores p) = false -> galaxy_step g (add_peer g p own).1
  | step_remove url : galaxy_step g (remove_peer g url).1
  | step_enable url b : galaxy_step g (set_enabled g url b).1
  | step_update p : is_router (p_stores p) = false -> galaxy_step g (update_peer g p).1.

Lemma replace_first_spec url f ps ps' q :
  replace_first url f ps = Some (ps', q) ->
  exists l1 p l2, ps = l1 ++ p :: l2 /\ ps' = l1 ++ f p :: l2 /\ q = f p /\ p_url p = url /\ url ∉ p_url <$> l1.
Proof.
  revert ps'. induction ps as [|p ps IH]; intros ps' Hr; simpl in Hr; [done|].
  case_bool_decide as E.
  - injection Hr as <- <-. exists [], p, ps. split_and!; try done. apply not_elem_of_nil.
  - destruct (replace_first url f ps) as [[r' q']|]; [|done]. injection Hr as <- <-.
    destruct (IH _ eq_refl) as (l1 & x & l2 & -> & -> & -> & Hx & Hn).
    exists (p :: l1), x, l2. split_and!; try done. rewrite fmap_cons. apply not_elem_of_cons. by split.
Qed.

Lemma replace_first_urls url f ps ps' q :
  (forall p, p_url p = url -> p_url (f p) = url) ->
  replace_first url f ps = Some (ps', q) -> p_url <$> ps' = p_url <$> ps.
Proof.
  intros Hf (l1 & p & l2 & -> & -> & _ & Hp & _)%replace_first_spec.
  by rewrite !fmap_app, !fmap_cons, (Hf p Hp), Hp.
Qed.

Lemma remove_peer_shape g url :
  let r := remove_peer g url in
  g_peers r.1 = filter (fun p => p_url p <> clean_url url) (g_peers g)
  /\ g_health r.1 ⊆ g_health g /\ max_hops r.1 = max_hops g /\ g_fixed r.1 = g_fixed g
  /\ (forall u, u <> clean_url url -> g_health r.1 !! u = g_health g !! u).
Proof.
  unfold remove_peer. cbn [fst]. destruct (negb _); simpl; split_and!; try done; [by apply delete_subseteq|].
  intros u Hu. by apply lookup_delete_ne.
Qed.

Lemma step_ok g g' : galaxy_ok g -> galaxy_step g g' -> galaxy_ok g'.
Proof.
  intros [Hu Hp Hh Hm] Hs. destruct Hs as [now url outcome|p own Hr|url|url b|p Hr].
  - split; try done. apply map_Forall_insert_2; [|done].
    assert (Hd : h_url (default (unprobed url) (g_health g !! url)) = url)
      by (destruct (g_health g !! url) eqn:E; [by apply (Hm url)|done]).
    by destruct outcome.
  - unfold add_peer. cbn [p_url p_key p_stores p_enabled].
    destruct (negb _) eqn:E1; [done|]. destruct (is_empty (bare_host _)); [done|].
    destruct (is_empty (trim _)) eqn:E3; [done|]. destruct (is_own_address _ _); [done|].
    destruct (known_url _ _) eqn:E5; [done|]. destruct (is_fixed _ _); [done|].
    split; simpl; try done; [by apply nodup_snoc|]. apply Forall_app. split; [done|]. constructor; [|done].
    split_and!; [by apply negb_false_iff|by intros E; simpl in E; rewrite E in E3|done].
  - destruct (remove_peer_shape g url) as (Ep & Eh & Ex & _). split.
    + rewrite Ep. eapply sublist_NoDup; [exact Hu|]. apply fmap_sublist, sublist_filter.
    + rewrite Ep. by apply Forall_filtered.
    + by rewrite Ex.
    + intros k x Hk. apply Hm. by eapply lookup_weaken.
  - unfold set_enabled. destruct (replace_first _ _ _) as [[ps q]|] eqn:E; [|done].
    assert (Hurl : p_url <$> ps = p_url <$> g_peers g) by (by eapply replace_first_urls; [|exact E]).
    apply replace_first_spec in E as (l1 & p & l2 & E & -> & -> & _). split; simpl; try done.
    + by rewrite Hurl.
    + rewrite E, Forall_app, Forall_cons in Hp. destruct Hp as (H1 & H2 & H3).
      apply Forall_app. split; [done|]. by constructor.
    + by apply map_Forall_delete.
  - unfold update_peer. cbn [p_url p_key p_stores p_enabled]. destruct (is_empty (trim _)) eqn:E3; [done|].
    destruct (replace_first _ _ _) as [[ps q]|] eqn:E; [|done].
    assert (Hurl : p_url <$> ps = p_url <$> g_peers g) by (by eapply replace_first_urls; [|exact E]).
    apply replace_first_spec in E as (l1 & x & l2 & E & -> & -> & Hx & _). split; simpl; try done.
    + by rewrite Hurl.
    + rewrite E, Forall_app, Forall_cons in Hp. destruct Hp as (H1 & (H2 & _) & H3).
      apply Forall_app. split; [done|]. constructor; [|done]. split_and!; simpl; [by rewrite <- Hx| |done].
      by intros E4; rewrite E4 in E3.
Qed.

Lemma galaxy_new_ok raw s : galaxy_settings raw = inl s -> (0 <= rg_max_hops raw)%Z -> galaxy_ok (galaxy_new s).
Proof.
  unfold galaxy_settings. intros Hs Hh.
  destruct (configured_peers _ _) as [ps|] eqn:Ec; [|done].
  destruct (configured_peers_ok _ _ _ Ec) as (H1 & H2 & _); [constructor|constructor|].
  destruct (add_file_peers_ok (file_peers (rg_file raw)) ps H1 H2 (file_peers_ok _)) as (H3 & H4 & _).
  case_bool_decide; [done|]. destruct (_ && _); [done|]. case_bool_decide; [done|]. injection Hs as <-.
  split; simpl; [done|done|lia|]. apply new_health, map_Forall_empty.
Qed.

(** ** The mirror that answers *)
Section ReaderFacts.
Context `{HashOrder}.

Lemma elem_of_behind g url :
  galaxy_ok g -> url ∈ behind g <-> exists h, g_health g !! url = Some h /\ catching_up h = true.
Proof.
  intros Hok. unfold behind. rewrite list_elem_of_fmap. split.
  - intros (h & -> & [Hc ([k h'] & -> & Hh)%list_elem_of_fmap]%list_elem_of_filter).
    apply elem_of_hash_iter in Hh. exists h'. simpl. split; [|done].
    by rewrite (ok_health _ Hok _ _ Hh).
  - intros (h & Hh & Hc). exists h. split; [symmetry; by apply (ok_health _ Hok)|].
    apply list_elem_of_filter. split; [done|]. apply list_elem_of_fmap. exists (url, h).
    split; [done|]. by apply elem_of_hash_iter.
Qed.

Lemma elem_of_live g ns p :
  p ∈ live_holders g ns <->
  p ∈ g_peers g /\ p_enabled p = true /\ holds (p_stores p) ns = true /\ answering g p = true.
Proof.
  unfold live_holders, peer_holders. rewrite !list_elem_of_filter, andb_true_iff. tauto.
Qed.

Definition candidates (g : Galaxy) (ns : str) : list Peer :=
  let current := filter (fun p => p_url p ∉ behind g) (live_holders g ns) in
  if is_empty current then live_holders g ns else current.

Lemma reader_for_candidates (digest64 : str -> N) g ns v :
  reader_for digest64 g ns v = max_by_key (fun p => weigh digest64 v (p_url p)) (candidates g ns).
Proof. done. Qed.

Lemma candidates_live g ns p : p ∈ candidates g ns -> p ∈ live_holders g ns.
Proof. unfold candidates. destruct (is_empty _); [done|]. by intros [_ Hp]%list_elem_of_filter. Qed.

Lemma candidates_nil g ns : candidates g ns = [] <-> live_holders g ns = [].
Proof.
  unfold candidates. destruct (filter _ (live_holders g ns)) as [|x l] eqn:E; simpl; [done|].
  split; [done|]. intros E'. by rewrite E' in E.
Qed.

(** The candidates, after every peer of one URL has gone or been put away. *)
Lemma candidates_without g g' ns u :
  live_holders g' ns = filter (fun p => p_url p <> u) (live_holders g ns) ->
  (forall url, url <> u -> url ∈ behind g' <-> url ∈ behind g) ->
  forall p, p ∈ candidates g ns -> p_url p <> u -> candidates g' ns = filter (fun p => p_url p <> u) (candidates g ns).
Proof.
  intros Hl Hb p Hp Hu. unfold candidates in *. rewrite Hl.
  assert (Hc : filter (fun p => p_url p ∉ behind g') (filter (fun p => p_url p <> u) (live_holders g ns))
             = filter (fun p => p_url p <> u) (filter (fun p => p_url p ∉ behind g) (live_holders g ns))).
  { rewrite !list_filter_filter. apply list_filter_ext. intros x _. specialize (Hb (p_url x)). tauto. }
  rewrite Hc. destruct (filter (fun p => p_url p ∉ behind g) (live_holders g ns)) as [|x l] eqn:Ec; [done|].
  cbn [is_empty] in *. destruct (filter _ (x :: l)) as [|y l'] eqn:Ef; [|done].
  exfalso. assert (Hin : p ∈ filter (fun p => p_url p <> u) (x :: l)) by by apply list_elem_of_filter.
  rewrite Ef in Hin. by apply elem_of_nil in Hin.
Qed.

(** Dropping the peers of one URL from the list drops them from the holders. *)
Lemma live_without g g' ns u :
  filter (fun p => p_enabled p && holds (p_stores p) ns = true) (g_peers g')
  = filter (fun p => p_enabled p && holds (p_stores p) ns = true) (filter (fun p => p_url p <> u) (g_peers g)) ->
  (forall url, url <> u -> g_health g' !! url = g_health g !! url) ->
  live_holders g' ns = filter (fun p => p_url p <> u) (live_holders g ns).
Proof.
  intros Hp Hh. unfold live_holders, peer_holders. rewrite Hp, !list_filter_filter. apply list_filter_ext.
  intros p _. unfold answering. destruct (decide (p_url p = u)) as [E|E]; [tauto|]. rewrite (Hh _ E). tauto.
Qed.

Lemma behind_without g g' u :
  galaxy_ok g -> galaxy_ok g' -> (forall url, url <> u -> g_health g' !! url = g_health g !! url) ->
  forall url, url <> u -> url ∈ behind g' <-> url ∈ behind g.
Proof. intros Hg Hg' Hh url Hu. rewrite !elem_of_behind by done. by rewrite Hh. Qed.

Lemma reader_without (digest64 : str -> N) g g' ns v p u :
  live_holders g' ns = filter (fun p => p_url p <> u) (live_holders g ns) ->
  (forall url, url <> u -> url ∈ behind g' <-> url ∈ behind g) ->
  reader_for digest64 g ns v = Some p -> p_url p <> u -> reader_for digest64 g' ns v = Some p.
Proof.
  intros Hl Hb Hr Hu. rewrite reader_for_candidates in *.
  rewrite (candidates_without g g' ns u Hl Hb p (max_by_key_elem _ _ _ Hr) Hu).
  by apply max_by_key_filter.
Qed.

Lemma set_enabled_false_peers g url ns :
  galaxy_ok g ->
  filter (fun p => p_enabled p && holds (p_stores p) ns = true) (g_peers (set_enabled g url false).1)
  = filter (fun p => p_enabled p && holds (p_stores p) ns = true)
      (filter (fun p => p_url p <> clean_url url) (g_peers g)).
Proof.
  intros Hok. unfold set_enabled. destruct (replace_first _ _ _) as [[ps q]|] eqn:E.
  - apply replace_first_spec in E as (l1 & x & l2 & E & -> & -> & Hx & Hn). simpl.
    pose proof (ok_urls _ Hok) as Hd. rewrite E, fmap_app, fmap_cons in Hd.
    apply NoDup_app in Hd as (_ & _ & [Hx2 _]%NoDup_cons). rewrite E, !filter_app.
    rewrite (filter_cons_False (fun p => p_url p <> clean_url url) x) by tauto.
    rewrite filter_cons_False by done.
    rewrite (list_filter_all (fun p => p_url p <> clean_url url) l1)
      by (intros y Hy Eq; apply Hn, list_elem_of_fmap; by exists y).
    rewrite (list_filter_all (fun p => p_url p <> clean_url url) l2); [done|].
    intros y Hy Eq. apply Hx2, list_elem_of_fmap. exists y. by rewrite Hx.
  - simpl. f_equal. symmetry. apply list_filter_all. intros y Hy Eq. clear Hok.
    induction (g_peers g) as [|z ps IH]; [by apply elem_of_nil in Hy|]. simpl in E.
    case_bool_decide; [done|]. destruct (replace_first _ _ ps) as [[]|]; [done|].
    apply elem_of_cons in Hy as [->|Hy]; [done|]. by apply IH.
Qed.

Lemma set_enabled_health g url b u :
  u <> clean_url url -> g_health (set_enabled g url b).1 !! u = g_health g !! u.
Proof.
  intros Hu. unfold set_enabled. destruct (replace_first _ _ _) as [[ps q]|]; [|done]. by apply lookup_delete_ne.
Qed.

(** One more peer at the end of the list. *)
Lemma reader_snoc (digest64 : str -> N) g ns v p q :
  reader_for digest64 g ns v = Some p ->
  let g' := with_peers g (g_peers g ++ [q]) in
  reader_for digest64 g' ns v = Some p \/ reader_for digest64 g' ns v = Some q.
Proof.
  intros Hr g'. rewrite reader_for_candidates in *.
  assert (Hlive : live_holders g' ns = live_holders g ns \/ live_holders g' ns = live_holders g ns ++ [q]).
  { unfold live_holders, peer_holders, g'. cbn [g_peers with_peers]. rewrite filter_app.
    destruct (decide (p_enabled q && holds (p_stores q) ns = true)) as [Hq|Hq];
      [rewrite filter_cons_True by done|rewrite filter_cons_False by done];
      rewrite filter_nil, ?app_nil_r; [|by left].
    rewrite filter_app. destruct (decide (answering g q = true)) as [Ha|Ha];
      [right; by rewrite filter_cons_True|left; by rewrite filter_cons_False, filter_nil, app_nil_r]. }
  destruct Hlive as [Hlive|Hlive]; [left; unfold candidates; by rewrite Hlive|].
  unfold candidates in *. rewrite Hlive, filter_app. change (behind g') with (behind g).
  destruct (filter (fun p => p_url p ∉ behind g) (live_holders g ns)) as [|x l] eqn:Ec.
  - cbn [is_empty app] in *. destruct (decide (p_url q ∉ behind g)).
    + rewrite filter_cons_True, filter_nil by done. right. done.
    + rewrite filter_cons_False, filter_nil by done. by apply max_by_key_snoc.
  - cbn [is_empty app] in *. destruct (decide (p_url q ∉ behind g)).
    + rewrite filter_cons_True, filter_nil by done. by apply (max_by_key_snoc _ (x :: l)).
    + rewrite filter_cons_False, filter_nil, app_nil_r by done. by left.
Qed.
End ReaderFacts.

(** ** Properties *)

(** C28: from an accepted configuration, and through every probe and every edit
    the management interface makes while the server runs, the peers keep
    distinct URLs, each an [http] or [https] one with a key and something it
    stores, the hop budget is at least one, and every health record is filed
    under the URL it is about. *)
Theorem galaxy_stays_ok raw s g :
  galaxy_settings raw = inl s -> (0 <= rg_max_hops raw)%Z -> rtc galaxy_step (galaxy_new s) g -> galaxy_ok g.
Proof.
  intros Hs Hh Hr. apply (galaxy_new_ok raw s) in Hh; [|done]. revert Hh.
  induction Hr as [g|g g1 g2 Hstep _ IH]; [done|]. intros Hok. apply IH. by eapply step_ok.
Qed.

(** C24: a read of a value goes to one enabled peer that declares the namespace
    and is answering or not yet probed, never to one still catching up while
    another is current, and to the heaviest of these for that value; nobody is
    chosen exactly when no such peer is left. *)
Theorem reader_exact `{HashOrder} digest64 g ns v :
  galaxy_ok g ->
  match reader_for digest64 g ns v with
  | None => live_holders g ns = []
  | Some p =>
      p ∈ g_peers g /\ p_enabled p = true /\ holds (p_stores p) ns = true /\ answering g p = true
      /\ (forall q, q ∈ live_holders g ns -> p_url q ∉ behind g ->
           p_url p ∉ behind g /\ (weigh digest64 v (p_url q) <= weigh digest64 v (p_url p))%N)
      /\ (p_url p ∈ behind g ->
           forall q, q ∈ live_holders g ns -> (weigh digest64 v (p_url q) <= weigh digest64 v (p_url p))%N)
  end.
Proof.
  intros Hok. destruct (reader_for digest64 g ns v) as [p|] eqn:Er;
    rewrite reader_for_candidates in Er; [|by apply max_by_key_None, candidates_nil in Er].
  pose proof (max_by_key_elem _ _ _ Er) as Hin.
  pose proof (candidates_live _ _ _ Hin) as Hl. apply elem_of_live in Hl as (H1 & H2 & H3 & H4).
  assert (Hmax : forall q, q ∈ candidates g ns -> (weigh digest64 v (p_url q) <= weigh digest64 v (p_url p))%N).
  { apply max_by_key_spec in Er as (l1 & l2 & -> & F1 & F2). rewrite Forall_forall in F1, F2.
    intros q [Hq|[->|Hq]%elem_of_cons]%elem_of_app; [by apply F1|done|]. apply N.lt_le_incl. by apply F2. }
  split_and!; try done; unfold candidates in *;
    destruct (filter _ (live_holders g ns)) as [|x l] eqn:Ec; cbn [is_empty] in *.
  - intros q Hq Hb. exfalso. assert (Hf : q ∈ filter (fun p => p_url p ∉ behind g) (live_holders g ns))
      by by apply list_elem_of_filter. rewrite Ec in Hf. by apply elem_of_nil in Hf.
  - intros q Hq Hb. split; [|apply Hmax; rewrite <- Ec; by apply list_elem_of_filter].
    rewrite <- Ec in Hin. by apply list_elem_of_filter in Hin as [? _].
  - intros _. exact Hmax.
  - intros Hb. rewrite <- Ec in Hin. by apply list_elem_of_filter in Hin as [? _].
Qed.

(** A value keeps its mirror: removing any other peer, or taking any other
    peer out of service, leaves the choice where it was, and adding a peer
    moves a value either nowhere or to the new peer. *)
Theorem reader_sticky `{HashOrder} digest64 g ns v p :
  galaxy_ok g -> reader_for digest64 g ns v = Some p ->
  (forall url, clean_url url <> p_url p ->
     reader_for digest64 (remove_peer g url).1 ns v = Some p
     /\ reader_for digest64 (set_enabled g url false).1 ns v = Some p)
  /\ (forall q own q', (add_peer g q own).2 = inl q' ->
       reader_for digest64 (add_peer g q own).1 ns v = Some p
       \/ reader_for digest64 (add_peer g q own).1 ns v = Some q').
Proof.
  intros Hok Hr. split.
  - intros url Hu.
    assert (Hok1 : galaxy_ok (remove_peer g url).1) by (eapply step_ok; [exact Hok|constructor]).
    assert (Hok2 : galaxy_ok (set_enabled g url false).1) by (eapply step_ok; [exact Hok|constructor]).
    destruct (remove_peer_shape g url) as (Ep & _ & _ & _ & Eh).
    split; apply (reader_without digest64 g _ ns v p (clean_url url)); try done.
    + apply live_without; [by rewrite Ep|done].
    + by apply behind_without.
    + apply live_without; [by apply set_enabled_false_peers|by apply set_enabled_health].
    + apply behind_without; [done..|]. by apply set_enabled_health.
  - intros q own q'. unfold add_peer. cbv zeta.
    repeat match goal with |- (if ?b then _ else _).2 = _ -> _ => destruct b; [done|] end.
    simpl. intros [= <-]. by apply reader_snoc.
Qed.

(** ** On a small galaxy *)
Definition demo_raw : RawGalaxy :=
  mkRawGalaxy [mkRawPeer (lit "http://a:9999/") (lit "ka") None None;
               mkRawPeer (lit "http://b:9999") (lit "kb") (Some [lit "feeds"]) None]
    [mkRawPeer (lit "http://c:9999") (lit "kc") None (Some false)] 4 30 300 3600 3600 false false true.
Definition demo_settings : GalaxySettings :=
  match galaxy_settings demo_raw with
  | inl s => s
  | inr _ => mkGalaxySettings [] 0 0 0 0 false false false 0 []
  end.
Definition demo_galaxy : Galaxy := galaxy_new demo_settings.
Definition demo_digest (s : str) : N := foldl N.add 0%N s.
Definition demo_down : Galaxy := galaxy_record (9 * NANOS) demo_galaxy (lit "http://a:9999") (inr (lit "refused")).

Lemma demo_settings_ok : galaxy_settings demo_raw = inl demo_settings.
Proof. reflexivity. Qed.

Lemma demo_galaxy_ok : galaxy_ok demo_galaxy.
Proof. by apply (galaxy_new_ok demo_raw). Qed.

Lemma galaxy_stays_ok_witness : galaxy_ok (set_enabled demo_down (lit "http://c:9999") true).1.
Proof.
  apply (galaxy_stays_ok demo_raw demo_settings).
  - reflexivity.
  - vm_compute. discriminate.
  - eapply rtc_l; [|eapply rtc_l; [|apply rtc_refl]].
    + apply (step_probe demo_galaxy (9 * NANOS) (lit "http://a:9999") (inr (lit "refused"))).
    + apply step_enable.
Defined.

Lemma reader_exact_witness :
  let O := some_order in
  p_url <$> reader_for demo_digest demo_galaxy (lit "feeds/misp") (lit "x") = Some (lit "http://b:9999")
  /\ holds (from_prefixes [lit "feeds"]) (lit "feeds/misp") = true.
Proof.
  intros O. split; [reflexivity|].
  exact (proj1 (proj2 (proj2 (@reader_exact O demo_digest demo_galaxy (lit "feeds/misp") (lit "x") demo_galaxy_ok)))).
Defined.

Lemma reader_sticky_witness :
  let O := some_order in
  p_url <$> reader_for demo_digest (remove_peer demo_galaxy (lit " http://a:9999/ ")).1 (lit "feeds/misp") (lit "x")
  = Some (lit "http://b:9999").
Proof.
  intros O.
  rewrite (proj1 (proj1 (@reader_sticky O demo_digest demo_galaxy (lit "feeds/misp") (lit "x")
    (mkPeer (lit "http://b:9999") (lit "kb") (from_prefixes [lit "feeds"]) true) demo_galaxy_ok eq_refl)
    (lit " http://a:9999/ ") ltac:(by vm_compute))).
  reflexivity.
Defined.

(** Putting a peer where it already is changes nothing but what is known of its
    health, which is forgotten: a mirror known to be down counts as usable
    again until it is next probed. *)
Lemma enabling_twice_forgets_health :
  let g := (set_enabled demo_down (lit "http://a:9999") true).1 in
  g_peers g = g_peers demo_down
  /\ (p_url <$> live_holders demo_down (lit "news") = [])
  /\ (p_url <$> live_holders g (lit "news") = [lit "http://a:9999"]).
Proof. by vm_compute. Qed.

(** A key is written into the peers file as it stands, so a key with a quote and
    line breaks in it renders the same file as two peers do. *)
Lemma peers_file_ambiguous :
  let a := mkPeer (lit "http://a") (lit "k" ++ [QUOTE; NEWLINE; NEWLINE] ++ lit "[[peers]]" ++ [NEWLINE]
             ++ lit "url = " ++ quoted (lit "http://b") ++ [NEWLINE] ++ lit "key = " ++ QUOTE :: lit "x")
             store_everything true in
  let b := mkPeer (lit "http://b") (lit "x") store_everything true in
  (exists g, galaxy_ok g /\ (add_peer g a (lit "127.0.0.1:1")).2 = inl a)
  /\ peers_to_toml [a] = peers_to_toml [mkPeer (lit "http://a") (lit "k") store_everything true; b].
Proof. intros a b. split; [exists demo_galaxy; split; [apply demo_galaxy_ok|by vm_compute]|by vm_compute]. Qed.
