(* ===== verification/Config.v ===== *)
(** * The configuration file

    Models [src/src/config.rs] beyond the galaxy's peers (which [Peers] has):
    the sections of the file with the defaults [serde] fills in, their
    conversion into the settings the program runs with, the files they name,
    and [default_apikey] and [build_acl] of [src/src/main.rs], which decide the
    keys a server starts with.

    A section is modelled as what was written in it, an [option] per key that
    may be left out.  Reading TOML is the [toml] crate's: [TomlFiles] stands for
    it, after the shapes the source deserializes into.  [Disk] is what a path
    holds, and [absolute] is [std::path::absolute], which asks the process for
    its working directory.  Errors keep what is wrong and leave out the name of
    the file that [anyhow] adds. *)

From stdpp Require Import base numbers list strings gmap sorting.
From S2P Require Import Prelude Text Paths Acl Tags Tier DnsName Peers.

(** ** What the rest of the program sees *)

Record TlsSettings := mkTls { tls_cert : str; tls_key : str }.

Record DnsSettings := mkDns {
  ds_listen : str;
  ds_zone : str;
  ds_ttl : Z;
  ds_rate_limit : Z;
  ds_threads : nat;
  ds_shadow : bool;
  ds_exposed : list Exposed;
}.

(** [ingest::Format] *)
Inductive Format := Misp | Native.
#[export] Instance Format_eq_dec : EqDecision Format.
Proof. solve_decision. Defined.

Definition format_parse (raw : str) : option Format :=
  let s := to_ascii_lowercase (trim raw) in
  if bool_decide (s = lit "misp") then Some Misp
  else if bool_decide (s = lit "native") then Some Native
  else None.

(** [ingest::misp::Mapping] *)
Record MispMapping := mkMispMapping {
  mm_types : gmap str str;
  mm_default_namespace : option str;
  mm_require_to_ids : bool;
  mm_hashed_namespace : option str;
  mm_store_values : bool;
}.

(** [ingest::Settings] *)
Record ZmqSettings := mkZmq {
  zs_endpoint : str;
  zs_topics : list str;
  zs_format : Format;
  zs_mapping : MispMapping;
  zs_ttl : Z;
  zs_reconnect : Z;
}.

(** [ingest::stix::Mapping] *)
Record StixMapping := mkStixMapping { sm_types : gmap str str; sm_default_namespace : option str }.

(** [stix::Settings] *)
Record Publisher := mkPublisher { pub_identity : str; pub_identity_class : str }.
Definition default_publisher : Publisher := mkPublisher (lit "SightingDB") (lit "system").

Record StixSettings := mkStixSettings { st_mapping : StixMapping; st_ttl : Z; st_export : Publisher }.
Definition default_stix : StixSettings := mkStixSettings (mkStixMapping ∅ None) 0 default_publisher.

(** [covers] of [config.rs]: the namespace itself or one below it. *)
Definition mapped_covers (mapped namespace : str) : bool :=
  let mapped := trim_slashes mapped in
  bool_decide (namespace = mapped) || below mapped namespace.

(** [StixSettings::type_of_namespace]: the map is walked in its own order, and of
    several longest names the last one met wins. *)
Definition type_of_namespace `{HashOrder} (s : StixSettings) (namespace : str) : option str :=
  fst <$> max_by_key (fun p => N.of_nat (str_len p.2))
            (filter (fun p => mapped_covers p.2 namespace = true) (hash_iter (sm_types (st_mapping s)))).

Record Settings := mkSettings {
  s_http_enabled : bool;
  s_listen : str;
  s_authenticate : bool;
  s_daemonize : bool;
  s_tls : option TlsSettings;
  s_post_limit : Z;
  s_log_out : str;
  s_log_err : str;
  s_dbdir : option str;
  s_snapshot_interval : Z;
  s_compression_level : Z;
  s_sweep_interval : Z;
  s_stats_retention : Z;
  s_shadow_ttl : Z;
  s_rejection_log : Z;
  s_activity : bool;
  s_latest_writes : Z;
  s_node_id : str;
  s_acl : option Acl;
  s_acl_file : option str;
  s_tags : Vocabulary;
  s_tags_file : option str;
  s_tiers : TierPolicy;
  s_tiers_file : option str;
  s_dns : option DnsSettings;
  s_zmq : option ZmqSettings;
  s_stix : StixSettings;
  s_storage : StoragePolicy;
  s_galaxy : option GalaxySettings;
  s_peers_file : option str;       (** [GalaxySettings::peers_file] *)
}.

(** ** The file's own shape *)

(** [[daemon]] *)
Record DaemonTable := mkDaemonTable {
  dt_enabled : option bool;
  dt_listen_ip : option str;
  dt_listen_port : option Z;
  dt_authenticate : option bool;
  dt_daemonize : option bool;
  dt_ssl : option bool;
  dt_ssl_cert : option str;
  dt_ssl_key : option str;
  dt_post_limit : option Z;
  dt_log_out : option str;
  dt_log_err : option str;
  dt_dbdir : option str;
  dt_snapshot_interval : option Z;
  dt_compression_level : option Z;
  dt_sweep_interval : option Z;
  dt_stats_retention : option Z;
  dt_shadow_ttl : option Z;
  dt_rejection_log : option Z;
  dt_activity : option bool;
  dt_latest_writes : option Z;
  dt_node_id : option str;
  dt_acl_file : option str;
  dt_tags_file : option str;
}.
Definition empty_daemon : DaemonTable :=
  mkDaemonTable None None None None None None None None None None None None None None None None None None None None
    None None None.

Record RawDaemon := mkRawDaemon {
  rd_enabled : bool;
  rd_listen_ip : str;
  rd_listen_port : Z;
  rd_authenticate : bool;
  rd_daemonize : bool;
  rd_ssl : bool;
  rd_ssl_cert : option str;
  rd_ssl_key : option str;
  rd_post_limit : Z;
  rd_log_out : str;
  rd_log_err : str;
  rd_dbdir : option str;
  rd_snapshot_interval : Z;
  rd_compression_level : Z;
  rd_sweep_interval : Z;
  rd_stats_retention : Z;
  rd_shadow_ttl : Z;
  rd_rejection_log : Z;
  rd_activity : bool;
  rd_latest_writes : Z;
  rd_node_id : option str;
  rd_acl_file : option str;
  rd_tags_file : option str;
}.

Definition DEFAULT_POST_LIMIT : Z := 2500000000.
Definition dev_null : str := lit "/dev/null".
Definition default_listen_ip : str := lit "0.0.0.0".
Definition default_listen_port : Z := 9999.
Definition default_snapshot_interval : Z := 300.
(** [persistence::default_level], [rejections] and [latest::DEFAULT_CAPACITY] *)
Definition default_compression_level : Z := 3.
Definition default_sweep_interval : Z := 60.
Definition default_rejection_log : Z := 1000.
Definition default_latest_writes : Z := 10000.

(** A key that is left out of the table gets the default its attribute names. *)
Definition daemon_of (t : DaemonTable) : RawDaemon :=
  mkRawDaemon (default true (dt_enabled t)) (default default_listen_ip (dt_listen_ip t))
    (default default_listen_port (dt_listen_port t)) (default true (dt_authenticate t))
    (default false (dt_daemonize t)) (default true (dt_ssl t)) (dt_ssl_cert t) (dt_ssl_key t)
    (default DEFAULT_POST_LIMIT (dt_post_limit t)) (default dev_null (dt_log_out t)) (default dev_null (dt_log_err t))
    (dt_dbdir t) (default default_snapshot_interval (dt_snapshot_interval t))
    (default default_compression_level (dt_compression_level t)) (default default_sweep_interval (dt_sweep_interval t))
    (default 0%Z (dt_stats_retention t)) (default 0%Z (dt_shadow_ttl t)) (default default_rejection_log (dt_rejection_log t))
    (default true (dt_activity t)) (default default_latest_writes (dt_latest_writes t))
    (dt_node_id t) (dt_acl_file t) (dt_tags_file t).

(** A table that is left out is [RawDaemon::default()], which is derived. *)
Definition no_daemon : RawDaemon :=
  mkRawDaemon false [] 0 false false false None None 0 [] [] None 0 0 0 0 0 0 false 0 None None None.

(** [[galaxy]] *)
Record GalaxyTable := mkGalaxyTable {
  gt_peers : list RawPeer;
  gt_peers_file : option str;
  gt_max_hops : option Z;
  gt_health_interval : option Z;
  gt_sync_interval : option Z;
  gt_reconcile_interval : option Z;
  gt_gossip_interval : option Z;
  gt_acl_authority : option bool;
  gt_acl_replaceable : option bool;
  gt_verify_tls : option bool;
}.
Definition default_max_hops : Z := 4.
Definition default_health_interval : Z := 30.
Definition default_sync_interval : Z := 300.
Definition default_reconcile_interval : Z := 3600.
Definition default_gossip_interval : Z := 600.

(** [[storage]] *)
Record StorageTable := mkStorageTable {
  sg_default_tier : option str;
  sg_warm_idle : option Z;
  sg_tiers : gmap str toml_value;
  sg_tiers_file : option str;
  sg_namespaces : option (list str);
}.
Definition default_tier_name : str := lit "hot".
Definition default_warm_idle : Z := 3600.

(** [[dns]] *)
Record RawExposed := mkRawExposed { re_namespace : str; re_encoding : str }.
Record DnsTable := mkDnsTable {
  nt_enabled : option bool;
  nt_listen_ip : option str;
  nt_listen_port : option Z;
  nt_zone : str;
  nt_ttl : option Z;
  nt_rate_limit : option Z;
  nt_threads : option nat;
  nt_shadow : option bool;
  nt_namespaces : gmap str RawExposed;
}.
Definition default_dns_ip : str := lit "127.0.0.1".
Definition default_dns_port : Z := 5353.
Definition default_dns_ttl : Z := 60.
Definition default_rate_limit : Z := 100.
Definition default_dns_threads : nat := 2.

(** [[zmq]] *)
Record ZmqTable := mkZmqTable {
  zt_enabled : option bool;
  zt_endpoint : str;
  zt_topics : list str;
  zt_format : option str;
  zt_require_to_ids : option bool;
  zt_default_namespace : option str;
  zt_ttl : option Z;
  zt_reconnect : option Z;
  zt_types : option toml_value;
  zt_hashed_namespace : option str;
  zt_store_values : option bool;
}.
Definition default_format : str := lit "misp".
Definition default_reconnect : Z := 5.

(** [[stix]] *)
Record StixTable := mkStixTable {
  xt_default_namespace : option str;
  xt_ttl : option Z;
  xt_types : option toml_value;
  xt_identity : option str;
  xt_identity_class : option str;
}.

Record RawConfig := mkRawConfig {
  rc_daemon : option DaemonTable;
  rc_acl : option (gmap str str);
  rc_storage : option StorageTable;
  rc_galaxy : option GalaxyTable;
  rc_dns : option DnsTable;
  rc_zmq : option ZmqTable;
  rc_stix : option StixTable;
}.

(** ** Files *)
Class ConfigFiles := {
  absolute : str -> option str;
  path_exists : str -> bool;
  read_to_string : str -> option str;
  toml_tiers : str -> option TierFile;
  toml_acl : str -> option (gmap str str);
  toml_tags : str -> option (gmap str Tag);
  toml_peers : str -> option (list RawPeer);
  SEED : str;                      (** [etc/tags.toml], compiled in *)
}.

(** [Path::parent] of a path that ends in a file's name *)
Definition path_parent (path : str) : str :=
  match rsplit_once SLASH path with
  | Some (dir, _) => let d := trim_end_char SLASH dir in if is_empty d then [SLASH] else d
  | None => []
  end.

(** [Path::join] with a relative path *)
Definition path_join (base value : str) : str :=
  if is_empty base || ends_with [SLASH] base then base ++ value else base ++ [SLASH] ++ value.

Definition resolve_path `{ConfigFiles} (base value : str) : str :=
  let joined := if starts_with [SLASH] value then value else path_join base value in
  default joined (absolute joined).

(** ** Conversion *)
Inductive ConfigError :=
  | NoCert
  | NoTlsKey
  | BadStorage (e : NameError)
  | NodeIdTooLong
  | NodeIdCharacters
  | InGalaxy (e : GalaxyError)
  | TiersUnreadable
  | InTiers (e : TierError)
  | AclUnreadable
  | InAcl (key : str) (e : GrantError)
  | EmptyZone
  | ExposesInternal (label namespace : str)
  | BadEncoding (label : str)
  | BadFormat
  | EntryIsTable (key : str)
  | EntryNotString (key : str)
  | TargetsInternal (key namespace : str)
  | OptionInternal (namespace : str)
  | NothingRecorded
  | OnlyForMisp
  | NothingToDo.

(** [?] *)
Notation "'let!' x := e 'in' k" :=
  (match e with inl x => k | inr err => inr err end) (at level 200, x name, e at level 200, k at level 200).

Section Conversion.
Context `{HashOrder} `{ConfigFiles}.

(** [RawStorage::to_policy] *)
Definition tier_name (namespace : str) : str := trim_slashes (trim namespace).
Fixpoint tier_entries (acc : gmap str Entry) (l : list (str * toml_value)) : gmap str Entry + ConfigError :=
  match l with
  | [] => inl acc
  | (namespace, v) :: rest =>
      match parse_entry v with
      | inl e => tier_entries (<[tier_name namespace := e]> acc) rest
      | inr err => inr (InTiers err)
      end
  end.
Definition to_policy (s : StorageTable) : TierPolicy + ConfigError :=
  let! es := tier_entries ∅ (hash_iter (sg_tiers s)) in
  match tier_parse (default default_tier_name (sg_default_tier s)) with
  | inl t => inl (mkTierPolicy t es (default default_warm_idle (sg_warm_idle s)))
  | inr err => inr (InTiers err)
  end.

(** [TierPolicy::load] from a path *)
Definition load_tiers (path : str) : TierPolicy + ConfigError :=
  match read_to_string path ≫= toml_tiers with
  | None => inr TiersUnreadable
  | Some f => match load_policy f with inl p => inl p | inr err => inr (InTiers err) end
  end.

Definition storage_tiers (base : str) (storage : option StorageTable) : (TierPolicy * option str) + ConfigError :=
  match storage with
  | None => inl (default_policy, None)
  | Some s =>
      let file := resolve_path base <$> sg_tiers_file s in
      let! p := match file with
                | Some path => if path_exists path then load_tiers path else to_policy s
                | None => to_policy s
                end in
      inl (p, file)
  end.

(** Which namespaces are stored. *)
Definition storage_policy (storage : option StorageTable) : StoragePolicy + ConfigError :=
  let p := match storage ≫= sg_namespaces with Some l => from_prefixes l | None => store_everything end in
  match first_bad_prefix (prefixes p) with Some e => inr (BadStorage e) | None => inl p end.

Definition LOCAL_NODE : str := lit "local".
Definition node_char (c : N) : bool := is_ascii_alphanumeric c || bool_decide (c ∈ lit "-_.").
Definition node_id_of (raw : option str) : str + ConfigError :=
  match trim <$> raw with
  | None | Some [] => inl LOCAL_NODE
  | Some id =>
      if (64 <? str_len id)%nat then inr NodeIdTooLong
      else if negb (forallb node_char id) then inr NodeIdCharacters
      else inl id
  end.

Definition tls_of (base : str) (d : RawDaemon) : option TlsSettings + ConfigError :=
  if rd_ssl d then
    match rd_ssl_cert d, rd_ssl_key d with
    | None, _ => inr NoCert
    | Some _, None => inr NoTlsKey
    | Some cert, Some key => inl (Some (mkTls (resolve_path base cert) (resolve_path base key)))
    end
  else inl None.

(** [load_file_peers], up to the entries. *)
Definition peers_in_file (file : option str) : list RawPeer :=
  match file with
  | None => []
  | Some path => if path_exists path then default [] (read_to_string path ≫= toml_peers) else []
  end.
Definition raw_galaxy (base : str) (t : GalaxyTable) : RawGalaxy :=
  mkRawGalaxy (gt_peers t) (peers_in_file (resolve_path base <$> gt_peers_file t))
    (default default_max_hops (gt_max_hops t)) (default default_health_interval (gt_health_interval t))
    (default default_sync_interval (gt_sync_interval t)) (default default_reconcile_interval (gt_reconcile_interval t))
    (default default_gossip_interval (gt_gossip_interval t)) (default false (gt_acl_authority t))
    (default false (gt_acl_replaceable t)) (default true (gt_verify_tls t)).
Definition galaxy_of (base : str) (t : option GalaxyTable) : option GalaxySettings + ConfigError :=
  match t with
  | None => inl None
  | Some t => match galaxy_settings (raw_galaxy base t) with inl g => inl (Some g) | inr e => inr (InGalaxy e) end
  end.

(** [RawDns::into_settings] *)
Definition trim_dots (s : str) : str := trim_by (fun c => c =? DOT)%N s.
Definition exposed_entry (p : str * RawExposed) : Exposed + ConfigError :=
  let '(l, e) := p in
  if starts_with UNDERSCORE (re_namespace e) then inr (ExposesInternal l (re_namespace e))
  else match encoding_parse (re_encoding e) with
       | Some enc => inl (mkExposed (to_ascii_lowercase (trim l)) (re_namespace e) enc)
       | None => inr (BadEncoding l)
       end.
Fixpoint exposed_entries (l : list (str * RawExposed)) : list Exposed + ConfigError :=
  match l with
  | [] => inl []
  | p :: rest => let! e := exposed_entry p in let! es := exposed_entries rest in inl (e :: es)
  end.
Definition label_le (a b : Exposed) : Prop := str_le (label a) (label b).
#[local] Instance label_le_dec a b : Decision (label_le a b) := decide (str_le (label a) (label b)).

Definition address (ip : str) (port : Z) : str := ip ++ lit ":" ++ decimal port.

Definition dns_of (t : DnsTable) : option DnsSettings + ConfigError :=
  if negb (default true (nt_enabled t)) then inl None
  else
    let zone := to_ascii_lowercase (trim_dots (trim (nt_zone t))) in
    if is_empty zone then inr EmptyZone
    else
      let! exposed := exposed_entries (hash_iter (nt_namespaces t)) in
      inl (Some (mkDns (address (default default_dns_ip (nt_listen_ip t)) (default default_dns_port (nt_listen_port t)))
             zone (default default_dns_ttl (nt_ttl t)) (default default_rate_limit (nt_rate_limit t))
             (default default_dns_threads (nt_threads t)) (default false (nt_shadow t))
             (merge_sort label_le exposed))).

(** [type_map] *)
Definition type_entry (p : str * toml_value) : (str * str) + ConfigError :=
  let '(key, v) := p in
  match v with
  | TString n =>
      let namespace := trim n in
      if starts_with UNDERSCORE namespace then inr (TargetsInternal key namespace) else inl (trim key, namespace)
  | TTable _ => inr (EntryIsTable key)
  | _ => inr (EntryNotString key)
  end.
Fixpoint type_entries (acc : gmap str str) (l : list (str * toml_value)) : gmap str str + ConfigError :=
  match l with
  | [] => inl acc
  | p :: rest => let! e := type_entry p in type_entries (<[e.1 := e.2]> acc) rest
  end.
Definition type_map (v : option toml_value) : gmap str str + ConfigError :=
  match v with Some (TTable l) => type_entries ∅ l | _ => inl ∅ end.

Definition namespace_option (v : option str) : option str + ConfigError :=
  match trim <$> v with
  | None | Some [] => inl None
  | Some namespace => if starts_with UNDERSCORE namespace then inr (OptionInternal namespace) else inl (Some namespace)
  end.

(** [RawZmq::into_settings] *)
Definition zmq_of (t : ZmqTable) : option ZmqSettings + ConfigError :=
  if negb (default true (zt_enabled t)) then inl None
  else
    match format_parse (default default_format (zt_format t)) with
    | None => inr BadFormat
    | Some format =>
        let! types := type_map (zt_types t) in
        let! default_namespace := namespace_option (zt_default_namespace t) in
        let! hashed := namespace_option (zt_hashed_namespace t) in
        let store := default true (zt_store_values t) in
        if negb store && bool_decide (hashed = None) then inr NothingRecorded
        else if negb store && negb (bool_decide (format = Misp)) then inr OnlyForMisp
        else inl (Some (mkZmq (zt_endpoint t) (zt_topics t) format
                     (mkMispMapping types default_namespace (default false (zt_require_to_ids t)) hashed store)
                     (default 0%Z (zt_ttl t)) (default default_reconnect (zt_reconnect t))))
    end.

(** [RawStix::into_settings] *)
Definition given (o : option str) (otherwise : str) : str :=
  match trim <$> o with None | Some [] => otherwise | Some s => s end.
Definition stix_of (t : StixTable) : StixSettings + ConfigError :=
  let! types := type_map (xt_types t) in
  let! default_namespace := namespace_option (xt_default_namespace t) in
  inl (mkStixSettings (mkStixMapping types default_namespace) (default 0%Z (xt_ttl t))
         (mkPublisher (given (xt_identity t) (pub_identity default_publisher))
                      (given (xt_identity_class t) (pub_identity_class default_publisher)))).

(** [Vocabulary::seeded] and [load_tags] *)
Definition seeded : Vocabulary := match toml_tags SEED with Some t => from_toml t | None => ∅ end.
Definition load_tags (file : option str) : Vocabulary :=
  match file with
  | None => seeded
  | Some path =>
      if negb (path_exists path) then seeded
      else match read_to_string path ≫= toml_tags with Some t => from_toml t | None => seeded end
  end.

(** [build_acl] of [config.rs] *)
Fixpoint acl_entries (acc : Acl) (l : list (str * str)) : Acl + ConfigError :=
  match l with
  | [] => inl acc
  | (key, spec) :: rest =>
      match parse_grants spec with
      | inl grants => acl_entries (acl_set acc key grants) rest
      | inr e => inr (InAcl key e)
      end
  end.
Definition acl_of_table (entries : gmap str str) : Acl + ConfigError := acl_entries ∅ (hash_iter entries).
Definition load_acl (inline : option (gmap str str)) (file : option str) : option Acl + ConfigError :=
  match file with
  | Some path =>
      if negb (path_exists path) then inl (Some ∅)
      else match read_to_string path ≫= toml_acl with
           | None => inr AclUnreadable
           | Some parsed => let! a := acl_of_table parsed in inl (Some a)
           end
  | None =>
      match inline with
      | Some entries => let! a := acl_of_table entries in inl (Some a)
      | None => inl None
      end
  end.

(** A section that may be left out *)
Definition optional {T A} (without : A) (convert : T -> A + ConfigError) (t : option T) : A + ConfigError :=
  match t with Some t => convert t | None => inl without end.
Definition is_some {A} (o : option A) : bool := match o with Some _ => true | None => false end.

(** [RawConfig::into_settings] *)
Definition into_settings (c : RawConfig) (path : str) : Settings + ConfigError :=
  let base := path_parent path in
  let d := match rc_daemon c with Some t => daemon_of t | None => no_daemon end in
  let! tls := tls_of base d in
  let! storage := storage_policy (rc_storage c) in
  let! node := node_id_of (rd_node_id d) in
  let! galaxy := galaxy_of base (rc_galaxy c) in
  let! tiers := storage_tiers base (rc_storage c) in
  let acl_file := resolve_path base <$> rd_acl_file d in
  let! acl := load_acl (rc_acl c) acl_file in
  let tags_file := resolve_path base <$> rd_tags_file d in
  let tags := load_tags tags_file in
  let! dns := optional None dns_of (rc_dns c) in
  let! zmq := optional None zmq_of (rc_zmq c) in
  let! stix := optional default_stix stix_of (rc_stix c) in
  if negb (rd_enabled d) && negb (is_some dns) && negb (is_some zmq) then inr NothingToDo
  else inl (mkSettings (rd_enabled d) (address (rd_listen_ip d) (rd_listen_port d)) (rd_authenticate d)
         (rd_daemonize d) tls (rd_post_limit d) (rd_log_out d) (rd_log_err d) (rd_dbdir d)
         (rd_snapshot_interval d) (rd_compression_level d) (rd_sweep_interval d) (rd_stats_retention d)
         (rd_shadow_ttl d) (rd_rejection_log d) (rd_activity d) (rd_latest_writes d) node acl acl_file
         tags tags_file tiers.1 tiers.2 dns zmq stix storage galaxy
         (resolve_path base <$> (rc_galaxy c ≫= gt_peers_file))).
End Conversion.

(** ** The keys a server starts with *)
Definition DEFAULT_APIKEY : str := lit "changeme".

(** [default_apikey] of [main.rs] *)
Definition nonempty (o : option str) : option str := match o with Some [] => None | x => x end.
Definition default_apikey (from_cli from_env : option str) : option str :=
  match nonempty from_cli with Some key => Some key | None => nonempty from_env end.

(** [build_acl] of [main.rs], with the keys an older database stored. *)
Definition startup_acl (settings_acl : option Acl) (legacy : list str) (apikey : option str) : Acl :=
  let acl := match settings_acl with Some a => a | None => foldl grant_full ∅ legacy end in
  let acl := match apikey with Some key => grant_full (acl_remove acl DEFAULT_APIKEY).1 key | None => acl end in
  if bool_decide (acl = ∅) then grant_full acl DEFAULT_APIKEY else acl.
