(* ===== verification/ConfigFacts.v ===== *)
(** * What an accepted configuration promises

    Over [Config]: the settings of any configuration that is accepted are well
    formed, whatever the files it names hold; which observable type a namespace
    is taken to hold; and which keys a server starts with. *)

From stdpp Require Import base numbers list strings gmap sorting.
From S2P Require Import Prelude Text Paths Acl Tags Tier DnsName Peers Config.

(** ** Well-formed settings *)

(** A name that survives as a key of snapshots and merges *)
Definition node_ok (id : str) : Prop := id <> [] /\ str_len id <= 64 /\ Forall (fun c => node_char c = true) id.

(** A namespace the configuration lets a door open on: its name does not begin
    with an underscore, and it is not one of the server's own, as [is_internal]
    judges it by the first segment, unless it begins with a slash. *)
Definition outward (ns : str) : Prop :=
  starts_with UNDERSCORE ns = false /\ (starts_with [SLASH] ns = false -> is_internal ns = false).

Lemma outward_checked ns : starts_with UNDERSCORE ns = false -> outward ns.
Proof.
  intros Hu. split; [done|]. destruct ns as [|x r]; [done|]. unfold is_internal, segments. cbn [split_char].
  intros Hs. destruct (N.eqb_spec x SLASH) as [->|Hx]; [done|].
  destruct (split_char SLASH r) as [|p ps]; (rewrite filter_cons_True by done); cbn [head];
    revert Hu; unfold starts_with, UNDERSCORE; cbn; by destruct (bool_decide _) || by repeat case_match.
Qed.

Definition lower (s : str) : Prop := to_ascii_lowercase s = s.

Record dns_ok (d : DnsSettings) : Prop := {
  zone_named : ds_zone d <> [];
  zone_lower : lower (ds_zone d);
  zone_bare : trim_dots (ds_zone d) = ds_zone d;
  labels_lower : Forall (fun e => lower (label e) /\ outward (ex_namespace e)) (ds_exposed d);
  labels_sorted : StronglySorted label_le (ds_exposed d);
}.

Definition types_ok (m : gmap str str) : Prop := map_Forall (fun _ ns => outward ns /\ trim ns = ns) m.
Definition target_ok (o : option str) : Prop := forall ns, o = Some ns -> outward ns /\ trim ns = ns /\ ns <> [].

Record zmq_ok (z : ZmqSettings) : Prop := {
  zmq_types : types_ok (mm_types (zs_mapping z));
  zmq_default : target_ok (mm_default_namespace (zs_mapping z));
  zmq_hashed : target_ok (mm_hashed_namespace (zs_mapping z));
  zmq_recorded : mm_store_values (zs_mapping z) = false ->
                 zs_format z = Misp /\ is_Some (mm_hashed_namespace (zs_mapping z));
}.

Record stix_ok (s : StixSettings) : Prop := {
  stix_types : types_ok (sm_types (st_mapping s));
  stix_default : target_ok (sm_default_namespace (st_mapping s));
  stix_identity : pub_identity (st_export s) <> [] /\ pub_identity_class (st_export s) <> [];
}.

Definition grants_ok (gs : list Grant) : Prop :=
  gs <> [] /\ Forall (fun g => g = admin \/ (g_admin g = false /\ (g_read g || g_write g) = true)) gs.

Record settings_ok (s : Settings) : Prop := {
  ok_something : s_http_enabled s = true \/ is_Some (s_dns s) \/ is_Some (s_zmq s);
  ok_node : node_ok (s_node_id s);
  ok_storage : Forall (fun p => validate_namespace p = None) (prefixes (s_storage s));
  ok_galaxy : forall g, s_galaxy s = Some g -> galaxy_ok (galaxy_new g);
  ok_dns : forall d, s_dns s = Some d -> dns_ok d;
  ok_zmq : forall z, s_zmq s = Some z -> zmq_ok z;
  ok_stix : stix_ok (s_stix s);
  ok_acl : forall a, s_acl s = Some a -> map_Forall (fun _ gs => grants_ok gs) a;
  ok_acl_file : is_Some (s_acl_file s) -> is_Some (s_acl s);
}.

(** ** The parts *)
Lemma lower_char_idem c : lower_char (lower_char c) = lower_char c.
Proof.
  unfold lower_char. destruct (is_ascii_upper c) eqn:E; [|by rewrite E].
  assert (is_ascii_upper (c + 32) = false) as ->; [|done].
  unfold is_ascii_upper in *. apply andb_true_iff in E as [E1 E2].
  apply N.leb_le in E1, E2. apply andb_false_iff. right. apply N.leb_gt. lia.
Qed.
Lemma lower_lower s : lower (to_ascii_lowercase s).
Proof.
  unfold lower, to_ascii_lowercase. rewrite <- list_fmap_compose. apply list_fmap_ext. intros _ c _. apply lower_char_idem.
Qed.

Lemma first_bad_prefix_None ps : first_bad_prefix ps = None <-> Forall (fun p => validate_namespace p = None) ps.
Proof.
  induction ps as [|p ps IH]; [by split|]. cbn. rewrite Forall_cons, <- IH.
  destruct (validate_namespace p); naive_solver.
Qed.

Lemma node_id_of_ok raw id : node_id_of raw = inl id -> node_ok id.
Proof.
  unfold node_id_of. assert (Hl : node_ok LOCAL_NODE).
  { split; [done|]. split; [by vm_compute; lia|]. repeat (constructor; [done|]). constructor. }
  destruct (trim <$> raw) as [[|c s]|]; [by intros [= <-]| |by intros [= <-]].
  destruct (64 <? _) eqn:E1; [done|]. destruct (forallb _ _) eqn:E2; [|done]. intros [= <-].
  apply Nat.ltb_ge in E1. split; [done|]. split; [done|]. apply Forall_forall. intros x Hx.
  rewrite forallb_forall in E2. by apply E2, list_elem_of_In.
Qed.

#[local] Instance label_le_trans : Transitive label_le.
Proof. intros a b c. unfold label_le. apply transitivity. Qed.
#[local] Instance label_le_total : Total label_le.
Proof. intros a b. apply (total str_le). Qed.

Section Parts.
Context `{HashOrder} `{ConfigFiles}.

Lemma exposed_entry_ok p e : exposed_entry p = inl e -> lower (label e) /\ outward (ex_namespace e).
Proof.
  destruct p as [l r]. unfold exposed_entry. destruct (starts_with _ _) eqn:E; [done|].
  destruct (encoding_parse _); [|done]. intros [= <-]. cbn. split; [apply lower_lower|by apply outward_checked].
Qed.

Lemma exposed_entries_ok l es :
  exposed_entries l = inl es -> Forall (fun e => lower (label e) /\ outward (ex_namespace e)) es.
Proof.
  revert es. induction l as [|p l IH]; intros es; cbn; [by intros [= <-]|].
  destruct (exposed_entry p) as [e|] eqn:E; [|done]. destruct (exposed_entries l) as [es'|]; [|done].
  intros [= <-]. constructor; [by eapply exposed_entry_ok|by apply IH].
Qed.

Lemma lower_dot c : (c =? DOT)%N = false -> (lower_char c =? DOT)%N = false.
Proof.
  unfold lower_char. destruct (is_ascii_upper c) eqn:E; [|done]. intros _. apply N.eqb_neq.
  unfold is_ascii_upper in E. apply andb_true_iff in E as [E _]. apply N.leb_le in E. unfold DOT. lia.
Qed.

Lemma trim_dots_lower s : trim_dots (to_ascii_lowercase (trim_dots s)) = to_ascii_lowercase (trim_dots s).
Proof.
  apply trim_by_id. destruct (trim_by_trimmed (fun c => c =? DOT)%N s) as [Hh Hl]. split; intros x r E.
  - apply fmap_cons_inv in E as (y & t & -> & _ & E). by eapply lower_dot, Hh.
  - apply fmap_app_inv in E as (t & u & _ & E & Et). symmetry in E.
    apply fmap_cons_inv in E as (y & v & -> & E & ->). symmetry in E. apply fmap_nil_inv in E as ->.
    by eapply lower_dot, Hl.
Qed.

Lemma dns_of_ok t d : dns_of t = inl (Some d) -> dns_ok d.
Proof.
  unfold dns_of. destruct (negb _); [done|]. destruct (is_empty _) eqn:Ez; [done|].
  destruct (exposed_entries _) as [es|] eqn:Ee; [|done]. intros [= <-]. constructor; cbn.
  - by destruct (to_ascii_lowercase _).
  - apply lower_lower.
  - apply trim_dots_lower.
  - rewrite merge_sort_Permutation. by eapply exposed_entries_ok.
  - apply (StronglySorted_merge_sort label_le).
Qed.

Lemma type_entry_ok p e : type_entry p = inl e -> outward e.2 /\ trim e.2 = e.2.
Proof.
  destruct p as [k v]. unfold type_entry. destruct v; try done.
  destruct (starts_with _ _) eqn:E; [done|]. intros [= <-]. split; [by apply outward_checked|apply trim_idemp].
Qed.

Lemma type_entries_ok acc l m : types_ok acc -> type_entries acc l = inl m -> types_ok m.
Proof.
  revert acc. induction l as [|p l IH]; intros acc Ha; cbn; [by intros [= <-]|].
  destruct (type_entry p) as [e|] eqn:E; [|done]. apply IH. apply map_Forall_insert_2; [|done].
  by eapply type_entry_ok.
Qed.

Lemma type_map_ok v m : type_map v = inl m -> types_ok m.
Proof.
  unfold type_map. destruct v as [[| | | | | |l]|]; try (intros [= <-]; apply map_Forall_empty).
  apply type_entries_ok, map_Forall_empty.
Qed.

Lemma namespace_option_ok v o : namespace_option v = inl o -> target_ok o.
Proof.
  unfold namespace_option, target_ok. destruct v as [s|]; cbn; [|by intros [= <-]].
  destruct (trim s) as [|c r] eqn:Et; [by intros [= <-]|].
  destruct (starts_with _ _) eqn:E; [done|]. intros [= <-] ns [= <-].
  split; [by apply outward_checked|]. split; [|done]. rewrite <- Et. apply trim_idemp.
Qed.

Lemma zmq_of_ok t z : zmq_of t = inl (Some z) -> zmq_ok z.
Proof.
  unfold zmq_of. destruct (negb _); [done|]. destruct (format_parse _) as [f|]; [|done].
  destruct (type_map _) as [m|] eqn:Em; [|done]. destruct (namespace_option (zt_default_namespace t)) as [d|] eqn:Ed; [|done].
  destruct (namespace_option (zt_hashed_namespace t)) as [h|] eqn:Eh; [|done].
  destruct (negb _ && bool_decide _) eqn:E1; [done|]. destruct (negb _ && negb _) eqn:E2; [done|].
  intros [= <-]. constructor; cbn; [by eapply type_map_ok|by eapply namespace_option_ok..|].
  intros Hs. rewrite Hs in E1, E2. cbn in E1, E2. apply bool_decide_eq_false in E1.
  apply negb_false_iff, bool_decide_eq_true in E2. split; [done|]. by destruct h.
Qed.

Lemma given_nonempty o s : s <> [] -> given o s <> [].
Proof. unfold given. intros Hs. by destruct (trim <$> o) as [[|]|]. Qed.

Lemma stix_of_ok t s : stix_of t = inl s -> stix_ok s.
Proof.
  unfold stix_of. destruct (type_map _) as [m|] eqn:Em; [|done].
  destruct (namespace_option _) as [d|] eqn:Ed; [|done]. intros [= <-].
  constructor; cbn; [by eapply type_map_ok|by eapply namespace_option_ok|split; by apply given_nonempty].
Qed.

Lemma acl_entries_ok acc l a :
  map_Forall (fun _ gs => grants_ok gs) acc -> acl_entries acc l = inl a -> map_Forall (fun _ gs => grants_ok gs) a.
Proof.
  revert acc. induction l as [|[k spec] l IH]; intros acc Ha; cbn; [by intros [= <-]|].
  destruct (parse_grants spec) as [gs|] eqn:E; [|done]. apply IH. apply map_Forall_insert_2; [|done].
  by eapply parse_grants_sound.
Qed.

Lemma load_acl_ok inline file o a :
  load_acl inline file = inl o -> o = Some a -> map_Forall (fun _ gs => grants_ok gs) a.
Proof.
  intros Hl ->. revert Hl. unfold load_acl, acl_of_table.
  destruct file as [path|]; [destruct (negb _); [intros [= <-]; apply map_Forall_empty|]|];
    [destruct (_ ≫= _) as [parsed|]; [|done]|destruct inline as [parsed|]; [|done]];
    destruct (acl_entries _ _) eqn:E; try done; intros [= <-]; (eapply acl_entries_ok; [|exact E]; apply map_Forall_empty).
Qed.

Lemma load_acl_file inline file o : load_acl inline file = inl o -> is_Some file -> is_Some o.
Proof.
  unfold load_acl. intros Hl [path ->]. revert Hl. destruct (negb _); [by intros [= <-]|].
  destruct (_ ≫= _); [|done]. destruct (acl_of_table _); [|done]. by intros [= <-].
Qed.

Lemma galaxy_of_ok base t g :
  (forall t', t = Some t' -> (0 <= default default_max_hops (gt_max_hops t'))%Z) ->
  galaxy_of base t = inl (Some g) -> galaxy_ok (galaxy_new g).
Proof.
  intros Hh. unfold galaxy_of. destruct t as [t|]; [|done].
  destruct (galaxy_settings _) eqn:E; [|done]. intros [= <-]. eapply galaxy_new_ok; [exact E|]. by apply Hh.
Qed.

Lemma storage_policy_ok s p : storage_policy s = inl p -> Forall (fun x => validate_namespace x = None) (prefixes p).
Proof. unfold storage_policy. destruct (first_bad_prefix _) eqn:E; [done|]. intros [= <-]. by apply first_bad_prefix_None. Qed.
End Parts.

(** [max_hops] is a [u8]. *)
Definition raw_ok (c : RawConfig) : Prop :=
  forall t, rc_galaxy c = Some t -> (0 <= default default_max_hops (gt_max_hops t))%Z.

(** One [?] after another: what each part returned. *)
Ltac checked :=
  repeat match goal with
         | |- (match ?e with inl _ => _ | inr _ => _ end = _) -> _ => let E := fresh "E" in destruct e eqn:E; [|done]
         end.

(** ** Properties *)

(** C29: an accepted configuration is a sound one.  Whatever the file says and
    whatever the files it names hold, settings that are accepted serve something;
    name the node with characters that survive in snapshots; store only names
    that are namespaces; give a well-formed galaxy; expose over DNS and feed from
    ZMQ and STIX only namespaces whose names do not begin with an underscore,
    none of the server's own therefore but those spelled with a slash in front
    ([slashed_internal_accepted]), under a proper zone and sorted lower-case
    labels; record something of every feed; and hold only grants that grant
    something. *)
Theorem settings_sound `{HashOrder, ConfigFiles} c path s :
  raw_ok c -> into_settings c path = inl s -> settings_ok s.
Proof.
  intros Hraw. unfold into_settings. checked.
  destruct (negb _ && _ && _) eqn:En; [done|]. intros [= <-]. constructor; cbn.
  - destruct (rd_enabled _); [by left|]. right. revert En.
    match goal with |- context [is_some ?d] => destruct d as [x|]; [by left; eexists|] end.
    match goal with |- context [is_some ?z] => destruct z as [x|]; [by right; eexists|] end. done.
  - by eapply node_id_of_ok.
  - by eapply storage_policy_ok.
  - intros g ->. by eapply galaxy_of_ok.
  - intros d ->. destruct (rc_dns c); [by eapply dns_of_ok|done].
  - intros z ->. destruct (rc_zmq c); [by eapply zmq_of_ok|done].
  - destruct (rc_stix c); cbn in *; simplify_eq; [by eapply stix_of_ok|].
    constructor; [apply map_Forall_empty|done|done].
  - intros a Ha. by eapply load_acl_ok.
  - intros Hf. by eapply load_acl_file.
Qed.

(** A machine with no files at all, and a configuration with a bit of everything. *)
Definition no_files : ConfigFiles :=
  {| absolute p := Some p; path_exists _ := false; read_to_string _ := None; toml_tiers _ := None;
     toml_acl _ := None; toml_tags _ := None; toml_peers _ := None; SEED := [] |}.
Definition demo_config : RawConfig :=
  mkRawConfig
    (Some (mkDaemonTable None None None None None (Some false) None None None None None None None None None None None
             None None None (Some (lit " node-1 ")) (Some (lit "acl.toml")) None))
    None
    (Some (mkStorageTable (Some (lit "warm")) None {[ lit "/archive/" := TString (lit "cold") ]} None
             (Some [lit "/feeds/"; lit "org"])))
    (Some (mkGalaxyTable [mkRawPeer (lit "https://b:9999/") (lit "kb") None None] None None None None None None None None None))
    (Some (mkDnsTable None None None (lit ".Sightings.Example.") None None None None
             {[ lit "IPS" := mkRawExposed (lit "feeds/ips") (lit "ip") ]}))
    (Some (mkZmqTable None (lit "tcp://misp:50000") [] None None None None None None (Some (lit " hashed ")) (Some false)))
    (Some (mkStixTable None None (Some (TTable [(lit "ipv4-addr", TString (lit "feeds/ips"))])) (Some (lit "  ")) None)).

(** The daemon of [demo_config] is accepted, under the name its file gives it. *)
Lemma settings_sound_witness :
  let O := some_order in let F := no_files in
  exists s, into_settings demo_config (lit "/etc/sightingdb/sightingdb.toml") = inl s
    /\ s_node_id s = lit "node-1" /\ s_acl_file s = Some (lit "/etc/sightingdb/acl.toml") /\ settings_ok s.
Proof.
  intros O F.
  destruct (into_settings demo_config (lit "/etc/sightingdb/sightingdb.toml")) as [s|e] eqn:E;
    [|vm_compute in E; discriminate].
  exists s. split; [done|].
  assert (s_node_id s = lit "node-1" /\ s_acl_file s = Some (lit "/etc/sightingdb/acl.toml")) as [? ?].
  { revert E. vm_compute. intros [= <-]. by split. }
  split; [done|]. split; [done|].
  refine (@settings_sound O F demo_config (lit "/etc/sightingdb/sightingdb.toml") s _ E).
  intros t [= <-]. by vm_compute.
Defined.

(** A name with a slash before the underscore is one of the server's own to
    [is_internal], which the writing handlers ask, and accepted by every section
    of the configuration that refuses those. *)
Theorem slashed_internal_accepted name enc :
  let ns := SLASH :: UNDERSCORE ++ name in
  is_internal ns = true
  /\ (forall l e, encoding_parse enc = Some e ->
        exposed_entry (l, mkRawExposed ns enc) = inl (mkExposed (to_ascii_lowercase (trim l)) ns e))
  /\ (trim ns = ns -> forall key, type_entry (key, TString ns) = inl (trim key, ns) /\ namespace_option (Some ns) = inl (Some ns)).
Proof.
  intros ns. split_and!.
  - unfold ns, UNDERSCORE. unfold is_internal, segments. cbn. by destruct (split_char SLASH name).
  - intros l e He. unfold exposed_entry. cbn. by rewrite He.
  - intros Ht key. unfold type_entry, namespace_option. cbn [fmap option_fmap option_map]. by rewrite Ht.
Qed.

(** ** The observable type of a namespace *)

(** What a namespace is taken to hold comes from the longest of the configured
    namespaces at or above it, and nothing when there is none. *)
Lemma type_of_namespace_spec `{HashOrder} s ns :
  match type_of_namespace s ns with
  | None => forall t m, sm_types (st_mapping s) !! t = Some m -> mapped_covers m ns = false
  | Some t =>
      exists m, sm_types (st_mapping s) !! t = Some m /\ mapped_covers m ns = true
        /\ forall t' m', sm_types (st_mapping s) !! t' = Some m' -> mapped_covers m' ns = true -> str_len m' <= str_len m
  end.
Proof.
  unfold type_of_namespace. destruct (max_by_key _ _) as [[t m]|] eqn:E; cbn.
  - pose proof (max_by_key_elem _ _ _ E) as [Hc Hin]%list_elem_of_filter. cbn in Hc.
    apply elem_of_hash_iter in Hin. exists m. split; [done|]. split; [done|]. intros t' m' Ht Hm.
    apply max_by_key_spec in E as (l1 & l2 & El & F1 & F2).
    assert (Hi : (t', m') ∈ l1 ++ (t, m) :: l2).
    { rewrite <- El. apply list_elem_of_filter. split; [done|]. by apply elem_of_hash_iter. }
    rewrite Forall_forall in F1, F2. apply elem_of_app in Hi as [Hi|[[= -> ->]|Hi]%elem_of_cons]; [|done|].
    + apply F1 in Hi. cbn [snd] in Hi. lia.
    + apply F2 in Hi. cbn [snd] in Hi. lia.
  - apply max_by_key_None in E. intros t m Ht. apply not_true_iff_false. intros Hm.
    assert (Hi : (t, m) ∈ []); [|by apply elem_of_nil in Hi].
    rewrite <- E. apply list_elem_of_filter. split; [done|]. by apply elem_of_hash_iter.
Qed.

(** The same order, backwards. *)
Definition reverse_order (O : HashOrder) : HashOrder.
Proof.
  refine {| hash_iter V m := reverse (@hash_iter O V m); hash_elems s := reverse (@hash_elems O s) |}.
  - intros V m. by rewrite reverse_Permutation, hash_iter_perm.
  - intros s. by rewrite reverse_Permutation, hash_elems_perm.
Defined.

Definition both_addresses : StixSettings :=
  mkStixSettings (mkStixMapping {[ lit "ipv4-addr" := lit "feeds/ips"; lit "ipv6-addr" := lit "feeds/ips" ]} None)
    0 default_publisher.

(** Two types configured for one namespace: which of them it is taken to hold is
    up to the order of the hash map, which is another one in every process. *)
Lemma type_depends_on_hashing :
  exists O1 O2 : HashOrder,
    @type_of_namespace O1 both_addresses (lit "feeds/ips") = Some (lit "ipv4-addr")
    /\ @type_of_namespace O2 both_addresses (lit "feeds/ips") = Some (lit "ipv6-addr").
Proof.
  destruct (decide (@type_of_namespace some_order both_addresses (lit "feeds/ips") = Some (lit "ipv4-addr"))) as [E|E].
  - exists some_order, (reverse_order some_order). split; [done|by vm_compute].
  - exists (reverse_order some_order), some_order. split; by vm_compute in E |- *.
Qed.

(** ** The keys a server starts with *)

(** Without [[daemon]] the defaults of its keys do not apply: the interface over
    HTTP is off, and the configuration is refused unless something else is on. *)
Lemma without_daemon_table :
  let O := some_order in let F := no_files in
  into_settings (mkRawConfig None None None None None None None) (lit "s.toml") = inr NothingToDo
  /\ into_settings (mkRawConfig (Some empty_daemon) None None None None None None) (lit "s.toml") = inr NoCert.
Proof. by vm_compute. Qed.

Lemma grant_full_admin a key : is_admin (grant_full a key) key = true /\ forall ns, can_write (grant_full a key) key ns = true /\ can_read (grant_full a key) key ns = true.
Proof.
  unfold is_admin, can_write, can_read, allows, grant_full. rewrite lookup_insert_eq. by split.
Qed.

Lemma grant_full_nonempty a key : grant_full a key <> ∅.
Proof. apply insert_non_empty. Qed.

Lemma legacy_keys l a key : key ∈ l -> foldl grant_full a l !! key = Some [all_data; admin].
Proof.
  revert a. induction l as [|k l IH] using rev_ind; intros a; [by intros ?%elem_of_nil|].
  rewrite elem_of_app, list_elem_of_singleton, foldl_snoc. unfold grant_full at 1.
  destruct (decide (k = key)) as [->|Hk]; [by rewrite lookup_insert_eq|].
  rewrite lookup_insert_ne by done. intros [Hi|Hi]; [by apply IH|congruence].
Qed.

(** A server never starts without a key, and only with the keys it was given.
    A key given to the process may do everything and replaces the built-in one;
    otherwise the keys are exactly those of the [acl] section when it has any,
    and those of an older database, with everything granted, when there is no
    such section; the built-in key appears when there would be none at all. *)
Theorem startup_keys settings_acl legacy apikey :
  let a := startup_acl settings_acl legacy apikey in
  a <> ∅
  /\ (forall key, apikey = Some key ->
        is_admin a key = true /\ (forall ns, can_write a key ns = true /\ can_read a key ns = true)
        /\ (key <> DEFAULT_APIKEY -> a !! DEFAULT_APIKEY = None))
  /\ (forall t, settings_acl = Some t -> apikey = None -> t <> ∅ -> a = t)
  /\ (forall t k, settings_acl = Some t -> apikey <> Some k -> k <> DEFAULT_APIKEY -> a !! k = t !! k)
  /\ (forall key, settings_acl = None -> key ∈ legacy -> (apikey <> None -> key <> DEFAULT_APIKEY) ->
        a !! key = Some [all_data; admin]).
Proof.
  unfold startup_acl. cbv zeta. set (b := match settings_acl with Some t => t | None => _ end).
  assert (Hleg : forall key, settings_acl = None -> key ∈ legacy -> b !! key = Some [all_data; admin]).
  { intros key E Hk. subst b. rewrite E. by apply legacy_keys. }
  destruct apikey as [k|].
  - rewrite bool_decide_eq_false_2 by apply grant_full_nonempty. cbn [acl_remove fst].
    split; [apply grant_full_nonempty|]. split; [|split; [done|split]].
    + intros key [= <-]. destruct (grant_full_admin (delete DEFAULT_APIKEY b) k) as [Ha Hw].
      split; [done|]. split; [done|]. intros Hne. unfold grant_full. rewrite lookup_insert_ne by done. apply lookup_delete_eq.
    + intros t k' Et Hk Hd. unfold grant_full. rewrite lookup_insert_ne by congruence.
      rewrite lookup_delete_ne by done. subst b. by rewrite Et.
    + intros key E Hk Hd. unfold grant_full. destruct (decide (k = key)) as [->|Hne]; [apply lookup_insert_eq|].
      rewrite lookup_insert_ne by done. rewrite lookup_delete_ne by (intros <-; by apply Hd). by apply Hleg.
  - case_bool_decide as Hb.
    + split; [apply grant_full_nonempty|]. split; [done|]. split; [|split].
      * intros t Et _ Hne. subst b. by rewrite Et in Hb.
      * intros t k' Et _ Hd. unfold grant_full. rewrite lookup_insert_ne by done. subst b. by rewrite Et.
      * intros key E Hk _. apply (Hleg key E) in Hk. by rewrite Hb in Hk.
    + split; [done|]. split; [done|]. subst b. split; [by intros t -> _ _|]. split; [by intros t k' -> _ _|].
      intros key E Hk _. by apply Hleg.
Qed.
