(* ===== verification/Starting.v ===== *)
(** * Starting and stopping the server

    The parts of [run] of [src/src/main.rs] that open the database, start the
    workers and, at the end, save it: [open_database], [usable_dbdir], the tasks
    of [spawn_workers], the eviction at startup and the save on the way out. *)

From stdpp Require Import base numbers list strings gmap sorting.
From S2P Require Import Prelude Activity Latest Attribute AttributeFacts Paths Acl Tags Tier Namespace Disk Database Persistence Contents Service System DnsName Peers Config.

(** [Settings::database_policy] *)
Definition database_policy (s : Settings) : DatabasePolicy :=
  mkPolicy (Z.to_nat (s_stats_retention s)) (s_shadow_ttl s).

(** [None] when persistence is off or the directory cannot be made, which
    [made] says. *)
Definition usable_dbdir (s : Settings) (made : bool) : option str :=
  match s_dbdir s with
  | Some dbdir => if made then Some dbdir else None
  | None => None
  end.

Section Starting.
Context `{Chrono} `{HashOrder} (digest32 : str -> N).

(** The counts and the recent writes of the last run *)
Definition restore_records (d : Directory) (db : Database) : Database :=
  let db1 := match activity_file d with Some data => with_activity db (Activity.restore (activity db) data) | None => db end in
  match latest_file d with Some saved => with_latest db1 (Latest.restore (latest db1) saved) | None => db1 end.

(** [open_database], given what is in the directory *)
Definition open_database (s : Settings) (dir : option Directory) (now : Z) : Database + ReadError :=
  let fresh := with_node (database_policy s) (s_storage s) (s_node_id s) in
  match dir with
  | None => inl fresh
  | Some d =>
      match load d with
      | inr e => inr e
      | inl None => inl (restore_records d fresh)
      | inl (Some data) => inl (restore_records d (from_snapshot_as data (database_policy s) (s_storage s) (s_node_id s) now))
      end
  end.

(** From the settings and the directory to a database in service; which writes
    of the eviction fail is up to [fails]. *)
Definition set_up (s : Settings) (db : Database) : Database :=
  let db1 := with_activity db (Activity.set_enabled (activity db) (s_activity s)) in
  with_latest db1 (Latest.set_capacity (latest db1) (Z.to_nat (s_latest_writes s))).
Definition start_up (fails : Target -> bool) (s : Settings) (dbdir : str) (d : Directory) (now : Z) : Sys + ReadError :=
  match open_database s (Some d) now with
  | inr e => inr e
  | inl db =>
      let db1 := attach_store (set_up s db) (mkStore dbdir (s_compression_level s)) (s_tiers s) in
      let r := evict_idle digest32 fails ∅ db1 d (timestamp now) in
      inl (mkSys r.1.1 r.1.2)
  end.

(** The workers' tasks *)
Definition sweeper_task (fails : Target -> bool) (held held' : gset str) (swept evicted : Z) (s : Sys) : Sys :=
  let db1 := (sweep digest32 (shard_files (dir s)) swept held (db s)).1 in
  let r := evict_idle digest32 fails held' db1 (dir s) (timestamp evicted) in mkSys r.1.1 r.1.2.
Definition snapshot_task (fails : Target -> bool) (s : Sys) : Sys * option SaveReport :=
  let r := save digest32 fails (db s) (dir s) false in (mkSys r.1.1 r.1.2, r.2).

(** The save on the way out: everything, not just what changed *)
Definition shut_down (fails : Target -> bool) (s : Sys) : Sys * option SaveReport :=
  let r := save digest32 fails (db s) (dir s) true in (mkSys r.1.1 r.1.2, r.2).
End Starting.
