(* ===== verification/Restart.v ===== *)
(** * Restarting keeps what was stored

    A server that stops in order and starts again is the same server: the same
    contents, the same consensus.  One that is killed comes back with every
    shard that had been saved.  Both rest on what the directory holds at any
    time ([files_ok]), which every step of [System] maintains, failing saves
    included. *)

From stdpp Require Import base numbers list strings gmap sorting.
From S2P Require Import Prelude Activity Latest Attribute AttributeFacts Convergence Paths Acl Tags Tier Namespace Disk Database Persistence Contents Refine Consensus Eviction Service Accounted System DnsName Peers Config Starting.

(** ** The directory *)
Section Files.
Context `{Chrono} `{HashOrder} (digest32 : str -> N) (U : gset str).

(** Every file is some shard's, can be read and has names of that shard only;
    the file of a shard that is not in the catalogue is empty. *)
Definition file_of (db : Database) (f : str) (file : DiskFile) : Prop :=
  exists sh data, sh ∈ U /\ f = shard_file digest32 sh /\ read_checked file = inl data /\ data_ok data
    /\ (forall n, is_Some (data !! n) -> shard_of n = sh) /\ (is_Some (shards db !! sh) \/ data = ∅).

Record files_ok (s : Sys) (risk : gset str) : Prop := {
  fo_legacy : legacy_file (dir s) = None;
  fo_good : map_Forall (file_of (db s)) (shard_files (dir s));
  fo_internal : INTERNAL_SHARD ∉ present_shards (db s) -> INTERNAL_SHARD ∉ Database.dirty (db s) -> INTERNAL_SHARD ∉ risk ->
    read_shard_file digest32 (shard_files (dir s)) INTERNAL_SHARD = inl ∅;
}.

Lemma file_of_kept db db' f file : dom (shards db) ⊆ dom (shards db') -> file_of db f file -> file_of db' f file.
Proof.
  intros Hd (sh & data & H1 & H2 & H3 & H4 & H5 & H6). exists sh, data. split_and!; try done.
  destruct H6 as [H6|]; [left|by right]. apply elem_of_dom. apply Hd. by apply elem_of_dom.
Qed.

(** An operation on the database that leaves the directory alone *)
Lemma files_touches S risk risk' db db' d :
  touches S db db' -> risk ⊆ risk' -> files_ok (mkSys db d) risk -> files_ok (mkSys db' d) risk'.
Proof.
  intros Ht Hsub [F1 F2 F3]. split; cbn [System.db System.dir] in *; [done| |].
  - intros f file Hf. eapply file_of_kept; [apply Ht|by apply F2].
  - intros Hp Hd Hk. apply F3; [| |by intros Hx; apply Hk, Hsub].
    + intros (n & Hn & Hs)%elem_of_present. destruct (t_gone _ _ _ Ht n Hn) as [Hn'|Hn']; [|congruence].
      apply Hp, elem_of_present. eauto.
    + intros Hx. by apply Hd, (t_dirty _ _ _ Ht).
Qed.
Lemma files_accounted risk db db' d : accounted db db' -> files_ok (mkSys db d) risk -> files_ok (mkSys db' d) risk.
Proof. intros (S & Ht & _). by eapply files_touches. Qed.

(** A shard's file written anew *)
Lemma file_of_snapshot db s :
  s ∈ U -> is_Some (shards db !! s) -> (forall n ns, namespaces db !! n = Some ns -> ns_ok ns) ->
  file_of db (shard_file digest32 s) (Readable (mkSnapshot SNAPSHOT_VERSION (stored_values <$> shard_snapshot db s))).
Proof.
  intros Hs Hm Hns. exists s, (stored_values <$> shard_snapshot db s). split_and!; [done|done|reflexivity|by apply snapshot_data_ok| |by left].
  intros n. rewrite shard_snapshot_lookup. case_decide; [done|by intros []].
Qed.
Lemma put_good db disk s :
  s ∈ U -> is_Some (shards db !! s) -> (forall n ns, namespaces db !! n = Some ns -> ns_ok ns) ->
  map_Forall (file_of db) disk -> map_Forall (file_of db) (put_shard digest32 disk s (shard_snapshot db s)).
Proof. intros Hs Hm Hns Hd. apply map_Forall_insert_2; [by apply file_of_snapshot|done]. Qed.

(** *** Saving *)
Lemma saved_good all wd db disk l :
  (forall s, s ∈ l -> s ∈ U /\ is_Some (shards db !! s)) -> (forall n ns, namespaces db !! n = Some ns -> ns_ok ns) ->
  map_Forall (file_of db) disk -> map_Forall (file_of db) (saved_files digest32 all wd db disk l).
Proof.
  intros Hl Hns. revert disk. induction l as [|s l IH]; intros disk Hd; [done|]. unfold saved_files. cbn [foldl].
  apply IH; [intros x Hx; apply Hl; by right|]. case_match; [done|]. destruct (Hl s ltac:(left)). by apply put_good.
Qed.
Lemma stale_good fails db disk l : map_Forall (file_of db) disk -> map_Forall (file_of db) (remove_stale digest32 fails disk l).
Proof.
  revert disk. induction l as [|s l IH]; intros disk Hd; [done|]. apply IH.
  destruct (fails (StaleTarget s)); [done|by apply map_Forall_delete].
Qed.

Lemma files_save fails s risk all db' d' r abs :
  distinct_files digest32 U -> INTERNAL_SHARD ∈ U -> in_U U (db s) -> implements digest32 (shard_files (dir s)) (db s) abs ->
  dirty_resident (db s) -> save digest32 fails (db s) (dir s) all = (db', d', Some r) -> files_ok s risk ->
  files_ok (mkSys db' d') (risk_saved fails all (db s) true risk).
Proof.
  intros Hdist HI Hin [Hi _] Hdr Hsave [F1 F2 F3].
  destruct (save_success _ _ _ _ _ _ _ _ Hsave) as (En & Esh & Ed & _ & _ & _ & _ & _ & El & Ef).
  assert (Hpres : forall x, x ∈ present_shards (db s) -> x ∈ U /\ is_Some (shards (db s) !! x)).
  { intros x (n & Hn & <-)%elem_of_present. destruct (inv_mem _ _ _ Hi n Hn) as (m & Hm & _).
    assert (is_Some (shards (db s) !! shard_of n)) by eauto. split; [by apply Hin|done]. }
  assert (Hdu : forall x, x ∈ Database.dirty (db s) -> x ∈ U).
  { intros x Hx. apply Hin. specialize (Hdr x Hx). unfold shard_resident in Hdr. destruct (shards (db s) !! x); [eauto|done]. }
  split; cbn [System.db System.dir]; [by rewrite El| |].
  - rewrite Ef. assert (Hg : map_Forall (file_of (db s)) (remove_stale digest32 fails
      (saved_files digest32 all (Database.dirty (db s)) (db s) (shard_files (dir s)) (hash_elems (present_shards (db s))))
      (hash_elems (Database.dirty (db s) ∖ present_shards (db s))))).
    { apply stale_good, saved_good; [|apply Hi|done]. intros x Hx%elem_of_hash_elems. by apply Hpres. }
    intros f file Hf. eapply file_of_kept; [|by apply Hg]. by rewrite Esh.
  - intros Hp _ Hk. unfold present_shards in Hp. rewrite En in Hp. fold (present_shards (db s)) in Hp.
    assert (Hset : INTERNAL_SHARD ∈ risk \/ INTERNAL_SHARD ∈ Database.dirty (db s) ->
      bool_decide (INTERNAL_SHARD ∈ Database.dirty (db s)) && negb (fails (StaleTarget INTERNAL_SHARD)) = true).
    { intros Hor. apply not_false_iff_true. intros Hs. apply Hk. unfold risk_saved. apply elem_of_filter.
      split; [|by apply elem_of_union]. unfold settled. by rewrite (bool_decide_eq_false_2 _ Hp). }
    rewrite Ef, (remove_stale_read _ _ _ _ _ (fun x => x ∈ U)); [|done| |done].
    2: { intros x [Hx _]%elem_of_hash_elems%elem_of_difference. by apply Hdu. }
    rewrite (bool_decide_ext _ _ (elem_of_hash_elems (Database.dirty (db s) ∖ present_shards (db s)) INTERNAL_SHARD)).
    destruct (decide (INTERNAL_SHARD ∈ Database.dirty (db s))) as [Hd|Hd].
    { specialize (Hset (or_intror Hd)). apply andb_true_iff in Hset as [_ ->].
      by rewrite bool_decide_eq_true_2 by (by apply elem_of_difference). }
    rewrite (bool_decide_eq_false_2 _ Hd) in Hset. rewrite bool_decide_eq_false_2 by (by intros [? _]%elem_of_difference).
    cbn [andb]. rewrite (saved_files_read _ _ _ _ _ _ _ (fun x => x ∈ U)); [|done| |done].
    2: { intros x Hx%elem_of_hash_elems. by apply Hpres. }
    rewrite bool_decide_eq_false_2 by (by rewrite elem_of_hash_elems). cbn [andb]. apply F3; [done|done|].
    intros Hx. discriminate (Hset (or_introl Hx)).
Qed.

Lemma files_save_fails fails s risk all db' d' abs :
  distinct_files digest32 U -> INTERNAL_SHARD ∈ U -> in_U U (db s) -> implements digest32 (shard_files (dir s)) (db s) abs ->
  save digest32 fails (db s) (dir s) all = (db', d', None) -> files_ok s risk ->
  files_ok (mkSys db' d') (risk_saved fails all (db s) false risk).
Proof.
  intros Hdist HI Hin [Hi _] Hsave [F1 F2 F3].
  destruct (save_failure _ _ _ _ _ _ _ Hsave) as (En & Esh & _ & _ & _ & _ & _ & _ & El & l & Hl & Ef).
  assert (Hpres : forall x, x ∈ l -> x ∈ present_shards (db s) /\ x ∈ U /\ is_Some (shards (db s) !! x)).
  { intros x Hx%Hl%elem_of_hash_elems. split; [done|]. apply elem_of_present in Hx as (n & Hn & <-).
    destruct (inv_mem _ _ _ Hi n Hn) as (m & Hm & _). split; [by apply Hin; eauto|eauto]. }
  split; cbn [System.db System.dir]; [by rewrite El| |].
  - assert (Hg : map_Forall (file_of (db s)) (shard_files d')).
    { rewrite Ef. apply saved_good; [|apply Hi|done]. intros x Hx. by apply Hpres. }
    intros f file Hf. eapply file_of_kept; [|by apply Hg]. by rewrite Esh.
  - intros Hp _ Hkd. unfold risk_saved in Hkd. apply not_elem_of_union in Hkd as [Hk Hd]. unfold present_shards in Hp. rewrite En in Hp. fold (present_shards (db s)) in Hp.
    rewrite Ef, (saved_files_read _ _ _ _ _ _ _ (fun x => x ∈ U)); [|done| |done].
    2: { intros x Hx. by apply Hpres. }
    rewrite bool_decide_eq_false_2; [by apply F3|]. intros Hx. by apply Hp, Hpres.
Qed.

(** *** Evicting *)
Lemma drop_shard_less held db s :
  let r := (drop_shard held db s).1 in
  (forall n, shard_of n <> s -> namespaces r !! n = namespaces db !! n)
  /\ (forall n ns, namespaces r !! n = Some ns -> namespaces db !! n = Some ns)
  /\ dom (shards r) = dom (shards db) /\ Database.dirty r = Database.dirty db.
Proof.
  intros r. unfold r, drop_shard. destruct (existsb _ _); [by split_and!|]. cbn [shards with_namespaces].
  assert (Hn : forall n, foldl (fun m name => delete name m) (namespaces db)
    (filter (fun name => shard_of name = s) (hash_keys (namespaces db))) !! n = if decide (shard_of n = s) then None else namespaces db !! n)
    by (intros; apply foldl_delete_filter).
  assert (H3 : (forall n, shard_of n <> s -> foldl (fun m name => delete name m) (namespaces db)
      (filter (fun name => shard_of name = s) (hash_keys (namespaces db))) !! n = namespaces db !! n)
    /\ (forall n ns, foldl (fun m name => delete name m) (namespaces db)
      (filter (fun name => shard_of name = s) (hash_keys (namespaces db))) !! n = Some ns -> namespaces db !! n = Some ns)).
  { split; intros n; rewrite Hn; by case_decide. }
  destruct H3 as [H3 H4]. destruct (shards db !! s) as [m|] eqn:E; cbn; split_and!; try done.
  rewrite dom_insert_L. apply subseteq_union_1_L, singleton_subseteq_l, elem_of_dom. eauto.
Qed.

(** What an eviction keeps of the directory and of the internal shard *)
Definition tended (db0 : Database) (disk0 : Disk) (st : Database * Disk * EvictReport) : Prop :=
  (forall n ns, namespaces st.1.1 !! n = Some ns -> ns_ok ns) /\ dom (shards st.1.1) = dom (shards db0)
  /\ map_Forall (file_of st.1.1) st.1.2
  /\ (forall n, shard_of n = INTERNAL_SHARD -> namespaces st.1.1 !! n = namespaces db0 !! n)
  /\ (INTERNAL_SHARD ∈ Database.dirty st.1.1 <-> INTERNAL_SHARD ∈ Database.dirty db0)
  /\ read_shard_file digest32 st.1.2 INTERNAL_SHARD = read_shard_file digest32 disk0 INTERNAL_SHARD.

Lemma evict_one_tended fails held db0 disk0 st s :
  distinct_files digest32 U -> INTERNAL_SHARD ∈ U -> s ∈ U -> s ∈ dom (shards db0) -> s <> INTERNAL_SHARD ->
  tended db0 disk0 st -> tended db0 disk0 (evict_one digest32 fails held st s).
Proof.
  intros Hdist HI HU Hs Hne. destruct st as [[db disk] r]. unfold tended. cbn [fst snd].
  intros (T1 & T2 & T3 & T4 & T5 & T6). unfold evict_one, evict_drop.
  set (o := evict_save digest32 fails db disk s).
  assert (Ho : forall disk', o = Some disk' -> map_Forall (file_of db) disk'
    /\ read_shard_file digest32 disk' INTERNAL_SHARD = read_shard_file digest32 disk INTERNAL_SHARD).
  { intros disk'. unfold o, evict_save. case_bool_decide; [|by intros [= <-]]. unfold save_shard, write_shard.
    destruct (fails _); [done|]. intros [= <-]. split.
    - apply put_good; [done| |done|done]. apply elem_of_dom. by rewrite T2.
    - apply read_put_other. intros He. apply Hne. by apply Hdist. }
  destruct o as [disk'|]; [|done]. destruct (Ho disk' eq_refl) as [O1 O2].
  destruct (drop_shard_less held (with_dirty db (Database.dirty db ∖ {[s]})) s) as (D1 & D2 & D3 & D4).
  cbn [fst snd] in *. split_and!.
  - intros n ns Hn. eapply T1, D2, Hn.
  - by rewrite D3.
  - intros f file Hf. eapply file_of_kept; [|by apply O1]. by rewrite D3.
  - intros n Hn. rewrite D1 by congruence. by apply T4.
  - rewrite D4. cbn [Database.dirty with_dirty]. rewrite elem_of_difference, elem_of_singleton, T5. naive_solver.
  - congruence.
Qed.

Lemma files_evict fails held s risk now abs :
  distinct_files digest32 U -> INTERNAL_SHARD ∈ U -> in_U U (db s) -> implements digest32 (shard_files (dir s)) (db s) abs ->
  files_ok s risk ->
  files_ok (mkSys (evict_idle digest32 fails held (db s) (dir s) now).1.1 (evict_idle digest32 fails held (db s) (dir s) now).1.2) risk.
Proof.
  intros Hdist HI Hin [Hi _] [F1 F2 F3]. unfold evict_idle. destruct (store (db s)); [|by split].
  destruct (candidates_spec (db s) now) as [_ Hl]. set (l := evict_candidates (db s) now) in *.
  assert (Ht : tended (db s) (shard_files (dir s)) (foldl (evict_one digest32 fails held) (db s, shard_files (dir s), mkEvict 0 0 0) l)).
  { assert (Hst : tended (db s) (shard_files (dir s)) (db s, shard_files (dir s), mkEvict 0 0 0)) by (split_and!; try done; apply Hi).
    revert Hst. generalize (db s, shard_files (dir s), mkEvict 0 0 0). clearbody l.
    induction l as [|x l IH]; intros st Hst; [done|]. cbn [foldl]. destruct (Hl x ltac:(left)) as (Hx & m & Hm & _).
    apply IH; [intros; apply Hl; by right|]. apply evict_one_tended; [done|done|apply Hin; eauto|apply elem_of_dom; eauto|done|done]. }
  destruct (foldl _ _ _) as [[db' disk'] rep]. destruct Ht as (T1 & T2 & T3 & T4 & T5 & T6). cbn [fst snd] in *.
  split; cbn [System.db System.dir with_shard_files shard_files legacy_file]; [done|done|].
  intros Hp Hd Hk. rewrite T6. apply F3; [|by rewrite <- T5|done].
  intros (n & Hn & Hs)%elem_of_present. apply Hp, elem_of_present. exists n. by rewrite T4.
Qed.

(** *** A step *)
Lemma files_step (bound : nat) (x x' : Tracked) (abs : Abs) :
  distinct_files digest32 U -> INTERNAL_SHARD ∈ U -> sys_inv digest32 U bound x.1 x.2 abs -> step digest32 U x x' ->
  files_ok x.1 x.2 -> files_ok x'.1 x'.2.
Proof.
  intros Hdist HI Hinv Hst. revert Hinv.
  destruct Hst as [s risk now origin ns v w t tgs H1 H2 H3|s risk now ns v stats shadow H1 H2|s risk now path v i H1 H2 H3 H4 r
    |s risk now name H1 H2|s risk now name H1|s risk now held|s risk now held fails H1 r|s risk fails all r];
    cbn [fst snd]; intros [Himp Hc Hdr Hok Hsz Hin Ht] Hf;
    assert (Hs : files_ok (mkSys (db s) (dir s)) risk) by (by destruct s).
  - eapply files_accounted; [|exact Hs]. by eapply client_write_accounted.
  - destruct (client_read_touches digest32 _ now (db s) abs ns v stats shadow Himp Ht H1) as (S & T & _).
    by eapply files_touches.
  - destruct (merge_in_spec digest32 _ now (db s) abs path v i Himp H2 H3 Ht) as (_ & _ & _ & T & _).
    eapply files_touches; [exact T| |exact Hs]. destruct (changed r.2); [done|apply union_subseteq_r].
  - destruct (delete_spec digest32 _ now (db s) abs name Himp) as (_ & _ & _ & T & _). by eapply files_touches.
  - destruct (create_spec digest32 _ now (db s) abs name Himp) as (_ & _ & _ & Hacc & _). by eapply files_accounted.
  - eapply files_accounted; [|exact Hs]. by eapply sweep_accounted.
  - by eapply files_evict.
  - destruct r as [[db' d'] [rep|]] eqn:E; cbn [fst snd].
    + rewrite bool_decide_eq_true_2 by eauto. by eapply files_save.
    + rewrite bool_decide_eq_false_2 by (by intros []). by eapply files_save_fails.
Qed.

Lemma files_start p sp nd st t : files_ok (start p sp nd st t) ∅.
Proof.
  split; cbn; [done|by apply map_Forall_empty|]. intros _ _ _. unfold read_shard_file. by rewrite lookup_empty.
Qed.

(** ** Loading *)
Lemma load_files_spec files acc :
  (forall f, f ∈ files -> exists data, read_checked f = inl data) ->
  exists D, load_files acc files = inl D
    /\ forall n, match D !! n with
        | Some vs => acc !! n = Some vs \/ exists f data, f ∈ files /\ read_checked f = inl data /\ data !! n = Some vs
        | None => acc !! n = None /\ forall f data, f ∈ files -> read_checked f = inl data -> data !! n = None
        end.
Proof.
  revert acc. induction files as [|f files IH]; intros acc Hr.
  { exists acc. split; [done|]. intros n. destruct (acc !! n); [by left|]. split; [done|]. intros f data Hf. by apply elem_of_nil in Hf. }
  destruct (Hr f ltac:(left)) as [data Hd]. cbn [load_files]. rewrite Hd.
  destruct (IH (data ∪ acc) ltac:(intros; apply Hr; by right)) as (D & HD & Hn). exists D. split; [done|]. intros n.
  specialize (Hn n). destruct (D !! n) as [vs|].
  - destruct Hn as [Hn|(g & dg & Hg & Hrg & Hv)]; [|right; exists g, dg; split_and!; [by right|done|done]].
    apply lookup_union_Some_raw in Hn as [Hn|[_ Hn]]; [right; exists f, data; split_and!; [left|done|done]|by left].
  - destruct Hn as [Hn Hg]. apply lookup_union_None in Hn as [Hn1 Hn2]. split; [done|].
    intros g dg [->|Hin]%elem_of_cons Hrg; [congruence|by eapply Hg].
Qed.

(** What is loaded of a shard is what its file holds. *)
Lemma load_spec s risk :
  distinct_files digest32 U -> files_ok s risk ->
  exists D files, load (dir s) = inl (if is_empty files then None else Some (mkSnapshot SNAPSHOT_VERSION D))
    /\ (files = ([] : list DiskFile) -> D = ∅) /\ data_ok D
    /\ (forall n, is_Some (D !! n) -> shard_of n ∈ U /\ is_Some (shards (db s) !! shard_of n))
    /\ (forall n sh data, sh ∈ U -> read_shard_file digest32 (shard_files (dir s)) sh = inl data -> shard_of n = sh -> D !! n = data !! n).
Proof.
  intros Hdist [F1 F2 _]. unfold load. rewrite F1. cbn [app]. set (files := (btree_iter (shard_files (dir s))).*2).
  assert (Hin : forall f, f ∈ files -> exists name, shard_files (dir s) !! name = Some f).
  { intros f ([name f'] & -> & Hf)%list_elem_of_fmap. exists name. by apply elem_of_btree_iter in Hf. }
  assert (Hof : forall name f, shard_files (dir s) !! name = Some f -> f ∈ files).
  { intros name f Hf. apply list_elem_of_fmap. exists (name, f). split; [done|]. by apply elem_of_btree_iter. }
  destruct (load_files_spec files ∅) as (D & HD & Hn).
  { intros f (name & Hf)%Hin. destruct (F2 _ _ Hf) as (sh & data & _ & _ & Hr & _). eauto. }
  rewrite HD. exists D, files. split; [done|].
  assert (Hfrom : forall n vs, D !! n = Some vs -> exists name f data, shard_files (dir s) !! name = Some f
    /\ read_checked f = inl data /\ data !! n = Some vs).
  { intros n vs Hv. specialize (Hn n). rewrite Hv in Hn. destruct Hn as [Hn|(f & data & Hf & Hr & Hd)]; [by rewrite lookup_empty in Hn|].
    destruct (Hin f Hf) as [name Hname]. eauto 10. }
  split_and!.
  - intros Hf. apply map_eq. intros n. rewrite lookup_empty. destruct (D !! n) as [vs|] eqn:E; [|done].
    destruct (Hfrom n vs E) as (name & f & data & Hname & _). apply Hof in Hname. rewrite Hf in Hname. by apply elem_of_nil in Hname.
  - intros n vs v a Hv Ha. destruct (Hfrom n vs Hv) as (name & f & data & Hname & Hr & Hd).
    destruct (F2 _ _ Hname) as (sh & data' & _ & _ & Hr' & Hok & _). rewrite Hr in Hr'. injection Hr' as <-. by eapply Hok.
  - intros n [vs Hv]. destruct (Hfrom n vs Hv) as (name & f & data & Hname & Hr & Hd).
    destruct (F2 _ _ Hname) as (sh & data' & HU & _ & Hr' & _ & Hns & Hsh). rewrite Hr in Hr'. injection Hr' as <-.
    rewrite (Hns n) by eauto. split; [done|]. destruct Hsh as [|Hem]; [done|]. rewrite Hem, lookup_empty in Hd. done.
  - intros n sh data HU Hrd <-. unfold read_shard_file in Hrd. destruct (D !! n) as [vs|] eqn:E.
    + destruct (Hfrom n vs E) as (name & f & d2 & Hname & Hr & Hd2).
      destruct (F2 _ _ Hname) as (sh2 & d3 & HU2 & -> & Hr3 & _ & Hns & _). rewrite Hr in Hr3. injection Hr3 as <-.
      rewrite (Hns n) in * by eauto. rewrite Hname, Hr in Hrd. by injection Hrd as <-.
    + specialize (Hn n). rewrite E in Hn. destruct Hn as [_ Hn].
      destruct (shard_files (dir s) !! shard_file digest32 (shard_of n)) as [f|] eqn:Ef; [|injection Hrd as <-; by rewrite lookup_empty].
      symmetry. eapply Hn; [by eapply Hof|done].
Qed.
End Files.

(** ** The database that is opened *)
Section Opened.
Context `{Chrono} `{HashOrder} (digest32 : str -> N) (U : gset str).

Lemma catalogue_spec now names :
  let cat := foldl (catalogue_snapshot now) ∅ names in
  (forall s m, cat !! s = Some m -> resident m = true /\ (exists n, n ∈ names /\ shard_of n = s)
     /\ forall n, n ∈ meta_namespaces m <-> n ∈ names /\ shard_of n = s)
  /\ forall n, n ∈ names -> is_Some (cat !! shard_of n).
Proof.
  cbv zeta. induction names as [|x names IH] using rev_ind;
    [split; [intros s m Hm; cbn in Hm; by apply lookup_empty_Some in Hm|intros n Hn; by apply elem_of_nil in Hn]|].
  rewrite foldl_snoc. set (cat := foldl (catalogue_snapshot now) ∅ names) in *. destruct IH as [I1 I2].
  unfold catalogue_snapshot. split.
  - intros s m. rewrite lookup_insert. case_decide as Hs.
    + intros [= <-]. cbn. split; [done|]. split; [exists x; split; [set_solver|done]|]. intros n.
      rewrite elem_of_union, elem_of_singleton, elem_of_app, list_elem_of_singleton.
      destruct (cat !! shard_of x) as [m|] eqn:E; cbn.
      * destruct (I1 _ _ E) as (_ & _ & ->). subst s. naive_solver.
      * subst s. assert (Hno : n ∈ names -> shard_of n <> shard_of x).
        { intros Hn He. apply I2 in Hn as [m Hm]. rewrite He in Hm. congruence. }
        rewrite elem_of_empty. naive_solver.
    + intros Hm. destruct (I1 _ _ Hm) as (R & (n0 & Hn0 & Hs0) & Hiff). split; [done|]. split; [exists n0; split; [set_solver|done]|].
      intros n. rewrite Hiff, elem_of_app, list_elem_of_singleton. naive_solver.
  - intros n [Hn|Hn%list_elem_of_singleton]%elem_of_app; rewrite lookup_insert; case_decide; subst; eauto. done.
Qed.

(** What is loaded stands for these contents. *)
Definition loaded (nd : str) (D : ShardNamespaces) : Abs := (fun vs => stored_values (values (from_values vs nd))) <$> D.

(** All of it in memory, and nothing marked *)
Record opened_with (D : ShardNamespaces) (db : Database) : Prop := {
  hl_ns : namespaces db = (fun vs => from_values vs (node db)) <$> D;
  hl_shards : exists now names, (forall n, n ∈ names <-> is_Some (D !! n)) /\ shards db = foldl (catalogue_snapshot now) ∅ names;
  hl_dirty : Database.dirty db = ∅;
}.

Lemma opened_from d p sp nd now D files :
  load d = inl (if is_empty files then None else Some (mkSnapshot SNAPSHOT_VERSION D)) -> (files = ([] : list DiskFile) -> D = ∅) ->
  forall s, database_policy s = p -> s_storage s = sp -> s_node_id s = nd ->
  exists db, open_database s (Some d) now = inl db /\ opened_with D db /\ node db = nd /\ policy db = p.
Proof.
  intros Hl He s <- <- <-. unfold open_database. rewrite Hl. destruct files as [|f files]; cbn [is_empty].
  - rewrite (He eq_refl). eexists. split; [done|]. unfold restore_records.
    split; [|by repeat case_match]. split; [by repeat case_match| |by repeat case_match].
    exists now, []. split; [intros n; rewrite lookup_empty; split; [intros Hn; by apply elem_of_nil in Hn|by intros []]|by repeat case_match].
  - eexists. split; [done|]. unfold restore_records. split; [|by repeat case_match].
    split; [by repeat case_match| |by repeat case_match].
    exists now, (hash_keys ((fun vs => from_values vs (s_node_id s)) <$> D)). split; [|by repeat case_match].
    intros n. rewrite elem_of_hash_keys, lookup_fmap. by rewrite fmap_is_Some.
Qed.

Lemma opened_attach D db s st t : opened_with D db -> opened_with D (attach_store (set_up s db) st t).
Proof. intros [H1 H2 H3]. by split. Qed.

Lemma opened_implements disk D db : data_ok D -> opened_with D db -> implements digest32 disk db (loaded (node db) D).
Proof.
  intros Hok [H1 (now & names & Hn & H2) H3]. destruct (catalogue_spec now names) as [C1 C2]. rewrite <- H2 in *.
  assert (Hl : forall n, namespaces db !! n = (fun vs => from_values vs (node db)) <$> D !! n) by (intros; by rewrite H1, lookup_fmap).
  assert (Hs : forall n, is_Some (namespaces db !! n) <-> n ∈ names) by (intros; by rewrite Hl, fmap_is_Some, Hn).
  split; [split|].
  - intros n ns. rewrite Hl. intros (vs & Hv & ->)%fmap_Some. apply from_values_ok. intros v a. by eapply Hok.
  - intros n Hx%Hs. destruct (C2 n Hx) as [m Hm]. exists m. destruct (C1 _ _ Hm) as (R & _ & Hiff). split_and!; [done|done|]. by apply Hiff.
  - intros s m n Hm Hin. destruct (C1 _ _ Hm) as (R & _ & Hiff). apply Hiff in Hin as [Hin ->]. split; [done|]. intros _. by apply Hs.
  - intros s m Hm Hr. destruct (C1 _ _ Hm) as (R & _). congruence.
  - intros n. unfold content, loaded, catalogued. rewrite lookup_fmap, Hl. destruct (D !! n) as [vs|]; [done|]. cbn.
    destruct (shards db !! shard_of n) as [m|] eqn:Em; [|done]. destruct (C1 _ _ Em) as (-> & _). done.
Qed.

Lemma opened_clean disk D db :
  is_Some (store db) -> opened_with D db ->
  (forall sh, is_Some (shards db !! sh) -> exists data, read_shard_file digest32 disk sh = inl data /\ data_ok data
     /\ (forall n, is_Some (data !! n) -> shard_of n = sh) /\ forall n, shard_of n = sh -> D !! n = data !! n) ->
  clean digest32 ∅ disk db.
Proof.
  intros Hst [H1 _ _] Hf. split; [done|]. intros s m Hm _ _ _ _. destruct (Hf s ltac:(eauto)) as (data & Hr & Hok & Hns & HD).
  exists data. split_and!; [done|done| |done]. intros n Hn. unfold file_content, mem_content. rewrite H1, lookup_fmap, HD by done.
  by destruct (data !! n).
Qed.

(** What the file of a shard must be for loading it to give what the database
    holds of it *)
Definition filed (s : Sys) (sh : str) : Prop :=
  forall m, shards (db s) !! sh = Some m -> resident m = true ->
    synced digest32 (shard_files (dir s)) (db s) sh
    \/ sh ∉ present_shards (db s) /\ read_shard_file digest32 (shard_files (dir s)) sh = inl ∅.

Lemma reload_content s abs D n :
  implements digest32 (shard_files (dir s)) (db s) abs -> in_U U (db s) -> filed s (shard_of n) ->
  (forall n, is_Some (D !! n) -> is_Some (shards (db s) !! shard_of n)) ->
  (forall n sh data, sh ∈ U -> read_shard_file digest32 (shard_files (dir s)) sh = inl data -> shard_of n = sh -> D !! n = data !! n) ->
  loaded (node (db s)) D !! n = abs !! n.
Proof.
  intros [Hi Hc] Hin Hf Hsh HD. rewrite <- Hc. unfold loaded, content. rewrite lookup_fmap.
  destruct (shards (db s) !! shard_of n) as [m|] eqn:Em.
  - assert (HU : shard_of n ∈ U) by (apply Hin; eauto). destruct (resident m) eqn:Er.
    + assert (Hcat : catalogued (db s) (shard_of n) n = false) by (unfold catalogued; by rewrite Em, Er). rewrite Hcat.
      destruct (Hf m Em Er) as [(data & Hr & _ & Hm & _)|[Hp Hr]]; rewrite (HD n _ _ HU Hr eq_refl).
      * specialize (Hm n eq_refl). unfold file_content, mem_content in Hm. rewrite Hm. by destruct (namespaces (db s) !! n).
      * destruct (namespaces (db s) !! n) as [ns|] eqn:En; [|by rewrite lookup_empty].
        destruct Hp. apply elem_of_present. eauto.
    + destruct (inv_disk _ _ _ Hi _ _ Em Er) as (_ & data & Hr & Hdom & _). rewrite (HD n _ _ HU Hr eq_refl).
      rewrite (not_resident_mem _ _ _ _ _ _ Hi Em Er eq_refl). unfold catalogued. rewrite Em, Er, Hr. cbn.
      case_bool_decide as Hn; [done|]. rewrite <- Hdom in Hn. apply not_elem_of_dom in Hn. by rewrite Hn.
  - assert (HN : D !! n = None).
    { destruct (D !! n) eqn:E; [|done]. destruct (Hsh n ltac:(eauto)). congruence. }
    rewrite HN. unfold catalogued. rewrite Em. destruct (namespaces (db s) !! n) eqn:En; [|done].
    destruct (inv_mem _ _ _ Hi n ltac:(eauto)) as (m & Hm & _). congruence.
Qed.

(** Starting on the directory of a server: it always starts, and what it has is
    what it had of every shard that was filed. *)
Lemma start_up_spec fails st dbdir s risk now abs :
  distinct_files digest32 U -> INTERNAL_SHARD ∈ U -> implements digest32 (shard_files (dir s)) (db s) abs -> in_U U (db s) ->
  files_ok digest32 U s risk -> s_node_id st = node (db s) ->
  exists s' abs', start_up digest32 fails st dbdir (dir s) now = inl s'
    /\ implements digest32 (shard_files (dir s')) (db s') abs' /\ clean digest32 ∅ (shard_files (dir s')) (db s')
    /\ dirty_resident (db s') /\ in_U U (db s') /\ files_ok digest32 U s' ∅ /\ node (db s') = node (db s)
    /\ policy (db s') = database_policy st
    /\ forall n, filed s (shard_of n) -> abs' !! n = abs !! n.
Proof.
  intros Hdist HI Himp Hin Hfo Hnd. destruct (load_spec digest32 U s risk Hdist Hfo) as (D & files & Hl & He & Hok & HU & HD).
  destruct (opened_from (dir s) _ _ _ now D files Hl He st eq_refl eq_refl eq_refl) as (db0 & Ho & Hh & Hn0 & Hp0).
  unfold start_up. rewrite Ho. set (db1 := attach_store (set_up st db0) (mkStore dbdir (s_compression_level st)) (s_tiers st)).
  assert (Hh1 : opened_with D db1) by by apply opened_attach. assert (Hn1 : node db1 = node (db s)) by (by rewrite <- Hnd, <- Hn0).
  pose proof (opened_implements (shard_files (dir s)) D db1 Hok Hh1) as Hi1. rewrite Hn1 in Hi1.
  pose proof Hh1 as [H1 (t & names & Hnames & H2) H3]. destruct (catalogue_spec t names) as [C1 C2]. rewrite <- H2 in C1, C2.
  assert (Hin1 : in_U U db1).
  { intros sh [m Hm]. destruct (C1 _ _ Hm) as (_ & (n & Hn & <-) & _). apply HU. by apply Hnames. }
  assert (Hback : forall n sh data, sh ∈ U -> read_shard_file digest32 (shard_files (dir s)) sh = inl data -> shard_of n = sh ->
    is_Some (data !! n) -> is_Some (shards db1 !! sh) /\ is_Some (namespaces db1 !! n)).
  { intros n sh data Hsh Hr Hs Hd. rewrite <- (HD n sh data Hsh Hr Hs) in Hd. split.
    - rewrite <- Hs. apply C2. by apply Hnames.
    - rewrite H1, lookup_fmap. by rewrite fmap_is_Some. }
  assert (Hread : forall f file sh data, shard_files (dir s) !! f = Some file -> f = shard_file digest32 sh -> read_checked file = inl data ->
    read_shard_file digest32 (shard_files (dir s)) sh = inl data).
  { intros f file sh data Hf -> Hr. unfold read_shard_file. by rewrite Hf. }
  assert (Hc1 : clean digest32 ∅ (shard_files (dir s)) db1).
  { apply (opened_clean _ D); [by eexists|done|]. intros sh Hsh.
    assert (HsU : sh ∈ U) by by apply Hin1. destruct (shard_files (dir s) !! shard_file digest32 sh) as [file|] eqn:Ef.
    - destruct (fo_good _ _ _ _ Hfo _ _ Ef) as (sh' & data & HU' & E & Hr & Hdok & Hns & _).
      apply Hdist in E; [|done|done]. subst sh'. exists data. pose proof (Hread _ _ _ _ Ef eq_refl Hr) as Hrd.
      split_and!; [done|done|done|]. intros n Hn. by eapply HD.
    - exists ∅. assert (Hrd : read_shard_file digest32 (shard_files (dir s)) sh = inl ∅) by (unfold read_shard_file; by rewrite Ef).
      split_and!; [done|intros n vs v a Hv; by apply lookup_empty_Some in Hv|intros n [vs Hv]; by apply lookup_empty_Some in Hv|].
      intros n Hn. by eapply HD. }
  assert (Hf1 : files_ok digest32 U (mkSys db1 (dir s)) ∅).
  { split; cbn [System.db System.dir]; [apply Hfo| |].
    - intros f file Hf. destruct (fo_good _ _ _ _ Hfo _ _ Hf) as (sh & data & HsU & -> & Hr & Hdok & Hns & _).
      exists sh, data. split_and!; try done. destruct (decide (data = ∅)) as [|Hne]; [by right|left].
      apply map_choose in Hne as (n & vs & Hv). apply (Hback n sh data HsU); [by eapply Hread|by apply Hns; eauto|eauto].
    - intros Hp _ _. destruct (shard_files (dir s) !! shard_file digest32 INTERNAL_SHARD) as [file|] eqn:Ef;
        [|unfold read_shard_file; by rewrite Ef].
      destruct (fo_good _ _ _ _ Hfo _ _ Ef) as (sh & data & HsU & E & Hr & _ & Hns & _). apply Hdist in E; [|done|done]. subst sh.
      pose proof (Hread _ _ _ _ Ef eq_refl Hr) as Hrd. rewrite Hrd. f_equal. apply map_empty. intros n.
      destruct (data !! n) as [vs|] eqn:Ev; [|done]. destruct Hp. apply elem_of_present. exists n.
      split; [|apply Hns; eauto]. eapply Hback; [exact HsU|exact Hrd|apply Hns; eauto|eauto]. }
  destruct (evict_spec digest32 fails ∅ ∅ db1 (dir s) (timestamp now) _ Hi1 Hc1 (in_U_distinct digest32 U Hdist db1 Hin1)
    ltac:(by intros ? _ ?%elem_of_empty))
    as (I1 & I2 & (Ep & _ & En & _) & _ & I3 & I4).
  eexists _, _. split; [done|]. cbn [System.db System.dir]. split_and!; [exact I1|exact I2| | | |congruence|by rewrite Ep|].
  - intros x Hx. destruct (I4 x Hx) as [Hx' _]. rewrite H3 in Hx'. by apply elem_of_empty in Hx'.
  - intros x Hx. by apply Hin1, I3.
  - by eapply (files_evict digest32 U fails ∅ (mkSys db1 (dir s)) ∅).
  - intros n Hf. apply reload_content; [done|done|done| |done]. intros x Hx. by apply HU.
Qed.
End Opened.

(** ** A server's life *)
Section Life.
Context `{Chrono} `{HashOrder} (digest32 : str -> N) (U : gset str).

(** Running, or stopping in order with nothing left at risk and starting again
    under the same name; the rest of the configuration may have changed
    meanwhile. *)
Inductive life : Tracked -> Tracked -> Prop :=
  | li_step x x' : step digest32 U x x' -> life x x'
  | li_restart s risk fails stopped r st dbdir fails' now s' :
      shut_down digest32 fails s = (stopped, Some r) -> risk_saved fails true (db s) true risk = ∅ ->
      s_node_id st = node (db s) -> is_u64 (s_shadow_ttl st) ->
      start_up digest32 fails' st dbdir (dir stopped) now = inl s' -> life (s, risk) (s', ∅).

Hypothesis Hdist : distinct_files digest32 U.
Hypothesis Hint : INTERNAL_SHARD ∈ U.

Lemma shut_down_save fails s stopped r :
  shut_down digest32 fails s = (stopped, Some r) -> save digest32 fails (db s) (dir s) true = (db stopped, dir stopped, Some r).
Proof.
  unfold shut_down. destruct (save digest32 fails (db s) (dir s) true) as [[db' d'] r']. cbn. by intros [= <- ->].
Qed.

(** After an orderly stop every shard that is not at risk is filed. *)
Lemma stopped_filed bound fails s risk stopped r abs :
  sys_inv digest32 U bound s risk abs -> files_ok digest32 U s risk -> shut_down digest32 fails s = (stopped, Some r) ->
  let risk' := risk_saved fails true (db s) true risk in
  implements digest32 (shard_files (dir stopped)) (db stopped) abs /\ in_U U (db stopped)
  /\ files_ok digest32 U stopped risk' /\ node (db stopped) = node (db s)
  /\ forall sh, sh ∉ risk' -> filed digest32 stopped sh.
Proof.
  intros [Himp Hc Hd Hok Hsz Hin Ht] Hf E%shut_down_save risk'.
  destruct (save_spec digest32 fails risk (db s) (dir s) true _ _ r abs E Himp Hc Hd (in_U_distinct digest32 U Hdist _ Hin))
    as (I1 & I2 & I3 & En & Ep & Es & Isync).
  pose proof (files_save digest32 U fails s risk true _ _ r abs Hdist Hint Hin Himp Hd E Hf) as Hf'.
  destruct (save_success _ _ _ _ _ _ _ _ E) as (Ens & _ & Ed & _).
  assert (Hsys : mkSys (db stopped) (dir stopped) = stopped) by by destruct stopped. rewrite Hsys in Hf'.
  split_and!; [done|intros x; rewrite Es; apply Hin|done|done|].
  intros sh Hk m Hm Hr. destruct (Isync sh m Hm Hr Hk ltac:(by right)) as [[-> Hp]|]; [|by left]. right.
  assert (Hp' : INTERNAL_SHARD ∉ present_shards (db stopped)) by (unfold present_shards in *; by rewrite Ens). split; [done|].
  apply (fo_internal _ _ _ _ Hf'); [done| |done]. rewrite Ed. apply not_elem_of_empty.
Qed.

Lemma restart_inv bound fails s risk stopped r abs st dbdir fails' now :
  sys_inv digest32 U bound s risk abs -> files_ok digest32 U s risk -> shut_down digest32 fails s = (stopped, Some r) ->
  risk_saved fails true (db s) true risk = ∅ -> s_node_id st = node (db s) -> is_u64 (s_shadow_ttl st) ->
  exists s', start_up digest32 fails' st dbdir (dir stopped) now = inl s'
    /\ sys_inv digest32 U bound s' ∅ abs /\ files_ok digest32 U s' ∅ /\ node (db s') = node (db s).
Proof.
  intros Hs Hf E Hk Hnd Httl. destruct (stopped_filed bound fails s risk stopped r abs Hs Hf E) as (I1 & I2 & I3 & I4 & I5).
  destruct (start_up_spec digest32 U fails' st dbdir stopped _ now abs Hdist Hint I1 I2 I3 ltac:(congruence))
    as (s' & abs' & E' & J1 & J2 & J3 & J4 & J5 & J6 & J7 & J8).
  assert (Ha : abs' = abs).
  { apply map_eq. intros n. apply J8, I5. rewrite Hk. apply not_elem_of_empty. }
  subst abs'. exists s'. split_and!; [done| |done|congruence]. destruct Hs as [_ _ _ Hok Hsz _ _].
  split; try done; [by rewrite J6, I4|by rewrite J7].
Qed.

Lemma life_inv (bound : nat) (x x' : Tracked) (abs : Abs) :
  (Z.of_nat bound + 1 < U64_MODULUS)%Z -> sys_inv digest32 U bound x.1 x.2 abs -> files_ok digest32 U x.1 x.2 -> life x x' ->
  exists abs', sys_inv digest32 U (2 + bound) x'.1 x'.2 abs' /\ files_ok digest32 U x'.1 x'.2.
Proof.
  intros Hb Hs Hf Hl. destruct Hl as [[s risk] [s' risk'] Hst|s risk fails stopped r st dbdir fails' now s' E Hk Hnd Httl Hstart];
    cbn [fst snd] in *.
  - destruct (sys_step_inv digest32 U Hdist Hint bound (s, risk) (s', risk') abs Hb Hs Hst) as [abs' Hs']. exists abs'. split; [done|].
    exact (files_step digest32 U bound (s, risk) (s', risk') abs Hdist Hint Hs Hst Hf).
  - destruct (restart_inv bound fails s risk stopped r abs st dbdir fails' now Hs Hf E Hk Hnd Httl) as (s2 & E2 & I1 & I2 & _).
    rewrite E2 in Hstart. injection Hstart as <-. exists abs. split; [|done]. destruct I1. split; try done. lia.
Qed.

Lemma lives_inv (k bound : nat) (x x' : Tracked) (abs : Abs) :
  (Z.of_nat (2 * k + bound) < U64_MODULUS)%Z -> sys_inv digest32 U bound x.1 x.2 abs -> files_ok digest32 U x.1 x.2 ->
  nsteps life k x x' ->
  exists abs', sys_inv digest32 U (2 * k + bound) x'.1 x'.2 abs' /\ files_ok digest32 U x'.1 x'.2.
Proof.
  intros Hb Hs Hf Hk. revert bound abs Hb Hs Hf. induction Hk as [|k s1 s2 s3 H1 Hk IH]; intros bound abs Hb Hs Hf; [by exists abs|].
  destruct (life_inv bound s1 s2 abs) as (abs' & Hs' & Hf'); [lia|done..|].
  destruct (IH (2 + bound) abs') as (abs'' & Hs'' & Hf''); [lia|done..|]. exists abs''.
  by replace (2 * S k + bound) with (2 * k + (2 + bound)) by lia.
Qed.

(** What a crash leaves: the directory as it is, or with some of the files of a
    save written already *)
Inductive left_by_crash (s : Sys) : Directory -> Prop :=
  | cr_idle : left_by_crash s (dir s)
  | cr_saving all l :
      l ⊆ hash_elems (present_shards (db s)) ->
      left_by_crash s (with_shard_files (dir s) (saved_files digest32 all (Database.dirty (db s)) (db s) (shard_files (dir s)) l)).

Lemma crash_spec bound s risk d abs :
  sys_inv digest32 U bound s risk abs -> files_ok digest32 U s risk -> left_by_crash s d ->
  implements digest32 (shard_files d) (db s) abs /\ in_U U (db s) /\ files_ok digest32 U (mkSys (db s) d) risk
  /\ forall sh, sh ∉ Database.dirty (db s) -> sh ∉ risk -> sh <> INTERNAL_SHARD -> filed digest32 (mkSys (db s) d) sh.
Proof.
  intros [Himp [Hst Hcl] _ _ _ Hin _] Hf [|all l Hl].
  { split_and!; [done|done|by destruct s|]. intros sh H1 Hk H2 m Hm Hr. left. by eapply Hcl. }
  set (disk' := saved_files digest32 all (Database.dirty (db s)) (db s) (shard_files (dir s)) l).
  assert (Hpres : forall x, x ∈ l -> x ∈ U /\ shard_resident (db s) x = true /\ is_Some (shards (db s) !! x)).
  { intros x Hx. apply Hl, elem_of_hash_elems, elem_of_present in Hx as (n & Hn & <-).
    destruct (inv_mem _ _ _ (proj1 Himp) n Hn) as (m & Hm & _). split_and!; [apply Hin; eauto| |eauto].
    by eapply mem_resident; [apply Himp|]. }
  assert (Hread : forall x, x ∈ U -> read_shard_file digest32 disk' x =
    if bool_decide (x ∈ l) && writes all (Database.dirty (db s)) x then inl (stored_values <$> shard_snapshot (db s) x)
    else read_shard_file digest32 (shard_files (dir s)) x).
  { intros x Hx. apply (saved_files_read _ _ _ _ _ _ _ (fun x => x ∈ U)); [done| |done]. intros y Hy. by apply Hpres. }
  split_and!; [|done| |].
  - eapply implements_disk; [exact Himp|]. intros x m Hm Hr. change (read_shard_file digest32 disk' x = read_shard_file digest32 (shard_files (dir s)) x).
    rewrite Hread by (apply Hin; eauto). rewrite bool_decide_eq_false_2; [done|]. intros Hx. destruct (Hpres x Hx) as (_ & Hr' & _).
    unfold shard_resident in Hr'. by rewrite Hm, Hr in Hr'.
  - split; cbn [System.db System.dir with_shard_files shard_files legacy_file]; [apply Hf| |].
    + apply saved_good; [|apply Himp|apply Hf]. intros x Hx. destruct (Hpres x Hx) as (? & _ & ?). done.
    + intros Hp Hd Hk. fold disk'. rewrite Hread by done. rewrite bool_decide_eq_false_2; [by apply Hf|].
      intros Hx. apply Hp. by apply Hl, elem_of_hash_elems in Hx.
  - intros sh H1 Hk H2 m Hm Hr. left. cbn [System.db System.dir with_shard_files shard_files] in *. fold disk'.
    assert (HU : sh ∈ U) by (apply Hin; eauto). specialize (Hread sh HU).
    destruct (bool_decide (sh ∈ l) && writes all (Database.dirty (db s)) sh).
    + eapply synced_ext; [eapply (synced_save digest32 (shard_files (dir s)) _ (db s) sh), Himp| |done|done].
      rewrite Hread. symmetry. apply read_put_shard.
    + eapply synced_ext; [eapply Hcl; done|done|done|done].
Qed.
End Life.

(** What the last save of an orderly stop leaves at risk: nothing, if the files of
    the shards without namespaces go with it. *)
Lemma last_save_settles `{HashOrder} fails db0 risk :
  (forall sh, sh ∉ present_shards db0 -> sh ∈ risk \/ sh ∈ Database.dirty db0 ->
     sh ∈ Database.dirty db0 /\ fails (StaleTarget sh) = false) ->
  risk_saved fails true db0 true risk = ∅.
Proof.
  intros Hf. apply set_eq. intros sh. unfold risk_saved. rewrite elem_of_filter, elem_of_union. split; [|set_solver].
  intros [Hs Hor]. unfold settled, writes in Hs. case_bool_decide as Hp; [done|].
  destruct (Hf sh Hp Hor) as [Hd He]. rewrite (bool_decide_eq_true_2 _ Hd), He in Hs. done.
Qed.

(** ** Properties *)

(** C3: a restart loses nothing.  Take a server that started on an empty
    directory and went through a run of the kind of C1, orderly restarts included,
    with no single-file snapshot of an older version beside the shards; let it
    stop in order, its last save succeed, and no file of a shard without
    namespaces outlive that save, be it that it could not be removed or that an
    earlier failed save had taken its mark.  Then it starts again, under any
    configuration that keeps its name, with the same contents: every namespace
    with every value, their counts per server, windows to the second, statistics,
    tags and lifetimes.  The count of every value in [_all] is still the number of
    ordinary namespaces that hold it. *)
Theorem restart_exact `{Chrono, HashOrder} digest32 U p sp nd store0 t k s risk fails stopped r st dbdir fails' now :
  distinct_files digest32 U -> INTERNAL_SHARD ∈ U -> is_u64 (shadow_ttl p) -> (Z.of_nat (2 * k) < U64_MODULUS)%Z ->
  nsteps (life digest32 U) k (start p sp nd store0 t, ∅) (s, risk) ->
  shut_down digest32 fails s = (stopped, Some r) ->
  (forall sh, sh ∉ present_shards (db s) -> sh ∈ risk \/ sh ∈ Database.dirty (db s) ->
     sh ∈ Database.dirty (db s) /\ fails (StaleTarget sh) = false) ->
  s_node_id st = node (db s) -> is_u64 (s_shadow_ttl st) ->
  exists s' abs, start_up digest32 fails' st dbdir (dir stopped) now = inl s'
    /\ implements digest32 (shard_files (dir s)) (db s) abs
    /\ implements digest32 (shard_files (dir s')) (db s') abs
    /\ forall v now', (count_in digest32 (shard_files (dir s')) now' (db s') ALL_NAMESPACE v).2 = Z.of_nat (holders abs v).
Proof.
  intros Hd HI Hp Hk Hl E Hstale Hnd Httl.
  destruct (lives_inv digest32 U Hd HI k 0 (_, _) (s, risk) ∅ ltac:(lia) (sys_start_inv digest32 U p sp nd store0 t Hp)
    (files_start digest32 U p sp nd store0 t) Hl) as (abs & Hs & Hf).
  destruct (restart_inv digest32 U Hd HI _ fails s risk stopped r abs st dbdir fails' now Hs Hf E (last_save_settles _ _ _ Hstale) Hnd Httl)
    as (s' & E' & I1 & _ & _).
  exists s', abs. split_and!; [done|apply Hs|apply I1|]. destruct I1 as [J1 _ _ J2 J3 _ _]. intros v now'.
  apply consensus_count; [done|done|lia].
Qed.

(** C4: a server that is killed comes back with all that had been saved.  Take a
    server as in C3, after any run, failed saves included; it can be started on
    the directory as it is between any two steps or half way through writing the
    shards of a save, and then has every namespace of every shard that is neither
    marked as unsaved nor at risk (the internal shard apart), as it was.  At risk
    are the shards that were marked when a save failed, or whose file could not
    be removed, or that a merge without effect touched, and that were not saved
    since. *)
Theorem crash_recovers `{Chrono, HashOrder} digest32 U p sp nd store0 t k s risk d st dbdir fails now :
  distinct_files digest32 U -> INTERNAL_SHARD ∈ U -> is_u64 (shadow_ttl p) -> (Z.of_nat (2 * k) < U64_MODULUS)%Z ->
  nsteps (life digest32 U) k (start p sp nd store0 t, ∅) (s, risk) -> left_by_crash digest32 s d -> s_node_id st = node (db s) ->
  exists s' abs abs', start_up digest32 fails st dbdir d now = inl s'
    /\ implements digest32 (shard_files (dir s)) (db s) abs
    /\ implements digest32 (shard_files (dir s')) (db s') abs'
    /\ forall n, shard_of n ∉ Database.dirty (db s) -> shard_of n ∉ risk -> shard_of n <> INTERNAL_SHARD -> abs' !! n = abs !! n.
Proof.
  intros Hd HI Hp Hk Hl Hcr Hnd.
  destruct (lives_inv digest32 U Hd HI k 0 (_, _) (s, risk) ∅ ltac:(lia) (sys_start_inv digest32 U p sp nd store0 t Hp)
    (files_start digest32 U p sp nd store0 t) Hl) as (abs & Hs & Hf).
  destruct (crash_spec digest32 U Hd HI _ s risk d abs Hs Hf Hcr) as (I1 & I2 & I3 & I4).
  destruct (start_up_spec digest32 U fails st dbdir (mkSys (db s) d) risk now abs Hd HI I1 I2 I3 Hnd) as (s' & abs' & E & J1 & _ & _ & _ & _ & _ & _ & J2).
  exists s', abs, abs'. split_and!; [done|apply Hs|done|]. intros n Hdirty Hrisk Hn. apply J2. by apply I4.
Qed.

(** ** The run of [System], restarted *)
Definition restart_settings : Settings :=
  mkSettings true (lit "127.0.0.1:9999") true false None 0 [] [] (Some (lit "db")) 300 3 60 720 0 1000 true 10000 (lit "n1") None None
    ∅ None default_policy None None None default_stix (from_prefixes [lit "feeds"]) None None.

Lemma demo_life `{Chrono, HashOrder} : nsteps (life (fun _ => 7%N) demo_names) 5 (demo_start, ∅) (demo_run, ∅).
Proof. apply (nsteps_congruence (R := step (fun _ => 7%N) demo_names) id); [apply li_step|apply demo_run_steps]. Qed.

(** Stopped, started and stopped again *)
Lemma restart_exact_witness :
  let C := chrono_10000y in let O := some_order in
  exists s', start_up (fun _ => 7%N) (fun _ => false) restart_settings (lit "db") (dir (shut_down (fun _ => 7%N) (fun _ => false) demo_run).1)
      (9000 * NANOS) = inl s'
    /\ (count_in (fun _ => 7%N) (shard_files (dir s')) (9000 * NANOS) (db s') ALL_NAMESPACE (lit "x")).2 = 2%Z.
Proof.
  intros C O. destruct (@restart_exact C O (fun _ => 7%N) demo_names (mkPolicy 3600 0) (from_prefixes [lit "feeds"]) (lit "n1")
    (mkStore (lit "db") 3) default_policy 5 demo_run ∅ (fun _ => false) (shut_down (fun _ => 7%N) (fun _ => false) demo_run).1
    (default (mkSave 0 0) (shut_down (fun _ => 7%N) (fun _ => false) demo_run).2) restart_settings (lit "db") (fun _ => false) (9000 * NANOS)
    demo_distinct demo_internal ltac:(done) ltac:(done) demo_life ltac:(by vm_compute)
    (fun sh _ Hx => match Hx with or_introl Hr => match proj1 (elem_of_empty sh) Hr with end | or_intror Hd => conj Hd eq_refl end)
    ltac:(by vm_compute) ltac:(done))
    as (s' & abs & E & I1 & I2 & Hv).
  exists s'. split; [exact E|]. clear -E. vm_compute in E. injection E as <-. vm_compute. reflexivity.
Defined.

(** Killed while the shard of the feeds was being saved again *)
Lemma crash_recovers_witness :
  let C := chrono_10000y in let O := some_order in
  let d := with_shard_files (dir demo_run) (saved_files (fun _ => 7%N) true (Database.dirty (db demo_run)) (db demo_run) (shard_files (dir demo_run)) [lit "feeds"]) in
  exists s' abs abs', start_up (fun _ => 7%N) (fun _ => false) restart_settings (lit "db") d (9000 * NANOS) = inl s'
    /\ implements (fun _ => 7%N) (shard_files (dir demo_run)) (db demo_run) abs
    /\ implements (fun _ => 7%N) (shard_files (dir s')) (db s') abs' /\ abs' !! lit "feeds/a" = abs !! lit "feeds/a".
Proof.
  intros C O d. assert (Hcr : left_by_crash (fun _ => 7%N) demo_run d).
  { apply cr_saving. intros x ->%list_elem_of_singleton. apply (bool_decide_unpack _). vm_compute. exact I. }
  destruct (@crash_recovers C O (fun _ => 7%N) demo_names (mkPolicy 3600 0) (from_prefixes [lit "feeds"]) (lit "n1")
    (mkStore (lit "db") 3) default_policy 5 demo_run ∅ d restart_settings (lit "db") (fun _ => false) (9000 * NANOS)
    demo_distinct demo_internal ltac:(done) ltac:(done) demo_life Hcr ltac:(by vm_compute)) as (s' & abs & abs' & E & I1 & I2 & Hn).
  exists s', abs, abs'. split; [exact E|]. split; [exact I1|]. split; [exact I2|].
  apply Hn; apply (bool_decide_unpack _); vm_compute; exact I.
Defined.

(** ** The recent writes *)
Lemma fold_push cap saved i :
  latest_inv i -> (0 <= next i)%Z -> (next i + Z.of_nat (length saved) < U64_MODULUS)%Z ->
  NoDup (entry_key <$> listed i ++ saved) ->
  let j := foldl (fun i e => push i e cap) i saved in
  latest_inv j /\ (saved <> [] \/ length (listed i) <= cap -> listed j = drop (length (listed i ++ saved) - cap) (listed i ++ saved)).
Proof.
  revert i. induction saved as [|e saved IH]; intros i Hi H0 Hn Hnd; cbn [foldl].
  { split; [done|]. intros [|Hc]; [done|]. rewrite app_nil_r. replace (length (listed i) - cap) with 0 by lia. done. }
  cbn [length] in Hn. destruct (push_spec i e cap Hi ltac:(lia) H0) as (I1 & I2 & I3). cbv zeta in I3.
  assert (Hf : filter (fun x => entry_key x <> entry_key e) (listed i) = listed i).
  { apply list_filter_all. intros x Hx He. rewrite fmap_app, fmap_cons in Hnd. apply NoDup_app in Hnd as (_ & Hdis & _).
    apply (Hdis (entry_key x)); [by apply list_elem_of_fmap_2|]. rewrite He. left. }
  rewrite Hf in I3. set (k := length (listed i ++ [e]) - cap) in *.
  assert (Hsp : listed (push i e cap) ++ saved = drop k (listed i ++ e :: saved)).
  { rewrite I3. change (e :: saved) with ([e] ++ saved). rewrite app_assoc, (drop_app_le (listed i ++ [e]) saved) by (unfold k; lia). done. }
  destruct (IH (push i e cap) I1 ltac:(lia) ltac:(lia)) as [J1 J2].
  { rewrite Hsp, fmap_drop. eapply sublist_NoDup; [exact Hnd|apply sublist_drop]. }
  split; [done|]. intros _. rewrite J2.
  - rewrite Hsp, length_drop, drop_drop. f_equal. unfold k. rewrite !length_app. cbn. lia.
  - right. rewrite I3, length_drop. lia.
Qed.

(** The list of recent writes is read back up to its default length, whatever
    length is configured: it is restored before its capacity is set, so of a
    longer list the oldest are gone after a restart. *)
Theorem restart_shortens_latest `{Chrono, HashOrder} s d now db saved :
  latest_file d = Some saved -> NoDup (entry_key <$> saved) -> (Z.of_nat (length saved) < U64_MODULUS)%Z ->
  open_database s (Some d) now = inl db ->
  listed (inner (latest (set_up s db)))
  = drop (length saved - Nat.min Latest.DEFAULT_CAPACITY (Z.to_nat (s_latest_writes s))) saved.
Proof.
  intros Hl Hnd Hlen Ho.
  assert (Hdb : latest db = Latest.restore default_latest saved).
  { unfold open_database, restore_records in Ho. rewrite Hl in Ho. destruct (load d) as [[data|]|]; [| |done];
      injection Ho as <-; by destruct (activity_file d). }
  unfold set_up. cbn [latest with_latest with_activity]. rewrite Hdb. unfold Latest.restore.
  change (listed (inner default_latest)) with (@nil Latest.Entry). rewrite app_nil_r. cbn [capacity default_latest].
  generalize Latest.DEFAULT_CAPACITY. intros cap. set (i0 := mkInner ∅ ∅ 0 false).
  destruct (fold_push cap saved i0 (empty_inv 0 false) ltac:(done) ltac:(cbn; lia) Hnd) as [J1 J2].
  assert (HJ : listed (foldl (fun i e => push i e cap) i0 saved) = drop (length saved - cap) saved).
  { apply J2. destruct saved; [right; change (0 <= cap); lia|by left]. }
  unfold Latest.set_capacity. cbn [inner]. change (mkInner _ _ _ _) with i0. unfold inner_trim.
  set (j := foldl _ i0 saved) in *.
  destruct (trim_loop_spec (size (order j)) j (Z.to_nat (s_latest_writes s)) J1 ltac:(lia)) as (_ & T & _).
  match goal with |- listed (if ?b then _ else _) = _ => assert (E : forall b', listed (if b' : bool then
    set_dirty (trim_loop (size (order j)) j (Z.to_nat (s_latest_writes s))) true else trim_loop (size (order j)) j (Z.to_nat (s_latest_writes s)))
    = listed (trim_loop (size (order j)) j (Z.to_nat (s_latest_writes s)))) by (by intros []) end.
  rewrite E, T, HJ, length_drop, drop_drop. f_equal. lia.
Qed.
