(* ===== verification/Forward.v ===== *)
(** * Forwarding

    Models the part of [src/src/galaxy.rs] that sends: the hop budget and the
    origin a forwarded request carries, the request built for a peer, reads,
    writes and batches passed on, the walk of a cascade, the gossip of keys and
    tiers, and one probe.

    What a peer answers is the network's business: [exchange] takes a request
    and the world and gives the world afterwards with the response, or the
    error the [awc] client reported.  Parsing a JSON body is [serde_json]'s:
    [from_slice] stands for it.  A computation that sends is a function of the
    world, composed with the monad below. *)

From stdpp Require Import base numbers list strings gmap sorting pretty.
From S2P Require Import Prelude Text Paths Acl Attribute Peers.

Abbreviation bytes := (list N).

(** ** JSON values *)

(** [serde_json::Value]; a number is an integer here, or one that is not. *)
Inductive Json :=
  | JNull
  | JBool (b : bool)
  | JInt (n : Z)
  | JFloat
  | JStr (s : str)
  | JArr (l : list Json)
  | JObj (fields : list (str * Json)).

(** [Value::get] with a string, and the [as_*] accessors. *)
Definition json_get (key : str) (j : Json) : option Json :=
  match j with
  | JObj fs => snd <$> head (filter (fun p => p.1 = key) fs)
  | _ => None
  end.
Definition json_str (j : Json) : option str := match j with JStr s => Some s | _ => None end.
Definition json_bool (j : Json) : option bool := match j with JBool b => Some b | _ => None end.
Definition json_array (j : Json) : option (list Json) := match j with JArr l => Some l | _ => None end.
Definition json_u64 (j : Json) : option Z :=
  match j with JInt n => if bool_decide (0 <= n < U64_MODULUS)%Z then Some n else None | _ => None end.

(** ** HTTP *)
Inductive Method := GET | POST | PUT | DELETE.

(** A header value is its text, or [None] where [HeaderValue::to_str] fails. *)
Abbreviation Headers := (list (str * option str)).

(** [HeaderMap::get]: names are compared without regard to case. *)
Definition header (hs : Headers) (name : str) : option (option str) :=
  snd <$> head (filter (fun p => eq_ignore_ascii_case p.1 name = true) hs).

Record Request := mkRequest { rq_method : Method; rq_url : str; rq_headers : Headers; rq_body : option bytes }.

(** A response; reading its body up to a limit gives the bytes or an error. *)
Record Response := mkResponse { rs_status : Z; rs_headers : Headers; rs_body : Z -> bytes + str }.

Class Network (W : Type) := {
  exchange : Request -> W -> W * (Response + str);
  (** whether the [awc] client could be built *)
  have_client : bool -> bool;
  (** [ClientResponse::json] *)
  response_json : Response -> option Json;
}.

(** [from_slice] into a [Value], what its error says when there is one, and
    [to_vec]. *)
Class Serde := { from_slice : bytes -> option Json; parse_error : bytes -> str; to_vec : Json -> option bytes }.

(** The network, with a state of this server's beside it. *)
#[export] Instance net_with {W S : Type} `{Network W} : Network (W * S) :=
  {| exchange rq s := let r := exchange rq s.1 in ((r.1, s.2), r.2);
     have_client := have_client; response_json := response_json |}.

(** Computations that use the network. *)
Definition Net (W A : Type) : Type := W -> W * A.
#[export] Instance Net_ret {W} : MRet (Net W) := fun A x w => (w, x).
#[export] Instance Net_bind {W} : MBind (Net W) := fun A B k m w => let r := m w in k r.2 r.1.
#[export] Instance Net_fmap {W} : FMap (Net W) := fun A B f m w => let r := m w in (r.1, f r.2).

(** A step written out as what it does to the world. *)
Definition act {W A} (f : W -> W * A) : Net W A := f.

(** A loop over a list that carries a value. *)
Fixpoint net_fold {W A B} (f : B -> A -> Net W B) (b : B) (l : list A) : Net W B :=
  match l with
  | [] => mret b
  | x :: r => b' ← f b x; net_fold f b' r
  end.

(** ** Errors *)
Inductive ForwardError :=
  | NoHolder
  | AllDown (namespace : str)
  | TooManyHops
  | Unreachable (e : str).

(** [Display] *)
Definition forward_message (e : ForwardError) : str :=
  match e with
  | NoHolder => lit "no server in this galaxy stores that namespace"
  | AllDown ns => lit "every server storing '" ++ ns ++ lit "' is unreachable from here"
  | TooManyHops => lit "the hop limit was reached: the galaxy is wired in a loop, or is deeper than max_hops allows"
  | Unreachable e => lit "could not reach the server holding it: " ++ e
  end.

(** ** The forwarding headers *)
Definition HOPS_HEADER : str := lit "X-SightingDB-Hops".
Definition ORIGIN_HEADER : str := lit "X-SightingDB-Origin".
Definition FORWARD_BODY_LIMIT : Z := 64 * 1024 * 1024.

Definition origin_of (hs : Headers) : option str :=
  match header hs HOPS_HEADER with
  | None => None
  | Some _ =>
      match header hs ORIGIN_HEADER with
      | Some (Some text) => let origin := trim text in if is_empty origin then None else Some origin
      | _ => None
      end
  end.

Definition hops_left (hs : Headers) (max : Z) : option Z :=
  match header hs HOPS_HEADER with
  | None => Some max
  | Some None => None
  | Some (Some text) =>
      match u8_from_str (trim text) with
      | Some n => if (0 <? n)%N then Some (Z.of_N n) else None
      | None => None
      end
  end.

(** [hops_left - 1] on a [u8] in a release build. *)
Definition u8_pred (h : Z) : Z := (h - 1) mod 256.

Record Forwarded := mkForwarded { fw_status : Z; fw_body : bytes; fw_headers : list (str * str) }.

Definition is_success (status : Z) : bool := bool_decide (200 <= status < 300)%Z.

Definition kept_header (name : str) : bool :=
  let name := to_ascii_lowercase name in
  bool_decide (name = lit "content-type") || starts_with (lit "x-sightingdb-") name.

Section Sending.
Context {W : Type} `{Network W} `{Serde} `{HashOrder} (digest64 : str -> N).

(** ** Sending to one peer *)
Definition outgoing (peer : Peer) (method : Method) (path : str) (body : option bytes) (hops : Z) (origin : str) :
    Request :=
  mkRequest method (p_url peer ++ path)
    ([(lit "Authorization", Some (p_key peer)); (HOPS_HEADER, Some (dec (Z.to_N (u8_pred hops))));
      (ORIGIN_HEADER, Some origin)]
     ++ match body with Some _ => [(lit "Content-Type", Some (lit "application/json"))] | None => [] end) body.

(** The headers worth passing back. *)
Definition relayed_headers (hs : Headers) : list (str * str) :=
  omap (fun p => (fun text => (p.1, text)) <$> p.2) (filter (fun p => kept_header p.1 = true) hs).

Definition send (g : Galaxy) (peer : Peer) (method : Method) (path : str) (body : option bytes) (hops : Z)
    (origin : str) : Net W (Forwarded + ForwardError) :=
  if negb (have_client (verify_tls g)) then mret (inr (Unreachable (lit "no HTTP client could be built")))
  else
    answer ← exchange (outgoing peer method path body hops origin);
    mret match answer with
         | inr e => inr (Unreachable e)
         | inl response =>
             match rs_body response FORWARD_BODY_LIMIT with
             | inr e => inr (Unreachable e)
             | inl b => inl (mkForwarded (rs_status response) b (relayed_headers (rs_headers response)))
             end
         end.

(** ** Passing on what a client asked *)
Definition forward_read (g : Galaxy) (ns value path : str) (hops : Z) (origin : str) :
    Net W (Forwarded + ForwardError) :=
  if bool_decide (hops = 0%Z) then mret (inr TooManyHops)
  else if is_empty (peer_holders g ns) then mret (inr NoHolder)
  else
    match reader_for digest64 g ns value with
    | None => mret (inr (AllDown ns))
    | Some peer => send g peer GET path None hops origin
    end.

Definition reader_url (g : Galaxy) (ns value : str) : str + ForwardError :=
  if is_empty (peer_holders g ns) then inr NoHolder
  else match reader_for digest64 g ns value with Some peer => inl (p_url peer) | None => inr (AllDown ns) end.

Definition forward_to (g : Galaxy) (url : str) (method : Method) (path : str) (body : option bytes) (hops : Z)
    (origin : str) : Net W (Forwarded + ForwardError) :=
  if bool_decide (hops = 0%Z) then mret (inr TooManyHops)
  else
    match head (filter (fun p => p_url p = url) (peers g)) with
    | None => mret (inr (Unreachable (url ++ lit " is not a configured peer")))
    | Some peer => send g peer method path body hops origin
    end.

(** The loop of [forward_write] and [forward_batch]: what each peer answered,
    and the last error. *)
Definition Answers : Type := list (str * Forwarded) * option ForwardError.
Definition send_one (g : Galaxy) (method : Method) (path : str) (body : option bytes) (hops : Z) (origin : str)
    (st : Answers) (peer : Peer) : Net W Answers :=
  r ← send g peer method path body hops origin;
  mret match r with
       | inl answer => (st.1 ++ [(p_url peer, answer)], st.2)
       | inr e => (st.1, Some e)
       end.

Definition forward_write (g : Galaxy) (ns : str) (method : Method) (path : str) (body : option bytes) (hops : Z)
    (origin : str) : Net W (list (str * Forwarded) + ForwardError) :=
  if bool_decide (hops = 0%Z) then mret (inr TooManyHops)
  else if is_empty (peer_holders g ns) then mret (inr NoHolder)
  else
    let live := live_holders g ns in
    if is_empty live then mret (inr (AllDown ns))
    else
      st ← net_fold (send_one g method path body hops origin) ([], None) live;
      mret (if is_empty st.1 then inr (default (AllDown ns) st.2) else inl st.1).

(** The two loops that gather the peers holding any part of a batch. *)
Definition want_peer (wanted : list Peer) (peer : Peer) : list Peer :=
  if known_url wanted (p_url peer) then wanted else wanted ++ [peer].
Definition wanted_peers (g : Galaxy) (namespaces : list str) : list Peer :=
  foldl (fun wanted ns => foldl want_peer wanted (live_holders g ns)) [] namespaces.

Definition forward_batch (g : Galaxy) (namespaces : list str) (path : str) (body : bytes) (hops : Z)
    (origin : str) : Net W (list (str * Forwarded) + ForwardError) :=
  if bool_decide (hops = 0%Z) then mret (inr TooManyHops)
  else
    let wanted := wanted_peers g namespaces in
    if is_empty wanted then mret (inr NoHolder)
    else
      st ← net_fold (send_one g POST path (Some body) hops origin) ([], None) wanted;
      mret (if is_empty st.1 then inr (default NoHolder st.2) else inl st.1).

(** ** Pushing one value *)
Definition pushed (r : Forwarded + ForwardError) (lossy : bytes -> str) : Z + str :=
  match r with
  | inl answer =>
      if is_success (fw_status answer) then inl (fw_status answer)
      else inr (lit "answered " ++ lit (pretty (fw_status answer)) ++ lit ": " ++ lossy (fw_body answer))
  | inr e => inr (forward_message e)
  end.

(** What is pushed: the state of one value, as [/_api/merge] takes it.  [serde]
    writes a map as an object, with an integer key as its decimal text. *)
Definition value_json (ns value : str) (state : Merge) : Json :=
  JObj [(lit "items", JArr [JObj [
    (lit "namespace", JStr ns); (lit "value", JStr value);
    (lit "counts", JObj ((fun c => (c.1, JInt c.2)) <$> btree_iter (m_counts state)));
    (lit "stats", JObj ((fun n => (n.1, JObj ((fun h => (lit (pretty h.1), JInt h.2)) <$> btree_iter n.2)))
                          <$> btree_iter (m_stats state)));
    (lit "first_seen", JInt (m_first_seen state)); (lit "last_seen", JInt (m_last_seen state));
    (lit "tags", JStr (m_tags state)); (lit "tags_at", JInt (m_tags_at state)); (lit "ttl", JInt (m_ttl state))]])].

(** [push_value]; [lossy] is [String::from_utf8_lossy]. *)
Definition push_value (g : Galaxy) (lossy : bytes -> str) (ns value : str) (state : Merge) (hops : Z) :
    Net W (list (str * (Z + str))) :=
  let body := default [] (to_vec (value_json ns value state)) in
  net_fold (fun outcomes peer =>
              sent ← send g peer POST (lit "/_api/merge") (Some body) hops [];
              mret (outcomes ++ [(p_url peer, pushed sent lossy)])) [] (live_holders g ns).

(** ** Walking a cascade *)
Definition walk (g : Galaxy) (hops : Z) : Net W (list (str * Json)) :=
  if bool_decide (hops = 0%Z) then mret []
  else
    net_fold (fun found peer =>
                r ← send g peer GET (lit "/_management/api/galaxy") None hops [];
                mret match r with
                     | inl answer =>
                         if is_success (fw_status answer) then
                           match from_slice (fw_body answer) with
                           | Some view => found ++ [(p_url peer, view)]
                           | None => found
                           end
                         else found
                     | inr _ => found
                     end) [] (peers g).

(** ** Gossip *)
Record Gossiped := mkGossiped { accepted : nat; refused : nat; failed : nat }.
Definition gossip_none : Gossiped := mkGossiped 0 0 0.

Definition spread (g : Galaxy) (method : Method) (path : str) (body : option bytes) (hops : Z) : Net W Gossiped :=
  if bool_decide (hops = 0%Z) then mret gossip_none
  else
    net_fold (fun report peer =>
                r ← send g peer method path body hops [];
                mret match r with
                     | inl answer =>
                         if is_success (fw_status answer)
                         then mkGossiped (S (accepted report)) (refused report) (failed report)
                         else if bool_decide (fw_status answer = 403%Z) || bool_decide (fw_status answer = 401%Z)
                         then mkGossiped (accepted report) (S (refused report)) (failed report)
                         else mkGossiped (accepted report) (refused report) (S (failed report))
                     | inr _ => mkGossiped (accepted report) (refused report) (S (failed report))
                     end) gossip_none (peers g).

(** [serde_json::to_vec(..).unwrap_or_default()] *)
Definition rendered (j : Json) : bytes := default [] (to_vec j).

Definition push_key (g : Galaxy) (entry : Json) (hops : Z) : Net W Gossiped :=
  spread g POST (lit "/_management/api/keys") (Some (rendered entry)) hops.
Definition push_key_list (g : Galaxy) (keys : Json) (hops : Z) : Net W Gossiped :=
  spread g PUT (lit "/_management/api/keys") (Some (rendered (JObj [(lit "keys", keys)]))) hops.
Definition owns_the_acl (g : Galaxy) : bool := acl_authority g.
Definition push_tier (g : Galaxy) (change : Json) (hops : Z) : Net W Gossiped :=
  spread g POST (lit "/_management/api/tier") (Some (rendered change)) hops.
End Sending.

(** ** Percent encoding *)
Definition url_safe (b : N) : bool :=
  is_ascii_alphanumeric b || (b =? 45)%N || (b =? 95)%N || (b =? 46)%N || (b =? 126)%N.
Definition urlencoding_of (value : str) : str :=
  mjoin ((fun b => if url_safe b then [b] else percent b) <$> mjoin (utf8_bytes <$> value)).

Section Sending2.
Context {W : Type} `{Network W} `{Serde}.

Definition push_key_removal (g : Galaxy) (key : str) (hops : Z) : Net W Gossiped :=
  spread g DELETE (lit "/_management/api/keys/" ++ urlencoding_of key) None hops.

(** ** The keys peers hold *)
Record PeerKeys := mkPeerKeys { pk_url : str; pk_keys : list str; pk_readable : bool; pk_error : option str }.

Definition keys_in (body : bytes) : list str :=
  match from_slice body with
  | Some (JArr l) => omap (fun k => match json_get (lit "key") k with Some v => json_str v | None => None end) l
  | _ => []
  end.

Definition peer_keys (g : Galaxy) : Net W (list PeerKeys) :=
  net_fold (fun found peer =>
              r ← send g peer GET (lit "/_management/api/keys") None 1 [];
              mret (found ++ [match r with
                    | inl answer =>
                        if is_success (fw_status answer)
                        then mkPeerKeys (p_url peer) (keys_in (fw_body answer)) true None
                        else if bool_decide (fw_status answer = 401%Z) || bool_decide (fw_status answer = 403%Z)
                        then mkPeerKeys (p_url peer) [] false (Some (lit "this server does not administer that peer"))
                        else mkPeerKeys (p_url peer) [] false
                               (Some (lit "answered " ++ lit (pretty (fw_status answer))))
                    | inr e => mkPeerKeys (p_url peer) [] false (Some (forward_message e))
                    end])) [] (peers g).

(** ** Probing

    [clock] is the round trip the probe measured, [status_text] how [awc] writes
    a status out.  A probe carries no headers of ours and no key. *)
Definition probe (clock : W -> Z) (status_text : Z -> str) (url : str) : Net W (Probed + str) :=
  fun w0 =>
    let r := exchange (mkRequest GET (url ++ lit "/health") [] None) w0 in
    (r.1, match r.2 with
          | inr e => inr e
          | inl response =>
              if negb (is_success (rs_status response)) then inr (lit "answered " ++ status_text (rs_status response))
              else
                let body := response_json response in
                let field name := match body with Some j => json_get name j | None => None end in
                inl (mkProbed (match field (lit "version") with Some v => json_str v | None => None end) (clock r.1)
                       (default false (match field (lit "catching_up") with Some v => json_bool v | None => None end)))
          end).

(** One round of [run]: every enabled peer is probed, unless the server is being
    stopped. *)
Definition probe_round (clock : W -> Z) (status_text : Z -> str) (stopped : W -> bool) (now : W -> Z)
    (g : Galaxy) : Net W Galaxy :=
  fun w0 =>
    let step (st : Galaxy * bool) (peer : Peer) : Net W (Galaxy * bool) :=
      fun w =>
        if st.2 || stopped w then (w, (st.1, true))
        else let r := probe clock status_text (p_url peer) w in
             (r.1, (galaxy_record (now r.1) st.1 (p_url peer) r.2, false)) in
    let r := net_fold step (g, false) (peers g) w0 in (r.1, r.2.1).
End Sending2.
