(* ===== verification/Stix.v ===== *)
(** * STIX bundles

    Models [src/src/stix.rs]: what kind of observable a value is, the pattern,
    indicator and sighting made for it, the bundle made of several namespaces,
    its export straight from the database, and the folding of the bundles of
    several servers into one; with the standard library's parsers of addresses.

    Name-based UUIDs and the reading and writing of RFC 3339 are the [uuid] and
    [chrono] crates': [StixLibs].  A JSON object is the list of its fields in the
    order they are put in; [serde_json] keeps them sorted. *)

From stdpp Require Import base numbers list strings gmap sorting pretty.
From S2P Require Import Prelude Text Activity Latest Attribute Paths Acl Tags Tier Namespace Disk Database Listing DnsName Peers Config Forward.

Class StixLibs := {
  uuid_v5 : str -> str;            (** [Uuid::new_v5(&SIGHTINGDB, ..)], in hexadecimal *)
  uuid_parses : str -> bool;       (** [Uuid::parse_str(..).is_ok()] *)
  to_rfc3339 : Z -> str;           (** [to_rfc3339_opts(Millis, true)] of an instant *)
  parse_rfc3339 : str -> option Z; (** [DateTime::parse_from_rfc3339], its [timestamp] *)
}.

(** ** Addresses in text: [core::net::parser] *)
Definition SLASH : N := 47.
Definition AT : N := 64.
Definition COLON : N := 58.
Definition BACKSLASH : N := 92.
Definition QUOTE : N := 39.

(** The longest run of digits, and what follows it. *)
Fixpoint digits_of (radix : N) (s : str) : list N * str :=
  match s with
  | [] => ([], [])
  | c :: r => match to_digit radix c with
              | Some d => let q := digits_of radix r in (d :: q.1, q.2)
              | None => ([], s)
              end
  end.

(** [read_number(10, Some(3), false)] into a [u8] *)
Definition read_octet (s : str) : option str :=
  let q := digits_of 10 s in
  match q.1 with
  | [] => None
  | d :: r =>
      if (3 <? length q.1)%nat then None
      else if (d =? 0)%N && negb (is_empty r) then None
      else if (255 <? foldl (fun n x => n * 10 + x) 0 q.1)%N then None
      else Some q.2
  end.
(** [read_number(16, Some(4), true)] into a [u16] *)
Definition read_group (s : str) : option str :=
  let q := digits_of 16 s in
  if is_empty q.1 || (4 <? length q.1)%nat then None else Some q.2.

(** [read_given_char], and [read_separator] at an index *)
Definition read_char (c : N) (s : str) : option str :=
  match s with x :: r => if (x =? c)%N then Some r else None | [] => None end.
Definition read_separator (sep : N) (index : nat) (s : str) : option str :=
  match index with O => Some s | S _ => read_char sep s end.

Definition read_ipv4 (s : str) : option str :=
  r ← read_octet s; r ← read_char DOT r;
  r ← read_octet r; r ← read_char DOT r;
  r ← read_octet r; r ← read_char DOT r; read_octet r.

(** [read_groups] with [left] slots to fill and [i] filled: how many there are
    then, whether an IPv4 address ended them, and what follows. *)
Fixpoint read_groups (left i : nat) (s : str) : nat * bool * str :=
  match left with
  | O => (i, false, s)
  | S l =>
      let v4 := if (0 <? l)%nat then read_separator COLON i s ≫= read_ipv4 else None in
      match v4 with
      | Some r => (i + 2, true, r)
      | None =>
          match read_separator COLON i s ≫= read_group with
          | Some r => read_groups l (S i) r
          | None => (i, false, s)
          end
      end
  end.
Definition read_ipv6 (s : str) : option str :=
  let '(head_size, head_ipv4, r) := read_groups 8 0 s in
  if (head_size =? 8)%nat then Some r
  else if (head_ipv4 : bool) then None
  else
    match read_char COLON r ≫= read_char COLON with
    | None => None
    | Some r => Some (read_groups (8 - (head_size + 1)) 0 r).2
    end.

(** [parse::<Ipv4Addr>().is_ok()]: at most fifteen bytes, all of them read. *)
Definition is_ipv4 (s : str) : bool := (str_len s <=? 15)%nat && bool_decide (read_ipv4 s = Some []).
Definition is_ipv6 (s : str) : bool := bool_decide (read_ipv6 s = Some []).

(** ** What kind of observable a value is *)
Inductive Untyped := Skip | Include.
Definition UNTYPED_TYPE : str := lit "x-sightingdb-value".
Record Typing := mkTyping { observable : str; fallback : bool }.

Definition is_ascii_alphabetic (c : N) : bool := is_ascii_upper c || is_ascii_lower c.

Definition infer_type (value : str) : option str :=
  let value := trim value in
  if is_empty value then None
  else if str_contains (lit "://") value then Some (lit "url")
  else if is_ipv4 value then Some (lit "ipv4-addr")
  else if is_ipv6 value then Some (lit "ipv6-addr")
  else
    let block := match split_once SLASH value with
                 | Some (a, prefix) =>
                     match u8_from_str prefix with
                     | None => None
                     | Some _ => if is_ipv4 a then Some (lit "ipv4-addr")
                                 else if is_ipv6 a then Some (lit "ipv6-addr") else None
                     end
                 | None => None
                 end in
    match block with
    | Some t => Some t
    | None =>
        if bool_decide (AT ∈ value) && (length (split_char AT value) =? 2)%nat && negb (starts_with [AT] value)
        then Some (lit "email-addr")
        else
          let hex := forallb is_ascii_hexdigit value in
          let n := str_len value in
          if hex && (n =? 32)%nat then Some (lit "file.MD5")
          else if hex && (n =? 40)%nat then Some (lit "file.SHA-1")
          else if hex && (n =? 64)%nat then Some (lit "file.SHA-256")
          else if hex && (n =? 128)%nat then Some (lit "file.SHA-512")
          else
            let tld := default [] (last (split_char DOT value)) in
            if bool_decide (DOT ∈ value) && negb (bool_decide (32%N ∈ value))
               && (2 <=? str_len tld)%nat && forallb is_ascii_alphabetic tld
            then Some (lit "domain-name") else None
    end.

Definition observable_type (view : AttributeView) (default_type : option str) (untyped : Untyped) : option Typing :=
  match tag_value (v_tags view) (lit "stix-type") with
  | Some tagged => Some (mkTyping tagged false)
  | None =>
      match default_type with
      | Some configured => Some (mkTyping configured false)
      | None =>
          match infer_type (v_value view) with
          | Some inferred => Some (mkTyping inferred false)
          | None => match untyped with Skip => None | Include => Some (mkTyping UNTYPED_TYPE true) end
          end
      end
  end.

(** [escape]: backslashes are doubled, then quotes get one; no character the
    first replacement writes is a quote, so both happen in one pass. *)
Definition escape_pattern_char (c : N) : str :=
  if (c =? BACKSLASH)%N || (c =? QUOTE)%N then [BACKSLASH; c] else [c].
Definition escape_pattern (value : str) : str := mjoin (escape_pattern_char <$> value).

Definition pattern_property (o : str) : str :=
  if bool_decide (o ∈ [lit "file"; lit "mutex"]) then lit "name"
  else if bool_decide (o = lit "windows-registry-key") then lit "key"
  else if bool_decide (o = lit "process") then lit "command_line"
  else if bool_decide (o = lit "user-account") then lit "user_id"
  else if bool_decide (o = lit "autonomous-system") then lit "number"
  else lit "value".

Definition pattern_for (o value : str) : option str :=
  let literal := escape_pattern value in
  match strip_prefix (lit "file.") o with
  | Some algorithm => Some (lit "[file:hashes.'" ++ algorithm ++ lit "' = '" ++ literal ++ lit "']")
  | None =>
      if is_empty o then None
      else Some (lit "[" ++ o ++ lit ":" ++ pattern_property o ++ lit " = '" ++ literal ++ lit "']")
  end.

(** ** Markings *)
Definition TLP : list (str * str) :=
  [(lit "white", lit "marking-definition--613f2e26-407d-48c7-9eca-b8e91df99dc9");
   (lit "green", lit "marking-definition--34098fce-860f-48ae-8e50-ebd3cc5e41da");
   (lit "amber", lit "marking-definition--f88d31f6-486f-44da-b317-01333bde0b82");
   (lit "red", lit "marking-definition--5e57c739-391a-4eb3-b6be-7d15ca92d5ed")].
Definition TLP_CREATED : str := lit "2017-01-20T00:00:00.000Z".

Definition tlp_of_id (id : str) : option str := fst <$> head (filter (fun p => p.2 = id) TLP).
Definition tlp_id (level : str) : option str :=
  let level := to_ascii_lowercase (trim level) in
  let level := default level (strip_prefix (lit "tlp:") level) in
  snd <$> head (filter (fun p => p.1 = level) TLP).

Definition upper_char (c : N) : N := if is_ascii_lower c then (c - 32)%N else c.
Definition to_ascii_uppercase (s : str) : str := upper_char <$> s.

(** ** Objects *)
Section Objects.
Context `{StixLibs} `{Chrono}.

Definition rfc3339 (seconds : Z) : str := to_rfc3339 (default UNIX_EPOCH (from_timestamp seconds)).
Definition uuid_for (key : str) : str := uuid_v5 key.

Definition text (k : string) (v : str) : str * Json := (lit k, JStr v).
Definition optional_text (k : string) (v : option str) : list (str * Json) :=
  match v with Some v => [text k v] | None => [] end.
Definition unless_empty (k : string) (l : list str) : list (str * Json) :=
  if is_empty l then [] else [(lit k, JArr (JStr <$> l))].

Definition identity_id (name : str) : str := lit "identity--" ++ uuid_for (lit "identity:" ++ name).
Definition identity (name class : str) : Json :=
  JObj [text "type" (lit "identity"); text "spec_version" (lit "2.1"); text "id" (identity_id name);
        text "created" TLP_CREATED; text "modified" TLP_CREATED; text "name" name; text "identity_class" class].

Definition marking (level id : str) : Json :=
  JObj [text "type" (lit "marking-definition"); text "spec_version" (lit "2.1"); text "id" id;
        text "created" TLP_CREATED; text "definition_type" (lit "tlp");
        text "name" (lit "TLP:" ++ to_ascii_uppercase level); (lit "definition", JObj [text "tlp" level])].

Definition indicator_id (view : AttributeView) (o : str) : str :=
  let minted := lit "indicator--" ++ uuid_for (lit "indicator:" ++ o ++ lit ":" ++ v_value view) in
  match tag_value (v_tags view) (lit "stix-id") with
  | Some given =>
      if starts_with (lit "indicator--") given && uuid_parses (trim_start_str (lit "indicator--") given)
      then given else minted
  | None => minted
  end.

Definition confidence (view : AttributeView) : option Z :=
  match tag_value (v_tags view) (lit "confidence") ≫= u64_from_str with
  | Some n => if bool_decide (n <= 100)%Z then Some n else None
  | None => None
  end.

Definition valid_until (view : AttributeView) : option str :=
  match tag_value (v_tags view) (lit "valid-until") with
  | Some tagged =>
      match parse_rfc3339 tagged with
      | Some seconds => Some (rfc3339 seconds)
      | None => rfc3339 <$> i64_from_str tagged
      end
  | None =>
      if bool_decide (0 < v_ttl view)%Z
      then Some (rfc3339 (i64_saturating_add (v_last_seen view) (i64_of_u64 (v_ttl view))))
      else None
  end.

Definition confidence_field (view : AttributeView) : list (str * Json) :=
  match confidence view with Some n => [(lit "confidence", JInt n)] | None => [] end.

Definition indicator (id : str) (view : AttributeView) (pattern author : str) (markings : list str) (fb : bool) : Json :=
  JObj ([text "type" (lit "indicator"); text "spec_version" (lit "2.1"); text "id" id; text "created_by_ref" author;
         text "created" (rfc3339 (v_first_seen view)); text "modified" (rfc3339 (v_last_seen view))]
        ++ optional_text "name" (tag_value (v_tags view) (lit "name"))
        ++ optional_text "description" (tag_value (v_tags view) (lit "description"))
        ++ unless_empty "indicator_types" (tag_values (v_tags view) (lit "indicator-type"))
        ++ [text "pattern" pattern; text "pattern_type" (lit "stix")]
        ++ (if fb then [(lit "x_sightingdb_untyped", JBool true)] else [])
        ++ [text "valid_from" (rfc3339 (v_first_seen view))]
        ++ optional_text "valid_until" (valid_until view)
        ++ confidence_field view
        ++ unless_empty "object_marking_refs" markings).

Definition sighting_id (ns o value : str) : str :=
  lit "sighting--" ++ uuid_for (lit "sighting:" ++ ns ++ lit ":" ++ o ++ lit ":" ++ value).
Definition sighting (ns o : str) (view : AttributeView) (indicator_id author : str) (sighted_by markings : list str) : Json :=
  JObj ([text "type" (lit "sighting"); text "spec_version" (lit "2.1"); text "id" (sighting_id ns o (v_value view));
         text "created_by_ref" author;
         text "created" (rfc3339 (v_first_seen view)); text "modified" (rfc3339 (v_last_seen view));
         text "first_seen" (rfc3339 (v_first_seen view)); text "last_seen" (rfc3339 (v_last_seen view));
         (lit "count", JInt (Z.max 1 (Z.min 999999999 (v_count view))));
         text "sighting_of_ref" indicator_id; (lit "where_sighted_refs", JArr (JStr <$> sighted_by));
         text "x_sightingdb_namespace" ns]
        ++ confidence_field view
        ++ unless_empty "object_marking_refs" markings).

(** ** Bundles *)

(** [x] is pushed unless it is there. *)
Definition push_once (l : list str) (x : str) : list str := if bool_decide (x ∈ l) then l else l ++ [x].
Definition push_identity (l : list (str * Json)) (p : str * Json) : list (str * Json) :=
  if existsb (fun known => bool_decide (known.1 = p.1)) l then l else l ++ [p].

Record Part := mkPart { part_namespace : str; part_values : list AttributeView; part_default_type : option str }.

Record Building := mkBuilding {
  b_objects : list Json;
  b_identities : list (str * Json);
  b_markings : list str;
  b_skipped : list str;
  b_exported : nat;
  b_untyped : nat;
}.
Definition skip_value (st : Building) (v : str) : Building :=
  mkBuilding (b_objects st) (b_identities st) (b_markings st) (b_skipped st ++ [v]) (b_exported st) (b_untyped st).

(** The TLP markings and the identities the tags of a value name *)
Definition marking_ids (view : AttributeView) : list str := omap tlp_id (tag_values (v_tags view) (lit "tlp")).
Definition named_identities (view : AttributeView) : list (str * Json) :=
  (fun name => (identity_id name, identity name (lit "organization"))) <$> tag_values (v_tags view) (lit "identity").
Definition sighters (author : str) (view : AttributeView) : list str :=
  let named := foldl push_once [] (named_identities view).*1 in
  if is_empty named then [author] else named.

(** One value of a part *)
Definition add_view (author ns : str) (default_type : option str) (untyped : Untyped) (st : Building) (view : AttributeView) :
    Building :=
  match observable_type view default_type untyped with
  | None => skip_value st (v_value view)
  | Some t =>
      match pattern_for (observable t) (v_value view) with
      | None => skip_value st (v_value view)
      | Some pattern =>
          let refs := foldl push_once [] (marking_ids view) in
          let id := indicator_id view (observable t) in
          mkBuilding
            (b_objects st ++ [indicator id view pattern author refs (fallback t);
                              sighting ns (observable t) view id author (sighters author view) refs])
            (foldl push_identity (b_identities st) (named_identities view))
            (foldl push_once (b_markings st) (marking_ids view))
            (b_skipped st) (S (b_exported st)) (if fallback t then S (b_untyped st) else b_untyped st)
      end
  end.
Definition add_part (author : str) (untyped : Untyped) (st : Building) (p : Part) : Building :=
  foldl (add_view author (part_namespace p) (part_default_type p) untyped) st (part_values p).

Definition object_id (o : Json) : option str := json_get (lit "id") o ≫= json_str.

(** [objects.retain(..)]: the first object of every id. *)
Fixpoint retain_first (seen : list str) (l : list Json) : list Json :=
  match l with
  | [] => []
  | o :: r =>
      match object_id o with
      | None => o :: retain_first seen r
      | Some id => if bool_decide (id ∈ seen) then retain_first seen r else o :: retain_first (seen ++ [id]) r
      end
  end.

Record Export := mkExport {
  bundle : Json;
  exported : nat;
  skipped : list str;
  untyped_count : nat;
  truncated : bool;
  missing : list str;
  export_namespaces_count : nat;
}.

Definition bundle_json (names : list str) (objects : list Json) : Json :=
  JObj [text "type" (lit "bundle");
        text "id" (lit "bundle--" ++ uuid_for (lit "bundle:" ++ join_with [44%N] names));
        (lit "objects", JArr objects)].

Definition used_markings (markings : list str) : list Json :=
  (fun p => marking p.1 p.2) <$> filter (fun p => p.2 ∈ markings) TLP.

Definition bundle_of (parts : list Part) (settings : Publisher) (untyped : Untyped) : Export :=
  let author := identity_id (pub_identity settings) in
  let st := foldl (add_part author untyped)
              (mkBuilding [identity (pub_identity settings) (pub_identity_class settings)] [] [] [] 0 0) parts in
  let objects := b_objects st ++ (b_identities st).*2 ++ used_markings (b_markings st) in
  mkExport (bundle_json (part_namespace <$> parts) (retain_first [] objects))
    (b_exported st) (b_skipped st) (b_untyped st) false [] (length parts).

(** One part of [merge_exports]: the objects so far and the ids seen in them. *)
Definition merge_object (st : list Json * list str) (o : Json) : list Json * list str :=
  match object_id o with
  | None => (st.1 ++ [o], st.2)
  | Some id => if bool_decide (id ∈ st.2) then st else (st.1 ++ [o], st.2 ++ [id])
  end.
Definition bundle_objects (b : Json) : list Json := default [] (json_get (lit "objects") b ≫= json_array).

(** Counters are added in a [usize]; in a release build they wrap. *)
Definition usize (n : nat) : nat := Z.to_nat (Z.of_nat n mod U64_MODULUS).
Definition usize_sum (l : list nat) : nat := foldl (fun a b => usize (a + b)) 0 l.

Definition merge_exports (names : list str) (parts : list Export) : Export :=
  let objects := (foldl (fun st p => foldl merge_object st (bundle_objects (bundle p))) ([], []) parts).1 in
  mkExport (bundle_json names objects) (usize_sum (exported <$> parts)) (mjoin (skipped <$> parts))
    (usize_sum (untyped_count <$> parts)) (existsb truncated parts)
    (foldl push_once [] (mjoin (missing <$> parts))) (usize_sum (export_namespaces_count <$> parts)).
End Objects.

(** ** From the database *)
Section FromDatabase.
Context `{StixLibs} `{Chrono} `{HashOrder} (digest32 : str -> N) (disk : Disk) (now : Z).

(** The loop of [export_namespaces] *)
Record Reading := mkReading {
  rd_db : Database;
  rd_pages : list (str * list AttributeView);
  rd_missing : list str;
  rd_truncated : bool;
}.
Fixpoint read_pages (filter : str) (budget : nat) (names : list str) (st : Reading) : Reading :=
  match names with
  | [] => st
  | ns :: rest =>
      match budget with
      | O => mkReading (rd_db st) (rd_pages st) (rd_missing st) true
      | S _ =>
          let r := value_page digest32 disk now (rd_db st) ns filter 0 budget false in
          match r.2 with
          | Some page =>
              read_pages filter (budget - length (items page)) rest
                (mkReading r.1 (rd_pages st ++ [(ns, items page)]) (rd_missing st)
                   (rd_truncated st || (length (items page) <? total page)%nat))
          | None =>
              read_pages filter budget rest (mkReading r.1 (rd_pages st) (rd_missing st ++ [ns]) (rd_truncated st))
          end
      end
  end.

Definition part_of (settings : StixSettings) (p : str * list AttributeView) : Part :=
  mkPart p.1 p.2 (type_of_namespace settings p.1).

Definition export_namespaces (db : Database) (settings : StixSettings) (names : list str) (filter : str) (limit : nat)
    (untyped : Untyped) : Database * Export :=
  let st := read_pages filter limit names (mkReading db [] [] false) in
  let e := bundle_of (part_of settings <$> rd_pages st) (st_export settings) untyped in
  (rd_db st, mkExport (bundle e) (exported e) (skipped e) (untyped_count e) (rd_truncated st) (rd_missing st)
               (export_namespaces_count e)).

Definition export_namespace (db : Database) (settings : StixSettings) (ns : str) (limit : nat) (untyped : Untyped) :
    Database * option Export :=
  let r := export_namespaces db settings [ns] [] limit untyped in
  (r.1, if is_empty (missing r.2) then Some r.2 else None).

(** [export.bundle["id"] = ..] *)
Definition with_bundle_id (b : Json) (id : str) : Json :=
  match b with
  | JObj fs => JObj ((fun p => if bool_decide (p.1 = lit "id") then (p.1, JStr id) else p) <$> fs)
  | _ => b
  end.
Definition export_value (db : Database) (settings : StixSettings) (ns value : str) (untyped : Untyped) :
    Database * option Export :=
  let r := view_in digest32 disk now db ns value 0 false in
  (r.1, match r.2 with
        | None => None
        | Some view =>
            let e := bundle_of [mkPart ns [view] (type_of_namespace settings ns)] (st_export settings) untyped in
            Some (mkExport (with_bundle_id (bundle e) (lit "bundle--" ++ uuid_for (lit "bundle:" ++ ns ++ lit ":" ++ value)))
                    (exported e) (skipped e) (untyped_count e) (truncated e) (missing e) (export_namespaces_count e))
        end).
End FromDatabase.

(** ** Some values *)
Example infers_addresses :
  infer_type <$> [lit "1.2.3.4"; lit "01.2.3.4"; lit "2001:db8::1"; lit "::ffff:1.2.3.4"; lit "1:2:3:4:5:6:7:8"; lit "1::2::3";
                  lit "10.0.0.0/8"; lit "2001:db8::/32"; lit "10.0.0.0/999"]
  = [Some (lit "ipv4-addr"); None; Some (lit "ipv6-addr"); Some (lit "ipv6-addr"); Some (lit "ipv6-addr"); None;
     Some (lit "ipv4-addr"); Some (lit "ipv6-addr"); None].
Proof. by vm_compute. Qed.
Example infers_others :
  infer_type <$> [lit "https://x/y"; lit "a@b.c"; lit "@b"; lit "evil.example"; lit "not a.domain";
                  lit "d41d8cd98f00b204e9800998ecf8427e"; lit "  "]
  = [Some (lit "url"); Some (lit "email-addr"); None; Some (lit "domain-name"); None; Some (lit "file.MD5"); None].
Proof. by vm_compute. Qed.
Example patterns :
  pattern_for (lit "file.SHA-256") (lit "ab") = Some (lit "[file:hashes.'SHA-256' = 'ab']")
  /\ pattern_for (lit "windows-registry-key") (lit "HKLM\x'y")
     = Some (lit "[windows-registry-key:key = 'HKLM\\x\'y']").
Proof. by vm_compute. Qed.
