(* ===== verification/StixFacts.v ===== *)
(** * What a bundle holds

    Over [Stix]: that every bundle is well formed (ids are distinct and every
    reference leads to an object of the bundle of the right type), and that the
    bundles of the parts, folded together, are the bundle of the whole.  Both
    look at a bundle through [first_with], the first object with an id. *)

From stdpp Require Import base numbers list strings gmap sorting pretty.
From S2P Require Import Prelude Text Activity Latest Attribute Paths Acl Tags Tier Namespace Disk Database Listing DnsName Peers Config Forward Stix.

(** ** The first object with an id *)
Definition first_with (i : str) (l : list Json) : option Json := head (filter (fun o => object_id o = Some i) l).
Definition orelse {A} (a b : option A) : option A := match a with Some x => Some x | None => b end.

Lemma first_with_app i a b : first_with i (a ++ b) = orelse (first_with i a) (first_with i b).
Proof. unfold first_with. rewrite filter_app. by destruct (filter _ a). Qed.

Lemma first_with_cons i o l : first_with i (o :: l) = orelse (first_with i [o]) (first_with i l).
Proof. apply (first_with_app i [o] l). Qed.

Lemma first_with_one i o : first_with i [o] = if bool_decide (object_id o = Some i) then Some o else None.
Proof.
  unfold first_with. case_bool_decide as E; [by rewrite filter_cons_True|by rewrite filter_cons_False].
Qed.

Lemma first_with_Some i l o : first_with i l = Some o -> o ∈ l /\ object_id o = Some i.
Proof. intros Ho%head_Some_elem_of%list_elem_of_filter. naive_solver. Qed.

Lemma first_with_None i l : first_with i l = None <-> forall o, o ∈ l -> object_id o <> Some i.
Proof.
  unfold first_with. rewrite head_None. split.
  - intros E o Ho Hi. assert (Hn : o ∈ []); [rewrite <- E; by apply list_elem_of_filter|by apply elem_of_nil in Hn].
  - intros Hn. destruct (filter _ l) as [|o r] eqn:E; [done|].
    assert (Ho : o ∈ filter (fun o => object_id o = Some i) l) by (rewrite E; left).
    apply list_elem_of_filter in Ho as [Hi Ho]. by apply Hn in Ho.
Qed.

Lemma first_with_retain i seen l :
  first_with i (retain_first seen l) = if bool_decide (i ∈ seen) then None else first_with i l.
Proof.
  revert seen. induction l as [|o l IH]; intros seen; cbn [retain_first]; [by case_bool_decide|].
  destruct (object_id o) as [j|] eqn:Eo.
  - case_bool_decide as Hj.
    + rewrite IH, (first_with_cons i o l), first_with_one. case_bool_decide as Hi; [done|].
      rewrite bool_decide_eq_false_2; [done|]. rewrite Eo. congruence.
    + rewrite (first_with_cons i o (retain_first _ l)), IH, (first_with_cons i o l), first_with_one.
      destruct (decide (object_id o = Some i)) as [Hi|Hi].
      * rewrite !(bool_decide_eq_true_2 (object_id o = Some i)) by done. cbn.
        rewrite bool_decide_eq_false_2; [done|]. congruence.
      * rewrite !(bool_decide_eq_false_2 (object_id o = Some i)) by done. cbn.
        assert (Hne : j <> i) by congruence. repeat case_bool_decide; set_solver.
  - rewrite (first_with_cons i o (retain_first _ l)), IH, (first_with_cons i o l), first_with_one.
    rewrite !(bool_decide_eq_false_2 (object_id o = Some i)) by congruence. cbn. by case_bool_decide.
Qed.

Definition has_id (o : Json) : Prop := is_Some (object_id o).

Lemma retain_first_elem seen l o : o ∈ retain_first seen l -> o ∈ l.
Proof.
  revert seen. induction l as [|x l IH]; intros seen; cbn [retain_first]; [done|].
  destruct (object_id x); [case_bool_decide|]; rewrite ?elem_of_cons; intros Ho;
    [right; by eapply IH|destruct Ho as [->|Ho]; [by left|right; by eapply IH]..].
Qed.

Lemma retain_first_ids seen l :
  NoDup (omap object_id (retain_first seen l)) /\ forall i, i ∈ omap object_id (retain_first seen l) -> i ∉ seen.
Proof.
  revert seen. induction l as [|o l IH]; intros seen; cbn [retain_first]; [by split; [constructor|intros i ?%elem_of_nil]|].
  destruct (object_id o) as [j|] eqn:Eo; [case_bool_decide as Hj; [apply IH|]|].
  - destruct (IH (seen ++ [j])) as [Hn Hs]. cbn. rewrite Eo. split.
    + constructor; [|done]. intros Hi. apply (Hs _ Hi). set_solver.
    + intros i [->|Hi]%elem_of_cons; [done|]. intros Hin. apply (Hs _ Hi). set_solver.
  - cbn. rewrite Eo. apply IH.
Qed.

Lemma ids_unique l o o' i :
  NoDup (omap object_id l) -> o ∈ l -> o' ∈ l -> object_id o = Some i -> object_id o' = Some i -> o = o'.
Proof.
  induction l as [|x l IH]; [by intros _ ?%elem_of_nil|]. cbn. intros Hn Ho Ho' Hi Hi'.
  assert (Hin : forall y, y ∈ l -> object_id y = Some i -> i ∈ omap object_id l).
  { intros y Hy Ey. apply list_elem_of_omap. by exists y. }
  apply elem_of_cons in Ho as [->|Ho], Ho' as [->|Ho']; [done|..].
  - rewrite Hi in Hn. apply NoDup_cons in Hn as [Hx _]. by destruct Hx; eapply Hin.
  - rewrite Hi' in Hn. apply NoDup_cons in Hn as [Hx _]. by destruct Hx; eapply Hin.
  - apply IH; [|done..]. destruct (object_id x); [by apply NoDup_cons in Hn as [_ ?]|done].
Qed.

Lemma first_with_retained i l : first_with i (retain_first [] l) = first_with i l.
Proof. rewrite first_with_retain. by rewrite bool_decide_eq_false_2 by apply not_elem_of_nil. Qed.

(** With all ids in place, what is kept is the first object of each id. *)
Lemma retained_iff l o : Forall has_id l ->
  o ∈ retain_first [] l <-> exists i, object_id o = Some i /\ first_with i l = Some o.
Proof.
  intros Hl. rewrite Forall_forall in Hl. setoid_rewrite <- first_with_retained. split.
  - intros Ho. destruct (Hl o (retain_first_elem _ _ _ Ho)) as [i Hi]. exists i. split; [done|].
    destruct (first_with i (retain_first [] l)) as [o'|] eqn:E.
    + apply first_with_Some in E as [Ho' Hi']. f_equal. by eapply ids_unique; [apply retain_first_ids|..].
    + by apply (proj1 (first_with_None _ _) E) in Ho.
  - by intros (i & _ & [? _]%first_with_Some).
Qed.

(** ** Kinds of objects *)
Definition KINDS : list str := [lit "indicator"; lit "sighting"; lit "identity"; lit "marking-definition"].
Lemma kind_identity : lit "identity" ∈ KINDS.
Proof. apply (bool_decide_unpack _). by vm_compute. Qed.
Lemma kind_marking : lit "marking-definition" ∈ KINDS.
Proof. apply (bool_decide_unpack _). by vm_compute. Qed.

Definition of_kind (k i : str) : Prop := exists u, i = k ++ lit "--" ++ u.

Lemma kind_unique k k' i : k ∈ KINDS -> k' ∈ KINDS -> of_kind k i -> of_kind k' i -> k = k'.
Proof.
  unfold KINDS. rewrite !elem_of_cons, !elem_of_nil. intros Hk Hk' [u ->] [u' E].
  destruct_or! Hk; destruct_or! Hk'; subst; try done; exfalso; revert E; cbn; clear; intros [=].
Qed.

(** An object of a type whose id says so *)
Definition typed (k : str) (o : Json) : Prop :=
  json_get (lit "type") o = Some (JStr k) /\ exists i, object_id o = Some i /\ of_kind k i.

Lemma typed_has_id k o : typed k o -> has_id o.
Proof. intros (_ & i & Hi & _). by exists i. Qed.

Lemma other_kind k k' i l :
  k ∈ KINDS -> k' ∈ KINDS -> k <> k' -> of_kind k' i -> Forall (typed k) l -> first_with i l = None.
Proof.
  intros Hk Hk' Hne Hi Hl. apply first_with_None. intros o Ho Ho'. rewrite Forall_forall in Hl.
  destruct (Hl o Ho) as (_ & j & Hj & Hkj). assert (j = i) as -> by congruence. by eapply Hne, kind_unique.
Qed.

Lemma no_kind i l :
  (forall k, k ∈ KINDS -> ~ of_kind k i) -> Forall (fun o => exists k, k ∈ KINDS /\ typed k o) l -> first_with i l = None.
Proof.
  intros Hi Hl. apply first_with_None. intros o Ho Ho'. rewrite Forall_forall in Hl.
  destruct (Hl o Ho) as (k & Hk & _ & j & Hj & Hkj). assert (j = i) as -> by congruence. by apply (Hi k).
Qed.

(** ** What each value adds *)
Section Shares.
Context `{StixLibs} `{Chrono} (author : str) (untyped : Untyped).

Record Share := mkShare {
  sh_objects : list Json;
  sh_identities : list (str * Json);
  sh_markings : list str;
  sh_skipped : list str;
  sh_exported : nat;
  sh_untyped : nat;
}.
Definition share (x : Part * AttributeView) : Share :=
  let '(p, view) := x in
  match observable_type view (part_default_type p) untyped with
  | None => mkShare [] [] [] [v_value view] 0 0
  | Some t =>
      match pattern_for (observable t) (v_value view) with
      | None => mkShare [] [] [] [v_value view] 0 0
      | Some pattern =>
          let refs := foldl push_once [] (marking_ids view) in
          let id := indicator_id view (observable t) in
          mkShare [indicator id view pattern author refs (fallback t);
                   sighting (part_namespace p) (observable t) view id author (sighters author view) refs]
            (named_identities view) (marking_ids view) [] 1 (if fallback t then 1 else 0)
      end
  end.
Definition absorb (st : Building) (s : Share) : Building :=
  mkBuilding (b_objects st ++ sh_objects s) (foldl push_identity (b_identities st) (sh_identities s))
    (foldl push_once (b_markings st) (sh_markings s)) (b_skipped st ++ sh_skipped s)
    (b_exported st + sh_exported s) (b_untyped st + sh_untyped s).

Lemma add_view_share p view st :
  add_view author (part_namespace p) (part_default_type p) untyped st view = absorb st (share (p, view)).
Proof.
  unfold add_view, share, absorb, skip_value.
  destruct (observable_type _ _ _) as [t|]; [destruct (pattern_for _ _)|]; destruct st; cbn; rewrite ?app_nil_r; f_equal;
    try destruct (fallback t); lia.
Qed.

(** The values of the parts, one after the other *)
Definition values_of (parts : list Part) : list (Part * AttributeView) :=
  mjoin ((fun p => pair p <$> part_values p) <$> parts).

Lemma add_parts_share parts st :
  foldl (add_part author untyped) st parts = foldl absorb st (share <$> values_of parts).
Proof.
  revert st. induction parts as [|p parts IH]; intros st; [done|]. cbn [foldl]. rewrite IH. unfold values_of.
  rewrite fmap_cons. cbn [mjoin list_join]. rewrite fmap_app, foldl_app. f_equal. unfold add_part.
  induction (part_values p) as [|v l IHl] in st |- *; [done|]. cbn [foldl fmap list_fmap]. rewrite add_view_share. apply IHl.
Qed.

Lemma absorb_all l st :
  foldl absorb st l =
  mkBuilding (b_objects st ++ mjoin (sh_objects <$> l)) (foldl push_identity (b_identities st) (mjoin (sh_identities <$> l)))
    (foldl push_once (b_markings st) (mjoin (sh_markings <$> l))) (b_skipped st ++ mjoin (sh_skipped <$> l))
    (b_exported st + sum_list (sh_exported <$> l)) (b_untyped st + sum_list (sh_untyped <$> l)).
Proof.
  revert st. induction l as [|s l IH]; intros st; cbn [foldl fmap list_fmap mjoin list_join sum_list].
  - destruct st. cbn. by rewrite !app_nil_r, !Nat.add_0_r.
  - rewrite IH. cbn. by rewrite !app_assoc, !foldl_app, !Nat.add_assoc.
Qed.
End Shares.

(** ** The types of the objects *)
Section Types.
Context `{StixLibs} `{Chrono}.

Lemma identity_typed name class : typed (lit "identity") (identity name class).
Proof. split; [done|]. exists (identity_id name). split; [done|]. by eexists. Qed.

Lemma indicator_id_kind view o : of_kind (lit "indicator") (indicator_id view o).
Proof.
  unfold indicator_id. destruct (tag_value _ _) as [g|]; [|by eexists].
  destruct (starts_with _ g) eqn:E; cbn [andb]; [|by eexists]. destruct (uuid_parses _); [|by eexists].
  unfold starts_with in E. destruct (strip_prefix (lit "indicator--") g) as [r|] eqn:Er; [|done].
  apply strip_prefix_spec in Er as ->. by exists r.
Qed.

Lemma indicator_typed view o pattern author refs fb :
  typed (lit "indicator") (indicator (indicator_id view o) view pattern author refs fb).
Proof. split; [done|]. exists (indicator_id view o). split; [done|apply indicator_id_kind]. Qed.

Lemma sighting_typed ns o view id author by_ refs : typed (lit "sighting") (sighting ns o view id author by_ refs).
Proof. split; [done|]. exists (sighting_id ns o (v_value view)). split; [done|]. by eexists. Qed.

Lemma tlp_kind level id : (level, id) ∈ TLP -> of_kind (lit "marking-definition") id.
Proof.
  assert (Ht : Forall (fun p => p.2 = lit "marking-definition" ++ lit "--" ++ drop 20 p.2) TLP).
  { apply (bool_decide_unpack _). by vm_compute. }
  rewrite Forall_forall in Ht. intros Hi. exists (drop 20 id). exact (Ht _ Hi).
Qed.

Lemma marking_typed level id : (level, id) ∈ TLP -> typed (lit "marking-definition") (marking level id).
Proof. intros Hi. split; [done|]. exists id. split; [done|]. by eapply tlp_kind. Qed.

Lemma used_markings_typed ms : Forall (typed (lit "marking-definition")) (used_markings ms).
Proof.
  apply Forall_fmap, Forall_forall. intros [level id] [_ Hi]%list_elem_of_filter. by apply marking_typed.
Qed.

Lemma named_identities_typed view : Forall (fun p => object_id p.2 = Some p.1 /\ typed (lit "identity") p.2) (named_identities view).
Proof. apply Forall_fmap, Forall_forall. intros name _. split; [done|apply identity_typed]. Qed.

Lemma tlp_id_elem level id : tlp_id level = Some id -> exists name, (name, id) ∈ TLP.
Proof.
  unfold tlp_id. destruct (head _) as [[n i]|] eqn:E; [|done]. intros [= <-].
  apply head_Some_elem_of, list_elem_of_filter in E as [_ E]. by exists n.
Qed.

(** ** Sets kept as lists *)
Lemma elem_of_push_once x l acc : x ∈ foldl push_once acc l <-> x ∈ acc \/ x ∈ l.
Proof.
  revert acc. induction l as [|y l IH]; intros acc; cbn [foldl]; [by rewrite elem_of_nil; tauto|].
  rewrite IH, elem_of_cons. unfold push_once. case_bool_decide; [|rewrite elem_of_app, list_elem_of_singleton]; naive_solver.
Qed.

(** Identities pushed once each: the first of every id is what it was. *)
Lemma first_with_identities i l acc :
  Forall (fun p => object_id p.2 = Some p.1) (acc ++ l) ->
  first_with i (foldl push_identity acc l).*2 = first_with i (acc ++ l).*2.
Proof.
  revert acc. induction l as [|p l IH]; intros acc Hl; cbn [foldl]; [by rewrite app_nil_r|].
  apply Forall_app in Hl as [Ha [Hp Hl]%Forall_cons]. unfold push_identity at 2. destruct (existsb _ acc) eqn:E.
  - rewrite IH by (apply Forall_app; by split). rewrite !fmap_app, fmap_cons, !first_with_app, (first_with_cons i p.2), first_with_one.
    case_bool_decide as Hi; [|done]. destruct (first_with i acc.*2) as [o|] eqn:Ea; [done|]. exfalso.
    apply existsb_exists in E as (q & Hq%list_elem_of_In & Eq%bool_decide_eq_true).
    apply (proj1 (first_with_None _ _) Ea q.2); [by apply list_elem_of_fmap_2|].
    rewrite Forall_forall in Ha. rewrite (Ha q Hq). congruence.
  - rewrite IH by (repeat (apply Forall_app; split); try done; by constructor). by rewrite <- app_assoc.
Qed.

Lemma push_identities_typed l acc :
  Forall (fun p => object_id p.2 = Some p.1 /\ typed (lit "identity") p.2) (acc ++ l) ->
  Forall (typed (lit "identity")) (foldl push_identity acc l).*2.
Proof.
  revert acc. induction l as [|p l IH]; intros acc Hl; cbn [foldl].
  - rewrite app_nil_r in Hl. apply Forall_fmap. eapply Forall_impl; [exact Hl|]. by intros q [].
  - apply Forall_app in Hl as [Ha [Hp Hl]%Forall_cons]. apply IH. unfold push_identity.
    destruct (existsb _ _); repeat (apply Forall_app; split); try done. by constructor.
Qed.

Lemma first_with_markings i ms :
  first_with i (used_markings ms) = if bool_decide (i ∈ ms) then first_with i ((fun p => marking p.1 p.2) <$> TLP) else None.
Proof.
  unfold used_markings. induction TLP as [|p l IH]; [by case_bool_decide|].
  rewrite (fmap_cons _ p l), (first_with_cons i (marking p.1 p.2)), first_with_one.
  change (object_id (marking p.1 p.2)) with (Some p.2). destruct (decide (p.2 ∈ ms)) as [Hp|Hp].
  - rewrite filter_cons_True, fmap_cons, first_with_cons, IH, first_with_one by done.
    change (object_id (marking p.1 p.2)) with (Some p.2). repeat case_bool_decide; try done; congruence.
  - rewrite filter_cons_False, IH by done. repeat case_bool_decide; try done; congruence.
Qed.
End Types.

(** ** References *)
Definition json_refs (k : string) (o : Json) : list str :=
  omap json_str (default [] (option_bind _ _ json_array (json_get (lit k) o))).
Definition json_ref (k : string) (o : Json) : list str :=
  match option_bind _ _ json_str (json_get (lit k) o) with Some i => [i] | None => [] end.

(** What an object refers to, with the type each reference calls for. *)
Definition references (o : Json) : list (str * str) :=
  (pair (lit "identity") <$> json_ref "created_by_ref" o)
  ++ (pair (lit "indicator") <$> json_ref "sighting_of_ref" o)
  ++ (pair (lit "identity") <$> json_refs "where_sighted_refs" o)
  ++ (pair (lit "marking-definition") <$> json_refs "object_marking_refs" o).

Lemma json_get_app k a b : json_get k (JObj (a ++ b)) = orelse (json_get k (JObj a)) (json_get k (JObj b)).
Proof. cbn. rewrite filter_app. by destruct (filter _ a). Qed.

Lemma json_get_cons k p b : json_get k (JObj (p :: b)) = if decide (p.1 = k) then Some p.2 else json_get k (JObj b).
Proof. unfold json_get. rewrite filter_cons. by case_decide. Qed.

Lemma get_optional_text k n v : lit n <> k -> json_get k (JObj (optional_text n v)) = None.
Proof. intros Hn. destruct v; [|done]. cbn [optional_text]. unfold text. rewrite json_get_cons. by rewrite decide_False. Qed.

Lemma get_unless_empty k n l : lit n <> k -> json_get k (JObj (unless_empty n l)) = None.
Proof. intros Hn. unfold unless_empty. destruct (is_empty l); [done|]. rewrite json_get_cons. by rewrite decide_False. Qed.

Lemma omap_json_str (l : list str) : omap json_str (JStr <$> l) = l.
Proof. induction l as [|x l IH]; [done|]. cbn. by f_equal. Qed.

Lemma refs_unless_empty n l :
  omap json_str (default [] (option_bind _ _ json_array (json_get (lit n) (JObj (unless_empty n l))))) = l.
Proof.
  unfold unless_empty. destruct l as [|x l]; [done|]. cbn [is_empty]. rewrite json_get_cons, decide_True by done.
  apply (omap_json_str (x :: l)).
Qed.

Lemma get_confidence `{StixLibs} k view : lit "confidence" <> k -> json_get k (JObj (confidence_field view)) = None.
Proof. intros Hn. unfold confidence_field. destruct (confidence view); [|done]. rewrite json_get_cons. by rewrite decide_False. Qed.

(** Looks a field up in an object given by its parts. *)
Ltac look :=
  repeat first
    [ rewrite json_get_app
    | rewrite get_optional_text by (apply (bool_decide_unpack _); by vm_compute)
    | rewrite get_confidence by (apply (bool_decide_unpack _); by vm_compute)
    | rewrite get_unless_empty by (apply (bool_decide_unpack _); by vm_compute) ].

Section References.
Context `{StixLibs} `{Chrono}.

Lemma indicator_references id view pattern author refs fb :
  references (indicator id view pattern author refs fb)
  = (lit "identity", author) :: (pair (lit "marking-definition") <$> refs).
Proof.
  assert (Hm : json_refs "object_marking_refs" (indicator id view pattern author refs fb) = refs).
  { unfold json_refs, indicator. look. rewrite <- (refs_unless_empty "object_marking_refs" refs) at 2. by destruct fb. }
  assert (Hs : json_get (lit "sighting_of_ref") (indicator id view pattern author refs fb) = None).
  { unfold indicator. look. by destruct fb. }
  assert (Hw : json_get (lit "where_sighted_refs") (indicator id view pattern author refs fb) = None).
  { unfold indicator. look. by destruct fb. }
  unfold references. rewrite Hm. unfold json_ref, json_refs. rewrite Hs, Hw. done.
Qed.

Lemma sighting_references ns o view id author by_ refs :
  references (sighting ns o view id author by_ refs)
  = (lit "identity", author) :: (lit "indicator", id) :: (pair (lit "identity") <$> by_) ++ (pair (lit "marking-definition") <$> refs).
Proof.
  assert (Hm : json_refs "object_marking_refs" (sighting ns o view id author by_ refs) = refs).
  { unfold json_refs, sighting. look. rewrite <- (refs_unless_empty "object_marking_refs" refs) at 2. done. }
  assert (Hw : json_refs "where_sighted_refs" (sighting ns o view id author by_ refs) = by_).
  { unfold json_refs. change (json_get _ _) with (Some (JArr (JStr <$> by_))). apply omap_json_str. }
  unfold references. by rewrite Hm, Hw.
Qed.
End References.

(** ** Every reference leads somewhere *)
Section WellFormed.
Context `{StixLibs} `{Chrono} (settings : Publisher) (untyped : Untyped).
Abbreviation author := (identity_id (pub_identity settings)).
Abbreviation shares parts := (share author untyped <$> values_of parts).

(** The objects of a bundle before those with a known id are dropped *)
Definition gathered_objects (parts : list Part) : list Json :=
  identity (pub_identity settings) (pub_identity_class settings) :: mjoin (sh_objects <$> shares parts)
  ++ (foldl push_identity [] (mjoin (sh_identities <$> shares parts))).*2
  ++ used_markings (foldl push_once [] (mjoin (sh_markings <$> shares parts))).

Lemma bundle_of_gathered parts :
  bundle_of parts settings untyped =
  mkExport (bundle_json (part_namespace <$> parts) (retain_first [] (gathered_objects parts)))
    (sum_list (sh_exported <$> shares parts)) (mjoin (sh_skipped <$> shares parts))
    (sum_list (sh_untyped <$> shares parts)) false [] (length parts).
Proof. unfold bundle_of. rewrite add_parts_share, absorb_all. cbn [b_objects b_identities b_markings b_skipped b_exported b_untyped]. done. Qed.

(** What a value that is exported adds, all at once *)
Lemma share_objects x o :
  o ∈ sh_objects (share author untyped x) ->
  exists ob pattern fb, let refs := foldl push_once [] (marking_ids x.2) in let id := indicator_id x.2 ob in
    let ind := indicator id x.2 pattern author refs fb in
    (o = ind \/ o = sighting (part_namespace x.1) ob x.2 id author (sighters author x.2) refs)
    /\ ind ∈ sh_objects (share author untyped x)
    /\ sh_identities (share author untyped x) = named_identities x.2
    /\ sh_markings (share author untyped x) = marking_ids x.2.
Proof.
  destruct x as [p view]. unfold share. destruct (observable_type _ _ _) as [t|]; [|by intros ?%elem_of_nil].
  destruct (pattern_for _ _) as [pattern|]; [|by intros ?%elem_of_nil].
  cbn [sh_objects sh_identities sh_markings]. intros Ho. exists (observable t), pattern, (fallback t). cbn [fst snd].
  rewrite !elem_of_cons, elem_of_nil in Ho |- *. naive_solver.
Qed.

Lemma share_identities_typed x :
  Forall (fun p => object_id p.2 = Some p.1 /\ typed (lit "identity") p.2) (sh_identities (share author untyped x)).
Proof.
  destruct x as [p view]. unfold share. destruct (observable_type _ _ _) as [t|]; [|constructor].
  destruct (pattern_for _ _); [|constructor]. apply named_identities_typed.
Qed.

Lemma Forall_mjoin {A} (P : A -> Prop) (ls : list (list A)) : Forall (Forall P) ls -> Forall P (mjoin ls).
Proof. induction 1; [constructor|]. by apply Forall_app. Qed.

Lemma identities_typed parts :
  Forall (fun p => object_id p.2 = Some p.1 /\ typed (lit "identity") p.2) (mjoin (sh_identities <$> shares parts)).
Proof. apply Forall_mjoin. rewrite <- list_fmap_compose. apply Forall_fmap, Forall_true. intros x. apply share_identities_typed. Qed.

Definition sorted_out (o : Json) : Prop := typed (lit "indicator") o \/ typed (lit "sighting") o.
Lemma objects_typed parts : Forall sorted_out (mjoin (sh_objects <$> shares parts)).
Proof.
  apply Forall_mjoin. rewrite <- list_fmap_compose. apply Forall_fmap, Forall_true. intros x. apply Forall_forall.
  intros o (ob & pt & fb & [->| ->] & _)%share_objects; [left; apply indicator_typed|right; apply sighting_typed].
Qed.

Lemma gathered_typed parts : Forall (fun o => exists k, k ∈ KINDS /\ typed k o) (gathered_objects parts).
Proof.
  assert (Hk : forall k l, k ∈ KINDS -> Forall (typed k) l -> Forall (fun o => exists k, k ∈ KINDS /\ typed k o) l).
  { intros k l Hin Hl. eapply Forall_impl; [exact Hl|]. intros o Ho. by exists k. }
  unfold gathered_objects. constructor; [|repeat (apply Forall_app; split)].
  - exists (lit "identity"). split; [apply kind_identity|apply identity_typed].
  - eapply Forall_impl; [apply objects_typed|]. intros o [Ho|Ho]; eexists; (split; [|exact Ho]); [left|right; left].
  - eapply Hk, push_identities_typed, identities_typed. apply kind_identity.
  - eapply Hk, used_markings_typed. apply kind_marking.
Qed.

Lemma elem_of_shares {A} (f : Share -> list A) parts y :
  y ∈ mjoin (f <$> shares parts) <-> exists x, x ∈ values_of parts /\ y ∈ f (share author untyped x).
Proof.
  rewrite list_elem_of_join. split.
  - intros (l & Hy & (s & -> & (x & -> & Hx)%list_elem_of_fmap)%list_elem_of_fmap). by exists x.
  - intros (x & Hx & Hy). eexists. split; [exact Hy|]. do 2 apply list_elem_of_fmap_2. done.
Qed.

Lemma pushed_identity_elem l acc p : p ∈ foldl push_identity acc l -> p ∈ acc \/ p ∈ l.
Proof.
  revert acc. induction l as [|q l IH]; intros acc; cbn [foldl]; [by left|]. intros [Hp|Hp]%IH; [|by right; right].
  unfold push_identity in Hp. destruct (existsb _ _); [by left|]. apply elem_of_app in Hp as [Hp|Hp%list_elem_of_singleton]; [by left|].
  subst. right. left.
Qed.

(** The identities a value names are among the objects. *)
Lemma identity_there parts x i :
  x ∈ values_of parts -> i ∈ (sh_identities (share author untyped x)).*1 ->
  exists o, o ∈ gathered_objects parts /\ object_id o = Some i.
Proof.
  intros Hx (p & -> & Hp)%list_elem_of_fmap.
  assert (Hraw : p ∈ mjoin (sh_identities <$> shares parts)) by (apply elem_of_shares; by exists x).
  pose proof (identities_typed parts) as Ht.
  assert (Hf := first_with_identities p.1 (mjoin (sh_identities <$> shares parts)) []
    ltac:(eapply Forall_impl; [exact Ht|by intros q []])). cbn [app] in Hf.
  destruct (first_with p.1 (mjoin (sh_identities <$> shares parts)).*2) as [o|] eqn:E.
  - apply first_with_Some in Hf as [Ho Hi]. exists o. split; [|done].
    unfold gathered_objects. right. apply elem_of_app. right. apply elem_of_app. by left.
  - exfalso. apply (proj1 (first_with_None _ _) E p.2); [by apply list_elem_of_fmap_2|].
    rewrite Forall_forall in Ht. by apply Ht.
Qed.

Lemma marking_there parts x i :
  x ∈ values_of parts -> i ∈ sh_markings (share author untyped x) -> i ∈ marking_ids x.2 ->
  of_kind (lit "marking-definition") i /\ exists o, o ∈ gathered_objects parts /\ object_id o = Some i.
Proof.
  intros Hx Hi (level & _ & [name Hn]%tlp_id_elem)%list_elem_of_omap. split; [by eapply tlp_kind|].
  exists (marking name i). split; [|done]. unfold gathered_objects. right. apply elem_of_app. right. apply elem_of_app. right.
  apply list_elem_of_fmap. exists (name, i). split; [done|]. apply list_elem_of_filter. split; [|done].
  apply elem_of_push_once. right. apply elem_of_shares. by exists x.
Qed.

Lemma sighters_elem view i : i ∈ sighters author view -> i = author \/ i ∈ (named_identities view).*1.
Proof.
  unfold sighters. destruct (is_empty _); [by intros ->%list_elem_of_singleton; left|].
  rewrite elem_of_push_once. intros [?%elem_of_nil|?]; [done|by right].
Qed.

(** A reference that leads to an object of its kind *)
Definition resolves (parts : list Part) (r : str * str) : Prop :=
  r.1 ∈ KINDS /\ of_kind r.1 r.2 /\ exists o, o ∈ gathered_objects parts /\ object_id o = Some r.2.

Lemma author_resolves parts : resolves parts (lit "identity", author).
Proof. split; [apply kind_identity|]. split; [by eexists|]. eexists. split; [left|done]. Qed.

Lemma marking_resolves parts x i :
  x ∈ values_of parts -> sh_markings (share author untyped x) = marking_ids x.2 ->
  i ∈ foldl push_once [] (marking_ids x.2) -> resolves parts (lit "marking-definition", i).
Proof.
  intros Hx Hmk [?%elem_of_nil|Hi]%elem_of_push_once; [done|]. split; [apply kind_marking|].
  apply (marking_there parts x); [done| |done]. by rewrite Hmk.
Qed.

Lemma sighter_resolves parts x i :
  x ∈ values_of parts -> sh_identities (share author untyped x) = named_identities x.2 ->
  i ∈ sighters author x.2 -> resolves parts (lit "identity", i).
Proof.
  intros Hx Hid [->|Hi]%sighters_elem; [apply author_resolves|]. split; [apply kind_identity|].
  split; [|apply (identity_there parts x); [done|by rewrite Hid]].
  apply list_elem_of_fmap in Hi as ([j obj] & -> & (name & [= -> ->] & _)%list_elem_of_fmap). by eexists.
Qed.

Lemma share_resolves parts x o r :
  x ∈ values_of parts -> o ∈ sh_objects (share author untyped x) -> r ∈ references o -> resolves parts r.
Proof.
  intros Hx (ob & pt & fb & Ho & Hind & Hid & Hmk)%share_objects Hr. destruct Ho as [->| ->].
  - rewrite indicator_references in Hr. apply elem_of_cons in Hr as [->|(j & -> & Hj)%list_elem_of_fmap];
      [apply author_resolves|by eapply marking_resolves].
  - rewrite sighting_references in Hr. rewrite !elem_of_cons, elem_of_app, !list_elem_of_fmap in Hr.
    destruct Hr as [->|[->|[(j & -> & Hj)|(j & -> & Hj)]]];
      [apply author_resolves| |by eapply sighter_resolves|by eapply marking_resolves].
    split; [left|]. split; [apply indicator_id_kind|]. eexists. split; [|].
    + unfold gathered_objects. right. apply elem_of_app. left. apply elem_of_shares. eexists. split; [exact Hx|exact Hind].
    + done.
Qed.

Lemma gathered_resolves parts o r : o ∈ gathered_objects parts -> r ∈ references o -> resolves parts r.
Proof.
  intros [->|[Ho|[Ho|Ho]%elem_of_app]%elem_of_app]%elem_of_cons Hr.
  - by apply elem_of_nil in Hr.
  - apply elem_of_shares in Ho as (x & Hx & Ho). by eapply share_resolves.
  - apply list_elem_of_fmap in Ho as (p & -> & [Hp|Hp]%pushed_identity_elem); [by apply elem_of_nil in Hp|].
    apply elem_of_shares in Hp as ([pp view] & Hx & Hp). unfold share in Hp.
    destruct (observable_type _ _ _); [|by apply elem_of_nil in Hp]. destruct (pattern_for _ _); [|by apply elem_of_nil in Hp].
    apply list_elem_of_fmap in Hp as (name & -> & _). by apply elem_of_nil in Hr.
  - apply list_elem_of_fmap in Ho as (p & -> & _). by apply elem_of_nil in Hr.
Qed.

Lemma gathered_has_id parts : Forall has_id (gathered_objects parts).
Proof. eapply Forall_impl; [apply gathered_typed|]. intros o (k & _ & Ho). by eapply typed_has_id. Qed.
End WellFormed.

(** ** Folding bundles together *)
Lemma merge_objects l acc seen :
  foldl merge_object (acc, seen) l = (acc ++ retain_first seen l, seen ++ omap object_id (retain_first seen l)).
Proof.
  revert acc seen. induction l as [|o l IH]; intros acc seen; cbn [foldl retain_first]; [by rewrite !app_nil_r|].
  unfold merge_object at 2. cbn [fst snd]. destruct (object_id o) as [i|] eqn:E; [case_bool_decide; [apply IH|]|];
    rewrite IH; cbn [omap list_omap]; rewrite E, <- !app_assoc; done.
Qed.

Lemma foldl_mjoin {A B} (f : B -> A -> B) b (ls : list (list A)) : foldl (fun b l => foldl f b l) b ls = foldl f b (mjoin ls).
Proof. revert b. induction ls as [|l ls IH]; intros b; [done|]. cbn [foldl mjoin list_join]. by rewrite foldl_app. Qed.

Lemma merged_objects `{StixLibs} names parts :
  bundle_objects (bundle (merge_exports names parts))
  = retain_first [] (mjoin ((fun p => bundle_objects (bundle p)) <$> parts)).
Proof.
  assert (E : forall st, foldl (fun st p => foldl merge_object st (bundle_objects (bundle p))) st parts
    = foldl (fun st l => foldl merge_object st l) st ((fun p => bundle_objects (bundle p)) <$> parts)).
  { induction parts as [|p parts IH]; intros st; [done|]. apply IH. }
  unfold merge_exports. rewrite E, foldl_mjoin, merge_objects. done.
Qed.

Lemma mjoin_cons {A} (x : list A) (l : list (list A)) : mjoin (x :: l) = x ++ mjoin l.
Proof. done. Qed.

Lemma mjoin_app {A} (a b : list (list A)) : mjoin (a ++ b) = mjoin a ++ mjoin b.
Proof. induction a as [|x a IH]; [done|]. cbn [app]. by rewrite !mjoin_cons, IH, app_assoc. Qed.

Lemma first_with_mjoin {A} i (f h : A -> list Json) l :
  (forall x, first_with i (f x) = first_with i (h x)) -> first_with i (mjoin (f <$> l)) = first_with i (mjoin (h <$> l)).
Proof.
  intros Hfh. induction l as [|x l IH]; [done|]. by rewrite !fmap_cons, !mjoin_cons, !first_with_app, IH, Hfh.
Qed.

Lemma first_with_mjoin_if {A} i (f : A -> list Json) (P : A -> Prop) `{!forall x, Decision (P x)} X l :
  (forall x, first_with i (f x) = if bool_decide (P x) then X else None) ->
  first_with i (mjoin (f <$> l)) = if bool_decide (Exists P l) then X else None.
Proof.
  intros Hf. induction l as [|x l IH]; [by rewrite bool_decide_eq_false_2 by by intros ?%Exists_nil|].
  rewrite fmap_cons, mjoin_cons, first_with_app, Hf, IH.
  destruct (decide (P x)) as [Hx|Hx].
  - rewrite (bool_decide_eq_true_2 (P x)), (bool_decide_eq_true_2 (Exists P (x :: l))) by (done || by left).
    destruct X; [done|]. by case_bool_decide.
  - rewrite (bool_decide_eq_false_2 (P x)) by done. cbn.
    assert (bool_decide (Exists P (x :: l)) = bool_decide (Exists P l)) as ->; [|done].
    apply bool_decide_ext. rewrite Exists_cons. naive_solver.
Qed.

Section Gathering.
Context `{StixLibs} `{Chrono} (settings : Publisher) (untyped : Untyped).
Abbreviation author := (identity_id (pub_identity settings)).
Abbreviation shares parts := (share author untyped <$> values_of parts).
Abbreviation gathered parts := (gathered_objects settings untyped parts).

Lemma shares_split {A} (f : Share -> list A) parts :
  mjoin (f <$> shares parts) = mjoin ((fun p => mjoin (f <$> shares [p])) <$> parts).
Proof.
  induction parts as [|p parts IH]; [done|]. rewrite (fmap_cons _ p parts), mjoin_cons, <- IH.
  change (values_of (p :: parts)) with ((pair p <$> part_values p) ++ values_of parts).
  change (values_of [p]) with ((pair p <$> part_values p) ++ []). by rewrite app_nil_r, !fmap_app, mjoin_app.
Qed.

Lemma sums_split (f : Share -> nat) parts :
  sum_list (f <$> shares parts) = sum_list ((fun p => sum_list (f <$> shares [p])) <$> parts).
Proof.
  induction parts as [|p parts IH]; [done|]. rewrite (fmap_cons _ p parts). cbn [sum_list]. rewrite <- IH.
  change (values_of (p :: parts)) with ((pair p <$> part_values p) ++ values_of parts).
  change (values_of [p]) with ((pair p <$> part_values p) ++ []). rewrite app_nil_r, !fmap_app.
  apply (sum_list_with_app id).
Qed.

(** One bundle, id by id *)
Lemma first_with_gathered i parts :
  first_with i (gathered parts) =
  orelse (first_with i [identity (pub_identity settings) (pub_identity_class settings)])
    (orelse (first_with i (mjoin (sh_objects <$> shares parts)))
      (orelse (first_with i (mjoin (sh_identities <$> shares parts)).*2)
        (first_with i (used_markings (mjoin (sh_markings <$> shares parts)))))).
Proof.
  unfold gathered_objects. rewrite first_with_cons, !first_with_app. do 2 f_equal. f_equal.
  - apply (first_with_identities i _ []). eapply Forall_impl; [apply identities_typed|]. by intros q [].
  - rewrite !first_with_markings. assert (Hb : bool_decide (i ∈ foldl push_once [] (mjoin (sh_markings <$> shares parts)))
      = bool_decide (i ∈ mjoin (sh_markings <$> shares parts))); [|by rewrite Hb].
    apply bool_decide_ext. rewrite elem_of_push_once, elem_of_nil. tauto.
Qed.

Lemma identities_all parts : Forall (typed (lit "identity")) (mjoin (sh_identities <$> shares parts)).*2.
Proof. apply Forall_fmap. eapply Forall_impl; [apply identities_typed|]. by intros q []. Qed.

Lemma author_all : Forall (typed (lit "identity")) [identity (pub_identity settings) (pub_identity_class settings)].
Proof. constructor; [apply identity_typed|constructor]. Qed.

Lemma objects_other k i parts :
  k ∈ KINDS -> k <> lit "indicator" -> k <> lit "sighting" -> of_kind k i ->
  first_with i (mjoin (sh_objects <$> shares parts)) = None.
Proof.
  intros Hk H1 H2 Hi. apply first_with_None. intros o Ho E. pose proof (objects_typed settings untyped parts) as Ht.
  rewrite Forall_forall in Ht.
  destruct (Ht o Ho) as [(_ & j & Hj & Hkj)|(_ & j & Hj & Hkj)]; assert (j = i) as -> by congruence;
    [apply H1|apply H2]; symmetry; eapply kind_unique; [..|exact Hkj|exact Hi]; done || (left; done) || (right; left; done).
Qed.

(** By kinds of ids: what each kind of object contributes *)
Lemma first_sorted_out k i parts :
  k = lit "indicator" \/ k = lit "sighting" -> of_kind k i ->
  first_with i (gathered parts) = first_with i (mjoin (sh_objects <$> shares parts)).
Proof.
  intros Hk Hi. assert (Hin : k ∈ KINDS) by (destruct Hk as [->| ->]; [left|right; left]).
  assert (Hne : k <> lit "identity" /\ k <> lit "marking-definition") by (destruct Hk as [->| ->]; done).
  rewrite first_with_gathered. rewrite (other_kind (lit "identity") k i _ kind_identity Hin ltac:(by destruct Hne; congruence) Hi author_all).
  rewrite (other_kind (lit "identity") k i _ kind_identity Hin ltac:(by destruct Hne; congruence) Hi (identities_all parts)).
  rewrite (other_kind (lit "marking-definition") k i _ kind_marking Hin ltac:(by destruct Hne; congruence) Hi (used_markings_typed _)).
  by destruct (first_with i (mjoin _)).
Qed.

Lemma first_identity i parts :
  of_kind (lit "identity") i ->
  first_with i (gathered parts) =
  orelse (first_with i [identity (pub_identity settings) (pub_identity_class settings)])
         (first_with i (mjoin (sh_identities <$> shares parts)).*2).
Proof.
  intros Hi. rewrite first_with_gathered. rewrite (objects_other (lit "identity")) by (done || apply kind_identity).
  rewrite (other_kind (lit "marking-definition") (lit "identity") i _ kind_marking kind_identity ltac:(done) Hi (used_markings_typed _)).
  f_equal. by destruct (first_with i _).
Qed.

Lemma first_marking i parts :
  of_kind (lit "marking-definition") i ->
  first_with i (gathered parts) = first_with i (used_markings (mjoin (sh_markings <$> shares parts))).
Proof.
  intros Hi. rewrite first_with_gathered. rewrite (objects_other (lit "marking-definition")) by (done || apply kind_marking).
  rewrite (other_kind (lit "identity") (lit "marking-definition") i _ kind_identity kind_marking ltac:(done) Hi author_all).
  by rewrite (other_kind (lit "identity") (lit "marking-definition") i _ kind_identity kind_marking ltac:(done) Hi (identities_all parts)).
Qed.

(** Part by part or all at once, the first object of every id is the same. *)
Lemma first_with_parts i parts :
  parts <> [] -> first_with i (mjoin ((fun p => gathered [p]) <$> parts)) = first_with i (gathered parts).
Proof.
  intros Hne. destruct (decide (Exists (fun k => starts_with (k ++ lit "--") i = true) KINDS)) as [Hk|Hk].
  2:{ assert (Hn : forall k, k ∈ KINDS -> ~ of_kind k i).
      { intros k Hin [u ->]. apply Hk, Exists_exists. exists k. split; [done|].
        unfold starts_with. by rewrite (proj2 (strip_prefix_spec (k ++ lit "--") _ u)) by apply app_assoc. }
      rewrite !no_kind; [done|done|apply gathered_typed|done|]. apply Forall_mjoin, Forall_fmap, Forall_true. intros p. apply gathered_typed. }
  apply Exists_exists in Hk as (k & Hin & Hs). unfold starts_with in Hs.
  destruct (strip_prefix (k ++ lit "--") i) as [u|] eqn:Eu; [|done].
  apply strip_prefix_spec in Eu. rewrite <- app_assoc in Eu. assert (Hi : of_kind k i) by by exists u. clear Hs Eu.
  unfold KINDS in Hin. rewrite !elem_of_cons, elem_of_nil in Hin. destruct_or! Hin; try done; subst k.
  - rewrite (first_sorted_out _ i parts (or_introl eq_refl) Hi), shares_split. apply first_with_mjoin.
    intros p. exact (first_sorted_out _ i [p] (or_introl eq_refl) Hi).
  - rewrite (first_sorted_out _ i parts (or_intror eq_refl) Hi), shares_split. apply first_with_mjoin.
    intros p. exact (first_sorted_out _ i [p] (or_intror eq_refl) Hi).
  - rewrite first_identity by done. destruct (first_with i [_]) as [a|] eqn:Ea; cbn [orelse].
    + destruct parts as [|p parts]; [done|]. rewrite fmap_cons, mjoin_cons, first_with_app, first_identity, Ea by done. done.
    + rewrite (first_with_mjoin i _ (fun p => (mjoin (sh_identities <$> shares [p])).*2)).
      * rewrite (shares_split sh_identities parts). f_equal. clear. induction parts as [|p parts IH]; [done|].
        by rewrite !(fmap_cons _ p parts), !mjoin_cons, fmap_app, IH.
      * intros p. by rewrite first_identity, Ea by done.
  - rewrite first_marking, first_with_markings by done.
    rewrite (first_with_mjoin_if i _ (fun p => i ∈ mjoin (sh_markings <$> shares [p]))
      (first_with i ((fun p => marking p.1 p.2) <$> TLP))).
    + erewrite bool_decide_ext; [done|]. rewrite (shares_split sh_markings parts), list_elem_of_join, Exists_exists.
      split; [intros (p & Hp & Hx); eexists; split; [exact Hx|]; apply list_elem_of_fmap; by exists p|].
      intros (l & Hx & (p & -> & Hp)%list_elem_of_fmap). by exists p.
    + intros p. by rewrite first_marking, first_with_markings by done.
Qed.
End Gathering.

(** ** Properties *)

(** C30: every bundle is a STIX bundle.  Whatever the values, tags, types and
    namespaces exported, every object has an id and no two have the same; and
    whatever an object refers to, its creator, the indicator it is a sighting
    of, those who saw it, its markings, is an object of the bundle, of the type
    the reference calls for. *)
Theorem bundle_well_formed `{StixLibs, Chrono} parts settings untyped :
  let l := bundle_objects (bundle (bundle_of parts settings untyped)) in
  Forall has_id l /\ NoDup (omap object_id l)
  /\ forall o k i, o ∈ l -> (k, i) ∈ references o ->
       exists o', o' ∈ l /\ object_id o' = Some i /\ json_get (lit "type") o' = Some (JStr k).
Proof.
  rewrite bundle_of_gathered. cbv zeta. change (bundle_objects _) with (retain_first [] (gathered_objects settings untyped parts)).
  set (g := gathered_objects settings untyped parts).
  assert (Hid : Forall has_id g) by apply gathered_has_id. split_and!.
  - rewrite Forall_forall in Hid |- *. intros o Ho%retain_first_elem. by apply Hid.
  - apply retain_first_ids.
  - intros o k i Ho%retain_first_elem Hr. destruct (gathered_resolves _ _ _ _ _ Ho Hr) as (Hk & Hki & o1 & Ho1 & Hi1).
    destruct (first_with i g) as [o'|] eqn:E; [|by apply (proj1 (first_with_None _ _) E) in Ho1].
    exists o'. pose proof (first_with_Some _ _ _ E) as [Hin Hi]. split_and!; [|done|].
    + apply retained_iff; [done|]. by exists i.
    + pose proof (gathered_typed settings untyped parts) as Ht. rewrite Forall_forall in Ht.
      destruct (Ht o' Hin) as (k' & Hk' & Hty & j & Hj & Hkj). assert (j = i) as -> by congruence.
      by rewrite (kind_unique k k' i).
Qed.

Lemma ids_distinct l : Forall has_id l -> NoDup (omap object_id l) -> NoDup l.
Proof.
  induction 1 as [|o l [i Hi] _ IH]; [constructor|]. cbn. rewrite Hi. intros [Hn Hl]%NoDup_cons.
  constructor; [|by apply IH]. intros Ho. apply Hn, list_elem_of_omap. by exists o.
Qed.

Lemma retained_has_id l : Forall has_id l -> Forall has_id (retain_first [] l).
Proof. rewrite !Forall_forall. intros Hl o Ho%retain_first_elem. by apply Hl. Qed.

(** Two lists of which the same objects are kept *)
Lemma retained_perm l l' :
  Forall has_id l -> Forall has_id l' -> (forall i, first_with i l = first_with i l') ->
  retain_first [] l ≡ₚ retain_first [] l'.
Proof.
  intros Hl Hl' Hf. apply NoDup_Permutation.
  - apply ids_distinct; [by apply retained_has_id|apply retain_first_ids].
  - apply ids_distinct; [by apply retained_has_id|apply retain_first_ids].
  - intros o. rewrite !retained_iff by done. by setoid_rewrite Hf.
Qed.

(** Wrapping at every addition is wrapping the sum. *)
Lemma usize_add a b : usize (usize a + b) = usize (a + b).
Proof.
  unfold usize. f_equal. rewrite !Nat2Z.inj_add, Z2Nat.id by (apply Z.mod_pos_bound; done).
  by rewrite Zplus_mod_idemp_l.
Qed.
Lemma usize_sum_from a l : foldl (fun a b => usize (a + b)) (usize a) l = usize (a + sum_list l).
Proof.
  revert a. induction l as [|b l IH]; intros a; cbn [foldl]; [by rewrite Nat.add_0_r|].
  rewrite usize_add, IH. f_equal. cbn. lia.
Qed.
Lemma usize_sum_wraps l : usize_sum l = usize (sum_list l).
Proof. exact (usize_sum_from 0 l). Qed.

Lemma merged_counts `{StixLibs, Chrono} names parts settings untyped :
  let whole := bundle_of parts settings untyped in
  let folded := merge_exports names ((fun p => bundle_of [p] settings untyped) <$> parts) in
  exported folded = usize (exported whole) /\ skipped folded = skipped whole
  /\ untyped_count folded = usize (untyped_count whole) /\ truncated folded = truncated whole
  /\ missing folded = missing whole /\ export_namespaces_count folded = usize (export_namespaces_count whole).
Proof.
  cbv zeta. rewrite bundle_of_gathered. unfold merge_exports.
  cbn [exported skipped untyped_count truncated missing export_namespaces_count]. rewrite !usize_sum_wraps.
  rewrite (sums_split _ _ sh_exported), (sums_split _ _ sh_untyped), (shares_split _ _ sh_skipped).
  set (one := fun p => bundle_of [p] settings untyped).
  rewrite <- (list_fmap_compose one exported), <- (list_fmap_compose one skipped), <- (list_fmap_compose one untyped_count),
    <- (list_fmap_compose one missing), <- (list_fmap_compose one export_namespaces_count). subst one.
  assert (He : forall p, bundle_of [p] settings untyped = _) by (intros p; apply bundle_of_gathered).
  split_and!.
  - do 2 f_equal. apply list_fmap_ext. intros _ p _. unfold compose. by rewrite He.
  - f_equal. apply list_fmap_ext. intros _ p _. unfold compose. by rewrite He.
  - do 2 f_equal. apply list_fmap_ext. intros _ p _. unfold compose. by rewrite He.
  - by induction parts.
  - clear. assert (Hm : mjoin ((missing ∘ (fun p => bundle_of [p] settings untyped)) <$> parts) = []); [|by rewrite Hm].
    by induction parts.
  - clear. f_equal. induction parts as [|p parts IH]; [done|]. cbn. f_equal. exact IH.
Qed.

(** An export gathered from the mirrors is the export of one server that
    holds everything: folding the bundles of the parts together gives the same
    objects, id by id, as one bundle of all the parts, under the same bundle id,
    with the same counts, as far as a [usize] goes, and the same values left
    out. *)
Theorem gathered_bundle_same `{StixLibs, Chrono} parts settings untyped :
  parts <> [] ->
  let whole := bundle_of parts settings untyped in
  let folded := merge_exports (part_namespace <$> parts) ((fun p => bundle_of [p] settings untyped) <$> parts) in
  bundle_objects (bundle folded) ≡ₚ bundle_objects (bundle whole)
  /\ object_id (bundle folded) = object_id (bundle whole)
  /\ exported folded = usize (exported whole) /\ skipped folded = skipped whole
  /\ untyped_count folded = usize (untyped_count whole) /\ truncated folded = truncated whole
  /\ missing folded = missing whole /\ export_namespaces_count folded = usize (export_namespaces_count whole).
Proof.
  intros Hne whole folded. split; [|split; [done|apply merged_counts]].
  assert (Hw : bundle_objects (bundle whole) = retain_first [] (gathered_objects settings untyped parts)).
  { subst whole. by rewrite bundle_of_gathered. }
  assert (Hp : forall p, bundle_objects (bundle (bundle_of [p] settings untyped))
    = retain_first [] (gathered_objects settings untyped [p])) by (intros p; by rewrite bundle_of_gathered).
  rewrite Hw. subst folded. rewrite merged_objects, <- list_fmap_compose. apply retained_perm.
  - apply Forall_mjoin, Forall_fmap, Forall_true. intros p. unfold compose. rewrite Hp. apply retained_has_id, gathered_has_id.
  - apply gathered_has_id.
  - intros i. rewrite <- first_with_parts by done. apply first_with_mjoin. intros p. unfold compose.
    rewrite Hp. apply first_with_retained.
Qed.

(** Two namespaces with a value in common, one of them marked, seen by somebody *)
Definition demo_libs : StixLibs :=
  {| uuid_v5 key := key; uuid_parses _ := true; to_rfc3339 t := decimal (timestamp t); parse_rfc3339 _ := None |}.
Definition demo_view (value tgs : str) : AttributeView := mkView value 100 200 3 tgs 0 1 None.
Definition demo_parts : list Part :=
  [mkPart (lit "feeds/a") [demo_view (lit "1.2.3.4") (lit "tlp:amber,identity:Alpha"); demo_view (lit "?") []] None;
   mkPart (lit "feeds/b") [demo_view (lit "1.2.3.4") (lit "tlp:red"); demo_view (lit "x.example") (lit "tlp:amber")] None].

Lemma gathered_bundle_same_witness :
  let L := demo_libs in let C := chrono_10000y in
  let folded := merge_exports (part_namespace <$> demo_parts)
                  ((fun p => bundle_of [p] default_publisher Skip) <$> demo_parts) in
  bundle_objects (bundle folded) ≡ₚ bundle_objects (bundle (bundle_of demo_parts default_publisher Skip))
  /\ length (bundle_objects (bundle folded)) = 9 /\ skipped folded = [lit "?"].
Proof.
  intros L C folded. split; [|by vm_compute].
  refine (proj1 (@gathered_bundle_same L C demo_parts default_publisher Skip _)). done.
Defined.
