(* ===== verification/Ingestion.v ===== *)
(** * Ingesting from a publisher

    Models [src/src/ingest/misp.rs] and [src/src/ingest/mod.rs]: sightings read
    out of a MISP message or a native batch, the tags each carries, the digest
    recorded beside or instead of a value, the write of one sighting with its
    count and window, and the loop that consumes a publisher's messages.

    Reading JSON, into a value or into the native batch, is [serde_json]'s and
    the digest is the [sha2] crate's: [IngestLibs].  A parsed JSON object lists
    its fields as [serde_json] keeps them, each name once. *)

From stdpp Require Import base numbers list strings gmap sorting pretty.
From S2P Require Import Prelude Text Activity Latest Attribute AttributeFacts Convergence Paths Acl Rejections Tags Tier Namespace Disk Database Contents Refine Consensus Eviction Service Accounted System Listing DnsName Peers Config Forward.

Record Sighting := mkSighting {
  sg_namespace : str;
  sg_value : str;
  sg_timestamp : option Z;
  sg_last_timestamp : option Z;
  sg_count : Z;
  sg_tags : list str;
}.
(** [Sighting::once] and [with_tags] *)
Definition once (ns v : str) (t : option Z) : Sighting := mkSighting ns v t None 1 [].
Definition with_tags (s : Sighting) (tgs : list str) : Sighting :=
  mkSighting (sg_namespace s) (sg_value s) (sg_timestamp s) (sg_last_timestamp s) (sg_count s) tgs.

Record NativeItem := mkNative { ni_namespace : str; ni_value : str; ni_timestamp : option Z }.

Class IngestLibs := {
  from_str : str -> option Json;                     (** [serde_json::from_str] into a [Value] *)
  native_batch : str -> option (list NativeItem);    (** the same into a [NativeBatch], its items *)
  float_text : str;                                  (** a number that is not an integer, as text *)
  sha256 : list N -> list N;
}.

(** [replace(',', ";")] of the trimmed text *)
Definition sanitize_tag (tag : str) : str := (fun c => if (c =? COMMA)%N then 59%N else c) <$> trim tag.

(** [Mapping::namespace_for] *)
Definition misp_namespace_for (m : MispMapping) (misp_type : str) : option str :=
  match mm_types m !! misp_type with Some ns => Some ns | None => mm_default_namespace m end.

(** ** Reading a message *)

(** The accessors of [Value], as one option chain. *)
Definition get_str (k : string) (j : Json) : option str := option_bind _ _ json_str (json_get (lit k) j).
Definition get_array (k : string) (j : Json) : option (list Json) := option_bind _ _ json_array (json_get (lit k) j).
Definition nonempty_str (o : option str) : option str := match o with Some [] => None | x => x end.
Definition as_i64 (n : Z) : option Z := if bool_decide (I64_MIN <= n <= I64_MAX)%Z then Some n else None.

Definition id_like `{IngestLibs} (j : Json) : option str :=
  match j with
  | JStr [] => None
  | JStr text => Some text
  | JInt n => Some (signed_decimal n)
  | JFloat => Some float_text
  | _ => None
  end.
Definition timestamp_of (attribute : Json) : option Z :=
  match json_get (lit "timestamp") attribute with
  | Some (JStr text) => i64_from_str text
  | Some (JInt n) => as_i64 n
  | _ => None
  end.
Definition truthy (v : option Json) : bool :=
  match v with
  | Some (JBool flag) => flag
  | Some (JStr text) => bool_decide (text = lit "1") || eq_ignore_ascii_case text (lit "true")
  | Some (JInt n) => match as_i64 n with Some n => negb (n =? 0)%Z | None => false end
  | _ => false
  end.

Definition stix_type_for_misp (misp_type : str) : option str :=
  let any l := bool_decide (misp_type ∈ lit <$> l) in
  if any ["ip-src"; "ip-dst"; "ip-src|port"; "ip-dst|port"]%string then Some (lit "ipv4-addr")
  else if any ["domain"; "hostname"; "domain|ip"]%string then Some (lit "domain-name")
  else if any ["url"; "uri"]%string then Some (lit "url")
  else if any ["email"; "email-src"; "email-dst"; "email-reply-to"]%string then Some (lit "email-addr")
  else if any ["md5"; "filename|md5"]%string then Some (lit "file.MD5")
  else if any ["sha1"; "filename|sha1"]%string then Some (lit "file.SHA-1")
  else if any ["sha256"; "filename|sha256"]%string then Some (lit "file.SHA-256")
  else if any ["filename"]%string then Some (lit "file")
  else if any ["mutex"]%string then Some (lit "mutex")
  else if any ["regkey"]%string then Some (lit "windows-registry-key")
  else if any ["mac-address"]%string then Some (lit "mac-addr")
  else if any ["AS"]%string then Some (lit "autonomous-system")
  else None.

(** ** What an event says *)
Record EventContext := mkContext { ec_tags : list str; ec_id : option str }.
Definition no_context : EventContext := mkContext [] None.

(** The names of a [Tag] array *)
Definition tag_names (j : Json) : list str := match get_array "Tag" j with Some l => omap (get_str "name") l | None => [] end.

Definition context_of `{IngestLibs} (event : Json) : EventContext :=
  mkContext (sanitize_tag <$> tag_names event)
    match option_bind _ _ id_like (json_get (lit "uuid") event) with
    | Some id => Some id
    | None => option_bind _ _ id_like (json_get (lit "id") event)
    end.

Definition SINGLE_VALUED : list str := [lit "tlp"].
(** [tag.split_once(':')], its name *)
Definition family_of (tag : str) : option str := fst <$> split_once COLON tag.
Definition conflicts (tgs : list str) (candidate : str) : bool :=
  match family_of candidate with
  | None => false
  | Some ns => bool_decide (ns ∈ SINGLE_VALUED) && existsb (fun tag => bool_decide (family_of tag = Some ns)) tgs
  end.

(** The event's tags, each unless it conflicts with what is there *)
Definition inherit (tgs : list str) (tag : str) : list str := if conflicts tgs tag then tgs else tgs ++ [tag].

(** [retain] with what was seen; the [dedup_by] before it is [Vec::dedup] *)
Definition retain_new (seen : list str) (tag : str) : list str := if bool_decide (tag ∈ seen) then seen else seen ++ [tag].

Section Misp.
Context `{IngestLibs}.

(** What the attribute itself says *)
Definition own_tags (attribute : Json) (misp_type : str) (context : EventContext) : list str :=
  [lit "misp-type:" ++ misp_type]
  ++ match stix_type_for_misp misp_type with Some t => [lit "stix-type:" ++ t] | None => [] end
  ++ match get_str "category" attribute with Some c => [lit "misp-category:" ++ sanitize_tag c] | None => [] end
  ++ match (match option_bind _ _ id_like (json_get (lit "event_id") attribute) with Some e => Some e | None => ec_id context end) with
     | Some event => [lit "misp-event:" ++ event]
     | None => []
     end
  ++ match get_str "comment" attribute with
     | Some comment => if is_empty (trim comment) then [] else [lit "description:" ++ sanitize_tag comment]
     | None => []
     end
  ++ (sanitize_tag <$> tag_names attribute).

Definition tags_of (attribute : Json) (misp_type : str) (context : EventContext) : list str :=
  foldl retain_new [] (dedup (foldl inherit (own_tags attribute misp_type context) (ec_tags context))).

(** ** Digests *)
Definition hex2 (b : N) : str := [hex_lower (b / 16); hex_lower (b mod 16)].
Definition sha256_hex (value : str) : str := mjoin (hex2 <$> sha256 (as_bytes value)).

Definition VALUE_REVEALING_TAGS : list str := [lit "description:"; lit "misp-event:"; lit "stix-type:"].
Definition hashed_tags (tgs : list str) : list str :=
  filter (fun tag => existsb (fun family => starts_with family tag) VALUE_REVEALING_TAGS = false) tgs.

(** ** Attributes *)

(** The value of an attribute, and what is made of it *)
Definition attribute_value (attribute : Json) : option str :=
  nonempty_str (match get_str "value" attribute with Some v => Some v | None => get_str "value1" attribute end).

Definition attribute_to_sightings (mapping : MispMapping) (context : EventContext) (attribute : Json) : list Sighting :=
  if mm_require_to_ids mapping && negb (truthy (json_get (lit "to_ids") attribute)) then []
  else
    match get_str "type" attribute with
    | None => []
    | Some misp_type =>
        match attribute_value attribute with
        | None => []
        | Some value =>
            let plain := if mm_store_values mapping then misp_namespace_for mapping misp_type else None in
            match plain, mm_hashed_namespace mapping with
            | None, None => []
            | _, _ =>
                let t := timestamp_of attribute in
                let tgs := tags_of attribute misp_type context in
                match plain with Some ns => [with_tags (once ns value t) tgs] | None => [] end
                ++ match mm_hashed_namespace mapping with
                   | Some h => [with_tags (once h (sha256_hex value) t) (hashed_tags tgs)]
                   | None => []
                   end
            end
        end
    end.

(** [collect]: one attribute or an array of them, nested as deep as it goes *)
Fixpoint collect (mapping : MispMapping) (context : EventContext) (node : Json) : list Sighting :=
  match node with
  | JArr items => (fix go (l : list Json) : list Sighting :=
                     match l with [] => [] | x :: r => collect mapping context x ++ go r end) items
  | JObj _ => attribute_to_sightings mapping context node
  | _ => []
  end.

(** The attributes under a name of an object *)
Definition collect_in (mapping : MispMapping) (context : EventContext) (j : Json) : list Sighting :=
  match json_get (lit "Attribute") j with Some attributes => collect mapping context attributes | None => [] end.

Definition parse_value (mapping : MispMapping) (value : Json) : list Sighting :=
  let event := json_get (lit "Event") value in
  let context := match event with Some e => context_of e | None => no_context end in
  collect_in mapping context value
  ++ match event with
     | Some e =>
         collect_in mapping context e
         ++ match get_array "Object" e with Some objects => mjoin (collect_in mapping context <$> objects) | None => [] end
     | None => []
     end.

(** [misp::parse] and [misp::parse_native] *)
Definition misp_parse (json : str) (mapping : MispMapping) : option (list Sighting) := parse_value mapping <$> from_str json.
Definition parse_native (json : str) : option (list Sighting) :=
  match native_batch json with
  | Some items => Some ((fun i => once (ni_namespace i) (ni_value i) (ni_timestamp i)) <$> items)
  | None => None
  end.
End Misp.

(** ** Messages *)
Definition trim_start (s : str) : str := drop_while is_whitespace s.
Definition SPACE : N := 32.
Definition strip_topic (text : str) : str :=
  let trimmed := trim_start text in
  if starts_with (lit "{") trimmed || starts_with (lit "[") trimmed then trimmed
  else match split_once SPACE trimmed with Some (_, rest) => trim_start rest | None => trimmed end.

(** [body_of]: the only frame, or the last *)
Definition body_of (frames : list (list N)) : option str :=
  match last frames with Some frame => from_utf8 frame | None => None end.

(** ** Writing *)
Section Record.
Context `{Chrono} `{HashOrder} (digest32 : str -> N) (disk : Disk).

(** [sighting_writer::write_tagged] *)
Definition write_tagged (now : Z) (db : Database) (ns v : str) (w t : option Z) (tgs : str) : Database * (Written + ApiError) :=
  client_write digest32 disk now db None ns v w t tgs.

(** The writes after the first: all at the end of the window, without tags.  The
    clock is read for each of them. *)
Fixpoint record_rest (clock : nat -> Z) (n : nat) (db : Database) (ns v : str) (last t : option Z) : Database * option ApiError :=
  match n with
  | O => (db, None)
  | S m =>
      let r := write_tagged (clock n) db ns v last t [] in
      match r.2 with
      | inl _ => record_rest clock m r.1 ns v last t
      | inr e => (r.1, Some e)
      end
  end.

(** [query.map(timestamp_to_instant)?] *)
Definition instant_of (seconds : option Z) : option Z + ApiError :=
  match seconds with
  | None => inl None
  | Some z => match timestamp_to_instant z with inl w => inl (Some w) | inr e => inr e end
  end.

Definition record (clock : nat -> Z) (db : Database) (ttl : Z) (s : Sighting) : Database * option ApiError :=
  let t := if bool_decide (0 < ttl)%Z then Some ttl else None in
  match instant_of (sg_timestamp s) with
  | inr e => (db, Some e)
  | inl first =>
      match (match sg_last_timestamp s with Some _ => instant_of (sg_last_timestamp s) | None => inl first end) with
      | inr e => (db, Some e)
      | inl last =>
          let n := Z.to_nat (Z.max 1 (sg_count s)) in
          let r := write_tagged (clock n) db (sg_namespace s) (sg_value s) first t (join_with [COMMA] (sg_tags s)) in
          match r.2 with
          | inl _ => record_rest clock (pred n) r.1 (sg_namespace s) (sg_value s) last t
          | inr e => (r.1, Some e)
          end
      end
  end.
End Record.

(** ** Consuming *)
Record Stats := mkStats { st_written : Z; st_rejected : Z; st_ignored : Z; st_malformed : Z; st_since : Z }.
Definition REPORT_EVERY : Z := 60 * NANOS.
Definition new_stats (now : Z) : Stats := mkStats 0 0 0 0 now.
Definition maybe_report (now : Z) (s : Stats) : Stats :=
  if bool_decide (REPORT_EVERY <= now - st_since s)%Z then new_stats now else s.

(** What the loop works on, and a message as it is received: its frames, when
    each of its writes reads the clock (counting down, [0] for a rejection), and
    whether the server is stopping by the end of it. *)
Record Ingesting := mkIngesting { ig_db : Database; ig_rejections : Rejections; ig_stats : Stats }.
Record Delivery := mkDelivery { dl_frames : list (list N); dl_clock : nat -> nat -> Z; dl_now : Z; dl_stopped : bool }.

Section Consume.
Context `{IngestLibs} `{Chrono} `{HashOrder} (digest32 : str -> N) (disk : Disk).

Definition ingest_sighting (ttl : Z) (m : Delivery) (st : Ingesting) (x : nat * Sighting) : Ingesting :=
  let s := x.2 in
  let r := record digest32 disk (dl_clock m x.1) (ig_db st) ttl s in
  let c := ig_stats st in
  match r.2 with
  | None => mkIngesting r.1 (ig_rejections st)
              (mkStats (u64_add (st_written c) 1) (st_rejected c) (st_ignored c) (st_malformed c) (st_since c))
  | Some e => mkIngesting r.1
                (rj_record (ig_rejections st) (timestamp (dl_clock m x.1 0)) (sg_namespace s) (sg_value s) (display e) Ingest)
                (mkStats (st_written c) (u64_add (st_rejected c) 1) (st_ignored c) (st_malformed c) (st_since c))
  end.

Definition parsed_message (settings : ZmqSettings) (body : str) : option (list Sighting) :=
  match zs_format settings with
  | Misp => misp_parse (strip_topic body) (zs_mapping settings)
  | Native => parse_native (strip_topic body)
  end.

Definition malformed (st : Ingesting) : Ingesting :=
  let c := ig_stats st in
  mkIngesting (ig_db st) (ig_rejections st)
    (mkStats (st_written c) (st_rejected c) (st_ignored c) (u64_add (st_malformed c) 1) (st_since c)).
Definition ignored (st : Ingesting) : Ingesting :=
  let c := ig_stats st in
  mkIngesting (ig_db st) (ig_rejections st)
    (mkStats (st_written c) (st_rejected c) (u64_add (st_ignored c) 1) (st_malformed c) (st_since c)).

(** One round of the loop; a body that is not text skips the end of it. *)
Definition consume_one (settings : ZmqSettings) (st : Ingesting) (m : Delivery) : Ingesting * bool :=
  match body_of (dl_frames m) with
  | None => (malformed st, false)
  | Some body =>
      let st1 := match parsed_message settings body with
                 | Some sightings =>
                     foldl (ingest_sighting (zs_ttl settings) m)
                       (if is_empty sightings then ignored st else st) (imap pair sightings)
                 | None => malformed st
                 end in
      (mkIngesting (ig_db st1) (ig_rejections st1) (maybe_report (dl_now m) (ig_stats st1)), dl_stopped m)
  end.

(** [consume]: until the stream ends or the server stops *)
Fixpoint consume (settings : ZmqSettings) (st : Ingesting) (l : list Delivery) : Ingesting :=
  match l with
  | [] => st
  | m :: r => let s := consume_one settings st m in if s.2 then s.1 else consume settings s.1 r
  end.

(** [subscribe], what is subscribed to, and how long [run] waits between tries *)
Definition subscriptions (settings : ZmqSettings) : list str :=
  if is_empty (zs_topics settings) then [[]] else zs_topics settings.
Definition backoff (settings : ZmqSettings) : Z := Z.max 1 (zs_reconnect settings).
End Consume.
