(* ===== verification/StixImport.v ===== *)
(** * Importing STIX bundles

    Models [src/src/ingest/stix.rs], the sightings read out of a bundle, and
    [import_stix] of [src/src/main.rs], the import of the files of a directory.

    The one regular expression of the importer is matched by the [regex] crate:
    [PatternRegex], its three captures of every comparison found.  The fields of
    a parsed object come in the order [serde_json] keeps them. *)

From stdpp Require Import base numbers list strings gmap sorting pretty.
From S2P Require Import Prelude Text Activity Latest Attribute AttributeFacts Convergence Paths Acl Rejections Tags Tier Namespace Disk Database Contents Refine Consensus Eviction Service Accounted System Listing DnsName Peers Config Forward Stix Ingestion.

Class PatternRegex := { captures_iter : str -> list (str * str * str) }.

(** [Mapping::namespace_for] *)
Definition stix_namespace_for (m : StixMapping) (stix_type : str) : option str :=
  match sm_types m !! stix_type with Some ns => Some ns | None => sm_default_namespace m end.

Record Observable := mkObservable { ob_type : str; ob_value : str }.

(** ** Looking things up *)
Definition get_u64 (k : string) (j : Json) : option Z := option_bind _ _ json_u64 (json_get (lit k) j).
Definition get_obj (k : string) (j : Json) : option (list (str * Json)) :=
  match json_get (lit k) j with Some (JObj fs) => Some fs | _ => None end.
(** An array's strings *)
Definition refs_in (k : string) (j : Json) : list str := match get_array k j with Some l => omap json_str l | None => [] end.

(** The map [by_id]: of two objects with the same id the later is kept. *)
Definition by_id (objects : list Json) (id : str) : option Json := last (filter (fun o => get_str "id" o = Some id) objects).

(** [str::replace] of a quote with its backslash *)
Fixpoint unescape_quotes (s : str) : str :=
  match s with
  | [] => []
  | c :: r => match r with
              | d :: r' => if (c =? BACKSLASH)%N && (d =? QUOTE)%N then QUOTE :: unescape_quotes r' else c :: unescape_quotes r
              | [] => [c]
              end
  end.

Definition hash_mark (c : N) : bool := bool_decide (c ∈ lit ".'[]").
Definition trim_hash_marks (s : str) : str := trim_by hash_mark s.

Section Bundle.
Context `{StixLibs} `{PatternRegex}.

(** ** Observables *)
Definition of_comparison (c : str * str * str) : option Observable :=
  let '(stix_type, path, literal) := c in
  let value := unescape_quotes literal in
  if is_empty value then None
  else
    Some (mkObservable
      (if bool_decide (stix_type = lit "file") && starts_with (lit "hashes") path
       then lit "file." ++ trim_hash_marks (trim_start_str (lit "hashes") path)
       else stix_type) value).
Definition from_pattern (pattern : str) : list Observable := omap of_comparison (captures_iter pattern).

Definition collect_observable (object : Json) : list Observable :=
  match get_str "type" object with
  | None => []
  | Some stix_type =>
      if bool_decide (stix_type = lit "file") then
        match get_obj "hashes" object with
        | Some hashes => omap (fun p => mkObservable (lit "file." ++ p.1) <$> nonempty_str (json_str p.2)) hashes
        | None => []
        end
      else
        let value := if bool_decide (stix_type ∈ [lit "mutex"; lit "windows-registry-key"])
                     then match json_get (lit "key") object with Some v => Some v | None => json_get (lit "name") object end
                     else json_get (lit "value") object in
        match nonempty_str (option_bind _ _ json_str value) with
        | Some v => [mkObservable stix_type v]
        | None => []
        end
  end.

Definition observables_of (objects : list Json) (observed : Json) : list Observable :=
  mjoin (collect_observable <$> omap (by_id objects) (refs_in "object_refs" observed))
  ++ match get_obj "objects" observed with
     | Some embedded => mjoin ((fun p => collect_observable p.2) <$> embedded)
     | None => []
     end.

(** ** What a bundle says about a value *)
Definition identity_name (object : Json) : option str :=
  if bool_decide (get_str "type" object = Some (lit "identity")) then sanitize_tag <$> get_str "name" object else None.

Definition tlp_level (objects : list Json) (id : str) : option str :=
  match tlp_of_id id with
  | Some level => Some level
  | None =>
      match by_id objects id with
      | None => None
      | Some marking =>
          if bool_decide (get_str "definition_type" marking = Some (lit "tlp")) then
            match json_get (lit "definition") marking with
            | Some definition => to_ascii_lowercase <$> get_str "tlp" definition
            | None => None
            end
          else None
      end
  end.

Definition tag_of (family : string) (v : str) : str := lit family ++ v.
Definition opt_tag (family : string) (o : option str) : list str := match o with Some v => [tag_of family v] | None => [] end.

Definition creator (objects : list Json) (object : Json) : option str :=
  option_bind _ _ identity_name (option_bind _ _ (by_id objects) (get_str "created_by_ref" object)).
Definition describe (objects : list Json) (object : Json) : list str :=
  opt_tag "identity:" (creator objects object)
  ++ opt_tag "confidence:" (decimal <$> get_u64 "confidence" object)
  ++ (tag_of "tlp:" <$> omap (tlp_level objects) (refs_in "object_marking_refs" object)).

Definition describe_indicator (objects : list Json) (indicator : Json) : list str :=
  describe objects indicator
  ++ opt_tag "stix-id:" (get_str "id" indicator)
  ++ ((fun kind => tag_of "indicator-type:" (sanitize_tag kind)) <$> refs_in "indicator_types" indicator)
  ++ match get_str "name" indicator with
     | Some name => if is_empty (trim name) then [] else [tag_of "name:" (sanitize_tag name)]
     | None => []
     end
  ++ opt_tag "valid-until:" (sanitize_tag <$> get_str "valid_until" indicator).

(** [dedupe] *)
Definition dedupe (tgs : list str) : list str := foldl retain_new [] tgs.

(** STIX timestamps; [None] where there is none that reads *)
Definition stix_timestamp (o : option Json) : option Z := option_bind _ _ parse_rfc3339 (option_bind _ _ json_str o).

Definition emit (mapping : StixMapping) (first last : option Z) (count : Z) (tgs : list str) (o : Observable) : option Sighting :=
  match stix_namespace_for mapping (ob_type o) with
  | None => None
  | Some ns => Some (mkSighting ns (ob_value o) (match first with Some t => Some t | None => last end) last count
                       (tag_of "stix-type:" (ob_type o) :: tgs))
  end.

(** ** The three kinds of object *)
Definition sighted_target (objects : list Json) (sighting : Json) : option Json :=
  option_bind _ _ (by_id objects) (get_str "sighting_of_ref" sighting).

Definition from_sighting (objects : list Json) (mapping : StixMapping) (sighting : Json) : list Sighting :=
  let count := Z.max 1 (default 1%Z (get_u64 "count" sighting)) in
  let seen_by := opt_tag "identity:" <$>
    ((fun id => option_bind _ _ identity_name (by_id objects id)) <$> refs_in "where_sighted_refs" sighting) in
  let target := match sighted_target objects sighting with
                | None => ([], [])
                | Some t =>
                    if bool_decide (get_str "type" t = Some (lit "indicator"))
                    then (match get_str "pattern" t with Some p => from_pattern p | None => [] end, describe_indicator objects t)
                    else (collect_observable t, [])
                end in
  let observed := mjoin (observables_of objects <$> omap (by_id objects) (refs_in "observed_data_refs" sighting)) in
  omap (emit mapping (stix_timestamp (json_get (lit "first_seen") sighting))
          (stix_timestamp (json_get (lit "last_seen") sighting)) count
          (dedupe (describe objects sighting ++ mjoin seen_by ++ target.2)))
    (target.1 ++ observed).

Definition from_observed_data (objects : list Json) (mapping : StixMapping) (observed : Json) : list Sighting :=
  let count := Z.max 1 (default 1%Z (get_u64 "number_observed" observed)) in
  omap (emit mapping (stix_timestamp (json_get (lit "first_observed") observed))
          (stix_timestamp (json_get (lit "last_observed") observed)) count (dedupe (describe objects observed)))
    (observables_of objects observed).

Definition from_indicator (objects : list Json) (mapping : StixMapping) (indicator : Json) : list Sighting :=
  match get_str "pattern" indicator with
  | None => []
  | Some pattern =>
      omap (emit mapping (stix_timestamp (json_get (lit "valid_from") indicator)) None 1
              (dedupe (describe objects indicator ++ describe_indicator objects indicator)))
        (from_pattern pattern)
  end.

(** ** A bundle *)
Definition objects_of (root : Json) : list Json :=
  match get_array "objects" root with
  | Some objects => objects
  | None => match root with JArr objects => objects | JObj _ => [root] | _ => [] end
  end.

(** The indicators some sighting is of *)
Definition sighted (objects : list Json) : list str :=
  omap (get_str "sighting_of_ref") (filter (fun o => get_str "type" o = Some (lit "sighting")) objects).

Definition import_object (objects : list Json) (mapping : StixMapping) (object : Json) : list Sighting :=
  match get_str "type" object with
  | Some t =>
      if bool_decide (t = lit "sighting") then from_sighting objects mapping object
      else if bool_decide (t = lit "observed-data") then from_observed_data objects mapping object
      else if bool_decide (t = lit "indicator") then
        if bool_decide (default [] (get_str "id" object) ∈ sighted objects) then [] else from_indicator objects mapping object
      else []
  | None => []
  end.

Definition import_objects (objects : list Json) (mapping : StixMapping) : list Sighting :=
  mjoin (import_object objects mapping <$> objects).
Definition parse_bundle `{IngestLibs} (json : str) (mapping : StixMapping) : option (list Sighting) :=
  (fun root => import_objects (objects_of root) mapping) <$> from_str json.
End Bundle.

(** ** The import of files *)
Section Files.
Context `{StixLibs} `{PatternRegex} `{IngestLibs} `{Chrono} `{HashOrder} (digest32 : str -> N) (disk : Disk).

(** One sighting of a file: the database and how many were written.  The total
    is a [u64] that wraps in a release build. *)
Definition import_sighting (clock : nat -> nat -> Z) (ttl : Z) (st : Database * Z) (x : nat * Sighting) : Database * Z :=
  let r := record digest32 disk (clock x.1) st.1 ttl x.2 in
  (r.1, match r.2 with None => u64_add st.2 (Z.max 1 (sg_count x.2)) | Some _ => st.2 end).

(** A file: its text if it can be read, and the clock while it is imported *)
Definition import_file (settings : StixSettings) (st : Database * Z) (f : option str * (nat -> nat -> Z)) : Database * Z :=
  match f.1 with
  | None => st
  | Some body =>
      match parse_bundle body (st_mapping settings) with
      | None => st
      | Some sightings =>
          let r := foldl (import_sighting f.2 (st_ttl settings)) (st.1, 0%Z) (imap pair sightings) in
          (r.1, u64_add st.2 r.2)
      end
  end.
Definition import_stix (db : Database) (settings : StixSettings) (files : list (option str * (nat -> nat -> Z))) : Database * Z :=
  foldl (import_file settings) (db, 0%Z) files.
End Files.
