(* ===== verification/IngestFacts.v ===== *)
(** * What ingestion writes

    Over [Ingestion]: what becomes of the markings of an event, what a digest
    gives away, how one sighting of many is written, and which namespaces a feed
    can reach. *)

From stdpp Require Import base numbers list strings gmap sorting pretty.
From S2P Require Import Prelude Text Activity Latest Attribute AttributeFacts Convergence Paths Acl Rejections Tags Tier Namespace Disk Database Contents Refine Consensus Eviction Service Accounted System Listing DnsName Peers Config ConfigFacts Forward Ingestion.

(** ** Tags that are listed once *)
Lemma elem_of_retained x l acc : x ∈ foldl retain_new acc l <-> x ∈ acc \/ x ∈ l.
Proof.
  revert acc. induction l as [|y l IH]; intros acc; cbn [foldl]; [by rewrite elem_of_nil; tauto|].
  rewrite IH, elem_of_cons. unfold retain_new. case_bool_decide; [|rewrite elem_of_app, list_elem_of_singleton]; naive_solver.
Qed.

(** Keeping what has a property, before or after listing once *)
Lemma retained_filter (P : str -> Prop) `{!forall x, Decision (P x)} l acc :
  filter P (foldl retain_new acc l) = foldl retain_new (filter P acc) (filter P l).
Proof.
  revert acc. induction l as [|x l IH]; intros acc; cbn [foldl]; [done|]. rewrite IH.
  assert (E : filter P (retain_new acc x) = if decide (P x) then retain_new (filter P acc) x else filter P acc).
  { unfold retain_new. destruct (decide (P x)) as [Hx|Hx].
    - destruct (decide (x ∈ acc)) as [Hin|Hin].
      + by rewrite !bool_decide_eq_true_2 by (done || by apply list_elem_of_filter).
      + rewrite !bool_decide_eq_false_2 by (done || rewrite list_elem_of_filter; tauto).
        by rewrite filter_app, filter_cons_True.
    - case_bool_decide; [done|]. rewrite filter_app, filter_cons_False by done. cbn. apply app_nil_r. }
  rewrite E, (filter_cons _ x l). by case_decide.
Qed.

(** Runs of equal elements make no difference to it. *)
Lemma dedup_retained l acc : foldl retain_new acc (dedup l) = foldl retain_new acc l.
Proof.
  revert acc. induction l as [|x l IH]; intros acc; [done|]. cbn [dedup].
  assert (Hstep : foldl retain_new acc (x :: dedup l) = foldl retain_new acc (x :: l)) by (cbn [foldl]; apply IH).
  destruct (dedup l) as [|y r] eqn:E; [exact Hstep|]. case_bool_decide as Hxy; [|exact Hstep]. subst y. rewrite <- Hstep.
  cbn [foldl]. f_equal. unfold retain_new. case_bool_decide as Hx; [by rewrite bool_decide_eq_true_2|].
  rewrite bool_decide_eq_true_2 by set_solver. done.
Qed.

(** ** Markings *)
Definition TLP_FAMILY : str := lit "tlp".
Definition tlp_tags (l : list str) : list str := filter (fun t => family_of t = Some TLP_FAMILY) l.

Lemma split_once_prefix c s p r q : split_once c s = Some (p, r) -> split_once c (s ++ q) = Some (p, r ++ q).
Proof.
  revert p r. induction s as [|x s IH]; intros p r; cbn; [done|]. destruct (x =? c)%N; [by intros [= <- <-]|].
  destruct (split_once c s) as [[a b]|]; [|done]. intros [= <- <-]. by rewrite (IH a b).
Qed.

Lemma tlp_tags_in t l : family_of t = Some TLP_FAMILY -> tlp_tags (t :: l) = t :: tlp_tags l.
Proof. intros Ht. unfold tlp_tags. by rewrite filter_cons_True. Qed.
Lemma tlp_tags_out t l : family_of t <> Some TLP_FAMILY -> tlp_tags (t :: l) = tlp_tags l.
Proof. intros Ht. unfold tlp_tags. by rewrite filter_cons_False. Qed.
Lemma tlp_tags_app a b : tlp_tags (a ++ b) = tlp_tags a ++ tlp_tags b.
Proof. apply filter_app. Qed.

(** A tag with a name of its own is no marking. *)
Lemma not_tlp s p r q : split_once COLON s = Some (p, r) -> p <> TLP_FAMILY -> tlp_tags [s ++ q] = [].
Proof. intros Hs Hp. apply tlp_tags_out. unfold family_of. rewrite (split_once_prefix _ _ _ _ _ Hs). intros [= E]. by apply Hp. Qed.

(** Inheriting adds the first marking of the event, and only to what has none. *)
Lemma inherited_tlp event own :
  tlp_tags (foldl inherit own event) = match tlp_tags own with [] => take 1 (tlp_tags event) | l => l end.
Proof.
  revert own. induction event as [|t event IH]; intros own; cbn [foldl]; [by destruct (tlp_tags own)|]. rewrite IH.
  unfold inherit, conflicts. destruct (decide (family_of t = Some TLP_FAMILY)) as [Ht|Ht].
  - rewrite Ht, bool_decide_eq_true_2 by left. cbn [andb].
    assert (Hex : existsb (fun tag => bool_decide (family_of tag = Some TLP_FAMILY)) own = negb (is_empty (tlp_tags own))).
    { clear. unfold tlp_tags. induction own as [|x own IH]; [done|]. cbn [existsb]. rewrite IH, filter_cons.
      case_bool_decide; case_decide; done. }
    rewrite Hex. rewrite (tlp_tags_in t event) by done.
    destruct (tlp_tags own) as [|a l] eqn:Eo; cbn [negb is_empty].
    + by rewrite tlp_tags_app, Eo, tlp_tags_in.
    + by rewrite Eo.
  - assert (Hn : tlp_tags (if match family_of t with
                              | Some ns => bool_decide (ns ∈ SINGLE_VALUED) && existsb (fun tag => bool_decide (family_of tag = Some ns)) own
                              | None => false end then own else own ++ [t]) = tlp_tags own).
    { destruct (match family_of t with Some _ => _ | None => _ end); [done|].
      by rewrite tlp_tags_app, tlp_tags_out, app_nil_r. }
    rewrite Hn. by rewrite (tlp_tags_out t event).
Qed.

Section Misp.
Context `{IngestLibs}.

Lemma own_tlp attribute misp_type context :
  tlp_tags (own_tags attribute misp_type context) = tlp_tags (sanitize_tag <$> tag_names attribute).
Proof.
  unfold own_tags. rewrite !tlp_tags_app. rewrite (not_tlp (lit "misp-type:") _ _ misp_type eq_refl) by done.
  assert (Hopt : forall (s : string) p r (o : option str), split_once COLON (lit s) = Some (p, r) -> p <> TLP_FAMILY ->
    tlp_tags match o with Some x => [lit s ++ x] | None => [] end = []).
  { intros s p r [x|] Hs Hp; [by apply (not_tlp _ p r)|done]. }
  rewrite (Hopt "stix-type:"%string _ _ (stix_type_for_misp misp_type) eq_refl) by done.
  rewrite (Hopt "misp-event:"%string _ _ _ eq_refl) by done.
  destruct (get_str "category" attribute) as [c|]; [rewrite (not_tlp (lit "misp-category:") _ _ (sanitize_tag c) eq_refl) by done|];
    (destruct (get_str "comment" attribute) as [m|]; [|done]); (destruct (is_empty (trim m)); [done|]);
    by rewrite (not_tlp (lit "description:") _ _ (sanitize_tag m) eq_refl).
Qed.

(** The families kept off a digest are not the markings'. *)
Lemma revealing_not_tlp t : existsb (fun family => starts_with family t) VALUE_REVEALING_TAGS = true -> family_of t <> Some TLP_FAMILY.
Proof.
  intros [f [Hf Hs]]%existsb_exists. apply starts_with_spec in Hs as [q ->]. unfold VALUE_REVEALING_TAGS in Hf.
  unfold family_of. destruct Hf as [<-|[<-|[<-|[]]]]; (erewrite split_once_prefix by reflexivity); done.
Qed.

Lemma hashed_tlp l : tlp_tags (hashed_tags l) = tlp_tags l.
Proof.
  unfold hashed_tags. induction l as [|t l IH]; [done|]. rewrite filter_cons. destruct (decide (_ = false)) as [Ht|Ht].
  - destruct (decide (family_of t = Some TLP_FAMILY)) as [E|E]; [by rewrite !tlp_tags_in, IH|by rewrite !tlp_tags_out, IH].
  - rewrite IH, tlp_tags_out; [done|]. apply revealing_not_tlp. by apply not_false_iff_true.
Qed.

Lemma marked attribute misp_type context :
  tlp_tags (tags_of attribute misp_type context)
  = match tlp_tags (sanitize_tag <$> tag_names attribute) with
    | [] => take 1 (tlp_tags (ec_tags context))
    | own => foldl retain_new [] own
    end.
Proof.
  unfold tags_of. rewrite dedup_retained. unfold tlp_tags at 1. rewrite retained_filter.
  change (filter _ (foldl inherit ?o ?e)) with (tlp_tags (foldl inherit o e)). rewrite inherited_tlp, own_tlp.
  destruct (tlp_tags (sanitize_tag <$> _)) as [|a l]; [|done]. by destruct (tlp_tags (ec_tags context)).
Qed.

(** ** What a digest gives away *)

(** Nothing to split a tag at, and nothing to trim off its front *)
Definition clean (t : str) : Prop := COMMA ∉ t /\ forall x r, t = x :: r -> is_whitespace x = false.

Lemma sanitized_clean t : clean (sanitize_tag t).
Proof.
  unfold sanitize_tag. split.
  - intros (c & E & _)%list_elem_of_fmap. destruct (c =? COMMA)%N eqn:Ec; [done|]. apply N.eqb_neq in Ec. congruence.
  - intros x r E. destruct (trim t) as [|y s] eqn:Et; [done|]. cbn in E. injection E as <- _.
    destruct (y =? COMMA)%N; [done|]. by apply (proj1 (trim_by_trimmed is_whitespace t) y s).
Qed.

Lemma literal_clean (s : string) q c r : lit s = c :: r -> is_whitespace c = false -> COMMA ∉ lit s -> COMMA ∉ q -> clean (lit s ++ q).
Proof.
  intros E Hc Hs Hq. split; [by rewrite elem_of_app; intros [?|?]|]. rewrite E. intros x y [= <- _]. exact Hc.
Qed.

Lemma inherited_elem t event own : t ∈ foldl inherit own event -> t ∈ own \/ t ∈ event.
Proof.
  revert own. induction event as [|x event IH]; intros own; cbn [foldl]; [by left|]. intros [Ht|Ht]%IH; [|right; by right].
  unfold inherit in Ht. destruct (conflicts own x); [by left|]. apply elem_of_app in Ht as [Ht|Ht%list_elem_of_singleton]; [by left|].
  subst. right. left.
Qed.

(** Every tag is clean but, perhaps, the one that names the event. *)
Lemma tags_clean attribute misp_type context t :
  COMMA ∉ misp_type -> Forall clean (ec_tags context) -> t ∈ tags_of attribute misp_type context ->
  clean t \/ starts_with (lit "misp-event:") t = true.
Proof.
  intros Hty Hctx. unfold tags_of. rewrite elem_of_retained. intros [Hn%elem_of_nil|Ht%dedup_elem]; [done|].
  apply inherited_elem in Ht as [Ht|Ht]; [|left; rewrite Forall_forall in Hctx; by apply Hctx].
  unfold own_tags in Ht. rewrite !elem_of_app in Ht.
  assert (Hlit : forall (s : string) q, head (lit s) = Some 109%N \/ head (lit s) = Some 115%N \/ head (lit s) = Some 100%N ->
    bool_decide (COMMA ∈ lit s) = false -> COMMA ∉ q -> clean (lit s ++ q)).
  { intros s q Hh Hc%bool_decide_eq_false Hq. destruct (lit s) as [|c r] eqn:E; [by destruct Hh as [?|[?|?]]|].
    rewrite <- E. rewrite <- E in Hc. apply (literal_clean s q c r); [exact E| |exact Hc|exact Hq].
    cbn in Hh. destruct Hh as [[= ->]|[[= ->]|[= ->]]]; done. }
  destruct Ht as [Ht|[Ht|[Ht|[Ht|[Ht|Ht]]]]].
  - left. apply list_elem_of_singleton in Ht as ->. apply Hlit; [by left|done|done].
  - left. destruct (stix_type_for_misp misp_type) as [x|] eqn:Ex; [|by apply elem_of_nil in Ht].
    apply list_elem_of_singleton in Ht as ->. apply Hlit; [right; by left|done|].
    revert Ex. unfold stix_type_for_misp. repeat (destruct (bool_decide (misp_type ∈ _)); [intros [= <-]; by apply (bool_decide_unpack _)|]). done.
  - left. destruct (get_str "category" attribute) as [c|]; [|by apply elem_of_nil in Ht].
    apply list_elem_of_singleton in Ht as ->. apply Hlit; [by left|done|apply sanitized_clean].
  - right. match type of Ht with _ ∈ match ?o with Some _ => _ | None => _ end => destruct o as [e|]; [|by apply elem_of_nil in Ht] end.
    apply list_elem_of_singleton in Ht as ->. apply starts_with_spec. by eexists.
  - left. destruct (get_str "comment" attribute) as [c|]; [|by apply elem_of_nil in Ht].
    destruct (is_empty _); [by apply elem_of_nil in Ht|].
    apply list_elem_of_singleton in Ht as ->. apply Hlit; [right; by right|done|apply sanitized_clean].
  - left. apply list_elem_of_fmap in Ht as (n & -> & _). apply sanitized_clean.
Qed.

Definition revealing (t : str) : bool := existsb (fun family => starts_with family t) VALUE_REVEALING_TAGS.

(** Trimming a tag that starts at once only cuts its end. *)
Lemma trimmed_prefix t : (forall x r, t = x :: r -> is_whitespace x = false) -> exists r, t = trim t ++ r.
Proof.
  intros Ht. unfold trim, trim_by. rewrite (drop_while_id _ t Ht). destruct (drop_while_suffix is_whitespace (reverse t)) as [u Hu].
  exists (reverse u). apply (f_equal reverse) in Hu. by rewrite reverse_involutive, reverse_app in Hu.
Qed.

Lemma revealing_trim t : clean t -> revealing (trim t) = true -> revealing t = true.
Proof.
  intros [_ Ht] Hr. destruct (trimmed_prefix t Ht) as [r E]. unfold revealing in *. apply existsb_exists in Hr as (f & Hf & Hs).
  apply existsb_exists. exists f. split; [done|]. apply starts_with_spec in Hs as [q Hq]. apply starts_with_spec.
  exists (q ++ r). by rewrite E, Hq, app_assoc.
Qed.

(** What is left on a digest, once it is stored, names none of the families. *)
Lemma digest_tags attribute misp_type context t :
  COMMA ∉ misp_type -> Forall clean (ec_tags context) ->
  t ∈ split_tags (join_with [COMMA] (hashed_tags (tags_of attribute misp_type context))) -> revealing t = false.
Proof.
  intros Hty Hctx Ht. set (l := hashed_tags _) in *.
  assert (Hl : forall x, x ∈ l -> clean x /\ revealing x = false).
  { intros x [Hx Hin]%list_elem_of_filter. split; [|exact Hx].
    destruct (tags_clean _ _ _ _ Hty Hctx Hin) as [Hc|He]; [done|]. exfalso. revert Hx. cbn [existsb VALUE_REVEALING_TAGS].
    rewrite He. by rewrite orb_true_r. }
  destruct l as [|a l'] eqn:El; [by apply elem_of_nil in Ht|]. rewrite <- El in *. unfold split_tags in Ht.
  rewrite split_join in Ht; [|by rewrite El|intros p Hp; by apply Hl].
  apply list_elem_of_filter in Ht as [_ (x & -> & Hx)%list_elem_of_fmap]. destruct (Hl x Hx) as [Hc Hr].
  destruct (revealing (trim x)) eqn:E; [|done]. by rewrite (revealing_trim x Hc E) in Hr.
Qed.

Lemma context_clean e : Forall clean (ec_tags (context_of e)).
Proof. apply Forall_fmap, Forall_true. intros x. apply sanitized_clean. Qed.

(** ** Where the sightings of a message come from *)
Lemma collect_elem m ctx s node : s ∈ collect m ctx node -> exists a, s ∈ attribute_to_sightings m ctx a.
Proof.
  revert node. fix IH 1. intros [| | | | |l|fs]; cbn [collect]; try by intros ?%elem_of_nil.
  - induction l as [|x l IHl]; [by intros ?%elem_of_nil|]. intros [Hs|Hs]%elem_of_app; [by apply (IH x)|by apply IHl].
  - intros Hs. by exists (JObj fs).
Qed.

Lemma collect_in_elem m ctx j s : s ∈ collect_in m ctx j -> exists a, s ∈ attribute_to_sightings m ctx a.
Proof. unfold collect_in. destruct (json_get _ j); [apply collect_elem|by intros ?%elem_of_nil]. Qed.

Lemma parse_value_elem m j s :
  s ∈ parse_value m j -> exists ctx a, Forall clean (ec_tags ctx) /\ s ∈ attribute_to_sightings m ctx a.
Proof.
  unfold parse_value. set (ctx := match json_get (lit "Event") j with Some e => context_of e | None => no_context end).
  intros Hs. exists ctx. cut (exists a, s ∈ attribute_to_sightings m ctx a).
  { intros [a Ha]. exists a. split; [|done]. unfold ctx. destruct (json_get _ j); [apply context_clean|constructor]. }
  apply elem_of_app in Hs as [Hs|Hs]; [by eapply collect_in_elem|]. destruct (json_get (lit "Event") j) as [e|]; [|by apply elem_of_nil in Hs].
  apply elem_of_app in Hs as [Hs|Hs]; [by eapply collect_in_elem|]. destruct (get_array _ e) as [l|]; [|by apply elem_of_nil in Hs].
  apply list_elem_of_join in Hs as (x & Hs & (o & -> & _)%list_elem_of_fmap). by eapply collect_in_elem.
Qed.
End Misp.

(** ** Writing one sighting *)
Lemma instant_plausible `{Chrono} s w now : instant_of s = inl w -> plausible now -> plausible (default now w).
Proof.
  unfold instant_of, timestamp_to_instant. destruct s as [z|]; [|by intros [= <-]].
  destruct (from_timestamp z) as [x|] eqn:E; [|done]. intros [= <-] _. apply from_timestamp_Some in E. subst. apply plausible_whole.
Qed.

Lemma instant_whole `{Chrono} s w : instant_of s = inl (Some w) -> floor_secs w = w.
Proof.
  unfold instant_of, timestamp_to_instant. destruct s as [z|]; [|done].
  destruct (from_timestamp z) as [x|] eqn:E; [|done]. intros [= <-]. apply from_timestamp_Some in E. subst.
  unfold floor_secs. by rewrite timestamp_whole.
Qed.

Lemma write_tags a nd w t keep tgs x :
  x ∈ split_tags (tags (stored_attr (write_attr a nd w t keep tgs))) <-> x ∈ split_tags (tags a) \/ x ∈ split_tags tgs.
Proof.
  unfold write_attr. cbv zeta. cbn [stored_attr tags]. set (y := if is_empty tgs then _ else _).
  destruct (increment_fields y nd w keep) as (_ & _ & _ & Et & _). rewrite Et.
  assert (Ea : tags match t with Some t' => set_ttl a t' | None => a end = tags a) by by destruct t. subst y.
  destruct tgs as [|c tgs]; cbn [is_empty].
  - rewrite Ea. change (split_tags []) with (@nil str). rewrite elem_of_nil. tauto.
  - by rewrite split_tags_add_tags, Ea.
Qed.

(** A value once it has been seen: one more, no later than then *)
Lemma seen_first a nd w t keep tgs :
  let a' := stored_attr (write_attr a nd w t keep tgs) in
  (count a + 1 < U64_MODULUS -> count a' = count a + 1)%Z /\ (first_seen a' <= w)%Z.
Proof.
  intros a'. pose proof (count_range a) as Hr. subst a'. rewrite count_stored, count_write_attr. split.
  - intros Hb. unfold u64_add. rewrite wrap64_id; [done|]. unfold is_u64 in *. lia.
  - assert (Hfloor : forall x, (floor_secs x <= x)%Z).
    { intros x. unfold floor_secs, timestamp. pose proof (Z.mul_div_le x NANOS). unfold NANOS in *. lia. }
    cbn [stored_attr first_seen]. etransitivity; [apply Hfloor|]. unfold write_attr. cbv zeta. set (x := if is_empty tgs then _ else _).
    pose proof (f_equal fst (proj1 (increment_fields x nd w keep))) as E. cbn [fst] in E. rewrite E.
    unfold seen_window. destruct (bool_decide _); cbn [fst]; lia.
Qed.

(** ... and its last time is the later of the two, where there was one *)
Lemma seen_last a nd w t keep tgs :
  last_seen (stored_attr (write_attr a nd w t keep tgs))
  = floor_secs (if bool_decide (count a = 0%Z) then w else Z.max (last_seen a) w).
Proof.
  cbn [stored_attr last_seen]. f_equal.
  destruct (write_attr_prep a t tgs) as (Ec & _ & Ef & El & _). unfold write_attr. cbv zeta. set (x := if is_empty tgs then _ else _) in *.
  pose proof (f_equal snd (proj1 (increment_fields x nd w keep))) as E. cbn [snd] in E. rewrite E. unfold seen_window.
  assert (Ex : count x = count a) by (unfold count; by rewrite Ec). rewrite Ex, El. by destruct (bool_decide _).
Qed.

(** A value once it has been seen again: one more, and a window that holds both *)
Lemma seen_again a nd w t keep tgs :
  stored_attr a = a -> (0 < count a)%Z ->
  let a' := stored_attr (write_attr a nd w t keep tgs) in
  (count a + 1 < U64_MODULUS -> count a' = count a + 1)%Z
  /\ (first_seen a' <= first_seen a)%Z /\ (first_seen a' <= w)%Z
  /\ (last_seen a <= last_seen a')%Z /\ (floor_secs w <= last_seen a')%Z.
Proof.
  intros Hs Hc a'. assert (Hl : floor_secs (last_seen a) = last_seen a) by (rewrite <- Hs at 2; done).
  pose proof (count_range a) as Hr.
  assert (Hw : (first_seen (write_attr a nd w t keep tgs), last_seen (write_attr a nd w t keep tgs))
    = (Z.min (first_seen a) w, Z.max (last_seen a) w)).
  { destruct (write_attr_prep a t tgs) as (Ec & _ & Ef & El & _). unfold write_attr. cbv zeta. set (x := if is_empty tgs then _ else _) in *.
    etransitivity; [exact (proj1 (increment_fields x nd w keep))|]. unfold seen_window.
    assert (Ex : count x = count a) by (unfold count; by rewrite Ec). rewrite Ex, Ef, El.
    by rewrite bool_decide_eq_false_2 by lia. }
  pose proof (f_equal fst Hw) as Hf. pose proof (f_equal snd Hw) as Hm. cbn [fst snd] in Hf, Hm. clear Hw. subst a'. rewrite count_stored, count_write_attr. cbn [stored_attr first_seen last_seen]. rewrite Hf, Hm.
  assert (Hfloor : forall x, (floor_secs x <= x)%Z).
  { intros x. unfold floor_secs, timestamp. pose proof (Z.mul_div_le x NANOS). unfold NANOS in *. lia. }
  pose proof (floor_secs_mono w (Z.max (last_seen a) w) ltac:(lia)).
  pose proof (floor_secs_mono (last_seen a) (Z.max (last_seen a) w) ltac:(lia)).
  pose proof (Hfloor (Z.min (first_seen a) w)). split_and!; [|lia..].
  intros Hb. unfold u64_add. rewrite wrap64_id; [done|]. unfold is_u64 in *. lia.
Qed.

Section Recorded.
Context `{Chrono} `{HashOrder} (digest32 : str -> N) (disk : Disk) (ns v : str).
Abbreviation impl := (implements digest32 disk).

(** Nothing but the value has changed. *)
Definition only_value (abs abs' : Abs) : Prop :=
  (forall n, n <> ns -> n <> ALL_NAMESPACE -> abs' !! n = abs !! n)
  /\ (forall x, x <> v -> a_values abs' ns !! x = a_values abs ns !! x).

Lemma only_value_trans a b c : only_value a b -> only_value b c -> only_value a c.
Proof. intros [H1 H2] [H3 H4]. split; intros; [by rewrite H3, H1|by rewrite H4, H2]. Qed.

Lemma write_only abs self nd w t keep tgs cons :
  ns <> ALL_NAMESPACE -> only_value abs (a_write abs self nd ns v w t keep tgs cons).
Proof.
  intros Hne. unfold a_write, a_record, a_update. split.
  - intros n Hn Ha. destruct (cons && _); by rewrite ?lookup_insert_ne.
  - intros x Hx. unfold a_values. destruct (cons && _); rewrite ?(lookup_insert_ne _ ALL_NAMESPACE ns) by done;
      rewrite lookup_insert_eq; cbn; by rewrite lookup_insert_ne.
Qed.

Lemma write_value abs self nd w t keep tgs cons :
  ns <> ALL_NAMESPACE ->
  a_values (a_write abs self nd ns v w t keep tgs cons) ns !! v
  = Some (stored_attr (write_attr (default (new v) (a_values abs ns !! v)) nd w t keep tgs)).
Proof.
  intros Hne. unfold a_write, a_record, a_update. unfold a_values at 1.
  destruct (cons && _); rewrite ?(lookup_insert_ne _ ALL_NAMESPACE ns) by done; rewrite lookup_insert_eq; cbn; by rewrite lookup_insert_eq.
Qed.

Definition kept_settings (db db' : Database) : Prop := node db' = node db /\ policy db' = policy db /\ stores db' = stores db.

Lemma record_rest_spec clock last t n : forall db abs a,
  impl db abs -> opt_u64 t -> is_u64 (shadow_ttl (policy db)) -> check db ns v = None ->
  (forall i, plausible (default (clock i) last)) ->
  a_values abs ns !! v = Some a -> stored_attr a = a -> (0 < count a)%Z -> (count a + Z.of_nat n < U64_MODULUS)%Z ->
  let r := record_rest digest32 disk clock n db ns v last t in
  r.2 = None /\ exists abs' a', impl r.1 abs' /\ kept_settings db r.1 /\ only_value abs abs'
    /\ a_values abs' ns !! v = Some a' /\ count a' = (count a + Z.of_nat n)%Z
    /\ (first_seen a' <= first_seen a)%Z /\ (last_seen a <= last_seen a')%Z
    /\ (forall x, x ∈ split_tags (tags a) -> x ∈ split_tags (tags a'))
    /\ (n <> 0%nat -> forall l, last = Some l -> floor_secs l <= last_seen a')%Z /\ (n = 0%nat -> a' = a).
Proof.
  induction n as [|n IH]; intros db abs a Himp Ht Hsh Hck Hpl Ha Hst Hc Hb; cbn [record_rest].
  - split; [done|]. exists abs, a. split_and!; try done; try lia.
  - unfold write_tagged.
    destruct (client_write_accepted digest32 disk (clock (S n)) db abs None ns v last t [] Himp Ht Hsh (Hpl (S n)) Hck)
      as (H1 & H2 & H3 & H4 & _ & _ & Hint & H5).
    set (q := client_write _ _ _ _ _ _ _ _ _ _) in *. rewrite H5. cbv beta iota zeta. cbn [default from_option id] in H1.
    assert (Hne : ns <> ALL_NAMESPACE) by by intros ->.
    set (abs1 := a_write _ _ _ _ _ _ _ _ _ _) in H1.
    pose proof (write_value abs (node db) (node db) (default (clock (S n)) last) t (stats_retention (policy db)) [] true Hne) as Hv1.
    rewrite Ha in Hv1. cbn [default from_option id] in Hv1.
    destruct (seen_again a (node db) (default (clock (S n)) last) t (stats_retention (policy db)) [] Hst Hc) as (C1 & C2 & C3 & C4 & C5).
    match type of Hv1 with _ = Some ?x => set (a1 := x) in * end. specialize (C1 ltac:(lia)).
    destruct (IH q.1 abs1 a1) as (R1 & abs' & a' & R2 & (K1 & K2 & K3) & R3 & R4 & R5 & R6 & R7 & Rt & R8 & _);
      [done|done|by rewrite H3| |done|exact Hv1|apply stored_attr_idemp|lia|lia|].
    { unfold check in *. by rewrite H4. }
    split; [exact R1|]. exists abs', a'. split_and!.
    + exact R2.
    + unfold kept_settings. by rewrite K1, K2, K3, H2, H3, H4.
    + eapply only_value_trans; [by apply write_only|exact R3].
    + exact R4.
    + lia.
    + lia.
    + lia.
    + intros x Hx. apply Rt. apply write_tags. by left.
    + intros _ l Hl. subst last. etransitivity; [exact C5|exact R7].
    + done.
Qed.
End Recorded.

(** A whole sighting, once its times can be represented *)
Lemma record_instants `{Chrono, HashOrder} digest32 disk clock db ttl s :
  let r := record digest32 disk clock db ttl s in
  r = (db, Some (InvalidTimestamp (default 0%Z (sg_timestamp s)))) \/ r = (db, Some (InvalidTimestamp (default 0%Z (sg_last_timestamp s))))
  \/ exists first last, instant_of (sg_timestamp s) = inl first
       /\ (match sg_last_timestamp s with Some _ => instant_of (sg_last_timestamp s) | None => inl first end) = inl last
       /\ match check db (sg_namespace s) (sg_value s) with
          | Some e => r = (db, Some e)
          | None =>
              let n := Z.to_nat (Z.max 1 (sg_count s)) in let t := if bool_decide (0 < ttl)%Z then Some ttl else None in
              let w := write_tagged digest32 disk (clock n) db (sg_namespace s) (sg_value s) first t (join_with [COMMA] (sg_tags s)) in
              r = match w.2 with
                  | inl _ => record_rest digest32 disk clock (pred n) w.1 (sg_namespace s) (sg_value s) last t
                  | inr e => (w.1, Some e)
                  end
          end.
Proof.
  cbv zeta. unfold record. cbv zeta. destruct (instant_of (sg_timestamp s)) as [first|e] eqn:E1.
  - destruct (match sg_last_timestamp s with Some _ => _ | None => _ end) as [last|e] eqn:E2.
    + right. right. exists first, last. split; [done|]. split; [done|].
      destruct (check db (sg_namespace s) (sg_value s)) eqn:Ec; [|done]. unfold write_tagged, client_write. by rewrite Ec.
    + right. left. destruct (sg_last_timestamp s) as [z|]; [|done]. unfold instant_of, timestamp_to_instant in E2.
      destruct (from_timestamp z); [done|]. by injection E2 as <-.
  - left. destruct (sg_timestamp s) as [z|]; [|done]. unfold instant_of, timestamp_to_instant in E1.
    destruct (from_timestamp z); [done|]. by injection E1 as <-.
Qed.

(** ** Where a feed writes *)
Section Feed.
Context `{IngestLibs} `{Chrono} `{HashOrder} (digest32 : str -> N) (disk : Disk).
Abbreviation impl := (implements digest32 disk).

(** Where the mapping sends what it reads *)
Definition targets (m : MispMapping) (ns : str) : Prop :=
  (exists ty, mm_types m !! ty = Some ns) \/ mm_default_namespace m = Some ns \/ mm_hashed_namespace m = Some ns.

Lemma sighting_target m ctx a s : s ∈ attribute_to_sightings m ctx a -> targets m (sg_namespace s).
Proof.
  unfold attribute_to_sightings. destruct (mm_require_to_ids m && _); [by intros ?%elem_of_nil|].
  destruct (get_str "type" a) as [ty|]; [|by intros ?%elem_of_nil]. destruct (attribute_value a) as [v|]; [|by intros ?%elem_of_nil].
  set (plain := if mm_store_values m then _ else _).
  assert (Hp : forall n, plain = Some n -> targets m n).
  { intros n. unfold plain, misp_namespace_for. destruct (mm_store_values m); [|done].
    destruct (mm_types m !! ty) eqn:E; [intros [= ->]; left; by exists ty|]. intros Hd. right. by left. }
  destruct plain as [n|], (mm_hashed_namespace m) as [h|] eqn:Eh; cbn [app]; rewrite ?elem_of_cons, elem_of_nil; intros Hs;
    destruct_or? Hs; try done; subst s; cbn; [by apply Hp|right; by right|by apply Hp|right; by right].
Qed.

(** Contents that differ in the namespaces of a set, and the tally, at most *)
Definition differ_in (P : str -> Prop) (abs abs' : Abs) : Prop := forall n, ~ P n -> n <> ALL_NAMESPACE -> abs' !! n = abs !! n.

Definition ready (db db0 : Database) (abs : Abs) : Prop := impl db abs /\ policy db = policy db0.

Lemma record_rest_confined clock ns v last t n : forall db db0 abs,
  ready db db0 abs -> opt_u64 t -> is_u64 (shadow_ttl (policy db0)) -> (forall i, plausible (default (clock i) last)) ->
  exists abs', ready (record_rest digest32 disk clock n db ns v last t).1 db0 abs' /\ differ_in (fun x => x = ns) abs abs'.
Proof.
  induction n as [|n IH]; intros db db0 abs [Himp Hp] Ht Hsh Hpl; cbn [record_rest]; [exists abs; by split|].
  cbv zeta. unfold write_tagged. destruct (check db ns v) as [e|] eqn:Hck.
  - assert (E : client_write digest32 disk (clock (S n)) db None ns v last t [] = (db, inr e)) by (unfold client_write; by rewrite Hck).
    rewrite E. exists abs. by split.
  - destruct (client_write_accepted digest32 disk (clock (S n)) db abs None ns v last t [] Himp Ht ltac:(by rewrite Hp) (Hpl _) Hck)
      as (W1 & _ & W3 & _ & _ & _ & Hint & W5). rewrite W5.
    destruct (IH _ db0 _ (conj W1 (eq_trans W3 Hp)) Ht Hsh Hpl) as (abs' & Hr & Hd). exists abs'. split; [exact Hr|].
    intros x Hx Ha. rewrite Hd by done. by apply write_only; [intros ->|..].
Qed.

Lemma record_confined clock db db0 abs ttl s :
  ready db db0 abs -> is_u64 ttl -> is_u64 (shadow_ttl (policy db0)) -> (forall i, plausible (clock i)) ->
  exists abs', ready (record digest32 disk clock db ttl s).1 db0 abs' /\ differ_in (fun x => x = sg_namespace s) abs abs'.
Proof.
  intros [Himp Hp] Httl Hsh Hclk.
  assert (Hno : exists abs', ready db db0 abs' /\ differ_in (fun x => x = sg_namespace s) abs abs') by (exists abs; by split).
  destruct (record_instants digest32 disk clock db ttl s) as [E|[E|(first & last & Ef & El & E)]];
    [unfold ready in *; by rewrite E|unfold ready in *; by rewrite E|].
  destruct (check db _ _) as [e|] eqn:Hck; [unfold ready in *; by rewrite E|]. cbv zeta in E.
  assert (Ht : opt_u64 (if bool_decide (0 < ttl)%Z then Some ttl else None)) by by destruct (bool_decide _).
  set (t := if bool_decide _ then _ else _) in *. unfold write_tagged in E. set (n := Z.to_nat _) in *.
  destruct (client_write_accepted digest32 disk (clock n) db abs None _ _ first t (join_with [COMMA] (sg_tags s)) Himp Ht ltac:(by rewrite Hp)
    (instant_plausible _ _ _ Ef (Hclk _)) Hck) as (W1 & _ & W3 & _ & _ & _ & Hint & W5).
  rewrite W5 in E. rewrite E.
  destruct (record_rest_confined clock (sg_namespace s) (sg_value s) last t (pred n) _ db0 _ (conj W1 (eq_trans W3 Hp)) Ht Hsh) as (abs' & Hr & Hd).
  { intros i. destruct (sg_last_timestamp s); [by eapply instant_plausible|]. injection El as <-. by eapply instant_plausible. }
  exists abs'. split; [exact Hr|]. intros x Hx Ha. rewrite Hd by done. by apply write_only; [intros Ei; rewrite Ei in Hint|..].
Qed.

(** The state of the loop, with contents that differ from the start in [P] *)
Definition fed (P : str -> Prop) (db0 : Database) (abs0 : Abs) (st : Ingesting) : Prop :=
  exists abs, ready (ig_db st) db0 abs /\ differ_in P abs0 abs.

Lemma fed_sighting P db0 abs0 ttl m st x :
  is_u64 ttl -> is_u64 (shadow_ttl (policy db0)) -> (forall i j, plausible (dl_clock m i j)) -> P (sg_namespace x.2) ->
  fed P db0 abs0 st -> fed P db0 abs0 (ingest_sighting digest32 disk ttl m st x).
Proof.
  intros Httl Hsh Hclk HP (abs & Hr & Hd).
  destruct (record_confined (dl_clock m x.1) (ig_db st) db0 abs ttl x.2 Hr Httl Hsh (Hclk x.1)) as (abs' & Hr' & Hd').
  exists abs'. split; [unfold ingest_sighting; destruct (record _ _ _ _ _ _).2; exact Hr'|].
  intros n Hn Ha. rewrite Hd' by (done || by intros ->). by apply Hd.
Qed.

Lemma fed_sightings P db0 abs0 ttl m l st :
  is_u64 ttl -> is_u64 (shadow_ttl (policy db0)) -> (forall i j, plausible (dl_clock m i j)) ->
  Forall (fun x => P (sg_namespace x.2)) l -> fed P db0 abs0 st -> fed P db0 abs0 (foldl (ingest_sighting digest32 disk ttl m) st l).
Proof.
  intros Httl Hsh Hclk Hl. revert st. induction Hl as [|x l Hx _ IH]; intros st Hst; [done|]. cbn [foldl]. apply IH. by apply fed_sighting.
Qed.

Lemma imap_pair_snd {A} (l : list A) x : x ∈ imap pair l -> x.2 ∈ l.
Proof. intros (i & y & -> & Hy)%elem_of_lookup_imap. by apply list_elem_of_lookup_2 in Hy. Qed.

Lemma fed_message P db0 abs0 settings st m :
  is_u64 (zs_ttl settings) -> is_u64 (shadow_ttl (policy db0)) -> (forall i j, plausible (dl_clock m i j)) ->
  (forall body l s, parsed_message settings body = Some l -> s ∈ l -> P (sg_namespace s)) ->
  fed P db0 abs0 st -> fed P db0 abs0 (consume_one digest32 disk settings st m).1.
Proof.
  intros Httl Hsh Hclk HP Hst. unfold consume_one. destruct (body_of _) as [body|]; [|exact Hst]. cbv zeta. cbn [fst].
  destruct (parsed_message settings body) as [l|] eqn:El; [|exact Hst].
  apply (fed_sightings P db0 abs0 (zs_ttl settings) m (imap pair l)); [done..| |by destruct (is_empty l)].
  apply Forall_forall. intros x Hx%imap_pair_snd. by eapply HP.
Qed.
End Feed.

(** ** Properties *)

(** A marking follows its value.  An attribute that carries TLP tags of its
    own keeps those and none of its event's; one that carries none gets the
    first of the event it came in; and the digest of a value is marked as the
    value is. *)
Theorem marking_inherited `{IngestLibs} attribute misp_type context :
  let own := tlp_tags (sanitize_tag <$> tag_names attribute) in
  let tgs := tags_of attribute misp_type context in
  tlp_tags tgs = match own with [] => take 1 (tlp_tags (ec_tags context)) | _ => foldl retain_new [] own end
  /\ tlp_tags (hashed_tags tgs) = tlp_tags tgs.
Proof.
  cbv zeta. split; [|apply hashed_tlp]. rewrite marked. by destruct (tlp_tags (sanitize_tag <$> tag_names attribute)).
Qed.


(** C14: an ingested sighting is written whole or not at all.  When it is refused,
    for its times or by the checks every write passes, nothing has changed; when
    it is accepted, and the count does not overflow 64 bits, its value has been
    counted exactly as often as it says, a count of none as one; its tags are on
    the value; the window reaches back to its first time and, if it counts two or
    more, up to its last; a sighting that counts one is seen at its first time
    only, the last time it gives is not recorded; and nothing else in the contents
    but the tally is touched. *)
Theorem sighting_recorded `{Chrono, HashOrder} digest32 disk clock db abs ttl s :
  implements digest32 disk db abs -> is_u64 ttl -> is_u64 (shadow_ttl (policy db)) -> (forall i, plausible (clock i)) ->
  let ns := sg_namespace s in let v := sg_value s in let n := Z.max 1 (sg_count s) in
  let old := default (new v) (a_values abs ns !! v) in
  (count old + n < U64_MODULUS)%Z ->
  let r := record digest32 disk clock db ttl s in
  match r.2 with
  | Some e => r.1 = db
  | None =>
      check db ns v = None
      /\ exists abs' a, implements digest32 disk r.1 abs' /\ only_value ns v abs abs'
           /\ a_values abs' ns !! v = Some a /\ count a = (count old + n)%Z
           /\ (forall x, x ∈ split_tags (join_with [COMMA] (sg_tags s)) -> x ∈ split_tags (tags a))
           /\ (forall f, sg_timestamp s = Some f -> first_seen a <= f * NANOS)%Z
           /\ (forall l, sg_last_timestamp s = Some l -> 2 <= n -> l * NANOS <= last_seen a)%Z
           /\ (forall f, sg_timestamp s = Some f -> n = 1%Z ->
                 last_seen a = floor_secs (if bool_decide (count old = 0%Z) then f * NANOS else Z.max (last_seen old) (f * NANOS)))%Z
  end.
Proof.
  intros Himp Httl Hsh Hclk ns v n old Hb r.
  destruct (record_instants digest32 disk clock db ttl s) as [E|[E|(first & last & Ef & El & E)]];
    [unfold r; by rewrite E|unfold r; by rewrite E|]. fold ns v in E.
  destruct (check db ns v) as [e|] eqn:Hck; [unfold r; by rewrite E|]. fold r in E. cbv zeta in E.
  assert (Ht : opt_u64 (if bool_decide (0 < ttl)%Z then Some ttl else None)) by by destruct (bool_decide _).
  set (t := if bool_decide _ then _ else _) in *. fold n in E. unfold write_tagged in E.
  destruct (client_write_accepted digest32 disk (clock (Z.to_nat n)) db abs None ns v first t (join_with [COMMA] (sg_tags s)) Himp Ht Hsh
    (instant_plausible _ _ _ Ef (Hclk _)) Hck) as (W1 & W2 & W3 & W4 & _ & _ & Hint & W5).
  set (q := client_write _ _ _ _ _ _ _ _ _ _) in *. rewrite W5 in E. cbn [default from_option id] in W1.
  assert (Hne : ns <> ALL_NAMESPACE) by by intros ->.
  pose proof (write_value ns v abs (node db) (node db) (default (clock (Z.to_nat n)) first) t (stats_retention (policy db))
    (join_with [COMMA] (sg_tags s)) true Hne) as Hv. fold old in Hv.
  destruct (seen_first old (node db) (default (clock (Z.to_nat n)) first) t (stats_retention (policy db)) (join_with [COMMA] (sg_tags s)))
    as [C1 C2]. pose proof (fun x => write_tags old (node db) (default (clock (Z.to_nat n)) first) t (stats_retention (policy db))
    (join_with [COMMA] (sg_tags s)) x) as Htg.
  match type of Hv with _ = Some ?x => set (a1 := x) in * end. pose proof (count_range old) as Hr. unfold is_u64 in Hr.
  specialize (C1 ltac:(lia)).
  destruct (record_rest_spec digest32 disk ns v clock last t (pred (Z.to_nat n)) q.1 _ a1 W1 Ht)
    as (R1 & abs' & a & R2 & _ & R3 & R4 & R5 & R6 & R7 & R8 & R9 & R10);
    [by rewrite W3|unfold check in *; by rewrite W4| |exact Hv|apply stored_attr_idemp|lia|lia|].
  { intros i. destruct (sg_last_timestamp s); [by eapply instant_plausible|]. injection El as <-. by eapply instant_plausible. }
  rewrite E, R1. split; [done|]. exists abs', a. split_and!.
  - exact R2.
  - eapply only_value_trans; [by apply write_only|exact R3].
  - exact R4.
  - rewrite R5, C1. lia.
  - intros x Hx. apply R8, Htg. by right.
  - intros f Hf. rewrite Hf in Ef. unfold instant_of, timestamp_to_instant in Ef. destruct (from_timestamp f) as [w|] eqn:Ew; [|done].
    injection Ef as <-. apply from_timestamp_Some in Ew as ->. cbn [default from_option id] in C2. lia.
  - intros l Hl H2. rewrite Hl in El. unfold instant_of, timestamp_to_instant in El. destruct (from_timestamp l) as [w|] eqn:Ew; [|done].
    injection El as <-. apply from_timestamp_Some in Ew as ->. specialize (R9 ltac:(lia) _ eq_refl).
    unfold floor_secs in R9. by rewrite timestamp_whole in R9.
  - intros f Hf H1. rewrite Hf in Ef. unfold instant_of, timestamp_to_instant in Ef. destruct (from_timestamp f) as [w|] eqn:Ew; [|done].
    injection Ef as <-. apply from_timestamp_Some in Ew as ->. rewrite (R10 ltac:(lia)). apply seen_last.
Qed.

(** C15: a MISP feed writes where its mapping says and nowhere else.  Whatever
    messages a publisher sends, well formed or not, and however often they are
    refused, the only namespaces whose contents can differ afterwards are those
    the configuration maps types to, its default and its namespace of digests,
    and the tally. *)
Theorem feed_confined `{IngestLibs, Chrono, HashOrder} digest32 disk settings st l abs :
  zs_format settings = Misp -> is_u64 (zs_ttl settings) -> is_u64 (shadow_ttl (policy (ig_db st))) ->
  Forall (fun m => forall i j, plausible (dl_clock m i j)) l -> implements digest32 disk (ig_db st) abs ->
  exists abs', implements digest32 disk (ig_db (consume digest32 disk settings st l)) abs'
    /\ forall ns, ~ targets (zs_mapping settings) ns -> ns <> ALL_NAMESPACE -> abs' !! ns = abs !! ns.
Proof.
  intros Hf Httl Hsh Hl Himp.
  assert (Hst : fed digest32 disk (targets (zs_mapping settings)) (ig_db st) abs st) by (exists abs; by split).
  assert (Hp : forall body l s, parsed_message settings body = Some l -> s ∈ l -> targets (zs_mapping settings) (sg_namespace s)).
  { intros body k s. unfold parsed_message, misp_parse. rewrite Hf. destruct (from_str _) as [j|]; [|done]. intros [= <-].
    intros (ctx & a & _ & Hs)%parse_value_elem. by eapply sighting_target. }
  revert Hsh Hst. generalize (ig_db st) at 1 2 as db0. intros db0 Hsh.
  clear Himp. revert st. induction Hl as [|m l Hm _ IH]; intros st Hst; cbn [consume].
  - destruct Hst as (abs' & [Hi _] & Hd). by exists abs'.
  - pose proof (fed_message digest32 disk _ db0 abs settings st m Httl Hsh Hm Hp Hst) as Hst'. cbv zeta.
    destruct (consume_one _ _ _ _ _) as [st1 stop]. cbn [fst snd] in *. destruct stop; [|by apply IH].
    destruct Hst' as (abs' & [Hi _] & Hd). by exists abs'.
Qed.

(** ** Some messages *)

(** A feed of one event marked amber, with an attribute of its own marking and
    one without *)
Definition misp_tag (name : string) : Json := JObj [(lit "name", JStr (lit name))].
Definition demo_attribute (ty v : string) (tgs : list string) : Json :=
  JObj [(lit "type", JStr (lit ty)); (lit "value", JStr (lit v)); (lit "comment", JStr (lit "seen on 1.2.3.4"));
        (lit "timestamp", JStr (lit "100")); (lit "Tag", JArr (misp_tag <$> tgs))].
Definition demo_event : Json :=
  JObj [(lit "Event", JObj [(lit "uuid", JStr (lit "e1")); (lit "Tag", JArr (misp_tag <$> ["tlp:amber"; "tlp:red"; "osint"]%string));
    (lit "Attribute", JArr [demo_attribute "ip-dst" "1.2.3.4" []; demo_attribute "domain" "x.example" ["tlp:green"%string]])])].
Definition demo_ingest : IngestLibs :=
  {| from_str s := if starts_with (lit "{") s then Some demo_event else None; native_batch _ := None; float_text := lit "0.5";
     sha256 bs := (fun b => (b * 7 mod 256)%N) <$> bs |}.
Definition digests_only : MispMapping := mkMispMapping ∅ None false (Some (lit "misp/digests")) false.
Definition demo_mapping : MispMapping := mkMispMapping {[lit "ip-dst" := lit "feeds/ips"]} None false None true.


Definition many : Sighting := mkSighting (lit "feeds/ips") (lit "1.2.3.4") (Some 100%Z) (Some 200%Z) 3 [lit "tlp:amber"].

Lemma sighting_recorded_witness :
  let C := chrono_10000y in let O := some_order in
  let r := record (fun _ => 7%N) ∅ (fun _ => (500 * NANOS)%Z) demo_db 0 many in
  r.2 = None
  /\ exists abs' a, implements (fun _ => 7%N) ∅ r.1 abs' /\ a_values abs' (lit "feeds/ips") !! lit "1.2.3.4" = Some a /\ count a = 3%Z
      /\ (first_seen a <= 100 * NANOS)%Z /\ (200 * NANOS <= last_seen a)%Z.
Proof.
  assert (Hu : is_u64 0) by by vm_compute.
  assert (Hn : (count (default (new (lit "1.2.3.4")) (a_values ∅ (lit "feeds/ips") !! lit "1.2.3.4")) + 3 < U64_MODULUS)%Z) by by vm_compute.
  intros C O r. assert (E : r.2 = None) by by vm_compute. split; [exact E|].
  pose proof (@sighting_recorded C O (fun _ => 7%N) ∅ (fun _ => (500 * NANOS)%Z) demo_db ∅ 0 many (empty_implements _ _ _ _ _)
    Hu Hu (fun _ => plausible_whole 500) Hn) as Hr.
  cbv zeta in Hr. fold r in Hr. rewrite E in Hr. destruct Hr as (_ & abs' & a & Hi & _ & Ha & Hc & _ & Hf & Hl & _).
  exists abs', a. split; [exact Hi|]. split; [exact Ha|]. clear E Hi Ha. split; [rewrite Hc; by vm_compute|].
  clear r Hc. split; [by apply (Hf 100%Z)|]. apply (Hl 200%Z); [done|]. vm_compute. done.
Defined.

(** A single observation of a whole window keeps only the start of it. *)
Lemma single_sighting_loses_window :
  let C := chrono_10000y in let O := some_order in
  let one := mkSighting (lit "feeds/ips") (lit "1.2.3.4") (Some 100%Z) (Some 200%Z) 1 [] in
  let r := record (fun _ => 7%N) ∅ (fun _ => (500 * NANOS)%Z) demo_db 0 one in
  r.2 = None
  /\ (view_in (fun _ => 7%N) ∅ (500 * NANOS) r.1 (lit "feeds/ips") (lit "1.2.3.4") 0 false).2
     = Some (mkView (lit "1.2.3.4") 100 100 1 [] 0 0 None).
Proof. intros C O. vm_compute. done. Qed.

(** The families kept off a digest are compared as they are written, the tags of
    a value without regard to case. *)
Lemma digest_family_case :
  let L := demo_ingest in
  let tgs := hashed_tags (tags_of (demo_attribute "text" "x" ["Stix-Type:ipv4-addr"%string]) (lit "text") no_context) in
  tag_value (join_with [COMMA] tgs) (lit "stix-type") = Some (lit "ipv4-addr").
Proof. intros L. vm_compute. done. Qed.

(** So are the markings: two of them end up on one value. *)
Lemma marking_case_conflict :
  let L := demo_ingest in
  let tgs := tags_of (demo_attribute "text" "x" ["TLP:WHITE"%string]) (lit "text") (mkContext [lit "tlp:red"] None) in
  tag_values (join_with [COMMA] tgs) (lit "tlp") = [lit "WHITE"; lit "red"].
Proof. intros L. vm_compute. done. Qed.

Lemma feed_confined_witness :
  let L := demo_ingest in let C := chrono_10000y in let O := some_order in
  let settings := mkZmq [] [] Misp demo_mapping 0 5 in
  let st := mkIngesting demo_db rj_default (new_stats (500 * NANOS)) in
  let m := mkDelivery [lit "misp_json {}"] (fun _ _ => (500 * NANOS)%Z) (500 * NANOS) false in
  let st' := consume (fun _ => 7%N) ∅ settings st [m; m] in
  (exists abs', implements (fun _ => 7%N) ∅ (ig_db st') abs' /\ abs' !! lit "secret" = None)
  /\ st_written (ig_stats st') = 2%Z.
Proof.
  intros L C O settings st m st'. split; [|vm_compute; reflexivity].
  destruct (@feed_confined L C O (fun _ => 7%N) ∅ settings st [m; m] ∅) as (abs' & Hi & Hd).
  - done.
  - done.
  - done.
  - repeat constructor; intros; apply plausible_whole.
  - apply empty_implements.
  - exists abs'. split; [exact Hi|]. rewrite Hd; [done| |done].
    intros [[ty Ht]|[Ht|Ht]]; [|done..]. cbn in Ht. apply lookup_singleton_Some in Ht as [_ Ht]. done.
Defined.
