(* ===== verification/StixImportFacts.v ===== *)
(** * What comes back from an export

    Over [Stix] and [StixImport]: the import of a bundle this program exported
    gives back one sighting for each, of the value its indicator names, with its
    count, its window and its markings; and what becomes of values that share an
    indicator. *)

From stdpp Require Import base numbers list strings gmap sorting pretty.
From S2P Require Import Prelude Text Activity Latest Attribute Paths Acl Tags Tier Namespace Disk Database Listing DnsName Peers Config Forward Stix StixFacts Ingestion StixImport IngestFacts.

(** ** Escaping *)
Definition double_char (c : N) : str := if (c =? BACKSLASH)%N then [BACKSLASH; BACKSLASH] else [c].
Definition doubled (v : str) : str := mjoin (double_char <$> v).

Lemma escape_pattern_cons c v : escape_pattern (c :: v) = escape_pattern_char c ++ escape_pattern v.
Proof. done. Qed.
Lemma escape_head v : head (escape_pattern v) <> Some QUOTE.
Proof.
  destruct v as [|c v]; [done|]. rewrite escape_pattern_cons. unfold escape_pattern_char.
  destruct (N.eqb_spec c BACKSLASH), (N.eqb_spec c QUOTE); cbn; [done..|]. congruence.
Qed.

(** A character that does not open an escape is kept. *)
Lemma unescape_skip c r : ~ (c = BACKSLASH /\ head r = Some QUOTE) -> unescape_quotes (c :: r) = c :: unescape_quotes r.
Proof.
  intros Hn. destruct r as [|d r]; [done|]. cbn [unescape_quotes].
  destruct (N.eqb_spec c BACKSLASH), (N.eqb_spec d QUOTE); cbn [andb]; try done. subst. by destruct Hn.
Qed.

Lemma unescape_escape v : unescape_quotes (escape_pattern v) = doubled v.
Proof.
  induction v as [|c v IH]; [done|]. rewrite escape_pattern_cons. change (doubled (c :: v)) with (double_char c ++ doubled v).
  rewrite <- IH. pose proof (escape_head v) as Hh. unfold escape_pattern_char, double_char.
  destruct (N.eqb_spec c BACKSLASH) as [->|Hb]; cbn [orb].
  - cbn [app]. rewrite !unescape_skip; [done| |]; cbn; naive_solver.
  - destruct (N.eqb_spec c QUOTE) as [->|Hq]; cbn [app].
    + cbn [unescape_quotes]. by rewrite !N.eqb_refl.
    + rewrite unescape_skip; [done|]. naive_solver.
Qed.

Lemma doubled_length v : (length v <= length (doubled v))%nat.
Proof.
  induction v as [|c v IH]; [done|]. change (doubled (c :: v)) with (double_char c ++ doubled v). rewrite length_app.
  unfold double_char. destruct (c =? BACKSLASH)%N; cbn; lia.
Qed.

(** A value comes back as it was exactly when there is no backslash in it. *)
Lemma doubled_same v : doubled v = v <-> BACKSLASH ∉ v.
Proof.
  induction v as [|c v IH]; [by split; [intros _ ?%elem_of_nil|]|].
  change (doubled (c :: v)) with (double_char c ++ doubled v). rewrite elem_of_cons. unfold double_char.
  destruct (N.eqb_spec c BACKSLASH) as [->|Hc]; cbn [app].
  - split; [|naive_solver]. intros E%(f_equal length). pose proof (doubled_length v). cbn in E. lia.
  - split.
    + intros [= E] [Hc'|Hv]; [congruence|]. by apply IH in E.
    + intros Hn. f_equal. apply IH. tauto.
Qed.

Lemma doubled_empty v : doubled v = [] <-> v = [].
Proof. split; [|by intros ->]. pose proof (doubled_length v). intros E. rewrite E in *. by destruct v; [|cbn in *; lia]. Qed.

(** ** Patterns *)

(** What the two named classes of the importer's expression match *)
Definition type_char (c : N) : bool := is_ascii_lower c || is_ascii_digit c || bool_decide (c ∈ lit "_-").
Definition path_char (c : N) : bool :=
  is_ascii_alphabetic c || is_ascii_digit c || bool_decide (c ∈ lit "_.[]'-").

(** The comparison the exporter writes, and that the expression finds in it that
    one comparison and no other: the literal ends at the first quote without a
    backslash, which is the last one. *)
Definition comparison (o path v : str) : str :=
  lit "[" ++ o ++ lit ":" ++ path ++ lit " = '" ++ escape_pattern v ++ lit "']".
Definition reads_comparisons `{PatternRegex} : Prop :=
  forall o path v, o <> [] -> path <> [] -> forallb type_char o = true -> forallb path_char path = true ->
    captures_iter (comparison o path v) = [(o, path, escape_pattern v)].

(** A type the expression can read back: of a file's digest its algorithm *)
Definition proper_type (o : str) : bool :=
  match strip_prefix (lit "file.") o with
  | Some algorithm => forallb path_char algorithm && bool_decide (trim_hash_marks algorithm = algorithm)
  | None => negb (is_empty o) && forallb type_char o
  end.

Lemma drop_while_app f a b : forallb f a = true -> drop_while f (a ++ b) = drop_while f b.
Proof. induction a as [|x a IH]; [done|]. cbn. intros [-> Ha]%andb_true_iff. by apply IH. Qed.

Lemma drop_while_all f a : forallb f a = true -> drop_while f a = [].
Proof. intros Ha. rewrite <- (app_nil_r a), drop_while_app by done. done. Qed.

(** What is trimmed anyway may as well not be there. *)
Lemma trim_by_inside f x a y :
  forallb f x = true -> forallb f y = true -> trim_by f a = a -> trim_by f (x ++ a ++ y) = a.
Proof.
  intros Hx Hy Ha. unfold trim_by in *. rewrite drop_while_app by done.
  assert (Hr : forallb f (reverse y) = true).
  { apply Is_true_true. apply Is_true_true in Hy. rewrite forallb_True in *. by apply Forall_reverse. }
  assert (Hd : drop_while f (a ++ y) = drop_while f a ++ y \/ a = []).
  { destruct a as [|c a]; [by right|left]. destruct (f c) eqn:E; [|cbn; by rewrite E].
    exfalso. apply (f_equal length) in Ha. revert Ha. rewrite length_reverse.
    destruct (drop_while_suffix f (reverse (drop_while f (c :: a)))) as [t Ht]. apply (f_equal length) in Ht.
    rewrite length_reverse, length_app in Ht. destruct (drop_while_suffix f a) as [t' Ht']. apply (f_equal length) in Ht'.
    rewrite length_app in Ht'. cbn in *. rewrite E in *. cbn in *. lia. }
  destruct Hd as [-> | ->].
  - rewrite reverse_app, drop_while_app by done. done.
  - cbn [app]. by rewrite (drop_while_all f y).
Qed.

Lemma property_path o : pattern_property o <> [] /\ forallb path_char (pattern_property o) = true
  /\ starts_with (lit "hashes") (pattern_property o) = false.
Proof. unfold pattern_property. repeat case_bool_decide; by vm_compute. Qed.

(** The literal of a pattern this program writes *)
Lemma from_pattern_for `{PatternRegex} o v pattern :
  reads_comparisons -> proper_type o = true -> v <> [] -> pattern_for o v = Some pattern ->
  from_pattern pattern = [mkObservable o (doubled v)].
Proof.
  intros Hr Ho Hv Hp. unfold proper_type, pattern_for in *.
  assert (Hne : is_empty (doubled v) = false).
  { destruct (doubled v) eqn:E; [|done]. by destruct Hv; apply doubled_empty. }
  destruct (strip_prefix (lit "file.") o) as [a|] eqn:Es.
  - apply strip_prefix_spec in Es as ->. apply (inj Some) in Hp as <-. apply andb_true_iff in Ho as [Hc Ht%bool_decide_eq_true].
    unfold from_pattern. pose proof (Hr (lit "file") (lit "hashes.'" ++ a ++ lit "'") v) as E.
    assert (Hs : lit "[file:hashes.'" ++ a ++ lit "' = '" ++ escape_pattern v ++ lit "']"
                 = comparison (lit "file") (lit "hashes.'" ++ a ++ lit "'") v) by (unfold comparison; by rewrite <- !app_assoc).
    rewrite Hs, E; [|done|done|by vm_compute|by rewrite !forallb_app, Hc].
    cbn [omap list_omap of_comparison]. rewrite unescape_escape, Hne.
    assert (Hst : starts_with (lit "hashes") (lit "hashes.'" ++ a ++ lit "'") = true) by done.
    rewrite Hst. cbn [andb]. rewrite bool_decide_eq_true_2 by done. do 3 f_equal.
    change (trim_start_str _ _) with (lit ".'" ++ a ++ lit "'"). by apply trim_by_inside.
  - apply andb_true_iff in Ho as [Hn Hc]. destruct (is_empty o) eqn:Eo; [done|]. apply (inj Some) in Hp as <-.
    destruct (property_path o) as (P1 & P2 & P3). unfold from_pattern.
    pose proof (Hr o (pattern_property o) v) as E. unfold comparison in E. rewrite E; [|by destruct o|done..].
    cbn [omap list_omap of_comparison]. by rewrite unescape_escape, Hne, P3, andb_false_r.
Qed.

(** ** Objects kept *)

(** An object whose id nobody before it has is kept, among those that satisfy
    some property none of the others' ids are shared with. *)
Lemma filter_retained (P : Json -> Prop) `{!forall o, Decision (P o)} seen l :
  Forall has_id l -> NoDup (omap object_id (filter P l)) ->
  (forall o o', o ∈ l -> o' ∈ l -> P o -> ~ P o' -> object_id o <> object_id o') ->
  (forall o i, o ∈ l -> P o -> object_id o = Some i -> i ∉ seen) ->
  filter P (retain_first seen l) = filter P l.
Proof.
  revert seen. induction l as [|o l IH]; intros seen Hid Hn Hd Hs; [done|]. apply Forall_cons in Hid as [[i Hi] Hid].
  cbn [retain_first]. rewrite Hi.
  assert (Hd' : forall o o', o ∈ l -> o' ∈ l -> P o -> ~ P o' -> object_id o <> object_id o') by (intros; apply Hd; by try right).
  assert (Hs' : forall o i, o ∈ l -> P o -> object_id o = Some i -> i ∉ seen) by (intros; eapply Hs; [by right|done..]).
  destruct (decide (P o)) as [Ho|Ho].
  - rewrite (filter_cons_True P o l) in Hn |- * by done. cbn in Hn. rewrite Hi in Hn. apply NoDup_cons in Hn as [Hni Hn].
    rewrite bool_decide_eq_false_2 by (eapply Hs; [left|done..]). rewrite filter_cons_True by done. f_equal.
    apply IH; [done..|]. intros o' j Ho' HP Hj [Hin| ->%list_elem_of_singleton]%elem_of_app; [by eapply Hs'|].
    apply Hni, list_elem_of_omap. exists o'. split; [|done]. by apply list_elem_of_filter.
  - rewrite (filter_cons_False P o l) in Hn |- * by done. case_bool_decide; [by apply IH|].
    rewrite filter_cons_False by done. apply IH; [done..|].
    intros o' j Ho' HP Hj [Hin| ->%list_elem_of_singleton]%elem_of_app; [by eapply Hs'|].
    apply (Hd o' o); [by right|left|done..|]. congruence.
Qed.

Lemma by_id_retained i l : by_id (retain_first [] l) i = first_with i l.
Proof.
  rewrite <- first_with_retained. unfold by_id, first_with. destruct (retain_first_ids [] l) as [Hn _].
  induction (retain_first [] l) as [|o r IH]; [done|]. cbn in Hn. destruct (decide (object_id o = Some i)) as [E|E].
  - rewrite !filter_cons_True by done. rewrite E in Hn. apply NoDup_cons in Hn as [Hi _]. cbn [head].
    destruct (filter _ r) as [|o' r'] eqn:Ef; [done|]. exfalso.
    assert (Ho : o' ∈ filter (fun o => get_str "id" o = Some i) r) by (rewrite Ef; left).
    apply list_elem_of_filter in Ho as [Ho Hr]. apply Hi, list_elem_of_omap. by exists o'.
  - rewrite !filter_cons_False by done. apply IH. destruct (object_id o); [by apply NoDup_cons in Hn as [_ ?]|done].
Qed.

Lemma mjoin_skips {A B} (P : A -> Prop) `{!forall a, Decision (P a)} (f : A -> list B) l :
  (forall a, a ∈ l -> ~ P a -> f a = []) -> mjoin (f <$> l) = mjoin (f <$> filter P l).
Proof.
  induction l as [|a l IH]; intros Hf; [done|]. rewrite fmap_cons, mjoin_cons, IH by (intros; apply Hf; by try right).
  destruct (decide (P a)); [by rewrite filter_cons_True, fmap_cons, mjoin_cons by done|].
  rewrite filter_cons_False by done. by rewrite Hf by (by try left).
Qed.

Lemma mjoin_omap {A B} (g : A -> option B) (f : A -> list B) l :
  (forall a, a ∈ l -> f a = match g a with Some b => [b] | None => [] end) -> mjoin (f <$> l) = omap g l.
Proof.
  induction l as [|a l IH]; intros Hf; [done|]. rewrite fmap_cons, mjoin_cons, IH by (intros; apply Hf; by right).
  rewrite Hf by left. cbn. by destruct (g a).
Qed.

Lemma omap_same {A B} (f g : A -> option B) (l : list A) : (forall a, a ∈ l -> f a = g a) -> omap f l = omap g l.
Proof.
  induction l as [|a l IH]; intros Hf; [done|]. cbn [omap list_omap]. rewrite (Hf a) by left. rewrite IH; [done|].
  intros b Hb. apply Hf. by right.
Qed.

(** ** The import of an export *)

(** A value that is exported: where it is, what is known of it, its type and the
    pattern written for it *)
Record Exported := mkExported { ex_part : Part; ex_view : AttributeView; ex_type : Typing; ex_pattern : str }.

Section Back.
Context `{StixLibs} `{Chrono} `{PatternRegex} (settings : Publisher) (untyped : Untyped) (mapping : StixMapping).
Abbreviation author := (identity_id (pub_identity settings)).
Abbreviation shares parts := (share author untyped <$> values_of parts).
Abbreviation gathered parts := (gathered_objects settings untyped parts).

Definition exported_value (x : Part * AttributeView) : option Exported :=
  match observable_type x.2 (part_default_type x.1) untyped with
  | Some t => mkExported x.1 x.2 t <$> pattern_for (observable t) (v_value x.2)
  | None => None
  end.
Definition exported_values (parts : list Part) : list Exported := omap exported_value (values_of parts).

Definition ex_name (x : Exported) : str := observable (ex_type x).
Definition ex_indicator (x : Exported) : str := indicator_id (ex_view x) (ex_name x).
Definition ex_sighting (x : Exported) : str := sighting_id (part_namespace (ex_part x)) (ex_name x) (v_value (ex_view x)).
Definition ex_refs (x : Exported) : list str := foldl push_once [] (marking_ids (ex_view x)).
Definition indicator_of (x : Exported) : Json :=
  indicator (ex_indicator x) (ex_view x) (ex_pattern x) author (ex_refs x) (fallback (ex_type x)).
Definition sighting_of (x : Exported) : Json :=
  sighting (part_namespace (ex_part x)) (ex_name x) (ex_view x) (ex_indicator x) author (sighters author (ex_view x)) (ex_refs x).

Lemma share_exported x :
  sh_objects (share author untyped x)
  = match exported_value x with Some e => [indicator_of e; sighting_of e] | None => [] end.
Proof.
  destruct x as [p view]. unfold share, exported_value. cbn [fst snd]. destruct (observable_type _ _ _) as [t|]; [|done].
  cbn [fmap]. unfold option_fmap, option_map. destruct (pattern_for _ _); done.
Qed.

Definition is_sighting (o : Json) : Prop := get_str "type" o = Some (lit "sighting").
#[global] Instance is_sighting_dec o : Decision (is_sighting o).
Proof. unfold is_sighting. apply _. Defined.

Lemma typed_sighting k o : typed k o -> is_sighting o <-> k = lit "sighting".
Proof. intros [Ht _]. unfold is_sighting, get_str. rewrite Ht. cbn. split; [by intros [= ->]|by intros ->]. Qed.

Lemma filter_typed k l : k <> lit "sighting" -> Forall (typed k) l -> filter is_sighting l = [].
Proof.
  intros Hk. induction 1 as [|o l Ho _ IH]; [done|]. rewrite filter_cons_False; [done|].
  intros Hs. by apply (typed_sighting _ _ Ho) in Hs.
Qed.

Lemma shares_exported (f : Share -> list Json) (h : Exported -> list Json) parts :
  (forall x, f (share author untyped x) = match exported_value x with Some e => h e | None => [] end) ->
  mjoin (f <$> shares parts) = mjoin (h <$> exported_values parts).
Proof.
  intros Hf. unfold exported_values. induction (values_of parts) as [|x l IH]; [done|].
  rewrite !fmap_cons, mjoin_cons, IH, Hf. cbn [omap list_omap]. by destruct (exported_value x).
Qed.

Lemma objects_exported parts :
  mjoin (sh_objects <$> shares parts) = mjoin ((fun e => [indicator_of e; sighting_of e]) <$> exported_values parts).
Proof. apply shares_exported, share_exported. Qed.

Lemma sightings_gathered parts : filter is_sighting (gathered parts) = sighting_of <$> exported_values parts.
Proof.
  unfold gathered_objects. rewrite filter_cons_False by (intros Hs; by apply (typed_sighting _ _ (identity_typed _ _)) in Hs).
  rewrite !filter_app, (filter_typed (lit "identity") (_.*2)), (filter_typed (lit "marking-definition") (used_markings _)), app_nil_r;
    [|done|apply used_markings_typed|done|apply push_identities_typed, identities_typed].
  rewrite objects_exported. induction (exported_values parts) as [|e l IH]; [done|].
  rewrite !fmap_cons, mjoin_cons, filter_app, IH. rewrite filter_cons_False, filter_cons_True; [done|done|].
  intros Hs. by apply (typed_sighting _ _ (indicator_typed _ _ _ _ _ _)) in Hs.
Qed.

Lemma sightings_kept parts :
  NoDup (ex_sighting <$> exported_values parts) ->
  filter is_sighting (retain_first [] (gathered parts)) = sighting_of <$> exported_values parts.
Proof.
  intros Hn. rewrite <- sightings_gathered. apply filter_retained.
  - apply gathered_has_id.
  - rewrite sightings_gathered. replace (omap object_id _) with (ex_sighting <$> exported_values parts); [done|].
    clear Hn. induction (exported_values parts) as [|e l IH]; [done|]. rewrite !fmap_cons. cbn [omap list_omap].
    change (object_id (sighting_of e)) with (Some (ex_sighting e)). cbn. by f_equal.
  - pose proof (gathered_typed settings untyped parts) as Ht. rewrite Forall_forall in Ht. intros o o' Ho Ho' Hs Hs'.
    destruct (Ht o Ho) as (k & Hk & Hok), (Ht o' Ho') as (k' & Hk' & Hok').
    rewrite (typed_sighting _ _ Hok) in Hs. rewrite (typed_sighting _ _ Hok') in Hs'.
    destruct Hok as (_ & i & Hi & Hki), Hok' as (_ & i' & Hi' & Hki'). intros E. assert (i' = i) as -> by congruence.
    by apply Hs'; rewrite <- Hs; apply (kind_unique k' k i).
  - intros ? ? _ _ _ ?%elem_of_nil. done.
Qed.

(** The value whose pattern the indicator of another has: the first of those that
    share it *)
Definition representative (xs : list Exported) (x : Exported) : option Exported :=
  head (filter (fun y => ex_indicator y = ex_indicator x) xs).

Lemma first_indicator parts x :
  first_with (ex_indicator x) (gathered parts) = indicator_of <$> representative (exported_values parts) x.
Proof.
  assert (Hk : of_kind (lit "indicator") (ex_indicator x)) by apply indicator_id_kind.
  assert (Hin : lit "indicator" ∈ KINDS) by left. unfold gathered_objects. rewrite first_with_cons, !first_with_app.
  rewrite (other_kind (lit "identity") (lit "indicator") _ [_]); [|apply kind_identity|done|done|done|].
  2:{ apply Forall_singleton, identity_typed. }
  rewrite (other_kind (lit "identity") (lit "indicator") _ (_.*2)); [|apply kind_identity|done|done|done|].
  2:{ apply push_identities_typed, identities_typed. }
  rewrite (other_kind (lit "marking-definition") (lit "indicator") _ (used_markings _)); [|apply kind_marking|done|done|done|].
  2:{ apply used_markings_typed. }
  rewrite objects_exported. unfold representative.
  match goal with |- _ = ?r => cut (first_with (ex_indicator x)
    (mjoin ((fun e => [indicator_of e; sighting_of e]) <$> exported_values parts)) = r); [intros ->; by destruct (_ <$> _)|] end.
  induction (exported_values parts) as [|e l IH]; [done|]. rewrite fmap_cons, mjoin_cons, first_with_app.
  rewrite IH, (first_with_cons _ (indicator_of e)), !first_with_one, filter_cons.
  change (object_id (indicator_of e)) with (Some (ex_indicator e)).
  rewrite (bool_decide_eq_false_2 (object_id (sighting_of e) = _)).
  - destruct (decide (ex_indicator e = ex_indicator x)) as [E|E].
    + by rewrite bool_decide_eq_true_2 by by rewrite E.
    + by rewrite bool_decide_eq_false_2 by congruence.
  - change (object_id (sighting_of e)) with (Some (ex_sighting e)). intros [= E].
    assert (Hs : of_kind (lit "sighting") (ex_indicator x)) by (rewrite <- E; by eexists).
    by assert (lit "indicator" = lit "sighting") by (eapply kind_unique; [..|done|done]; [left|right; left]).
Qed.

(** The times the exporter writes are read back, up to the year 9999. *)
Definition in_years (s : Z) : bool := bool_decide (0 <= s <= 253402300799)%Z.
Definition reads_times : Prop := forall s, in_years s = true -> parse_rfc3339 (rfc3339 s) = Some s.

(** What the import can read back of a value *)
Definition readable (x : Exported) : bool :=
  proper_type (ex_name x) && negb (is_empty (v_value (ex_view x)))
  && in_years (v_first_seen (ex_view x)) && in_years (v_last_seen (ex_view x)).

Definition exported_count (view : AttributeView) : Z := Z.max 1 (Z.min 999999999 (v_count view)).

(** The tags a sighting comes back with *)
Definition tags_back (objects : list Json) (x : Exported) (t : option Json) : list str :=
  let s := sighting_of x in
  dedupe (describe objects s
          ++ mjoin (opt_tag "identity:" <$> ((fun id => option_bind _ _ identity_name (by_id objects id)) <$> refs_in "where_sighted_refs" s))
          ++ match t with Some i => describe_indicator objects i | None => [] end).

Lemma pattern_of_indicator x : get_str "pattern" (indicator_of x) = Some (ex_pattern x).
Proof. unfold get_str, indicator_of, indicator. look. done. Qed.

Lemma no_observed_data x : get_array "observed_data_refs" (sighting_of x) = None.
Proof. unfold get_array, sighting_of, sighting. look. done. Qed.

Lemma exported_pattern parts x : x ∈ exported_values parts -> pattern_for (ex_name x) (v_value (ex_view x)) = Some (ex_pattern x).
Proof.
  intros ([p view] & _ & E)%list_elem_of_omap. unfold exported_value in E. cbn [fst snd] in E.
  destruct (observable_type _ _ _) as [t|]; [|done]. destruct (pattern_for _ _) as [q|] eqn:Eq; [|done].
  cbn in E. injection E as <-. done.
Qed.

Lemma representative_spec xs x y :
  representative xs x = Some y -> y ∈ xs /\ ex_indicator y = ex_indicator x.
Proof. intros Hy%head_Some_elem_of%list_elem_of_filter. naive_solver. Qed.

Lemma representative_there xs x : x ∈ xs -> is_Some (representative xs x).
Proof.
  intros Hx. unfold representative. destruct (filter _ xs) as [|y l] eqn:E; [|by eexists].
  assert (Hin : x ∈ filter (fun y => ex_indicator y = ex_indicator x) xs) by by apply list_elem_of_filter.
  rewrite E in Hin. by apply elem_of_nil in Hin.
Qed.

(** One sighting of the bundle *)
Definition comes_back (parts : list Part) (tgs : Exported -> list str) (x : Exported) : option Sighting :=
  match representative (exported_values parts) x with
  | Some y => emit mapping (Some (v_first_seen (ex_view x))) (Some (v_last_seen (ex_view x))) (exported_count (ex_view x)) (tgs x)
                (mkObservable (ex_name y) (doubled (v_value (ex_view y))))
  | None => None
  end.

Lemma sighting_comes_back parts x :
  reads_comparisons -> reads_times -> Forall (fun x => readable x = true) (exported_values parts) -> x ∈ exported_values parts ->
  let objects := retain_first [] (gathered parts) in
  from_sighting objects mapping (sighting_of x)
  = match comes_back parts (fun x => tags_back objects x (sighted_target objects (sighting_of x))) x with Some s => [s] | None => [] end.
Proof.
  intros Hc Ht Hr Hx objects. rewrite Forall_forall in Hr.
  destruct (representative_there _ _ Hx) as [y Hy]. pose proof (representative_spec _ _ _ Hy) as [Hyin _].
  assert (Htg : sighted_target objects (sighting_of x) = Some (indicator_of y)).
  { unfold sighted_target. change (get_str "sighting_of_ref" (sighting_of x)) with (Some (ex_indicator x)). cbn [option_bind].
    subst objects. by rewrite by_id_retained, first_indicator, Hy. }
  pose proof (Hr y Hyin) as Hry. unfold readable in Hry. rewrite !andb_true_iff in Hry. destruct Hry as [[[Hpt Hv] _] _].
  pose proof (Hr x Hx) as Hrx. unfold readable in Hrx. rewrite !andb_true_iff in Hrx. destruct Hrx as [[_ Hf] Hl].
  unfold from_sighting, comes_back, refs_in. rewrite Htg, Hy, no_observed_data, pattern_of_indicator.
  rewrite bool_decide_eq_true_2 by done.
  rewrite (from_pattern_for (ex_name y) (v_value (ex_view y))); [|done|done|by destruct (v_value (ex_view y))|by eapply exported_pattern].
  change (json_get (lit "first_seen") (sighting_of x)) with (Some (JStr (rfc3339 (v_first_seen (ex_view x))))).
  change (json_get (lit "last_seen") (sighting_of x)) with (Some (JStr (rfc3339 (v_last_seen (ex_view x))))).
  cbn [stix_timestamp option_bind json_str]. unfold stix_timestamp. cbn [option_bind json_str]. rewrite (Ht _ Hf), (Ht _ Hl).
  assert (Hn : get_u64 "count" (sighting_of x) = Some (exported_count (ex_view x))).
  { unfold get_u64. change (json_get (lit "count") (sighting_of x)) with (Some (JInt (exported_count (ex_view x)))).
    cbn [option_bind json_u64]. rewrite bool_decide_eq_true_2; [done|]. unfold exported_count, U64_MODULUS. lia. }
  rewrite Hn. cbn [default from_option id fst snd app mjoin list_join omap list_omap fmap list_fmap].
  replace (Z.max 1 (exported_count (ex_view x))) with (exported_count (ex_view x)) by (unfold exported_count; lia).
  unfold tags_back, refs_in. cbn [fmap list_fmap]. by destruct (emit _ _ _ _ _ _).
Qed.

(** The other objects of a bundle are not counted again. *)
Lemma others_add_nothing parts o :
  NoDup (ex_sighting <$> exported_values parts) ->
  let objects := retain_first [] (gathered parts) in
  o ∈ objects -> ~ is_sighting o -> import_object objects mapping o = [].
Proof.
  intros Hn objects Ho Hs. pose proof (retain_first_elem _ _ _ Ho) as Hin.
  pose proof (gathered_typed settings untyped parts) as Ht. rewrite Forall_forall in Ht.
  destruct (Ht o Hin) as (k & Hk & Hok). pose proof Hok as [Hty _]. rewrite (typed_sighting _ _ Hok) in Hs.
  unfold import_object. unfold get_str at 1. rewrite Hty. cbn [option_bind json_str].
  rewrite bool_decide_eq_false_2 by done. destruct (decide (k = lit "indicator")) as [->|Hi].
  - rewrite bool_decide_eq_false_2, !bool_decide_eq_true_2; [done| |done|done].
    assert (Hk2 : sighted objects = ex_indicator <$> exported_values parts).
    { unfold sighted. change (filter _ objects) with (filter is_sighting objects). subst objects. rewrite sightings_kept by done.
      clear. induction (exported_values parts) as [|e l IH]; [done|]. rewrite !fmap_cons. cbn [omap list_omap].
      change (get_str "sighting_of_ref" (sighting_of e)) with (Some (ex_indicator e)). by rewrite IH. }
    rewrite Hk2. clear Hk2. destruct Hok as (_ & i & Hoi & Hki). change (get_str "id" o) with (object_id o). rewrite Hoi. cbn.
    assert (Hfw : first_with i (gathered parts) <> None).
    { intros E. by apply (proj1 (first_with_None _ _) E o). }
    unfold gathered_objects in Hin. apply elem_of_cons in Hin as [->|[Hin|[Hin|Hin]%elem_of_app]%elem_of_app].
    + done.
    + rewrite objects_exported in Hin. apply list_elem_of_join in Hin as (l & Hl & (e & -> & He)%list_elem_of_fmap).
      apply list_elem_of_fmap. exists e. split; [|done]. rewrite !elem_of_cons, elem_of_nil in Hl.
      destruct Hl as [->|[->|[]]]; [by injection Hoi|by discriminate Hty].
    + assert (Hid : Forall (typed (lit "identity")) (foldl push_identity [] (mjoin (sh_identities <$> shares parts))).*2)
        by apply push_identities_typed, identities_typed.
      rewrite Forall_forall in Hid. destruct (Hid _ Hin) as [E _]. by rewrite Hty in E.
    + pose proof (used_markings_typed (foldl push_once [] (mjoin (sh_markings <$> shares parts)))) as Hm.
      rewrite Forall_forall in Hm. destruct (Hm _ Hin) as [E _]. by rewrite Hty in E.
  - rewrite bool_decide_eq_false_2, bool_decide_eq_false_2; [done|done|].
    unfold KINDS in Hk. rewrite !elem_of_cons, elem_of_nil in Hk. intros ->. naive_solver.
Qed.

Lemma import_of_export parts :
  reads_comparisons -> reads_times -> Forall (fun x => readable x = true) (exported_values parts) ->
  NoDup (ex_sighting <$> exported_values parts) ->
  let objects := retain_first [] (gathered parts) in
  import_objects objects mapping
  = omap (comes_back parts (fun x => tags_back objects x (sighted_target objects (sighting_of x)))) (exported_values parts).
Proof.
  intros Hc Ht Hr Hn objects. unfold import_objects.
  rewrite (mjoin_skips is_sighting) by (intros o Ho Hs; by apply others_add_nothing). unfold objects at 2.
  rewrite sightings_kept, <- list_fmap_compose by done. apply mjoin_omap. intros x Hx. unfold compose.
  rewrite <- sighting_comes_back by done. done.
Qed.

(** A marking of the value is among the tags it comes back with. *)
Lemma marking_back objects x t level id :
  (level, id) ∈ TLP -> id ∈ marking_ids (ex_view x) -> lit "tlp:" ++ level ∈ tags_back objects x t.
Proof.
  intros Hl Hid. unfold tags_back, dedupe. apply elem_of_retained. right. apply elem_of_app. left.
  unfold describe. rewrite !elem_of_app. right. right. apply list_elem_of_fmap. exists level. split; [done|].
  apply list_elem_of_omap. exists id. split.
  - unfold refs_in. assert (E : json_refs "object_marking_refs" (sighting_of x) = ex_refs x).
    { unfold json_refs, sighting_of, sighting. look. rewrite <- (refs_unless_empty "object_marking_refs" (ex_refs x)) at 2. done. }
    unfold json_refs in E. change (option_bind _ _ json_array _) with (get_array "object_marking_refs" (sighting_of x)) in E.
    assert (Hin : id ∈ ex_refs x) by (apply elem_of_push_once; by right). rewrite <- E in Hin.
    by destruct (get_array _ _).
  - unfold tlp_level. replace (tlp_of_id id) with (Some level); [done|].
    unfold TLP in Hl. rewrite !elem_of_cons, elem_of_nil in Hl.
    destruct_or! Hl; try done; injection Hl as -> ->; by vm_compute.
Qed.
End Back.

(** Every value read out of one indicator is marked with its id. *)
Lemma values_share_id `{StixLibs, PatternRegex} objects mapping ind id s :
  get_str "id" ind = Some id -> s ∈ from_indicator objects mapping ind -> lit "stix-id:" ++ id ∈ sg_tags s.
Proof.
  intros Hid. unfold from_indicator. destruct (get_str "pattern" ind) as [p|]; [|by intros ?%elem_of_nil].
  intros (o & _ & Hs)%list_elem_of_omap. unfold emit in Hs. destruct (stix_namespace_for _ _); [|done]. injection Hs as <-.
  cbn [sg_tags]. right. apply elem_of_retained. right. apply elem_of_app. right. unfold describe_indicator.
  rewrite !elem_of_app, Hid. right. left. by apply list_elem_of_singleton.
Qed.

(** ** Properties *)


(** Values that came in with one indicator go out as one.  The importer marks
    every value of an indicator's pattern with the indicator's id and the export
    reuses that id, under which it keeps only the first object: if all the
    values exported carry the same one, whatever the values are, reading the
    bundle back counts the sightings of all of them for the first. *)
Theorem shared_indicator_misattributed `{StixLibs, Chrono, PatternRegex} parts settings untyped mapping given x0 rest :
  let xs := exported_values untyped parts in
  reads_comparisons -> reads_times -> Forall (fun x => readable x = true) xs -> NoDup (ex_sighting <$> xs) ->
  starts_with (lit "indicator--") given = true -> uuid_parses (trim_start_str (lit "indicator--") given) = true ->
  Forall (fun x => tag_value (v_tags (ex_view x)) (lit "stix-id") = Some given) xs -> xs = x0 :: rest ->
  exists tgs,
    import_objects (objects_of (bundle (bundle_of parts settings untyped))) mapping
    = omap (fun x => emit mapping (Some (v_first_seen (ex_view x))) (Some (v_last_seen (ex_view x))) (exported_count (ex_view x)) (tgs x)
                       (mkObservable (ex_name x0) (doubled (v_value (ex_view x0))))) xs.
Proof.
  intros xs Hc Ht Hr Hn Hg Hu Hall Hxs. set (objects := retain_first [] (gathered_objects settings untyped parts)).
  exists (fun x => tags_back settings objects x (sighted_target objects (sighting_of settings x))).
  rewrite bundle_of_gathered. change (objects_of _) with objects. unfold objects at 1. rewrite import_of_export by done.
  assert (Hid : forall x, x ∈ xs -> ex_indicator x = given).
  { intros x Hx. rewrite Forall_forall in Hall. unfold ex_indicator, indicator_id. by rewrite (Hall x Hx), Hg, Hu. }
  apply omap_same. intros x Hx. unfold comes_back. fold xs.
  replace (representative xs x) with (Some x0); [done|]. unfold representative. rewrite Hxs, filter_cons_True; [done|].
  rewrite !Hid; [done|done|]. rewrite Hxs. left.
Qed.

(** ** Some bundles *)

(** A reader of exactly what the exporter writes, and times as single characters *)
Definition one_comparison (s : str) : list (str * str * str) :=
  match strip_prefix (lit "[") s with
  | None => []
  | Some r =>
      match split_once COLON r with
      | None => []
      | Some (o, r) => match split_once SPACE r with
                       | Some (path, r) => match strip_prefix (lit "= '") r with
                                           | Some r => [(o, path, take (length r - 2) r)]
                                           | None => []
                                           end
                       | None => []
                       end
      end
  end.
Definition comparison_reader : PatternRegex := {| captures_iter := one_comparison |}.
Definition stamp_libs : StixLibs :=
  {| uuid_v5 key := key; uuid_parses _ := true; to_rfc3339 t := [Z.to_N (timestamp t)];
     parse_rfc3339 s := match s with [c] => Some (Z.of_N c) | _ => None end |}.

Lemma strip_prefix_app p s : strip_prefix p (p ++ s) = Some s.
Proof. by apply strip_prefix_spec. Qed.

Lemma char_out (f : N -> bool) (c : N) (s : str) : f c = false -> forallb f s = true -> c ∉ s.
Proof.
  intros Hc Hs Hin. apply list_elem_of_In in Hin. rewrite forallb_forall in Hs. apply Hs in Hin. congruence.
Qed.

Lemma comparison_reader_reads : let R := comparison_reader in reads_comparisons.
Proof.
  intros R o path v _ _ Ho Hp. cbn [captures_iter R comparison_reader]. unfold one_comparison, comparison. rewrite strip_prefix_app.
  change (lit ":" ++ ?x) with (COLON :: x). rewrite split_once_app by (by apply (char_out type_char)).
  change (lit " = '" ++ ?x) with (SPACE :: lit "= '" ++ x). rewrite split_once_app by (by apply (char_out path_char)).
  rewrite strip_prefix_app, length_app. change (length (lit "']")) with 2.
  replace (length (escape_pattern v) + 2 - 2)%nat with (length (escape_pattern v)) by lia. by rewrite take_app_length.
Qed.

Lemma stamp_libs_read : let L := stamp_libs in let C := chrono_10000y in reads_times.
Proof.
  intros L C s Hs%bool_decide_eq_true. unfold rfc3339. cbn [from_timestamp C chrono_10000y].
  rewrite bool_decide_eq_true_2 by lia. cbn [default from_option id to_rfc3339 parse_rfc3339 L stamp_libs].
  rewrite timestamp_whole. f_equal. lia.
Qed.

(** Two namespaces with a value in common, one with a quote in it and one with a
    backslash *)
Definition back_parts : list Part :=
  [mkPart (lit "feeds/a") [demo_view (lit "1.2.3.4") (lit "tlp:amber"); demo_view (lit "http://it's.example") []] None;
   mkPart (lit "feeds/b") [demo_view (lit "1.2.3.4") []; demo_view (lit "HKLM\x") (lit "stix-type:windows-registry-key")] None].
Definition back_mapping : StixMapping := mkStixMapping {[lit "ipv4-addr" := lit "ips"]} (Some (lit "others")).


(** Two values of one indicator's pattern: they come in with its id, and the
    bundle made of them has one indicator, of the first. *)
Definition given_id : str := lit "indicator--x".
Definition shared_parts : list Part :=
  [mkPart (lit "feeds/a") [demo_view (lit "1.2.3.4") (lit "stix-id:indicator--x"); demo_view (lit "5.6.7.8") (lit "stix-id:indicator--x")] None].

Lemma shared_indicator_misattributed_witness :
  let L := stamp_libs in let C := chrono_10000y in let R := comparison_reader in
  sg_value <$> import_objects (objects_of (bundle (bundle_of shared_parts default_publisher Skip))) back_mapping
  = [lit "1.2.3.4"; lit "1.2.3.4"].
Proof.
  intros L C R. destruct (exported_values Skip shared_parts) as [|x0 rest] eqn:Ex; [by vm_compute in Ex|].
  destruct (@shared_indicator_misattributed L C R shared_parts default_publisher Skip back_mapping given_id x0 rest
    comparison_reader_reads stamp_libs_read) as (tgs & E).
  - repeat constructor.
  - apply (bool_decide_unpack _). by vm_compute.
  - done.
  - done.
  - repeat constructor.
  - exact Ex.
  - rewrite E. vm_compute in Ex. injection Ex as <- <-. reflexivity.
Defined.
