(* ===== verification/ForwardFacts.v ===== *)
(** * What forwarding sends

    The requests a server sends, on a network that remembers every request and
    answers as it likes from what it has seen: who they go to, what they carry,
    and that a chain of forwards ends however the galaxy is wired. *)

From stdpp Require Import base numbers list strings gmap sorting pretty.
From S2P Require Import Prelude Text Paths Acl Attribute Peers Forward.

(** ** A network that keeps a trace

    The world is the list of requests sent so far, and an answer may depend on
    all of them: every network is one of these for some [answer]. *)
Definition traced (answer : list Request -> Request -> Response + str) (ready : bool)
    (json : Response -> option Json) : Network (list Request) :=
  {| exchange rq w := (w ++ [rq], answer w rq); have_client _ := ready; response_json := json |}.

(** A world that remembers the requests sent in it. *)
Class Tracing (W : Type) `{Network W} := {
  trace : W -> list Request;
  trace_exchange : forall rq w, trace (exchange rq w).1 = trace w ++ [rq];
}.

#[export] Instance tracing_traced answer ready json : @Tracing (list Request) (traced answer ready json).
Proof. by refine (@Build_Tracing _ (traced answer ready json) (fun w => w) _). Defined.

#[export] Instance tracing_with {W S : Type} `{Network W} `{!Tracing W} : Tracing (W * S).
Proof. refine {| trace w := trace w.1 |}. intros rq w. apply trace_exchange. Defined.

(** Everything [m] sends satisfies [P]. *)
Definition sends {W A} `{Tracing W} (m : Net W A) (P : Request -> Prop) : Prop :=
  forall w, exists l, trace (m w).1 = trace w ++ l /\ Forall P l.

Section Sends.
Context {W : Type} `{Network W} `{!Tracing W}.

Lemma sends_ret {A} (x : A) P : sends (W := W) (mret x) P.
Proof. intros w. exists []. by rewrite app_nil_r. Qed.

Lemma sends_bind {A B} (m : Net W A) (k : A -> Net W B) P :
  sends m P -> (forall x, sends (k x) P) -> sends (m ≫= k) P.
Proof.
  intros Hm Hk w. destruct (Hm w) as (l1 & E1 & H1). destruct (Hk (m w).2 (m w).1) as (l2 & E2 & H2).
  exists (l1 ++ l2). unfold mbind, Net_bind. cbv zeta. rewrite E2, E1, app_assoc.
  split; [done|]. by apply Forall_app.
Qed.

Lemma sends_fold {A B} (f : B -> A -> Net W B) b l P :
  (forall b x, x ∈ l -> sends (f b x) P) -> sends (net_fold f b l) P.
Proof.
  revert b. induction l as [|x l IH]; intros b Hf; simpl; [apply sends_ret|].
  apply sends_bind; [apply Hf; left|]. intros b'. apply IH. intros. apply Hf. by right.
Qed.

Lemma sends_weaken {A} (m : Net W A) (P Q : Request -> Prop) :
  sends m P -> (forall rq, P rq -> Q rq) -> sends m Q.
Proof. intros Hm HQ w. destruct (Hm w) as (l & E & Hl). exists l. split; [done|]. by eapply Forall_impl. Qed.

(** A step that leaves the network alone. *)
Lemma sends_quiet {A} (m : Net W A) P : (forall w, trace (m w).1 = trace w) -> sends m P.
Proof. intros Hm w. exists []. by rewrite app_nil_r. Qed.
End Sends.

Create HintDb sending.
#[export] Hint Resolve sends_ret : sending.

Ltac sending :=
  repeat first [ apply sends_ret | apply sends_bind; [|intros ?] | apply sends_fold; intros ? ? ?
               | match goal with |- sends (if ?b then _ else _) _ => destruct b eqn:? end
               | match goal with |- sends (match ?o with Some _ => _ | None => _ end) _ => destruct o eqn:? end ].

(** A request to an enabled peer of the galaxy, under the key held for it, with
    one hop of the budget spent. *)
Definition addressed (g : Galaxy) (hops : Z) (rq : Request) : Prop :=
  exists p method path body origin,
    p ∈ g_peers g /\ p_enabled p = true /\ rq = outgoing p method path body hops origin.

Lemma head_filter_elem {A} (P : A -> Prop) `{!forall x, Decision (P x)} (l : list A) x :
  head (filter P l) = Some x -> P x /\ x ∈ l.
Proof.
  intros E. assert (Hx : x ∈ filter P l) by (destruct (filter P l); [done|]; injection E as ->; left).
  by apply list_elem_of_filter in Hx.
Qed.

Lemma elem_of_peers g p : p ∈ peers g <-> p ∈ g_peers g /\ p_enabled p = true.
Proof. unfold peers. rewrite list_elem_of_filter. tauto. Qed.

Lemma want_peers_elem acc cs q : q ∈ foldl want_peer acc cs -> q ∈ acc \/ q ∈ cs.
Proof.
  revert acc. induction cs as [|c cs IH]; intros acc Hq; [by left|]. simpl in Hq.
  apply IH in Hq as [Hq|Hq]; [|right; by right]. unfold want_peer in Hq.
  destruct (known_url acc (p_url c)); [by left|].
  apply elem_of_app in Hq as [Hq|Hq%list_elem_of_singleton]; [by left|]. subst. right. left.
Qed.

Lemma wanted_peers_live g namespaces p :
  p ∈ wanted_peers g namespaces -> exists ns, ns ∈ namespaces /\ p ∈ live_holders g ns.
Proof.
  unfold wanted_peers. induction namespaces as [|ns l IH] using rev_ind; [by intros Hp%elem_of_nil|].
  rewrite foldl_snoc. intros [Hp|Hp]%want_peers_elem.
  - destruct (IH Hp) as (n & Hn & Hl). exists n. split; [apply elem_of_app; by left|done].
  - exists ns. split; [apply elem_of_app; right; left|done].
Qed.

Section Sent.
Context {W : Type} `{Network W} `{!Tracing W} `{Serde} `{HashOrder} (digest64 : str -> N).

Lemma sends_send g p method path body hops origin :
  p ∈ g_peers g -> p_enabled p = true -> sends (W := W) (send g p method path body hops origin) (addressed g hops).
Proof.
  intros Hp He. unfold send. destruct (negb _); [apply sends_ret|]. apply sends_bind; [|intros; apply sends_ret].
  intros w. exists [outgoing p method path body hops origin]. split; [apply trace_exchange|]. constructor; [|done].
  by exists p, method, path, body, origin.
Qed.

Lemma sends_live g ns p method path body hops origin :
  p ∈ live_holders g ns -> sends (W := W) (send g p method path body hops origin) (addressed g hops).
Proof. intros (Hp & He & _)%elem_of_live. by apply sends_send. Qed.

Lemma sends_peer g p method path body hops origin :
  p ∈ peers g -> sends (W := W) (send g p method path body hops origin) (addressed g hops).
Proof. intros [Hp He]%elem_of_peers. by apply sends_send. Qed.

Lemma sends_forward_read g ns v path hops origin :
  sends (W := W) (forward_read digest64 g ns v path hops origin) (addressed g hops).
Proof.
  unfold forward_read. sending. apply (sends_live g ns).
  rewrite reader_for_candidates in *. by eapply candidates_live, max_by_key_elem.
Qed.

Lemma sends_forward_to g url method path body hops origin :
  sends (W := W) (forward_to g url method path body hops origin) (addressed g hops).
Proof. unfold forward_to. sending. apply sends_peer. by eapply head_filter_elem. Qed.

Lemma sends_forward_write g ns method path body hops origin :
  sends (W := W) (forward_write g ns method path body hops origin) (addressed g hops).
Proof. unfold forward_write. cbv zeta. sending. by apply (sends_live g ns). Qed.

Lemma sends_forward_batch g nss path body hops origin :
  sends (W := W) (forward_batch g nss path body hops origin) (addressed g hops).
Proof.
  unfold forward_batch. cbv zeta. sending.
  match goal with Hx : _ ∈ wanted_peers _ _ |- _ => apply wanted_peers_live in Hx as (ns & _ & Hx) end.
  by apply (sends_live g ns).
Qed.

Lemma sends_push_value g lossy ns v state hops : sends (W := W) (push_value g lossy ns v state hops) (addressed g hops).
Proof. unfold push_value. cbv zeta. sending. by apply (sends_live g ns). Qed.

Lemma sends_walk g hops : sends (W := W) (walk g hops) (addressed g hops).
Proof. unfold walk. sending. by apply sends_peer. Qed.

Lemma sends_spread g method path body hops : sends (W := W) (spread g method path body hops) (addressed g hops).
Proof. unfold spread. sending. by apply sends_peer. Qed.

Lemma sends_peer_keys g : sends (W := W) (peer_keys g) (addressed g 1).
Proof. unfold peer_keys. sending. by apply sends_peer. Qed.
End Sent.

(** ** Hops *)
Lemma outgoing_hops p method path body hops origin :
  header (rq_headers (outgoing p method path body hops origin)) HOPS_HEADER
  = Some (Some (dec (Z.to_N (u8_pred hops)))).
Proof.
  unfold outgoing. cbn [rq_headers]. generalize (dec (Z.to_N (u8_pred hops))). intros text.
  by destruct body; vm_compute.
Qed.

Lemma outgoing_origin p method path body hops origin :
  header (rq_headers (outgoing p method path body hops origin)) ORIGIN_HEADER = Some (Some origin).
Proof.
  unfold outgoing. cbn [rq_headers]. generalize (dec (Z.to_N (u8_pred hops))). intros text.
  by destruct body; vm_compute.
Qed.

Lemma u8_pred_pos h : (0 < h < 256)%Z -> u8_pred h = (h - 1)%Z.
Proof. intros Hh. unfold u8_pred. apply Z.mod_small. lia. Qed.

(** What the receiver of a forwarded request may still spend: one hop less,
    and nothing at all once that is zero. *)
Lemma received_hops p method path body hops origin max :
  (0 < hops < 256)%Z ->
  hops_left (rq_headers (outgoing p method path body hops origin)) max
  = if bool_decide (hops = 1%Z) then None else Some (hops - 1)%Z.
Proof.
  intros Hh. unfold hops_left. rewrite outgoing_hops, u8_pred_pos by done.
  rewrite (proj1 (u8_text (Z.to_N (hops - 1)) ltac:(lia))).
  case_bool_decide as E; [by subst|].
  rewrite (proj2 (N.ltb_lt _ _)) by lia. f_equal. lia.
Qed.

Lemma received_origin p method path body hops origin :
  trim origin <> [] -> origin_of (rq_headers (outgoing p method path body hops origin)) = Some (trim origin).
Proof.
  intros Ho. unfold origin_of. rewrite outgoing_hops, outgoing_origin. by destruct (trim origin).
Qed.

Lemma hops_left_u8 hs max h : (0 <= max < 256)%Z -> hops_left hs max = Some h -> (0 <= h < 256)%Z.
Proof.
  intros Hm. unfold hops_left. destruct (header hs HOPS_HEADER) as [[text|]|]; [|done|by intros [= <-]].
  destruct (u8_from_str (trim text)) as [n|] eqn:E; [|done]. destruct (0 <? n)%N; [|done]. intros [= <-].
  assert (Hb : forall s acc m, (acc <= 255)%N -> parse_digits acc s = Some m -> (m <= 255)%N).
  { clear. induction s as [|c s IH]; intros acc m Ha Hp; simpl in Hp; [by injection Hp as <-|].
    destruct (to_digit 10 c) as [d|]; [|done]. cbv zeta in Hp.
    destruct (acc * 10 + d <=? 255)%N eqn:El; [|done]. apply N.leb_le in El. by eapply IH. }
  assert (Hn : (n <= 255)%N); [|lia].
  unfold u8_from_str in E. repeat case_match; try done; by eapply Hb; [|exact E].
Qed.

(** A server with [max] hops to give, handling a request with headers [hs],
    passes [rq] on: it holds a budget that is not spent, and sends one less. *)
Definition passed_on (max : Z) (hs : Headers) (rq : Request) : Prop :=
  exists h p method path body origin,
    hops_left hs max = Some h /\ h <> 0%Z /\ rq = outgoing p method path body h origin.

(** A chain of such forwards, from server to server, whatever each of them has
    for [max_hops]. *)
Inductive cascade : Headers -> list Request -> Prop :=
  | cascade_end hs : cascade hs []
  | cascade_hop hs max rq rest :
      (0 <= max < 256)%Z -> passed_on max hs rq -> cascade (rq_headers rq) rest -> cascade hs (rq :: rest).

Lemma cascade_from_forwarded p method path body h origin rest :
  (0 < h < 256)%Z -> cascade (rq_headers (outgoing p method path body h origin)) rest ->
  (Z.of_nat (length rest) <= h - 1)%Z.
Proof.
  revert p method path body h origin. induction rest as [|rq rest IH]; intros p method path body h origin Hh Hc;
    [simpl; lia|].
  inversion Hc as [|hs max rq' rest' Hm (h' & p' & m' & pa' & b' & o' & Hl & Hnz & Erq) Hrest]; subst.
  rewrite received_hops in Hl by done. case_bool_decide; [done|]. injection Hl as <-.
  apply IH in Hrest; [|lia]. cbn [length]. lia.
Qed.

(** A request no server has forwarded yet. *)
Definition from_client (hs : Headers) : Prop := header hs HOPS_HEADER = None.

Lemma cascade_bounded max hs rq rest :
  (0 <= max < 256)%Z -> from_client hs -> passed_on max hs rq -> cascade (rq_headers rq) rest ->
  (Z.of_nat (length (rq :: rest)) <= max)%Z.
Proof.
  intros Hm Hc (h & p & m & pa & b & o & Hl & Hnz & ->) Hrest.
  unfold hops_left in Hl. rewrite Hc in Hl. injection Hl as <-.
  apply cascade_from_forwarded in Hrest; [|lia]. cbn [length]. lia.
Qed.

(** ** Percent encoding *)

(** What undoes it: every escape becomes its byte. *)
Definition unhex (c : N) : option N := to_digit 16 c.
Fixpoint percent_decode (s : str) : option bytes :=
  match s with
  | [] => Some []
  | c :: r =>
      if (c =? 37)%N then
        match r with
        | a :: b :: r' =>
            match unhex a, unhex b, percent_decode r' with
            | Some x, Some y, Some rest => Some ((x * 16 + y)%N :: rest)
            | _, _, _ => None
            end
        | _ => None
        end
      else match percent_decode r with Some rest => Some (c :: rest) | None => None end
  end.

Definition byte_check : bool :=
  forallb (fun b => bool_decide (unhex (hex_upper (b / 16)) = Some (b / 16)%N)
                    && bool_decide (unhex (hex_upper (b mod 16)) = Some (b mod 16)%N)
                    && (negb (url_safe b) || negb (b =? 37)%N))
    (N.of_nat <$> seq 0 256).
Lemma byte_checked : byte_check = true.
Proof. by vm_compute. Qed.

Lemma percent_decode_byte b s :
  (b < 256)%N ->
  percent_decode ((if url_safe b then [b] else percent b) ++ s)
  = match percent_decode s with Some rest => Some (b :: rest) | None => None end.
Proof.
  intros Hb. pose proof byte_checked as Hck. unfold byte_check in Hck. rewrite forallb_forall in Hck.
  specialize (Hck b). rewrite !andb_true_iff, !bool_decide_eq_true in Hck.
  destruct Hck as [[H1 H2] H3].
  { apply list_elem_of_In, list_elem_of_fmap. exists (N.to_nat b). rewrite N2Nat.id. split; [done|].
    apply elem_of_seq. lia. }
  destruct (url_safe b).
  - simpl in H3. apply negb_true_iff in H3. cbn [app percent_decode]. by rewrite H3.
  - unfold percent. cbn [app percent_decode]. rewrite H1, H2. change (37 =? 37)%N with true. cbv iota.
    destruct (percent_decode s); [|done]. do 2 f_equal.
    pose proof (N.div_mod b 16 ltac:(done)). lia.
Qed.

Lemma percent_decode_bytes (bs : bytes) :
  Forall (fun b => (b < 256)%N) bs ->
  percent_decode (mjoin ((fun b => if url_safe b then [b] else percent b) <$> bs)) = Some bs.
Proof.
  induction 1 as [|b bs Hb _ IH]; [done|].
  change (percent_decode ((if url_safe b then [b] else percent b)
    ++ mjoin ((fun b => if url_safe b then [b] else percent b) <$> bs)) = Some (b :: bs)).
  by rewrite percent_decode_byte, IH.
Qed.

Lemma utf8_all_bytes s : valid_str s -> Forall (fun b => (b < 256)%N) (mjoin (utf8_bytes <$> s)).
Proof.
  intros Hs. apply Forall_forall. intros b (l & Hb & (c & -> & Hc)%list_elem_of_fmap)%list_elem_of_join.
  eapply utf8_bytes_bound; [|exact Hb]. unfold valid_str in Hs. rewrite Forall_forall in Hs. by apply Hs.
Qed.

(** ** Fanning out *)
Section FanOut.
Context (answer : list Request -> Request -> Response + str) (json : Response -> option Json).
#[local] Instance net_ready : Network (list Request) := traced answer true json.

(** What sending [rq] after [w] comes back with. *)
Definition reply (w : list Request) (rq : Request) : Forwarded + ForwardError :=
  match answer w rq with
  | inr e => inr (Unreachable e)
  | inl response =>
      match rs_body response FORWARD_BODY_LIMIT with
      | inr e => inr (Unreachable e)
      | inl b => inl (mkForwarded (rs_status response) b (relayed_headers (rs_headers response)))
      end
  end.

Lemma send_reply g p method path body hops origin w :
  send g p method path body hops origin w
  = (w ++ [outgoing p method path body hops origin], reply w (outgoing p method path body hops origin)).
Proof. done. Qed.

(** Every peer asked in turn. *)
Fixpoint replies (out : Peer -> Request) (w : list Request) (ps : list Peer) : list (str * (Forwarded + ForwardError)) :=
  match ps with
  | [] => []
  | p :: r => (p_url p, reply w (out p)) :: replies out (w ++ [out p]) r
  end.
Definition answered (rs : list (str * (Forwarded + ForwardError))) : list (str * Forwarded) :=
  omap (fun x => match x.2 with inl f => Some (x.1, f) | inr _ => None end) rs.
Definition errors_of (rs : list (str * (Forwarded + ForwardError))) : list ForwardError :=
  omap (fun x => match x.2 with inl _ => None | inr e => Some e end) rs.

Lemma fan_out g method path body hops origin ps w st :
  let out p := outgoing p method path body hops origin in
  net_fold (send_one g method path body hops origin) st ps w
  = (w ++ (out <$> ps), (st.1 ++ answered (replies out w ps),
      match last (errors_of (replies out w ps)) with Some e => Some e | None => st.2 end)).
Proof.
  intros out. revert w st. induction ps as [|p ps IH]; intros w st.
  - by rewrite app_nil_r; destruct st as [l e]; cbn; rewrite app_nil_r.
  - cbn [net_fold]. unfold mbind, Net_bind. cbv zeta. rewrite IH. clear IH.
    unfold send_one, mbind, Net_bind, mret, Net_ret. cbv zeta. rewrite send_reply. cbn [fst snd].
    change (replies out w (p :: ps)) with ((p_url p, reply w (out p)) :: replies out (w ++ [out p]) ps).
    unfold answered, errors_of. fold (out p). cbn [omap list_omap snd fst].
    destruct (reply w (out p)) as [f|e]; cbn [fst snd]; rewrite fmap_cons, <- app_assoc; cbn [app].
    + f_equal. f_equal. by rewrite <- app_assoc.
    + f_equal. f_equal. rewrite last_cons. by destruct (last _).
Qed.

Lemma replies_answered out w ps url f :
  (url, f) ∈ answered (replies out w ps) ->
  exists p w', p ∈ ps /\ p_url p = url /\ reply w' (out p) = inl f.
Proof.
  revert w. induction ps as [|p ps IH]; intros w Hin; [by apply elem_of_nil in Hin|].
  unfold answered in Hin. cbn [replies omap list_omap snd fst] in Hin.
  destruct (reply w (out p)) as [f'|e] eqn:E.
  - apply elem_of_cons in Hin as [[= -> ->]|Hin].
    + exists p, w. split_and!; [left|done..].
    + destruct (IH _ Hin) as (q & w' & Hq & ? & ?). exists q, w'. split_and!; [by right|done..].
  - destruct (IH _ Hin) as (q & w' & Hq & ? & ?). exists q, w'. split_and!; [by right|done..].
Qed.

Lemma replies_none out w ps :
  ps <> [] -> answered (replies out w ps) = [] -> is_Some (last (errors_of (replies out w ps))).
Proof.
  revert w. induction ps as [|p ps IH]; intros w Hne Ha; [done|].
  unfold answered, errors_of in *. cbn [replies omap list_omap snd fst] in *.
  destruct (reply w (out p)) as [f|e]; [done|]. rewrite last_cons.
  destruct ps as [|q ps]; [by eauto|]. destruct (IH (w ++ [out p])) as [x Hx]; [done|done|].
  rewrite Hx. by eauto.
Qed.
End FanOut.

(** ** Properties *)

(** Percent-encoding a key loses nothing: decoding gives its UTF-8 bytes
    back, and the text in between is only unreserved characters and escapes, so
    it is one path segment whatever the operator typed. *)
Theorem urlencoding_roundtrip s :
  valid_str s ->
  percent_decode (urlencoding_of s) = Some (mjoin (utf8_bytes <$> s))
  /\ Forall (fun c => url_safe c = true \/ c = 37%N) (urlencoding_of s) /\ SLASH ∉ urlencoding_of s.
Proof.
  intros Hs. pose proof (utf8_all_bytes s Hs) as Hb. unfold urlencoding_of.
  assert (Hsafe : Forall (fun c => url_safe c = true \/ c = 37%N)
    (mjoin ((fun b => if url_safe b then [b] else percent b) <$> mjoin (utf8_bytes <$> s)))).
  { apply Forall_forall. intros c (l & Hc & (b & -> & Hin)%list_elem_of_fmap)%list_elem_of_join.
    rewrite Forall_forall in Hb. specialize (Hb b Hin).
    destruct (url_safe b) eqn:E; [apply list_elem_of_singleton in Hc; subst; by left|].
    unfold percent in Hc.
    assert (Hx : forall n, (n < 16)%N -> url_safe (hex_upper n) = true).
    { intros n Hn. assert (Hall : forallb (fun n => url_safe (hex_upper n)) (N.of_nat <$> seq 0 16) = true)
        by by vm_compute. rewrite forallb_forall in Hall. apply Hall, list_elem_of_In, list_elem_of_fmap.
      exists (N.to_nat n). rewrite N2Nat.id. split; [done|]. apply elem_of_seq. lia. }
    rewrite !elem_of_cons in Hc. destruct Hc as [->|[->|[->|Hc%elem_of_nil]]]; [by right|left..|done]; apply Hx.
    - apply N.Div0.div_lt_upper_bound. lia.
    - apply N.mod_lt. done. }
  split_and!; [by apply percent_decode_bytes|done|].
  intros Hin. rewrite Forall_forall in Hsafe. by destruct (Hsafe _ Hin).
Qed.

Lemma urlencoding_roundtrip_witness :
  percent_decode (urlencoding_of (lit "a/b c")) = Some (lit "a/b c")
  /\ urlencoding_of (lit "a/b c") = lit "a%2Fb%20c".
Proof.
  split; [|by vm_compute].
  exact (proj1 (urlencoding_roundtrip (lit "a/b c") ltac:(by apply (bool_decide_unpack _); vm_compute))).
Defined.

(** Passing a write on refuses without sending anything when the budget is
    spent, when no enabled peer declares the namespace, or when none of those
    is answering; otherwise it sends one request to every live mirror, in their
    order, and succeeds exactly when at least one of them answered, with their
    answers.  A success therefore reached a live mirror of the namespace. *)
Theorem forward_write_exact answer json g ns method path body hops origin w :
  let N := traced answer true json in
  let out p := outgoing p method path body hops origin in
  let live := live_holders g ns in
  let r := forward_write g ns method path body hops origin w in
  let oks := answered (replies answer out w live) in
  r = (if bool_decide (hops = 0%Z) then (w, inr TooManyHops)
       else if is_empty (peer_holders g ns) then (w, inr NoHolder)
       else if is_empty live then (w, inr (AllDown ns))
       else (w ++ (out <$> live),
             if is_empty oks then inr (default (AllDown ns) (last (errors_of (replies answer out w live)))) else inl oks))
  /\ (forall answers, r.2 = inl answers ->
       answers <> []
       /\ forall url f, (url, f) ∈ answers ->
            exists p w', p ∈ g_peers g /\ p_enabled p = true /\ holds (p_stores p) ns = true
              /\ p_url p = url /\ reply answer w' (out p) = inl f).
Proof.
  intros N out live r oks.
  assert (Hr : r = (if bool_decide (hops = 0%Z) then (w, inr TooManyHops)
       else if is_empty (peer_holders g ns) then (w, inr NoHolder)
       else if is_empty live then (w, inr (AllDown ns))
       else (w ++ (out <$> live),
             if is_empty oks then inr (default (AllDown ns) (last (errors_of (replies answer out w live)))) else inl oks))).
  { unfold r, forward_write. case_bool_decide; [done|]. destruct (is_empty (peer_holders g ns)); [done|].
    fold live. destruct (is_empty live) eqn:El; [done|]. unfold mbind, Net_bind. cbv zeta.
    rewrite (fan_out answer json). cbn [fst snd app]. fold out. fold oks.
    by destruct (last (errors_of _)). }
  split; [exact Hr|]. rewrite Hr. intros answers.
  case_bool_decide; [done|]. destruct (is_empty (peer_holders g ns)); [done|].
  destruct (is_empty live); [done|]. cbn [snd]. destruct oks as [|x l] eqn:Eo; [done|].
  intros [= <-]. split; [done|]. intros url f Hin.
  assert (Hin' : (url, f) ∈ oks) by by rewrite Eo.
  apply replies_answered in Hin' as (p & w' & Hp & Hu & Hf). apply elem_of_live in Hp as (? & ? & ? & _).
  by exists p, w'.
Qed.

(** Nothing is ever sent to a peer that is out of service: every request of
    every operation that forwards, pushes, walks or gossips goes to an enabled
    peer of the galaxy, under the key held for that peer and no other, carrying
    one hop less than the budget it was given. *)
Theorem only_enabled_contacted {W} `{Network W, !Tracing W, Serde, HashOrder} digest64 g hops :
  (forall ns v path origin, sends (W := W) (forward_read digest64 g ns v path hops origin) (addressed g hops))
  /\ (forall ns method path body origin, sends (W := W) (forward_write g ns method path body hops origin) (addressed g hops))
  /\ (forall nss path body origin, sends (W := W) (forward_batch g nss path body hops origin) (addressed g hops))
  /\ (forall url method path body origin, sends (W := W) (forward_to g url method path body hops origin) (addressed g hops))
  /\ (forall lossy ns v state, sends (W := W) (push_value g lossy ns v state hops) (addressed g hops))
  /\ sends (W := W) (walk g hops) (addressed g hops)
  /\ (forall method path body, sends (W := W) (spread g method path body hops) (addressed g hops))
  /\ sends (W := W) (peer_keys g) (addressed g 1).
Proof.
  split_and!; intros; [apply sends_forward_read|apply sends_forward_write|apply sends_forward_batch
    |apply sends_forward_to|apply sends_push_value|apply sends_walk|apply sends_spread|apply sends_peer_keys].
Qed.

(** When every mirror is down, a batch is answered as if nobody stored the
    namespace, where a single write says they are unreachable. *)
Lemma batch_all_down :
  let N := traced (fun _ _ => inr []) true (fun _ => None) in
  (forward_batch demo_down [lit "news"] (lit "/wb") [] 4 [] []).2 = inr NoHolder
  /\ (forward_write demo_down (lit "news") GET (lit "/w/news") None 4 [] []).2 = inr (AllDown (lit "news")).
Proof. by vm_compute. Qed.
