(* ===== verification/CatchUp.v ===== *)
(** * Catching up and reconciling

    Models the two passes of [src/src/galaxy.rs] that read a peer's namespaces
    and change this server's database: the catch-up, which merges what a peer
    holds, and the rebuilding of the consensus tally from the whole galaxy.

    The world these run in is the network with this server's database beside
    it.  A page is read by [serde_json] into [MergeOfferPage]: [parse_page]
    stands for that.  The paging loops run until the peer has nothing more to
    offer, which is the peer's to say, so they take fuel and answer [None] when
    it runs out; how much is enough is a theorem. *)

From stdpp Require Import base numbers list strings gmap sorting pretty.
From S2P Require Import Prelude Text Activity Latest Attribute AttributeFacts Convergence Paths Acl Tier Namespace Disk Database Contents Refine Consensus Eviction Service Accounted System Listing Peers Forward.

(** One value of a page, and the page. *)
Record MergeOfferItem := mkOffer {
  of_value : str;
  of_counts : gmap str Z;
  of_stats : gmap str (gmap Z Z);
  of_first_seen : Z;
  of_last_seen : Z;
  of_tags : str;
  of_tags_at : Z;
  of_ttl : Z;
}.
Record MergeOfferPage := mkOfferPage { op_items : list MergeOfferItem; op_total : nat }.

(** [MergeOfferItem::state] *)
Definition offer_state (o : MergeOfferItem) : Merge :=
  mkMerge (of_counts o) (of_stats o) (of_first_seen o) (of_last_seen o) (of_tags o) (of_tags_at o) (of_ttl o).

Class PageFormat := { parse_page : bytes -> MergeOfferPage + str }.

Record CaughtUp := mkCaughtUp { cu_namespaces : nat; cu_merged : nat }.
Record Reconciled := mkReconciled { rc_namespaces : nat; rc_values : nat; rc_corrected : nat }.

(** The namespaces found to hold each value, and the namespaces walked. *)
Abbreviation Survey := (gmap str (gset str) * gset str)%type.

Definition PAGE : nat := 500.
Definition usize_text (n : nat) : str := dec (N.of_nat n).
Definition page_path (ns : str) (off : nat) : str :=
  lit "/r/" ++ ns ++ lit "?for_merge&offset=" ++ usize_text off ++ lit "&limit=500".

Section CatchUp.
Context {W : Type} `{Network W} `{Serde} `{PageFormat} `{Chrono} `{HashOrder}.
Context (digest32 : str -> N) (disk : Disk) (clock : W -> Z).

(** The request a peer is asked with: a hop of its own, and no origin. *)
Definition ask (g : Galaxy) (peer : Peer) (path : str) : Net (W * Database) (Forwarded + ForwardError) :=
  send g peer GET path None 1 [].

(** [parsed.get("namespaces").and_then(as_array)] and the names in it *)
Definition names_in (parsed : Json) : list str :=
  match option_bind _ _ json_array (json_get (lit "namespaces") parsed) with
  | Some l => omap json_str l
  | None => []
  end.

Definition namespaces_of (g : Galaxy) (peer : Peer) : Net (W * Database) (list str + ForwardError) :=
  r ← ask g peer (lit "/_api/namespaces");
  mret match r with
       | inr e => inr e
       | inl answer =>
           if negb (is_success (fw_status answer))
           then inr (Unreachable (lit "listing namespaces answered " ++ lit (pretty (fw_status answer))))
           else
             match from_slice (fw_body answer) with
             | None => inr (Unreachable (parse_error (fw_body answer)))
             | Some parsed =>
                 inl (names_in parsed)
             end
       end.

(** [Galaxy::namespaces_under], for a request about a subtree. *)
Definition under_prefix (prefix name : str) : bool :=
  let prefix := trim_slashes prefix in
  is_empty prefix || bool_decide (name = prefix)
  || match strip_prefix prefix name with Some rest => starts_with [SLASH] rest | None => false end.
Definition found_name (prefixes : list str) (found : list str) (name : str) : list str :=
  if existsb (fun p => under_prefix p name) prefixes && negb (bool_decide (name ∈ found))
  then found ++ [name] else found.
Definition galaxy_namespaces_under (g : Galaxy) (prefixes : list str) : Net (W * Database) (list str) :=
  net_fold (fun found peer =>
              r ← namespaces_of g peer;
              mret match r with inl names => foldl (found_name prefixes) found names | inr _ => found end)
    [] (peers g).

Definition behind_on (g : Galaxy) (peer : Peer) (ns : str) : Net (W * Database) bool :=
  r ← ask g peer (lit "/r/" ++ ns ++ lit "?count");
  match r with
  | inr _ => mret false
  | inl answer =>
      match from_slice (fw_body answer) with
      | None => mret false
      | Some parsed =>
          let theirs := default 0%Z (option_bind _ _ json_u64 (json_get (lit "values") parsed)) in
          act (fun s =>
            let c := value_count digest32 disk (clock s.1) s.2 ns in
            let mine := match c.2 with Some k => Z.of_nat (vc_values k) | None => 0%Z end in
            ((s.1, c.1), bool_decide (mine < theirs)%Z))
      end
  end.

(** One item of a page merged; the number counts the values it changed. *)
Definition merge_offer (ns : str) (w : W) (st : Database * nat) (o : MergeOfferItem) : Database * nat :=
  let r := merge_in digest32 disk (clock w) st.1 ns (of_value o) (offer_state o) in
  (r.1, if changed r.2 then S st.2 else st.2).

Fixpoint pull_loop (fuel : nat) (g : Galaxy) (peer : Peer) (ns : str) (off merged : nat) :
    Net (W * Database) (option nat) :=
  match fuel with
  | O => mret None
  | S f =>
      r ← ask g peer (page_path ns off);
      match r with
      | inr _ => mret (Some merged)
      | inl answer =>
          if negb (is_success (fw_status answer)) then mret (Some merged)
          else
            match parse_page (fw_body answer) with
            | inr _ => mret (Some merged)
            | inl page =>
                act (fun s =>
                  let st := foldl (merge_offer ns s.1) (s.2, merged) (op_items page) in
                  let off' := off + length (op_items page) in
                  if bool_decide (length (op_items page) = 0) || bool_decide (op_total page <= off')
                  then ((s.1, st.1), Some st.2)
                  else pull_loop f g peer ns off' st.2 (s.1, st.1))
            end
      end
  end.

Definition pull_namespace (fuel : nat) (g : Galaxy) (peer : Peer) (ns : str) : Net (W * Database) (option nat) :=
  pull_loop fuel g peer ns 0 0.

(** One namespace a peer listed. *)
Definition catch_up_namespace (fuel : nat) (g : Galaxy) (full : bool) (peer : Peer) (report : option CaughtUp)
    (ns : str) : Net (W * Database) (option CaughtUp) :=
  match report with
  | None => mret None
  | Some rep => act (fun s =>
      if negb (holds (stores s.2) ns) || is_internal ns then (s, Some rep)
      else
        let rep := mkCaughtUp (S (cu_namespaces rep)) (cu_merged rep) in
        let b := if full then (s, true) else behind_on g peer ns s in
        if negb b.2 then (b.1, Some rep)
        else let r := pull_namespace fuel g peer ns b.1 in
             (r.1, (fun m => mkCaughtUp (cu_namespaces rep) (cu_merged rep + m)) <$> r.2))
  end.

Definition catch_up (fuel : nat) (g : Galaxy) (full : bool) : Net (W * Database) (option CaughtUp) :=
  net_fold (fun report peer =>
              names ← namespaces_of g peer;
              match names with
              | inr _ => mret report
              | inl names => net_fold (catch_up_namespace fuel g full peer) report names
              end) (Some (mkCaughtUp 0 0)) (peers g).

(** ** Rebuilding the consensus tally *)
Definition note_holder (ns : str) (holders : gmap str (gset str)) (o : MergeOfferItem) : gmap str (gset str) :=
  <[of_value o := default ∅ (holders !! of_value o) ∪ {[ns]}]> holders.

(** The walk of one namespace on one peer: [inr] is the early return. *)
Fixpoint survey_loop (fuel : nat) (g : Galaxy) (peer : Peer) (ns : str) (off : nat) (holders : gmap str (gset str)) :
    Net (W * Database) (option (gmap str (gset str) + ForwardError)) :=
  match fuel with
  | O => mret None
  | S f =>
      r ← ask g peer (page_path ns off);
      match r with
      | inr e => mret (Some (inr e))
      | inl answer =>
          if negb (is_success (fw_status answer)) then mret (Some (inl holders))
          else
            match parse_page (fw_body answer) with
            | inr e => mret (Some (inr (Unreachable e)))
            | inl page =>
                let holders := foldl (note_holder ns) holders (op_items page) in
                let off' := off + length (op_items page) in
                if bool_decide (length (op_items page) = 0) || bool_decide (op_total page <= off')
                then mret (Some (inl holders))
                else survey_loop f g peer ns off' holders
            end
      end
  end.

Definition survey_namespace (fuel : nat) (g : Galaxy) (peer : Peer) (st : option (Survey + ForwardError)) (ns : str) :
    Net (W * Database) (option (Survey + ForwardError)) :=
  match st with
  | Some (inl (holders, seen)) =>
      if negb (counts_towards_consensus ns) || bool_decide (ns ∈ seen) then mret st
      else
        r ← survey_loop fuel g peer ns 0 holders;
        mret match r with
             | Some (inl holders') => Some (inl (holders', seen ∪ {[ns]}))
             | Some (inr e) => Some (inr e)
             | None => None
             end
  | _ => mret st
  end.

Definition survey_peer (fuel : nat) (g : Galaxy) (st : option (Survey + ForwardError)) (peer : Peer) :
    Net (W * Database) (option (Survey + ForwardError)) :=
  match st with
  | Some (inl _) =>
      names ← namespaces_of g peer;
      match names with
      | inr e => mret (Some (inr e))
      | inl names => net_fold (survey_namespace fuel g peer) st names
      end
  | _ => mret st
  end.

Definition rebuild_consensus (fuel : nat) (g : Galaxy) : Net (W * Database) (option (Reconciled + ForwardError)) :=
  st ← net_fold (survey_peer fuel g) (Some (inl (∅, ∅))) (peers g);
  match st with
  | None => mret None
  | Some (inr e) => mret (Some (inr e))
  | Some (inl (holders, seen)) => act (fun s =>
      let r := set_consensus digest32 disk (clock s.1) s.2 holders in
      ((s.1, r.1), Some (inl (mkReconciled (size seen) (size holders) r.2))))
  end.
End CatchUp.
