(* ===== verification/CatchUpFacts.v ===== *)
(** * Catching up

    A pull of one namespace, whatever the peer answers: it takes the pages it
    receives up to the first request that fails, is refused or cannot be read, and
    the local copy afterwards is what it was with every item received merged in,
    one after the other.  From a peer that serves the pages of one copy
    ([serves]) that is the merge of the two, value by value; that the handler of
    [/r/<namespace>?for_merge] answers so is proved where it is modelled. *)

From stdpp Require Import base numbers list strings gmap sorting pretty.
From S2P Require Import Prelude Text Activity Latest Attribute AttributeFacts Convergence Paths Acl Tier Namespace Disk Database Contents Refine Consensus Eviction Service Accounted System Listing Peers Forward CatchUp.

(** ** Merging one value after another *)
Section Steps.
Context `{Chrono} `{HashOrder} (digest32 : str -> N) (disk : Disk) (ns : str).

(** A value, its payload, and the clock when it is merged. *)
Definition Step : Type := (str * Merge) * Z.
Definition merge_step (st : Database * nat) (s : Step) : Database * nat :=
  let r := merge_in digest32 disk s.2 st.1 ns s.1.1 s.1.2 in (r.1, if changed r.2 then S st.2 else st.2).

(** The value [v] of [abs] once [o] has been merged into it. *)
Definition value_after (self : str) (abs : Abs) (v : str) (o : option Merge) : option Attribute :=
  match o with
  | Some i => Some (stored_attr (merged (default (new v) (a_values abs ns !! v)) i self))
  | None => a_values abs ns !! v
  end.

Lemma a_values_record abs self v w keep :
  ns <> ALL_NAMESPACE -> a_values (a_record abs self ALL_NAMESPACE v w None keep []) ns = a_values abs ns.
Proof. intros Hns. unfold a_values, a_record, a_update. by rewrite lookup_insert_ne. Qed.

Lemma a_merge_values abs self v i now keep u :
  ns <> ALL_NAMESPACE ->
  a_values (a_merge abs self ns v i now keep) ns !! u
  = if bool_decide (u = v) then value_after self abs v (Some i) else a_values abs ns !! u.
Proof.
  intros Hns. assert (E : a_values (a_merge abs self ns v i now keep) ns
    = a_values (a_update abs ns v (fun a => merged a i self)) ns).
  { unfold a_merge. destruct (_ && _); [by apply a_values_record|done]. }
  rewrite E. unfold a_values at 1, a_update. rewrite lookup_insert_eq. cbn [default from_option id].
  case_bool_decide as Hu; [subst; by rewrite lookup_insert_eq|by rewrite lookup_insert_ne].
Qed.

Lemma a_merge_frame abs self v i now keep path :
  path <> ns -> path <> ALL_NAMESPACE -> a_merge abs self ns v i now keep !! path = abs !! path.
Proof.
  intros Hp Ha. unfold a_merge. destruct (_ && _); unfold a_record, a_update; by rewrite !lookup_insert_ne.
Qed.

Lemma merge_steps_spec steps db abs n :
  implements digest32 disk db abs -> is_u64 (shadow_ttl (policy db)) -> ns <> ALL_NAMESPACE ->
  Forall (fun s => payload_ok s.1.2 /\ plausible s.2) steps -> NoDup steps.*1.*1 ->
  let r := foldl merge_step (db, n) steps in
  exists abs', implements digest32 disk r.1 abs' /\ same_config db r.1
    /\ (forall v, a_values abs' ns !! v
          = value_after (node db) abs v ((list_to_map steps.*1 : gmap str Merge) !! v))
    /\ (forall path, path <> ns -> path <> ALL_NAMESPACE -> abs' !! path = abs !! path)
    /\ (counts_towards_consensus ns = true -> consensus_ok (node db) abs ->
        (Z.of_nat (size abs + 2 * length steps) + 1 < U64_MODULUS)%Z -> consensus_ok (node db) abs').
Proof.
  revert db abs n. induction steps as [|[[v i] t] steps IH]; intros db abs n Himp Hsh Hns Hok Hnd r.
  { exists abs. split_and!; try done. }
  apply Forall_cons in Hok as [[Hi Ht] Hok]. rewrite !fmap_cons in Hnd. apply NoDup_cons in Hnd as [Hv Hnd].
  cbn [fst snd] in *.
  destruct (merge_in_spec digest32 disk t db abs ns v i Himp Hi Ht Hsh) as (H1 & Hc & _).
  set (db1 := (merge_in digest32 disk t db ns v i).1) in *.
  set (abs1 := a_merge abs (node db) ns v i t (stats_retention (policy db))) in *.
  destruct Hc as (Hpol & Hst & Hnode & Hrest).
  destruct (IH db1 abs1 (if changed (merge_in digest32 disk t db ns v i).2 then S n else n) H1) as
    (abs' & H2 & Hc2 & Hvals & Hframe & Hcons); [by rewrite Hpol|done|done|done|].
  exists abs'. split; [exact H2|]. split; [etransitivity; [|exact Hc2]; by split|]. rewrite Hnode in *. split_and!.
  - intros u. rewrite Hvals. cbn [fmap list_fmap list_to_map foldr fst snd].
    destruct (decide (u = v)) as [->|Hu].
    + rewrite lookup_insert_eq. rewrite (proj1 (not_elem_of_list_to_map _ _) Hv). cbn [value_after].
      unfold abs1. by rewrite a_merge_values, bool_decide_eq_true_2.
    + rewrite lookup_insert_ne by done.
      assert (E : a_values abs1 ns !! u = a_values abs ns !! u)
        by (unfold abs1; by rewrite a_merge_values, bool_decide_eq_false_2).
      unfold value_after. by rewrite E.
  - intros path Hp Ha. rewrite Hframe by done. by apply a_merge_frame.
  - intros Hct Hco Hb. cbn [length] in Hb. apply Hcons; [done|apply merge_consensus; [done|lia|done]|].
    pose proof (size_a_merge abs (node db) ns v i t (stats_retention (policy db))). unfold abs1. lia.
Qed.
(** One more copy of [v] merged in, and the copies of [v] among steps. *)
Definition take_in (self v : str) (o : option Attribute) (i : Merge) : option Attribute :=
  Some (stored_attr (merged (default (new v) o) i self)).
Definition copies_of (v : str) (l : list (str * Merge)) : list Merge :=
  omap (fun p => if bool_decide (p.1 = v) then Some p.2 else None) l.

(** Merging any steps, a value more than once perhaps. *)
Lemma merge_steps_any steps db abs n :
  implements digest32 disk db abs -> is_u64 (shadow_ttl (policy db)) -> ns <> ALL_NAMESPACE ->
  Forall (fun s => payload_ok s.1.2 /\ plausible s.2) steps ->
  let r := foldl merge_step (db, n) steps in
  exists abs', implements digest32 disk r.1 abs' /\ same_config db r.1
    /\ (forall v, a_values abs' ns !! v = foldl (take_in (node db) v) (a_values abs ns !! v) (copies_of v steps.*1))
    /\ (forall path, path <> ns -> path <> ALL_NAMESPACE -> abs' !! path = abs !! path)
    /\ (counts_towards_consensus ns = true -> consensus_ok (node db) abs ->
        (Z.of_nat (size abs + 2 * length steps) + 1 < U64_MODULUS)%Z -> consensus_ok (node db) abs').
Proof.
  revert db abs n. induction steps as [|[[v i] t] steps IH]; intros db abs n Himp Hsh Hns Hok r.
  { exists abs. split_and!; done. }
  apply Forall_cons in Hok as [[Hi Ht] Hok]. cbn [fst snd] in *.
  destruct (merge_in_spec digest32 disk t db abs ns v i Himp Hi Ht Hsh) as (H1 & Hc & _).
  set (db1 := (merge_in digest32 disk t db ns v i).1) in *.
  set (abs1 := a_merge abs (node db) ns v i t (stats_retention (policy db))) in *.
  pose proof Hc as (Hpol & _ & Hnode & _).
  destruct (IH db1 abs1 (if changed (merge_in digest32 disk t db ns v i).2 then S n else n) H1) as
    (abs' & H2 & Hc2 & Hvals & Hframe & Hcons); [by rewrite Hpol|done|done|].
  exists abs'. split; [exact H2|]. split; [by etransitivity|]. rewrite Hnode in *. split_and!.
  - intros u. rewrite Hvals, fmap_cons. unfold copies_of. cbn [omap list_omap fst snd].
    assert (E : a_values abs1 ns !! u = if bool_decide (u = v) then value_after (node db) abs v (Some i) else a_values abs ns !! u)
      by (unfold abs1; by rewrite a_merge_values).
    rewrite E. destruct (decide (v = u)) as [->|Hu].
    + rewrite !bool_decide_eq_true_2 by done. done.
    + rewrite !bool_decide_eq_false_2 by done. done.
  - intros path Hp Ha. rewrite Hframe by done. by apply a_merge_frame.
  - intros Hct Hco Hb. cbn [length] in Hb. apply Hcons; [done|apply merge_consensus; [done|lia|done]|].
    pose proof (size_a_merge abs (node db) ns v i t (stats_retention (policy db))). unfold abs1. lia.
Qed.
End Steps.

(** ** Pulling a namespace *)
Definition offer_of (p : str * Merge) : MergeOfferItem :=
  mkOffer p.1 (m_counts p.2) (m_stats p.2) (m_first_seen p.2) (m_last_seen p.2) (m_tags p.2) (m_tags_at p.2)
    (m_ttl p.2).

Lemma offer_of_state p : offer_state (offer_of p) = p.2.
Proof. by destruct p as [v []]. Qed.

Section Pull.
Context {W : Type} `{Network W} `{Serde} `{PageFormat} `{Chrono} `{HashOrder}.
Context (digest32 : str -> N) (disk : Disk) (clock : W -> Z).
Context (g : Galaxy) (peer : Peer) (ns : str).

(** The next page, if the request is answered, with a success, by a page that can
    be read. *)
Definition next_page (off : nat) (w : W) : W * option MergeOfferPage :=
  let r := send g peer GET (page_path ns off) None 1 [] w in
  (r.1, match r.2 with
        | inl answer =>
            if is_success (fw_status answer) then
              match parse_page (fw_body answer) with inl page => Some page | inr _ => None end
            else None
        | inr _ => None
        end).

(** Whether a page is the last one asked for. *)
Definition last_page (off : nat) (page : MergeOfferPage) : bool :=
  bool_decide (length (op_items page) = 0) || bool_decide (op_total page <= off + length (op_items page)).

(** The pages received from an offset on, with the world after each, up to the
    last one or the first that did not come. *)
Inductive received : nat -> W -> list (W * MergeOfferPage) -> W -> Prop :=
  | rc_none off w w' : next_page off w = (w', None) -> received off w [] w'
  | rc_last off w w' page :
      next_page off w = (w', Some page) -> last_page off page = true -> received off w [(w', page)] w'
  | rc_more off w w1 page pages w' :
      next_page off w = (w1, Some page) -> last_page off page = false ->
      received (off + length (op_items page)) w1 pages w' -> received off w ((w1, page) :: pages) w'.

Definition page_steps (p : W * MergeOfferPage) : list Step :=
  (fun o => ((of_value o, offer_state o), clock p.1)) <$> op_items p.2.

Lemma merge_items_steps w st l :
  foldl (merge_offer digest32 disk clock ns w) st l
  = foldl (merge_step digest32 disk ns) st ((fun o => ((of_value o, offer_state o), clock w)) <$> l).
Proof. revert st. induction l as [|o l IH]; intros st; [reflexivity|]. rewrite fmap_cons. cbn [foldl]. apply IH. Qed.

(** A round of the loop, by the page it gets. *)
Lemma pull_round fuel off n w db :
  pull_loop digest32 disk clock (S fuel) g peer ns off n (w, db)
  = let r := next_page off w in
    match r.2 with
    | None => ((r.1, db), Some n)
    | Some page =>
        let st := foldl (merge_step digest32 disk ns) (db, n) (page_steps (r.1, page)) in
        if last_page off page then ((r.1, st.1), Some st.2)
        else pull_loop digest32 disk clock fuel g peer ns (off + length (op_items page)) st.2 (r.1, st.1)
    end.
Proof.
  cbn [pull_loop]. unfold next_page, ask, send, mbind, Net_bind. cbn [have_client net_with].
  destruct (negb (have_client (verify_tls g))); [reflexivity|]. cbn [exchange net_with fst snd].
  destruct (exchange _ w) as [w1 [resp|e]]; unfold mret, Net_ret; cbn [fst snd]; [|reflexivity].
  destruct (rs_body resp FORWARD_BODY_LIMIT) as [body|e]; cbn [fst snd]; [|reflexivity]. cbn [fw_status fw_body].
  destruct (is_success (rs_status resp)); cbn [negb]; [|reflexivity].
  destruct (parse_page body) as [page|e]; [|reflexivity]. unfold act, last_page, page_steps. cbn [fst snd].
  by rewrite merge_items_steps.
Qed.

(** The loop takes exactly the pages received; it ends if the totals claimed are
    bounded. *)
Lemma pull_loop_received bound fuel off n w db :
  (forall b page, parse_page b = inl page -> op_total page <= bound) -> bound < off + fuel -> 0 < fuel ->
  exists pages w', received off w pages w'
    /\ let r := foldl (merge_step digest32 disk ns) (db, n) (pages ≫= page_steps) in
       pull_loop digest32 disk clock fuel g peer ns off n (w, db) = ((w', r.1), Some r.2).
Proof.
  intros Hb. revert off n w db. induction fuel as [|fuel IH]; intros off n w db Hf Hp; [lia|]. rewrite pull_round. cbv zeta.
  destruct (next_page off w) as [w1 [page|]] eqn:En; cbn [fst snd].
  2: { exists [], w1. split; [by apply rc_none|reflexivity]. }
  destruct (last_page off page) eqn:El.
  { exists [(w1, page)], w1. split; [by apply rc_last|]. cbn [mbind list_bind]. by rewrite app_nil_r. }
  assert (Htot : op_total page <= bound).
  { unfold next_page in En. injection En as _ En. destruct (send _ _ _ _ _ _ _ w).2 as [answer|]; [|done].
    destruct (is_success _); [|done]. destruct (parse_page (fw_body answer)) eqn:Ep; [|done]. injection En as <-. by eapply Hb. }
  pose proof El as El'. unfold last_page in El'. apply orb_false_iff in El' as [L1%bool_decide_eq_false L2%bool_decide_eq_false].
  destruct (IH (off + length (op_items page)) (foldl (merge_step digest32 disk ns) (db, n) (page_steps (w1, page))).2 w1
    (foldl (merge_step digest32 disk ns) (db, n) (page_steps (w1, page))).1) as (pages & w' & Hr & Hrun); [lia|lia|].
  exists ((w1, page) :: pages), w'. split; [by eapply rc_more|]. cbn [mbind list_bind]. cbv zeta.
  rewrite foldl_app. rewrite <- surjective_pairing in Hrun. exact Hrun.
Qed.

(** The page the peer's own copy gives from an offset. *)
Definition served_page (their : Namespace) (t : Z) (off : nat) : MergeOfferPage :=
  let p := merge_page their off PAGE t in mkOfferPage (offer_of <$> items p) (total p).

(** The peer answers each page of its copy [their], as it stands at [t]. *)
Definition serves (their : Namespace) (t : Z) : Prop :=
  have_client (verify_tls g) = true /\
  forall off w, exists w' resp body,
    exchange (outgoing peer GET (page_path ns off) None 1 []) w = (w', inl resp)
    /\ is_success (rs_status resp) = true /\ rs_body resp FORWARD_BODY_LIMIT = inl body
    /\ parse_page body = inl (served_page their t off).

(** The same while the world satisfies [I], which answering keeps. *)
Definition serves_while (I : W -> Prop) (their : Namespace) (t : Z) : Prop :=
  have_client (verify_tls g) = true /\
  forall off w, I w -> exists w' resp body,
    exchange (outgoing peer GET (page_path ns off) None 1 []) w = (w', inl resp) /\ I w'
    /\ is_success (rs_status resp) = true /\ rs_body resp FORWARD_BODY_LIMIT = inl body
    /\ parse_page body = inl (served_page their t off).

Lemma serves_always their t : serves their t -> serves_while (fun _ => True) their t.
Proof.
  intros [Hc Hs]. split; [done|]. intros off w _. destruct (Hs off w) as (w' & resp & body & Hx & Hr).
  by exists w', resp, body.
Qed.

(** Everything the copy offers, in the order of the pages. *)
Definition all_offers (their : Namespace) (t : Z) : list (str * Merge) := offers their (alive_names their t).

Lemma served_items their t off :
  op_items (served_page their t off) = offer_of <$> take PAGE (drop off (all_offers their t)).
Proof.
  unfold served_page, all_offers. cbn [op_items]. f_equal. unfold merge_page. cbn [items].
  change (offers their (page_of off PAGE (alive_names their t)) = take PAGE (drop off (offers their (alive_names their t)))).
  assert (Hall : forall l, (forall v, v ∈ l -> is_Some (values their !! v)) ->
    forall off k, offers their (take k (drop off l)) = take k (drop off (offers their l))).
  { clear. induction l as [|v l IH]; intros Hl off k; [by destruct off, k|].
    destruct (Hl v ltac:(left)) as [a Ha]. unfold offers in *. cbn [omap list_omap]. rewrite Ha. cbn [fmap option_fmap option_map].
    assert (Hl' : forall u, u ∈ l -> is_Some (values their !! u)) by (intros; apply Hl; by right).
    destruct off as [|off]; cbn [drop]; [|by apply IH].
    destruct k as [|k]; cbn [take omap list_omap]; [done|]. rewrite Ha. cbn [fmap option_fmap option_map].
    f_equal. specialize (IH Hl' 0 k). by rewrite !drop_0 in IH. }
  apply Hall. intros v (a & Ha & _)%elem_of_alive. by rewrite Ha.
Qed.

Lemma all_offers_names their t : (all_offers their t).*1 = alive_names their t.
Proof. by apply (offers_names their t). Qed.

Lemma served_total their t off : op_total (served_page their t off) = length (all_offers their t).
Proof.
  change (length (alive_names their t) = length (all_offers their t)).
  by rewrite <- (length_fmap fst (all_offers their t)), all_offers_names.
Qed.

Lemma merge_offer_step w st p :
  merge_offer digest32 disk clock ns w st (offer_of p) = merge_step digest32 disk ns st (p, clock w).
Proof. unfold merge_offer, merge_step. rewrite offer_of_state. reflexivity. Qed.

(** One page merged is a run of steps, all at the clock of the page. *)
Lemma merge_page_steps w st (l : list (str * Merge)) :
  foldl (merge_offer digest32 disk clock ns w) st (offer_of <$> l)
  = foldl (merge_step digest32 disk ns) st ((fun p => (p, clock w)) <$> l).
Proof.
  revert st. induction l as [|p l IH]; intros st; [reflexivity|]. rewrite !fmap_cons.
  cbn [foldl]. rewrite merge_offer_step. apply IH.
Qed.

Lemma pull_loop_honest I their t fuel off n w db :
  serves_while I their t -> I w -> 0 < fuel -> off <= length (all_offers their t) <= off + fuel * PAGE ->
  exists w' steps, I w' /\
    steps.*1 = drop off (all_offers their t) /\ Forall (fun s => exists w0, s.2 = clock w0) steps
    /\ let r := foldl (merge_step digest32 disk ns) (db, n) steps in
       pull_loop digest32 disk clock fuel g peer ns off n (w, db) = ((w', r.1), Some r.2).
Proof.
  intros Hserve. revert off n w db. induction fuel as [|fuel IH]; intros off n w db HI Hf Hoff; [lia|].
  destruct Hserve as [Hcl Hs]. destruct (Hs off w HI) as (w1 & resp & body & Hx & HI1 & Hok & Hb & Hp).
  set (l := drop off (all_offers their t)).
  assert (Hlen : length l = length (all_offers their t) - off) by (unfold l; by rewrite length_drop).
  assert (Hround : pull_loop digest32 disk clock (S fuel) g peer ns off n (w, db)
    = let r := foldl (merge_step digest32 disk ns) (db, n) ((fun p => (p, clock w1)) <$> take PAGE l) in
      let off' := off + length (take PAGE l) in
      if bool_decide (length (take PAGE l) = 0) || bool_decide (length (all_offers their t) <= off')
      then ((w1, r.1), Some r.2)
      else pull_loop digest32 disk clock fuel g peer ns off' r.2 (w1, r.1)).
  { cbn [pull_loop]. unfold ask, send, mbind, Net_bind. cbn [have_client net_with]. rewrite Hcl. cbn [negb].
    cbn [exchange net_with fst snd]. rewrite Hx. unfold mret, Net_ret. cbn [fst snd]. rewrite Hb. cbn [fw_status fw_body].
    rewrite Hok. cbn [negb]. rewrite Hp. unfold act. rewrite served_items, served_total, length_fmap. cbn [fst snd].
    rewrite merge_page_steps. reflexivity. }
  rewrite Hround. cbv zeta. clear Hround.
  assert (Hsteps : ((fun p => (p, clock w1)) <$> take PAGE l).*1 = take PAGE l)
    by (rewrite <- list_fmap_compose; apply list_fmap_id).
  destruct (decide (length l <= PAGE)) as [Hshort|Hlong].
  - rewrite (take_ge l PAGE) in * by done. exists w1, ((fun p => (p, clock w1)) <$> l). split; [done|]. split; [done|].
    split; [apply Forall_fmap, Forall_forall; intros; by exists w1|].
    rewrite (bool_decide_eq_true_2 (length (all_offers their t) <= off + length l)) by lia.
    by rewrite orb_true_r.
  - assert (Htl : length (take PAGE l) = PAGE) by (rewrite length_take; lia). rewrite Htl.
    rewrite !bool_decide_eq_false_2 by (unfold PAGE in *; lia). cbn [orb].
    destruct (IH (off + PAGE) (foldl (merge_step digest32 disk ns) (db, n) ((fun p => (p, clock w1)) <$> take PAGE l)).2
      w1 (foldl (merge_step digest32 disk ns) (db, n) ((fun p => (p, clock w1)) <$> take PAGE l)).1)
      as (w' & steps & HI' & E & Hclk & Hrun); [done|unfold PAGE in *; lia|unfold PAGE in *; lia|].
    exists w', (((fun p => (p, clock w1)) <$> take PAGE l) ++ steps). split; [done|]. split; [|split].
    + rewrite fmap_app, Hsteps, E, <- drop_drop. fold l. apply take_drop.
    + apply Forall_app. split; [apply Forall_fmap, Forall_forall; intros; by exists w1|done].
    + cbv zeta. rewrite foldl_app. rewrite <- surjective_pairing in Hrun. exact Hrun.
Qed.
End Pull.

(** ** A peer to try it on

    Two peers answer for [feeds]: one with a copy that has one value, one with
    an empty copy; everything else is refused. *)
Definition demo_copy : Namespace := (record empty_namespace (lit "n2") (lit "1.2.3.4") (5000 * NANOS) None 0 []).1.
Definition demo_time : Z := 6000 * NANOS.
Definition feeds : str := lit "feeds".
Definition peer_a : str := lit "http://a:9999".
Definition peer_b : str := lit "http://b:9999".

Definition demo_answer (full : str) (rq : Request) : bytes :=
  if bool_decide (rq_url rq = peer_a ++ lit "/_api/namespaces")
     || bool_decide (rq_url rq = peer_b ++ lit "/_api/namespaces") then [2]%N
  else if bool_decide (rq_url rq = full ++ page_path feeds 0) then [1]%N
  else if starts_with full (rq_url rq) then [3]%N else [0]%N.

Definition demo_net (full : str) : Network unit :=
  {| exchange rq w := (w, inl (mkResponse 200 [] (fun _ => inl (demo_answer full rq))));
     have_client _ := true; response_json _ := None |}.

Definition demo_serde : Serde :=
  {| from_slice b := if bool_decide (b = [2]%N) then Some (JObj [(lit "namespaces", JArr [JStr feeds])]) else None;
     parse_error _ := lit "bad json"; to_vec _ := Some [] |}.

Definition demo_pages `{HashOrder} : PageFormat :=
  {| parse_page b := if bool_decide (b = [1]%N) then inl (served_page demo_copy demo_time 0)
                     else if bool_decide (b = [3]%N) then inl (served_page demo_copy demo_time 1)
                     else inl (served_page empty_namespace demo_time 0) |}.

Lemma page_path_inj ns a b : page_path ns a = page_path ns b -> a = b.
Proof.
  unfold page_path, usize_text. intros E. apply app_inv_head, app_inv_head, app_inv_head, app_inv_tail in E.
  apply dec_inj in E. lia.
Qed.

Lemma page_path_start ns off : exists r, page_path ns off = lit "/r/" ++ r.
Proof. by eexists. Qed.

Lemma demo_serves `{HashOrder} p g full :
  p_url p = peer_a \/ p_url p = peer_b -> full = peer_a \/ full = peer_b ->
  @serves unit (demo_net full) demo_pages _ g p feeds
    (if bool_decide (p_url p = full) then demo_copy else empty_namespace) demo_time.
Proof.
  intros Hp Hf. split; [done|]. intros off w. eexists w, _, _. split; [reflexivity|]. split; [done|].
  split; [reflexivity|]. cbn [parse_page demo_pages].
  destruct (page_path_start feeds off) as [r Hr]. unfold demo_answer, outgoing. cbn [rq_url].
  rewrite (bool_decide_eq_false_2 (p_url p ++ page_path feeds off = peer_a ++ _))
    by (rewrite Hr; by destruct Hp as [-> | ->]).
  rewrite (bool_decide_eq_false_2 (p_url p ++ page_path feeds off = peer_b ++ _))
    by (rewrite Hr; by destruct Hp as [-> | ->]).
  cbn [orb]. destruct (decide (p_url p ++ page_path feeds off = full ++ page_path feeds 0)) as [E1|E1];
    [rewrite (bool_decide_eq_true_2 _ E1)|rewrite (bool_decide_eq_false_2 _ E1)].
  - assert (Ep : p_url p = full).
    { revert E1. generalize (page_path feeds off) (page_path feeds 0). clear -Hp Hf. intros x y.
      destruct Hp as [-> | ->], Hf as [-> | ->]; try done; by intros E%(f_equal (fun l => l !! 7)). }
    rewrite Ep in E1. apply app_inv_head, page_path_inj in E1. subst off.
    rewrite (bool_decide_eq_true_2 (p_url p = full)) by done. done.
  - destruct (decide (p_url p = full)) as [Ep|Ep].
    + rewrite (bool_decide_eq_true_2 (p_url p = full)) by done. rewrite Ep.
      rewrite (proj2 (starts_with_spec full (full ++ page_path feeds off))) by by eexists.
      rewrite (bool_decide_eq_false_2 ([3%N] = [1%N])), (bool_decide_eq_true_2 ([3%N] = [3%N])) by done.
      destruct off as [|off]; [by rewrite Ep in E1|]. unfold served_page.
      assert (El : length (alive_names demo_copy demo_time) = 1).
      { unfold alive_names, value_names. by rewrite sort_hash_keys. }
      unfold merge_page, page_of. cbn [items total].
      rewrite !(drop_ge (alive_names demo_copy demo_time)) by (rewrite El; lia). by rewrite !take_nil.
    + rewrite (bool_decide_eq_false_2 (p_url p = full)) by done.
      assert (Hno : starts_with full (p_url p ++ page_path feeds off) = false)
        by (rewrite Hr; destruct Hp as [Eu|Eu], Hf as [-> | ->]; rewrite Eu in *; done).
      rewrite Hno, (bool_decide_eq_false_2 ([0%N] = [1%N])), (bool_decide_eq_false_2 ([0%N] = [3%N])) by done.
      unfold served_page.
      assert (El : alive_names empty_namespace demo_time = []).
      { unfold alive_names, value_names. by rewrite sort_hash_keys. }
      unfold merge_page, page_of. cbn [items total]. rewrite El. by rewrite !drop_nil, !take_nil.
Qed.

(** ** What a pass may change *)
Section Bounded.
Context {W : Type} `{Network W} `{Serde} `{PageFormat} `{Chrono} `{HashOrder}.
Context (digest32 : str -> N) (disk : Disk) (clock : W -> Z).

(** Running [m] keeps [I] of the database. *)
Definition keeps {A} (I : Database -> Prop) (m : Net (W * Database) A) : Prop := forall s, I s.2 -> I (m s).1.2.

Lemma keeps_ret {A} I (x : A) : keeps I (mret x).
Proof. by intros s Hs. Qed.

Lemma keeps_bind {A B} I (m : Net (W * Database) A) (k : A -> Net (W * Database) B) :
  keeps I m -> (forall x, keeps I (k x)) -> keeps I (m ≫= k).
Proof. intros Hm Hk s Hs. unfold mbind, Net_bind. cbv zeta. by apply Hk, Hm. Qed.

Lemma keeps_fold {A B} I (f : B -> A -> Net (W * Database) B) b l :
  (forall b x, x ∈ l -> keeps I (f b x)) -> keeps I (net_fold f b l).
Proof.
  revert b. induction l as [|x l IH]; intros b Hf; simpl; [apply keeps_ret|].
  apply keeps_bind; [apply Hf; left|]. intros b'. apply IH. intros. apply Hf. by right.
Qed.

Lemma keeps_ask I g p path : keeps I (ask g p path).
Proof.
  unfold ask, send. destruct (negb _); [apply keeps_ret|]. apply keeps_bind; [by intros s Hs|].
  intros x. apply keeps_ret.
Qed.

Lemma keeps_namespaces_of I g p : keeps I (namespaces_of g p).
Proof. apply keeps_bind; [apply keeps_ask|]. intros x. apply keeps_ret. Qed.

(** The database implements contents that agree with [abs0] on every namespace
    this server does not store and on every internal one but the tally. *)
Definition within (db0 : Database) (abs0 : Abs) (db : Database) : Prop :=
  exists abs, implements digest32 disk db abs /\ same_config db0 db
    /\ forall path, holds (stores db0) path = false \/ is_internal path = true -> path <> ALL_NAMESPACE ->
         abs !! path = abs0 !! path.

Context (db0 : Database) (abs0 : Abs) (Hshadow : is_u64 (shadow_ttl (policy db0))).
Context (Hclock : forall w, plausible (clock w)).
Context (Hpages : forall b page o, parse_page b = inl page -> o ∈ op_items page -> payload_ok (offer_state o)).

Lemma within_merge ns w st o :
  holds (stores db0) ns = true -> is_internal ns = false -> payload_ok (offer_state o) ->
  within db0 abs0 st.1 -> within db0 abs0 (merge_offer digest32 disk clock ns w st o).1.
Proof.
  intros Hh Hi Ho (abs & Himp & Hc & Hf). unfold merge_offer. cbn [fst].
  pose proof Hc as (Hpol & _).
  destruct (merge_in_spec digest32 disk (clock w) st.1 abs ns (of_value o) (offer_state o) Himp Ho (Hclock w))
    as (M1 & M2 & _); [by rewrite Hpol|].
  eexists. split; [exact M1|]. split; [by etransitivity|]. intros path Hp Ha. rewrite a_merge_frame; [by apply Hf| |done].
  intros ->. destruct Hp as [Hp|Hp]; [by rewrite Hh in Hp|by rewrite Hi in Hp].
Qed.

Lemma within_page ns w st l :
  holds (stores db0) ns = true -> is_internal ns = false -> (forall o, o ∈ l -> payload_ok (offer_state o)) ->
  within db0 abs0 st.1 -> within db0 abs0 (foldl (merge_offer digest32 disk clock ns w) st l).1.
Proof.
  intros Hh Hi. revert st. induction l as [|o l IH]; intros st Hl Hst; [done|]. cbn [foldl]. apply IH.
  - intros. apply Hl. by right.
  - apply within_merge; [done|done|apply Hl; left|done].
Qed.

Lemma keeps_pull fuel g p ns off n :
  holds (stores db0) ns = true -> is_internal ns = false ->
  keeps (within db0 abs0) (pull_loop digest32 disk clock fuel g p ns off n).
Proof.
  intros Hh Hi. revert off n. induction fuel as [|fuel IH]; intros off n; cbn [pull_loop]; [apply keeps_ret|].
  apply keeps_bind; [apply keeps_ask|]. intros [answer|e]; [|apply keeps_ret].
  destruct (negb _); [apply keeps_ret|]. destruct (parse_page _) as [page|] eqn:Ep; [|apply keeps_ret].
  intros s Hs. unfold act.
  assert (Hst : within db0 abs0 (foldl (merge_offer digest32 disk clock ns s.1) (s.2, n) (op_items page)).1).
  { apply within_page; [done|done| |done]. intros o Ho. by eapply Hpages. }
  destruct (_ || _); [exact Hst|]. by apply IH.
Qed.

Lemma keeps_behind_on g p ns : keeps (within db0 abs0) (behind_on digest32 disk clock g p ns).
Proof.
  apply keeps_bind; [apply keeps_ask|]. intros [answer|e]; [|apply keeps_ret].
  destruct (from_slice _); [|apply keeps_ret]. intros s (abs & Himp & Hc & Hf). unfold act. cbn [fst snd].
  destruct (namespace_spec digest32 disk (clock s.1) (touch (clock s.1) s.2 (shard_of ns)) abs ns) as (N1 & C1 & _).
  { eapply same_data_implements; [apply touch_same|exact Himp]. }
  unfold value_count. destruct (namespaces _ !! ns); cbn [fst].
  - exists abs. split; [eapply same_data_implements; [apply touch_same|exact Himp]|]. split; [|done].
    etransitivity; [exact Hc|]. unfold touch. by destruct (shards _ !! _).
  - exists abs. split; [exact N1|]. split; [|done]. etransitivity; [exact Hc|]. etransitivity; [|exact C1].
    unfold touch. by destruct (shards _ !! _).
Qed.

Lemma keeps_catch_up fuel g full : keeps (within db0 abs0) (catch_up digest32 disk clock fuel g full).
Proof.
  apply keeps_fold. intros rep p _. apply keeps_bind; [apply keeps_namespaces_of|].
  intros [names|e]; [|apply keeps_ret]. apply keeps_fold. intros [rep'|] ns _; cbn [catch_up_namespace]; [|apply keeps_ret].
  intros s Hs. unfold act. destruct (negb (holds _ _) || _) eqn:Eh; [exact Hs|].
  apply orb_false_iff in Eh as [Eh%negb_false_iff Ei].
  assert (Hst : stores s.2 = stores db0) by by destruct Hs as (abs & _ & (_ & E & _) & _).
  rewrite Hst in Eh.
  assert (Hb : within db0 abs0 (if full then (s, true) else behind_on digest32 disk clock g p ns s).1.2)
    by (destruct full; [exact Hs|by apply keeps_behind_on]).
  destruct (negb _); [exact Hb|]. by apply (keeps_pull fuel g p ns 0 0 Eh Ei).
Qed.
End Bounded.

(** ** Properties *)

Lemma received_parsed {W} `{Network W, PageFormat} g peer ns off w pages w' :
  received g peer ns off w pages w' -> forall w1 page, (w1, page) ∈ pages -> exists b, parse_page b = inl page.
Proof.
  assert (Hnp : forall off w w1 page, next_page g peer ns off w = (w1, Some page) -> exists b, parse_page b = inl page).
  { intros o v w1 page E. unfold next_page in E. injection E as _ E. destruct (send _ _ _ _ _ _ _ v).2 as [answer|]; [|done].
    destruct (is_success _); [|done]. destruct (parse_page (fw_body answer)) eqn:Ep; [|done]. injection E as <-. eauto. }
  induction 1 as [|o1 v1 v2 p1 E|o1 v1 v2 p1 l1 v3 E E' _ IH]; intros w1 pg Hin.
  - by apply not_elem_of_nil in Hin.
  - apply list_elem_of_singleton in Hin. injection Hin as -> ->. by eapply Hnp.
  - apply elem_of_cons in Hin as [Hin|Hin]; [injection Hin as -> ->; by eapply Hnp|by eapply IH].
Qed.

(** What a peer that serves its copy offers for a value is on one of its pages. *)
Lemma served_payloads {W} `{Network W, PageFormat, HashOrder, Chrono} g peer ns their t (w : W) :
  serves g peer ns their t -> (forall b page o, parse_page b = inl page -> o ∈ op_items page -> payload_ok (offer_state o)) ->
  forall v i, merge_payload their v t = Some i -> payload_ok i.
Proof.
  intros [_ Hs] Hpg v i Hi.
  assert (Hin : (v, i) ∈ all_offers their t).
  { unfold merge_payload in Hi. destruct (values their !! v) as [a|] eqn:Ea; [|done]. destruct (is_expired a t) eqn:Ex; [done|].
    injection Hi as <-. unfold all_offers, offers. apply list_elem_of_omap. exists v. rewrite Ea. split; [|done].
    apply elem_of_alive. eauto. }
  apply list_elem_of_lookup in Hin as [k Hk].
  destruct (Hs k w) as (_ & _ & body & _ & _ & _ & Hp).
  change i with (v, i).2. rewrite <- (offer_of_state (v, i)). eapply Hpg; [exact Hp|]. rewrite served_items. apply list_elem_of_fmap_2.
  apply list_elem_of_lookup. exists 0. rewrite lookup_take_lt by (unfold PAGE; lia). rewrite lookup_drop, Nat.add_0_r. exact Hk.
Qed.

(** A pull, while the peer serves. *)
Lemma pull_spec {W} `{Network W, PageFormat, Chrono, HashOrder} digest32 disk clock g peer ns I their t fuel w db abs :
  serves_while g peer ns I their t -> I w -> 0 < fuel -> length (alive_names their t) <= fuel * PAGE ->
  implements digest32 disk db abs -> is_u64 (shadow_ttl (policy db)) -> is_internal ns = false ->
  (forall w, plausible (clock w)) -> (forall v i, merge_payload their v t = Some i -> payload_ok i) ->
  exists w' db' m abs', I w' /\
    pull_namespace digest32 disk clock fuel g peer ns (w, db) = ((w', db'), Some m)
    /\ implements digest32 disk db' abs' /\ same_config db db'
    /\ (forall v, a_values abs' ns !! v = value_after ns (node db) abs v (merge_payload their v t))
    /\ (forall path, path <> ns -> path <> ALL_NAMESPACE -> abs' !! path = abs !! path)
    /\ (consensus_ok (node db) abs ->
        (Z.of_nat (size abs + 2 * length (alive_names their t)) + 1 < U64_MODULUS)%Z -> consensus_ok (node db) abs').
Proof.
  intros Hserve HI Hfuel Hlen Himp Hsh Hint Hclk Hpay.
  assert (Hl : length (all_offers their t) = length (alive_names their t))
    by (by rewrite <- (length_fmap fst), all_offers_names).
  destruct (pull_loop_honest digest32 disk clock g peer ns I their t fuel 0 0 w db Hserve HI Hfuel ltac:(lia))
    as (w' & steps & HI' & Hs & Hcs & Hrun).
  rewrite drop_0 in Hs.
  assert (Hmem : forall v i, (v, i) ∈ all_offers their t <-> merge_payload their v t = Some i).
  { intros v i. unfold all_offers, offers. rewrite list_elem_of_omap. unfold merge_payload. split.
    - intros (u & (a & Ha & Hx)%elem_of_alive & Hu). rewrite Ha in Hu. simpl in Hu. simplify_eq. by rewrite Ha, Hx.
    - destruct (values their !! v) as [a|] eqn:Ea; [|done]. destruct (is_expired a t) eqn:Ex; [done|].
      intros [= <-]. exists v. rewrite Ea. split; [|done]. apply elem_of_alive. eauto. }
  assert (Hnd : NoDup (all_offers their t).*1) by (rewrite all_offers_names; apply alive_NoDup).
  assert (Hns : ns <> ALL_NAMESPACE) by by intros ->.
  destruct (merge_steps_spec digest32 disk ns steps db abs 0 Himp Hsh Hns) as (abs' & R1 & R2 & R3 & R4 & R5).
  { apply Forall_forall. intros [[v i] c] Hin. split.
    - apply (Hpay v), Hmem. rewrite <- Hs. apply list_elem_of_fmap. by exists ((v, i), c).
    - rewrite Forall_forall in Hcs. by destruct (Hcs _ Hin) as [w0 ->]. }
  { by rewrite Hs. }
  eexists _, _, _, abs'. split; [exact HI'|]. split; [exact Hrun|]. split_and!; [exact R1|exact R2| |exact R4|].
  - intros v. rewrite R3, Hs. f_equal. destruct (merge_payload their v t) as [i|] eqn:E.
    + by apply elem_of_list_to_map_1, Hmem.
    + apply not_elem_of_list_to_map_1. intros ([u i] & -> & Hin)%list_elem_of_fmap. apply Hmem in Hin.
      cbn [fst] in E. congruence.
  - intros Hco Hb. apply R5; [by apply ordinary_counts|done|].
    rewrite <- (length_fmap fst steps), Hs, Hl. done.
Qed.


(** A pull ends whatever the peer serves, as long as the totals it claims
    are bounded: one more round than the bound is always enough. *)
Theorem pull_ends {W} `{Network W, PageFormat, Chrono, HashOrder} digest32 disk clock g peer ns bound w db :
  (forall b page, parse_page b = inl page -> op_total page <= bound) ->
  exists s m, pull_namespace digest32 disk clock (S bound) g peer ns (w, db) = (s, Some m).
Proof.
  intros Hb. unfold pull_namespace.
  assert (Hgen : forall fuel off n s, bound < off + fuel -> 0 < fuel ->
    exists s' m, pull_loop digest32 disk clock fuel g peer ns off n s = (s', Some m)).
  { induction fuel as [|fuel IH]; intros off n s Hf Hp; [lia|]. cbn [pull_loop]. unfold mbind, Net_bind. cbv zeta.
    destruct (ask g peer (page_path ns off) s) as [s1 [answer|e]]; cbn [fst snd]; [|by eexists _, _].
    destruct (negb _); [by eexists _, _|]. destruct (parse_page _) as [page|] eqn:Ep; [|by eexists _, _].
    unfold act. apply Hb in Ep. case_bool_decide as E1; cbn [orb]; [by eexists _, _|].
    case_bool_decide as E2; [by eexists _, _|]. apply IH; lia. }
  apply Hgen; lia.
Qed.

(** Whatever its peers answer, a catch-up pass writes only into ordinary
    namespaces this server stores, and into the tally that counts them: every
    other namespace, internal ones included, and the server's own settings are
    as they were. *)
Theorem catch_up_bounded {W} `{Network W, Serde, PageFormat, Chrono, HashOrder} digest32 disk clock fuel g full w db abs :
  implements digest32 disk db abs -> is_u64 (shadow_ttl (policy db)) -> (forall w, plausible (clock w)) ->
  (forall b page o, parse_page b = inl page -> o ∈ op_items page -> payload_ok (offer_state o)) ->
  let db' := (catch_up digest32 disk clock fuel g full (w, db)).1.2 in
  exists abs', implements digest32 disk db' abs' /\ same_config db db'
    /\ forall path, holds (stores db) path = false \/ is_internal path = true -> path <> ALL_NAMESPACE ->
         abs' !! path = abs !! path.
Proof.
  intros Himp Hsh Hclk Hpay db'.
  apply (keeps_catch_up digest32 disk clock db abs Hsh Hclk Hpay fuel g full (w, db)).
  exists abs. by split_and!.
Qed.

(** ** Witnesses *)
Lemma as_merge_ok `{Chrono} a :
  attr_wf a -> first_seen a = last_seen a -> payload_ok (as_merge a).
Proof.
  intros [Hc Hs Hw Ht _ _] E. split; simpl; [done|done|done|by rewrite E|by rewrite E].
Qed.

Lemma demo_copy_payload `{Chrono} v i : merge_payload demo_copy v demo_time = Some i -> payload_ok i.
Proof.
  unfold merge_payload.
  assert (Hwf : ns_wf demo_copy) by (apply record_wf; done || apply empty_namespace_wf).
  destruct (values demo_copy !! v) as [a|] eqn:E; [|done]. destruct (is_expired a demo_time); [done|]. intros [= <-].
  apply as_merge_ok; [by apply (ns_attr _ Hwf v)|].
  change (values demo_copy) with
    (<[lit "1.2.3.4" := write_attr (new (lit "1.2.3.4")) (lit "n2") (5000 * NANOS) None 0 []]> (∅ : NsData)) in E.
  apply lookup_insert_Some in E as [[_ <-]|[_ E]]; [done|by rewrite lookup_empty in E].
Qed.

Definition demo_b : Peer := mkPeer peer_b (lit "kb") (from_prefixes [lit "feeds"]) true.

Lemma demo_pages_ok `{Chrono} : let O := some_order in
  forall b page, @parse_page demo_pages b = inl page ->
    op_total page <= 1 /\ forall o, o ∈ op_items page -> payload_ok (offer_state o).
Proof.
  intros O b page Hp.
  assert (Hin : forall off their o, (forall v i, merge_payload their v demo_time = Some i -> payload_ok i) ->
    o ∈ op_items (served_page their demo_time off) -> payload_ok (offer_state o)).
  { intros off their o Hpay. rewrite served_items. intros ([v i] & -> & Hx)%list_elem_of_fmap.
    rewrite offer_of_state. apply (subseteq_take PAGE), (subseteq_drop off) in Hx. apply (Hpay v).
    unfold all_offers, offers in Hx. apply list_elem_of_omap in Hx as (u & (a & Ha & Hx)%elem_of_alive & Hu).
    rewrite Ha in Hu. simpl in Hu. simplify_eq. unfold merge_payload. by rewrite Ha, Hx. }
  cbn [parse_page demo_pages] in Hp. split; [repeat case_bool_decide; injection Hp as <-; vm_compute; lia|]. intros o Ho.
  repeat case_bool_decide; injection Hp as <-; eapply Hin; try exact Ho; try apply demo_copy_payload.
  intros v i. unfold merge_payload. cbn [values empty_namespace]. by rewrite lookup_empty.
Qed.


Lemma pull_ends_witness :
  let C := chrono_10000y in let O := some_order in let N := demo_net peer_b in let P := demo_pages in
  exists s m, pull_namespace (fun _ => 7%N) ∅ (fun _ : unit => demo_time) 2 demo_galaxy demo_b feeds (tt, demo_db) = (s, Some m).
Proof.
  intros C O N P.
  apply (@pull_ends unit N P C O (fun _ => 7%N) ∅ (fun _ => demo_time) demo_galaxy demo_b feeds 1 tt demo_db).
  intros b page Hp. cbn [parse_page P demo_pages] in Hp. repeat case_bool_decide; injection Hp as <-; vm_compute; lia.
Defined.

Lemma catch_up_bounded_witness :
  let C := chrono_10000y in let O := some_order in
  let N := demo_net peer_b in let S := demo_serde in let P := demo_pages in
  exists abs', implements (fun _ => 7%N) ∅
    (catch_up (fun _ => 7%N) ∅ (fun _ : unit => demo_time) 1 demo_galaxy true (tt, demo_db)).1.2 abs'.
Proof.
  intros C O N S P.
  destruct (@catch_up_bounded unit N S P C O (fun _ => 7%N) ∅ (fun _ => demo_time) 1 demo_galaxy true tt demo_db ∅)
    as (abs' & H1 & _).
  - apply empty_implements.
  - done.
  - intros _. apply plausible_whole.
  - intros b page o Hp. by apply (demo_pages_ok b page Hp).
  - by exists abs'.
Defined.
