(* ===== verification/Reconcile.v ===== *)
(** * Rebuilding the consensus tally

    What [Database::set_consensus] leaves in [_all], and what the pass of
    [src/src/galaxy.rs] that surveys the galaxy hands it. *)

From stdpp Require Import base numbers list strings gmap sorting pretty.
From S2P Require Import Prelude Text Activity Latest Attribute AttributeFacts Convergence Paths Acl Tier Namespace Disk Database Contents Refine Consensus Eviction Service Accounted System Listing Peers Forward CatchUp CatchUpFacts.

(** ** One count put right *)

(** What a tally of [c] is: no entry for none, and otherwise an entry that
    counts to [c]. *)
Definition counts_to (o : option Attribute) (c : Z) : Prop :=
  if bool_decide (c = 0%Z) then o = None else exists a, o = Some a /\ count a = c.

Lemma count_single a node c : is_u64 c -> count (set_counts a {[node := c]}) = c.
Proof.
  intros Hc. unfold count. cbn [set_counts counts].
  rewrite <- insert_empty, map_total_insert, map_total_empty by apply lookup_empty.
  rewrite Z.add_0_r. by apply wrap64_id.
Qed.

Lemma set_count_spec ns nd v c now :
  ns_ok ns -> is_u64 c -> plausible now ->
  let r := (set_count ns nd v c now).1 in
  ns_ok r /\ (forall u, u <> v -> values r !! u = values ns !! u) /\ counts_to (values r !! v) c.
Proof.
  intros Hok Hc Hnow r. pose proof (set_count_wf ns nd v c now (ok_wf _ Hok) Hc) as Hwf.
  destruct (default_legacy ns v Hok) as (L1 & L2 & L3).
  unfold r, counts_to, set_count in *. case_bool_decide as E0; cbn [fst] in *.
  - split_and!; [|by intros; apply lookup_delete_ne|apply lookup_delete_eq].
    split; [done|]. simpl. intros u a [_ Ha]%lookup_delete_Some. by eapply (ok_legacy _ Hok).
  - set (a := default (new v) (values ns !! v)) in *.
    case_bool_decide as E1; cbn [fst values] in *.
    + split_and!; [by apply ns_ok_insert|by intros; apply lookup_insert_ne|].
      exists a. by rewrite lookup_insert_eq.
    + set (a2 := if bool_decide _ then _ else _) in *.
      split_and!; [|by intros; apply lookup_insert_ne|].
      * apply ns_ok_insert; [done|done|]. unfold a2. case_bool_decide; by split_and!.
      * exists a2. rewrite lookup_insert_eq. split; [done|]. transitivity (count (set_counts a {[nd := c]})).
        -- unfold a2. by case_bool_decide.
        -- by apply count_single.
Qed.

(** ** All of them *)
Definition u64_sets (holders : gmap str (gset str)) : Prop :=
  forall v s, holders !! v = Some s -> is_u64 (Z.of_nat (size s)).

Lemma set_counts_spec (nd : str) (now : Z) (l : list (str * gset str)) (ns : Namespace) (n : nat) :
  ns_ok ns -> plausible now -> Forall (fun p => is_u64 (Z.of_nat (size p.2))) l -> NoDup l.*1 ->
  let r := (foldl (set_counts_to now nd) (ns, n) l).1 in
  ns_ok r
  /\ (forall v s, (v, s) ∈ l -> counts_to (values r !! v) (Z.of_nat (size s)))
  /\ (forall v, v ∉ l.*1 -> values r !! v = values ns !! v).
Proof.
  revert ns n. induction l as [|[v s] l IH]; intros ns n Hok Hnow Hl Hnd r;
    [split_and!; [done|by intros ?? ?%elem_of_nil|done]|].
  apply Forall_cons in Hl as [Hs Hl]. apply NoDup_cons in Hnd as [Hv Hnd]. cbn [fst snd] in *.
  destruct (set_count_spec ns nd v _ now Hok Hs Hnow) as (H1 & H2 & H3).
  unfold r. cbn [foldl]. unfold set_counts_to at 2. cbn [fst snd].
  destruct (IH (set_count ns nd v (Z.of_nat (size s)) now).1
    (if (set_count ns nd v (Z.of_nat (size s)) now).2 then S n else n) H1 Hnow Hl Hnd) as (R1 & R2 & R3).
  split_and!; [done| |].
  - intros u t [[= -> ->]|Hin]%elem_of_cons; [by rewrite R3|by apply R2].
  - intros u Hu. rewrite fmap_cons in Hu. apply not_elem_of_cons in Hu as [Hu1 Hu2]. rewrite R3 by done.
    by apply H2.
Qed.

Lemma clear_unseen_spec (nd : str) (now : Z) (holders : gmap str (gset str)) (l : list str) (ns : Namespace) (n : nat) :
  ns_ok ns -> plausible now ->
  let r := (foldl (clear_unseen now nd holders) (ns, n) l).1 in
  ns_ok r
  /\ (forall v, is_Some (holders !! v) -> values r !! v = values ns !! v)
  /\ (forall v, holders !! v = None -> values r !! v = if bool_decide (v ∈ l) then None else values ns !! v).
Proof.
  revert ns n. induction l as [|v l IH]; intros ns n Hok Hnow r; [split_and!; [done..|]; intros; by rewrite bool_decide_eq_false_2 by apply not_elem_of_nil|].
  unfold r. cbn [foldl]. unfold clear_unseen at 2 4 6. cbn [fst snd]. case_bool_decide as Hs; cbv zeta.
  - destruct (IH ns n Hok Hnow) as (R1 & R2 & R3). split_and!; [done|done|].
    intros u Hu. rewrite R3 by done. destruct (decide (u = v)) as [->|Huv]; [by rewrite Hu in Hs; destruct Hs|].
    assert (Hb : bool_decide (u ∈ v :: l) = bool_decide (u ∈ l)) by (apply bool_decide_ext; rewrite elem_of_cons; tauto).
    by rewrite Hb.
  - destruct (set_count_spec ns nd v 0 now Hok ltac:(done) Hnow) as (H1 & H2 & H3).
    destruct (IH (set_count ns nd v 0 now).1 (if (set_count ns nd v 0 now).2 then S n else n) H1 Hnow) as (R1 & R2 & R3).
    split_and!; [done| |].
    + intros u Hu. rewrite R2 by done. apply H2. by intros ->.
    + intros u Hu. rewrite R3 by done. destruct (decide (u = v)) as [->|Huv].
      * rewrite (bool_decide_eq_true_2 (v ∈ v :: l)) by left. case_bool_decide; [done|]. exact H3.
      * assert (Hb : bool_decide (u ∈ v :: l) = bool_decide (u ∈ l)) by (apply bool_decide_ext; rewrite elem_of_cons; tauto).
        rewrite Hb. destruct (bool_decide (u ∈ l)); [done|]. by apply H2.
Qed.

Section SetConsensus.
Context `{Chrono} `{HashOrder} (digest32 : str -> N) (disk : Disk).

(** [Database::set_consensus]: every value counts as many namespaces as the
    survey found for it, every other value is forgotten, and nothing else
    changes. *)
Lemma set_consensus_spec now db abs holders :
  implements digest32 disk db abs -> plausible now -> u64_sets holders ->
  let r := set_consensus digest32 disk now db holders in
  exists abs', implements digest32 disk r.1 abs' /\ same_config db r.1
    /\ (forall v, counts_to (tally abs' v) (Z.of_nat (size (default ∅ (holders !! v)))))
    /\ (forall path, path <> ALL_NAMESPACE -> abs' !! path = abs !! path).
Proof.
  intros Himp Hnow Hu r.
  destruct (noc_spec digest32 disk now db abs ALL_NAMESPACE Himp) as (H1 & Hc & _ & _ & Hn & Hok & Hst).
  unfold r, set_consensus. set (q := namespace_or_create digest32 disk now db ALL_NAMESPACE) in *.
  destruct (set_counts_spec (node db) now (hash_iter holders) q.2 0 Hok Hnow) as (S1 & S2 & S3).
  { apply Forall_forall. intros [v s] Hin%elem_of_hash_iter. by apply (Hu v). }
  { apply hash_keys_NoDup. }
  set (st1 := foldl (set_counts_to now (node db)) (q.2, 0) (hash_iter holders)) in *.
  destruct (clear_unseen_spec (node db) now holders (value_names st1.1) st1.1 st1.2 S1 Hnow) as (C1 & C2 & C3).
  rewrite <- surjective_pairing in C1, C2, C3.
  set (st2 := foldl (clear_unseen now (node db) holders) st1 (value_names st1.1)) in *.
  pose proof (put_ns_spec digest32 disk q.1 _ ALL_NAMESPACE q.2 st2.1 H1 Hn C1) as H2. rewrite insert_insert_eq in H2.
  exists (<[ALL_NAMESPACE := stored_values (values st2.1)]> abs). split_and!.
  - cbn [fst]. case_bool_decide; [|exact H2]. eapply same_data_implements; [apply mark_dirty_same|exact H2].
  - cbn [fst]. etransitivity; [exact Hc|]. by case_bool_decide.
  - assert (Hv : forall v, counts_to (values st2.1 !! v) (Z.of_nat (size (default ∅ (holders !! v))))).
    { intros v. destruct (holders !! v) as [s|] eqn:Ev; cbn [default from_option id].
      - rewrite C2 by eauto. apply S2. by apply elem_of_hash_iter.
      - rewrite C3 by done. rewrite size_empty. unfold counts_to. rewrite bool_decide_eq_true_2 by done.
        case_bool_decide as Hin; [done|]. destruct (values st1.1 !! v) eqn:E; [|done].
        destruct Hin. apply elem_of_hash_keys. eauto. }
    intros v. specialize (Hv v). unfold tally, a_values. rewrite lookup_insert_eq. cbn [default from_option id].
    unfold stored_values. rewrite lookup_fmap. unfold counts_to in *.
    case_bool_decide; [by rewrite Hv|]. destruct Hv as (a & -> & Ha). exists (stored_attr a). by rewrite count_stored.
  - intros path Hp. by rewrite lookup_insert_ne.
Qed.
End SetConsensus.

(** ** The survey *)
Section Survey.
Context {W : Type} `{Network W} `{Serde} `{PageFormat} `{HashOrder}.
Context (g : Galaxy) (names : Peer -> list str) (copy : Peer -> str -> Namespace) (t : Z) (fuel : nat).

(** Every peer in service lists its namespaces and serves the pages of each. *)
Record galaxy_answers : Prop := {
  ga_client : have_client (verify_tls g) = true;
  ga_names : forall p w, p ∈ peers g -> exists w' resp body parsed,
    exchange (outgoing p GET (lit "/_api/namespaces") None 1 []) w = (w', inl resp)
    /\ is_success (rs_status resp) = true /\ rs_body resp FORWARD_BODY_LIMIT = inl body
    /\ from_slice body = Some parsed /\ names_in parsed = names p;
  ga_pages : forall p ns, p ∈ peers g -> ns ∈ names p -> counts_towards_consensus ns = true ->
    serves g p ns (copy p ns) t /\ length (alive_names (copy p ns) t) <= fuel * PAGE;
  ga_fuel : 0 < fuel;
}.

(** The copy of each namespace the survey reads: the one of the first peer that
    lists it. *)
Definition first_copy (m : gmap str Namespace) (q : Peer * str) : gmap str Namespace :=
  if counts_towards_consensus q.2 && bool_decide (m !! q.2 = None) then <[q.2 := copy q.1 q.2]> m else m.
Definition listed : list (Peer * str) := p ← peers g; (fun ns => (p, ns)) <$> names p.
Definition surveyed : gmap str Namespace := foldl first_copy ∅ listed.

(** What the survey has found once it has read the copies [m]. *)
Definition found (m : gmap str Namespace) (st : Survey) : Prop :=
  st.2 = dom m
  /\ (forall v ns, ns ∈ default ∅ (st.1 !! v) <-> exists c, m !! ns = Some c /\ v ∈ alive_names c t)
  /\ (forall v s, st.1 !! v = Some s -> s <> ∅).

Lemma survey_loop_honest p ns their f off holders w db :
  serves g p ns their t -> 0 < f -> off <= length (all_offers their t) <= off + f * PAGE ->
  exists w', survey_loop f g p ns off holders (w, db)
    = ((w', db), Some (inl (foldl (note_holder ns) holders (offer_of <$> drop off (all_offers their t))))).
Proof.
  intros [Hcl Hs]. revert off holders w. induction f as [|f IH]; intros off holders w Hf Hoff; [lia|].
  destruct (Hs off w) as (w1 & resp & body & Hx & Hok & Hb & Hp).
  set (l := drop off (all_offers their t)).
  assert (Hlen : length l = length (all_offers their t) - off) by (unfold l; by rewrite length_drop).
  assert (Hround : survey_loop (S f) g p ns off holders (w, db)
    = let holders' := foldl (note_holder ns) holders (offer_of <$> take PAGE l) in
      let off' := off + length (take PAGE l) in
      if bool_decide (length (take PAGE l) = 0) || bool_decide (length (all_offers their t) <= off')
      then ((w1, db), Some (inl holders')) else survey_loop f g p ns off' holders' (w1, db)).
  { cbn [survey_loop]. unfold ask, send, mbind, Net_bind. cbn [have_client net_with]. rewrite Hcl. cbn [negb].
    cbn [exchange net_with fst snd]. rewrite Hx. unfold mret, Net_ret. cbn [fst snd]. rewrite Hb. cbn [fw_status fw_body].
    rewrite Hok. cbn [negb]. rewrite Hp. rewrite served_items, served_total, length_fmap. fold l. cbv zeta.
    by destruct (bool_decide _ || bool_decide _). }
  rewrite Hround. cbv zeta. clear Hround. destruct (decide (length l <= PAGE)) as [Hshort|Hlong].
  - rewrite (take_ge l PAGE) by done. exists w1.
    rewrite (bool_decide_eq_true_2 (length (all_offers their t) <= off + length l)) by lia. by rewrite orb_true_r.
  - assert (Htl : length (take PAGE l) = PAGE) by (rewrite length_take; lia). rewrite Htl.
    rewrite !bool_decide_eq_false_2 by (unfold PAGE in *; lia). cbn [orb].
    destruct (IH (off + PAGE) (foldl (note_holder ns) holders (offer_of <$> take PAGE l)) w1) as [w' Hw'];
      [unfold PAGE in *; lia|unfold PAGE in *; lia|].
    exists w'. rewrite Hw', <- foldl_app, <- fmap_app, <- drop_drop. fold l. by rewrite take_drop.
Qed.

Lemma note_holders_elem ns (l : list (str * Merge)) holders v x :
  x ∈ default ∅ (foldl (note_holder ns) holders (offer_of <$> l) !! v)
  <-> x ∈ default ∅ (holders !! v) \/ (x = ns /\ v ∈ l.*1).
Proof.
  revert holders. induction l as [|[u i] l IH]; intros holders; cbn [fmap list_fmap foldl].
  - rewrite elem_of_nil. tauto.
  - rewrite IH. unfold note_holder at 1. cbn [offer_of of_value fst]. rewrite elem_of_cons.
    destruct (decide (v = u)) as [->|Hv].
    + rewrite lookup_insert_eq. cbn [default from_option id]. rewrite elem_of_union, elem_of_singleton. tauto.
    + rewrite lookup_insert_ne by done. tauto.
Qed.

Lemma note_holders_ne ns (l : list (str * Merge)) holders v s :
  (forall v s, holders !! v = Some s -> s <> ∅) ->
  foldl (note_holder ns) holders (offer_of <$> l) !! v = Some s -> s <> ∅.
Proof.
  revert holders. induction l as [|[u i] l IH]; intros holders Hne; cbn [fmap list_fmap foldl]; [apply Hne|].
  apply IH. intros v' s'. unfold note_holder. cbn [offer_of of_value fst].
  intros [[_ <-]|[_ Hs]]%lookup_insert_Some; [|by eapply Hne].
  intros E. assert (Hin : ns ∈ default ∅ (holders !! u) ∪ {[ns]}) by (apply elem_of_union; right; by apply elem_of_singleton).
  rewrite E in Hin. by apply elem_of_empty in Hin.
Qed.

Lemma found_first m st p ns :
  found m st -> counts_towards_consensus ns = true -> m !! ns = None ->
  found (<[ns := copy p ns]> m)
    (foldl (note_holder ns) st.1 (offer_of <$> all_offers (copy p ns) t), st.2 ∪ {[ns]}).
Proof.
  intros (F1 & F2 & F3) Hc Hm. split_and!; cbn [fst snd].
  - rewrite F1, dom_insert_L. apply union_comm_L.
  - intros v x. rewrite note_holders_elem, F2, all_offers_names. split.
    + intros [(c & Hx & Hv)|[-> Hv]].
      * exists c. split; [|done]. rewrite lookup_insert_ne; [done|]. congruence.
      * exists (copy p ns). by rewrite lookup_insert_eq.
    + intros (c & [[<- <-]|[_ Hx]]%lookup_insert_Some & Hv); [by right|left; eauto].
  - intros v s. by apply note_holders_ne.
Qed.

Lemma survey_names_honest p l m st w db :
  galaxy_answers -> p ∈ peers g -> (forall ns, ns ∈ l -> ns ∈ names p) -> found m st ->
  exists w' st', net_fold (survey_namespace fuel g p) (Some (inl st)) l (w, db) = ((w', db), Some (inl st'))
    /\ found (foldl first_copy m ((fun ns => (p, ns)) <$> l)) st'.
Proof.
  intros Hg Hp. revert m st w. induction l as [|ns l IH]; intros m st w Hl Hf; [by exists w, st|].
  assert (Hl' : forall x, x ∈ l -> x ∈ names p) by (intros; apply Hl; by right).
  cbn [net_fold fmap list_fmap foldl]. unfold first_copy at 2. cbn [fst snd]. unfold mbind, Net_bind. cbv zeta.
  unfold survey_namespace at 2 3. destruct st as [holders seen].
  destruct (counts_towards_consensus ns) eqn:Ec; cbn [negb orb andb]; [|by apply IH].
  assert (Es : bool_decide (ns ∈ seen) = negb (bool_decide (m !! ns = None))).
  { destruct Hf as (F1 & _). cbn [snd] in F1. rewrite F1. rewrite <- bool_decide_not. apply bool_decide_ext.
    rewrite elem_of_dom. symmetry. apply not_eq_None_Some. }
  rewrite Es. clear Es. destruct (bool_decide (m !! ns = None)) eqn:Em; cbn [negb]; [|by apply IH].
  apply bool_decide_eq_true in Em.
  destruct (ga_pages Hg p ns Hp ltac:(apply Hl; left) Ec) as [Hserve Hsize].
  destruct (survey_loop_honest p ns (copy p ns) fuel 0 holders w db Hserve (ga_fuel Hg)) as [w1 Hw1].
  { rewrite <- (length_fmap fst (all_offers _ _)), all_offers_names. lia. }
  unfold mbind, Net_bind. cbv zeta. rewrite Hw1. cbn [fst snd]. unfold mret, Net_ret. cbn [fst snd].
  apply IH; [done|]. rewrite drop_0. by apply (found_first m (holders, seen)).
Qed.

Lemma survey_peers_honest ps m st w db :
  galaxy_answers -> (forall p, p ∈ ps -> p ∈ peers g) -> found m st ->
  exists w' st', net_fold (survey_peer fuel g) (Some (inl st)) ps (w, db) = ((w', db), Some (inl st'))
    /\ found (foldl first_copy m (p ← ps; (fun ns => (p, ns)) <$> names p)) st'.
Proof.
  intros Hg. revert m st w. induction ps as [|p ps IH]; intros m st w Hps Hf; [by exists w, st|].
  destruct (ga_names Hg p w ltac:(apply Hps; left)) as (w1 & resp & body & parsed & Hx & Hok & Hb & Hj & Hn).
  assert (Hl : namespaces_of g p (w, db) = ((w1, db), inl (names p))).
  { unfold namespaces_of, ask, send, mbind, Net_bind. cbn [have_client net_with]. rewrite (ga_client Hg). cbn [negb].
    cbn [exchange net_with fst snd]. rewrite Hx. unfold mret, Net_ret. cbn [fst snd]. rewrite Hb. cbn [fw_status fw_body].
    rewrite Hok. cbn [negb]. by rewrite Hj, Hn. }
  destruct (survey_names_honest p (names p) m st w1 db Hg ltac:(apply Hps; left) ltac:(done) Hf) as (w2 & st2 & E2 & Hf2).
  destruct (IH _ st2 w2 ltac:(intros; apply Hps; by right) Hf2) as (w3 & st3 & E3 & Hf3).
  exists w3, st3. split.
  - cbn [net_fold]. unfold mbind, Net_bind. cbv zeta. unfold survey_peer at 2 3.
    assert (Hstep : (namespaces_of g p ≫= fun ns => match ns with
        | inl ns => net_fold (survey_namespace fuel g p) (Some (inl st)) ns
        | inr e => mret (Some (inr e)) end) (w, db) = ((w2, db), Some (inl st2))).
    { unfold mbind, Net_bind. cbv zeta. rewrite Hl. cbn [fst snd]. exact E2. }
    rewrite Hstep. exact E3.
  - rewrite bind_cons, foldl_app. exact Hf3.
Qed.
End Survey.

(** ** Properties *)

(** How many surveyed namespaces have [v] alive. *)
Definition surveyed_count `{HashOrder} (m : gmap str Namespace) (t : Z) (v : str) : nat :=
  size (filter (fun p => v ∈ alive_names p.2 t) m).

(** C32: reconciling against a galaxy all of whose peers in service answer every
    page, from copies that do not change meanwhile, ends; and the tally it leaves
    is, for every value, the number of namespaces holding it alive in the copy of
    the first peer in service that lists the namespace, each counted once: too
    high a count is lowered, a missing one raised, a value no such copy holds
    forgotten, and no other namespace is touched.  What a later mirror of a
    namespace holds beside the first is not counted
    ([reconcile_first_mirror_only]). *)
Theorem reconcile_exact {W} `{Network W, Serde, PageFormat, Chrono, HashOrder} digest32 disk clock g names copy t fuel w db abs :
  galaxy_answers g names copy t fuel -> implements digest32 disk db abs -> (forall w, plausible (clock w)) ->
  (Z.of_nat (size (surveyed g names copy)) < U64_MODULUS)%Z ->
  exists w' db' report abs',
    rebuild_consensus digest32 disk clock fuel g (w, db) = ((w', db'), Some (inl report))
    /\ rc_namespaces report = size (surveyed g names copy)
    /\ implements digest32 disk db' abs' /\ same_config db db'
    /\ (forall v, counts_to (tally abs' v) (Z.of_nat (surveyed_count (surveyed g names copy) t v)))
    /\ (forall path, path <> ALL_NAMESPACE -> abs' !! path = abs !! path).
Proof.
  intros Hg Himp Hclk Hb.
  destruct (survey_peers_honest g names copy t fuel (peers g) ∅ (∅, ∅) w db Hg ltac:(done)) as (w' & [hs seen] & Hrun & F).
  { split_and!; cbn [fst snd].
    - by rewrite dom_empty_L.
    - intros v ns. rewrite lookup_empty. cbn [default from_option id]. split; [by intros ?%elem_of_empty|].
      intros (c & Hc & _). by rewrite lookup_empty in Hc.
    - intros v s. by rewrite lookup_empty. }
  destruct F as (F1 & F2 & _). cbn [fst snd] in *.
  change (foldl (first_copy copy) ∅ _) with (surveyed g names copy) in *.
  set (m := surveyed g names copy) in *.
  assert (Hset : forall v, default ∅ (hs !! v) = dom (filter (fun p => v ∈ alive_names p.2 t) m)).
  { intros v. apply set_eq. intros x. rewrite F2, elem_of_dom. unfold is_Some.
    setoid_rewrite map_lookup_filter_Some. naive_solver. }
  assert (Hsz : forall v, size (default ∅ (hs !! v)) = surveyed_count m t v)
    by (intros v; rewrite Hset; apply size_dom).
  destruct (set_consensus_spec digest32 disk (clock w') db abs hs Himp (Hclk w')) as (abs' & R1 & R2 & R3 & R4).
  { intros v s Hv. specialize (Hsz v). rewrite Hv in Hsz. cbn [default from_option id] in Hsz. rewrite Hsz.
    assert (Hle : surveyed_count m t v <= size m) by (apply map_size_mono, map_filter_subseteq || apply map_subseteq_size, map_filter_subseteq).
    split; lia. }
  eexists w', _, _, abs'. split.
  - unfold rebuild_consensus, mbind, Net_bind. cbv zeta. rewrite Hrun. cbn [fst snd]. unfold act. reflexivity.
  - split_and!; [|exact R1|exact R2| |exact R4].
    + cbn [rc_namespaces]. by rewrite F1, size_dom.
    + intros v. rewrite <- Hsz. apply R3.
Qed.

Definition demo_copies (full : str) (p : Peer) (_ : str) : Namespace :=
  if bool_decide (p_url p = full) then demo_copy else empty_namespace.

Lemma demo_peers p : p ∈ peers demo_galaxy -> p_url p = peer_a \/ p_url p = peer_b.
Proof.
  change (peers demo_galaxy) with
    [mkPeer peer_a (lit "ka") store_everything true; mkPeer peer_b (lit "kb") (from_prefixes [lit "feeds"]) true].
  rewrite !elem_of_cons, elem_of_nil. intros [->|[->|[]]]; [by left|by right].
Qed.

Lemma demo_galaxy_answers `{HashOrder} full :
  full = peer_a \/ full = peer_b ->
  @galaxy_answers unit (demo_net full) demo_serde demo_pages _ demo_galaxy (fun _ => [feeds]) (demo_copies full) demo_time 1.
Proof.
  intros Hf. split; [done| | |lia].
  - intros p w Hp%demo_peers. eexists w, _, _, _. split; [reflexivity|]. split; [done|]. split; [reflexivity|].
    unfold demo_answer, outgoing. cbn [rq_url].
    destruct Hp as [-> | ->]; rewrite ?(bool_decide_eq_true_2 (peer_a ++ _ = peer_a ++ _)) by done;
      rewrite ?(bool_decide_eq_true_2 (peer_b ++ _ = peer_b ++ _)) by done; rewrite ?orb_true_r; by split.
  - intros p ns Hp%demo_peers ->%list_elem_of_singleton _. split; [by apply demo_serves|].
    unfold demo_copies. case_bool_decide; unfold alive_names, value_names; rewrite sort_hash_keys; vm_compute; lia.
Qed.

Lemma reconcile_exact_witness :
  let C := chrono_10000y in let O := some_order in
  let N := demo_net peer_a in let S := demo_serde in let P := demo_pages in
  exists s report, rebuild_consensus (fun _ => 7%N) ∅ (fun _ : unit => demo_time) 1 demo_galaxy (tt, demo_db)
    = (s, Some (inl report)) /\ rc_namespaces report = 1.
Proof.
  intros C O N S P.
  destruct (@reconcile_exact unit N S P C O (fun _ => 7%N) ∅ (fun _ => demo_time) demo_galaxy (fun _ => [feeds])
    (demo_copies peer_a) demo_time 1 tt demo_db ∅) as (w' & db' & report & _ & E & Er & _).
  - by apply demo_galaxy_answers; left.
  - apply empty_implements.
  - intros _. apply plausible_whole.
  - vm_compute. done.
  - exists (w', db'), report. split; [exact E|]. rewrite Er. vm_compute. reflexivity.
Defined.

(** A router that has counted one forwarded write of a value. *)
Definition demo_router `{HashOrder} : Database :=
  (write (fun _ => 7%N) ∅ (4000 * NANOS) demo_db ALL_NAMESPACE (lit "1.2.3.4") (4000 * NANOS) default_opts).1.

(** A namespace mirrored twice is walked on its first mirror only, and the
    union over the mirrors is not taken: when the first has not caught up yet,
    reconciling forgets a value that the second one holds, whose tally was
    right before the pass; with the mirrors the other way round it is kept. *)
Theorem reconcile_first_mirror_only :
  let C := chrono_10000y in let O := some_order in let S := demo_serde in let P := demo_pages in
  let tally_after full :=
    let r := @rebuild_consensus unit (demo_net full) S P O (fun _ => 7%N) ∅ (fun _ : unit => demo_time) 1 demo_galaxy
               (tt, demo_router) in
    (count_in (fun _ => 7%N) ∅ demo_time r.1.2 ALL_NAMESPACE (lit "1.2.3.4")).2 in
  (count_in (fun _ => 7%N) ∅ demo_time demo_router ALL_NAMESPACE (lit "1.2.3.4")).2 = 1%Z
  /\ tally_after peer_b = 0%Z /\ tally_after peer_a = 1%Z.
Proof. by vm_compute. Qed.
