(* ===== verification/Frame.v ===== *)
(** * What the operations of the database leave alone

    No reading or writing changes how the database is set up: its policy, what
    it stores, its name, where it is kept and the tiers of its shards.  And the
    operations that only read change nothing of the contents, however many
    shards they page in; they are the ones related by [unnoticed]. *)

From stdpp Require Import base numbers list strings gmap sorting pretty.
From S2P Require Import Prelude Text Activity Latest Attribute AttributeFacts Convergence Paths Acl Rejections Tags Tier Namespace Disk Database Contents Refine Consensus Eviction Service Accounted System Listing Peers Config Forward Stix.

(** How a database is set up. *)
Definition setup_of (d : Database) : DatabasePolicy * StoragePolicy * str * option Store * TierPolicy :=
  (policy d, stores d, node d, store d, tiers d).

(** A fold of steps that keep it keeps it. *)
Lemma setup_foldl {A B} (get : B -> Database) (f : B -> A -> B) b l :
  (forall b x, setup_of (get (f b x)) = setup_of (get b)) -> setup_of (get (foldl f b l)) = setup_of (get b).
Proof. intros Hf. revert b. induction l as [|x l IH]; intros b; simpl; [done|]. by rewrite IH. Qed.

Lemma setup_policy d d' : setup_of d' = setup_of d -> policy d' = policy d.
Proof. by intros [= ->]. Qed.

Section Setup.
Context `{Chrono} `{HashOrder} (digest32 : str -> N) (disk : Disk) (now : Z).

Lemma setup_put d name ns : setup_of (put_ns d name ns) = setup_of d.
Proof. done. Qed.
Lemma setup_mark d name : setup_of (mark_dirty d name) = setup_of d.
Proof. done. Qed.
Lemma setup_latest d l : setup_of (with_latest d l) = setup_of d.
Proof. done. Qed.
Lemma setup_activity d a : setup_of (with_activity d a) = setup_of d.
Proof. done. Qed.
Lemma setup_catalogue d name : setup_of (catalogue now d name) = setup_of d.
Proof. done. Qed.
Lemma setup_touch d shard : setup_of (touch now d shard) = setup_of d.
Proof. unfold touch. by case_match. Qed.
Lemma setup_uncatalogue d name : setup_of (uncatalogue d name) = setup_of d.
Proof. unfold uncatalogue. by case_match. Qed.

Lemma setup_page_in d shard d' : page_in digest32 disk now d shard = inl d' -> setup_of d' = setup_of d.
Proof. unfold page_in. repeat case_match; by intros [= <-]. Qed.

Lemma setup_namespace d name : setup_of (namespace digest32 disk now d name).1 = setup_of d.
Proof.
  unfold namespace. cbv zeta. rewrite <- (setup_touch d (shard_of name)).
  destruct (_ !! name); [done|]. destruct (negb _); [done|].
  destruct (page_in _ _ _ _ _) eqn:E; [|done]. by apply setup_page_in in E.
Qed.

Lemma setup_noc d name : setup_of (namespace_or_create digest32 disk now d name).1 = setup_of d.
Proof.
  unfold namespace_or_create. pose proof (setup_namespace d name) as Hn.
  destruct (namespace _ _ _ _ _) as [d1 [ns|]]; cbn [fst] in *; [done|].
  rewrite setup_catalogue, setup_put, <- Hn. destruct (shards d1 !! shard_of name) as [m|]; [|done].
  destruct (negb (resident m)); [|done].
  destruct (page_in _ _ _ _ _) eqn:E; [|done]. by apply setup_page_in in E.
Qed.

Lemma setup_count_in d path v : setup_of (count_in digest32 disk now d path v).1 = setup_of d.
Proof. apply setup_namespace. Qed.

Lemma setup_write_with bump d nd path v w opts tgs :
  (forall d v w, setup_of (bump d v w) = setup_of d) ->
  setup_of (record_write_with digest32 disk now bump d nd path v w opts tgs).1 = setup_of d.
Proof.
  intros Hb. unfold record_write_with. cbv zeta. cbn [fst]. rewrite setup_mark, setup_count_in.
  destruct (_ && _); rewrite ?Hb, setup_put; apply setup_noc.
Qed.

Lemma setup_record_write d nd path v w opts tgs :
  setup_of (record_write digest32 disk now d nd path v w opts tgs).1 = setup_of d.
Proof. apply setup_write_with. intros. by apply setup_write_with. Qed.

Lemma setup_write d path v w opts : setup_of (write digest32 disk now d path v w opts).1 = setup_of d.
Proof. unfold write, write_tagged. cbv zeta. cbn [fst]. apply setup_record_write. Qed.

Lemma setup_merge_in d path v i : setup_of (merge_in digest32 disk now d path v i).1 = setup_of d.
Proof.
  unfold merge_in. cbv zeta. cbn [fst].
  assert (Hw : forall b : bool, setup_of (if b then (write digest32 disk now (put_ns (namespace_or_create digest32 disk now d path).1 path
      (merge_value (namespace_or_create digest32 disk now d path).2 (node d) v i).1) ALL_NAMESPACE v now default_opts).1
      else put_ns (namespace_or_create digest32 disk now d path).1 path
      (merge_value (namespace_or_create digest32 disk now d path).2 (node d) v i).1) = setup_of d).
  { intros []; cbn [fst]; rewrite ?setup_write, setup_put; apply setup_noc. }
  destruct (changed _); [rewrite setup_mark|]; apply Hw.
Qed.

Lemma setup_set_tags d path v tgs : setup_of (set_tags_in digest32 disk now d path v tgs).1 = setup_of d.
Proof.
  unfold set_tags_in. cbv zeta. destruct (namespace _ _ _ d path).2; [|apply setup_namespace].
  cbn [fst]. destruct (retag _ _ _ _).2; apply setup_namespace.
Qed.

Lemma setup_create d name : setup_of (create_namespace digest32 disk now d name).1 = setup_of d.
Proof. unfold create_namespace. destruct (namespace_exists _ _); [done|]. apply setup_noc. Qed.

Lemma setup_release d v : setup_of (release_consensus digest32 disk now d v) = setup_of d.
Proof. unfold release_consensus. cbv zeta. destruct (namespace _ _ _ d _).2; apply setup_namespace. Qed.

Lemma setup_delete d name : setup_of (delete_namespace digest32 disk now d name).1 = setup_of d.
Proof.
  unfold delete_namespace. cbv zeta. destruct (namespace _ _ _ d name).2 as [ns|]; [|apply setup_namespace].
  cbn [fst]. destruct (bool_decide _); cbn [andb]; [|apply setup_namespace].
  transitivity (setup_of (uncatalogue (mark_dirty (with_namespaces (namespace digest32 disk now d name).1
    (delete name (namespaces (namespace digest32 disk now d name).1))) name) name)).
  - rewrite setup_latest. destruct (counts_towards_consensus name); [|done].
    apply (setup_foldl id (release_consensus digest32 disk now)). intros. apply setup_release.
  - rewrite setup_uncatalogue, setup_mark. apply setup_namespace.
Qed.

Lemma setup_client_write d origin ns v w t tgs :
  setup_of (client_write digest32 disk now d origin ns v w t tgs).1 = setup_of d.
Proof.
  unfold client_write. destruct (check _ _ _); [done|]. cbv zeta. cbn [fst]. unfold write_tagged_as.
  by rewrite setup_latest, setup_record_write, setup_activity.
Qed.

(** ** Reading *)
Definition unnoticed (d d' : Database) : Prop :=
  setup_of d' = setup_of d /\ forall abs, implements digest32 disk d abs -> implements digest32 disk d' abs.

#[export] Instance unnoticed_preorder : PreOrder unnoticed.
Proof.
  split; [by intros d; split|]. intros a b c [E1 H1] [E2 H2]. split; [congruence|auto].
Qed.

Lemma unnoticed_namespace d path : unnoticed d (namespace digest32 disk now d path).1.
Proof. split; [apply setup_namespace|]. intros abs Himp. by destruct (namespace_spec digest32 disk now d abs path Himp). Qed.

Lemma unnoticed_activity d a : unnoticed d (with_activity d a).
Proof. split; [done|]. intros abs Himp. by apply with_activity_implements. Qed.

Lemma unnoticed_foldl {A B} (get : B -> Database) (f : B -> A -> B) b l :
  (forall b x, unnoticed (get b) (get (f b x))) -> unnoticed (get b) (get (foldl f b l)).
Proof. intros Hf. revert b. induction l as [|x l IH]; intros b; simpl; [done|]. etransitivity; [apply Hf|apply IH]. Qed.

Lemma unnoticed_fill d acc views : unnoticed d (foldl (fill_consensus digest32 disk now) (d, acc) views).1.
Proof. apply (unnoticed_foldl fst _ (d, acc)). intros st vw. apply unnoticed_namespace. Qed.

Lemma unnoticed_value_count d ns : unnoticed d (value_count digest32 disk now d ns).1.
Proof.
  unfold value_count. cbv zeta.
  assert (Ht : unnoticed d (touch now d (shard_of ns))).
  { split; [apply setup_touch|]. intros abs. apply same_data_implements, touch_same. }
  destruct (_ !! ns); [exact Ht|]. etransitivity; [exact Ht|apply unnoticed_namespace].
Qed.

Lemma unnoticed_value_page d ns flt off limit st : unnoticed d (value_page digest32 disk now d ns flt off limit st).1.
Proof.
  unfold value_page. cbv zeta. destruct (namespace _ _ _ d ns).2; [|apply unnoticed_namespace].
  cbn [fst]. etransitivity; [apply unnoticed_namespace|apply unnoticed_fill].
Qed.

Lemma unnoticed_read_namespace d ns : unnoticed d (client_read_namespace digest32 disk now d ns).1.
Proof.
  unfold client_read_namespace. destruct (starts_with _ _); [done|]. cbv zeta. cbn [fst].
  etransitivity; [apply unnoticed_activity|]. unfold namespace_views. cbv zeta.
  destruct (namespace _ _ _ _ ns).2; [|apply unnoticed_namespace]. cbn [fst].
  etransitivity; [apply unnoticed_namespace|apply unnoticed_fill].
Qed.

Lemma unnoticed_search v target limit allowed from_disk names st :
  unnoticed (se_db st) (se_db (search digest32 disk now v target limit allowed from_disk names st).1).
Proof.
  revert st. induction names as [|n names IH]; intros st; cbn [search]; [done|].
  destruct (_ && _); [done|]. cbv zeta.
  pose proof (unnoticed_namespace (se_db st) n : unnoticed _ (view_in digest32 disk now (se_db st) n v 0 false).1) as Hv.
  repeat case_match; [..|]; try exact Hv; (etransitivity; [exact Hv|apply (IH (mkSearch _ _ _))]).
Qed.

Lemma unnoticed_sightings d v limit allowed : unnoticed d (sightings_of digest32 disk now d v limit allowed).1.
Proof.
  unfold sightings_of. cbv zeta. cbn [fst]. set (c := count_in _ _ _ _ _ _). set (r1 := search _ _ _ _ _ _ _ _ _ _).
  assert (H1 : unnoticed d (se_db r1.1)).
  { etransitivity; [|apply (unnoticed_search v c.2 limit allowed false _ (mkSearch c.1 0 _))]. apply unnoticed_namespace. }
  destruct r1.2; [exact H1|]. etransitivity; [exact H1|apply unnoticed_search].
Qed.

Section Exports.
Context `{StixLibs}.

Lemma unnoticed_read_pages flt names budget st : unnoticed (rd_db st) (rd_db (read_pages digest32 disk now flt budget names st)).
Proof.
  revert budget st. induction names as [|ns names IH]; intros budget st; cbn [read_pages]; [done|].
  destruct budget as [|b]; [done|]. cbv zeta.
  destruct (value_page _ _ _ _ _ _ _ _ _).2; (etransitivity; [apply unnoticed_value_page|apply (IH _ (mkReading _ _ _ _))]).
Qed.

Lemma unnoticed_export_namespaces d settings names flt limit untyped :
  unnoticed d (export_namespaces digest32 disk now d settings names flt limit untyped).1.
Proof. apply (unnoticed_read_pages flt names limit (mkReading d [] [] false)). Qed.

Lemma unnoticed_export_namespace d settings ns limit untyped :
  unnoticed d (export_namespace digest32 disk now d settings ns limit untyped).1.
Proof. apply unnoticed_export_namespaces. Qed.

Lemma unnoticed_export_value d settings ns value untyped :
  unnoticed d (export_value digest32 disk now d settings ns value untyped).1.
Proof. apply unnoticed_namespace. Qed.
End Exports.

(** A read that records the search counts it under [_shadow]. *)
Lemma setup_client_read d ns v st shadow : setup_of (client_read digest32 disk now d ns v st shadow).1 = setup_of d.
Proof.
  unfold client_read. destruct (starts_with _ _); [done|]. cbv zeta. cbn [fst]. destruct shadow.
  - unfold view_in. cbv zeta. cbn [fst]. by rewrite setup_write, setup_namespace, setup_count_in, setup_activity.
  - unfold view_in. cbv zeta. cbn [fst]. by rewrite setup_namespace, setup_count_in, setup_activity.
Qed.
End Setup.
