(* ===== verification/Handlers.v ===== *)
(** * The request handlers

    Models [src/src/handlers.rs]: the state a handler can reach, the check of
    the API key against the ACL, and the handlers for reading, writing,
    deleting, bulk reads and writes, the dry run, merging, and the listings a
    peer asks for.  The STIX export is in [Exporting].

    A handler runs with the network and the shared state, and gives an answer: a
    status, headers, and a body that [serde_json] will render, which is kept as
    the value it renders.  [clock] is the wall clock; the snapshot directory
    [disk] does not change while a handler runs. *)

From stdpp Require Import base numbers list strings gmap sorting pretty.
From S2P Require Import Prelude Text Activity Latest Attribute AttributeFacts Convergence Paths Acl Rejections Tags Tier Namespace Disk Database Contents Refine Consensus Eviction Service Accounted System Listing Peers Config Forward CatchUp.

(** ** State *)
Record SharedState := mkShared {
  db : Database;
  authenticate : bool;
  acl : Acl;
  rejections : Rejections;
  galaxy : option Galaxy;
  revoked : gmap str Z;
  acl_replaceable : bool;
  joining : bool;
  (** what the management interface edits and where it is written back *)
  vocabulary : Vocabulary;
  listen : str;
  acl_file : option str;
  tiers_file : option str;
  tags_file : option str;
  galaxy_peers_file : option str;
  (** how values are typed and published when they are exported *)
  stix_settings : StixSettings;
}.

Definition with_db (s : SharedState) (d : Database) : SharedState :=
  mkShared d (authenticate s) (acl s) (rejections s) (galaxy s) (revoked s) (acl_replaceable s) (joining s)
    (vocabulary s) (listen s) (acl_file s) (tiers_file s) (tags_file s) (galaxy_peers_file s) (stix_settings s).
Definition with_acl (s : SharedState) (a : Acl) : SharedState :=
  mkShared (db s) (authenticate s) a (rejections s) (galaxy s) (revoked s) (acl_replaceable s) (joining s)
    (vocabulary s) (listen s) (acl_file s) (tiers_file s) (tags_file s) (galaxy_peers_file s) (stix_settings s).
Definition with_rejections (s : SharedState) (r : Rejections) : SharedState :=
  mkShared (db s) (authenticate s) (acl s) r (galaxy s) (revoked s) (acl_replaceable s) (joining s)
    (vocabulary s) (listen s) (acl_file s) (tiers_file s) (tags_file s) (galaxy_peers_file s) (stix_settings s).
Definition with_galaxy (s : SharedState) (g : option Galaxy) : SharedState :=
  mkShared (db s) (authenticate s) (acl s) (rejections s) g (revoked s) (acl_replaceable s) (joining s)
    (vocabulary s) (listen s) (acl_file s) (tiers_file s) (tags_file s) (galaxy_peers_file s) (stix_settings s).
Definition with_revoked (s : SharedState) (r : gmap str Z) : SharedState :=
  mkShared (db s) (authenticate s) (acl s) (rejections s) (galaxy s) r (acl_replaceable s) (joining s)
    (vocabulary s) (listen s) (acl_file s) (tiers_file s) (tags_file s) (galaxy_peers_file s) (stix_settings s).
Definition with_vocabulary (s : SharedState) (v : Vocabulary) : SharedState :=
  mkShared (db s) (authenticate s) (acl s) (rejections s) (galaxy s) (revoked s) (acl_replaceable s) (joining s)
    v (listen s) (acl_file s) (tiers_file s) (tags_file s) (galaxy_peers_file s) (stix_settings s).
Definition set_catching_up (s : SharedState) (c : bool) : SharedState :=
  mkShared (db s) (authenticate s) (acl s) (rejections s) (galaxy s) (revoked s) (acl_replaceable s) c
    (vocabulary s) (listen s) (acl_file s) (tiers_file s) (tags_file s) (galaxy_peers_file s) (stix_settings s).

(** ** Revoked keys *)
Definition KEEP : nat := 1000.

(** [iter().min_by_key(..)]: the first of the least, in key order. *)
Definition oldest_revoked (m : gmap str Z) : option str :=
  match btree_iter m with
  | [] => None
  | x :: r => Some (foldl (fun best y => if bool_decide (y.2 < best.2)%Z then y else best) x r).1
  end.

(** [while revoked.len() > KEEP], taking the oldest off.  The fuel is the size
    of the map: every round takes one entry off. *)
Fixpoint trim_revoked (fuel : nat) (m : gmap str Z) : gmap str Z :=
  match fuel with
  | O => m
  | S f => if bool_decide (KEEP < size m)
           then match oldest_revoked m with Some k => trim_revoked f (delete k m) | None => m end
           else m
  end.

Definition note_revoked (now : Z) (s : SharedState) (key : str) : SharedState :=
  let m := <[key := timestamp now]> (revoked s) in with_revoked s (trim_revoked (size m) m).
Definition note_unrevoked (s : SharedState) (key : str) : SharedState := with_revoked s (delete key (revoked s)).

(** [sort_by] is stable: newest first, equal times in key order. *)
Definition newest_first (a b : str * Z) : Prop := (b.2 <= a.2)%Z.
#[export] Instance newest_first_dec a b : Decision (newest_first a b) := Z_le_dec _ _.
Definition revoked_keys (s : SharedState) : list str := (merge_sort newest_first (btree_iter (revoked s))).*1.

(** ** Requests and answers *)
Record HttpRequest := mkHttp { hdrs : Headers; uri_path : str; uri_query : option str }.

Definition path_and_query (req : HttpRequest) : str :=
  uri_path req ++ match uri_query req with Some q => lit "?" ++ q | None => [] end.

Record ReadQuery := mkReadQuery {
  q_val : option str; q_noshadow : option str; q_count : option str; q_for_merge : option str;
  q_offset : option nat; q_limit : option nat;
}.
Definition clamp_nat (lo hi n : nat) : nat := Nat.max lo (Nat.min hi n).
(** [ReadQuery::limit] *)
Definition read_limit (q : ReadQuery) : nat := clamp_nat 1 (N.to_nat 5000) (default 500 (q_limit q)).

Record WriteQuery := mkWriteQuery {
  w_val : option str; w_timestamp : option Z; w_ttl : option Z; w_tags : option str;
}.

Record BulkSighting := mkSight {
  b_namespace : str; b_value : str; b_timestamp : option Z; b_ttl : option Z; b_tags : str; b_noshadow : bool;
}.

(** How [serde] writes a bulk request out. *)
Definition json_opt (o : option Z) : Json := match o with Some z => JInt z | None => JNull end.
Definition sight_json (b : BulkSighting) : Json :=
  JObj [(lit "namespace", JStr (b_namespace b)); (lit "value", JStr (b_value b));
        (lit "timestamp", json_opt (b_timestamp b)); (lit "ttl", json_opt (b_ttl b));
        (lit "tags", JStr (b_tags b)); (lit "noshadow", JBool (b_noshadow b))].
Definition bulk_json (items : list BulkSighting) : Json := JObj [(lit "items", JArr (sight_json <$> items))].

Record MergeItem := mkMergeItem { mi_namespace : str; mi_offer : MergeOfferItem }.
(** [MergeItem::state] *)
Definition merge_item_state (i : MergeItem) : Merge := offer_state (mi_offer i).

Record BulkWriteItem := mkBulkItem {
  bi_index : nat; bi_namespace : str; bi_value : str; bi_status : str;
  bi_count : option Z; bi_new : option bool; bi_error : option str;
}.
Record BulkWriteError := mkBulkError { be_namespace : str; be_value : str; be_error : str }.
Record MergeResult := mkMergeResult {
  mr_index : nat; mr_namespace : str; mr_value : str; mr_status : str;
  mr_changed : option bool; mr_count : option Z; mr_ignored_self : option nat; mr_error : option str;
}.

Inductive BulkReadItem :=
  | Found (v : AttributeView)
  | ReadError_ (fields : list (str * str))
  | Relayed (j : Json).

Inductive Body :=
  | BMessage (m : str)
  | BFields (fields : list (str * str))
  | BCount (ns : str) (c : ValueCount)
  | BPage (ns : str) (page : Page (str * Merge))
  | BPayload (m : Merge)
  | BView (v : AttributeView)
  | BViews (l : list AttributeView)
  | BWritten (message : str) (count : Z) (is_new : bool)
  | BBulkRead (items : list BulkReadItem)
  | BBulkWrite (message : str) (written : nat) (items : list BulkWriteItem) (errors : list BulkWriteError)
  | BValidate (message : str) (writable : nat) (items : list BulkWriteItem) (errors : list BulkWriteError)
  | BMerge (message : str) (changed : nat) (items : list MergeResult) (errors : list BulkWriteError)
  | BNamespaces (l : list str)
  | BLatest (items : list Latest.Entry) (limit capacity : nat)
  | BHealth (resident_shards shards : nat) (uptime : Z) (catching_up : bool)
  | BBytes (b : bytes)
  | BJson (j : Json).

Record HttpResponse := mkHttpResponse { code : Z; resp_headers : list (str * str); content : Body }.
Definition answer_json (c : Z) (b : Body) : HttpResponse := mkHttpResponse c [] b.
Definition message_answer (c : Z) (m : str) : HttpResponse := answer_json c (BMessage m).

Definition OK : Z := 200.
Definition UNAUTHORIZED : Z := 401.
Definition INTERNAL_SERVER_ERROR : Z := 500.
Definition BAD_GATEWAY : Z := 502.
Definition LOOP_DETECTED : Z := 508.

Definition error_response (e : ApiError) : HttpResponse := answer_json (status e) (BFields (body e)).

(** ** Authorization *)
Inductive Access := ReadAccess | WriteAccess.
Definition verb (a : Access) : str := match a with ReadAccess => lit "read" | WriteAccess => lit "write" end.

(** [fingerprint] and [refusal], what the log says. *)
Definition fingerprint (digest32 : str -> N) (key : str) : str := hex8 (digest32 key).
Definition refusal (digest32 : str -> N) (peer key : str) (known : bool) (vb ns : str) : str :=
  let key := fingerprint digest32 key in
  if known then lit "Refused " ++ peer ++ lit ": key " ++ key ++ lit " may not " ++ vb ++ lit " '" ++ ns ++ lit "'"
  else lit "Refused " ++ peer ++ lit ": no such key " ++ key ++ lit ", asked to " ++ vb ++ lit " '" ++ ns ++ lit "'".

Definition api_key (s : SharedState) (req : HttpRequest) : option str + HttpResponse :=
  if negb (authenticate s) then inl None
  else
    match header (hdrs req) (lit "Authorization") with
    | None => inr (message_answer UNAUTHORIZED (lit "Please add the API key in the Authorization headers."))
    | Some None => inr (message_answer BAD_REQUEST (lit "Authorization header is not valid UTF-8."))
    | Some (Some key) => inl (Some key)
    end.

Definition refusal_for (s : SharedState) (apikey : option str) (ns : str) (access : Access) : option str :=
  match apikey with
  | None => None
  | Some key =>
      let allowed := match access with ReadAccess => can_read (acl s) key ns | WriteAccess => can_write (acl s) key ns end in
      if allowed then None
      else Some (lit "API key is not permitted to " ++ verb access ++ lit " this namespace.")
  end.

(** [None] is [Ok(())]. *)
Definition authorize (s : SharedState) (req : HttpRequest) (ns : str) (access : Access) : option HttpResponse :=
  match api_key s req with
  | inr resp => Some resp
  | inl apikey =>
      match refusal_for s apikey ns access with
      | None => None
      | Some message => Some (message_answer FORBIDDEN message)
      end
  end.

Definition may_read (s : SharedState) (apikey : option str) (name : str) : bool :=
  match apikey with None => true | Some key => can_read (acl s) key name end.

(** ** Forwarding decisions *)
Definition forward_failed (e : ForwardError) : HttpResponse :=
  message_answer match e with
                 | NoHolder => MISDIRECTED_REQUEST
                 | TooManyHops => LOOP_DETECTED
                 | _ => BAD_GATEWAY
                 end (forward_message e).

Definition origin_to_send (s : SharedState) (req : HttpRequest) : str :=
  default (node (db s)) (origin_of (hdrs req)).

(** Stored by somebody else, if by anybody. *)
Definition elsewhere (s : SharedState) (ns : str) : bool := negb (holds (stores (db s)) ns) && negb (is_internal ns).

Definition should_forward (s : SharedState) (req : HttpRequest) (ns : str) : option (Z + HttpResponse) :=
  if holds (stores (db s)) ns then None
  else
    match galaxy s with
    | None => None
    | Some g =>
        if is_internal ns then None
        else Some match hops_left (hdrs req) (max_hops g) with
                  | Some hops => inl hops
                  | None => inr (forward_failed TooManyHops)
                  end
    end.

(** [HttpResponseBuilder::insert_header] replaces a header of the same name. *)
Definition insert_header (hs : list (str * str)) (name value : str) : list (str * str) :=
  filter (fun p => eq_ignore_ascii_case p.1 name = false) hs ++ [(name, value)].

Definition CONTENT_TYPE : str := lit "content-type".
Definition relay_header (hs : list (str * str)) (p : str * str) : list (str * str) :=
  if eq_ignore_ascii_case p.1 CONTENT_TYPE then insert_header hs CONTENT_TYPE p.2 else insert_header hs p.1 p.2.

Definition relayed (answer : Forwarded) : HttpResponse :=
  let st := if bool_decide (100 <= fw_status answer < 1000)%Z then fw_status answer else BAD_GATEWAY in
  let hs := foldl relay_header [(lit "X-SightingDB-Forwarded", lit "1")] (fw_headers answer) in
  let typed := existsb (fun p => eq_ignore_ascii_case p.1 CONTENT_TYPE) (fw_headers answer) in
  mkHttpResponse st (if typed then hs else insert_header hs CONTENT_TYPE (lit "application/json"))
    (BBytes (fw_body answer)).

Definition AMPERSAND : N := 38.
Definition suppressing_shadow (req : HttpRequest) : str :=
  let query := default [] (uri_query req) in
  if is_empty query then uri_path req ++ lit "?noshadow"
  else if existsb (fun part => bool_decide (part = lit "noshadow") || starts_with (lit "noshadow=") part)
            (split_char AMPERSAND query)
  then uri_path req ++ lit "?" ++ query
  else uri_path req ++ lit "?" ++ query ++ lit "&noshadow".

(** What a batch answers, from its failures, its successes and how many of the
    failures the ACL made. *)
Definition batch_status (errors succeeded refusals : nat) : Z * str :=
  if bool_decide (errors = 0) then (OK, lit "ok")
  else if bool_decide (0 < succeeded) then (OK, lit "partial")
  else if bool_decide (refusals = errors) then (FORBIDDEN, lit "failed")
  else (BAD_REQUEST, lit "failed").

Section Handlers.
Context {W : Type} `{Network W} `{Serde} `{Chrono} `{HashOrder}.
Context (digest32 : str -> N) (digest64 : str -> N) (disk : Disk) (clock : W -> Z).

(** A handler: it may use the network and change the state. *)
Abbreviation Handler A := (Net (W * SharedState) A).

(** A read or a change of the database. *)
Definition on_db {A} (f : Z -> Database -> Database * A) : Handler A :=
  act (fun ws => let r := f (clock ws.1) (db ws.2) in ((ws.1, with_db ws.2 r.1), r.2)).
Definition get_state : Handler SharedState := act (fun ws => (ws, ws.2)).
Definition reject (ns v why : str) (from : Source) : Handler unit :=
  act (fun ws => ((ws.1, with_rejections ws.2 (rj_record (rejections ws.2) (timestamp (clock ws.1)) ns v why from)), tt)).

(** [state.db.write(path, value, Utc::now(), WriteOpts::default())] *)
Definition write_here (path v : str) : Handler unit :=
  on_db (fun now d => ((write digest32 disk now d path v now default_opts).1, tt)).

(** ** Reading *)
Definition do_read (req : HttpRequest) (ns : str) (q : ReadQuery) (with_stats : bool) : Handler HttpResponse :=
  s ← get_state;
  match authorize s req ns ReadAccess with
  | Some resp => mret resp
  | None =>
      match q_count q with
      | Some _ =>
          match q_val q with
          | Some _ => mret (message_answer BAD_REQUEST
              (lit "count applies to a namespace, not to one value. Drop val= to count, or drop count to read the value."))
          | None =>
              c ← on_db (fun now d => value_count digest32 disk now d ns);
              mret match c with
                   | Some k => answer_json OK (BCount ns k)
                   | None => error_response (ENotFound (not_found_namespace ns []))
                   end
          end
      | None =>
          match q_for_merge q with
          | Some _ =>
              match q_val q with
              | None =>
                  p ← on_db (fun now d => merge_page_in digest32 disk now d ns (default 0 (q_offset q)) (read_limit q));
                  mret match p with
                       | Some page => answer_json OK (BPage ns page)
                       | None => error_response (ENotFound (not_found_namespace ns []))
                       end
              | Some v =>
                  p ← on_db (fun now d => merge_payload_in digest32 disk now d ns v);
                  mret match p with
                       | Some payload => answer_json OK (BPayload payload)
                       | None => error_response (ENotFound (not_found_value ns v))
                       end
              end
          | None =>
              let with_shadow := match q_noshadow q with None => true | Some _ => false end in
              match q_val q with
              | Some v =>
                  r ← on_db (fun now d => client_read digest32 disk now d ns v with_stats with_shadow);
                  mret match r with inl view => answer_json OK (BView view) | inr e => error_response e end
              | None =>
                  if with_stats then
                    mret (message_answer BAD_REQUEST
                      (lit "Error: val= not found! Use /r/<namespace> to list a whole namespace."))
                  else
                    r ← on_db (fun now d => client_read_namespace digest32 disk now d ns);
                    mret match r with inl views => answer_json OK (BViews views) | inr e => error_response e end
              end
          end
      end
  end.

Definition forwarded_read (req : HttpRequest) (ns : str) (q : ReadQuery) : Handler (option HttpResponse) :=
  s ← get_state;
  match authorize s req ns ReadAccess with
  | Some resp => mret (Some resp)
  | None =>
      match should_forward s req ns with
      | None => mret None
      | Some (inr resp) => mret (Some resp)
      | Some (inl hops) =>
          match galaxy s with
          | None => mret None
          | Some g =>
              _ ← match q_noshadow q, q_val q with
                  | None, Some v => write_here (shadow_path ns) v
                  | _, _ => mret tt
                  end;
              r ← forward_read digest64 g ns (default [] (q_val q)) (suppressing_shadow req) hops [];
              mret (Some match r with inl answer => relayed answer | inr e => forward_failed e end)
          end
      end
  end.

(** [read] and [read_with_stats] *)
Definition read_handler (req : HttpRequest) (ns : str) (q : ReadQuery) (with_stats : bool) : Handler HttpResponse :=
  r ← forwarded_read req ns q;
  match r with Some resp => mret resp | None => do_read req ns q with_stats end.

(** ** Writing *)
Definition note_consensus (ns v : str) (answer : bytes) : Handler unit :=
  if negb (counts_towards_consensus ns) then mret tt
  else
    match from_slice answer with
    | None => mret tt
    | Some j =>
        match option_bind _ _ json_bool (json_get (lit "new") j) with
        | Some true => write_here ALL_NAMESPACE v
        | _ => mret tt
        end
    end.

(** One entry of [note_consensus_batch]. *)
Definition note_entry (entry : Json) : Handler unit :=
  match option_bind _ _ json_bool (json_get (lit "new") entry) with
  | Some true =>
      match option_bind _ _ json_str (json_get (lit "namespace") entry) with
      | None => mret tt
      | Some ns =>
          match option_bind _ _ json_str (json_get (lit "value") entry) with
          | None => mret tt
          | Some v => if negb (counts_towards_consensus ns) then mret tt else write_here ALL_NAMESPACE v
          end
      end
  | _ => mret tt
  end.

(** [query.timestamp.map(timestamp_to_instant).transpose()] *)
Definition parse_when (t : option Z) : option Z + ApiError :=
  match t with
  | None => inl None
  | Some z => match timestamp_to_instant z with inl w => inl (Some w) | inr e => inr e end
  end.

Definition write_handler (req : HttpRequest) (ns : str) (q : WriteQuery) : Handler HttpResponse :=
  s ← get_state;
  match authorize s req ns WriteAccess with
  | Some resp => mret resp
  | None =>
      match w_val q with
      | None => mret (message_answer BAD_REQUEST (lit "Did not receive a val= argument in the query string."))
      | Some v =>
          match should_forward s req ns, galaxy s with
          | Some (inr resp), _ => mret resp
          | Some (inl hops), Some g =>
              r ← forward_write g ns GET (path_and_query req) None hops (origin_to_send s req);
              match r with
              | inr e => mret (forward_failed e)
              | inl answers =>
                  match head (filter (fun a => is_success (fw_status a.2) = true) answers) with
                  | Some (_, answer) => _ ← note_consensus ns v (fw_body answer); mret (relayed answer)
                  | None => mret (forward_failed (AllDown ns))
                  end
              end
          | _, _ =>
              match parse_when (w_timestamp q) with
              | inr e => _ ← reject ns v (display e) SourceWrite; mret (error_response e)
              | inl w =>
                  r ← on_db (fun now d => client_write digest32 disk now d (origin_of (hdrs req)) ns v w (w_ttl q)
                               (default [] (w_tags q)));
                  match r with
                  | inl written => mret (answer_json OK (BWritten (lit "ok") (written_count written) (written_new written)))
                  | inr e => _ ← reject ns v (display e) SourceWrite; mret (error_response e)
                  end
              end
          end
      end
  end.

Definition delete_handler (req : HttpRequest) (ns : str) : Handler HttpResponse :=
  s ← get_state;
  match authorize s req ns WriteAccess with
  | Some resp => mret resp
  | None =>
      if is_internal ns then mret (error_response (InternalNamespace ns))
      else
        r ← on_db (fun now d => delete_namespace digest32 disk now d ns);
        mret (if r : bool then message_answer OK (lit "ok") else error_response (ENotFound (not_found_namespace ns [])))
  end.

(** ** Bulk writes *)
Inductive ItemCheck := CheckOk (w : option Z) | Refused (message : str) | Invalid (message : str).

Definition check_item (s : SharedState) (apikey : option str) (item : BulkSighting) : ItemCheck :=
  match refusal_for s apikey (b_namespace item) WriteAccess with
  | Some message => Refused message
  | None =>
      match check (db s) (b_namespace item) (b_value item) with
      | Some e => Invalid (display e)
      | None => match parse_when (b_timestamp item) with inl w => CheckOk w | inr e => Invalid (display e) end
      end
  end.

(** What a batch has answered so far. *)
Record Batch := mkBatch { ba_items : list BulkWriteItem; ba_errors : list BulkWriteError; ba_written : nat; ba_refusals : nat }.
Definition no_batch : Batch := mkBatch [] [] 0 0.

Definition item_ok (index : nat) (item : BulkSighting) (c : option Z) (n : option bool) : BulkWriteItem :=
  mkBulkItem index (b_namespace item) (b_value item) (lit "ok") c n None.
Definition item_failed (index : nat) (item : BulkSighting) (message : str) : BulkWriteItem :=
  mkBulkItem index (b_namespace item) (b_value item) (lit "error") None None (Some message).
Definition batch_ok (b : Batch) (index : nat) (item : BulkSighting) (c : option Z) (n : option bool) : Batch :=
  mkBatch (ba_items b ++ [item_ok index item c n]) (ba_errors b) (S (ba_written b)) (ba_refusals b).
Definition batch_failed (b : Batch) (index : nat) (item : BulkSighting) (message : str) (refused : bool) : Batch :=
  mkBatch (ba_items b ++ [item_failed index item message])
    (ba_errors b ++ [mkBulkError (b_namespace item) (b_value item) message])
    (ba_written b) (if refused then S (ba_refusals b) else ba_refusals b).

(** Writing an item this server stores, and what the batch says of it. *)
Definition write_item (apikey origin : option str) (b : Batch) (indexed : nat * BulkSighting) : Handler Batch :=
  let '(index, item) := indexed in
  s ← get_state;
  match check_item s apikey item with
  | CheckOk w =>
      r ← on_db (fun now d => client_write digest32 disk now d origin (b_namespace item) (b_value item) w (b_ttl item)
                   (b_tags item));
      match r with
      | inl done => mret (batch_ok b index item (Some (written_count done)) (Some (written_new done)))
      | inr e => _ ← reject (b_namespace item) (b_value item) (display e) BulkWrite; mret (batch_failed b index item (display e) false)
      end
  | Refused message =>
      _ ← reject (b_namespace item) (b_value item) message BulkWrite; mret (batch_failed b index item message true)
  | Invalid message =>
      _ ← reject (b_namespace item) (b_value item) message BulkWrite; mret (batch_failed b index item message false)
  end.

Definition enumerate {A} (l : list A) : list (nat * A) := imap (fun i x => (i, x)) l.

(** The items array of a peer's answer. *)
Definition items_of (answer : bytes) : option (list Json) :=
  match from_slice answer with
  | Some j => option_bind _ _ json_array (json_get (lit "items") j)
  | None => None
  end.

(** What the mirrors said of one item, in their order. *)
Definition said_of (peer_items : list (list Json)) (index : nat) : list Json := omap (fun l => l !! index) peer_items.
Definition is_ok (entry : Json) : bool :=
  bool_decide (option_bind _ _ json_str (json_get (lit "status") entry) = Some (lit "ok")).

(** An item somebody else stores. *)
Definition merge_elsewhere (g : option Galaxy) (peer_items : list (list Json)) (b : Batch) (index : nat) (item : BulkSighting) :
    Handler Batch :=
  match head (filter (fun e => is_ok e = true) (said_of peer_items index)) with
  | Some entry =>
      _ ← note_entry entry;
      mret (batch_ok b index item (option_bind _ _ json_u64 (json_get (lit "count") entry))
              (option_bind _ _ json_bool (json_get (lit "new") entry)))
  | None =>
      let nobody := match g with Some g => is_empty (peer_holders g (b_namespace item)) | None => false end in
      let message :=
        if nobody then forward_message NoHolder
        else default (lit "no server holding this namespace accepted it")
               (head (omap (fun e => option_bind _ _ json_str (json_get (lit "error") e)) (said_of peer_items index))) in
      mret (batch_failed b index item message false)
  end.

Definition merged_item (apikey origin : option str) (peer_items : list (list Json)) (b : Batch)
    (indexed : nat * BulkSighting) : Handler Batch :=
  s ← get_state;
  if holds (stores (db s)) (b_namespace indexed.2) || is_internal (b_namespace indexed.2)
  then b' ← write_item apikey origin b indexed;
       (** refusals are not counted apart here *)
       mret (mkBatch (ba_items b') (ba_errors b') (ba_written b') (ba_refusals b))
  else merge_elsewhere (galaxy s) peer_items b indexed.1 indexed.2.

Definition merged_batch (req : HttpRequest) (apikey : option str) (items : list BulkSighting)
    (answers : list (str * Forwarded)) : Handler HttpResponse :=
  let peer_items := omap (fun a => items_of (fw_body a.2)) answers in
  b ← net_fold (merged_item apikey (origin_of (hdrs req)) peer_items) no_batch (enumerate items);
  let '(st, message) :=
    if bool_decide (length (ba_errors b) = 0) then (OK, lit "ok")
    else if bool_decide (0 < ba_written b) then (OK, lit "partial")
    else (BAD_REQUEST, lit "failed") in
  mret (mkHttpResponse st [(lit "X-SightingDB-Forwarded", lit "1")]
          (BBulkWrite message (ba_written b) (ba_items b) (ba_errors b))).

Definition write_bulk_here (apikey origin : option str) (items : list BulkSighting) : Handler HttpResponse :=
  b ← net_fold (write_item apikey origin) no_batch (enumerate items);
  let '(st, message) := batch_status (length (ba_errors b)) (ba_written b) (ba_refusals b) in
  mret (answer_json st (BBulkWrite message (ba_written b) (ba_items b) (ba_errors b))).

(** [error_text] is what [serde_json] says of a body it cannot render. *)
Definition write_bulk (error_text : str) (req : HttpRequest) (items : list BulkSighting) : Handler HttpResponse :=
  s ← get_state;
  match api_key s req with
  | inr resp => mret resp
  | inl apikey =>
      let away := filter (fun ns => elsewhere s ns = true) (b_namespace <$> items) in
      match galaxy s with
      | Some g =>
          if is_empty away then write_bulk_here apikey (origin_of (hdrs req)) items
          else
            match hops_left (hdrs req) (max_hops g) with
            | None => mret (forward_failed TooManyHops)
            | Some hops =>
                match to_vec (bulk_json items) with
                | None => mret (message_answer INTERNAL_SERVER_ERROR (lit "could not forward the batch: " ++ error_text))
                | Some payload =>
                    r ← forward_batch g away (lit "/wb") payload hops (origin_to_send s req);
                    match r with
                    | inr e => mret (forward_failed e)
                    | inl answers => merged_batch req apikey items answers
                    end
                end
            end
      | None => write_bulk_here apikey (origin_of (hdrs req)) items
      end
  end.

(** One item of the dry run. *)
Definition validate_item (s : SharedState) (apikey : option str) (b : Batch) (indexed : nat * BulkSighting) : Batch :=
  let '(index, item) := indexed in
  match check_item s apikey item with
  | CheckOk _ => batch_ok b index item None None
  | Refused message => batch_failed b index item message true
  | Invalid message => batch_failed b index item message false
  end.

Definition validate_bulk (req : HttpRequest) (items : list BulkSighting) : Handler HttpResponse :=
  s ← get_state;
  match api_key s req with
  | inr resp => mret resp
  | inl apikey =>
      let b := foldl (validate_item s apikey) no_batch (enumerate items) in
      let '(st, message) := batch_status (length (ba_errors b)) (ba_written b) (ba_refusals b) in
      mret (answer_json st (BValidate message (ba_written b) (ba_items b) (ba_errors b)))
  end.
End Handlers.

(** ** Bulk reads, merging, and what a peer asks *)
Section MoreHandlers.
Context {W : Type} `{Network W} `{Serde} `{Chrono} `{HashOrder}.
Context (digest32 : str -> N) (digest64 : str -> N) (disk : Disk) (clock : W -> Z).
Abbreviation Handler A := (Net (W * SharedState) A).

Definition read_here (item : BulkSighting) (with_stats : bool) : Handler BulkReadItem :=
  r ← on_db clock (fun now d => client_read digest32 disk now d (b_namespace item) (b_value item) with_stats
                                  (negb (b_noshadow item)));
  mret match r with inl view => Found view | inr e => ReadError_ (body e) end.

Definition message_item (m : str) : BulkReadItem := ReadError_ [(lit "message", m)].

(** The first item of the request this key may not read refuses all of it. *)
Fixpoint authorize_all (s : SharedState) (req : HttpRequest) (items : list BulkSighting) : option HttpResponse :=
  match items with
  | [] => None
  | item :: rest =>
      match authorize s req (b_namespace item) ReadAccess with
      | Some resp => Some resp
      | None => authorize_all s req rest
      end
  end.

(** An item put with the mirror that will serve it. *)
Fixpoint group_with {A} (url : str) (index : A) (grouped : list (str * list A)) : list (str * list A) :=
  match grouped with
  | [] => [(url, [index])]
  | (known, indices) :: rest =>
      if bool_decide (known = url) then (known, indices ++ [index]) :: rest
      else (known, indices) :: group_with url index rest
  end.

Abbreviation ReadBatch := (list (option BulkReadItem) * list (str * list nat))%type.

(** One item of a bulk read: answered here, refused, or put aside for a mirror. *)
Definition place_item (hops : option Z) (with_stats : bool) (st : ReadBatch) (indexed : nat * BulkSighting) :
    Handler ReadBatch :=
  let '(index, item) := indexed in
  s ← get_state;
  match galaxy s with
  | Some g =>
      if elsewhere s (b_namespace item) then
        match hops with
        | None => mret (<[index := Some (message_item (forward_message TooManyHops))]> st.1, st.2)
        | Some _ =>
            match reader_url digest64 g (b_namespace item) (b_value item) with
            | inl url =>
                _ ← (if negb (b_noshadow item) then write_here digest32 disk clock (shadow_path (b_namespace item)) (b_value item)
                     else mret tt);
                mret (st.1, group_with url index st.2)
            | inr e => mret (<[index := Some (message_item (forward_message e))]> st.1, st.2)
            end
        end
      else r ← read_here item with_stats; mret (<[index := Some r]> st.1, st.2)
  | None => r ← read_here item with_stats; mret (<[index := Some r]> st.1, st.2)
  end.

(** The item as it is sent on: the search has been recorded already. *)
Definition without_shadow (item : BulkSighting) : BulkSighting :=
  mkSight (b_namespace item) (b_value item) (b_timestamp item) (b_ttl item) (b_tags item) true.

(** A mirror's answers put back at the indices they are for. *)
Definition fill_group (url : str) (parsed : option (list Json)) (answers : list (option BulkReadItem))
    (placed : nat * nat) : list (option BulkReadItem) :=
  let '(position, index) := placed in
  <[index := Some match parsed ≫= (fun got => got !! position) with
                  | Some entry => Relayed entry
                  | None => message_item (lit "No answer from " ++ url ++ lit " for this item.")
                  end]> answers.

(** One mirror asked for its items; [None] once the batch could not be rendered. *)
Definition fetch_group (error_text : str) (g : Galaxy) (items : list BulkSighting) (path : str) (hops : Z) (origin : str)
    (st : option (list (option BulkReadItem))) (group : str * list nat) : Handler (option (list (option BulkReadItem))) :=
  match st with
  | None => mret None
  | Some answers =>
      let sub := without_shadow <$> omap (fun index => items !! index) group.2 in
      match to_vec (bulk_json sub) with
      | None => mret None
      | Some payload =>
          r ← forward_to g group.1 POST path (Some payload) hops origin;
          let parsed := match r with inl answer => items_of (fw_body answer) | inr _ => None end in
          mret (Some (foldl (fill_group group.1 parsed) answers (enumerate group.2)))
      end
  end.

Definition do_read_bulk (error_text : str) (req : HttpRequest) (items : list BulkSighting) (with_stats : bool) :
    Handler HttpResponse :=
  s ← get_state;
  match authorize_all s req items with
  | Some resp => mret resp
  | None =>
      let hops := match galaxy s with Some g => hops_left (hdrs req) (max_hops g) | None => None end in
      st ← net_fold (place_item hops with_stats) (replicate (length items) None, []) (enumerate items);
      filled ← match galaxy s with
               | Some g =>
                   if is_empty st.2 then mret (Some st.1)
                   else net_fold (fetch_group error_text g items (if with_stats then lit "/rbs" else lit "/rb")
                                    (default 0%Z hops) (origin_to_send s req)) (Some st.1) st.2
               | None => mret (Some st.1)
               end;
      mret match filled with
           | None => message_answer INTERNAL_SERVER_ERROR (lit "could not forward the batch: " ++ error_text)
           | Some answers => answer_json OK (BBulkRead (default (message_item (lit "No answer for this item.")) <$> answers))
           end
  end.

(** ** Merging *)
Record MergeBatch := mkMergeBatch {
  mb_items : list MergeResult; mb_errors : list BulkWriteError; mb_changed : nat; mb_refusals : nat; mb_failures : nat;
}.

Definition merge_item (apikey : option str) (b : MergeBatch) (indexed : nat * MergeItem) : Handler MergeBatch :=
  let '(index, item) := indexed in
  let ns := mi_namespace item in
  let v := of_value (mi_offer item) in
  s ← get_state;
  let refused := refusal_for s apikey ns WriteAccess in
  match (match refused with Some message => Some message | None => display <$> check (db s) ns v end) with
  | Some message =>
      mret (mkMergeBatch
              (mb_items b ++ [mkMergeResult index ns v (lit "error") None None None (Some message)])
              (mb_errors b ++ [mkBulkError ns v message]) (mb_changed b)
              (match refused with Some _ => S (mb_refusals b) | None => mb_refusals b end) (S (mb_failures b)))
  | None =>
      outcome ← on_db clock (fun now d => merge_in digest32 disk now d ns v (merge_item_state item));
      mret (mkMergeBatch
              (mb_items b ++ [mkMergeResult index ns v (lit "ok") (Some (changed outcome)) (Some (merged_count outcome))
                                (Some (ignored_self outcome)) None])
              (mb_errors b) (if changed outcome then S (mb_changed b) else mb_changed b) (mb_refusals b) (mb_failures b))
  end.

Definition merge_handler (req : HttpRequest) (items : list MergeItem) : Handler HttpResponse :=
  s ← get_state;
  match api_key s req with
  | inr resp => mret resp
  | inl apikey =>
      b ← net_fold (merge_item apikey) (mkMergeBatch [] [] 0 0 0) (enumerate items);
      let '(st, message) := batch_status (mb_failures b) (length items - mb_failures b) (mb_refusals b) in
      mret (answer_json st (BMerge message (mb_changed b) (mb_items b) (mb_errors b)))
  end.

(** ** Listings *)
Definition namespaces_handler (req : HttpRequest) (prefix : option str) : Handler HttpResponse :=
  s ← get_state;
  match api_key s req with
  | inr resp => mret resp
  | inl apikey => mret (answer_json OK (BNamespaces (namespaces_under (db s) (default [] prefix) (may_read s apikey))))
  end.

Definition DEFAULT_LIMIT : nat := 100.
Definition latest_handler (req : HttpRequest) (limit : option nat) (since : option Z) (ns : option str) :
    Handler HttpResponse :=
  s ← get_state;
  match api_key s req with
  | inr resp => mret resp
  | inl apikey =>
      let limit := clamp_nat 1 Latest.MAX_LIMIT (default DEFAULT_LIMIT limit) in
      mret (answer_json OK (BLatest (Latest.recent (latest (db s)) limit since (default [] ns) (may_read s apikey)) limit
              (Latest.capacity (latest (db s)))))
  end.

(** [health], which needs no key; [started] is when the process came up. *)
Definition health_handler (started : Z) : Handler HttpResponse :=
  act (fun ws => let r := residency (db ws.2) in
    (ws, answer_json OK (BHealth r.1 r.2 (timestamp (clock ws.1 - started)) (joining ws.2)))).

(** [sync], the timer that catches up.  Before its loop: with nothing to catch up
    from, this server is as current as it is going to get. *)
Definition sync_start : Handler unit :=
  act (fun ws =>
    match galaxy ws.2 with
    | None => (ws, tt)
    | Some g => if bool_decide (sync_interval g = 0%Z) || is_empty (peers g)
                then ((ws.1, set_catching_up ws.2 false), tt) else (ws, tt)
    end).

(** One round of the loop: the flag reads consult is put down after the first
    full pass.  The result is whether the next pass is still the first. *)
Definition sync_round `{PageFormat} (fuel : nat) (first : bool) : Handler bool :=
  act (fun ws =>
    match galaxy ws.2 with
    | None => (ws, first)
    | Some g =>
        if is_empty (peers g) then (ws, first)
        else let r := catch_up digest32 disk clock fuel g first (ws.1, db ws.2) in
             let s := with_db ws.2 r.1.2 in
             ((r.1.1, if first then set_catching_up s false else s), false)
    end).
End MoreHandlers.
