(* ===== verification/Mirrors.v ===== *)
(** * A galaxy of mirrors

    Several servers store the same namespace.  Clients sight values on any of
    them ([sighting_writer::write], [Service.client_write]) and each catches up
    from the others by pulling their pages ([Galaxy::pull_namespace] of
    [src/src/galaxy.rs] against the [read] handler of [src/src/handlers.rs]).
    Here the network of one server is the handlers of the others, so the two
    sides meet: whatever order sightings and pulls came in, every copy is a
    summary of what was sighted ([Replicas]), and once one server has pulled from
    each and each from it, all of them answer with the number of sightings there
    were. *)

From stdpp Require Import base numbers list strings gmap functions.
From S2P Require Import Prelude Text Activity Latest Attribute AttributeFacts Convergence Paths Acl Rejections Tier Namespace Replicas Disk Database Contents Refine Consensus Eviction Service Peers Config Forward CatchUp CatchUpFacts Handlers.

(** ** The web between them *)

(** What DNS, HTTP and the router make of a URL, and [serde_json] of a body. *)
Record Routed := mkRouted {
  to_server : str; at_path : str; at_query : option str; for_namespace : str; with_params : ReadQuery
}.
Class Web := { web_route : str -> option Routed; web_json : Body -> bytes }.

(** Every server, by the name it goes by. *)
Abbreviation Servers := (str -> SharedState).

(** Nothing here asks a server that has to ask another. *)
Definition offline : Network unit :=
  {| exchange _ w := (w, inr []); have_client _ := true; response_json _ := None |}.

Section Mirrors.
Context `{Chrono} `{HashOrder} `{Serde} `{PageFormat} `{Web}.
Context (digest32 digest64 : str -> N) (disks : str -> Disk).

(** One server answers a read. *)
Definition answer_read (t : Z) (rq : Request) (to : Routed) (w : Servers) : Servers * HttpResponse :=
  let N := offline in
  let j := to_server to in
  let r := read_handler digest32 digest64 (disks j) (fun _ : unit => t)
             (mkHttp (rq_headers rq) (at_path to) (at_query to)) (for_namespace to) (with_params to) false (tt, w j) in
  (<[j := r.1.2]> w, r.2).

(** [client.request(..).send().await] and the reading of its body. *)
Definition body_within (b : bytes) (limit : Z) : bytes + str :=
  if bool_decide (Z.of_nat (length b) <= limit)%Z then inl b else inr (lit "payload too large").
Definition mirror_net (t : Z) : Network Servers := {|
  exchange rq w :=
    match web_route (rq_url rq) with
    | None => (w, inr (lit "cannot resolve the host"))
    | Some to =>
        let r := answer_read t rq to w in
        (r.1, inl (mkResponse (code r.2) [] (body_within (web_json (content r.2)))))
    end;
  have_client _ := true; response_json _ := None
|}.

(** ** What happens *)
Context (g : Galaxy) (peer_for : str -> Peer) (ns : str) (fuel : nat).

Inductive GalaxyEvent :=
  | Sight (t : Z) (i v : str) (seen : option Z) (tgs : str)
  | Pull (t : Z) (i j : str).

Definition sight (t : Z) (i v : str) (seen : option Z) (tgs : str) (w : Servers) : Servers :=
  <[i := with_db (w i) (client_write digest32 (disks i) t (db (w i)) None ns v seen None tgs).1]> w.

Definition pull (t : Z) (i j : str) (w : Servers) : Servers :=
  let N := mirror_net t in
  let r := pull_namespace digest32 (disks i) (fun _ => t) fuel g (peer_for j) ns (w, db (w i)) in
  <[i := with_db (r.1.1 i) r.1.2]> r.1.1.

Definition happen (w : Servers) (e : GalaxyEvent) : Servers :=
  match e with Sight t i v seen tgs => sight t i v seen tgs w | Pull t i j => pull t i j w end.

Definition sighted_in (e : GalaxyEvent) : option Sighted :=
  match e with Sight t i v seen tgs => Some (mkSighted i v (default t seen) tgs) | Pull _ _ _ => None end.
Definition history (es : list GalaxyEvent) : list Sighted := omap sighted_in es.

(** One server pulls from each of the others, then they from it. *)
Definition gather (t : Z) (hub : str) (others : list str) (w : Servers) : Servers := foldl (fun w j => pull t hub j w) w others.
Definition share_out (t : Z) (hub : str) (others : list str) (w : Servers) : Servers := foldl (fun w i => pull t i hub w) w others.

(** ** What is assumed of the parties *)
Context (servers : list str) (w0 : Servers).

Definition page_query (off : nat) : ReadQuery := mkReadQuery None None None (Some []) (Some off) (Some 500).

(** Whether a body is within the limit of 64 MiB. *)
Definition body_fits (b : Body) : Prop := (Z.of_nat (length (web_json b)) <= FORWARD_BODY_LIMIT)%Z.

(** The web delivers: a request for a page reaches the server it names; a page of
    copies that can be stored is read as it was written, if it is within the
    limit; and the answer that there is no such namespace is. *)
Record web_ok : Prop := {
  web_page : forall j off, j ∈ servers -> exists p q,
    web_route (p_url (peer_for j) ++ page_path ns off) = Some (mkRouted j p q ns (page_query off));
  web_parse : forall page, body_fits (BPage ns page) -> Forall (fun x => payload_ok x.2) (items page) ->
    parse_page (web_json (BPage ns page)) = inl (mkOfferPage (offer_of <$> items page) (total page));
  web_fits_404 : body_fits (content (error_response (ENotFound (not_found_namespace ns []))));
}.

(** The pages a server offers at a time are within the limit, *)
Definition pages_fit (t : Z) (j : str) (w : Servers) : Prop :=
  forall abs c off, implements digest32 (disks j) (db (w j)) abs -> abs !! ns = Some c ->
    body_fits (BPage ns (merge_page (mkNamespace c false) off PAGE t)).

(** and so are those of every pull of a run. *)
Fixpoint run_fits (w : Servers) (es : list GalaxyEvent) : Prop :=
  match es with
  | [] => True
  | e :: rest => match e with Pull t _ j => pages_fit t j w | Sight _ _ _ _ _ => True end /\ run_fits (happen w e) rest
  end.

Definition exchange_all (t : Z) (hub : str) (others : list str) : list GalaxyEvent :=
  (Pull t hub <$> others) ++ ((fun i => Pull t i hub) <$> others).

(** The servers at first: each goes by its own name, stores the namespace and
    holds nothing in it, and lets the others read it. *)
Record server_ok (i : str) (s : SharedState) : Prop := {
  so_node : node (db s) = i;
  so_shadow : is_u64 (shadow_ttl (policy (db s)));
  so_stores : holds (stores (db s)) ns = true;
  so_reads : forall p q path, authorize s (mkHttp (rq_headers (outgoing (peer_for i) GET path None 1 [])) p q) ns ReadAccess = None;
  so_empty : exists abs, implements digest32 (disks i) (db s) abs /\ a_values abs ns = ∅;
}.

(** Events between servers there are; sightings that are accepted, at times that
    can be stored. *)
Definition event_ok (e : GalaxyEvent) : Prop :=
  match e with
  | Sight t i v seen tgs => i ∈ servers /\ v <> [] /\ plausible t /\ plausible (default t seen)
                            /\ is_Some (from_timestamp (timestamp (default t seen)))
  | Pull t i j => i ∈ servers /\ j ∈ servers /\ i <> j /\ plausible t
  end.

(** ** The invariant *)

(** A server as it was at first but for its database, whose settings stay. *)
Definition settled (s0 s : SharedState) : Prop :=
  exists d, s = with_db s0 d /\ node d = node (db s0) /\ policy d = policy (db s0) /\ stores d = stores (db s0).

(** Its copy of the namespace. *)
Definition holds_copy (i : str) (s : SharedState) (c : NsData) : Prop :=
  exists abs, implements digest32 (disks i) (db s) abs /\ a_values abs ns = c.

Record copies_ok (h : list Sighted) (w : Servers) (copies : str -> NsData) : Prop := {
  co_settled : forall i, i ∈ servers -> settled (w0 i) (w i);
  co_copy : forall i, i ∈ servers -> holds_copy i (w i) (copies i);
  co_summary : forall i v a, i ∈ servers -> copies i !! v = Some a -> summarises h v a;
  co_own : forall i v, i ∈ servers -> fully_claims h v (copies i !! v) i;
}.

(** ** A server answers for its pages *)
Lemma stored_page nsp off limit t :
  merge_page nsp off limit t = merge_page (mkNamespace (stored_values (values nsp)) false) off limit t.
Proof.
  assert (Hn : alive_names nsp t = alive_names (mkNamespace (stored_values (values nsp)) false) t).
  { apply (sorted_set_unique str_le); auto using alive_sorted, alive_NoDup. intros v. rewrite !elem_of_alive.
    cbn [values]. unfold stored_values. rewrite lookup_fmap. destruct (values nsp !! v) as [a|]; cbn [fmap option_fmap option_map];
      split; intros (b & E & Hx); try done; injection E as <-; eexists; (split; [done|]); by rewrite is_expired_stored in *. }
  unfold merge_page. rewrite <- Hn. f_equal. cbn [values].
  induction (page_of off limit (alive_names nsp t)) as [|v l IH]; [done|]. cbn [omap list_omap]. unfold stored_values.
  rewrite lookup_fmap. destruct (values nsp !! v); cbn [fmap option_fmap option_map]; [rewrite as_merge_stored; f_equal|]; exact IH.
Qed.

Lemma page_read t off (w : Servers) j s d abs rq p q :
  w j = with_db s d -> implements digest32 (disks j) d abs -> holds (stores d) ns = true ->
  authorize s (mkHttp (rq_headers rq) p q) ns ReadAccess = None ->
  exists d', implements digest32 (disks j) d' abs /\ same_config d d'
    /\ answer_read t rq (mkRouted j p q ns (page_query off)) w
       = (<[j := with_db s d']> w,
          match abs !! ns with
          | Some c => answer_json OK (BPage ns (merge_page (mkNamespace c false) off PAGE t))
          | None => error_response (ENotFound (not_found_namespace ns []))
          end).
Proof.
  intros Hw Himp Hst Hau.
  destruct (namespace_spec digest32 (disks j) t d abs ns Himp) as (N1 & N2 & _ & _ & Hr).
  exists (namespace digest32 (disks j) t d ns).1. split; [done|]. split; [done|].
  unfold answer_read. cbn [to_server at_path at_query for_namespace with_params]. rewrite Hw.
  unfold read_handler, forwarded_read, mbind, Net_bind. cbv zeta. unfold get_state, act. cbn [fst snd].
  change (authorize (with_db s d)) with (authorize s). rewrite Hau. unfold should_forward. cbn [db with_db]. rewrite Hst.
  unfold mret, Net_ret. cbn [fst snd]. unfold do_read, mbind, Net_bind. cbv zeta. unfold get_state, act. cbn [fst snd].
  change (authorize (with_db s d)) with (authorize s). rewrite Hau. cbn [q_count q_for_merge q_val q_offset page_query].
  unfold on_db, act, merge_page_in. cbn [fst snd db with_db default from_option id].
  replace (read_limit (page_query off)) with PAGE by reflexivity.
  destruct (namespace digest32 (disks j) t d ns).2 as [nsp|]; destruct Hr as [Hr1 Hr2]; unfold mret, Net_ret; cbn [fst snd].
  - rewrite Hr2, (stored_page nsp). reflexivity.
  - rewrite Hr1. reflexivity.
Qed.

(** ** A pull *)
Lemma implements_wf d dsk abs path v a :
  implements digest32 dsk d abs -> a_values abs path !! v = Some a -> attr_wf a.
Proof.
  intros Himp Ha. destruct (namespace_spec digest32 dsk 0 d abs path Himp) as ([Hinv _] & _ & _ & _ & Hr).
  unfold a_values in Ha. destruct (namespace digest32 dsk 0 d path).2 as [nsp|]; destruct Hr as [Hr1 Hr2].
  - rewrite Hr2 in Ha. cbn [default from_option id] in Ha. unfold stored_values in Ha. apply lookup_fmap_Some in Ha as (b & <- & Hb).
    apply stored_attr_wf. by apply (ns_attr _ (ok_wf _ (inv_ns _ _ _ Hinv _ _ Hr1)) v).
  - rewrite Hr1 in Ha. cbn [default from_option id] in Ha. by rewrite lookup_empty in Ha.
Qed.

Lemma summary_alive h v a t : summarises h v a -> is_expired a t = false.
Proof. intros [_ _ _ _ _ [_ Ht]]. unfold is_expired, expires_at. by rewrite Ht. Qed.

Lemma summary_payload h v a : carried h -> summarises h v a -> attr_wf a -> payload_ok (as_merge a).
Proof.
  intros Hc Hs Hwf. destruct (sm_first _ _ _ Hs) as [_ Hf], (sm_last _ _ _ Hs) as [_ Hl].
  apply (carried_seen h v a _ Hc) in Hf, Hl.
  split; cbn [as_merge m_counts m_stats m_ttl m_first_seen m_last_seen]; try apply Hwf.
  - apply timestamp_mono, Hwf.
  - rewrite Hf, Hl. split; by eexists.
Qed.

(** No copy has more values than there were sightings. *)
Lemma copy_size (h : list Sighted) (c : NsData) (t : Z) :
  (forall v a, c !! v = Some a -> summarises h v a) -> length (alive_names (mkNamespace c false) t) <= length h.
Proof.
  intros Hc. rewrite <- (length_fmap of_what h). apply submseteq_length, NoDup_submseteq; [apply alive_NoDup|].
  intros v (a & Ha & _)%elem_of_alive. cbn [values] in Ha. destruct (sm_first _ _ _ (Hc _ _ Ha)) as [_ (e & Hk & _)].
  apply known_elem in Hk as [Hin <-]. by apply list_elem_of_fmap_2.
Qed.

(** The world while [i] pulls from [j]: only [j] has answered. *)
Definition only_answers (w : Servers) (j : str) (absj : Abs) (w' : Servers) : Prop :=
  (forall k, k <> j -> w' k = w k) /\ settled (w0 j) (w' j) /\ implements digest32 (disks j) (db (w' j)) absj.

Definition pulled_value (i v : str) (mine theirs : option Attribute) : option Attribute :=
  match theirs with
  | Some b => Some (stored_attr (merged (default (new v) mine) (as_merge b) i))
  | None => mine
  end.

Context (Hweb : web_ok) (Hok : forall i, i ∈ servers -> server_ok i (w0 i)) (Hint : is_internal ns = false) (Hfuel : 0 < fuel).

Lemma settled_stores s0 s : settled s0 s -> holds (stores (db s0)) ns = true -> holds (stores (db s)) ns = true.
Proof. intros (d & -> & _ & _ & Es). cbn [db with_db]. by rewrite Es. Qed.

Lemma exchange_page t j off w absj w1 :
  j ∈ servers -> only_answers w j absj w1 ->
  exists w' resp, only_answers w j absj w'
    /\ @exchange _ (mirror_net t) (outgoing (peer_for j) GET (page_path ns off) None 1 []) w1
       = (w', inl (mkResponse (code resp) [] (body_within (web_json (content resp)))))
    /\ resp = match absj !! ns with
              | Some c => answer_json OK (BPage ns (merge_page (mkNamespace c false) off PAGE t))
              | None => error_response (ENotFound (not_found_namespace ns []))
              end.
Proof.
  intros Hj (Ho & Hs & Hi). destruct (Hok j Hj) as [_ _ Hst Hau _].
  pose proof (settled_stores _ _ Hs Hst) as Hst1. pose proof Hs as (d & Hd & En & Ep & Es). rewrite Hd in Hi, Hst1.
  cbn [db with_db] in Hi, Hst1. destruct (web_page Hweb j off Hj) as (p & q & Hr).
  destruct (page_read t off w1 j (w0 j) d absj (outgoing (peer_for j) GET (page_path ns off) None 1 []) p q Hd Hi Hst1)
    as (d' & I1 & (E1 & E2 & E3 & _) & E); [apply Hau|].
  exists (<[j := with_db (w0 j) d']> w1). eexists. split; [|split; [|reflexivity]].
  - split; [|split].
    + intros k Hk. rewrite fn_lookup_insert_ne by done. by apply Ho.
    + rewrite fn_lookup_insert. exists d'. split_and!; congruence.
    + rewrite fn_lookup_insert. exact I1.
  - cbn [exchange mirror_net]. cbn [rq_url outgoing]. rewrite Hr. cbv zeta. rewrite E. reflexivity.
Qed.

Lemma run_fits_app w a b : run_fits w (a ++ b) <-> run_fits w a /\ run_fits (foldl happen w a) b.
Proof. revert w. induction a as [|e a IH]; intros w; cbn [app run_fits foldl]; [tauto|]. rewrite IH. tauto. Qed.

Lemma gather_happens t hub others w : foldl happen w (Pull t hub <$> others) = gather t hub others w.
Proof. revert w. induction others as [|j others IH]; intros w; [done|]. apply IH. Qed.

(** A page of a copy that can be stored offers what can be stored. *)
Lemma page_payloads c off t :
  (forall v b, c !! v = Some b -> payload_ok (as_merge b)) ->
  Forall (fun x => payload_ok x.2) (items (merge_page (mkNamespace c false) off PAGE t)).
Proof.
  intros Hc. apply Forall_forall. intros [v b] Hin%list_elem_of_In. unfold merge_page in Hin. cbn [items values] in Hin.
  apply list_elem_of_omap in Hin as (u & _ & Hu). destruct (c !! u) as [a|] eqn:E; [|done]. cbn in Hu. injection Hu as <- <-. eauto.
Qed.

Lemma pull_namespace_mirror h t i j w absj absi :
  pages_fit t j w -> j ∈ servers -> only_answers w j absj w -> carried h -> length h <= fuel * PAGE -> plausible t ->
  (forall v b, a_values absj ns !! v = Some b -> summarises h v b) ->
  implements digest32 (disks i) (db (w i)) absi -> is_u64 (shadow_ttl (policy (db (w i)))) -> node (db (w i)) = i ->
  exists w' db' m absi',
    @pull_namespace _ (mirror_net t) _ _ digest32 (disks i) (fun _ => t) fuel g (peer_for j) ns (w, db (w i)) = ((w', db'), Some m)
    /\ only_answers w j absj w' /\ implements digest32 (disks i) db' absi' /\ same_config (db (w i)) db'
    /\ forall v, a_values absi' ns !! v = pulled_value i v (a_values absi ns !! v) (a_values absj ns !! v).
Proof.
  intros Hfit Hj Hw Hca Hlen Ht Hsum Himp Hsh Hnode. pose proof Hw as (_ & _ & Himpj).
  assert (Hpay : forall v b, a_values absj ns !! v = Some b -> payload_ok (as_merge b)).
  { intros v b Hb. eapply summary_payload; [done|by apply Hsum|by eapply implements_wf]. }
  destruct (absj !! ns) as [c|] eqn:Ec.
  - assert (Ej : a_values absj ns = c) by (unfold a_values; by rewrite Ec).
    assert (Hserve : @serves_while _ (mirror_net t) _ _ g (peer_for j) ns (only_answers w j absj) (mkNamespace c false) t).
    { split; [done|]. intros off w1 Hw1. destruct (exchange_page t j off w absj w1 Hj Hw1) as (w2 & resp & Hw2 & Hx & Hresp).
      rewrite Ec in Hresp. subst resp. eexists w2, _, _. split; [exact Hx|]. split; [done|]. split; [done|].
      cbn [rs_body content answer_json]. unfold body_within. pose proof (Hfit absj c off Himpj Ec) as Hpage.
      rewrite bool_decide_eq_true_2 by exact Hpage. split; [reflexivity|]. apply (web_parse Hweb); [exact Hpage|].
      apply page_payloads. by rewrite <- Ej. }
    destruct (@pull_spec _ (mirror_net t) _ _ _ digest32 (disks i) (fun _ => t) g (peer_for j) ns _ _ t fuel w (db (w i)) absi
      Hserve Hw Hfuel) as (w' & db' & m & absi' & I1 & I2 & I3 & I4 & I5 & _); [|done|done|done|done| |].
    + etransitivity; [|exact Hlen]. apply copy_size. by rewrite <- Ej.
    + intros v b. unfold merge_payload. cbn [values]. rewrite <- Ej. destruct (a_values absj ns !! v) as [a|] eqn:Ea; [|done].
      rewrite (summary_alive h v a t) by auto. intros [= <-]. by eapply Hpay.
    + exists w', db', m, absi'. split; [exact I2|]. split_and!; [done|done|done|]. intros v. rewrite I5, Hnode. unfold merge_payload, value_after, pulled_value.
      cbn [values]. rewrite <- Ej. destruct (a_values absj ns !! v) as [a|] eqn:Ea; [|done].
      by rewrite (summary_alive h v a t) by auto.
  - destruct (exchange_page t j 0 w absj w Hj Hw) as (w2 & resp & Hw2 & Hx & Hresp). rewrite Ec in Hresp.
    exists w2, (db (w i)), 0, absi. split_and!; [|done|done|done|].
    + unfold pull_namespace. destruct fuel as [|f]; [lia|]. cbn [pull_loop]. unfold ask, send, mbind, Net_bind.
      cbn [have_client net_with mirror_net negb]. cbv zeta. cbn [fst snd]. cbn [exchange net_with]. cbn [fst snd].
      rewrite Hx. unfold mret, Net_ret. cbn [fst snd rs_body]. subst resp. unfold body_within.
      rewrite bool_decide_eq_true_2 by exact (web_fits_404 Hweb). reflexivity.
    + intros v. unfold pulled_value. assert (a_values absj ns !! v = None) as ->; [|done].
      unfold a_values. rewrite Ec. apply lookup_empty.
Qed.

(** ** Every event keeps the copies summaries *)
Lemma settled_with_db s0 s d :
  settled s0 s -> node d = node (db s) -> policy d = policy (db s) -> stores d = stores (db s) -> settled s0 (with_db s d).
Proof. intros (d0 & -> & E1 & E2 & E3) F1 F2 F3. exists d. cbn [db with_db] in *. split_and!; congruence || done. Qed.

Lemma settled_server i s : i ∈ servers -> settled (w0 i) s -> node (db s) = i /\ is_u64 (shadow_ttl (policy (db s))).
Proof. intros Hi (d & -> & E1 & E2 & _). cbn [db with_db]. rewrite E1, E2. by split; apply (Hok i Hi). Qed.

Lemma pulled_claims h i v mine theirs :
  carried h -> (Z.of_nat (length h) < U64_MODULUS)%Z ->
  (forall a, mine = Some a -> summarises h v a) -> (forall b, theirs = Some b -> summarises h v b) ->
  fully_claims h v mine i ->
  (forall a, pulled_value i v mine theirs = Some a -> summarises h v a)
  /\ forall y, claims (pulled_value i v mine theirs) y = claims mine y `max` claims theirs y.
Proof.
  intros Hca Hb Hm Ht Hown. destruct theirs as [b|]; cbn [pulled_value claims]; [|split; [done|intros y; lia]].
  destruct (summarises_merge h i v mine b Hca Hb Hm (Ht b eq_refl)) as [S1 S2].
  { unfold fully_claims in Hown. rewrite Hown. by apply claimed_le, Ht. }
  split; [by intros a [= <-]|exact S2].
Qed.

Lemma pull_step h w copies t i j :
  pages_fit t j w -> copies_ok h w copies -> carried h -> (Z.of_nat (length h) < U64_MODULUS)%Z -> length h <= fuel * PAGE ->
  i ∈ servers -> j ∈ servers -> i <> j -> plausible t ->
  exists copies', copies_ok h (pull t i j w) copies' /\ (forall k, k <> i -> copies' k = copies k)
    /\ forall v y, claims (copies' i !! v) y = claims (copies i !! v) y `max` claims (copies j !! v) y.
Proof.
  intros Hfit [Cs Cc Csum Cown] Hca Hb Hlen Hi Hj Hij Ht.
  destruct (Cc i Hi) as (absi & Himpi & Ei), (Cc j Hj) as (absj & Himpj & Ej).
  destruct (settled_server i (w i) Hi (Cs i Hi)) as [Hnode Hsh].
  assert (Hw : only_answers w j absj w) by (split; [done|split; [by apply Cs|done]]).
  destruct (pull_namespace_mirror h t i j w absj absi Hfit Hj Hw Hca Hlen Ht) as (w' & db' & m & absi' & Hrun & (Ho & Hs & Himpj') & I1 & I2 & I3);
    [rewrite Ej; intros v b; by apply Csum|done|done|done|].
  assert (Ep : pull t i j w = <[i := with_db (w' i) db']> w') by (unfold pull; cbv zeta; by rewrite Hrun).
  rewrite Ep. clear Ep Hrun. destruct I2 as (E1 & E2 & E3 & _).
  assert (Hvals : forall v, (forall a, pulled_value i v (copies i !! v) (copies j !! v) = Some a -> summarises h v a)
    /\ forall y, claims (pulled_value i v (copies i !! v) (copies j !! v)) y = claims (copies i !! v) y `max` claims (copies j !! v) y).
  { intros v. apply pulled_claims; auto; intros a; by apply Csum. }
  rewrite Ei, Ej in I3.
  exists (<[i := a_values absi' ns]> copies). split; [|split].
  - split.
    + intros k Hk. destruct (decide (k = i)) as [->|Hki].
      * rewrite fn_lookup_insert, (Ho i) by done. apply settled_with_db; [by apply Cs|done|done|done].
      * rewrite fn_lookup_insert_ne by done. destruct (decide (k = j)) as [->|Hkj]; [done|]. rewrite Ho by done. by apply Cs.
    + intros k Hk. destruct (decide (k = i)) as [->|Hki].
      * rewrite !fn_lookup_insert. by exists absi'.
      * rewrite !fn_lookup_insert_ne by done. destruct (decide (k = j)) as [->|Hkj]; [by exists absj|].
        rewrite Ho by done. by apply Cc.
    + intros k v a Hk. destruct (decide (k = i)) as [->|Hki].
      * rewrite fn_lookup_insert, I3. apply Hvals.
      * rewrite fn_lookup_insert_ne by done. by apply Csum.
    + intros k v Hk. destruct (decide (k = i)) as [->|Hki]; [|rewrite fn_lookup_insert_ne by done; by apply Cown].
      rewrite fn_lookup_insert. unfold fully_claims. rewrite I3, (proj2 (Hvals v)). pose proof (Cown i v Hi) as Ho'. unfold fully_claims in Ho'.
      rewrite Ho'. destruct (copies j !! v) as [b|] eqn:Eb; cbn [claims]; [|lia].
      pose proof (claimed_le h v b i (Csum j v b Hj Eb)). lia.
  - intros k Hk. by rewrite fn_lookup_insert_ne.
  - intros v y. rewrite fn_lookup_insert, I3. apply Hvals.
Qed.

Lemma write_values abs self nd v w t keep tgs c u :
  a_values (a_write abs self nd ns v w t keep tgs c) ns !! u
  = if bool_decide (u = v) then Some (stored_attr (write_attr (default (new v) (a_values abs ns !! v)) nd w t keep tgs))
    else a_values abs ns !! u.
Proof.
  assert (Hns : ns <> ALL_NAMESPACE) by (intros E; by rewrite E in Hint).
  assert (E : a_values (a_write abs self nd ns v w t keep tgs c) ns = a_values (a_record abs nd ns v w t keep tgs) ns).
  { unfold a_write. destruct (_ && _); [by apply a_values_record|done]. }
  rewrite E. unfold a_values at 1, a_record, a_update. rewrite lookup_insert_eq. cbn [default from_option id].
  case_bool_decide as Hu; [subst; by rewrite lookup_insert_eq|by rewrite lookup_insert_ne].
Qed.

Lemma said_other h e x v : by_server e <> x \/ of_what e <> v -> said (h ++ [e]) x v = said h x v.
Proof. intros Hne. rewrite said_app, decide_False by tauto. apply app_nil_r. Qed.

Lemma sight_step h w copies t i v seen tgs :
  copies_ok h w copies -> (Z.of_nat (length h) + 1 < U64_MODULUS)%Z -> event_ok (Sight t i v seen tgs) ->
  exists copies', copies_ok (h ++ [mkSighted i v (default t seen) tgs]) (sight t i v seen tgs w) copies'.
Proof.
  intros [Cs Cc Csum Cown] Hb (Hi & Hv & Ht & Hts & _). set (e := mkSighted i v (default t seen) tgs).
  destruct (Cc i Hi) as (abs & Himp & Ea). destruct (settled_server i (w i) Hi (Cs i Hi)) as [Hnode Hsh].
  assert (Hck : check (db (w i)) ns v = None).
  { unfold check. rewrite Hint, (settled_stores _ _ (Cs i Hi) (so_stores _ _ (Hok i Hi))). by destruct v. }
  destruct (client_write_accepted digest32 (disks i) t (db (w i)) abs None ns v seen None tgs Himp I Hsh Hts Hck)
    as (I1 & I2 & I3 & I4 & _). cbn [default from_option id] in I1. rewrite Hnode in I1.
  set (d := (client_write digest32 (disks i) t (db (w i)) None ns v seen None tgs).1) in *.
  set (abs' := a_write abs i i ns v _ _ _ tgs true) in *.
  assert (Hown := Cown i v Hi).
  destruct (summarises_write h i v (default t seen) tgs (stats_retention (policy (db (w i)))) (copies i !! v)) as (S1 & S2 & S3);
    [intros b; by apply Csum|done|done|]. fold e in S1.
  assert (Hval : forall u, a_values abs' ns !! u
    = if bool_decide (u = v) then Some (stored_attr (write_attr (default (new v) (copies i !! v)) i (default t seen) None
        (stats_retention (policy (db (w i)))) tgs)) else copies i !! u).
  { intros u. unfold abs'. by rewrite write_values, Ea. }
  exists (<[i := a_values abs' ns]> copies). unfold sight. fold d. split.
  - intros k Hk. destruct (decide (k = i)) as [->|Hki]; [rewrite fn_lookup_insert|rewrite fn_lookup_insert_ne by done; by apply Cs].
    apply settled_with_db; [by apply Cs|done|done|done].
  - intros k Hk. destruct (decide (k = i)) as [->|Hki]; [|rewrite !fn_lookup_insert_ne by done; by apply Cc].
    rewrite !fn_lookup_insert. by exists abs'.
  - intros k u a Hk. destruct (decide (k = i)) as [->|Hki];
      [|rewrite fn_lookup_insert_ne by done; intros Ha; by eapply summarises_grow, Csum].
    rewrite fn_lookup_insert, Hval. case_bool_decide as Hu; [subst u; by intros [= <-]|].
    intros Ha. by eapply summarises_grow, Csum.
  - intros k u Hk. unfold fully_claims. destruct (decide (k = i)) as [->|Hki].
    + rewrite fn_lookup_insert, Hval. case_bool_decide as Hu.
      * subst u. cbn [claims]. rewrite S2, said_app, decide_True, length_app by done. simpl. lia.
      * rewrite said_other by (right; cbn; congruence). by apply Cown.
    + rewrite fn_lookup_insert_ne by done. rewrite said_other by (left; cbn; congruence). by apply Cown.
Qed.

Lemma copies_start : exists copies, copies_ok [] w0 copies.
Proof.
  exists (fun _ => ∅). split.
  - intros i Hi. exists (db (w0 i)). split_and!; try done. by destruct (w0 i).
  - intros i Hi. apply (Hok i Hi).
  - intros i v a _ Ha. by rewrite lookup_empty in Ha.
  - intros i v _. unfold fully_claims. by rewrite lookup_empty.
Qed.

Lemma history_snoc es e : history (es ++ [e]) = history es ++ (match sighted_in e with Some x => [x] | None => [] end).
Proof. unfold history. rewrite omap_app. cbn [omap list_omap]. by destruct (sighted_in e). Qed.

Lemma run_copies es :
  Forall event_ok es -> run_fits w0 es -> (Z.of_nat (length (history es)) < U64_MODULUS)%Z -> length (history es) <= fuel * PAGE ->
  carried (history es) /\ Forall (fun e => by_server e ∈ servers) (history es)
  /\ exists copies, copies_ok (history es) (foldl happen w0 es) copies.
Proof.
  induction es as [|e es IH] using rev_ind; intros Hev Hfit Hb Hlen.
  { split; [constructor|]. split; [constructor|apply copies_start]. }
  apply run_fits_app in Hfit as [Hfit [Hfe _]].
  rewrite Forall_app, Forall_singleton in Hev. destruct Hev as [Hev He]. rewrite history_snoc in *. rewrite length_app in *.
  destruct IH as (Hca & Hby & copies & Hc); [done|done|lia|lia|]. rewrite foldl_app. cbn [foldl].
  destruct e as [t i v seen tgs|t i j]; cbn [sighted_in happen] in *.
  - cbn [length] in *. destruct (sight_step _ _ copies t i v seen tgs Hc ltac:(lia) He) as [copies' Hc'].
    destruct He as (Hi & _ & _ & _ & Hts). split_and!; [| |by exists copies'].
    + apply Forall_app. split; [done|by apply Forall_singleton].
    + apply Forall_app. split; [done|by apply Forall_singleton].
  - rewrite !app_nil_r in *. destruct He as (Hi & Hj & Hij & Ht). split; [done|]. split; [done|]. simpl in Hb, Hlen.
    destruct (pull_step _ _ copies t i j Hfe Hc Hca ltac:(lia) ltac:(lia) Hi Hj Hij Ht) as (copies' & Hc' & _). by exists copies'.
Qed.

Lemma gather_copies h w copies t hub others :
  run_fits w (Pull t hub <$> others) -> copies_ok h w copies -> carried h -> (Z.of_nat (length h) < U64_MODULUS)%Z -> length h <= fuel * PAGE -> plausible t ->
  hub ∈ servers -> Forall (fun j => j ∈ servers /\ j <> hub) others ->
  exists copies', copies_ok h (gather t hub others w) copies' /\ (forall k, k <> hub -> copies' k = copies k)
    /\ forall v y, claims (copies hub !! v) y <= claims (copies' hub !! v) y
       /\ forall j, j ∈ others -> claims (copies j !! v) y <= claims (copies' hub !! v) y.
Proof.
  intros Hfit Hc Hca Hb Hlen Ht Hhub Hothers. revert w copies Hfit Hc.
  induction Hothers as [|j others [Hj Hne] _ IH]; intros w copies Hfit Hc.
  { exists copies. split; [done|]. split; [done|]. intros v y. split; [lia|]. intros j Hj. by apply not_elem_of_nil in Hj. }
  destruct Hfit as [Hf Hfit]. destruct (pull_step h w copies t hub j Hf Hc Hca Hb Hlen Hhub Hj ltac:(done) Ht) as (c1 & Hc1 & Hk1 & Hm1).
  destruct (IH _ c1 Hfit Hc1) as (c2 & Hc2 & Hk2 & Hm2). exists c2. split; [exact Hc2|]. split.
  - intros k Hk. rewrite Hk2, Hk1; done.
  - intros v y. destruct (Hm2 v y) as [H1' H2']. rewrite Hm1 in H1'. split; [lia|].
    intros k [->|Hk]%elem_of_cons; [lia|]. specialize (H2' k Hk).
    destruct (decide (k = hub)) as [->|Hkh]; [lia|]. rewrite Hk1 in H2' by done. lia.
Qed.

Lemma share_out_copies h w copies t hub others :
  run_fits w ((fun i => Pull t i hub) <$> others) -> copies_ok h w copies -> carried h -> (Z.of_nat (length h) < U64_MODULUS)%Z -> length h <= fuel * PAGE -> plausible t ->
  hub ∈ servers -> Forall (fun j => j ∈ servers /\ j <> hub) others ->
  exists copies', copies_ok h (share_out t hub others w) copies' /\ copies' hub = copies hub
    /\ (forall k v y, claims (copies k !! v) y <= claims (copies' k !! v) y)
    /\ forall j v y, j ∈ others -> claims (copies hub !! v) y <= claims (copies' j !! v) y.
Proof.
  intros Hfit Hc Hca Hb Hlen Ht Hhub Hothers. revert w copies Hfit Hc.
  induction Hothers as [|j others [Hj Hne] _ IH]; intros w copies Hfit Hc.
  { exists copies. split_and!; try done. intros j v y Hj. by apply not_elem_of_nil in Hj. }
  destruct Hfit as [Hf Hfit]. destruct (pull_step h w copies t j hub Hf Hc Hca Hb Hlen Hj Hhub Hne Ht) as (c1 & Hc1 & Hk1 & Hm1).
  destruct (IH _ c1 Hfit Hc1) as (c2 & Hc2 & Hh2 & Hm2 & Hall2). rewrite (Hk1 hub) in * by done. exists c2.
  assert (Hmono : forall k v y, claims (copies k !! v) y <= claims (c1 k !! v) y).
  { intros k v y. destruct (decide (k = j)) as [->|Hk]; [rewrite Hm1; lia|by rewrite Hk1]. }
  split; [exact Hc2|]. split; [done|]. split.
  - intros k v y. specialize (Hmono k v y). specialize (Hm2 k v y). lia.
  - intros k v y [->|Hk]%elem_of_cons; [|by apply Hall2]. specialize (Hm2 j v y). rewrite Hm1 in Hm2. lia.
Qed.

(** A copy of everything: it is complete, or there was nothing. *)
Definition whole (h : list Sighted) (v : str) (o : option Attribute) : Prop :=
  match o with Some a => complete h v a | None => forall e, e ∈ h -> of_what e <> v end.

Lemma whole_intro h v o :
  (forall a, o = Some a -> summarises h v a) -> (forall y, claims o y = length (said h y v)) -> whole h v o.
Proof.
  intros Hs Hc. destruct o as [a|]; [split; [auto|exact Hc]|]. intros e He Hv. specialize (Hc (by_server e)).
  assert (Hin : e ∈ said h (by_server e) v) by by apply elem_of_said. destruct (said h _ v); [by apply not_elem_of_nil in Hin|done].
Qed.

(** Afterwards every server has a whole copy. *)
Lemma exchanged_whole es t hub others :
  Forall event_ok es -> run_fits w0 (es ++ exchange_all t hub others) -> (Z.of_nat (length (history es)) < U64_MODULUS)%Z -> length (history es) <= fuel * PAGE -> plausible t ->
  hub ∈ servers -> (forall i, i ∈ servers -> i = hub \/ i ∈ others) -> Forall (fun j => j ∈ servers /\ j <> hub) others ->
  let w := share_out t hub others (gather t hub others (foldl happen w0 es)) in
  forall i, i ∈ servers -> settled (w0 i) (w i)
    /\ exists abs, implements digest32 (disks i) (db (w i)) abs /\ forall v, whole (history es) v (a_values abs ns !! v).
Proof.
  intros Hev Hfit Hb Hlen Ht Hhub Hcov Hothers w i Hi. set (h := history es) in *.
  apply run_fits_app in Hfit as [Hfit [Hfg Hfs]%run_fits_app]. rewrite gather_happens in Hfs.
  destruct (run_copies es Hev Hfit Hb Hlen) as (Hca & Hby & c0 & Hc0). fold h in Hca, Hby, Hc0.
  destruct (gather_copies h _ c0 t hub others Hfg Hc0 Hca Hb Hlen Ht Hhub Hothers) as (c1 & Hc1 & Hk1 & Hm1).
  destruct (share_out_copies h _ c1 t hub others Hfs Hc1 Hca Hb Hlen Ht Hhub Hothers) as (c2 & Hc2 & Hh2 & Hm2 & Hall2).
  assert (Hle : forall c ws, copies_ok h ws c -> forall k v y, k ∈ servers -> claims (c k !! v) y <= length (said h y v)).
  { intros c ws Hc k v y Hk. destruct (c k !! v) as [a|] eqn:E; [|simpl; lia]. apply claimed_le. by eapply co_summary. }
  assert (Hhubfull : forall v y, claims (c1 hub !! v) y = length (said h y v)).
  { intros v y. apply Nat.le_antisymm; [by eapply Hle|]. destruct (decide (y ∈ servers)) as [Hy|Hy].
    - pose proof (co_own _ _ _ Hc0 y v Hy) as Ho. unfold fully_claims in Ho. rewrite <- Ho. destruct (Hm1 v y) as [H1' H2'].
      destruct (Hcov y Hy) as [->|Hyo]; auto.
    - replace (said h y v) with (@nil Sighted); [simpl; lia|]. destruct (said h y v) as [|e l] eqn:E; [done|].
      assert (He : e ∈ said h y v) by (rewrite E; left). apply elem_of_said in He as (He & <- & _).
      rewrite Forall_forall in Hby. by destruct (Hy (Hby e (proj1 (list_elem_of_In _ _) He))). }
  split; [by apply (co_settled _ _ _ Hc2)|]. destruct (co_copy _ _ _ Hc2 i Hi) as (abs & Himp & Ea). exists abs. split; [done|].
  intros v. rewrite Ea. apply whole_intro; [intros a; by apply (co_summary _ _ _ Hc2)|]. intros y.
  destruct (decide (i = hub)) as [->|Hne]; [by rewrite Hh2|]. destruct (Hcov i Hi) as [?|Hio]; [done|].
  apply Nat.le_antisymm; [by eapply Hle|]. rewrite <- Hhubfull. by apply Hall2.
Qed.

(** An answer that tells a history: as many sightings of the value as there were,
    the first and the last second of them, all their tags and no expiry. *)
Record told (h : list Sighted) (v : str) (vw : AttributeView) : Prop := {
  td_count : v_count vw = Z.of_nat (length (filter (fun e => of_what e = v) h));
  td_first : (forall e, e ∈ h -> of_what e = v -> v_first_seen vw <= timestamp (at_time e))%Z
    /\ exists e, e ∈ h /\ of_what e = v /\ v_first_seen vw = timestamp (at_time e);
  td_last : (forall e, e ∈ h -> of_what e = v -> timestamp (at_time e) <= v_last_seen vw)%Z
    /\ exists e, e ∈ h /\ of_what e = v /\ v_last_seen vw = timestamp (at_time e);
  td_tags : forall tag, tag ∈ tags_of (v_tags vw) <-> exists e, e ∈ h /\ of_what e = v /\ tag ∈ tags_of (with_tags e);
  td_ttl : v_ttl vw = 0%Z;
}.

Lemma complete_told h v a c : complete h v a -> (Z.of_nat (length h) < U64_MODULUS)%Z -> told h v (view a c false).
Proof.
  intros Hc Hb. destruct (complete_exact h v a Hc Hb) as (E1 & [E2 (e2 & [I2 V2] & F2)] & [E3 (e3 & [I3 V3] & F3)] & E4).
  assert (Hsec : forall x, timestamp (floor_secs x) = timestamp x) by apply floor_secs_timestamp.
  split; cbn [view v_count v_first_seen v_last_seen v_tags v_ttl].
  - exact E1.
  - split; [|exists e2; split_and!; [done|done|by rewrite F2, Hsec]]. intros e He Hv. rewrite <- (Hsec (at_time e)).
    by apply timestamp_mono, E2.
  - split; [|exists e3; split_and!; [done|done|by rewrite F3, Hsec]]. intros e He Hv. rewrite <- (Hsec (at_time e)).
    by apply timestamp_mono, E3.
  - exact E4.
  - apply Hc.
Qed.

End Mirrors.

(** ** Two mirrors to try it on

    Bodies travel whole: a page is one symbol, and a URL is taken apart where the
    offset is. *)
#[export] Instance merge_eq_dec : EqDecision Merge.
Proof. solve_decision. Defined.
#[export] Instance merge_countable : Countable Merge :=
  inj_countable' (fun m => (m_counts m, m_stats m, m_first_seen m, m_last_seen m, m_tags m, m_tags_at m, m_ttl m))
    (fun q => let '(c, s, f, l, tg, ta, tl) := q in mkMerge c s f l tg ta tl) ltac:(by intros []).

Definition symbol_pages : PageFormat := {|
  parse_page b := match b with
                  | [Npos p] => match decode (A := list (str * Merge) * nat) p with
                                | Some q => inl (mkOfferPage (offer_of <$> q.1) q.2)
                                | None => inr (lit "not a page")
                                end
                  | _ => inr (lit "not a page")
                  end |}.

Definition mirror_peer (i : str) : Peer := mkPeer (lit "http://" ++ i) (lit "k") (from_prefixes [lit "feeds"]) true.
Definition pages_of (i : str) : str := p_url (mirror_peer i) ++ lit "/r/" ++ feeds ++ lit "?for_merge&offset=".
Definition two : list str := [lit "a"; lit "b"].

Definition routed_to (url i : str) : option Routed :=
  match strip_prefix (pages_of i) url with
  | Some rest => Some (mkRouted i [] None feeds (page_query (N.to_nat (read_dec (take (length rest - 10) rest)))))
  | None => None
  end.
Definition symbol_web : Web := {|
  web_route url := head (omap (routed_to url) two);
  web_json b := match b with BPage _ page => [Npos (encode (items page, total page))] | _ => [] end |}.

Definition mirror_server (i : str) : SharedState :=
  mkShared (with_node (mkPolicy 0 0) (from_prefixes [lit "feeds"]) i) true {[lit "k" := [mkGrant (lit "feeds") true false false]]}
    rj_default None ∅ true false ∅ [] None None None None default_stix.

Lemma routed_page i j off :
  i ∈ two -> j ∈ two ->
  routed_to (p_url (mirror_peer j) ++ page_path feeds off) i
  = if bool_decide (i = j) then Some (mkRouted i [] None feeds (page_query off)) else None.
Proof.
  assert (Hsame : forall k, routed_to (p_url (mirror_peer k) ++ page_path feeds off) k
    = Some (mkRouted k [] None feeds (page_query off))).
  { intros k. unfold routed_to.
    assert (E : p_url (mirror_peer k) ++ page_path feeds off = pages_of k ++ usize_text off ++ lit "&limit=500")
      by (unfold pages_of, page_path; by rewrite <- !app_assoc).
    rewrite E, (proj2 (strip_prefix_spec _ _ _) eq_refl), length_app, take_app_length' by (simpl; lia).
    unfold usize_text. by rewrite read_dec_text, Nat2N.id. }
  intros Hi Hj. case_bool_decide as Hij; [subst; apply Hsame|]. unfold two in *.
  repeat (apply elem_of_cons in Hi as [->|Hi]; [|try by apply not_elem_of_nil in Hi]);
    repeat (apply elem_of_cons in Hj as [->|Hj]; [|try by apply not_elem_of_nil in Hj]); done.
Qed.

Lemma symbol_fits b : @body_fits symbol_web b.
Proof. unfold body_fits. cbn [web_json symbol_web]. unfold FORWARD_BODY_LIMIT. destruct b; cbn [length]; lia. Qed.

Lemma symbol_run_fits `{Chrono, HashOrder, Serde} digest32 digest64 disks g peer_for ns fuel w es :
  let P := symbol_pages in let B := symbol_web in run_fits digest32 digest64 disks g peer_for ns fuel w es.
Proof.
  intros P B. revert w. induction es as [|e es IH]; intros w; [done|]. split; [|apply IH].
  destruct e; [done|]. intros abs c off _ _. apply symbol_fits.
Qed.

Lemma symbol_web_ok `{Chrono} : @web_ok _ symbol_pages symbol_web mirror_peer feeds two.
Proof.
  split.
  - intros j off Hj. exists [], None. cbn [web_route symbol_web]. unfold two at 1. cbn [omap list_omap].
    rewrite !routed_page by (done || left || (right; left)). unfold two in Hj.
    repeat (apply elem_of_cons in Hj as [->|Hj]; [|try by apply not_elem_of_nil in Hj]); done.
  - intros page _ _. cbn [web_json symbol_web parse_page symbol_pages]. by rewrite decode_encode.
  - apply symbol_fits.
Qed.

Lemma mirror_server_ok `{HashOrder} i : server_ok (fun _ => 7%N) (fun _ => ∅) mirror_peer feeds i (mirror_server i).
Proof.
  split; [done|done|done|done|]. exists ∅. split; [apply empty_implements|done].
Qed.

Definition three_sightings : list GalaxyEvent :=
  [Sight (100 * NANOS) (lit "a") (lit "x") None (lit "tlp:red"); Sight (200 * NANOS) (lit "b") (lit "x") None [];
   Pull (300 * NANOS) (lit "a") (lit "b"); Sight (400 * NANOS) (lit "a") (lit "x") (Some (50 * NANOS)%Z) []].

