(* ===== verification/HandlerFacts.v ===== *)
(** * What the handlers promise

    A refused request changes nothing, the dry run answers as the bulk write
    does, and a batch is its items written one after the other. *)

From stdpp Require Import base numbers list strings gmap sorting pretty.
From S2P Require Import Prelude Text Activity Latest Attribute AttributeFacts Convergence Paths Acl Rejections Tags Tier Namespace Disk Database Contents Refine Consensus Eviction Service Accounted System Listing Peers Config Forward ForwardFacts CatchUp CatchUpFacts Handlers.

Ltac run := unfold get_state, on_db, reject, act, mbind, Net_bind, mret, Net_ret; cbv zeta; cbn [fst snd].

(** ** Refusals *)

(** A request that carries no key allowed to do this here. *)
Definition unentitled (s : SharedState) (req : HttpRequest) (ns : str) (access : Access) : Prop :=
  authenticate s = true
  /\ forall key, header (hdrs req) (lit "Authorization") = Some (Some key) ->
       match access with ReadAccess => can_read (acl s) key ns | WriteAccess => can_write (acl s) key ns end = false.

Lemma authorize_unentitled s req ns access :
  unentitled s req ns access ->
  exists resp, authorize s req ns access = Some resp /\ code resp ∈ [UNAUTHORIZED; BAD_REQUEST; FORBIDDEN].
Proof.
  intros [Ha Hk]. unfold authorize, api_key. rewrite Ha. cbn [negb].
  destruct (header (hdrs req) (lit "Authorization")) as [[key|]|].
  - specialize (Hk key eq_refl). unfold refusal_for.
    destruct access; rewrite Hk; eexists; (split; [done|]); cbn [code message_answer answer_json];
      rewrite !elem_of_cons; tauto.
  - eexists. split; [done|]. rewrite !elem_of_cons. cbn. tauto.
  - eexists. split; [done|]. rewrite !elem_of_cons. cbn. tauto.
Qed.

(** ** What an item is checked for *)
Lemma parse_when_plausible `{Chrono} t w now : parse_when t = inl w -> plausible now -> plausible (default now w).
Proof.
  unfold parse_when, timestamp_to_instant. destruct t as [z|]; [|by intros [= <-]].
  destruct (from_timestamp z) as [x|] eqn:E; [|done]. intros [= <-] _. apply from_timestamp_Some in E. subst.
  apply plausible_whole.
Qed.

Lemma check_item_ok `{Chrono} s apikey item w :
  check_item s apikey item = CheckOk w ->
  refusal_for s apikey (b_namespace item) WriteAccess = None
  /\ check (db s) (b_namespace item) (b_value item) = None /\ parse_when (b_timestamp item) = inl w.
Proof. unfold check_item. repeat case_match; naive_solver. Qed.

(** ** Bulk writes on this server *)
Section Bulk.
Context {W : Type} `{Network W} `{Serde} `{Chrono} `{HashOrder}.
Context (digest32 : str -> N) (disk : Disk) (clock : W -> Z).

(** An item that could have been parsed: its numbers fit their types. *)
Definition item_ok_types (item : BulkSighting) : Prop := opt_u64 (b_ttl item).

(** What one item does to the database when it is let through. *)
Definition write_one (now : Z) (origin : option str) (d : Database) (item : BulkSighting) (w : option Z) :
    Database * (Written + ApiError) :=
  client_write digest32 disk now d origin (b_namespace item) (b_value item) w (b_ttl item) (b_tags item).

(** The decision looks at the ACL and the storage policy, and nothing else. *)
Lemma check_item_stable s s' apikey item :
  acl s' = acl s -> stores (db s') = stores (db s) -> check_item s' apikey item = check_item s apikey item.
Proof. intros Ha Hs. unfold check_item, refusal_for, check. by rewrite Ha, Hs. Qed.

(** The state a batch runs in, and what is kept of it along the way. *)
Definition batch_inv (s0 s : SharedState) : Prop :=
  (exists abs, implements digest32 disk (db s) abs) /\ stores (db s) = stores (db s0) /\ policy (db s) = policy (db s0)
  /\ node (db s) = node (db s0) /\ acl s = acl s0 /\ galaxy s = galaxy s0 /\ authenticate s = authenticate s0.

Lemma write_item_run apikey origin b i item w s0 s :
  batch_inv s0 s -> is_u64 (shadow_ttl (policy (db s0))) -> plausible (clock w) -> item_ok_types item ->
  exists s', batch_inv s0 s' /\
    match check_item s0 apikey item with
    | CheckOk t => exists c n, (write_one (clock w) origin (db s) item t).2 = inl (mkWritten c n)
        /\ db s' = (write_one (clock w) origin (db s) item t).1
        /\ write_item digest32 disk clock apikey origin b (i, item) (w, s)
           = ((w, s'), batch_ok b i item (Some c) (Some n))
    | Refused m => db s' = db s
        /\ write_item digest32 disk clock apikey origin b (i, item) (w, s) = ((w, s'), batch_failed b i item m true)
    | Invalid m => db s' = db s
        /\ write_item digest32 disk clock apikey origin b (i, item) (w, s) = ((w, s'), batch_failed b i item m false)
    end.
Proof.
  intros ([abs Himp] & Hst & Hpol & Hnode & Hacl & Hg & Hau) Hsh Hnow Hty.
  rewrite <- (check_item_stable s0 s apikey item Hacl Hst).
  unfold write_one, write_item. run. destruct (check_item s apikey item) as [t|m|m] eqn:Ec; cbn [fst snd].
  - apply check_item_ok in Ec as (_ & Hck & Hw).
    destruct (client_write_accepted digest32 disk (clock w) (db s) abs origin (b_namespace item) (b_value item) t
      (b_ttl item) (b_tags item) Himp Hty ltac:(by rewrite Hpol) (parse_when_plausible _ _ _ Hw Hnow) Hck)
      as (R1 & R2 & R3 & R4 & _ & _ & _ & R5).
    set (r := client_write digest32 disk (clock w) (db s) origin (b_namespace item) (b_value item) t (b_ttl item)
      (b_tags item)) in *.
    exists (with_db s r.1). split; [|eexists _, _; split; [exact R5|]; split; [done|]; by rewrite R5].
    split_and!; cbn [db acl galaxy authenticate with_db]; [by eexists|congruence..].
  - eexists. split; [|split; [|reflexivity]]; [|done]. split_and!; cbn; [by eexists|done..].
  - eexists. split; [|split; [|reflexivity]]; [|done]. split_and!; cbn; [by eexists|done..].
Qed.

(** An answer with what only a write can know left out. *)
Definition strip_item (i : BulkWriteItem) : BulkWriteItem :=
  mkBulkItem (bi_index i) (bi_namespace i) (bi_value i) (bi_status i) None None (bi_error i).
Definition stripped (b : Batch) : Batch :=
  mkBatch (strip_item <$> ba_items b) (ba_errors b) (ba_written b) (ba_refusals b).

(** The database after a batch: the items that pass, written in their order. *)
Definition write_passing (s0 : SharedState) (apikey origin : option str) (now : Z) (d : Database)
    (indexed : nat * BulkSighting) : Database :=
  match check_item s0 apikey indexed.2 with
  | CheckOk t => (write_one now origin d indexed.2 t).1
  | _ => d
  end.

Lemma write_items_run apikey origin w s0 l : forall b s,
  batch_inv s0 s -> is_u64 (shadow_ttl (policy (db s0))) -> plausible (clock w) ->
  Forall (fun x => item_ok_types x.2) l ->
  exists s' b', net_fold (write_item digest32 disk clock apikey origin) b l (w, s) = ((w, s'), b')
    /\ batch_inv s0 s' /\ db s' = foldl (write_passing s0 apikey origin (clock w)) (db s) l
    /\ stripped b' = foldl (validate_item s0 apikey) (stripped b) l.
Proof.
  induction l as [|[i item] l IH]; intros b s Hs Hsh Hnow Hty; [by exists s, b|].
  apply Forall_cons in Hty as [Ht Hty].
  destruct (write_item_run apikey origin b i item w s0 s Hs Hsh Hnow Ht) as (s1 & Hs1 & Hrun).
  cbn [net_fold foldl]. unfold mbind, Net_bind. cbv zeta. unfold write_passing at 2, validate_item at 2. cbn [snd].
  destruct (check_item s0 apikey item) as [t|m|m].
  - destruct Hrun as (c & n & _ & Ed & ->). cbn [fst snd].
    destruct (IH (batch_ok b i item (Some c) (Some n)) s1 Hs1 Hsh Hnow Hty) as (s' & b' & E & Hs' & Hd & Hb).
    exists s', b'. rewrite E, Hd, Ed. split_and!; try done. rewrite Hb. f_equal.
    unfold stripped, batch_ok. cbn [ba_items ba_errors ba_written ba_refusals]. by rewrite fmap_app.
  - destruct Hrun as (Ed & ->). cbn [fst snd].
    destruct (IH (batch_failed b i item m true) s1 Hs1 Hsh Hnow Hty) as (s' & b' & E & Hs' & Hd & Hb).
    exists s', b'. rewrite E, Hd, Ed. split_and!; try done. rewrite Hb. f_equal.
    unfold stripped, batch_failed. cbn [ba_items ba_errors ba_written ba_refusals]. by rewrite fmap_app.
  - destruct Hrun as (Ed & ->). cbn [fst snd].
    destruct (IH (batch_failed b i item m false) s1 Hs1 Hsh Hnow Hty) as (s' & b' & E & Hs' & Hd & Hb).
    exists s', b'. rewrite E, Hd, Ed. split_and!; try done. rewrite Hb. f_equal.
    unfold stripped, batch_failed. cbn [ba_items ba_errors ba_written ba_refusals]. by rewrite fmap_app.
Qed.

Lemma batch_inv_refl s abs : implements digest32 disk (db s) abs -> batch_inv s s.
Proof. intros Himp. split_and!; [by eexists|done..]. Qed.

(** The batch is this server's to write. *)
Definition all_here (s : SharedState) (items : list BulkSighting) : Prop :=
  galaxy s = None \/ forall item, item ∈ items -> elsewhere s (b_namespace item) = false.

Lemma write_bulk_local e req items apikey s w :
  all_here s items -> api_key s req = inl apikey ->
  write_bulk digest32 disk clock e req items (w, s)
  = write_bulk_here digest32 disk clock apikey (origin_of (hdrs req)) items (w, s).
Proof.
  intros Hh Hk. unfold write_bulk. run. rewrite Hk. destruct (galaxy s) as [g|] eqn:Eg; [|reflexivity].
  destruct Hh as [Hh|Hh]; [congruence|].
  assert (Haway : filter (fun ns => elsewhere s ns = true) (b_namespace <$> items) = []).
  { apply list_filter_none. intros ns (item & -> & Hi)%list_elem_of_fmap. by rewrite Hh. }
  rewrite Haway. reflexivity.
Qed.
End Bulk.

Lemma enumerate_snd {A} (P : A -> Prop) (l : list A) : Forall P l -> Forall (fun x => P x.2) (enumerate l).
Proof.
  intros Hl. apply Forall_forall. intros [i x] Hin. apply elem_of_lookup_imap in Hin as (j & y & [= -> ->] & Hy).
  rewrite Forall_forall in Hl. apply Hl. by eapply list_elem_of_lookup_2.
Qed.

(** ** Properties *)

(** A request whose key does not reach the namespace, or that carries no
    readable key at all, is answered with a refusal and nothing else happens:
    no database, rejection or peer is touched by the write, the deletion or the
    read it asked for. *)
Theorem refused_untouched {W} `{Network W, Serde, Chrono, HashOrder} digest32 digest64 disk clock req ns s w :
  (unentitled s req ns WriteAccess -> exists resp, code resp ∈ [UNAUTHORIZED; BAD_REQUEST; FORBIDDEN]
     /\ (forall q, write_handler digest32 disk clock req ns q (w, s) = ((w, s), resp))
     /\ delete_handler digest32 disk clock req ns (w, s) = ((w, s), resp))
  /\ (unentitled s req ns ReadAccess -> exists resp, code resp ∈ [UNAUTHORIZED; BAD_REQUEST; FORBIDDEN]
     /\ forall q stats, read_handler digest32 digest64 disk clock req ns q stats (w, s) = ((w, s), resp)).
Proof.
  split; intros (resp & Ha & Hc)%authorize_unentitled; exists resp.
  - split_and!; [done| |]; [intros q; unfold write_handler|unfold delete_handler]; run; by rewrite Ha.
  - split; [done|]. intros q stats. unfold read_handler, forwarded_read. run. by rewrite Ha.
Qed.

(** For a batch that is this server's to write, the dry run and the write
    answer alike: the same status, message, number of items let through and
    list of errors, and the same answer for every item but for the count and
    the novelty that only a write can know; the dry run changes nothing. *)
Theorem dry_run_agrees {W} `{Network W, Serde, Chrono, HashOrder} digest32 disk clock e req items s abs w :
  implements digest32 disk (db s) abs -> is_u64 (shadow_ttl (policy (db s))) -> plausible (clock w) ->
  Forall item_ok_types items -> all_here s items ->
  let wet := write_bulk digest32 disk clock e req items (w, s) in
  let dry := validate_bulk req items (w, s) in
  dry.1 = (w, s) /\ code dry.2 = code wet.2
  /\ match content wet.2, content dry.2 with
     | BBulkWrite m n its errs, BValidate m' n' its' errs' =>
         m' = m /\ n' = n /\ errs' = errs /\ its' = strip_item <$> its
     | b, b' => b = b'
     end.
Proof.
  intros Himp Hsh Hnow Hty Hh wet dry.
  destruct (api_key s req) as [apikey|resp] eqn:Ek.
  - unfold wet. rewrite (write_bulk_local digest32 disk clock e req items apikey s w Hh Ek).
    unfold write_bulk_here, dry, validate_bulk. run. rewrite Ek.
    destruct (write_items_run digest32 disk clock apikey (origin_of (hdrs req)) w s (enumerate items) no_batch s
      (batch_inv_refl digest32 disk s abs Himp) Hsh Hnow (enumerate_snd _ _ Hty)) as (s' & b' & -> & _ & _ & Hb).
    change (stripped no_batch) with no_batch in Hb. rewrite <- Hb. cbn [fst snd].
    cbn [stripped ba_items ba_errors ba_written ba_refusals].
    by destruct (batch_status _ _ _).
  - unfold wet, dry, write_bulk, validate_bulk. run. rewrite Ek. cbn [fst snd].
    split; [done|]. split; [done|]. by destruct (content resp).
Qed.

(** C26: a bulk write all of whose items are of namespaces stored on this server
    is its items written one after the other by the single write, skipping
    exactly those the ACL or the checks refuse; it answers one item per request
    item, in the request's order.  A batch with an item stored elsewhere is
    forwarded instead, and not held against this server's ACL. *)
Theorem bulk_write_exact {W} `{Network W, Serde, Chrono, HashOrder} digest32 disk clock e req items apikey s abs w :
  implements digest32 disk (db s) abs -> is_u64 (shadow_ttl (policy (db s))) -> plausible (clock w) ->
  Forall item_ok_types items -> all_here s items -> api_key s req = inl apikey ->
  let r := write_bulk digest32 disk clock e req items (w, s) in
  db r.1.2 = foldl (write_passing digest32 disk s apikey (origin_of (hdrs req)) (clock w)) (db s) (enumerate items)
  /\ (exists m n its errs, content r.2 = BBulkWrite m n its errs
       /\ (fun i => (bi_index i, bi_namespace i, bi_value i)) <$> its
          = (fun x => (x.1, b_namespace x.2, b_value x.2)) <$> enumerate items
       /\ n + length errs = length items).
Proof.
  intros Himp Hsh Hnow Hty Hh Hk r. unfold r. rewrite (write_bulk_local digest32 disk clock e req items apikey s w Hh Hk).
  unfold write_bulk_here. run.
  destruct (write_items_run digest32 disk clock apikey (origin_of (hdrs req)) w s (enumerate items) no_batch s
    (batch_inv_refl digest32 disk s abs Himp) Hsh Hnow (enumerate_snd _ _ Hty)) as (s' & b' & -> & _ & Hd & Hb).
  change (stripped no_batch) with no_batch in Hb. cbn [fst snd].
  assert (Hgen : forall l b, let b' := foldl (validate_item s apikey) b l in
    (fun i => (bi_index i, bi_namespace i, bi_value i)) <$> ba_items b'
      = ((fun i => (bi_index i, bi_namespace i, bi_value i)) <$> ba_items b)
        ++ ((fun x => (x.1, b_namespace x.2, b_value x.2)) <$> l)
    /\ ba_written b' + length (ba_errors b') = ba_written b + length (ba_errors b) + length l).
  { induction l as [|[i item] l IH]; intros b; [rewrite app_nil_r; split; [done|]; simpl; lia|]. cbn [foldl].
    destruct (IH (validate_item s apikey b (i, item))) as [I1 I2]. cbv zeta. rewrite I1, I2. unfold validate_item.
    destruct (check_item s apikey item); cbn [batch_ok batch_failed ba_items ba_errors ba_written];
      rewrite fmap_app, <- app_assoc, ?length_app; (split; [done|]); simpl; lia. }
  destruct (Hgen (enumerate items) no_batch) as [G1 G2]. cbv zeta in G1, G2. rewrite <- Hb in G1, G2.
  destruct (batch_status _ _ _) as [st message]. cbn [fst snd]. split; [exact Hd|].
  eexists _, _, _, _. split; [reflexivity|]. split.
  - cbn [stripped ba_items no_batch] in G1. rewrite <- list_fmap_compose in G1. exact G1.
  - cbn [stripped ba_errors ba_written no_batch length] in G2. rewrite G2. unfold enumerate. rewrite length_imap. lia.
Qed.

(** ** On a server with one key, for [feeds] *)
Definition demo_keys : Acl := {[lit "k" := [mkGrant (lit "feeds") true true false]]}.
Definition keyed_state : SharedState := mkShared demo_db true demo_keys rj_default None ∅ true false
  ∅ [] None None None None default_stix.
Definition keyed_request : HttpRequest := mkHttp [(lit "authorization", Some (lit "k"))] (lit "/wb") None.
Definition demo_items : list BulkSighting :=
  [mkSight (lit "feeds") (lit "1.2.3.4") None None [] false; mkSight (lit "other") (lit "x") None None [] false].

Lemma refused_untouched_witness :
  let C := chrono_10000y in let O := some_order in let N := demo_net peer_b in let S := demo_serde in
  exists resp, write_handler (fun _ => 7%N) ∅ (fun _ : unit => demo_time) keyed_request (lit "other")
    (mkWriteQuery (Some (lit "x")) None None None) (tt, keyed_state) = ((tt, keyed_state), resp).
Proof.
  intros C O N S.
  destruct (@refused_untouched unit N S C O (fun _ => 7%N) demo_digest ∅ (fun _ => demo_time) keyed_request (lit "other")
    keyed_state tt) as [Hw _].
  destruct Hw as (resp & _ & Hr & _); [|by exists resp].
  split; [reflexivity|]. intros key Hk. vm_compute in Hk. injection Hk as <-. by vm_compute.
Defined.

Lemma dry_run_agrees_witness :
  let C := chrono_10000y in let O := some_order in let N := demo_net peer_b in let S := demo_serde in
  code (validate_bulk keyed_request demo_items (tt, keyed_state)).2
  = code (write_bulk (fun _ => 7%N) ∅ (fun _ : unit => demo_time) [] keyed_request demo_items (tt, keyed_state)).2.
Proof.
  intros C O N S.
  refine (proj1 (proj2 (@dry_run_agrees unit N S C O (fun _ => 7%N) ∅ (fun _ => demo_time) [] keyed_request demo_items
    keyed_state ∅ tt (empty_implements _ _ _ _ _) _ (plausible_whole 6000) _ (or_introl eq_refl)))); [done|].
  by repeat constructor.
Defined.

Lemma bulk_write_exact_witness :
  let C := chrono_10000y in let O := some_order in let N := demo_net peer_b in let S := demo_serde in
  exists m n its errs,
    content (write_bulk (fun _ => 7%N) ∅ (fun _ : unit => demo_time) [] keyed_request demo_items (tt, keyed_state)).2
    = BBulkWrite m n its errs /\ n + length errs = 2.
Proof.
  intros C O N S.
  destruct (@bulk_write_exact unit N S C O (fun _ => 7%N) ∅ (fun _ => demo_time) [] keyed_request demo_items
    (Some (lit "k")) keyed_state ∅ tt) as (_ & m & n & its & errs & E & _ & Hn).
  - apply empty_implements.
  - done.
  - apply plausible_whole.
  - by repeat constructor.
  - by left.
  - reflexivity.
  - by exists m, n, its, errs.
Defined.

(** ** The first catch-up

    A server that starts withholds reads until it has made one full pass over
    its peers; later passes only look where a peer has more values.  The first
    pass counts as made when nobody could be reached: nothing was compared, the
    flag is put down all the same, and no later pass is a full one. *)
Lemma unreachable_names {W} `{Network W, Serde} (g : Galaxy) (p : Peer) (s : W * Database) :
  (forall rq w, exists w' e, exchange rq w = (w', inr e)) ->
  exists w' e, namespaces_of g p s = ((w', s.2), inr e).
Proof.
  intros Hdown. destruct s as [w d]. unfold namespaces_of, ask, send, mbind, Net_bind. cbn [have_client net_with].
  destruct (negb (have_client (verify_tls g))); [by eexists _, _|]. cbv zeta. cbn [exchange net_with fst snd].
  destruct (Hdown (outgoing p GET (lit "/_api/namespaces") None 1 []) w) as (w' & e & ->). by eexists _, _.
Qed.

Theorem unreachable_counts_as_caught_up {W} `{Network W, Serde, PageFormat, Chrono, HashOrder} digest32 disk clock fuel g ws :
  (forall rq w, exists w' e, exchange rq w = (w', inr e)) -> galaxy ws.2 = Some g -> peers g <> [] ->
  let r := sync_round digest32 disk clock fuel true ws in
  r.2 = false /\ joining r.1.2 = false /\ Handlers.db r.1.2 = Handlers.db ws.2.
Proof.
  intros Hdown Hg Hp. unfold sync_round, act. rewrite Hg. destruct (is_empty (peers g)) eqn:E; [by destruct (peers g)|].
  cbn [fst snd]. split; [done|]. split; [done|]. cbn [Handlers.db with_db set_catching_up].
  unfold catch_up.
  match goal with |- context [net_fold ?step _ _] => set (f := step) end.
  assert (Hf : forall rep p s, exists w', f rep p s = ((w', s.2), rep)).
  { intros rep p s. destruct (unreachable_names g p s Hdown) as (w' & e & Hn). exists w'. unfold f, mbind, Net_bind. cbv zeta.
    by rewrite Hn. }
  assert (Hfold : forall l rep s, exists w', net_fold f rep l s = ((w', s.2), rep)).
  { clearbody f. induction l as [|p l IH]; intros rep s; cbn [net_fold]; [exists s.1; by destruct s|].
    destruct (Hf rep p s) as [w1 H1']. unfold mbind, Net_bind. cbv zeta. rewrite H1'. apply (IH rep (w1, s.2)). }
  destruct (Hfold (peers g) (Some (mkCaughtUp 0 0)) (ws.1, Handlers.db ws.2)) as [w' ->]. done.
Qed.
