(* ===== verification/Cascade.v ===== *)
(** * Requests that travel from server to server

    What the handlers send on: always with one hop less than they were given,
    so a chain of servers ends however they are wired, and always for the
    server the client talked to. *)

From stdpp Require Import base numbers list strings gmap sorting pretty.
From S2P Require Import Prelude Text Activity Latest Attribute AttributeFacts Convergence Paths Acl Rejections Tags Tier Namespace Disk Database Contents Refine Consensus Eviction Service Accounted System Listing Peers Config Forward ForwardFacts CatchUp CatchUpFacts Handlers HandlerFacts.

(** ** What a computation sends from one world *)
Section SendsAt.
Context {W : Type} `{Network W} `{!Tracing W}.

Definition sends_at {A} (x : W) (m : Net W A) (P : Request -> Prop) : Prop :=
  exists l, trace (m x).1 = trace x ++ l /\ Forall P l.

Lemma sends_at_all {A} x (m : Net W A) P : sends m P -> sends_at x m P.
Proof. intros Hm. apply Hm. Qed.

Lemma sends_at_bind {A B} x (m : Net W A) (k : A -> Net W B) P :
  sends_at x m P -> sends_at (m x).1 (k (m x).2) P -> sends_at x (m ≫= k) P.
Proof.
  intros (l1 & E1 & F1) (l2 & E2 & F2). exists (l1 ++ l2). unfold mbind, Net_bind. cbv zeta.
  rewrite E2, E1, app_assoc. split; [done|]. by apply Forall_app.
Qed.
End SendsAt.

Section Passing.
Context {W : Type} `{Network W} `{!Tracing W} `{Serde} `{Chrono} `{HashOrder}.
Context (digest32 : str -> N) (digest64 : str -> N) (disk : Disk) (clock : W -> Z).

(** Sent with a budget that is not spent. *)
Definition spending (g : Galaxy) (hops : Z) (rq : Request) : Prop := hops <> 0%Z /\ addressed g hops rq.

Lemma spending_read {S : Type} g ns v path hops origin :
  sends (W := W * S) (forward_read digest64 g ns v path hops origin) (spending g hops).
Proof.
  destruct (decide (hops = 0%Z)) as [E0|E0].
  - unfold forward_read. rewrite (bool_decide_eq_true_2 _ E0). apply sends_ret.
  - eapply sends_weaken; [apply sends_forward_read|]. intros rq Hrq. by split.
Qed.

Lemma spending_write {S : Type} g ns method path body hops origin :
  sends (W := W * S) (forward_write g ns method path body hops origin) (spending g hops).
Proof.
  destruct (decide (hops = 0%Z)) as [E0|E0].
  - unfold forward_write. rewrite (bool_decide_eq_true_2 _ E0). apply sends_ret.
  - eapply sends_weaken; [apply sends_forward_write|]. intros rq Hrq. by split.
Qed.

Lemma spending_batch {S : Type} g nss path body hops origin :
  sends (W := W * S) (forward_batch g nss path body hops origin) (spending g hops).
Proof.
  destruct (decide (hops = 0%Z)) as [E0|E0].
  - unfold forward_batch. rewrite (bool_decide_eq_true_2 _ E0). apply sends_ret.
  - eapply sends_weaken; [apply sends_forward_batch|]. intros rq Hrq. by split.
Qed.

Lemma spending_to {S : Type} g url method path body hops origin :
  sends (W := W * S) (forward_to g url method path body hops origin) (spending g hops).
Proof.
  destruct (decide (hops = 0%Z)) as [E0|E0].
  - unfold forward_to. rewrite (bool_decide_eq_true_2 _ E0). apply sends_ret.
  - eapply sends_weaken; [apply sends_forward_to|]. intros rq Hrq. by split.
Qed.

(** Steps on the database or the rejections send nothing. *)
Lemma quiet_on_db {A} f P : sends (W := W * SharedState) (A := A) (on_db clock f) P.
Proof. by apply sends_quiet. Qed.
Lemma quiet_reject ns v why from P : sends (W := W * SharedState) (reject clock ns v why from) P.
Proof. by apply sends_quiet. Qed.
Lemma quiet_get P : sends (W := W * SharedState) get_state P.
Proof. by apply sends_quiet. Qed.
Lemma quiet_write_here path v P : sends (W := W * SharedState) (write_here digest32 disk clock path v) P.
Proof. apply quiet_on_db. Qed.
Lemma quiet_read_here item stats P : sends (W := W * SharedState) (read_here digest32 disk clock item stats) P.
Proof. apply sends_bind; [apply quiet_on_db|intros; apply sends_ret]. Qed.

Ltac quiet :=
  repeat first [ apply sends_ret | apply quiet_on_db | apply quiet_reject | apply quiet_get | apply quiet_write_here
               | apply quiet_read_here | apply sends_bind; [|intros ?] | apply sends_fold; intros ? ? ?
               | match goal with |- sends (if ?b then _ else _) _ => destruct b end
               | match goal with |- sends (match ?o with _ => _ end) _ => destruct o end ].

Lemma quiet_do_read req ns q stats P : sends (W := W * SharedState) (do_read digest32 disk clock req ns q stats) P.
Proof. unfold do_read. quiet. Qed.
Lemma quiet_note_consensus ns v b P : sends (W := W * SharedState) (note_consensus digest32 disk clock ns v b) P.
Proof. unfold note_consensus. quiet. Qed.
Lemma quiet_note_entry e P : sends (W := W * SharedState) (note_entry digest32 disk clock e) P.
Proof. unfold note_entry. quiet. Qed.
Lemma quiet_write_item k o b x P : sends (W := W * SharedState) (write_item digest32 disk clock k o b x) P.
Proof. destruct x as [i item]. unfold write_item. quiet. Qed.
Lemma quiet_merged_batch req k items answers P :
  sends (W := W * SharedState) (merged_batch digest32 disk clock req k items answers) P.
Proof.
  unfold merged_batch. apply sends_bind; [|intros b; repeat case_match; apply sends_ret].
  apply sends_fold. intros b x _. unfold merged_item. apply sends_bind; [apply quiet_get|]. intros s.
  destruct (_ || _); [apply sends_bind; [apply quiet_write_item|intros; apply sends_ret]|].
  unfold merge_elsewhere. destruct (head _); [|apply sends_ret].
  apply sends_bind; [apply quiet_note_entry|intros; apply sends_ret].
Qed.
Lemma quiet_write_bulk_here k o items P :
  sends (W := W * SharedState) (write_bulk_here digest32 disk clock k o items) P.
Proof.
  unfold write_bulk_here. apply sends_bind; [apply sends_fold; intros; apply quiet_write_item|].
  intros b. destruct (batch_status _ _ _). apply sends_ret.
Qed.

(** ** The handlers that pass requests on *)
Inductive Call :=
  | CRead (ns : str) (q : ReadQuery) (with_stats : bool)
  | CWrite (ns : str) (q : WriteQuery)
  | CBulkWrite (error_text : str) (items : list BulkSighting)
  | CBulkRead (error_text : str) (items : list BulkSighting) (with_stats : bool).

Definition run_call (c : Call) (req : HttpRequest) : Net (W * SharedState) HttpResponse :=
  match c with
  | CRead ns q stats => read_handler digest32 digest64 disk clock req ns q stats
  | CWrite ns q => write_handler digest32 disk clock req ns q
  | CBulkWrite e items => write_bulk digest32 disk clock e req items
  | CBulkRead e items stats => do_read_bulk digest32 digest64 disk clock e req items stats
  end.

Lemma spending_passed_on g hs hops rq :
  hops_left hs (max_hops g) = Some hops -> spending g hops rq -> passed_on (max_hops g) hs rq.
Proof. intros Hl [Hnz (p & m & pa & b & o & _ & _ & ->)]. by exists hops, p, m, pa, b, o. Qed.

Lemma should_forward_hops s req ns hops g :
  should_forward s req ns = Some (inl hops) -> galaxy s = Some g -> hops_left (hdrs req) (max_hops g) = Some hops.
Proof.
  unfold should_forward. intros Hf Hg. rewrite Hg in Hf. destruct (holds _ _); [done|].
  destruct (is_internal ns); [done|]. by destruct (hops_left _ _); simplify_eq.
Qed.

Lemma read_passes s g req ns q stats w :
  galaxy s = Some g ->
  sends_at (w, s) (read_handler digest32 digest64 disk clock req ns q stats) (passed_on (max_hops g) (hdrs req)).
Proof.
  intros Hg. apply sends_at_bind; [|destruct (_ (w, s)).2; apply sends_at_all; [apply sends_ret|apply quiet_do_read]].
  apply sends_at_bind; [apply sends_at_all, quiet_get|]. unfold get_state, act. cbn [fst snd].
  destruct (authorize s req ns ReadAccess); [apply sends_at_all, sends_ret|].
  destruct (should_forward s req ns) as [[hops|resp]|] eqn:Ef; [|apply sends_at_all, sends_ret..].
  rewrite Hg. apply sends_at_all. apply sends_bind; [quiet|]. intros _. apply sends_bind; [|intros; apply sends_ret].
  eapply sends_weaken; [apply spending_read|]. intros rq. apply spending_passed_on. by eapply should_forward_hops.
Qed.

Lemma write_passes s g req ns q w :
  galaxy s = Some g ->
  sends_at (w, s) (write_handler digest32 disk clock req ns q) (passed_on (max_hops g) (hdrs req)).
Proof.
  intros Hg. apply sends_at_bind; [apply sends_at_all, quiet_get|]. unfold get_state, act. cbn [fst snd].
  destruct (authorize s req ns WriteAccess); [apply sends_at_all, sends_ret|].
  destruct (w_val q) as [v|]; [|apply sends_at_all, sends_ret].
  rewrite Hg. destruct (should_forward s req ns) as [[hops|resp]|] eqn:Ef; apply sends_at_all; [|quiet..].
  apply sends_bind.
  - eapply sends_weaken; [apply spending_write|]. intros rq. apply spending_passed_on. by eapply should_forward_hops.
  - intros [answers|e]; [|apply sends_ret]. destruct (head _) as [[u a]|]; [|apply sends_ret].
    apply sends_bind; [apply quiet_note_consensus|intros; apply sends_ret].
Qed.

Lemma bulk_write_passes s g req e items w :
  galaxy s = Some g ->
  sends_at (w, s) (write_bulk digest32 disk clock e req items) (passed_on (max_hops g) (hdrs req)).
Proof.
  intros Hg. apply sends_at_bind; [apply sends_at_all, quiet_get|]. unfold get_state, act. cbn [fst snd].
  destruct (api_key s req) as [k|resp]; [|apply sends_at_all, sends_ret]. rewrite Hg. cbv zeta.
  destruct (is_empty _); [apply sends_at_all, quiet_write_bulk_here|].
  destruct (hops_left _ _) as [hops|] eqn:Eh; [|apply sends_at_all, sends_ret].
  destruct (to_vec _) as [payload|]; [|apply sends_at_all, sends_ret]. apply sends_at_all, sends_bind.
  - eapply sends_weaken; [apply spending_batch|]. intros rq. by apply spending_passed_on.
  - intros [answers|err]; [apply quiet_merged_batch|apply sends_ret].
Qed.

Lemma bulk_read_passes s g req e items stats w :
  galaxy s = Some g ->
  sends_at (w, s) (do_read_bulk digest32 digest64 disk clock e req items stats) (passed_on (max_hops g) (hdrs req)).
Proof.
  intros Hg. apply sends_at_bind; [apply sends_at_all, quiet_get|]. unfold get_state, act. cbn [fst snd].
  destruct (authorize_all s req items); [apply sends_at_all, sends_ret|]. rewrite Hg. cbv zeta. apply sends_at_all.
  apply sends_bind.
  - apply sends_fold. intros st [i item] _. unfold place_item. quiet.
  - intros st. apply sends_bind; [|intros filled; apply sends_ret]. destruct (is_empty st.2); [apply sends_ret|].
    destruct (hops_left (hdrs req) (max_hops g)) as [hops|] eqn:Eh; cbn [default from_option id].
    + apply sends_fold. intros answers group _. unfold fetch_group. destruct answers as [answers|]; [|apply sends_ret].
      destruct (to_vec _); [|apply sends_ret]. apply sends_bind; [|intros; apply sends_ret].
      eapply sends_weaken; [apply spending_to|]. intros rq. by apply spending_passed_on.
    + apply sends_fold. intros answers group _. unfold fetch_group. destruct answers as [answers|]; [|apply sends_ret].
      destruct (to_vec _); [|apply sends_ret]. apply sends_bind; [|intros; apply sends_ret].
      unfold forward_to. rewrite bool_decide_eq_true_2 by done. apply sends_ret.
Qed.

Lemma call_passes c s g req w :
  galaxy s = Some g -> sends_at (w, s) (run_call c req) (passed_on (max_hops g) (hdrs req)).
Proof. destruct c; [apply read_passes|apply write_passes|apply bulk_write_passes|apply bulk_read_passes]. Qed.

(** A server in the state [s] sends [rq] while it answers [req] with a handler
    of the kind [ok]. *)
Definition reacts (ok : Call -> bool) (s : SharedState) (req : HttpRequest) (rq : Request) : Prop :=
  exists c w l, ok c = true /\ trace (run_call c req (w, s)).1 = trace (w, s) ++ l /\ rq ∈ l.

Definition u8 (z : Z) : Prop := (0 <= z < 256)%Z.

(** A chain: each server, in whatever state and with whatever [max_hops], sends
    the next request while it answers the one before. *)
Inductive relays (ok : Call -> bool) : HttpRequest -> list Request -> Prop :=
  | relays_end req : relays ok req []
  | relays_hop s g req rq path query rest :
      galaxy s = Some g -> u8 (max_hops g) -> reacts ok s req rq ->
      relays ok (mkHttp (rq_headers rq) path query) rest -> relays ok req (rq :: rest).

Lemma reacts_sends ok s req rq (P : Request -> Prop) :
  (forall c w, ok c = true -> sends_at (w, s) (run_call c req) P) -> reacts ok s req rq -> P rq.
Proof.
  intros HP (c & w & l & Hc & E & Hin). destruct (HP c w Hc) as (l' & E' & F).
  rewrite E in E'. apply app_inv_head in E' as <-. rewrite Forall_forall in F. by apply F.
Qed.

Lemma reacts_passed_on ok s g req rq :
  galaxy s = Some g -> reacts ok s req rq -> passed_on (max_hops g) (hdrs req) rq.
Proof. intros Hg. apply reacts_sends. intros c w _. by apply call_passes. Qed.

Lemma relays_cascade ok req rest : relays ok req rest -> cascade (hdrs req) rest.
Proof.
  induction 1 as [|s g req rq path query rest Hg Hm Hr _ IH]; [constructor|].
  eapply cascade_hop; [exact Hm|by eapply reacts_passed_on|exact IH].
Qed.

(** ** For whom a write is sent on *)
Definition writing (c : Call) : bool := match c with CWrite _ _ | CBulkWrite _ _ => true | _ => false end.

Definition sent_for (origin : str) (rq : Request) : Prop :=
  header (rq_headers rq) ORIGIN_HEADER = Some (Some origin) /\ is_Some (header (rq_headers rq) HOPS_HEADER).

Lemma outgoing_sent_for p method path body hops origin : sent_for origin (outgoing p method path body hops origin).
Proof. split; [apply outgoing_origin|]. rewrite outgoing_hops. by eexists. Qed.

Lemma sent_for_send {S : Type} g p method path body hops origin :
  sends (W := W * S) (send g p method path body hops origin) (sent_for origin).
Proof.
  unfold send. destruct (negb _); [apply sends_ret|]. apply sends_bind; [|intros; apply sends_ret].
  intros w. exists [outgoing p method path body hops origin]. split; [apply trace_exchange|].
  constructor; [apply outgoing_sent_for|done].
Qed.

Lemma sent_for_write {S : Type} g ns method path body hops origin :
  sends (W := W * S) (forward_write g ns method path body hops origin) (sent_for origin).
Proof. unfold forward_write. cbv zeta. sending. apply sent_for_send. Qed.

Lemma sent_for_batch {S : Type} g nss path body hops origin :
  sends (W := W * S) (forward_batch g nss path body hops origin) (sent_for origin).
Proof. unfold forward_batch. cbv zeta. sending. apply sent_for_send. Qed.

Lemma call_sent_for c s req w :
  writing c = true -> sends_at (w, s) (run_call c req) (sent_for (origin_to_send s req)).
Proof.
  destruct c as [|ns q|e items|]; try done; intros _; (apply sends_at_bind; [apply sends_at_all, quiet_get|]);
    unfold get_state, act; cbn [fst snd]; apply sends_at_all.
  - destruct (authorize s req ns WriteAccess); [apply sends_ret|]. destruct (w_val q) as [v|]; [|apply sends_ret].
    destruct (should_forward s req ns) as [[hops|resp]|], (galaxy s) as [g|]; quiet.
    + apply sent_for_write.
    + apply quiet_note_consensus.
  - destruct (api_key s req) as [k|resp]; [|apply sends_ret]. cbv zeta.
    destruct (galaxy s) as [g|]; [|apply quiet_write_bulk_here].
    destruct (is_empty _); [apply quiet_write_bulk_here|]. destruct (hops_left _ _) as [hops|]; [|apply sends_ret].
    destruct (to_vec _) as [payload|]; [|apply sends_ret]. apply sends_bind; [apply sent_for_batch|].
    intros [answers|err]; [apply quiet_merged_batch|apply sends_ret].
Qed.

Lemma origin_of_sent o rq : sent_for o rq -> trim o = o -> o <> [] -> origin_of (rq_headers rq) = Some o.
Proof.
  intros [Ho [x Hh]] Ht Hne. unfold origin_of. rewrite Hh, Ho, Ht. by destruct o.
Qed.

Lemma relays_origin o req rest :
  relays writing req rest -> origin_of (hdrs req) = Some o -> trim o = o -> o <> [] -> Forall (sent_for o) rest.
Proof.
  induction 1 as [|s g req rq path query rest Hg Hm Hr _ IH]; intros Ho Ht Hne; [constructor|].
  assert (Hrq : sent_for o rq).
  { eapply reacts_sends; [|exact Hr]. intros c w Hc. pose proof (call_sent_for c s req w Hc) as Hs.
    unfold origin_to_send in Hs. by rewrite Ho in Hs. }
  constructor; [done|]. apply IH; [|done..]. by apply (origin_of_sent o rq).
Qed.
End Passing.

(** ** Properties *)

(** C9: a read, a write or a batch of either is not forwarded for ever.  However
    the servers are wired, in whatever states they are and whatever [max_hops]
    each of them has, the chain of requests that one such request of a client
    sets off, each sent by a server while it answers the one before, is no longer
    than the [max_hops] of the server the client talked to. *)
Theorem forwarding_ends {W} `{Network W, !Tracing W, Serde, Chrono, HashOrder} digest32 digest64 disk clock
    s g req rq path query rest :
  from_client (hdrs req) -> galaxy s = Some g -> u8 (max_hops g) ->
  reacts digest32 digest64 disk clock (fun _ => true) s req rq ->
  relays digest32 digest64 disk clock (fun _ => true) (mkHttp (rq_headers rq) path query) rest ->
  (Z.of_nat (length (rq :: rest)) <= max_hops g)%Z.
Proof.
  intros Hc Hg Hm Hr Hrest. apply relays_cascade in Hrest.
  eapply cascade_bounded; [exact Hm|exact Hc| |exact Hrest]. by eapply reacts_passed_on.
Qed.

(** A write is attributed to the server the client talked to: every request
    of the chain that one client's write sets off names that server as the
    origin, so the mirror that stores it counts it for that node and not for
    the one that passed it on last. *)
Theorem origin_kept {W} `{Network W, !Tracing W, Serde, Chrono, HashOrder} digest32 digest64 disk clock
    s req rq path query rest :
  from_client (hdrs req) -> trim (node (db s)) = node (db s) -> node (db s) <> [] ->
  reacts digest32 digest64 disk clock writing s req rq ->
  relays digest32 digest64 disk clock writing (mkHttp (rq_headers rq) path query) rest ->
  Forall (fun r => sent_for (node (db s)) r /\ origin_of (rq_headers r) = Some (node (db s))) (rq :: rest).
Proof.
  intros Hc Ht Hne Hr Hrest.
  assert (Hrq : sent_for (node (db s)) rq).
  { eapply reacts_sends; [|exact Hr]. intros c w Hw.
    pose proof (call_sent_for digest32 digest64 disk clock c s req w Hw) as Hs.
    unfold origin_to_send, origin_of in Hs. unfold from_client in Hc. by rewrite Hc in Hs. }
  assert (Hall : Forall (sent_for (node (db s))) (rq :: rest)).
  { constructor; [done|]. eapply relays_origin; [exact Hrest|by apply origin_of_sent|done..]. }
  eapply Forall_impl; [exact Hall|]. intros r Hs. split; [done|]. by apply origin_of_sent.
Qed.

(** ** Two routers that are each other's peer *)
Definition demo_state : SharedState :=
  mkShared (with_node (mkPolicy 0 0) (from_prefixes [lit "own"]) (lit "n1")) false ∅ rj_default
    (Some demo_galaxy) ∅ true false ∅ [] None None None None default_stix.
Definition refusing : Network (list Request) := traced (fun _ _ => inr []) true (fun _ => None).
Definition demo_request : HttpRequest := mkHttp [] (lit "/w/feeds") (Some (lit "val=x")).
Definition demo_write : Call := CWrite (lit "feeds") (mkWriteQuery (Some (lit "x")) None None None).
Definition first_sent (req : HttpRequest) : Request :=
  outgoing (mkPeer (lit "http://a:9999") (lit "ka") store_everything true) GET (path_and_query req) None
    (default 0%Z (hops_left (hdrs req) (max_hops demo_galaxy))) (origin_to_send demo_state req).
Definition second_request : HttpRequest := mkHttp (rq_headers (first_sent demo_request)) (lit "/w/feeds") (Some (lit "val=x")).

Definition sent_of_demo (C : Chrono) (O : HashOrder) (N : Network (list Request)) (S : Serde) (req : HttpRequest) : list Request :=
  (@run_call (list Request) N S C O (fun _ => 7%N) demo_digest ∅ (fun _ => demo_time) demo_write req ([], demo_state)).1.1.

Lemma demo_reacts (req : HttpRequest) :
  let C := chrono_10000y in let O := some_order in let N := refusing in let S := demo_serde in
  forall ok, ok demo_write = true -> req ∈ [demo_request; second_request] ->
  @reacts _ N _ S C O (fun _ => 7%N) demo_digest ∅ (fun _ => demo_time) ok demo_state req (first_sent req).
Proof.
  intros C O N S ok Hok Hreq. rewrite !elem_of_cons in Hreq.
  destruct Hreq as [->|[->|Hn%elem_of_nil]]; [| |done];
    [exists demo_write, [], (sent_of_demo C O N S demo_request)|exists demo_write, [], (sent_of_demo C O N S second_request)];
    (split; [exact Hok|]); (split; [reflexivity|]); apply (list_elem_of_lookup_2 _ 0); by vm_compute.
Qed.

Lemma forwarding_ends_witness :
  (Z.of_nat (length [first_sent demo_request; first_sent second_request]) <= 4)%Z.
Proof.
  pose (C := chrono_10000y). pose (O := some_order). pose (N := refusing). pose (S := demo_serde).
  apply (@forwarding_ends _ N _ S C O (fun _ => 7%N) demo_digest ∅ (fun _ => demo_time) demo_state demo_galaxy
    demo_request (first_sent demo_request) (lit "/w/feeds") (Some (lit "val=x")) [first_sent second_request]).
  - reflexivity.
  - reflexivity.
  - vm_compute. done.
  - apply demo_reacts; [done|left].
  - apply (relays_hop _ _ _ _ _ demo_state demo_galaxy _ _ [] None); [reflexivity|vm_compute; done| |constructor].
    apply demo_reacts; [done|right; left].
Defined.

Lemma origin_kept_witness :
  Forall (fun r => sent_for (lit "n1") r /\ origin_of (rq_headers r) = Some (lit "n1"))
    [first_sent demo_request; first_sent second_request].
Proof.
  pose (C := chrono_10000y). pose (O := some_order). pose (N := refusing). pose (S := demo_serde).
  apply (@origin_kept _ N _ S C O (fun _ => 7%N) demo_digest ∅ (fun _ => demo_time) demo_state
    demo_request (first_sent demo_request) (lit "/w/feeds") (Some (lit "val=x")) [first_sent second_request]).
  - reflexivity.
  - vm_compute. reflexivity.
  - discriminate.
  - apply demo_reacts; [done|left].
  - apply (relays_hop _ _ _ _ _ demo_state demo_galaxy _ _ [] None); [reflexivity|vm_compute; done| |constructor].
    apply demo_reacts; [done|right; left].
Defined.
