(* ===== verification/Exporting.v ===== *)
(** * Exporting over HTTP

    Models the STIX export of [src/src/handlers.rs]: [GET /stix/<namespace>],
    one value of it, [POST /_api/stix], the expansion of a namespace into the
    subtree below it, here and on the mirrors, and the export gathered from the
    mirrors that store what this server does not.

    The request has been read by [serde]; whether a text may be the value of a
    header, and what is answered when it may not, is the HTTP crate's. *)

From stdpp Require Import base numbers list strings gmap sorting pretty.
From S2P Require Import Prelude Text Activity Latest Attribute AttributeFacts Convergence Paths Acl Rejections Tags Tier Namespace Disk Database Contents Refine Consensus Eviction Service Accounted System Listing Peers Config Forward Stix CatchUp Handlers.

(** ** Requests *)
Record ExportRequest := mkExportRequest {
  er_namespaces : list str;
  er_namespace : option str;
  er_q : str;
  er_limit : option nat;
  er_untyped : Untyped;
  er_recursive : bool;
}.

(** [ExportRequest::wanted] *)
Definition want (l : list str) (ns : str) : list str :=
  let ns := trim_slashes (trim ns) in
  if is_empty ns || bool_decide (ns ∈ l) then l else l ++ [ns].
Definition wanted (r : ExportRequest) : list str :=
  foldl want [] (match er_namespace r with Some n => [n] | None => [] end ++ er_namespaces r).

(** The two [limit]s *)
Definition export_limit (limit : option nat) : nat := clamp_nat 1 (N.to_nat 100000) (default (N.to_nat 10000) limit).

Record ExportQuery := mkExportQuery {
  eq_limit : option nat;
  eq_recursive : option str;
  eq_untyped : option str;
  eq_val : option str;
}.
Definition query_untyped (q : ExportQuery) : Untyped :=
  match eq_untyped q with Some u => if bool_decide (u = lit "include") then Include else Skip | None => Skip end.

(** ** Answers *)
Class HeaderValues := { header_ok : str -> bool; header_error : Z * bytes }.

Definition STIX_TYPE : str := lit "application/stix+json;version=2.1".
Definition bool_text (b : bool) : str := if b then lit "true" else lit "false".
Definition stix_headers (e : Export) : list (str * str) :=
  [(lit "X-SightingDB-Exported", usize_text (exported e));
   (lit "X-SightingDB-Skipped", usize_text (length (skipped e)));
   (lit "X-SightingDB-Untyped", usize_text (untyped_count e));
   (lit "X-SightingDB-Namespaces", usize_text (export_namespaces_count e));
   (lit "X-SightingDB-Truncated", bool_text (truncated e));
   (CONTENT_TYPE, STIX_TYPE)].
Definition COMMA : N := 44.
Definition stix_response `{HeaderValues} (e : Export) : HttpResponse :=
  if is_empty (missing e) then mkHttpResponse OK (stix_headers e) (BJson (bundle e))
  else
    let names := join_with [COMMA] (missing e) in
    if header_ok names
    then mkHttpResponse OK (stix_headers e ++ [(lit "X-SightingDB-Missing", names)]) (BJson (bundle e))
    else mkHttpResponse header_error.1 [] (BBytes header_error.2).

(** ** What a mirror exported *)
Definition exported_from `{Serde} (answer : Forwarded) : option Export :=
  match from_slice (fw_body answer) with
  | None => None
  | Some b =>
      let header name := snd <$> head (filter (fun p => eq_ignore_ascii_case p.1 (lit name) = true) (fw_headers answer)) in
      let number name := match header name with
                         | Some v => match u64_from_str v with Some n => Z.to_nat n | None => 0 end
                         | None => 0
                         end in
      Some (mkExport b (number "x-sightingdb-exported"%string) [] (number "x-sightingdb-untyped"%string)
              (bool_decide (header "x-sightingdb-truncated"%string = Some (lit "true")))
              (match header "x-sightingdb-missing"%string with Some l => split_char COMMA l | None => [] end)
              (number "x-sightingdb-namespaces"%string))
  end.

Definition unreachable_part (names : list str) : Export := mkExport (JObj []) 0 [] 0 false names 0.

(** What a mirror is asked for *)
Definition untyped_text (u : Untyped) : str := match u with Include => lit "include" | Skip => lit "skip" end.
Definition export_payload (names : list str) (filter : str) (limit : nat) (untyped : Untyped) : Json :=
  JObj [(lit "namespaces", JArr (JStr <$> names)); (lit "q", JStr filter); (lit "limit", JInt (Z.of_nat limit));
        (lit "untyped", JStr (untyped_text untyped))].

Section Exporting.
Context {W : Type} `{Network W} `{Serde} `{Chrono} `{HashOrder} `{StixLibs} `{HeaderValues}.
Context (digest32 : str -> N) (digest64 : str -> N) (disk : Disk) (clock : W -> Z).
Abbreviation Handler A := (Net (W * SharedState) A).

(** A computation of [galaxy.rs] run by a handler. *)
Definition on_galaxy {A} (m : Net (W * Database) A) : Handler A :=
  act (fun ws => let r := m (ws.1, db ws.2) in ((r.1.1, with_db ws.2 r.1.2), r.2)).

(** ** Subtrees *)
Definition expand_subtrees (s : SharedState) (req : HttpRequest) (wanted : list str) : list str :=
  match api_key s req with
  | inr _ => wanted
  | inl apikey => foldl push_once [] (mjoin ((fun ns => namespaces_under (db s) ns (may_read s apikey)) <$> wanted))
  end.

(** One name a mirror listed *)
Definition reach (s : SharedState) (apikey : option str) (found : list str) (name : str) : list str :=
  if is_internal name || negb (may_read s apikey name) || bool_decide (name ∈ found) then found else found ++ [name].

Definition reachable_subtrees (req : HttpRequest) (wanted : list str) : Handler (list str) :=
  s ← get_state;
  let found := expand_subtrees s req wanted in
  match galaxy s with
  | None => mret found
  | Some g =>
      match api_key s req with
      | inr _ => mret found
      | inl apikey =>
          reachable ← on_galaxy (galaxy_namespaces_under g wanted);
          s' ← get_state;
          mret (sort_strs (foldl (reach s' apikey) found reachable))
      end
  end.

(** ** Gathering *)

(** The namespaces with the mirror that will serve each, and those of nobody *)
Definition assign_mirror (g : Galaxy) (st : list (str * list str) * list str) (ns : str) :
    list (str * list str) * list str :=
  match reader_url digest64 g ns [] with
  | inl url => (group_with url ns st.1, st.2)
  | inr _ => (st.1, st.2 ++ [ns])
  end.

(** The exports so far and the namespaces that could not be asked about, or the
    answer that ends the loop *)
Abbreviation Gathered := (list Export * list str)%type.

Definition gather_one (error_text : str) (g : Galaxy) (filter : str) (limit : nat) (untyped : Untyped)
    (st : Gathered + HttpResponse) (group : str * list str) : Handler (Gathered + HttpResponse) :=
  match st with
  | inr resp => mret (inr resp)
  | inl (parts, unreachable) =>
      match to_vec (export_payload group.2 filter limit untyped) with
      | None => mret (inr (message_answer INTERNAL_SERVER_ERROR
                             (lit "could not ask " ++ group.1 ++ lit ": " ++ error_text)))
      | Some body =>
          r ← forward_to g group.1 POST (lit "/_api/stix") (Some body) (max_hops g) [];
          mret match r with
               | inl answer =>
                   if is_success (fw_status answer) then
                     match exported_from answer with
                     | Some part => inl (parts ++ [part], unreachable)
                     | None => inl (parts ++ [unreachable_part group.2], unreachable ++ group.2)
                     end
                   else inl (parts ++ [unreachable_part group.2],
                             if bool_decide (fw_status answer = 404%Z) then unreachable else unreachable ++ group.2)
               | inr _ => inl (parts ++ [unreachable_part group.2], unreachable ++ group.2)
               end
      end
  end.

Definition gather_answer (wanted : list str) (st : Gathered) : HttpResponse :=
  let merged := merge_exports wanted st.1 in
  if bool_decide (exported merged = 0) && bool_decide (length (missing merged) = length wanted) then
    if is_empty st.2 then error_response (ENotFound (not_found_namespace (default [] (head wanted)) []))
    else message_answer BAD_GATEWAY
           (lit "No mirror holding " ++ join_with (lit ", ") st.2
            ++ lit " could be asked to export it. It exists in this galaxy; this server could not reach what holds it.")
  else stix_response merged.

Definition gathered_export (error_text : str) (wanted : list str) (filter : str) (limit : nat) (untyped : Untyped) :
    Handler (option HttpResponse) :=
  s ← get_state;
  let away := base.filter (fun ns => elsewhere s ns = true) wanted in
  if is_empty away then mret None
  else
    match galaxy s with
    | None => mret None
    | Some g =>
        let '(grouped, nowhere) := foldl (assign_mirror g) ([], []) away in
        let mine := base.filter (fun ns => holds (stores (db s)) ns = true) wanted in
        here ← (if is_empty mine then mret []
                else e ← on_db clock (fun now d => export_namespaces digest32 disk now d (stix_settings s) mine filter limit untyped);
                     mret [e]);
        let parts := here ++ (if is_empty nowhere then [] else [unreachable_part nowhere]) in
        st ← net_fold (gather_one error_text g filter limit untyped) (inl (parts, [])) grouped;
        mret (Some match st with inr resp => resp | inl got => gather_answer wanted got end)
    end.

(** ** The handlers *)
Definition export_here (wanted : list str) (filter : str) (limit : nat) (untyped : Untyped) : Handler Export :=
  s ← get_state;
  on_db clock (fun now d => export_namespaces digest32 disk now d (stix_settings s) wanted filter limit untyped).

Definition export_stix_value (req : HttpRequest) (ns value : str) (q : ExportQuery) : Handler HttpResponse :=
  match eq_recursive q with
  | Some _ => mret (message_answer BAD_REQUEST
      (lit "val= names one value in one namespace, so it cannot be combined with recursive."))
  | None =>
      if is_empty value then mret (error_response EmptyValue)
      else
        s ← get_state;
        match should_forward s req ns, galaxy s with
        | Some (inr resp), _ => mret resp
        | Some (inl hops), Some g =>
            r ← forward_read digest64 g ns value (path_and_query req) hops [];
            mret match r with
                 | inl answer => relayed answer
                 | inr NoHolder => error_response (ENotFound (not_found_namespace ns value))
                 | inr e => forward_failed e
                 end
        | _, _ =>
            r ← on_db clock (fun now d => export_value digest32 disk now d (stix_settings s) ns value (query_untyped q));
            s' ← get_state;
            mret match r with
                 | Some e => stix_response e
                 | None => error_response (ENotFound (if namespace_exists (db s') ns then not_found_value ns value
                                                     else not_found_namespace ns value))
                 end
        end
  end.

Definition export_stix (error_text : str) (req : HttpRequest) (ns : str) (q : ExportQuery) : Handler HttpResponse :=
  s ← get_state;
  match authorize s req ns ReadAccess with
  | Some resp => mret resp
  | None =>
      if starts_with CONFIG_PREFIX ns then mret (error_response ConfigNamespace)
      else
        match eq_val q with
        | Some value => export_stix_value req ns value q
        | None =>
            let limit := export_limit (eq_limit q) in
            match eq_recursive q with
            | Some _ =>
                wanted ← reachable_subtrees req [ns];
                if is_empty wanted then mret (error_response (ENotFound (not_found_namespace ns [])))
                else
                  r ← gathered_export error_text wanted [] limit (query_untyped q);
                  match r with
                  | Some resp => mret resp
                  | None => e ← export_here wanted [] limit (query_untyped q); mret (stix_response e)
                  end
            | None =>
                r ← gathered_export error_text [ns] [] limit (query_untyped q);
                match r with
                | Some resp => mret resp
                | None =>
                    e ← on_db clock (fun now d => export_namespace digest32 disk now d (stix_settings s) ns limit (query_untyped q));
                    mret match e with
                         | Some e => stix_response e
                         | None => error_response (ENotFound (not_found_namespace ns []))
                         end
                end
            end
        end
  end.

(** The namespaces named, one after the other *)
Fixpoint authorize_exports (s : SharedState) (req : HttpRequest) (wanted : list str) : option HttpResponse :=
  match wanted with
  | [] => None
  | ns :: rest =>
      if starts_with CONFIG_PREFIX ns then Some (error_response ConfigNamespace)
      else match authorize s req ns ReadAccess with
           | Some resp => Some resp
           | None => authorize_exports s req rest
           end
  end.

Definition export_wanted (error_text : str) (body : ExportRequest) (wanted : list str) : Handler HttpResponse :=
  let limit := export_limit (er_limit body) in
  r ← gathered_export error_text wanted (er_q body) limit (er_untyped body);
  match r with
  | Some resp => mret resp
  | None =>
      e ← export_here wanted (er_q body) limit (er_untyped body);
      mret (if bool_decide (length (missing e) = length wanted)
            then error_response (ENotFound (not_found_namespace (default [] (head wanted)) []))
            else stix_response e)
  end.

Definition export_stix_api (error_text : str) (req : HttpRequest) (body : ExportRequest) : Handler HttpResponse :=
  let named := wanted body in
  if is_empty named then mret (message_answer BAD_REQUEST (lit "Name at least one namespace to export."))
  else
    s ← get_state;
    match authorize_exports s req named with
    | Some resp => mret resp
    | None =>
        if er_recursive body then
          found ← reachable_subtrees req named;
          if is_empty found then mret (error_response (ENotFound (not_found_namespace (default [] (head named)) [])))
          else export_wanted error_text body found
        else export_wanted error_text body named
    end.
End Exporting.
