(* ===== verification/ExportFacts.v ===== *)
(** * What an export holds, and who may see it

    Over [Stix] and [Exporting]: an export of namespaces is read from the
    abstract contents, within its limit, and is complete unless it says it was
    cut; a key reaches nothing through an export that it may not read; and an
    export passed on from server to server is not bounded by the hop limit. *)

From stdpp Require Import base numbers list strings gmap sorting pretty.
From S2P Require Import Prelude Text Activity Latest Attribute AttributeFacts Convergence Paths Acl Rejections Tags Tier Namespace Disk Database Contents Refine Consensus Eviction Service Accounted System Listing Peers Config Forward ForwardFacts Stix StixFacts CatchUp CatchUpFacts Handlers HandlerFacts Cascade Exporting.

(** ** Reading the pages *)
Section Pages.
Context `{HashOrder} (digest32 : str -> N) (disk : Disk) (now : Z) (abs : Abs) (flt : str).
Abbreviation impl := (implements digest32 disk).

(** A live value of a namespace that the filter lets through, as it is shown *)
Definition asked (ns v : str) (vw : AttributeView) : Prop :=
  exists a, visible now abs ns v = Some a /\ matches (to_ascii_lowercase flt) v = true
            /\ vw = with_consensus now abs (view a 0 false).

Lemma visible_value db ns v a : impl db abs -> visible now abs ns v = Some a -> value a = v.
Proof.
  intros Himp Hv. destruct (namespace_spec digest32 disk now db abs ns Himp) as ([Hi _] & _ & _ & _ & Hr).
  unfold visible, a_values in Hv. destruct (namespace digest32 disk now db ns).2 as [n|]; destruct Hr as [Hr1 Hr2].
  - rewrite Hr2 in Hv. cbn in Hv. unfold stored_values in Hv. rewrite lookup_fmap in Hv.
    destruct (values n !! v) as [b|] eqn:E; [|done]. cbn in Hv. destruct (is_expired _ _); [done|]. injection Hv as <-.
    by destruct (ns_attr _ (ok_wf _ (inv_ns _ _ _ Hi _ _ Hr1)) _ _ E).
  - rewrite Hr1 in Hv. cbn in Hv. by rewrite lookup_empty in Hv.
Qed.

Lemma asked_value db ns v vw : impl db abs -> asked ns v vw -> v_value vw = v.
Proof. intros Himp (a & Hv & _ & ->). by apply (visible_value db ns v a). Qed.

Lemma asked_unique ns v vw vw' : asked ns v vw -> asked ns v vw' -> vw = vw'.
Proof. intros (a & Ha & _ & ->) (a' & Ha' & _ & ->). congruence. Qed.

(** One page: at most [limit] of the values asked for, all of them when the page
    says so *)
Lemma page_asked db ns limit :
  impl db abs ->
  let p := value_page digest32 disk now db ns flt 0 limit false in
  impl p.1 abs
  /\ match p.2 with
     | None => abs !! ns = None
     | Some page => is_Some (abs !! ns) /\ length (items page) <= limit
         /\ (forall vw, vw ∈ items page -> exists v, asked ns v vw)
         /\ ((length (items page) <? total page)%nat = false -> forall v vw, asked ns v vw -> vw ∈ items page)
     end.
Proof.
  intros Himp p. destruct (value_page_spec digest32 disk now abs db ns flt 0 limit false Himp) as [H1 H2].
  split; [exact H1|]. fold p in H2. destruct (abs !! ns) as [vs|] eqn:Ea; [|by rewrite H2].
  destruct H2 as (names & page & -> & _ & _ & Hn & Ht & Hi). split; [done|]. unfold page_of in Hi. rewrite drop_0 in Hi.
  split_and!.
  - rewrite Hi, length_fmap, length_take. lia.
  - intros vw. rewrite Hi. intros (v & -> & Hv)%list_elem_of_fmap. exists v. apply elem_of_take in Hv as (i & Hv & _).
    apply list_elem_of_lookup_2 in Hv. destruct (proj1 (Hn v) Hv) as [[a Ha] Hm]. exists a. by rewrite Ha.
  - intros Hl v vw (a & Ha & Hm & ->). apply Nat.ltb_ge in Hl. rewrite Hi, Ht, length_fmap, length_take in Hl.
    rewrite Hi, take_ge by lia. apply list_elem_of_fmap. exists v. rewrite Ha. split; [done|]. apply Hn. by eauto.
Qed.

Definition pages_size (pages : list (str * list AttributeView)) : nat := sum_list ((fun p => length p.2) <$> pages).

Lemma read_pages_spec names budget st :
  impl (rd_db st) abs ->
  let st' := read_pages digest32 disk now flt budget names st in
  exists pages gone, rd_pages st' = rd_pages st ++ pages /\ rd_missing st' = rd_missing st ++ gone
    /\ impl (rd_db st') abs /\ pages_size pages <= budget
    /\ (forall ns vs vw, (ns, vs) ∈ pages -> vw ∈ vs -> ns ∈ names /\ exists v, asked ns v vw)
    /\ (rd_truncated st' = false -> rd_truncated st = false /\ gone = filter (fun ns => abs !! ns = None) names
        /\ forall ns v vw, ns ∈ names -> asked ns v vw -> exists vs, (ns, vs) ∈ pages /\ vw ∈ vs).
Proof.
  revert budget st. induction names as [|ns names IH]; intros budget st Himp st'; subst st'.
  - exists [], []. cbn [read_pages]. rewrite !app_nil_r. split_and!; [done..|unfold pages_size; cbn; lia| |].
    + by intros ns vs vw ?%elem_of_nil.
    + intros Ht. split_and!; [done..|]. by intros ns v vw ?%elem_of_nil.
  - cbn [read_pages]. destruct budget as [|b].
    { exists [], []. cbn. rewrite !app_nil_r. split_and!; [done..|unfold pages_size; cbn; lia| |done]. by intros ? ? ? ?%elem_of_nil. }
    destruct (page_asked (rd_db st) ns (S b) Himp) as [H1 H2]. cbv zeta.
    set (r := value_page _ _ _ _ _ _ _ _ _) in *. destruct r.2 as [page|].
    + destruct H2 as ([vs0 Hvs0] & Hlen & Hsound & Hall).
      destruct (IH (S b - length (items page)) (mkReading r.1 (rd_pages st ++ [(ns, items page)]) (rd_missing st)
        (rd_truncated st || (length (items page) <? total page)%nat)) H1) as (pages & gone & E1 & E2 & H3 & Hsz & Hs & Hc).
      exists ((ns, items page) :: pages), gone. cbn [rd_pages rd_missing rd_truncated] in *. split_and!.
      * by rewrite E1, <- app_assoc.
      * exact E2.
      * exact H3.
      * unfold pages_size in *. rewrite fmap_cons. cbn. lia.
      * intros n vs vw [[= -> ->]|Hin]%elem_of_cons Hvw; [split; [left|by apply Hsound]|].
        destruct (Hs n vs vw Hin Hvw) as [Hn Ha]. split; [by right|done].
      * intros Ht. destruct (Hc Ht) as ([Ht0 Htp]%orb_false_iff & -> & Hcomp). split_and!; [done| |].
        -- rewrite filter_cons_False; [done|]. by rewrite Hvs0.
        -- intros n v vw [->|Hin]%elem_of_cons Ha; [exists (items page); split; [left|by eapply Hall]|].
           destruct (Hcomp n v vw Hin Ha) as (vs & ? & ?). exists vs. split; [by right|done].
    + destruct (IH (S b) (mkReading r.1 (rd_pages st) (rd_missing st ++ [ns]) (rd_truncated st)) H1)
        as (pages & gone & E1 & E2 & H3 & Hsz & Hs & Hc).
      exists pages, (ns :: gone). cbn [rd_pages rd_missing rd_truncated] in *. split_and!; [done| |done..| |].
      * by rewrite E2, <- app_assoc.
      * intros n vs vw Hin Hvw. destruct (Hs n vs vw Hin Hvw) as [Hn Ha]. split; [by right|done].
      * intros Ht. destruct (Hc Ht) as (Ht0 & -> & Hcomp). split_and!; [done| |].
        -- by rewrite filter_cons_True.
        -- intros n v vw [->|Hin]%elem_of_cons Ha; [|by eapply Hcomp]. destruct Ha as (a & Ha & _).
           unfold visible, a_values in Ha. rewrite H2 in Ha. cbn in Ha. by rewrite lookup_empty in Ha.
Qed.
End Pages.

(** ** From the values to the bundle *)
Section Objects.
Context `{StixLibs} `{Chrono} (settings : Publisher) (untyped : Untyped).
Abbreviation author := (identity_id (pub_identity settings)).

(** Every value is exported or skipped. *)
Lemma share_counts x : sh_exported (share author untyped x) + length (sh_skipped (share author untyped x)) = 1.
Proof. destruct x as [p vw]. unfold share. destruct (observable_type _ _ _); [destruct (pattern_for _ _)|]; done. Qed.

Lemma bundle_counts parts :
  exported (bundle_of parts settings untyped) + length (skipped (bundle_of parts settings untyped))
  = length (values_of parts).
Proof.
  rewrite bundle_of_gathered. cbn [exported skipped].
  induction (values_of parts) as [|x l IH]; [done|]. rewrite !fmap_cons, mjoin_cons, length_app.
  change (length (x :: l)) with (1 + length l). rewrite <- (share_counts x), <- IH.
  change (sum_list (?y :: ?k)) with (y + sum_list k). lia.
Qed.

Lemma sighting_namespace ns o view id author' by_ refs :
  json_get (lit "x_sightingdb_namespace") (sighting ns o view id author' by_ refs) = Some (JStr ns).
Proof. unfold sighting. look. done. Qed.

Lemma sighting_count ns o view id author' by_ refs :
  json_get (lit "count") (sighting ns o view id author' by_ refs) = Some (JInt (Z.max 1 (Z.min 999999999 (v_count view)))).
Proof. unfold sighting. look. done. Qed.

(** A sighting of the bundle is one value's. *)
Definition sighting_of (ns : str) (vw : AttributeView) (o : Json) : Prop :=
  json_get (lit "x_sightingdb_namespace") o = Some (JStr ns)
  /\ json_get (lit "count") o = Some (JInt (Z.max 1 (Z.min 999999999 (v_count vw))))
  /\ exists ob, object_id o = Some (sighting_id ns ob (v_value vw)).

Lemma bundle_sightings parts o :
  o ∈ bundle_objects (bundle (bundle_of parts settings untyped)) -> json_get (lit "type") o = Some (JStr (lit "sighting")) ->
  exists x, x ∈ values_of parts /\ sighting_of (part_namespace x.1) x.2 o.
Proof.
  rewrite bundle_of_gathered. change (bundle_objects _) with (retain_first [] (gathered_objects settings untyped parts)).
  intros Ho%retain_first_elem Ht. unfold gathered_objects in Ho.
  apply elem_of_cons in Ho as [->|[Ho|[Ho|Ho]%elem_of_app]%elem_of_app].
  - by injection Ht.
  - apply elem_of_shares in Ho as (x & Hx & (ob & pt & fb & [->| ->] & _)%share_objects); [by injection Ht|].
    exists x. split; [done|]. split_and!; [apply sighting_namespace|apply sighting_count|by exists ob].
  - pose proof (push_identities_typed (mjoin (sh_identities <$> (share author untyped <$> values_of parts))) []
      (identities_typed settings untyped parts)) as Hty. rewrite Forall_forall in Hty.
    destruct (Hty o Ho) as [Ht' _]. rewrite Ht' in Ht. by injection Ht.
  - pose proof (used_markings_typed (foldl push_once [] (mjoin (sh_markings <$> (share author untyped <$> values_of parts))))) as Hty.
    rewrite Forall_forall in Hty. destruct (Hty o Ho) as [Ht' _]. rewrite Ht' in Ht. by injection Ht.
Qed.

(** The type a value is written as, when STIX has a pattern for it *)
Definition expressed_as (default_type : option str) (vw : AttributeView) : option str :=
  t ← observable_type vw default_type untyped; _ ← pattern_for (observable t) (v_value vw); Some (observable t).

Lemma sighting_of_kind ns ob v o l :
  Forall (fun o => exists k, k ∈ KINDS /\ typed k o) l -> o ∈ l -> object_id o = Some (sighting_id ns ob v) ->
  json_get (lit "type") o = Some (JStr (lit "sighting")).
Proof.
  rewrite Forall_forall. intros Hl Ho Hi. destruct (Hl o Ho) as (k & Hk & Ht & i & Hi' & Hki).
  assert (k = lit "sighting") as ->; [|exact Ht]. apply (kind_unique _ _ i Hk); [right; left|exact Hki|].
  rewrite Hi in Hi'. injection Hi' as <-. by eexists.
Qed.

(** Every value of the parts that has no such type is left out by name, and for
    any other one a sighting has its id. *)
Lemma bundle_covers parts x :
  x ∈ values_of parts ->
  match expressed_as (part_default_type x.1) x.2 with
  | None => v_value x.2 ∈ skipped (bundle_of parts settings untyped)
  | Some ob => exists o, o ∈ bundle_objects (bundle (bundle_of parts settings untyped))
                 /\ json_get (lit "type") o = Some (JStr (lit "sighting"))
                 /\ object_id o = Some (sighting_id (part_namespace x.1) ob (v_value x.2))
  end.
Proof.
  intros Hx. rewrite bundle_of_gathered.
  change (bundle_objects _) with (retain_first [] (gathered_objects settings untyped parts)). cbn [skipped].
  destruct x as [p vw]. unfold expressed_as. cbn [fst snd].
  assert (Hskip : sh_skipped (share author untyped (p, vw)) = [v_value vw] ->
    v_value vw ∈ mjoin (sh_skipped <$> (share author untyped <$> values_of parts))).
  { intros E. apply elem_of_shares. exists (p, vw). split; [exact Hx|]. rewrite E. left. }
  unfold share in Hskip. destruct (observable_type vw _ _) as [t|] eqn:Et; [|by apply Hskip]. cbn [mbind option_bind].
  destruct (pattern_for (observable t) _) as [pt|] eqn:Ep; [|by apply Hskip]. cbn [mbind option_bind]. clear Hskip.
  set (i := sighting_id _ _ _). set (g := gathered_objects settings untyped parts).
  assert (Hin : exists o, o ∈ g /\ object_id o = Some i).
  { eexists (sighting (part_namespace p) (observable t) vw (indicator_id vw (observable t)) author (sighters author vw)
      (foldl push_once [] (marking_ids vw))). split; [|done]. unfold g, gathered_objects. right. apply elem_of_app. left.
    apply elem_of_shares. exists (p, vw). split; [done|]. unfold share. rewrite Et, Ep. cbn [sh_objects]. right. left. }
  destruct Hin as (o1 & Ho1 & Hi1). destruct (first_with i g) as [o|] eqn:E.
  - exists o. pose proof (first_with_Some _ _ _ E) as [Hg Hi]. split_and!; [|by eapply sighting_of_kind; [apply gathered_typed|..]|done].
    apply retained_iff; [apply gathered_has_id|]. by exists i.
  - by apply (proj1 (first_with_None _ _) E) in Ho1.
Qed.
End Objects.

Lemma values_of_pages `{HashOrder} settings pages x :
  x ∈ values_of (part_of settings <$> pages)
  <-> exists ns vs, (ns, vs) ∈ pages /\ x.2 ∈ vs /\ x.1 = mkPart ns vs (type_of_namespace settings ns).
Proof.
  unfold values_of. rewrite list_elem_of_join. split.
  - intros (l & Hx & (p & -> & ([ns vs] & -> & Hin)%list_elem_of_fmap)%list_elem_of_fmap).
    apply list_elem_of_fmap in Hx as (vw & -> & Hvw). by exists ns, vs.
  - intros (ns & vs & Hin & Hvw & E). destruct x as [p vw]. cbn in *. subst p. eexists. split; [|apply list_elem_of_fmap; eexists; split; [done|]].
    2:{ apply list_elem_of_fmap. by exists (ns, vs). }
    apply list_elem_of_fmap. by exists vw.
Qed.

Lemma values_of_size `{HashOrder} settings pages : length (values_of (part_of settings <$> pages)) = pages_size pages.
Proof.
  unfold values_of, pages_size. induction pages as [|p pages IH]; [done|]. rewrite !fmap_cons, mjoin_cons, length_app, IH, length_fmap. done.
Qed.

(** ** What an export touches *)
Section Sent.
Context {W : Type} `{Network W} `{!Tracing W} (digest64 : str -> N).

(** Sending leaves what this server keeps beside the network alone. *)
Definition still {S A} (m : Net (W * S) A) : Prop := forall ws, (m ws).1.2 = ws.2.

Lemma still_ret {S A} (x : A) : still (S := S) (mret x).
Proof. by intros ws. Qed.
Lemma still_bind {S A B} (m : Net (W * S) A) (k : A -> Net (W * S) B) : still m -> (forall x, still (k x)) -> still (m ≫= k).
Proof. intros Hm Hk ws. unfold mbind, Net_bind. cbv zeta. by rewrite Hk, Hm. Qed.
Lemma still_fold {S A B} (f : B -> A -> Net (W * S) B) b l : (forall b x, still (f b x)) -> still (net_fold f b l).
Proof. intros Hf. revert b. induction l as [|x l IH]; intros b; [apply still_ret|]. by apply still_bind. Qed.
Lemma still_send {S} g p method path body hops origin :
  still (send (W := W * S) g p method path body hops origin).
Proof. unfold send. destruct (negb _); [apply still_ret|]. by apply still_bind. Qed.

(** A request as it was built *)
Definition built (method : Method) (path : str) (body : option bytes) (rq : Request) : Prop :=
  rq_method rq = method /\ (exists url, rq_url rq = url ++ path) /\ rq_body rq = body.

Lemma built_send {S} g p method path body hops origin :
  sends (W := W * S) (send g p method path body hops origin) (built method path body).
Proof.
  unfold send. destruct (negb _); [apply sends_ret|]. apply sends_bind; [|intros; apply sends_ret].
  intros w. exists [outgoing p method path body hops origin]. split; [apply trace_exchange|]. constructor; [|done].
  split_and!; [done|by eexists|done].
Qed.

Lemma forward_to_built {S} g url method path body hops origin :
  still (forward_to (W := W * S) g url method path body hops origin)
  /\ sends (W := W * S) (forward_to g url method path body hops origin) (built method path body).
Proof.
  unfold forward_to. destruct (bool_decide _); [by split; [apply still_ret|apply sends_ret]|].
  destruct (head _); [by split; [apply still_send|apply built_send]|by split; [apply still_ret|apply sends_ret]].
Qed.

Lemma forward_read_built `{HashOrder} {S} g ns v path hops origin :
  still (forward_read (W := W * S) digest64 g ns v path hops origin)
  /\ sends (W := W * S) (forward_read digest64 g ns v path hops origin) (built GET path None).
Proof.
  unfold forward_read. destruct (bool_decide _); [by split; [apply still_ret|apply sends_ret]|].
  destruct (is_empty _); [by split; [apply still_ret|apply sends_ret]|].
  destruct (reader_for _ _ _ _); [by split; [apply still_send|apply built_send]|by split; [apply still_ret|apply sends_ret]].
Qed.

Lemma still_namespaces_under `{Serde} g prefixes : still (galaxy_namespaces_under (W := W) g prefixes).
Proof.
  apply still_fold. intros found p. apply still_bind; [|intros; apply still_ret].
  apply still_bind; [apply still_send|intros; apply still_ret].
Qed.

Lemma namespaces_under_built `{Serde} g prefixes :
  still (galaxy_namespaces_under (W := W) g prefixes)
  /\ sends (galaxy_namespaces_under (W := W) g prefixes) (built GET (lit "/_api/namespaces") None).
Proof.
  split; [apply still_namespaces_under|]. apply sends_fold. intros found p _.
  apply sends_bind; [|intros; apply sends_ret]. apply sends_bind; [apply built_send|intros; apply sends_ret].
Qed.
End Sent.

(** ** What a key reaches through an export *)
Section Confined.
Context {W : Type} `{Network W} `{!Tracing W} `{Serde} `{Chrono} `{HashOrder} `{StixLibs} `{HeaderValues}.
Context (digest32 : str -> N) (digest64 : str -> N) (disk : Disk) (clock : W -> Z).
Context (s : SharedState) (req : HttpRequest) (abs : Abs) (named : option str).

(** What the key of the request may read on this server *)
Definition readable (ns : str) : Prop := match api_key s req with inl k => may_read s k ns = true | inr _ => False end.

(** A request this export may send: for the namespaces a mirror has, the
    client's own request passed on when the namespace it names is readable, or an
    export of readable namespaces *)
Definition permitted (rq : Request) : Prop :=
  built GET (lit "/_api/namespaces") None rq
  \/ (built GET (path_and_query req) None rq /\ exists ns, named = Some ns /\ readable ns)
  \/ exists names flt limit untyped body, to_vec (export_payload names flt limit untyped) = Some body
       /\ built POST (lit "/_api/stix") (Some body) rq /\ Forall readable names.

(** The state is what it was, with the same contents. *)
Definition unchanged (s1 : SharedState) : Prop := exists d, s1 = with_db s d /\ implements digest32 disk d abs.

Definition safe {A} (m : Net (W * SharedState) A) (Q : A -> Prop) : Prop :=
  forall w s1, unchanged s1 -> exists l, trace (m (w, s1)).1 = trace (w, s1) ++ l /\ Forall permitted l
    /\ unchanged (m (w, s1)).1.2 /\ Q (m (w, s1)).2.

Lemma safe_ret {A} (x : A) (Q : A -> Prop) : Q x -> safe (mret x) Q.
Proof. intros Hx w s1 Hs. exists []. by rewrite app_nil_r. Qed.

Lemma safe_bind {A B} (m : Net (W * SharedState) A) (k : A -> Net (W * SharedState) B) (R : A -> Prop) (Q : B -> Prop) :
  safe m R -> (forall x, R x -> safe (k x) Q) -> safe (m ≫= k) Q.
Proof.
  intros Hm Hk w s1 Hs. destruct (Hm w s1 Hs) as (l1 & E1 & F1 & Hs1 & Hr). unfold mbind, Net_bind. cbv zeta.
  destruct (m (w, s1)) as [[w2 s2] x] eqn:Em. cbn [fst snd] in *.
  destruct (Hk x Hr w2 s2 Hs1) as (l2 & E2 & F2 & Hs2 & Hq). exists (l1 ++ l2).
  rewrite E2, E1, app_assoc. split_and!; [done|by apply Forall_app|done..].
Qed.

Lemma safe_fold {A B} (f : B -> A -> Net (W * SharedState) B) (I : B -> Prop) l b :
  (forall b x, x ∈ l -> I b -> safe (f b x) I) -> I b -> safe (net_fold f b l) I.
Proof.
  revert b. induction l as [|x l IH]; intros b Hf Hb; [by apply safe_ret|]. cbn [net_fold].
  eapply safe_bind; [apply Hf; [left|done]|]. intros b' Hb'. apply IH; [|done]. intros. apply Hf; [by right|done].
Qed.

Lemma safe_get : safe get_state unchanged.
Proof. intros w s1 Hs. exists []. by rewrite app_nil_r. Qed.

Lemma safe_on_db {A} (f : Z -> Database -> Database * A) (Q : A -> Prop) :
  (forall now d, implements digest32 disk d abs -> implements digest32 disk (f now d).1 abs /\ Q (f now d).2) ->
  safe (on_db clock f) Q.
Proof.
  intros Hf w s1 (d & -> & Hd). exists []. rewrite app_nil_r. destruct (Hf (clock w) d Hd) as [Hi Hq].
  split_and!; [done..| |exact Hq]. by eexists.
Qed.

Lemma safe_sent {A} (m : Net (W * SharedState) A) (P : Request -> Prop) :
  still m /\ sends m P -> (forall rq, P rq -> permitted rq) -> safe m (fun _ => True).
Proof.
  intros [Hst Hm] HP w s1 Hs. destruct (Hm (w, s1)) as (l & E & F). exists l. split_and!; [done| |by rewrite Hst|done].
  by eapply Forall_impl.
Qed.

Lemma safe_on_galaxy {A} (m : Net (W * Database) A) (P : Request -> Prop) :
  still m /\ sends m P -> (forall rq, P rq -> permitted rq) -> safe (on_galaxy m) (fun _ => True).
Proof.
  intros [Hst Hm] HP w s1 (d & -> & Hd). destruct (Hm (w, d)) as (l & E & F). exists l. split_and!; [exact E| | |done].
  - by eapply Forall_impl.
  - unfold on_galaxy, act. cbv zeta. cbn [fst snd]. change (db (with_db s d)) with d. rewrite Hst. by exists d.
Qed.

(** Answers: without a galaxy, every sighting of a bundle is of a readable namespace. *)
Definition shows (b : Json) : Prop :=
  forall o, o ∈ bundle_objects b -> json_get (lit "type") o = Some (JStr (lit "sighting")) ->
  exists ns, json_get (lit "x_sightingdb_namespace") o = Some (JStr ns) /\ readable ns.
Definition answered (resp : HttpResponse) : Prop :=
  galaxy s = None -> forall b, content resp = BJson b -> shows b.

Lemma answered_message c m : answered (message_answer c m).
Proof. by intros _ b. Qed.
Lemma answered_error e : answered (error_response e).
Proof. by intros _ b. Qed.
Lemma answered_stix e : (galaxy s = None -> shows (bundle e)) -> answered (stix_response e).
Proof.
  intros He Hg b. unfold stix_response. destruct (is_empty _); [by intros [= <-]; apply He|].
  destruct (header_ok _); [by intros [= <-]; apply He|done].
Qed.

Lemma unchanged_readable s1 k : unchanged s1 -> api_key s1 req = inl k -> forall ns, may_read s1 k ns = true -> readable ns.
Proof. intros (d & -> & _) Hk ns Hr. unfold readable. change (api_key s req) with (api_key (with_db s d) req). by rewrite Hk. Qed.

Lemma authorized_readable s1 ns : unchanged s1 -> authorize s1 req ns ReadAccess = None -> readable ns.
Proof.
  intros (d & -> & _). unfold authorize, readable. change (api_key (with_db s d) req) with (api_key s req).
  destruct (api_key s req) as [k|]; [|done]. unfold refusal_for, may_read. change (acl (with_db s d)) with (acl s).
  destruct k as [k|]; [|done]. by destruct (can_read _ _ _).
Qed.

Lemma exports_readable s1 names : unchanged s1 -> authorize_exports s1 req names = None -> Forall readable names.
Proof.
  intros Hs. induction names as [|ns names IH]; [constructor|]. cbn [authorize_exports]. destruct (starts_with _ _); [done|].
  destruct (authorize _ _ _ _) eqn:E; [done|]. intros Hn. constructor; [by eapply authorized_readable|by apply IH].
Qed.

(** An export made here: only of the namespaces it is given *)
Lemma safe_export_here names flt limit untyped :
  Forall readable names -> forall settings,
  safe (on_db clock (fun now d => export_namespaces digest32 disk now d settings names flt limit untyped)) (fun e => shows (bundle e)).
Proof.
  intros Hr settings. apply safe_on_db. intros now d Hd.
  destruct (read_pages_spec digest32 disk now abs flt names limit (mkReading d [] [] false) Hd)
    as (pages & gone & E1 & _ & Hi & _ & Hs & _). cbn [rd_pages app] in E1.
  split; [exact Hi|]. unfold export_namespaces. cbv zeta. cbn [snd bundle]. rewrite E1. intros o Ho Ht.
  destruct (bundle_sightings _ _ _ _ Ho Ht) as ([p vw] & (ns & vs & Hin & Hvw & Ep)%values_of_pages & Hn & _).
  cbn in *. subst p. exists ns. split; [exact Hn|]. rewrite Forall_forall in Hr. apply Hr. by apply (Hs ns vs vw).
Qed.

Lemma safe_export_value ns v untyped settings :
  readable ns ->
  safe (on_db clock (fun now d => export_value digest32 disk now d settings ns v untyped))
    (fun r => match r with Some e => shows (bundle e) | None => True end).
Proof.
  intros Hr. apply safe_on_db. intros now d Hd. unfold export_value. cbv zeta. cbn [fst snd].
  pose proof (view_in_spec digest32 disk now d abs ns v 0 false Hd) as Hv. cbv zeta in Hv.
  split; [apply Hv|]. destruct (view_in _ _ _ _ _ _ _ _).2 as [view|]; [|done]. intros o Ho Ht.
  destruct (bundle_sightings (st_export settings) untyped [mkPart ns [view] (type_of_namespace settings ns)] o Ho Ht)
    as ([p vw] & Hx & Hn & _).
  exists ns. split; [|done]. unfold values_of in Hx. cbn in Hx. apply list_elem_of_singleton in Hx as [= -> ->]. exact Hn.
Qed.
(** The names below what was asked for, here and on the mirrors *)
Lemma expanded_readable s1 names : unchanged s1 -> Forall readable names -> Forall readable (expand_subtrees s1 req names).
Proof.
  intros Hs Hn. unfold expand_subtrees. destruct (api_key s1 req) as [k|] eqn:Ek; [|done].
  apply Forall_forall. intros n [Hn'%elem_of_nil|Hin]%elem_of_push_once; [done|].
  apply list_elem_of_join in Hin as (l & Hin & (ns & -> & _)%list_elem_of_fmap).
  eapply unchanged_readable; [exact Hs|exact Ek|]. unfold namespaces_under in Hin.
  apply dedup_elem, sort_strs_elem, list_elem_of_filter in Hin. by destruct Hin.
Qed.

Lemma reached_readable s1 k found l :
  unchanged s1 -> api_key s1 req = inl k -> Forall readable found -> Forall readable (foldl (reach s1 k) found l).
Proof.
  intros Hs Hk. revert found. induction l as [|n l IH]; intros found Hf; [done|]. cbn [foldl]. apply IH. unfold reach.
  destruct (is_internal n); [done|]. destruct (may_read s1 k n) eqn:Er; cbn [negb orb]; [|done].
  destruct (bool_decide _); [done|]. apply Forall_app. split; [done|]. constructor; [|done]. by eapply unchanged_readable.
Qed.

Lemma safe_reachable names : Forall readable names -> safe (reachable_subtrees req names) (Forall readable).
Proof.
  intros Hn. unfold reachable_subtrees. eapply safe_bind; [apply safe_get|]. intros s1 Hs. cbv zeta.
  pose proof (expanded_readable s1 names Hs Hn) as He.
  destruct (galaxy s1) as [g|]; [|by apply safe_ret]. destruct (api_key s1 req) as [k|] eqn:Ek; [|by apply safe_ret].
  eapply safe_bind; [eapply safe_on_galaxy; [apply namespaces_under_built|intros rq Hrq; by left]|]. intros l _.
  eapply safe_bind; [apply safe_get|]. intros s2 Hs2. apply safe_ret. apply Forall_forall. intros n Hin.
  assert (Ek2 : api_key s2 req = inl k).
  { destruct Hs as (d & -> & _), Hs2 as (d2 & -> & _). exact Ek. }
  pose proof (reached_readable s2 k _ l Hs2 Ek2 He) as Hr. rewrite Forall_forall in Hr. apply Hr. by apply sort_strs_elem.
Qed.

(** Asking the mirrors: each for names of the list only *)
Lemma group_with_elem {A} url (x : A) grouped u l y :
  (u, l) ∈ group_with url x grouped -> y ∈ l -> y = x \/ exists l', (u, l') ∈ grouped /\ y ∈ l'.
Proof.
  induction grouped as [|[k m] grouped IH]; cbn [group_with].
  - intros Hin%list_elem_of_singleton Hy. injection Hin as -> ->. apply list_elem_of_singleton in Hy as ->. by left.
  - case_bool_decide as Hk; intros [[= -> ->]|Hin]%elem_of_cons Hy.
    + apply elem_of_app in Hy as [Hy|Hy%list_elem_of_singleton]; [right; exists m; split; [left|done]|by left].
    + right. exists l. split; [by right|done].
    + right. exists m. split; [left|done].
    + destruct (IH Hin Hy) as [->|(l' & ? & ?)]; [by left|right; exists l'; split; [by right|done]].
Qed.

Lemma assigned_elem g away st u l y :
  (u, l) ∈ (foldl (assign_mirror digest64 g) st away).1 -> y ∈ l -> y ∈ away \/ exists l', (u, l') ∈ st.1 /\ y ∈ l'.
Proof.
  revert st. induction away as [|ns away IH]; intros st Hin Hy; [right; by exists l|]. cbn [foldl] in Hin.
  destruct (IH _ Hin Hy) as [Ha|(l' & Hl & Hy')]; [left; by right|]. unfold assign_mirror in Hl.
  destruct (reader_url _ _ _ _) as [url|]; [|right; by exists l']. cbn [fst] in Hl.
  destruct (group_with_elem _ _ _ _ _ _ Hl Hy') as [->|?]; [left; left|by right].
Qed.

Lemma safe_gather_one e g flt limit untyped st group :
  Forall readable group.2 -> safe (gather_one e g flt limit untyped st group) (fun _ => True).
Proof.
  intros Hg. unfold gather_one. destruct st as [[parts un]|]; [|by apply safe_ret].
  destruct (to_vec _) as [body|] eqn:Eb; [|by apply safe_ret].
  eapply safe_bind; [eapply safe_sent; [apply forward_to_built|]|intros; by apply safe_ret].
  intros rq Hrq. right. right. by exists group.2, flt, limit, untyped, body.
Qed.

Lemma safe_gathered e names flt limit untyped :
  Forall readable names ->
  safe (gathered_export digest32 digest64 disk clock e names flt limit untyped)
    (fun r => match r with Some resp => answered resp | None => True end).
Proof.
  intros Hn. unfold gathered_export. eapply safe_bind; [apply safe_get|]. intros s1 (d & -> & Hd). cbv zeta.
  destruct (is_empty _); [by apply safe_ret|]. change (galaxy (with_db s d)) with (galaxy s).
  destruct (galaxy s) as [g|] eqn:Eg; [|by apply safe_ret]. set (away := base.filter _ _).
  destruct (foldl (assign_mirror digest64 g) ([], []) away) as [grouped nowhere] eqn:Ea.
  eapply (safe_bind _ _ (fun _ => True)).
  - destruct (is_empty _); [by apply safe_ret|]. eapply safe_bind; [apply safe_export_here|intros; by apply safe_ret].
    apply Forall_forall. intros n [_ Hin]%list_elem_of_filter. rewrite Forall_forall in Hn. by apply Hn.
  - intros here _. eapply safe_bind.
    + apply (safe_fold _ (fun _ => True)); [|done]. intros st [u l] Hin _. apply safe_gather_one. apply Forall_forall.
      intros n Hnl. assert (Hin' : (u, l) ∈ (foldl (assign_mirror digest64 g) ([], []) away).1) by by rewrite Ea.
      destruct (assigned_elem _ _ _ _ _ _ Hin' Hnl) as [Haw|(l' & Hl & _)]; [|by apply elem_of_nil in Hl].
      apply list_elem_of_filter in Haw as [_ Haw]. rewrite Forall_forall in Hn. by apply Hn.
    + intros st _. apply safe_ret. unfold answered. by rewrite Eg.
Qed.

Lemma safe_value ns v q : named = Some ns -> readable ns -> safe (export_stix_value digest32 digest64 disk clock req ns v q) answered.
Proof.
  intros Hnamed Hr. unfold export_stix_value. destruct (eq_recursive q); [apply safe_ret, answered_message|].
  destruct (is_empty v); [apply safe_ret, answered_error|].
  eapply safe_bind; [apply safe_get|]. intros s1 Hs.
  assert (Hlocal : safe (r ← on_db clock (fun now d => export_value digest32 disk now d (stix_settings s1) ns v (query_untyped q));
            s' ← get_state;
            mret match r with
                 | Some e => stix_response e
                 | None => error_response (ENotFound (if namespace_exists (db s') ns then not_found_value ns v
                                                     else not_found_namespace ns v))
                 end) answered).
  { eapply safe_bind; [by apply safe_export_value|]. intros r Hrr. eapply safe_bind; [apply safe_get|]. intros s2 _.
    apply safe_ret. destruct r; [apply answered_stix; intros _; exact Hrr|apply answered_error]. }
  destruct (should_forward s1 req ns) as [[hops|resp]|] eqn:Ef; [|..].
  - destruct (galaxy s1) as [g|] eqn:Eg; [|exact Hlocal].
    eapply safe_bind; [eapply safe_sent; [apply forward_read_built|intros rq Hrq; right; left; split; [exact Hrq|by exists ns]]|].
    intros r _. apply safe_ret. intros Hg. destruct Hs as (d & -> & _). change (galaxy s = Some g) in Eg. congruence.
  - apply safe_ret. intros Hg. destruct Hs as (d & -> & _). unfold should_forward in Ef.
    change (galaxy (with_db s d)) with (galaxy s) in Ef. rewrite Hg in Ef. by destruct (holds _ _).
  - exact Hlocal.
Qed.

(** Exporting a list of readable names, from the mirrors or from here *)
Lemma safe_export e names flt limit untyped (finish : Export -> HttpResponse) :
  Forall readable names -> (forall x, shows (bundle x) -> answered (finish x)) ->
  safe (r ← gathered_export digest32 digest64 disk clock e names flt limit untyped;
        match r with
        | Some resp => mret resp
        | None => x ← export_here digest32 disk clock names flt limit untyped; mret (finish x)
        end) answered.
Proof.
  intros Hn Hf. eapply safe_bind; [by apply safe_gathered|]. intros [resp|] Hr; [by apply safe_ret|].
  eapply safe_bind; [|intros x Hx; apply safe_ret; apply Hf; exact Hx].
  unfold export_here. eapply safe_bind; [apply safe_get|]. intros s1 _. by apply safe_export_here.
Qed.

Lemma refused_answered s1 ns resp : authorize s1 req ns ReadAccess = Some resp -> answered resp.
Proof.
  unfold authorize. destruct (api_key s1 req) as [k|] eqn:Ek.
  - destruct (refusal_for _ _ _ _); [|done]. intros [= <-]. apply answered_message.
  - intros [= <-]. unfold api_key in Ek. repeat case_match; simplify_eq; apply answered_message.
Qed.

Lemma safe_export_stix e ns q : named = Some ns -> safe (export_stix digest32 digest64 disk clock e req ns q) answered.
Proof.
  intros Hnamed. unfold export_stix. eapply safe_bind; [apply safe_get|]. intros s1 Hs.
  destruct (authorize s1 req ns ReadAccess) as [resp|] eqn:Ea.
  { apply safe_ret. by eapply refused_answered. }
  pose proof (authorized_readable s1 ns Hs Ea) as Hr. destruct (starts_with _ _); [apply safe_ret, answered_error|].
  destruct (eq_val q) as [v|]; [by apply safe_value|]. destruct (eq_recursive q).
  - eapply safe_bind; [apply safe_reachable; by constructor|]. intros names Hn.
    destruct (is_empty names); [apply safe_ret, answered_error|]. apply safe_export; [done|]. intros x Hx.
    apply answered_stix. by intros _.
  - eapply safe_bind; [apply safe_gathered; by constructor|]. intros [resp|] Hresp; [by apply safe_ret|].
    eapply (safe_bind _ _ (fun r => match r with Some x => shows (bundle x) | None => True end)).
    + intros w s2 Hs2.
      destruct (safe_export_here [ns] [] (export_limit (eq_limit q)) (query_untyped q) ltac:(by constructor) (stix_settings s1) w s2 Hs2)
        as (l & E & F & Hk & Hsh). exists l. split_and!; [exact E|done|exact Hk|]. unfold export_namespace, on_db, act. cbv zeta.
      cbn [fst snd]. destruct (is_empty _); [exact Hsh|done].
    + intros [x|] Hx; apply safe_ret; [apply answered_stix; by intros _|apply answered_error].
Qed.
Lemma exports_refused s1 names resp : authorize_exports s1 req names = Some resp -> answered resp.
Proof.
  induction names as [|ns names IH]; [done|]. cbn [authorize_exports]. destruct (starts_with _ _).
  - intros [= <-]. apply answered_error.
  - destruct (authorize _ _ _ _) eqn:Ea; [intros [= <-]; by eapply refused_answered|exact IH].
Qed.

Lemma safe_export_wanted e body names :
  Forall readable names -> safe (export_wanted digest32 digest64 disk clock e body names) answered.
Proof.
  intros Hn. apply safe_export; [done|]. intros x Hx. destruct (bool_decide _); [apply answered_error|].
  apply answered_stix. by intros _.
Qed.

Lemma safe_export_api e body : safe (export_stix_api digest32 digest64 disk clock e req body) answered.
Proof.
  unfold export_stix_api. cbv zeta. destruct (is_empty _); [apply safe_ret, answered_message|].
  eapply safe_bind; [apply safe_get|]. intros s1 Hs.
  destruct (authorize_exports _ _ _) eqn:Ea; [apply safe_ret; by eapply exports_refused|].
  pose proof (exports_readable _ _ Hs Ea) as Hr. destruct (er_recursive body); [|by apply safe_export_wanted].
  eapply safe_bind; [by apply safe_reachable|]. intros found Hf.
  destruct (is_empty found); [apply safe_ret, answered_error|by apply safe_export_wanted].
Qed.
End Confined.

(** The two routes *)
Inductive ExportCall :=
  | ExportGet (ns : str) (q : ExportQuery)
  | ExportPost (body : ExportRequest).
Definition run_export {W} `{Network W, Serde, Chrono, HashOrder, StixLibs, HeaderValues} digest32 digest64 disk clock
    (error_text : str) (req : HttpRequest) (c : ExportCall) : Net (W * SharedState) HttpResponse :=
  match c with
  | ExportGet ns q => export_stix digest32 digest64 disk clock error_text req ns q
  | ExportPost body => export_stix_api digest32 digest64 disk clock error_text req body
  end.

(** The namespace the path of a request names, on the route that has one *)
Definition named_by (c : ExportCall) : option str :=
  match c with ExportGet ns _ => Some ns | ExportPost _ => None end.

(** ** Properties *)

(** C23: an export from this server's own database is the live values of the
    namespaces asked for, and says what it leaves out.  It changes nothing of the
    contents and reads at most [limit] values; every sighting in the bundle is a
    live value of one of the namespaces, one the filter lets through, with its
    count; and an export that does not say it was cut reports exactly the
    namespaces that do not exist, and for every live value the filter lets
    through: a value STIX has no pattern for is among those reported as skipped,
    and for any other one the bundle has a sighting with that value's id, which is
    its own sighting with its namespace and count, unless another value asked for
    has a sighting of the same id and the bundle holds that one. *)
Theorem export_exact `{StixLibs, Chrono, HashOrder} digest32 disk now db abs settings names flt limit untyped :
  implements digest32 disk db abs ->
  let r := export_namespaces digest32 disk now db settings names flt limit untyped in
  let objects := bundle_objects (bundle r.2) in
  let found ns v vw := ns ∈ names /\ asked now abs flt ns v vw in
  implements digest32 disk r.1 abs /\ exported r.2 + length (skipped r.2) <= limit
  /\ (forall o, o ∈ objects -> json_get (lit "type") o = Some (JStr (lit "sighting")) ->
        exists ns v vw, found ns v vw /\ sighting_of ns vw o)
  /\ (truncated r.2 = false ->
        missing r.2 = filter (fun ns => abs !! ns = None) names
        /\ forall ns v vw, found ns v vw ->
             match expressed_as untyped (type_of_namespace settings ns) vw with
             | None => v ∈ skipped r.2
             | Some ob => exists o, o ∈ objects /\ object_id o = Some (sighting_id ns ob v)
                 /\ (sighting_of ns vw o
                     \/ exists ns' v' vw' ob', found ns' v' vw' /\ (ns', v') <> (ns, v) /\ sighting_of ns' vw' o
                          /\ sighting_id ns' ob' v' = sighting_id ns ob v)
             end).
Proof.
  intros Himp r objects found.
  destruct (read_pages_spec digest32 disk now abs flt names limit (mkReading db [] [] false) Himp)
    as (pages & gone & E1 & E2 & Himp' & Hsz & Hs & Hc). cbn [rd_pages rd_missing rd_db rd_truncated app] in *.
  set (st := read_pages _ _ _ _ _ _ _) in *. subst objects r. unfold export_namespaces. fold st. cbv zeta.
  cbn [fst snd bundle exported skipped truncated missing]. rewrite E1, E2. set (parts := part_of settings <$> pages).
  assert (Hsound : forall o, o ∈ bundle_objects (bundle (bundle_of parts (st_export settings) untyped)) ->
    json_get (lit "type") o = Some (JStr (lit "sighting")) -> exists ns v vw, found ns v vw /\ sighting_of ns vw o).
  { intros o Ho Ht. destruct (bundle_sightings _ _ _ _ Ho Ht) as ([p vw] & Hx & Hof).
    apply values_of_pages in Hx as (ns & vs & Hin & Hvw & E). cbn in *. subst p.
    destruct (Hs ns vs vw Hin Hvw) as (Hn & v & Hv). by exists ns, v, vw. }
  split_and!; [exact Himp'| |exact Hsound|].
  - rewrite bundle_counts. unfold parts. by rewrite values_of_size.
  - intros Ht. destruct (Hc Ht) as (_ & -> & Hcomp). split; [done|]. intros ns v vw [Hn Hv].
    destruct (Hcomp ns v vw Hn Hv) as (vs & Hin & Hvw).
    pose proof (bundle_covers (st_export settings) untyped parts (mkPart ns vs (type_of_namespace settings ns), vw)) as Hcov.
    cbn [fst snd part_namespace part_default_type] in Hcov. rewrite (asked_value digest32 disk now abs flt db ns v vw Himp Hv) in Hcov.
    specialize (Hcov ltac:(apply values_of_pages; by exists ns, vs)).
    destruct (expressed_as _ _ _) as [ob|]; [|exact Hcov]. destruct Hcov as (o & Ho & Hty & Hi). exists o. split_and!; [exact Ho|exact Hi|].
    destruct (Hsound o Ho Hty) as (ns' & v' & vw' & [Hn' Hv'] & Hof).
    destruct (decide ((ns', v') = (ns, v))) as [[= -> ->]|Hne].
    + left. by rewrite (asked_unique now abs flt ns v vw vw' Hv Hv').
    + right. pose proof Hof as (_ & _ & ob' & Hi'). rewrite (asked_value digest32 disk now abs flt db ns' v' vw' Himp Hv') in Hi'.
      exists ns', v', vw', ob'. split_and!; [done..|congruence].
Qed.

(** A namespace with one value, and one that does not exist *)
Definition demo_feeds : str := lit "feeds/ips".
Definition demo_written `{Chrono, HashOrder} : Database :=
  (record_write (fun _ => 7%N) ∅ (100 * NANOS) demo_db (lit "n") demo_feeds (lit "1.2.3.4") (100 * NANOS) default_opts []).1.
Lemma demo_written_implements `{Chrono, HashOrder} : exists abs, implements (fun _ => 7%N) ∅ demo_written abs.
Proof.
  eexists. refine (proj1 (record_write_spec _ _ _ demo_db ∅ (lit "n") demo_feeds (lit "1.2.3.4") (100 * NANOS) default_opts [] _ _ _)).
  - apply empty_implements.
  - done.
  - apply plausible_whole.
Qed.

Lemma export_exact_witness :
  let L := demo_libs in let C := chrono_10000y in let O := some_order in
  let r := export_namespaces (fun _ => 7%N) ∅ (100 * NANOS) demo_written default_stix [demo_feeds; lit "none"] [] 10 Skip in
  (exists abs, implements (fun _ => 7%N) ∅ r.1 abs /\ missing r.2 = filter (fun ns => abs !! ns = None) [demo_feeds; lit "none"])
  /\ exported r.2 = 1 /\ missing r.2 = [lit "none"] /\ length (bundle_objects (bundle r.2)) = 3.
Proof.
  intros L C O r. split; [|by vm_compute]. destruct demo_written_implements as [abs Habs].
  destruct (@export_exact L C O (fun _ => 7%N) ∅ (100 * NANOS) demo_written abs default_stix [demo_feeds; lit "none"] [] 10 Skip Habs)
    as (Hi & _ & _ & Hc).
  exists abs. split; [exact Hi|]. apply Hc. by vm_compute.
Defined.

(** C22: an export reaches what its key may read and no more.  Whichever of the
    two routes is used, for one value, a namespace, several or whole subtrees,
    with or without a galaxy: the contents of this server are as they were; the
    requests sent to mirrors, under the keys this server holds there, are lists
    of their namespaces, the client's own request when it names, in its path, a
    namespace the client's key may read here, or exports that name only such
    namespaces; and on a server without a galaxy every sighting of the bundle is
    of such a namespace.  What a mirror puts in its answer is the mirror's. *)
Theorem export_confined {W} `{Network W, !Tracing W, Serde, Chrono, HashOrder, StixLibs, HeaderValues}
    digest32 digest64 disk clock error_text s req abs (c : ExportCall) w :
  implements digest32 disk (Handlers.db s) abs ->
  let r := run_export digest32 digest64 disk clock error_text req c (w, s) in
  (exists d, r.1.2 = with_db s d /\ implements digest32 disk d abs)
  /\ (exists l, trace r.1 = trace (w, s) ++ l /\ Forall (permitted s req (named_by c)) l)
  /\ answered s req r.2.
Proof.
  intros Himp r. assert (Hs : unchanged digest32 disk s abs s) by (exists (Handlers.db s); by destruct s).
  assert (Hsafe : safe digest32 disk s req abs (named_by c) (run_export digest32 digest64 disk clock error_text req c) (answered s req))
    by (destruct c; [by apply safe_export_stix|apply safe_export_api]).
  destruct (Hsafe w s Hs) as (l & E & F & Hk & Ha). split_and!; [exact Hk|by exists l|exact Ha].
Qed.

(** A key that reads one of two namespaces exports the tree. *)
Definition ip_reader : SharedState :=
  mkShared demo_db true {[lit "k" := [mkGrant (lit "feeds") true false false]]} rj_default None ∅ true false ∅ [] None None None None default_stix.
Definition demo_headers : HeaderValues := {| header_ok _ := true; header_error := (500%Z, []) |}.
Definition demo_export_request : HttpRequest := mkHttp [(lit "Authorization", Some (lit "k"))] (lit "/_api/stix") None.
Definition demo_export : ExportRequest := mkExportRequest [demo_feeds; lit "/secret/"] None [] (Some 10) Skip false.
Definition demo_tree : ExportQuery := mkExportQuery (Some 10) (Some []) None None.

Lemma export_confined_witness :
  let L := demo_libs in let C := chrono_10000y in let O := some_order in let N := refusing in let S := demo_serde in let V := demo_headers in
  let s := with_db ip_reader demo_written in
  let run c := run_export (W := list Request) (fun _ => 7%N) demo_digest ∅ (fun _ => (100 * NANOS)%Z) [] demo_export_request c ([], s) in
  answered s demo_export_request (run (ExportGet (lit "feeds") demo_tree)).2
  /\ answered s demo_export_request (run (ExportPost demo_export)).2
  /\ code (run (ExportGet (lit "feeds") demo_tree)).2 = OK /\ code (run (ExportPost demo_export)).2 = FORBIDDEN.
Proof.
  intros L C O N S V s run. destruct demo_written_implements as [abs Habs].
  pose proof (fun c => @export_confined (list Request) N _ S C O L V (fun _ => 7%N) demo_digest ∅ (fun _ => (100 * NANOS)%Z) []
    s demo_export_request abs c [] Habs) as Hc.
  split; [apply (Hc (ExportGet (lit "feeds") demo_tree))|]. split; [apply (Hc (ExportPost demo_export))|].
  split; by vm_compute.
Defined.

(** ** Exports passed on *)

Section Relays.
Context {W : Type} `{Network W} `{!Tracing W} `{Serde} `{Chrono} `{HashOrder} `{StixLibs} `{HeaderValues}.
Context (digest32 : str -> N) (digest64 : str -> N) (disk : Disk) (clock : W -> Z).

(** A chain of exports: each server sends the next request while it answers the
    one before, which asked for [body]. *)
Inductive export_relays : HttpRequest -> ExportRequest -> list Request -> Prop :=
  | export_relays_end req body : export_relays req body []
  | export_relays_hop s g w req body rq l body' rest :
      galaxy s = Some g -> u8 (max_hops g) ->
      trace (run_export digest32 digest64 disk clock [] req (ExportPost body) (w, s)).1 = trace (w, s) ++ l -> rq ∈ l ->
      rq_body rq = to_vec (export_payload (wanted body') (er_q body') (export_limit (er_limit body')) (er_untyped body')) ->
      export_relays (mkHttp (rq_headers rq) (lit "/_api/stix") None) body' rest ->
      export_relays req body (rq :: rest).
End Relays.

(** Renders the names asked for, and nothing else. *)
Definition naming_serde : Serde :=
  {| from_slice _ := None; parse_error _ := [];
     to_vec j := Some (mjoin (omap json_str (default [] (option_bind _ _ json_array (json_get (lit "namespaces") j))))) |}.
Definition loop_export : ExportRequest := mkExportRequest [demo_feeds] None [] (Some 10) Skip false.
Definition loop_request : Request :=
  outgoing (mkPeer (lit "http://b:9999") (lit "kb") (from_prefixes [lit "feeds"]) true) POST (lit "/_api/stix") (Some demo_feeds) 4 [].

(** C37: an export is not bounded by the hop limit.  A router whose mirror is
    another such router passes an export on with a fresh hop budget, whatever
    the request it answers has left, so that for every [n] there is a chain of
    [n] requests set off by one export, each sent while the one before is
    answered, between servers with a [max_hops] of 4. *)
Theorem export_forwarded_forever n :
  let L := demo_libs in let C := chrono_10000y in let O := some_order in let N := refusing in let S := naming_serde in let V := demo_headers in
  export_relays (W := list Request) (fun _ => 7%N) demo_digest ∅ (fun _ => demo_time)
    (mkHttp [] (lit "/_api/stix") None) loop_export (replicate n loop_request).
Proof.
  intros L C O N S V.
  assert (Hloop : forall req, export_relays (W := list Request) (fun _ => 7%N) demo_digest ∅ (fun _ => demo_time) req loop_export
    (replicate n loop_request)); [|apply Hloop].
  induction n as [|n IH]; intros req; [constructor|]. cbn [replicate].
  apply (export_relays_hop _ _ _ _ demo_state demo_galaxy [] req loop_export loop_request [loop_request] loop_export).
  - reflexivity.
  - vm_compute. done.
  - vm_compute. reflexivity.
  - left.
  - vm_compute. reflexivity.
  - apply IH.
Qed.

(** Two values of two namespaces may share a sighting id: only one of them is in
    the bundle, though both are counted. *)
Lemma sighting_ids_collide :
  let L := demo_libs in let C := chrono_10000y in
  let e := bundle_of [mkPart (lit "a") [demo_view (lit "x") (lit "stix-type:b:c")] None;
                      mkPart (lit "a:b") [demo_view (lit "x") (lit "stix-type:c")] None] default_publisher Skip in
  exported e = 2
  /\ length (filter (fun o => option_bind _ _ json_str (json_get (lit "type") o) = Some (lit "sighting")) (bundle_objects (bundle e))) = 1.
Proof. intros L C. vm_compute. done. Qed.
