(* ===== verification/Grants.v ===== *)
(** * What a key can change

    Whatever a request asks, the namespaces its key may not write are left as
    they were on the server that handles it.  That is not so of the galaxy: a
    batch that is passed on is not held against the ACL at all. *)

From stdpp Require Import base numbers list strings gmap sorting pretty.
From S2P Require Import Prelude Text Activity Latest Attribute AttributeFacts Convergence Paths Acl Rejections Tags Tier Namespace Disk Database Contents Refine Consensus Eviction Service Accounted System Listing Peers Config Forward ForwardFacts CatchUp CatchUpFacts Frame Handlers HandlerFacts.

(** ** Handlers and what they keep of the state *)
Section Stays.
Context {W : Type} `{Network W}.
Implicit Types (I : SharedState -> Prop).

(** Run from a state with [I], [m] ends in one, with a result in [Q]. *)
Definition stays {A} I (m : Net (W * SharedState) A) (Q : A -> Prop) : Prop :=
  forall w s, I s -> I (m (w, s)).1.2 /\ Q (m (w, s)).2.

Definition any {A} (_ : A) : Prop := True.

Lemma stays_ret {A} I (x : A) (Q : A -> Prop) : Q x -> stays I (mret x) Q.
Proof. by intros Hx w s Hs. Qed.

Lemma stays_bind {A B} I (m : Net (W * SharedState) A) (k : A -> Net (W * SharedState) B) P Q :
  stays I m P -> (forall x, P x -> stays I (k x) Q) -> stays I (m ≫= k) Q.
Proof.
  intros Hm Hk w s Hs. destruct (Hm w s Hs) as [H1 H2]. unfold mbind, Net_bind. cbv zeta.
  destruct (m (w, s)) as [[w' s'] x]. by apply Hk.
Qed.

Lemma stays_fold {A B} I (f : B -> A -> Net (W * SharedState) B) b l :
  (forall b x, x ∈ l -> stays I (f b x) any) -> stays I (net_fold f b l) any.
Proof.
  revert b. induction l as [|x l IH]; intros b Hf; simpl; [by apply stays_ret|].
  eapply stays_bind; [apply Hf; left|]. intros b' _. apply IH. intros. apply Hf. by right.
Qed.

Lemma stays_get I : stays I get_state I.
Proof. by intros w s Hs. Qed.

Lemma stays_send I g p method path body hops origin : stays I (send g p method path body hops origin) any.
Proof. unfold send. destruct (negb _); [by apply stays_ret|]. by intros w s Hs. Qed.

Lemma stays_send_one I g method path body hops origin st p : stays I (send_one g method path body hops origin st p) any.
Proof. eapply stays_bind; [apply stays_send|]. intros x _. by apply stays_ret. Qed.

Lemma stays_forward_write I g ns method path body hops origin :
  stays I (forward_write g ns method path body hops origin) any.
Proof.
  unfold forward_write. cbv zeta. repeat case_match; try by apply stays_ret.
  eapply stays_bind; [apply stays_fold; intros; apply stays_send_one|]. intros x _. by apply stays_ret.
Qed.

Lemma stays_forward_batch I g nss path body hops origin : stays I (forward_batch g nss path body hops origin) any.
Proof.
  unfold forward_batch. cbv zeta. repeat case_match; try by apply stays_ret.
  eapply stays_bind; [apply stays_fold; intros; apply stays_send_one|]. intros x _. by apply stays_ret.
Qed.
End Stays.

(** ** Namespaces a request does not reach *)

(** What an administrator sets, in the file or through the interface. *)
Definition administered (s : SharedState) :=
  (authenticate s, acl s, galaxy s, revoked s, acl_replaceable s, joining s, vocabulary s, listen s,
   (acl_file s, tiers_file s, tags_file s, galaxy_peers_file s, stix_settings s)).

Lemma administered_acl s s' : administered s' = administered s -> acl s' = acl s.
Proof. by intros [= _ ->]. Qed.

(** Whether the request may write [ns]. *)
Definition may_change (s : SharedState) (req : HttpRequest) (ns : str) : bool :=
  match api_key s req with
  | inl None => true
  | inl (Some key) => can_write (acl s) key ns
  | inr _ => false
  end.

Definition untouched (allowed : str -> bool) (abs abs' : Abs) : Prop :=
  forall n, is_internal n = false -> allowed n = false -> abs' !! n = abs !! n.

Lemma untouched_trans allowed a b c : untouched allowed a b -> untouched allowed b c -> untouched allowed a c.
Proof. intros H1 H2 n Hi Hn. by rewrite H2, H1. Qed.

(** A change to one namespace, and to [_all]. *)
Lemma untouched_one (allowed : str -> bool) ns abs abs' :
  is_internal ns = true \/ allowed ns = true ->
  (forall n, n <> ns -> n <> ALL_NAMESPACE -> abs' !! n = abs !! n) -> untouched allowed abs abs'.
Proof.
  intros Hns Hf n Hi Hn. apply Hf; intros ->; [|done]. destruct Hns; congruence.
Qed.

Lemma a_write_frame abs self nd ns v w t keep tgs cons n :
  n <> ns -> n <> ALL_NAMESPACE -> a_write abs self nd ns v w t keep tgs cons !! n = abs !! n.
Proof. intros H1 H2. unfold a_write. destruct (_ && _); unfold a_record, a_update; by rewrite !lookup_insert_ne. Qed.

Lemma a_release_frame self abs l n : n <> ALL_NAMESPACE -> foldl (a_release self) abs l !! n = abs !! n.
Proof.
  intros Hn. revert abs. induction l as [|v l IH]; intros abs; simpl; [done|]. rewrite IH. unfold a_release.
  destruct (abs !! ALL_NAMESPACE); [by rewrite lookup_insert_ne|done].
Qed.

Section Confined.
Context {W : Type} `{Network W} `{Serde} `{Chrono} `{HashOrder}.
Context (digest32 : str -> N) (disk : Disk) (clock : W -> Z).
Context (s0 : SharedState) (abs0 : Abs) (allowed : str -> bool).
Context (Hshadow : is_u64 (shadow_ttl (policy (db s0)))) (Hclock : forall w, plausible (clock w)).

Definition confined (s : SharedState) : Prop :=
  (exists abs, implements digest32 disk (db s) abs /\ untouched allowed abs0 abs)
  /\ setup_of (db s) = setup_of (db s0) /\ administered s = administered s0.

(** A change of the database that keeps to what is allowed. *)
Lemma stays_on_db {A} (f : Z -> Database -> Database * A) :
  (forall now d abs, plausible now -> implements digest32 disk d abs -> is_u64 (shadow_ttl (policy d)) ->
     exists abs', implements digest32 disk (f now d).1 abs' /\ untouched allowed abs abs'
       /\ setup_of (f now d).1 = setup_of d) ->
  stays confined (on_db clock f) any.
Proof.
  intros Hf w s ((abs & Himp & Hu) & Hp & Ha). split; [|done]. unfold on_db, act. cbv zeta. cbn [fst snd].
  destruct (Hf (clock w) (db s) abs (Hclock w) Himp ltac:(by rewrite (setup_policy _ _ Hp))) as (abs' & R1 & R2 & R3).
  split_and!; [|by etransitivity|exact Ha]. exists abs'. split; [done|]. by eapply untouched_trans.
Qed.

(** Reading changes nothing that can be seen. *)
Lemma stays_unnoticed {A} (f : Z -> Database -> Database * A) :
  (forall now d, unnoticed digest32 disk d (f now d).1) -> stays confined (on_db clock f) any.
Proof.
  intros Hf. apply stays_on_db. intros now d abs _ Himp _. exists abs. destruct (Hf now d) as [R1 R2].
  split_and!; [by apply R2|by intros n _ _|exact R1].
Qed.

Lemma stays_reject ns v why from : stays confined (reject clock ns v why from) any.
Proof. by intros w s Hs. Qed.

Lemma stays_client_write origin ns v t ttl tgs :
  allowed ns = true -> (forall now, plausible now -> plausible (default now t)) -> opt_u64 ttl ->
  stays confined (on_db clock (fun now d => client_write digest32 disk now d origin ns v t ttl tgs)) any.
Proof.
  intros Hns Hw Ht. apply stays_on_db. intros now d abs Hnow Himp Hsh. destruct (check d ns v) as [e|] eqn:Ec.
  - exists abs. unfold client_write. rewrite Ec. by split_and!.
  - destruct (client_write_accepted digest32 disk now d abs origin ns v t ttl tgs Himp Ht Hsh (Hw now Hnow) Ec)
      as (R1 & _). eexists. split; [exact R1|]. split; [|apply setup_client_write].
    apply (untouched_one _ ns); [by right|]. intros n. apply a_write_frame.
Qed.

(** [write] is a sighting with this server's name on it. *)
Lemma write_frame path v now d abs :
  is_internal path = true -> plausible now -> implements digest32 disk d abs -> is_u64 (shadow_ttl (policy d)) ->
  exists abs', implements digest32 disk (write digest32 disk now d path v now default_opts).1 abs'
    /\ untouched allowed abs abs' /\ setup_of (write digest32 disk now d path v now default_opts).1 = setup_of d.
Proof.
  intros Hi Hnow Himp Hsh. unfold write, write_tagged. cbv zeta. cbn [fst].
  destruct (record_write_spec digest32 disk now d abs (node d) path v now default_opts [] Himp (conj I Hsh) Hnow) as (R1 & _).
  eexists. split; [exact R1|]. split; [|by rewrite setup_record_write]. apply (untouched_one _ path); [by left|].
  intros n. apply a_write_frame.
Qed.

Lemma stays_write_here path v : is_internal path = true -> stays confined (write_here digest32 disk clock path v) any.
Proof. intros Hi. apply stays_on_db. intros now d abs Hnow Himp Hsh. cbn [fst]. by apply write_frame. Qed.

Lemma stays_write_all v : stays confined (write_here digest32 disk clock ALL_NAMESPACE v) any.
Proof. by apply stays_write_here. Qed.

Lemma stays_note_consensus ns v b : stays confined (note_consensus digest32 disk clock ns v b) any.
Proof. unfold note_consensus. repeat case_match; (by apply stays_ret) || apply stays_write_all. Qed.

Lemma stays_note_entry e : stays confined (note_entry digest32 disk clock e) any.
Proof. unfold note_entry. repeat case_match; (by apply stays_ret) || apply stays_write_all. Qed.

(** An item is written only where the key reaches. *)
Definition reaches (apikey : option str) : Prop :=
  forall ns, match apikey with None => True | Some k => can_write (acl s0) k ns = true end -> allowed ns = true.

Lemma refusal_reaches apikey s ns :
  reaches apikey -> confined s -> refusal_for s apikey ns WriteAccess = None -> allowed ns = true.
Proof.
  intros Hr (_ & _ & Ha%administered_acl) Hf. apply Hr. unfold refusal_for in Hf. rewrite Ha in Hf.
  destruct apikey as [k|]; [|done]. by destruct (can_write (acl s0) k ns).
Qed.

Lemma stays_write_item apikey origin b i item :
  reaches apikey -> item_ok_types item -> stays confined (write_item digest32 disk clock apikey origin b (i, item)) any.
Proof.
  intros Hr Hty. unfold write_item. eapply stays_bind; [apply stays_get|]. intros s Hs.
  destruct (check_item s apikey item) as [t|m|m] eqn:Ec.
  - apply check_item_ok in Ec as (Ha & _ & Hw). eapply stays_bind.
    + apply stays_client_write; [by eapply refusal_reaches| |done]. intros now. by eapply parse_when_plausible.
    + intros [d|e] _; [by apply stays_ret|]. eapply stays_bind; [apply stays_reject|]. intros. by apply stays_ret.
  - eapply stays_bind; [apply stays_reject|]. intros. by apply stays_ret.
  - eapply stays_bind; [apply stays_reject|]. intros. by apply stays_ret.
Qed.

Lemma stays_merged_batch req apikey items answers :
  reaches apikey -> Forall item_ok_types items ->
  stays confined (merged_batch digest32 disk clock req apikey items answers) any.
Proof.
  intros Hr Hty%enumerate_snd. unfold merged_batch. eapply stays_bind; [|intros b _; repeat case_match; by apply stays_ret].
  apply stays_fold. intros b [i item] Hin. unfold merged_item. eapply stays_bind; [apply stays_get|]. intros s _.
  destruct (_ || _).
  - rewrite Forall_forall in Hty.
    eapply stays_bind; [apply stays_write_item; [done|by apply (Hty _ Hin)]|]. intros b' _. by apply stays_ret.
  - unfold merge_elsewhere. destruct (head _); [|by apply stays_ret].
    eapply stays_bind; [apply stays_note_entry|]. intros. by apply stays_ret.
Qed.

Lemma stays_write_bulk_here apikey origin items :
  reaches apikey -> Forall item_ok_types items ->
  stays confined (write_bulk_here digest32 disk clock apikey origin items) any.
Proof.
  intros Hr Hty%enumerate_snd. unfold write_bulk_here.
  eapply stays_bind; [|intros b _; destruct (batch_status _ _ _); by apply stays_ret].
  apply stays_fold. intros b [i item] Hin. rewrite Forall_forall in Hty.
  apply stays_write_item; [done|]. by apply (Hty _ Hin).
Qed.

Lemma stays_merge_item apikey b i item :
  reaches apikey -> payload_ok (merge_item_state item) ->
  stays confined (merge_item digest32 disk clock apikey b (i, item)) any.
Proof.
  intros Hr Hp. unfold merge_item. eapply stays_bind; [apply stays_get|]. intros s Hs. cbv zeta.
  destruct (refusal_for s apikey (mi_namespace item) WriteAccess) as [m|] eqn:Er; [by apply stays_ret|].
  destruct (display <$> _) as [m|]; [by apply stays_ret|].
  eapply stays_bind; [|intros o _; by apply stays_ret]. apply stays_on_db. intros now d abs Hnow Himp Hsh.
  destruct (merge_in_spec digest32 disk now d abs (mi_namespace item) (of_value (mi_offer item)) (merge_item_state item)
    Himp Hp Hnow Hsh) as (R1 & _).
  eexists. split; [exact R1|]. split; [|apply setup_merge_in].
  apply (untouched_one _ (mi_namespace item)); [right; by eapply refusal_reaches|]. intros n. apply a_merge_frame.
Qed.

Lemma stays_delete ns :
  allowed ns = true -> stays confined (on_db clock (fun now d => delete_namespace digest32 disk now d ns)) any.
Proof.
  intros Hns. apply stays_on_db. intros now d abs Hnow Himp Hsh.
  destruct (delete_spec digest32 disk now d abs ns Himp) as (_ & _ & _ & _ & _ & _ & R3).
  destruct (abs !! ns) as [vs|]; [|exists abs; split_and!; [done..|apply setup_delete]]. destruct R3 as (l & _ & _ & R3).
  eexists. split; [exact R3|]. split; [|apply setup_delete]. apply (untouched_one _ ns); [by right|]. intros n Hn Ha.
  destruct (counts_towards_consensus ns); rewrite ?a_release_frame by done; by rewrite lookup_delete_ne.
Qed.
End Confined.

(** ** The requests that change something *)
Inductive Change :=
  | WriteOne (ns : str) (q : WriteQuery)
  | DeleteOne (ns : str)
  | WriteMany (error_text : str) (items : list BulkSighting)
  | MergeMany (items : list MergeItem).

(** Numbers that fit their types, times a calendar can hold. *)
Definition change_ok `{Chrono} (c : Change) : Prop :=
  match c with
  | WriteOne _ q => opt_u64 (w_ttl q)
  | DeleteOne _ => True
  | WriteMany _ items => Forall item_ok_types items
  | MergeMany items => Forall (fun i => payload_ok (merge_item_state i)) items
  end.

Definition run_change {W} `{Network W, Serde, Chrono, HashOrder} digest32 disk clock (c : Change) (req : HttpRequest) :
    Net (W * SharedState) HttpResponse :=
  match c with
  | WriteOne ns q => write_handler digest32 disk clock req ns q
  | DeleteOne ns => delete_handler digest32 disk clock req ns
  | WriteMany e items => write_bulk digest32 disk clock e req items
  | MergeMany items => merge_handler digest32 disk clock req items
  end.

Section Changes.
Context {W : Type} `{Network W} `{Serde} `{Chrono} `{HashOrder}.
Context (digest32 : str -> N) (disk : Disk) (clock : W -> Z).
Context (s0 : SharedState) (abs0 : Abs) (req : HttpRequest).
Context (Hshadow : is_u64 (shadow_ttl (policy (db s0)))) (Hclock : forall w, plausible (clock w)).
Context (Himp0 : implements digest32 disk (db s0) abs0).

Abbreviation conf := (confined digest32 disk s0 abs0 (may_change s0 req)).

Lemma confined_start : conf s0.
Proof. split_and!; [|done..]. exists abs0. split; [done|]. by intros n _ _. Qed.

Lemma authorized_reaches ns : authorize s0 req ns WriteAccess = None -> may_change s0 req ns = true.
Proof.
  unfold authorize, may_change, refusal_for. destruct (api_key s0 req) as [[k|]|r]; [|done|done].
  by destruct (can_write (acl s0) k ns).
Qed.

Lemma api_key_reaches apikey : api_key s0 req = inl apikey -> reaches s0 (may_change s0 req) apikey.
Proof. intros Hk ns. unfold may_change. rewrite Hk. by destruct apikey. Qed.

(** The state is read before anything else is done. *)
Lemma confined_from_start {A} (k : SharedState -> Net (W * SharedState) A) w :
  stays conf (k s0) any -> conf ((get_state ≫= k) (w, s0)).1.2.
Proof. intros Hk. exact (proj1 (Hk w s0 confined_start)). Qed.

Lemma write_confined ns q w : opt_u64 (w_ttl q) -> conf (write_handler digest32 disk clock req ns q (w, s0)).1.2.
Proof.
  intros Ht. apply confined_from_start. destruct (authorize s0 req ns WriteAccess) eqn:Ea; [by apply stays_ret|].
  apply authorized_reaches in Ea. destruct (w_val q) as [v|]; [|by apply stays_ret].
  assert (Hlocal : stays conf (match parse_when (w_timestamp q) with
    | inr e => _ ← reject clock ns v (display e) SourceWrite; mret (error_response e)
    | inl t => r ← on_db clock (fun now d => client_write digest32 disk now d (origin_of (hdrs req)) ns v t (w_ttl q)
                 (default [] (w_tags q)));
        match r with
        | inl written => mret (answer_json OK (BWritten (lit "ok") (written_count written) (written_new written)))
        | inr e => _ ← reject clock ns v (display e) SourceWrite; mret (error_response e)
        end
    end) any).
  { destruct (parse_when (w_timestamp q)) as [t|e] eqn:Ew.
    - eapply stays_bind; [apply stays_client_write; try done; intros now; by eapply parse_when_plausible|].
      intros [d|e] _; [by apply stays_ret|]. eapply stays_bind; [apply stays_reject|]. intros. by apply stays_ret.
    - eapply stays_bind; [apply stays_reject|]. intros. by apply stays_ret. }
  destruct (should_forward s0 req ns) as [[hops|resp]|], (galaxy s0) as [g|]; try exact Hlocal; try by apply stays_ret.
  eapply stays_bind; [apply stays_forward_write|]. intros [answers|e] _; [|by apply stays_ret].
  destruct (head _) as [[u a]|]; [|by apply stays_ret].
  eapply stays_bind; [by apply stays_note_consensus|]. intros. by apply stays_ret.
Qed.

Lemma delete_confined ns w : conf (delete_handler digest32 disk clock req ns (w, s0)).1.2.
Proof.
  apply confined_from_start. destruct (authorize s0 req ns WriteAccess) eqn:Ea; [by apply stays_ret|].
  apply authorized_reaches in Ea. destruct (is_internal ns); [by apply stays_ret|].
  eapply stays_bind; [by apply stays_delete|]. intros. by apply stays_ret.
Qed.

Lemma bulk_confined e items w :
  Forall item_ok_types items -> conf (write_bulk digest32 disk clock e req items (w, s0)).1.2.
Proof.
  intros Hty. apply confined_from_start. destruct (api_key s0 req) as [apikey|resp] eqn:Ek; [|by apply stays_ret].
  apply api_key_reaches in Ek. cbv zeta. destruct (galaxy s0) as [g|]; [|by apply stays_write_bulk_here].
  destruct (is_empty _); [by apply stays_write_bulk_here|]. destruct (hops_left _ _); [|by apply stays_ret].
  destruct (to_vec _); [|by apply stays_ret]. eapply stays_bind; [apply stays_forward_batch|].
  intros [answers|err] _; [by apply stays_merged_batch|by apply stays_ret].
Qed.

Lemma merge_confined items w :
  Forall (fun i => payload_ok (merge_item_state i)) items ->
  conf (merge_handler digest32 disk clock req items (w, s0)).1.2.
Proof.
  intros Hty. apply confined_from_start. destruct (api_key s0 req) as [apikey|resp] eqn:Ek; [|by apply stays_ret].
  apply api_key_reaches in Ek. eapply stays_bind; [|intros b _; destruct (batch_status _ _ _); by apply stays_ret].
  apply stays_fold. intros b [i item] Hin. apply enumerate_snd in Hty. rewrite Forall_forall in Hty.
  apply stays_merge_item; [done..|]. by apply (Hty _ Hin).
Qed.
End Changes.

(** ** Properties *)

(** A key changes only what it may write.  Whatever the request (a write, a
    deletion, a batch or a merge), on a router as on a mirror and whatever the
    peers answer, every ordinary namespace that the key of the request may not
    write holds exactly what it held, and the database is a sound one. *)
Theorem grants_confine {W} `{Network W, Serde, Chrono, HashOrder} digest32 disk clock c req s abs w :
  implements digest32 disk (db s) abs -> is_u64 (shadow_ttl (policy (db s))) -> (forall w, plausible (clock w)) ->
  change_ok c ->
  exists abs', implements digest32 disk (db (run_change digest32 disk clock c req (w, s)).1.2) abs'
    /\ forall n, is_internal n = false -> may_change s req n = false -> abs' !! n = abs !! n.
Proof.
  intros Himp Hsh Hclk Hok.
  assert (Hc : confined digest32 disk s abs (may_change s req) (run_change digest32 disk clock c req (w, s)).1.2).
  { destruct c; [by apply write_confined|by apply delete_confined|by apply bulk_confined|by apply merge_confined]. }
  exact (proj1 Hc).
Qed.

Lemma grants_confine_witness :
  let C := chrono_10000y in let O := some_order in let N := demo_net peer_b in let S := demo_serde in
  exists abs', implements (fun _ => 7%N) ∅
      (db (write_bulk (fun _ => 7%N) ∅ (fun _ : unit => demo_time) [] keyed_request demo_items (tt, keyed_state)).1.2) abs'
    /\ abs' !! lit "other" = None.
Proof.
  intros C O N S.
  destruct (@grants_confine unit N S C O (fun _ => 7%N) ∅ (fun _ => demo_time) (WriteMany [] demo_items) keyed_request
    keyed_state ∅ tt) as (abs' & Himp & Hf).
  - apply empty_implements.
  - done.
  - intros _. apply plausible_whole.
  - by repeat constructor.
  - exists abs'. split; [exact Himp|]. rewrite (Hf (lit "other")); [done|by vm_compute..].
Defined.

(** ** Batches that are passed on *)
Section Bypass.
Context {W : Type} `{Network W} `{Serde} `{Chrono} `{HashOrder}.
Context (digest32 : str -> N) (disk : Disk) (clock : W -> Z).
Context (s0 : SharedState) (a : Acl).
Context (Hshadow : is_u64 (shadow_ttl (policy (db s0)))) (Hclock : forall w, plausible (clock w)).

(** The same run under another ACL. *)
Definition under_acl {A} (r : (W * SharedState) * A) : (W * SharedState) * A := ((r.1.1, with_acl r.1.2 a), r.2).
Definition acl_blind {A} (I : SharedState -> Prop) (m : Net (W * SharedState) A) : Prop :=
  forall w s, I s -> m (w, with_acl s a) = under_acl (m (w, s)) /\ I (m (w, s)).1.2.

Lemma blind_bind {A B} I (m : Net (W * SharedState) A) (k : A -> Net (W * SharedState) B) :
  acl_blind I m -> (forall x, acl_blind I (k x)) -> acl_blind I (m ≫= k).
Proof.
  intros Hm Hk w s Hs. destruct (Hm w s Hs) as [E1 HI]. unfold mbind, Net_bind. cbv zeta. rewrite E1.
  destruct (m (w, s)) as [[w' s'] x]. by apply Hk.
Qed.

Lemma blind_ret {A} I (x : A) : acl_blind I (mret x).
Proof. by intros w s Hs. Qed.

Lemma blind_fold {A B} I (f : B -> A -> Net (W * SharedState) B) b l :
  (forall b x, x ∈ l -> acl_blind I (f b x)) -> acl_blind I (net_fold f b l).
Proof.
  revert b. induction l as [|x l IH]; intros b Hf; simpl; [apply blind_ret|].
  apply blind_bind; [apply Hf; left|]. intros b'. apply IH. intros. apply Hf. by right.
Qed.

Lemma blind_batch I g nss path body hops origin : acl_blind I (forward_batch g nss path body hops origin).
Proof.
  unfold forward_batch. cbv zeta. case_bool_decide; [apply blind_ret|]. destruct (is_empty _); [apply blind_ret|].
  apply blind_bind; [|intros; apply blind_ret]. apply blind_fold. intros b p _. apply blind_bind; [|intros; apply blind_ret].
  unfold send. destruct (negb _); [apply blind_ret|]. by intros w s Hs.
Qed.

(** What this server stores does not change while it answers. *)
Definition fixed (s : SharedState) : Prop :=
  (exists abs, implements digest32 disk (db s) abs) /\ policy (db s) = policy (db s0) /\ stores (db s) = stores (db s0).

Lemma blind_write_all v : acl_blind fixed (write_here digest32 disk clock ALL_NAMESPACE v).
Proof.
  intros w s ((abs & Himp) & Hp & Hst). split; [done|].
  assert (Hsh : is_u64 (shadow_ttl (policy (db s)))) by by rewrite Hp. unfold write_here, on_db, act. cbv zeta. cbn [fst snd].
  destruct (record_write_spec digest32 disk (clock w) (db s) abs (node (db s)) ALL_NAMESPACE v (clock w) default_opts []
    Himp (conj I Hsh) (Hclock w)) as (R1 & (R2 & R3 & _) & _).
  split_and!; cbn [db with_db]; [by eexists|etransitivity; [exact R2|done]|etransitivity; [exact R3|done]].
Qed.

Lemma blind_note_entry e : acl_blind fixed (note_entry digest32 disk clock e).
Proof. unfold note_entry. repeat case_match; apply blind_ret || apply blind_write_all. Qed.

Lemma blind_merged_item apikey origin peer_items b x :
  elsewhere s0 (b_namespace x.2) = true ->
  acl_blind fixed (merged_item digest32 disk clock apikey origin peer_items b x).
Proof.
  intros He w s Hs. unfold merged_item, get_state, act, mbind, Net_bind. cbv zeta. cbn [fst snd db galaxy with_acl].
  assert (Hh : holds (stores (db s)) (b_namespace x.2) || is_internal (b_namespace x.2) = false).
  { destruct Hs as (_ & _ & ->). unfold elsewhere in He. by destruct (holds _ _), (is_internal _). }
  rewrite Hh. revert w s Hs Hh. intros w s Hs _. unfold merge_elsewhere.
  destruct (head _) as [e|]; [|by apply (blind_ret fixed)].
  apply (blind_bind fixed); [apply blind_note_entry|intros; apply blind_ret|done].
Qed.
End Bypass.

(** C36: a batch that goes elsewhere is not held against the ACL.  When none of its
    items is this server's to store, [/wb] gives the same answer, sends the same
    requests under the peers' keys and changes the same data whatever the ACL
    says, a table with no key in it included; the same item sent to [/w] with
    such a key is refused. *)
Theorem forwarded_batch_ignores_acl {W} `{Network W, Serde, Chrono, HashOrder} digest32 disk clock e req items s g abs a w :
  implements digest32 disk (db s) abs -> is_u64 (shadow_ttl (policy (db s))) -> (forall w, plausible (clock w)) ->
  galaxy s = Some g -> items <> [] -> (forall item, item ∈ items -> elsewhere s (b_namespace item) = true) ->
  let r := write_bulk digest32 disk clock e req items (w, s) in
  write_bulk digest32 disk clock e req items (w, with_acl s a) = ((r.1.1, with_acl r.1.2 a), r.2)
  /\ (forall item key q, authenticate s = true -> header (hdrs req) (lit "Authorization") = Some (Some key) ->
        code (write_handler digest32 disk clock req (b_namespace item) q (w, with_acl s ∅)).2 = FORBIDDEN).
Proof.
  intros Himp Hsh Hclk Hg Hne Hall r. split.
  - unfold r, write_bulk, get_state, act, mbind, Net_bind. cbv zeta. cbn [fst snd].
    change (api_key (with_acl s a) req) with (api_key s req).
    destruct (api_key s req) as [apikey|resp]; [|done]. cbn [galaxy with_acl db]. rewrite Hg.
    change (origin_to_send (with_acl s a) req) with (origin_to_send s req).
    change (filter (fun ns => elsewhere (with_acl s a) ns = true) (b_namespace <$> items))
      with (filter (fun ns => elsewhere s ns = true) (b_namespace <$> items)).
    destruct (is_empty (filter _ _)) eqn:Ee.
    { destruct items as [|i items]; [done|]. exfalso. rewrite fmap_cons, filter_cons_True in Ee by (apply Hall; left). done. }
    destruct (hops_left _ _) as [hops|]; [|done]. destruct (to_vec _) as [payload|]; [|done].
    assert (Hfix : fixed digest32 disk s s) by (split_and!; [by eexists|done..]).
    refine (proj1 (blind_bind a (fixed digest32 disk s) _
      (fun r => match r with inl answers => merged_batch digest32 disk clock req apikey items answers
                | inr err => mret (forward_failed err) end) (blind_batch a _ g _ _ _ _ _) _ w s Hfix)).
    intros [answers|err]; [|apply blind_ret]. apply blind_bind; [|intros b; repeat case_match; apply blind_ret].
    apply blind_fold. intros b [i item] Hin. apply blind_merged_item; [done..|]. apply Hall.
    apply elem_of_lookup_imap in Hin as (j & y & [= -> ->] & Hy). by eapply list_elem_of_lookup_2.
  - intros item key q Ha Hk. unfold write_handler, get_state, act, mbind, Net_bind. cbv zeta. cbn [fst snd].
    unfold authorize, api_key. cbn [authenticate with_acl]. rewrite Ha. cbn [negb]. rewrite Hk.
    unfold refusal_for, can_write, allows. cbn [acl with_acl]. rewrite lookup_empty. done.
Qed.

(** A router that knows no key, and peers that take what they are sent. *)
Definition keyless_router : SharedState :=
  mkShared (with_node (mkPolicy 0 0) (from_prefixes [lit "own"]) (lit "n1")) true ∅ rj_default (Some demo_galaxy) ∅ true false
    ∅ [] None None None None default_stix.
Definition accepting : Network (list Request) :=
  traced (fun _ _ => inl (mkResponse 200 [] (fun _ => inl []))) true (fun _ => None).
Definition accepting_serde : Serde :=
  {| from_slice _ := Some (JObj [(lit "items", JArr [JObj [(lit "status", JStr (lit "ok"))]])]);
     parse_error _ := []; to_vec _ := Some [] |}.
Definition one_item : list BulkSighting := [mkSight (lit "feeds") (lit "1.2.3.4") None None [] false].

Lemma forwarded_batch_ignores_acl_witness :
  let C := chrono_10000y in let O := some_order in let N := accepting in let S := accepting_serde in
  let r a := write_bulk (fun _ => 7%N) ∅ (fun _ => demo_time) [] keyed_request one_item ([], with_acl keyless_router a) in
  code (r ∅).2 = OK
  /\ (fun rq => header (rq_headers rq) (lit "Authorization")) <$> (r ∅).1.1 = [Some (Some (lit "ka")); Some (Some (lit "kb"))]
  /\ (r ∅).2 = (r demo_keys).2.
Proof.
  intros C O N S r. split_and!; [by vm_compute..|].
  unfold r. rewrite !(fun a => proj1 (@forwarded_batch_ignores_acl _ N S C O (fun _ => 7%N) ∅ (fun _ => demo_time) []
    keyed_request one_item keyless_router demo_galaxy ∅ a [] (empty_implements _ _ _ _ _) ltac:(done)
    (fun _ => plausible_whole 6000) eq_refl ltac:(done)
    ltac:(intros item ->%list_elem_of_singleton; by vm_compute))).
  reflexivity.
Defined.
