(* ===== verification/Admin.v ===== *)
(** * The management interface: keys and peers

    Models [src/src/admin/mod.rs]: who may use it, the keys as it shows and
    saves them, the guards that keep a server from locking everybody out, and
    the peers it edits; and from [src/src/galaxy.rs] the periodic offer of keys
    and tiers to the peers.

    The file system is a parameter, as the network is: creating a directory,
    writing a file and renaming one can each fail with a message.  Messages that
    quote a character in the way of [{:?}] are kept as the error they describe. *)

From stdpp Require Import base numbers list strings gmap sorting pretty.
From S2P Require Import Prelude Text Activity Latest Attribute AttributeFacts Convergence Paths Acl Rejections Tags Tier Namespace Disk Database Contents Refine Consensus Eviction Service Accounted System Listing Peers Config Forward CatchUp Handlers.

(** ** Files *)
Class FileSystem (W : Type) := {
  create_dir_all : str -> W -> W * option str;
  fs_write : str -> str -> W -> W * option str;
  fs_rename : str -> str -> W -> W * option str;
}.

(** The file system, with this server's state beside it. *)
#[export] Instance fs_with {W S : Type} `{FileSystem W} : FileSystem (W * S) :=
  {| create_dir_all d ws := let r := create_dir_all d ws.1 in ((r.1, ws.2), r.2);
     fs_write p t ws := let r := fs_write p t ws.1 in ((r.1, ws.2), r.2);
     fs_rename a b ws := let r := fs_rename a b ws.1 in ((r.1, ws.2), r.2) |}.

Definition DOT : N := 46.
(** [Path::with_extension("tmp")]: what follows the last dot of the name is
    replaced, unless that dot starts the name. *)
Definition tmp_name (name : str) : str :=
  match rsplit_once DOT name with
  | Some ([], _) | None => name ++ lit ".tmp"
  | Some (stem, _) => stem ++ lit ".tmp"
  end.
Definition tmp_path (path : str) : str :=
  match rsplit_once SLASH path with
  | Some (dir, name) => dir ++ [SLASH] ++ tmp_name name
  | None => tmp_name path
  end.

(** The temporary file and the rename that [save_acl], [save_tags] and
    [save_peers] share; the result is the error, if there was one. *)
Definition replace_file {W} `{FileSystem W} (path text : str) : Net W (option str) :=
  made ← create_dir_all (path_parent path);
  match made with
  | Some e => mret (Some e)
  | None =>
      wrote ← fs_write (tmp_path path) text;
      match wrote with
      | Some e => mret (Some e)
      | None => fs_rename (tmp_path path) path
      end
  end.

(** ** Keys as the interface sees them *)
Record KeyEntry := mkKeyEntry { ke_key : str; ke_admin : bool; ke_read : list str; ke_write : list str }.
#[export] Instance KeyEntry_eq_dec : EqDecision KeyEntry.
Proof. solve_decision. Defined.

(** One grant taken into an entry. *)
Definition take_grant (e : KeyEntry) (g : Grant) : KeyEntry :=
  mkKeyEntry (ke_key e) (ke_admin e || g_admin g)
    (if g_read g then ke_read e ++ [g_prefix g] else ke_read e)
    (if g_write g then ke_write e ++ [g_prefix g] else ke_write e).
Definition from_grants (key : str) (grants : list Grant) : KeyEntry :=
  foldl take_grant (mkKeyEntry key false [] []) grants.

Definition to_grants (e : KeyEntry) : list Grant :=
  ((fun prefix => mkGrant prefix true (bool_decide (prefix ∈ ke_write e)) false) <$> ke_read e)
  ++ ((fun prefix => mkGrant prefix false true false) <$> filter (fun prefix => prefix ∉ ke_read e) (ke_write e))
  ++ (if ke_admin e then [Acl.admin] else []).

Inductive AdminError :=
  | BadKey (e : NameError)
  | BadNamespace (e : NameError)
  | NoGrants
  | BadPeer (e : PeerError)
  | BadTag (e : TagError)
  | BadTier (e : TierError)
  | NegativeIdle
  | NotSeconds (text : str)
  | NotANumber (found : Json).

Fixpoint bad_namespace (prefixes : list str) : option NameError :=
  match prefixes with
  | [] => None
  | p :: r => match validate_namespace p with Some e => Some e | None => bad_namespace r end
  end.

(** [KeyEntry::validate]; [None] is [Ok(())]. *)
Definition entry_validate (e : KeyEntry) : option AdminError :=
  match validate_key (ke_key e) with
  | Some err => Some (BadKey err)
  | None =>
      match bad_namespace (ke_read e ++ ke_write e) with
      | Some err => Some (BadNamespace err)
      | None => if negb (ke_admin e) && is_empty (ke_read e) && is_empty (ke_write e) then Some NoGrants else None
      end
  end.

Definition entry_json (e : KeyEntry) : Json :=
  JObj [(lit "key", JStr (ke_key e)); (lit "admin", JBool (ke_admin e));
        (lit "read", JArr (JStr <$> ke_read e)); (lit "write", JArr (JStr <$> ke_write e))].

(** ** Answers *)
Record Drift := mkDrift {
  dr_url : str; dr_readable : bool; dr_error : option str;
  revoked_but_present : list str; only_on_peer : list str; missing : list str; agrees : bool;
}.
Record PeerRow := mkPeerRow {
  pr_url : str; pr_namespaces : option (list str); pr_fixed : bool; pr_enabled : bool; pr_health : PeerHealth;
}.
Record AddedValue := mkAdded { av_value : str; av_count : Z; av_new : bool }.
Record WriteReport := mkWriteReport {
  wr_namespace : str; wr_written : nat; wr_counts : list AddedValue; wr_errors : list (str * str);
}.
Record MirrorOutcome := mkMirror { mo_url : str; mo_ok : bool; mo_error : option str }.
Record TagRow := mkTagRow {
  tr_name : str; tr_colour : str; tr_description : str; tr_family : bool; tr_used : option Z; tr_defined : bool;
  tr_variants : option nat;
}.

Inductive AdminBody :=
  | AMessage (m : str)
  | AInvalid (e : AdminError)
  | AKey (e : KeyEntry)
  | AKeys (l : list KeyEntry)
  | ADrift (rows : list Drift)
  | AReplaced (held : nat) (gone : list str)
  | APeers (rows : list PeerRow) (editable : bool) (note : option str)
  | ANamespace (ns : str)
  | ANamespaces (page : Page NamespaceEntry)
  | ATree (page : Page TreeEntry)
  | AValues (page : Page AttributeView)
  | AReport (r : WriteReport)
  | AView (v : AttributeView)
  | ATagged (v : AttributeView) (mirrors : list MirrorOutcome)
  | ASightings (value : str) (consensus : Z) (found : Sightings)
  | ARejections (l : list Rejection) (total capacity : nat)
  | AActivity (r : Report)
  | ATier (shard : str) (t : Tier) (idle : Z) (own_tier own_idle : bool) (effect : str)
  | ATags (rows : list TagRow) (editable : bool) (counted total : nat) (scope : option str)
  | ARelayed (b : bytes).

Record AdminResponse := mkAdmin { a_code : Z; a_body : AdminBody }.
Definition say (c : Z) (m : str) : AdminResponse := mkAdmin c (AMessage m).

Definition CONFLICT : Z := 409.

(** ** Who may use it *)
Definition admin_header (req : HttpRequest) (wanting : str) : str + AdminResponse :=
  match header (hdrs req) (lit "Authorization") with
  | None => inr (say UNAUTHORIZED wanting)
  | Some None => inr (say BAD_REQUEST (lit "Authorization header is not valid UTF-8."))
  | Some (Some key) => inl key
  end.

Definition require_admin (s : SharedState) (req : HttpRequest) : str + AdminResponse :=
  match admin_header req (lit "An admin API key is required.") with
  | inr resp => inr resp
  | inl key => if is_admin (acl s) key then inl key else inr (say FORBIDDEN (lit "That key is not an admin key."))
  end.

Definition WHOLE_TREE : str := [SLASH].
Definition require_vocabulary_reader (s : SharedState) (req : HttpRequest) : str + AdminResponse :=
  match admin_header req (lit "An API key is required.") with
  | inr resp => inr resp
  | inl key =>
      if is_admin (acl s) key || can_read (acl s) key WHOLE_TREE then inl key
      else inr (say FORBIDDEN (lit "Seeing how tags are shown needs an admin key, or read across all namespaces."))
  end.
Definition require_vocabulary_editor (s : SharedState) (req : HttpRequest) : str + AdminResponse :=
  match admin_header req (lit "An API key is required.") with
  | inr resp => inr resp
  | inl key =>
      if is_admin (acl s) key || (can_read (acl s) key WHOLE_TREE && can_write (acl s) key WHOLE_TREE) then inl key
      else inr (say FORBIDDEN (lit "Changing how tags are shown needs an admin key, or read and write "
             ++ lit "across all namespaces: the vocabulary is server-wide, so a key scoped "
             ++ lit "to one subtree would be reaching past it."))
  end.

Definition require_read (s : SharedState) (key ns : str) : option AdminResponse :=
  if can_read (acl s) key ns then None else Some (say NOT_FOUND (lit "No such namespace.")).
Definition require_write (s : SharedState) (key ns : str) : option AdminResponse :=
  if can_write (acl s) key ns then None
  else Some (say FORBIDDEN (lit "That key is not permitted to write to '" ++ ns ++ lit "'.")).

Section Keys.
Context {W : Type} `{Network W} `{Serde} `{FileSystem W} (clock : W -> Z).
Abbreviation Handler A := (Net (W * SharedState) A).

Definition modify (f : SharedState -> SharedState) : Handler unit := act (fun ws => ((ws.1, f ws.2), tt)).

(** [list_keys] *)
Definition list_keys (req : HttpRequest) : Handler AdminResponse :=
  s ← get_state;
  mret match require_admin s req with
       | inr resp => resp
       | inl _ => mkAdmin OK (AKeys ((fun p => from_grants p.1 p.2) <$> Acl.entries (acl s)))
       end.

Definition NO_ACL_FILE : AdminResponse :=
  say CONFLICT (lit "No acl_file is configured, so keys cannot be edited here. Set acl_file in [daemon] and restart.").

(** [save_acl]: the file, then the table; [None] is [Ok(())]. *)
Definition save_acl (a : Acl) : Handler (option AdminResponse) :=
  s ← get_state;
  match acl_file s with
  | None => mret (Some NO_ACL_FILE)
  | Some path =>
      wrote ← replace_file path (Acl.to_toml a);
      match wrote with
      | Some e => mret (Some (say INTERNAL_SERVER_ERROR (lit "Could not write the ACL file: " ++ e)))
      | None => _ ← modify (fun s => with_acl s a); mret None
      end
  end.

Definition gossip_key (req : HttpRequest) (e : KeyEntry) : Handler unit :=
  s ← get_state;
  match galaxy s with
  | None => mret tt
  | Some g =>
      match hops_left (hdrs req) (max_hops g) with
      | None => mret tt
      | Some hops => _ ← push_key g (entry_json e) hops; mret tt
      end
  end.

(** What [save_key] decides from the table as it read it: an answer, or the
    table to save. *)
Definition save_key_plan (s : SharedState) (req : HttpRequest) (e : KeyEntry) : Acl + AdminResponse :=
  match require_admin s req with
  | inr resp => inr resp
  | inl _ =>
      match entry_validate e with
      | Some err => inr (mkAdmin BAD_REQUEST (AInvalid err))
      | None =>
          let was_admin := is_admin (acl s) (ke_key e) in
          let a := acl_set (acl s) (ke_key e) (to_grants e) in
          if was_admin && negb (ke_admin e) && (admin_count a =? 0)
          then inr (say CONFLICT (lit "That would leave no admin key. Grant admin to another key first."))
          else inl a
      end
  end.

Definition save_key_commit (req : HttpRequest) (e : KeyEntry) (a : Acl) : Handler AdminResponse :=
  failed ← save_acl a;
  match failed with
  | Some resp => mret resp
  | None =>
      _ ← modify (fun s => note_unrevoked s (ke_key e));
      _ ← gossip_key req e;
      mret (mkAdmin OK (AKey e))
  end.

Definition save_key (req : HttpRequest) (e : KeyEntry) : Handler AdminResponse :=
  s ← get_state;
  match save_key_plan s req e with
  | inr resp => mret resp
  | inl a => save_key_commit req e a
  end.

Definition delete_key_plan (s : SharedState) (req : HttpRequest) (key : str) : Acl + AdminResponse :=
  match require_admin s req with
  | inr resp => inr resp
  | inl _ =>
      if negb (contains (acl s) key) then inr (say NOT_FOUND (lit "No such key."))
      else
        let a := (acl_remove (acl s) key).1 in
        if admin_count a =? 0
        then inr (say CONFLICT (lit "That would revoke the last admin key. Grant admin to another key first."))
        else inl a
  end.

(** [state.note_revoked(key)] reads the clock. *)
Definition revoke_now (key : str) : Handler unit :=
  act (fun ws => ((ws.1, note_revoked (clock ws.1) ws.2 key), tt)).

Definition delete_key_commit (req : HttpRequest) (key : str) (a : Acl) : Handler AdminResponse :=
  failed ← save_acl a;
  match failed with
  | Some resp => mret resp
  | None =>
      _ ← revoke_now key;
      s ← get_state;
      _ ← match galaxy s with
          | None => mret tt
          | Some g =>
              match hops_left (hdrs req) (max_hops g) with
              | None => mret tt
              | Some hops => _ ← push_key_removal g key hops; mret tt
              end
          end;
      mret (say OK (lit "ok"))
  end.

Definition delete_key (req : HttpRequest) (key : str) : Handler AdminResponse :=
  s ← get_state;
  match delete_key_plan s req key with
  | inr resp => mret resp
  | inl a => delete_key_commit req key a
  end.

Fixpoint bad_entry (entries : list KeyEntry) : option AdminError :=
  match entries with
  | [] => None
  | e :: r => match entry_validate e with Some err => Some err | None => bad_entry r end
  end.

(** The table a list of keys makes, later entries over earlier ones. *)
Definition acl_of (entries : list KeyEntry) : Acl :=
  foldl (fun a e => acl_set a (ke_key e) (to_grants e)) ∅ entries.

(** The table to hold from now on, and the keys that go. *)
Definition replace_keys_plan (s : SharedState) (req : HttpRequest) (wanted : list KeyEntry) :
    (Acl * list str) + AdminResponse :=
  match require_admin s req with
  | inr resp => inr resp
  | inl caller =>
      if negb (acl_replaceable s)
      then inr (say FORBIDDEN (lit "This server does not let another replace its keys. Set acl_replaceable in [galaxy] if it should."))
      else
        match bad_entry wanted with
        | Some err => inr (mkAdmin BAD_REQUEST (AInvalid err))
        | None =>
            let a := acl_of wanted in
            if admin_count a =? 0
            then inr (say CONFLICT (lit "That set has no admin key, and would lock everyone out of this interface."))
            else if negb (contains a caller)
            then inr (say CONFLICT (lit "That set does not include the key making this request, which would "
                        ++ lit "lock the caller out of the server it is replacing."))
            else inl (a, filter (fun key => contains a key = false) (Acl.entries (acl s)).*1)
        end
  end.

Definition replace_keys_commit (wanted : list KeyEntry) (a : Acl) (going : list str) : Handler AdminResponse :=
  failed ← save_acl a;
  match failed with
  | Some resp => mret resp
  | None =>
      _ ← net_fold (fun _ key => revoke_now key) tt going;
      _ ← net_fold (fun _ e => modify (fun s => note_unrevoked s (ke_key e))) tt wanted;
      mret (mkAdmin OK (AReplaced (length wanted) going))
  end.

Definition replace_keys (req : HttpRequest) (wanted : list KeyEntry) : Handler AdminResponse :=
  s ← get_state;
  match replace_keys_plan s req wanted with
  | inr resp => mret resp
  | inl (a, going) => replace_keys_commit wanted a going
  end.

(** ** Where peers disagree *)

(** [BTreeSet] in its order *)
Definition bset_iter (x : gset str) : list str := merge_sort str_le (elements x).

Definition drift_row (mine revoked_here : gset str) (peer : PeerKeys) : Drift :=
  let theirs : gset str := list_to_set (pk_keys peer) in
  let unknown := bset_iter (theirs ∖ mine) in
  let stale := filter (fun key => key ∈ revoked_here) unknown in
  let theirs_alone := filter (fun key => key ∉ revoked_here) unknown in
  let lacking := bset_iter (mine ∖ theirs) in
  mkDrift (pk_url peer) (pk_readable peer) (pk_error peer) stale theirs_alone lacking
    (pk_readable peer && is_empty stale && is_empty lacking).

Definition key_drift (req : HttpRequest) : Handler AdminResponse :=
  s ← get_state;
  match require_admin s req with
  | inr resp => mret resp
  | inl _ =>
      match galaxy s with
      | None => mret (mkAdmin OK (ADrift []))
      | Some g =>
          let mine : gset str := list_to_set (Acl.entries (acl s)).*1 in
          let revoked_here : gset str := list_to_set (revoked_keys s) in
          held ← peer_keys g;
          mret (mkAdmin OK (ADrift (drift_row mine revoked_here <$> held)))
      end
  end.
End Keys.

(** ** The periodic offer *)
Section Gossip.
Context {W : Type} `{Network W} `{Serde}.

(** A tier as it is offered: a half that is not set is [null]. *)
Definition json_opt_str (o : option str) : Json := match o with Some t => JStr t | None => JNull end.
Definition tier_change_json (ns : str) (t : option str) (idle : option Z) : Json :=
  JObj [(lit "namespace", JStr ns); (lit "tier", json_opt_str t); (lit "warm_idle", json_opt idle)].

(** One round of [gossip]: what was accepted and what was refused. *)
Definition offer (push : Json -> Net (W * SharedState) Gossiped) (count_refused : bool) (st : nat * nat) (j : Json) :
    Net (W * SharedState) (nat * nat) :=
  r ← push j;
  mret (st.1 + accepted r, if count_refused then st.2 + refused r else st.2).

Definition gossip_round : Net (W * SharedState) (nat * nat) :=
  s ← get_state;
  match galaxy s with
  | None => mret (0, 0)
  | Some g =>
      let keys := (fun p => entry_json (from_grants p.1 p.2)) <$> Acl.entries (acl s) in
      st ← (if owns_the_acl g then
              r ← push_key_list g (JArr keys) (max_hops g);
              let st := (accepted r, refused r) in
              if bool_decide (0 < refused r)
              then net_fold (offer (fun j => push_key g j (max_hops g)) false) st keys
              else mret st
            else net_fold (offer (fun j => push_key g j (max_hops g)) true) (0, 0) keys);
      net_fold (offer (fun j => push_tier g j (max_hops g)) true) st
        ((fun t => tier_change_json t.1.1 t.1.2 t.2) <$> tier_overrides (db s))
  end.
End Gossip.

(** ** Peers *)
Record PeerChange := mkPeerChange { pc_url : str; pc_key : str; pc_namespaces : option (list str) }.

Section PeerEdits.
Context {W : Type} `{Network W} `{FileSystem W}.
Abbreviation Handler A := (Net (W * SharedState) A).

Definition NO_PEERS_FILE : str :=
  lit "No peers_file is configured, so peers cannot be edited here. Set peers_file in [galaxy] and restart.".

Definition peers_file (s : SharedState) : str + AdminResponse :=
  match galaxy s with
  | None => inr (say CONFLICT (lit "This server has no [galaxy] section, so it has no galaxy to add to. "
                  ++ lit "Add one with a peers_file and restart."))
  | Some _ => match galaxy_peers_file s with Some path => inl path | None => inr (say CONFLICT NO_PEERS_FILE) end
  end.

(** [save_peers]; [None] is [Ok(())]. *)
Definition save_peers : Handler (option AdminResponse) :=
  s ← get_state;
  match peers_file s with
  | inr resp => mret (Some resp)
  | inl path =>
      match galaxy s with
      | None => mret None
      | Some g =>
          wrote ← replace_file path (peers_to_toml (editable_peers g));
          mret match wrote with
               | Some e => Some (say INTERNAL_SERVER_ERROR
                   (lit "The galaxy was changed and is in effect now, but " ++ path
                    ++ lit " could not be written, so the change will be lost on restart: " ++ e))
               | None => None
               end
      end
  end.

Definition peer_row (g : Galaxy) (p : Peer) : PeerRow :=
  mkPeerRow (p_url p) (if everything (p_stores p) then None else Some (prefixes (p_stores p))) (is_fixed g (p_url p))
    (p_enabled p)
    (default (unprobed (p_url p))
       ((list_to_map ((fun h => (h_url h, h)) <$> reverse (health_rows g)) : gmap str PeerHealth) !! p_url p)).

Definition list_peers (req : HttpRequest) : Handler AdminResponse :=
  s ← get_state;
  mret match require_admin s req with
       | inr resp => resp
       | inl _ =>
           match galaxy s with
           | None => mkAdmin OK (APeers [] false
               (Some (lit "This server has no [galaxy] section, so it has no peers to manage. Add "
                  ++ lit "one with a peers_file and restart; `sightingdb --setup` writes both.")))
           | Some g =>
               let editable := match galaxy_peers_file s with Some _ => true | None => false end in
               mkAdmin OK (APeers (peer_row g <$> all_peers g) editable (if editable then None else Some NO_PEERS_FILE))
           end
       end.

(** The change is in effect; the file and the answer follow. *)
Definition saved_peers (req : HttpRequest) (g : Galaxy) : Handler AdminResponse :=
  _ ← modify (fun s => with_galaxy s (Some g));
  failed ← save_peers;
  match failed with Some resp => mret resp | None => list_peers req end.

(** Whether a change to [g] of [peer] goes through, and what to answer if not. *)
Definition peer_change (g : Galaxy) (own_listen : str) (peer : Peer) (replacing : bool) : Galaxy + AdminResponse :=
  if is_fixed g (p_url peer)
  then inr (say CONFLICT (p_url peer ++ lit " is declared in the configuration file. Change it there, or remove it "
              ++ lit "from [galaxy] peers to manage it here."))
  else if replacing then
    match update_peer g peer with
    | (_, None) => inr (say NOT_FOUND (p_url peer ++ lit " is not in this galaxy. Add it instead."))
    | (g', Some _) => inl g'
    end
  else
    match add_peer g peer own_listen with
    | (_, inr (AddInvalid m)) => inr (say BAD_REQUEST m)
    | (_, inr (AlreadyThere m)) => inr (say CONFLICT m)
    | (g', inl _) => inl g'
    end.

(** Whether the peer of this url, if there is one, is in service. *)
Definition enabled_now (g : Galaxy) (url : str) : bool :=
  match head (filter (fun p => p_url p = clean_url url) (all_peers g)) with Some p => p_enabled p | None => true end.

Definition nonempty_list (o : option (list str)) : option (list str) :=
  match o with Some [] => None | _ => o end.

Definition save_peer (req : HttpRequest) (change : PeerChange) (replacing : bool) : Handler AdminResponse :=
  s ← get_state;
  match require_admin s req with
  | inr resp => mret resp
  | inl _ =>
      match peers_file s, galaxy s with
      | inr resp, _ => mret resp
      | inl _, None => mret (say CONFLICT (lit "This server has no galaxy."))
      | inl _, Some g =>
          match validated_peer (pc_url change) (pc_key change) (nonempty_list (pc_namespaces change))
                  (enabled_now g (pc_url change)) with
          | inr e => mret (mkAdmin BAD_REQUEST (AInvalid (BadPeer e)))
          | inl peer =>
              match peer_change g (listen s) peer replacing with
              | inr resp => mret resp
              | inl g' => saved_peers req g'
              end
          end
      end
  end.

Definition delete_peer (req : HttpRequest) (url : str) : Handler AdminResponse :=
  s ← get_state;
  match require_admin s req with
  | inr resp => mret resp
  | inl _ =>
      match peers_file s, galaxy s with
      | inr resp, _ => mret resp
      | inl _, None => mret (say CONFLICT (lit "This server has no galaxy."))
      | inl _, Some g =>
          if is_fixed g url
          then mret (say CONFLICT (url ++ lit " is declared in the configuration file, so removing it here would not "
                       ++ lit "last: it would come back at the next restart. Remove it from [galaxy] peers instead."))
          else
            let r := remove_peer g url in
            if negb r.2 then mret (say NOT_FOUND (lit "No such peer.")) else saved_peers req r.1
      end
  end.

Definition set_peer_enabled (req : HttpRequest) (url : str) (on : bool) : Handler AdminResponse :=
  s ← get_state;
  match require_admin s req with
  | inr resp => mret resp
  | inl _ =>
      match peers_file s, galaxy s with
      | inr resp, _ => mret resp
      | inl _, None => mret (say CONFLICT (lit "This server has no galaxy."))
      | inl _, Some g =>
          if is_fixed g url
          then mret (say CONFLICT (url ++ lit " is declared in the configuration file, so disabling it here would "
                       ++ lit "not last: it would come back at the next restart. Set enabled = false "
                       ++ lit "on it in [galaxy] peers instead."))
          else
            match Peers.set_enabled g url on with
            | (_, None) => mret (say NOT_FOUND (lit "No such peer."))
            | (g', Some _) => saved_peers req g'
            end
      end
  end.
End PeerEdits.
