(* ===== verification/AdminData.v ===== *)
(** * The management interface: namespaces, values, tags and tiers

    Models the rest of [src/src/admin/mod.rs]: browsing, adding values,
    retagging here or through the mirrors, the tag vocabulary, the storage
    settings and the record of rejections.  [parse_merge] reads the state of a
    value as [serde] does; [lossy] is [String::from_utf8_lossy]. *)

From stdpp Require Import base numbers list strings gmap sorting pretty.
From S2P Require Import Prelude Text Activity Latest Attribute AttributeFacts Convergence Paths Acl Rejections Tags Tier Namespace Disk Database Contents Refine Consensus Eviction Service Accounted System Listing Peers Config Forward CatchUp Handlers Admin.

Definition ADMIN_MAX_LIMIT : nat := 500.
Definition ADMIN_DEFAULT_LIMIT : nat := 50.
(** [BrowseQuery::limit], and that of the other queries *)
Definition page_limit (l : option nat) : nat := clamp_nat 1 ADMIN_MAX_LIMIT (default ADMIN_DEFAULT_LIMIT l).
Definition graph_limit (l : option nat) : nat := clamp_nat 1 ADMIN_MAX_LIMIT (default 200 l).

(** [slice::join] *)
Fixpoint join_with (sep : str) (l : list str) : str :=
  match l with
  | [] => []
  | [x] => x
  | x :: r => x ++ sep ++ join_with sep r
  end.

Definition clean_namespace (ns : str) : str + AdminResponse :=
  let cleaned := join_with [SLASH] (filter (fun seg => seg <> []) (trim <$> split_char SLASH ns)) in
  if is_empty cleaned then inr (say BAD_REQUEST (lit "A namespace needs a name."))
  else
    match validate_namespace cleaned with
    | Some e => inr (mkAdmin BAD_REQUEST (AInvalid (BadNamespace e)))
    | None => inl cleaned
    end.

(** ** Storage settings *)
Record TierChange := mkTierChange { tc_namespace : str; tc_tier : option str; tc_warm_idle : option Json }.

Definition says_default (text : str) : bool :=
  bool_decide (text = []) || bool_decide (text = lit "default") || bool_decide (text = lit "inherit").

(** [TierChange::entry] *)
Definition change_entry (c : TierChange) : Entry + AdminError :=
  let idle : option Z + AdminError :=
    match tc_warm_idle c with
    | None | Some JNull => inl None
    | Some (JInt n) => if bool_decide (0 <= n < U64_MODULUS)%Z then inl (Some n) else inr NegativeIdle
    | Some JFloat => inr NegativeIdle
    | Some (JStr text) =>
        let text := trim text in
        if says_default text then inl None
        else match u64_from_str text with Some n => inl (Some n) | None => inr (NotSeconds text) end
    | Some other => inr (NotANumber other)
    end in
  let tier : option Tier + AdminError :=
    match tc_tier c with
    | None => inl None
    | Some t =>
        let t := trim t in
        if says_default t then inl None
        else match tier_parse t with inl t => inl (Some t) | inr e => inr (BadTier e) end
    end in
  match tier with
  | inr e => inr e
  | inl t => match idle with inr e => inr e | inl i => inl (mkTierEntry t i) end
  end.

Section AdminData.
Context {W : Type} `{Network W} `{Serde} `{Chrono} `{HashOrder} `{FileSystem W}.
Context (digest32 : str -> N) (digest64 : str -> N) (disk : Disk) (clock : W -> Z).
Context (parse_merge : bytes -> Merge + str) (lossy : bytes -> str).
Abbreviation Handler A := (Net (W * SharedState) A).

(** ** Browsing *)
Definition admin_namespaces (req : HttpRequest) (q : str) (off : nat) (limit : option nat) : Handler AdminResponse :=
  s ← get_state;
  mret match require_admin s req with
       | inr resp => resp
       | inl key => mkAdmin OK (ANamespaces (namespace_page (db s) q off (page_limit limit) (can_read (acl s) key)))
       end.

Definition admin_tree (req : HttpRequest) (path q : str) (off : nat) (limit : option nat) : Handler AdminResponse :=
  s ← get_state;
  mret match require_admin s req with
       | inr resp => resp
       | inl key => mkAdmin OK (ATree (namespace_children (db s) path q off (page_limit limit) (can_read (acl s) key)))
       end.

Definition admin_values (req : HttpRequest) (ns q : str) (off : nat) (limit : option nat) : Handler AdminResponse :=
  s ← get_state;
  match require_admin s req with
  | inr resp => mret resp
  | inl key =>
      match require_read s key ns with
      | Some resp => mret resp
      | None =>
          p ← on_db clock (fun now d => value_page digest32 disk now d ns q off (page_limit limit) false);
          mret match p with
               | Some page => mkAdmin OK (AValues page)
               | None => say NOT_FOUND (lit "No such namespace.")
               end
      end
  end.

Definition admin_value (req : HttpRequest) (ns v : str) : Handler AdminResponse :=
  s ← get_state;
  match require_admin s req with
  | inr resp => mret resp
  | inl key =>
      match require_read s key ns with
      | Some resp => mret resp
      | None =>
          cons ← on_db clock (fun now d => count_in digest32 disk now d ALL_NAMESPACE v);
          view ← on_db clock (fun now d => view_in digest32 disk now d ns v cons true);
          mret match view with
               | Some vw => mkAdmin OK (AView vw)
               | None => say NOT_FOUND (lit "No such value.")
               end
      end
  end.

Definition admin_sightings (req : HttpRequest) (v : str) (limit : option nat) : Handler AdminResponse :=
  s ← get_state;
  match require_admin s req with
  | inr resp => mret resp
  | inl key =>
      if is_empty v then mret (say BAD_REQUEST (lit "No value to look for."))
      else
        found ← on_db clock (fun now d => sightings_of digest32 disk now d v (graph_limit limit) (can_read (acl s) key));
        cons ← on_db clock (fun now d => count_in digest32 disk now d ALL_NAMESPACE v);
        mret (mkAdmin OK (ASightings v cons found))
  end.

Definition admin_activity (req : HttpRequest) (g : Granularity) (end_ : option Z) (buckets : option Z) : Handler AdminResponse :=
  act (fun ws =>
    let s := ws.2 in
    (ws, match require_admin s req with
         | inr resp => resp
         | inl key =>
             mkAdmin OK (AActivity (report (activity (db s)) g (default (timestamp (clock ws.1)) end_)
               (default (match g with Hour => 48 | Day => 90 end)%Z buckets) (can_read (acl s) key)
               (timestamp (clock ws.1))))
         end)).

(** ** Rejections *)
Definition admin_rejections (req : HttpRequest) (ns : option str) (limit : option nat) : Handler AdminResponse :=
  s ← get_state;
  mret match require_admin s req with
       | inr resp => resp
       | inl key =>
           match (match ns with Some n => require_read s key n | None => None end) with
           | Some resp => resp
           | None =>
               let found := filter (fun e => can_read (acl s) key (rj_namespace e) = true)
                              (rj_recent (rejections s) ns ADMIN_MAX_LIMIT) in
               mkAdmin OK (ARejections (take (page_limit limit) found) (rj_len (rejections s)) (rj_capacity (rejections s)))
           end
       end.

Definition clear_rejections (req : HttpRequest) : Handler AdminResponse :=
  s ← get_state;
  match require_admin s req with
  | inr resp => mret resp
  | inl key =>
      if negb (can_read (acl s) key [])
      then mret (say FORBIDDEN (lit "Clearing the rejection log needs a key with unscoped read access."))
      else _ ← modify (fun s => with_rejections s (rj_clear (rejections s))); mret (say OK (lit "ok"))
  end.

(** ** Creating and adding *)
Definition admin_create_namespace (req : HttpRequest) (ns : str) : Handler AdminResponse :=
  s ← get_state;
  match require_admin s req with
  | inr resp => mret resp
  | inl caller =>
      match clean_namespace ns with
      | inr resp => mret resp
      | inl cleaned =>
          match require_write s caller cleaned with
          | Some resp => mret resp
          | None =>
              r ← on_db clock (fun now d => create_namespace digest32 disk now d cleaned);
              mret (if r : bool then mkAdmin OK (ANamespace cleaned)
                    else say CONFLICT (lit "'" ++ cleaned ++ lit "' already exists."))
          end
      end
  end.

Record NewValues := mkNewValues {
  nv_namespace : str; nv_values : list str; nv_timestamp : option Z; nv_ttl : option Z; nv_tags : str;
}.

(** One value of a paste. *)
Definition add_value (ns : str) (w ttl : option Z) (tgs : str) (r : WriteReport) (v : str) : Handler WriteReport :=
  done ← on_db clock (fun now d => client_write digest32 disk now d None ns v w ttl tgs);
  match done with
  | inl written =>
      mret (mkWriteReport (wr_namespace r) (S (wr_written r))
              (wr_counts r ++ [mkAdded v (written_count written) (written_new written)]) (wr_errors r))
  | inr e =>
      _ ← reject clock ns v (display e) Management;
      mret (mkWriteReport (wr_namespace r) (wr_written r) (wr_counts r) (wr_errors r ++ [(v, display e)]))
  end.

Definition pasted (l : list str) : list str := filter (fun v => v <> []) (trim <$> l).

Definition add_values (req : HttpRequest) (b : NewValues) : Handler AdminResponse :=
  s ← get_state;
  match require_admin s req with
  | inr resp => mret resp
  | inl caller =>
      match clean_namespace (nv_namespace b) with
      | inr resp => mret resp
      | inl ns =>
          match require_write s caller ns with
          | Some resp => mret resp
          | None =>
              match parse_when (nv_timestamp b) with
              | inr e => mret (say BAD_REQUEST (display e))
              | inl w =>
                  if is_empty (pasted (nv_values b)) then mret (say BAD_REQUEST (lit "No values to add."))
                  else
                    r ← net_fold (add_value ns w (nv_ttl b) (nv_tags b)) (mkWriteReport ns 0 [] []) (pasted (nv_values b));
                    mret (mkAdmin (if wr_written r =? 0 then BAD_REQUEST else OK) (AReport r))
              end
          end
      end
  end.

(** ** Retagging *)
Definition spread_tags (ns v : str) (payload : Merge) : Handler (option (list MirrorOutcome)) :=
  s ← get_state;
  match galaxy s with
  | None => mret None
  | Some g =>
      outcomes ← push_value g lossy ns v payload (max_hops g);
      mret (if is_empty outcomes then None
            else Some ((fun o => match o.2 with
                                 | inl _ => mkMirror o.1 true None
                                 | inr e => mkMirror o.1 false (Some e)
                                 end) <$> outcomes))
  end.

Definition retagged_elsewhere (ns v tgs : str) : Handler (Merge + AdminResponse) :=
  s ← get_state;
  match galaxy s with
  | None => mret (inr (say NOT_FOUND (lit "No such value.")))
  | Some g =>
      r ← forward_read digest64 g ns v
            (lit "/r/" ++ ns ++ lit "?val=" ++ urlencoding_of v ++ lit "&noshadow&for_merge") (max_hops g) [];
      match r with
      | inr e => mret (inr (say BAD_GATEWAY (lit "Could not reach a mirror holding '" ++ ns ++ lit "': " ++ forward_message e)))
      | inl answer =>
          if negb (is_success (fw_status answer))
          then mret (inr (mkAdmin (if bool_decide (100 <= fw_status answer < 1000)%Z then fw_status answer else BAD_GATEWAY)
                            (ARelayed (fw_body answer))))
          else
            match parse_merge (fw_body answer) with
            | inr e => mret (inr (say BAD_GATEWAY (lit "A mirror answered unreadably: " ++ e)))
            | inl p =>
                act (fun ws => (ws, inl (mkMerge (m_counts p) (m_stats p) (m_first_seen p) (m_last_seen p) tgs
                                           (timestamp_millis (clock ws.1)) (m_ttl p))))
            end
      end
  end.

Definition view_of (v : str) (p : Merge) (cons : Z) : AttributeView :=
  mkView v (m_first_seen p) (m_last_seen p) (foldl u64_add 0%Z (btree_iter (m_counts p)).*2) (m_tags p) (m_ttl p) cons None.

(** The change made on this server's own copy. *)
Definition retagged_here (ns v tgs : str) : Handler (Merge + AdminResponse) :=
  ok ← on_db clock (fun now d => set_tags_in digest32 disk now d ns v tgs);
  if negb ok then mret (inr (say NOT_FOUND (lit "No such value.")))
  else
    p ← on_db clock (fun now d => merge_payload_in digest32 disk now d ns v);
    mret match p with
         | Some payload => inl payload
         | None => inr (say INTERNAL_SERVER_ERROR (lit "The value disappeared while being retagged."))
         end.

Definition admin_set_tags (req : HttpRequest) (ns v tgs : str) : Handler AdminResponse :=
  s ← get_state;
  match require_admin s req with
  | inr resp => mret resp
  | inl caller =>
      match clean_namespace ns with
      | inr resp => mret resp
      | inl ns =>
          match require_write s caller ns with
          | Some resp => mret resp
          | None =>
              r ← (if holds (stores (db s)) ns then retagged_here ns v tgs else retagged_elsewhere ns v tgs);
              match r with
              | inr resp => mret resp
              | inl payload =>
                  mirrors ← spread_tags ns v payload;
                  cons ← on_db clock (fun now d => count_in digest32 disk now d ALL_NAMESPACE v);
                  vw ← on_db clock (fun now d => view_in digest32 disk now d ns v cons false);
                  let view := default (view_of v payload cons) vw in
                  mret (mkAdmin OK match mirrors with None => AView view | Some rep => ATagged view rep end)
              end
          end
      end
  end.
End AdminData.

(** ** The tag vocabulary *)
Section Vocabularies.
Context {W : Type} `{Network W} `{Serde} `{HashOrder} `{FileSystem W} (clock : W -> Z).
Abbreviation Handler A := (Net (W * SharedState) A).

Definition UNKNOWN_COLOUR : str := lit "#6b7280".
Definition FREE_TEXT_ABOVE : nat := 3.

(** A row for a tag the vocabulary has. *)
Definition defined_row (usage : gmap str Z) (p : str * Tag) : TagRow :=
  let family := is_family p.1 in
  let used := if family then foldl u64_add 0%Z (filter (fun u => starts_with p.1 u.1 = true) (btree_iter usage)).*2
              else default 0%Z (usage !! p.1) in
  mkTagRow p.1 (colour p.2) (description p.2) family (if bool_decide (0 < used)%Z then Some used else None) true None.

(** Tags of values that the vocabulary says nothing about, in their order. *)
Definition unaccounted (v : Vocabulary) (usage : gmap str Z) : list (str * Z) :=
  filter (fun u => v !! u.1 = None /\ colour_of v u.1 = None) (btree_iter usage).

(** What a tag is grouped by: the key of a [key:value], with its colon. *)
Definition tag_key (name : str) : option str :=
  match split_once COLON name with
  | Some ([], _) | None => None
  | Some (key, _) => Some (key ++ [COLON])
  end.

(** [BTreeMap<Option<String>, ..>] in its order: no key first. *)
Definition key_group (found : list (str * Z)) (k : option str) : list (str * Z) :=
  filter (fun u => tag_key u.1 = k) found.
Definition keys_of (found : list (str * Z)) : list (option str) :=
  (if is_empty (key_group found None) then [] else [None])
  ++ (Some <$> bset_iter (list_to_set (omap (fun u => tag_key u.1) found))).

Definition group_rows (k : option str) (found : list (str * Z)) : list TagRow :=
  let one u := mkTagRow u.1 UNKNOWN_COLOUR [] false (Some u.2) false None in
  match k with
  | Some family =>
      if bool_decide (FREE_TEXT_ABOVE < length found)
      then [mkTagRow family UNKNOWN_COLOUR [] true (Some (foldl u64_add 0%Z found.*2)) false (Some (length found))]
      else one <$> found
  | None => one <$> found
  end.

Definition row_le (a b : TagRow) : Prop := str_le (tr_name a) (tr_name b).
#[local] Instance row_le_dec a b : Decision (row_le a b) := decide (str_le (tr_name a) (tr_name b)).

Definition tag_rows (v : Vocabulary) (usage : gmap str Z) : list TagRow :=
  let found := unaccounted v usage in
  merge_sort row_le ((defined_row usage <$> btree_iter v)
                     ++ mjoin ((fun k => group_rows k (key_group found k)) <$> keys_of found)).

Definition tag_scope (everywhere : bool) (p : StoragePolicy) : option str :=
  if negb everywhere then
    Some (lit "Counts are hidden because this key cannot read every namespace. The vocabulary itself is not scoped.")
  else if is_router p then
    Some (lit "This server stores nothing of its own, so these counts cover only "
      ++ lit "what it has locally " ++ [8212%N] ++ lit " which on a router is next to nothing. The tags "
      ++ lit "in use are on the nodes; open a node's interface to count them there.")
  else if negb (everything p) then
    Some (lit "Counts cover the namespaces this server stores (" ++ join_with (lit ", ") (prefixes p)
      ++ lit "). Tags in namespaces held elsewhere in the galaxy are not counted here.")
  else None.

Definition list_tags (req : HttpRequest) : Handler AdminResponse :=
  act (fun ws =>
    let s := ws.2 in
    (ws, match require_vocabulary_reader s req with
         | inr resp => resp
         | inl caller =>
             let '(usage, counted, total) := tag_usage (db s) (clock ws.1) in
             let everywhere := can_read (acl s) caller WHOLE_TREE in
             mkAdmin OK (ATags (tag_rows (vocabulary s) (if everywhere then usage else ∅))
               (match tags_file s with Some _ => true | None => false end) counted total
               (tag_scope everywhere (stores (db s))))
         end)).

Definition NO_TAGS_FILE : AdminResponse :=
  say CONFLICT (lit "No tags_file is configured, so tag colours cannot be edited here. Set tags_file in [daemon] and restart.").

(** [save_tags]: the file, then the table; [None] is [Ok(())]. *)
Definition save_tags (v : Vocabulary) : Handler (option AdminResponse) :=
  s ← get_state;
  match tags_file s with
  | None => mret (Some NO_TAGS_FILE)
  | Some path =>
      wrote ← replace_file path (tags_to_toml v);
      match wrote with
      | Some e => mret (Some (say INTERNAL_SERVER_ERROR (lit "Could not write the tag vocabulary: " ++ e)))
      | None => _ ← modify (fun s => with_vocabulary s v); mret None
      end
  end.

(** A changed vocabulary, saved and shown. *)
Definition saved_tags (req : HttpRequest) (v : Vocabulary) : Handler AdminResponse :=
  failed ← save_tags v;
  match failed with Some resp => mret resp | None => list_tags req end.

Definition define_tag (req : HttpRequest) (name c desc : str) : Handler AdminResponse :=
  s ← get_state;
  match require_vocabulary_editor s req with
  | inr resp => mret resp
  | inl _ =>
      match tags_file s with
      | None => mret NO_TAGS_FILE
      | Some _ =>
          match vocab_set (vocabulary s) name c desc with
          | inr e => mret (mkAdmin BAD_REQUEST (AInvalid (BadTag e)))
          | inl v => saved_tags req v
          end
      end
  end.

Definition undefine_tag (req : HttpRequest) (name : str) : Handler AdminResponse :=
  s ← get_state;
  match require_vocabulary_editor s req with
  | inr resp => mret resp
  | inl _ =>
      match tags_file s with
      | None => mret NO_TAGS_FILE
      | Some _ =>
          match vocab_remove (vocabulary s) name with
          | inr e => mret (mkAdmin NOT_FOUND (AInvalid (BadTag e)))
          | inl v => saved_tags req v
          end
      end
  end.

(** ** Storage settings *)

(** [TierPolicy::save]; the result is the context of what failed, which is what
    the answer shows. *)
Definition save_tiers (path : str) (p : TierPolicy) : Net (W * SharedState) (option str) :=
  made ← create_dir_all (path_parent path);
  match made with
  | Some _ => mret (Some (lit "creating " ++ path_parent path))
  | None =>
      wrote ← fs_write (tmp_path path) (save_body p);
      match wrote with
      | Some _ => mret (Some (lit "writing " ++ tmp_path path))
      | None =>
          moved ← fs_rename (tmp_path path) path;
          mret match moved with
               | Some _ => Some (lit "renaming " ++ tmp_path path ++ lit " to " ++ path)
               | None => None
               end
      end
  end.

Definition admin_set_tier (req : HttpRequest) (change : TierChange) : Handler AdminResponse :=
  s ← get_state;
  match require_admin s req with
  | inr resp => mret resp
  | inl caller =>
      let ns := trim_slashes (trim (tc_namespace change)) in
      if is_empty ns then mret (say BAD_REQUEST (lit "Name the namespace to change."))
      else if starts_with UNDERSCORE ns
      then mret (say BAD_REQUEST (lit "Internal namespaces are always hot and cannot be retiered."))
      else
        match change_entry change with
        | inr e => mret (mkAdmin BAD_REQUEST (AInvalid e))
        | inl e =>
            match require_write s caller ns with
            | Some resp => mret resp
            | None =>
                match tiers_file s with
                | None => mret (say CONFLICT (lit "No tiers_file is configured, so tiers cannot be changed here. "
                                  ++ lit "Set tiers_file in [storage] and restart."))
                | Some path =>
                    let shard := shard_of ns in
                    _ ← modify (fun s => with_db s (set_policy (db s) shard e));
                    s ← get_state;
                    failed ← save_tiers path (tiers (db s));
                    match failed with
                    | Some why => mret (say INTERNAL_SERVER_ERROR (lit "Could not write the tier file: " ++ why))
                    | None =>
                        let r := resolved_policy (db s) shard in
                        _ ← match galaxy s with
                            | None => mret tt
                            | Some g =>
                                match hops_left (hdrs req) (max_hops g) with
                                | None => mret tt
                                | Some hops =>
                                    _ ← push_tier g (tier_change_json shard (Some (as_str (r_tier r))) (Some (r_warm_idle r))) hops;
                                    mret tt
                                end
                            end;
                        mret (mkAdmin OK (ATier shard (r_tier r) (r_warm_idle r) (bool_decide (is_Some (own_tier r)))
                               (bool_decide (is_Some (own_warm_idle r))) (shard_effect (db s) shard)))
                    end
                end
            end
        end
  end.
End Vocabularies.
