(* ===== verification/AdminFacts.v ===== *)
(** * What the management interface promises

    However key changes interleave, some key can still use the interface; the
    ACL file is written before the table is changed; a key passed on to a peer
    grants there what it grants here; peers of the configuration file are not
    changed; and a key changes data only where it may write.  What it does not
    promise: a revocation survives a change made at the same time, and a tier
    that is unset is unset on the peers. *)

From stdpp Require Import base numbers list strings gmap sorting pretty relations.
From S2P Require Import Prelude Text Activity Latest Attribute AttributeFacts Convergence Paths Acl Rejections Tags Tier Namespace Disk Database Contents Refine Consensus Eviction Service Accounted System Listing Peers Config Forward ForwardFacts CatchUp CatchUpFacts Handlers HandlerFacts Grants Admin AdminData.

(** ** Tables with an admin key *)
Definition has_admin (a : Acl) : Prop := admin_count a <> 0.

Lemma has_admin_spec (a : Acl) : has_admin a <-> exists key, is_admin a key = true.
Proof.
  unfold has_admin, admin_count, is_admin. split.
  - destruct (filter _ _) as [|[k gs] l] eqn:E; [done|]. intros _. exists k.
    assert (Hin : (k, gs) ∈ filter (fun p => Is_true (existsb g_admin p.2)) (map_to_list a)) by (rewrite E; left).
    apply list_elem_of_filter in Hin as [Hg Hin%elem_of_map_to_list]. rewrite Hin. by apply Is_true_true.
  - intros [k Hk]. destruct (a !! k) as [gs|] eqn:E; [|done].
    assert (Hin : (k, gs) ∈ filter (fun p => Is_true (existsb g_admin p.2)) (map_to_list a)).
    { apply list_elem_of_filter. split; [by apply Is_true_true|by apply elem_of_map_to_list]. }
    intros Hl. apply nil_length_inv in Hl. rewrite Hl in Hin. by apply elem_of_nil in Hin.
Qed.

Lemma to_grants_admin e : existsb g_admin (to_grants e) = ke_admin e.
Proof.
  apply eq_true_iff_eq. rewrite existsb_exists. split.
  - intros (g & Hin%list_elem_of_In & Ha). unfold to_grants in Hin. rewrite !elem_of_app, !list_elem_of_fmap in Hin.
    destruct Hin as [(p & -> & _)|[(p & -> & _)|Hin]]; [done..|]. by destruct (ke_admin e); [|apply elem_of_nil in Hin].
  - intros He. exists Acl.admin. split; [|done]. apply list_elem_of_In. unfold to_grants. rewrite He, !elem_of_app. right. right. left.
Qed.

(** Putting one entry in the table keeps an admin, unless it takes the last one. *)
Lemma acl_set_has_admin a e :
  has_admin a ->
  is_admin a (ke_key e) && negb (ke_admin e) && (admin_count (acl_set a (ke_key e) (to_grants e)) =? 0) = false ->
  has_admin (acl_set a (ke_key e) (to_grants e)).
Proof.
  intros [k Hk]%has_admin_spec Hg. destruct (admin_count _ =? 0) eqn:Ec; [|by apply Nat.eqb_neq in Ec].
  rewrite andb_true_r in Hg. apply has_admin_spec. unfold acl_set, is_admin.
  destruct (ke_admin e) eqn:Ee.
  - exists (ke_key e). rewrite lookup_insert_eq. by rewrite to_grants_admin.
  - rewrite andb_true_r in Hg. exists k. rewrite lookup_insert_ne; [exact Hk|]. intros <-. by rewrite Hg in Hk.
Qed.

(** ** Handlers and files *)
Section StaysFiles.
Context {W : Type} `{Network W} `{FileSystem W}.

Lemma stays_replace_file I path text : stays I (replace_file path text) any.
Proof.
  unfold replace_file. apply (stays_bind _ _ _ any); [by intros w s Hs|]. intros [e|] _; [by apply stays_ret|].
  apply (stays_bind _ _ _ any); [by intros w s Hs|]. intros [e|] _; [by apply stays_ret|]. by intros w s Hs.
Qed.

Lemma stays_modify (I : SharedState -> Prop) f : (forall s, I s -> I (f s)) -> stays I (modify (W := W) f) any.
Proof. intros Hf w s Hs. split; [by apply Hf|done]. Qed.

Lemma stays_spread I g method path body hops : stays I (spread g method path body hops) any.
Proof.
  unfold spread. case_bool_decide; [by apply stays_ret|]. apply stays_fold. intros r p _.
  eapply stays_bind; [apply stays_send|]. intros x _. by apply stays_ret.
Qed.

Lemma stays_save_acl (I : SharedState -> Prop) a :
  (forall s, I s -> I (with_acl s a)) -> stays I (save_acl (W := W) a) any.
Proof.
  intros Ha. unfold save_acl. eapply stays_bind; [apply stays_get|]. intros s Hs.
  destruct (acl_file s) as [path|]; [|by apply stays_ret]. eapply stays_bind; [apply stays_replace_file|].
  intros [e|] _; [by apply stays_ret|]. eapply stays_bind; [by apply stays_modify|]. intros. by apply stays_ret.
Qed.
End StaysFiles.

(** ** Key changes that interleave

    A change is decided on the table as it was when the request was read, and
    made later: between the two, other changes may be made. *)
Inductive KeyOp :=
  | SaveKey (e : KeyEntry)
  | DeleteKey (key : str)
  | ReplaceKeys (wanted : list KeyEntry).

Record Decided := mkDecided { dc_op : KeyOp; dc_req : HttpRequest; dc_acl : Acl; dc_going : list str }.

Definition decide_key (s : SharedState) (req : HttpRequest) (op : KeyOp) : Decided + AdminResponse :=
  match op with
  | SaveKey e => match save_key_plan s req e with inl a => inl (mkDecided op req a []) | inr r => inr r end
  | DeleteKey k => match delete_key_plan s req k with inl a => inl (mkDecided op req a []) | inr r => inr r end
  | ReplaceKeys l => match replace_keys_plan s req l with inl x => inl (mkDecided op req x.1 x.2) | inr r => inr r end
  end.

Section Interleaving.
Context {W : Type} `{Network W} `{Serde} `{FileSystem W} (clock : W -> Z).

Definition commit (d : Decided) : Net (W * SharedState) AdminResponse :=
  match dc_op d with
  | SaveKey e => save_key_commit (dc_req d) e (dc_acl d)
  | DeleteKey k => delete_key_commit clock (dc_req d) k (dc_acl d)
  | ReplaceKeys l => replace_keys_commit clock l (dc_acl d) (dc_going d)
  end.

(** The server, and the changes that are decided and not yet made. *)
Inductive key_step : SharedState * list Decided -> SharedState * list Decided -> Prop :=
  | step_decide s req op d l : decide_key s req op = inl d -> key_step (s, l) (s, l ++ [d])
  | step_commit s d l1 l2 w :
      key_step (s, l1 ++ d :: l2) ((commit d (w, s)).1.2, l1 ++ l2).

(** A handler is one decision and, at once, its commit. *)
Definition run_key (req : HttpRequest) (op : KeyOp) : Net (W * SharedState) AdminResponse :=
  match op with
  | SaveKey e => save_key req e
  | DeleteKey k => delete_key clock req k
  | ReplaceKeys l => replace_keys clock req l
  end.

Lemma run_key_decided req op w s :
  run_key req op (w, s) = match decide_key s req op with inl d => commit d (w, s) | inr resp => ((w, s), resp) end.
Proof.
  destruct op; unfold run_key, save_key, delete_key, replace_keys, get_state, act, mbind, Net_bind; cbv zeta; cbn [fst snd decide_key];
    [destruct (save_key_plan s req e)|destruct (delete_key_plan s req key)|destruct (replace_keys_plan s req wanted) as [[]|]]; done.
Qed.

Lemma decided_has_admin s req op d :
  has_admin (acl s) -> decide_key s req op = inl d -> has_admin (dc_acl d).
Proof.
  intros Ha. destruct op as [e|k|l]; cbn [decide_key].
  - unfold save_key_plan. destruct (require_admin s req); [|done]. destruct (entry_validate e); [done|].
    destruct (_ && _) eqn:E; [done|]. intros [= <-]. by apply acl_set_has_admin.
  - unfold delete_key_plan. destruct (require_admin s req); [|done]. destruct (negb _); [done|].
    destruct (admin_count _ =? 0) eqn:E; [done|]. intros [= <-]. by apply Nat.eqb_neq in E.
  - unfold replace_keys_plan. destruct (require_admin s req) as [c|]; [|done]. destruct (negb _); [done|].
    destruct (bad_entry l); [done|]. destruct (admin_count _ =? 0) eqn:E; [done|]. destruct (negb _); [done|].
    intros [= <-]. by apply Nat.eqb_neq in E.
Qed.

End Interleaving.

(** ** What a commit does *)
Section Commits.
Context {W : Type} `{Network W} `{Serde} `{FileSystem W} (clock : W -> Z).

(** The table is changed exactly when the file was written. *)
Lemma save_acl_outcome a w s :
  match (save_acl (W := W) a (w, s)).2 with
  | None => (save_acl a (w, s)).1.2 = with_acl s a
  | Some resp => (save_acl a (w, s)).1.2 = s /\ a_code resp <> OK
  end.
Proof.
  unfold save_acl, get_state, act, mbind, Net_bind. cbv zeta. cbn [fst snd].
  destruct (acl_file s) as [path|]; [|done].
  pose proof (proj1 (stays_replace_file (fun s' => s' = s) path (Acl.to_toml a) w s eq_refl)) as Hs.
  destruct (replace_file path (Acl.to_toml a) (w, s)) as [[w' s'] [e|]]; cbn [fst snd] in Hs; subst; done.
Qed.

(** What a commit does once the table is saved. *)
Definition afterwards (d : Decided) : Net (W * SharedState) AdminResponse :=
  match dc_op d with
  | SaveKey e =>
      _ ← modify (fun s => note_unrevoked s (ke_key e)); _ ← gossip_key (dc_req d) e; mret (mkAdmin OK (AKey e))
  | DeleteKey k =>
      _ ← revoke_now clock k;
      s ← get_state;
      _ ← match galaxy s with
          | None => mret tt
          | Some g => match hops_left (hdrs (dc_req d)) (max_hops g) with
                      | None => mret tt
                      | Some hops => _ ← push_key_removal g k hops; mret tt
                      end
          end;
      mret (say OK (lit "ok"))
  | ReplaceKeys l =>
      _ ← net_fold (fun _ key => revoke_now clock key) tt (dc_going d);
      _ ← net_fold (fun _ e => modify (fun s => note_unrevoked s (ke_key e))) tt l;
      mret (mkAdmin OK (AReplaced (length l) (dc_going d)))
  end.

Lemma commit_unfold d w s :
  commit clock d (w, s) = match (save_acl (dc_acl d) (w, s)).2 with
                          | Some resp => ((save_acl (dc_acl d) (w, s)).1, resp)
                          | None => afterwards d (save_acl (dc_acl d) (w, s)).1
                          end.
Proof.
  unfold commit, afterwards, save_key_commit, delete_key_commit, replace_keys_commit.
  destruct (dc_op d); unfold mbind at 1, Net_bind at 1; cbv zeta; by destruct (save_acl (dc_acl d) (w, s)).2.
Qed.

Lemma stays_afterwards d (I : SharedState -> Prop) :
  (forall s m, I s -> I (with_revoked s m)) -> stays I (afterwards d) (fun resp => a_code resp = OK).
Proof.
  intros Hr. unfold afterwards. destruct (dc_op d) as [e|k|l].
  - eapply stays_bind; [apply stays_modify; intros; by apply Hr|]. intros _ _.
    apply (stays_bind _ _ _ any); [|intros; by apply stays_ret]. unfold gossip_key. eapply stays_bind; [apply stays_get|].
    intros s _. destruct (galaxy s); [|by apply stays_ret]. destruct (hops_left _ _); [|by apply stays_ret].
    eapply stays_bind; [apply stays_spread|]. intros. by apply stays_ret.
  - apply (stays_bind _ _ _ any); [intros w s Hs; split; [by apply Hr|done]|]. intros _ _.
    eapply stays_bind; [apply stays_get|]. intros s _. apply (stays_bind _ _ _ any); [|intros; by apply stays_ret].
    destruct (galaxy s); [|by apply stays_ret]. destruct (hops_left _ _); [|by apply stays_ret].
    eapply stays_bind; [apply stays_spread|]. intros. by apply stays_ret.
  - eapply stays_bind; [apply stays_fold; intros; intros w s Hs; split; [by apply Hr|done]|]. intros _ _.
    eapply stays_bind; [apply stays_fold; intros; apply stays_modify; intros; by apply Hr|]. intros _ _. by apply stays_ret.
Qed.

Lemma commit_outcome d w s :
  let r := commit clock d (w, s) in
  (a_code r.2 = OK /\ acl r.1.2 = dc_acl d /\ acl_file r.1.2 = acl_file s) \/ (a_code r.2 <> OK /\ r.1.2 = s).
Proof.
  intros r. unfold r. rewrite commit_unfold. pose proof (save_acl_outcome (dc_acl d) w s) as Ho.
  destruct (save_acl (dc_acl d) (w, s)) as [[w' s'] [resp|]]; cbn [fst snd] in *.
  - right. by destruct Ho.
  - left. subst. destruct (stays_afterwards d (fun x => acl x = dc_acl d /\ acl_file x = acl_file s) ltac:(done) w'
      (with_acl s (dc_acl d)) ltac:(done)) as [[A1 A2] A3]. done.
Qed.

Definition never_locked (st : SharedState * list Decided) : Prop :=
  has_admin (acl st.1) /\ Forall (fun d => has_admin (dc_acl d)) st.2.

Lemma key_step_kept st st' : never_locked st -> key_step clock st st' -> never_locked st'.
Proof.
  intros [Ha Hl] Hs. destruct Hs as [s req op d l Hd|s d l1 l2 w]; cbn [fst snd] in *.
  - split; [done|]. apply Forall_app. split; [done|]. constructor; [|done]. by eapply decided_has_admin.
  - apply Forall_app in Hl as [Hl1 [Hd Hl2]%Forall_cons]. split; [|by apply Forall_app]. cbn [fst].
    destruct (commit_outcome d w s) as [(_ & -> & _)|[_ ->]]; done.
Qed.
End Commits.

(** ** Files that behave *)
Class LawfulFiles (W : Type) `{Network W} `{FileSystem W} := {
  file : W -> str -> option str;
  dir_law : forall d w q, file (create_dir_all d w).1 q = file w q;
  write_law : forall p t w,
    (forall q, q <> p -> file (fs_write p t w).1 q = file w q)
    /\ ((fs_write p t w).2 = None -> file (fs_write p t w).1 p = Some t);
  rename_law : forall a b w,
    match (fs_rename a b w).2 with
    | None => file (fs_rename a b w).1 b = file w a
    | Some _ => file (fs_rename a b w).1 b = file w b
    end;
  exchange_law : forall rq w q, file (exchange rq w).1 q = file w q;
}.

Section Lawful.
Context {W : Type} `{Network W} `{Serde} `{FileSystem W} `{!LawfulFiles W} (clock : W -> Z).

(** [m] leaves every file alone. *)
Definition fileless {A} (m : Net (W * SharedState) A) : Prop := forall w s q, file (m (w, s)).1.1 q = file w q.

Lemma fileless_ret {A} (x : A) : fileless (mret x).
Proof. done. Qed.
Lemma fileless_bind {A B} (m : Net (W * SharedState) A) (k : A -> Net (W * SharedState) B) :
  fileless m -> (forall x, fileless (k x)) -> fileless (m ≫= k).
Proof.
  intros Hm Hk w s q. unfold mbind, Net_bind. cbv zeta. specialize (Hm w s q).
  destruct (m (w, s)) as [[w' s'] x]. cbn [fst snd] in *. by rewrite (Hk x w' s' q).
Qed.
Lemma fileless_fold {A B} (f : B -> A -> Net (W * SharedState) B) b l :
  (forall b x, fileless (f b x)) -> fileless (net_fold f b l).
Proof.
  intros Hf. revert b. induction l as [|x l IH]; intros b; simpl; [apply fileless_ret|].
  apply fileless_bind; [apply Hf|]. intros b'. apply IH.
Qed.
Lemma fileless_spread g method path body hops : fileless (spread g method path body hops).
Proof.
  unfold spread. case_bool_decide; [apply fileless_ret|]. apply fileless_fold. intros r p.
  apply fileless_bind; [|intros; apply fileless_ret]. unfold send. destruct (negb _); [apply fileless_ret|].
  apply fileless_bind; [|intros; apply fileless_ret]. intros w s q. apply exchange_law.
Qed.

Lemma fileless_afterwards d : fileless (afterwards clock d).
Proof.
  unfold afterwards. destruct (dc_op d) as [e|k|l]; (apply fileless_bind; [|intros _]).
  - done.
  - apply fileless_bind; [|intros; apply fileless_ret]. apply fileless_bind; [done|]. intros s.
    destruct (galaxy s); [|apply fileless_ret]. destruct (hops_left _ _); [|apply fileless_ret].
    apply fileless_bind; [apply fileless_spread|intros; apply fileless_ret].
  - done.
  - apply fileless_bind; [done|]. intros s. apply fileless_bind; [|intros; apply fileless_ret].
    destruct (galaxy s); [|apply fileless_ret]. destruct (hops_left _ _); [|apply fileless_ret].
    apply fileless_bind; [apply fileless_spread|intros; apply fileless_ret].
  - by apply fileless_fold.
  - apply fileless_bind; [by apply fileless_fold|intros; apply fileless_ret].
Qed.

Lemma replace_file_law path text w (s : SharedState) :
  tmp_path path <> path ->
  file (replace_file path text (w, s)).1.1 path
  = match (replace_file path text (w, s)).2 with None => Some text | Some _ => file w path end.
Proof.
  intros Ht. unfold replace_file, mbind, Net_bind. cbv zeta. cbn [create_dir_all fs_with fst snd].
  pose proof (dir_law (path_parent path) w path) as Hd. destruct (create_dir_all (path_parent path) w) as [w1 [e|]];
    cbn [fst snd mret Net_ret] in *; [done|].
  destruct (write_law (tmp_path path) text w1) as [Hw1 Hw2]. cbn [fs_write fs_with fst snd].
  destruct (fs_write (tmp_path path) text w1) as [w2 [e|]]; cbn [fst snd mret Net_ret] in *; [by rewrite Hw1, Hd|].
  pose proof (rename_law (tmp_path path) path w2) as Hr. cbn [fs_rename fs_with fst snd].
  destruct (fs_rename (tmp_path path) path w2) as [w3 [e|]]; cbn [fst snd] in *; rewrite Hr.
  - by rewrite Hw1, Hd.
  - by apply Hw2.
Qed.

(** A commit leaves file and table alone, or the file with the text of the table. *)
Lemma commit_wrote d path w s :
  acl_file s = Some path -> tmp_path path <> path ->
  let r := (commit clock d (w, s)).1 in
  (file r.1 path = file w path /\ r.2 = s) \/ file r.1 path = Some (Acl.to_toml (acl r.2)).
Proof.
  intros Hp Ht r. subst r. pose proof (commit_outcome clock d w s) as Hc. cbv zeta in Hc. rewrite commit_unfold in *.
  revert Hc. unfold save_acl, get_state, act, mbind, Net_bind. cbv zeta. cbn [fst snd]. rewrite Hp.
  pose proof (replace_file_law path (Acl.to_toml (dc_acl d)) w s Ht) as Hl.
  pose proof (proj1 (stays_replace_file (fun s' => s' = s) path (Acl.to_toml (dc_acl d)) w s eq_refl)) as Hs.
  destruct (replace_file path (Acl.to_toml (dc_acl d)) (w, s)) as [[w' s'] [e|]]; cbn [fst snd modify act mret Net_ret] in *;
    subst s'; intros Hc.
  - left. by rewrite Hl.
  - right. pose proof (fileless_afterwards d w' (with_acl s (dc_acl d)) path) as Ha.
    destruct Hc as [(_ & -> & _)|[Hk _]]; [by rewrite Ha, Hl|]. exfalso. apply Hk.
    exact (proj2 (stays_afterwards clock d (fun _ => True) ltac:(done) w' (with_acl s (dc_acl d)) Logic.I)).
Qed.

Lemma commit_file d path w s :
  acl_file s = Some path -> tmp_path path <> path -> file w path = Some (Acl.to_toml (acl s)) ->
  file (commit clock d (w, s)).1.1 path = Some (Acl.to_toml (acl (commit clock d (w, s)).1.2)).
Proof. intros Hp Ht Hf. by destruct (commit_wrote d path w s Hp Ht) as [[-> ->]|E]. Qed.
End Lawful.

(** ** Keys that travel *)
Definition prefix_covers (ns p : str) : bool := covers_loop (segments p) (segments ns).

Lemma from_grants_spec key gs :
  from_grants key gs
  = mkKeyEntry key (existsb g_admin gs) (g_prefix <$> filter (fun g => g_read g = true) gs)
      (g_prefix <$> filter (fun g => g_write g = true) gs).
Proof.
  unfold from_grants. enough (Hgen : forall gs e, foldl take_grant e gs
    = mkKeyEntry (ke_key e) (ke_admin e || existsb g_admin gs) (ke_read e ++ (g_prefix <$> filter (fun g => g_read g = true) gs))
        (ke_write e ++ (g_prefix <$> filter (fun g => g_write g = true) gs))) by (rewrite Hgen; done).
  clear. induction gs as [|g gs IH]; intros [k a r w]; simpl.
  - by rewrite orb_false_r, !app_nil_r.
  - rewrite IH. cbn [take_grant ke_key ke_admin ke_read ke_write]. rewrite orb_assoc, !filter_cons.
    f_equal; (case_decide as E; [rewrite E, <- app_assoc; done|]); by destruct (g_read g), (g_write g).
Qed.

Lemma existsb_elem {A} (f : A -> bool) l : existsb f l = true <-> exists x, x ∈ l /\ f x = true.
Proof. rewrite existsb_exists. by setoid_rewrite list_elem_of_In. Qed.

Lemma elem_of_to_grants e g :
  g ∈ to_grants e <->
  (exists p, p ∈ ke_read e /\ g = mkGrant p true (bool_decide (p ∈ ke_write e)) false)
  \/ (exists p, p ∈ ke_write e /\ p ∉ ke_read e /\ g = mkGrant p false true false)
  \/ (ke_admin e = true /\ g = Acl.admin).
Proof.
  unfold to_grants. rewrite !elem_of_app, !list_elem_of_fmap. setoid_rewrite list_elem_of_filter.
  destruct (ke_admin e); rewrite ?list_elem_of_singleton, ?elem_of_nil; naive_solver.
Qed.

Lemma rights_read e ns :
  existsb (fun g => g_read g && covers g ns) (to_grants e) = existsb (prefix_covers ns) (ke_read e).
Proof.
  apply eq_true_iff_eq. rewrite !existsb_elem. setoid_rewrite elem_of_to_grants. setoid_rewrite andb_true_iff. split.
  - intros (g & [(p & Hp & ->)|[(p & _ & _ & ->)|[_ ->]]] & Hr & Hc); [by exists p|done..].
  - intros (p & Hp & Hc). eexists. split; [left; by exists p|done].
Qed.

Lemma rights_write e ns :
  existsb (fun g => g_write g && covers g ns) (to_grants e) = existsb (prefix_covers ns) (ke_write e).
Proof.
  apply eq_true_iff_eq. rewrite !existsb_elem. setoid_rewrite elem_of_to_grants. setoid_rewrite andb_true_iff. split.
  - intros (g & [(p & Hp & ->)|[(p & Hp & _ & ->)|[_ ->]]] & Hr & Hc); [|by exists p|done].
    apply bool_decide_eq_true in Hr. by exists p.
  - intros (p & Hp & Hc). destruct (decide (p ∈ ke_read e)).
    + eexists. split; [left; by exists p|]. split; [by apply bool_decide_eq_true|done].
    + eexists. split; [right; left; by exists p|done].
Qed.

Lemma rights_prefixes (perm : Grant -> bool) ns gs :
  existsb (prefix_covers ns) (g_prefix <$> filter (fun g => perm g = true) gs)
  = existsb (fun g => perm g && covers g ns) gs.
Proof.
  induction gs as [|g gs IH]; [done|]. rewrite filter_cons. cbn [existsb].
  case_decide as E; [rewrite E|apply not_true_iff_false in E; rewrite E]; cbn [fmap list_fmap existsb andb orb]; by rewrite IH.
Qed.

(** ** Peers of the configuration file *)
Definition configured (g : Galaxy) : list Peer := filter (fun p => p_url p ∈ g_fixed g) (g_peers g).

Lemma filter_ext_in {A} (P Q : A -> Prop) `{!forall x, Decision (P x), !forall x, Decision (Q x)} (l : list A) :
  (forall x, x ∈ l -> P x <-> Q x) -> filter P l = filter Q l.
Proof.
  induction l as [|x l IH]; intros Hpq; [done|]. rewrite !filter_cons, IH by (intros; apply Hpq; by right).
  specialize (Hpq x ltac:(left)). repeat case_decide; done || tauto.
Qed.

Lemma remove_keeps_configured g url :
  is_fixed g url = false -> configured (remove_peer g url).1 = configured g /\ g_fixed (remove_peer g url).1 = g_fixed g.
Proof.
  intros Hf. destruct (remove_peer_shape g url) as (Ep & _ & _ & Ef & _). unfold configured. rewrite Ep, Ef. split; [|done].
  rewrite list_filter_filter. apply filter_ext_in. intros p _. split; [by intros []|]. intros Hp. split; [done|].
  intros E. unfold is_fixed in Hf. apply bool_decide_eq_false in Hf. by rewrite <- E in Hf.
Qed.

Lemma replaced_keeps_configured (fixed : list str) url f ps ps' q :
  (forall p, p_url p = url -> p_url (f p) = url) -> url ∉ fixed -> replace_first url f ps = Some (ps', q) ->
  filter (fun p => p_url p ∈ fixed) ps' = filter (fun p => p_url p ∈ fixed) ps.
Proof.
  intros Hf Hu (l1 & p & l2 & -> & -> & -> & Hp & _)%replace_first_spec.
  rewrite !filter_app, !filter_cons_False; [done|by rewrite Hp|by rewrite (Hf p Hp)].
Qed.

Lemma update_keeps_configured g p :
  is_fixed g (p_url p) = false -> configured (update_peer g p).1 = configured g /\ g_fixed (update_peer g p).1 = g_fixed g.
Proof.
  intros Hf%bool_decide_eq_false. unfold update_peer. cbn [p_url p_key]. destruct (is_empty _); [done|].
  destruct (replace_first _ _ _) as [[ps q]|] eqn:E; [|done]. split; [|done]. unfold configured. cbn [fst g_fixed g_peers with_peers].
  eapply replaced_keeps_configured; [| |exact E]; done.
Qed.

Lemma enable_keeps_configured g url b :
  is_fixed g url = false ->
  configured (Peers.set_enabled g url b).1 = configured g /\ g_fixed (Peers.set_enabled g url b).1 = g_fixed g.
Proof.
  intros Hf%bool_decide_eq_false. unfold Peers.set_enabled.
  destruct (replace_first _ _ _) as [[ps q]|] eqn:E; [|done]. split; [|done].
  unfold configured. cbn [fst g_fixed g_peers with_peers with_health].
  eapply replaced_keeps_configured; [| |exact E]; done.
Qed.

Lemma add_keeps_configured g p own :
  is_fixed g (p_url p) = false -> configured (add_peer g p own).1 = configured g /\ g_fixed (add_peer g p own).1 = g_fixed g.
Proof.
  intros Hf%bool_decide_eq_false. unfold add_peer. cbv zeta.
  repeat match goal with |- context [if ?b then _ else _] => destruct b; [done|] end.
  split; [|done]. unfold configured. cbn [fst g_fixed g_peers with_peers]. rewrite filter_app, filter_cons_False by done.
  by rewrite app_nil_r.
Qed.

Inductive PeerOp :=
  | SavePeer (change : PeerChange) (replacing : bool)
  | DeletePeer (url : str)
  | EnablePeer (url : str) (on : bool).

Definition run_peer {W} `{Network W, FileSystem W} (req : HttpRequest) (op : PeerOp) : Net (W * SharedState) AdminResponse :=
  match op with
  | SavePeer change replacing => save_peer req change replacing
  | DeletePeer url => delete_peer req url
  | EnablePeer url on => set_peer_enabled req url on
  end.

(** What an edit decides: the galaxy from now on, or an answer. *)
Definition peer_edit (s : SharedState) (g : Galaxy) (op : PeerOp) : Galaxy + AdminResponse :=
  match op with
  | SavePeer change replacing =>
      match validated_peer (pc_url change) (pc_key change) (nonempty_list (pc_namespaces change))
              (enabled_now g (pc_url change)) with
      | inr e => inr (mkAdmin BAD_REQUEST (AInvalid (BadPeer e)))
      | inl peer => peer_change g (listen s) peer replacing
      end
  | DeletePeer url =>
      if is_fixed g url
      then inr (say CONFLICT (url ++ lit " is declared in the configuration file, so removing it here would not "
                   ++ lit "last: it would come back at the next restart. Remove it from [galaxy] peers instead."))
      else if negb (remove_peer g url).2 then inr (say NOT_FOUND (lit "No such peer.")) else inl (remove_peer g url).1
  | EnablePeer url on =>
      if is_fixed g url
      then inr (say CONFLICT (url ++ lit " is declared in the configuration file, so disabling it here would "
                   ++ lit "not last: it would come back at the next restart. Set enabled = false "
                   ++ lit "on it in [galaxy] peers instead."))
      else match Peers.set_enabled g url on with (_, None) => inr (say NOT_FOUND (lit "No such peer.")) | (g', Some _) => inl g' end
  end.

Lemma peer_edit_kept s g op g' :
  galaxy_ok g -> peer_edit s g op = inl g' -> galaxy_ok g' /\ configured g' = configured g /\ g_fixed g' = g_fixed g.
Proof.
  intros Hg. destruct op as [change replacing|url|url on]; cbn [peer_edit].
  - destruct (validated_peer _ _ _ _) as [p|e] eqn:Ev; [|done]. apply validated_peer_ok in Ev as ((_ & _ & Hr) & _).
    unfold peer_change. destruct (is_fixed g (p_url p)) eqn:Ef; [done|]. destruct replacing.
    + pose proof (update_keeps_configured g p Ef) as Hk. pose proof (step_ok g _ Hg (step_update g p Hr)) as Hok.
      destruct (update_peer g p) as [g1 [q|]]; [|done]. by intros [= <-].
    + pose proof (add_keeps_configured g p (listen s) Ef) as Hk. pose proof (step_ok g _ Hg (step_add g p (listen s) Hr)) as Hok.
      destruct (add_peer g p (listen s)) as [g1 [q|[m|m]]]; [|done..]. by intros [= <-].
  - destruct (is_fixed g url) eqn:Ef; [done|]. destruct (negb _); [done|]. intros [= <-].
    split; [by apply (step_ok g _ Hg), step_remove|by apply remove_keeps_configured].
  - destruct (is_fixed g url) eqn:Ef; [done|].
    pose proof (enable_keeps_configured g url on Ef) as Hk. pose proof (step_ok g _ Hg (step_enable g url on)) as Hok.
    destruct (Peers.set_enabled g url on) as [g1 [q|]]; [|done]. by intros [= <-].
Qed.

Section PeerFiles.
Context {W : Type} `{Network W} `{FileSystem W} `{!LawfulFiles W}.

Lemma saved_peers_outcome req key g g' path w s :
  require_admin s req = inl key -> galaxy s = Some g -> galaxy_peers_file s = Some path -> tmp_path path <> path ->
  let r := saved_peers req g' (w, s) in
  galaxy r.1.2 = Some g'
  /\ file r.1.1 path = if bool_decide (a_code r.2 = OK) then Some (peers_to_toml (editable_peers g')) else file w path.
Proof.
  intros Ha Hg Hp Ht. cbv zeta. unfold saved_peers, save_peers, modify, get_state, act, mbind, Net_bind. cbv zeta.
  cbn [fst snd]. unfold peers_file. cbn [galaxy with_galaxy galaxy_peers_file]. rewrite Hp.
  set (s1 := with_galaxy s (Some g')). set (text := peers_to_toml (editable_peers g')).
  pose proof (replace_file_law path text w s1 Ht) as Hl.
  pose proof (proj1 (stays_replace_file (fun s' => s' = s1) path text w s1 eq_refl)) as Hs.
  destruct (replace_file path text (w, s1)) as [[w' s'] [e|]]; cbn [fst snd mret Net_ret] in *; subst s'.
  - split; [done|]. rewrite bool_decide_eq_false_2 by done. exact Hl.
  - unfold list_peers, get_state, act, mbind, Net_bind. cbv zeta. cbn [fst snd mret Net_ret].
    change (require_admin s1 req) with (require_admin s req). rewrite Ha. cbn [galaxy s1 with_galaxy].
    split; [done|]. rewrite bool_decide_eq_true_2 by done. exact Hl.
Qed.

Lemma run_peer_edit req op key g path w s :
  require_admin s req = inl key -> galaxy s = Some g -> galaxy_peers_file s = Some path ->
  run_peer req op (w, s)
  = match peer_edit s g op with inr resp => ((w, s), resp) | inl g' => saved_peers req g' (w, s) end.
Proof.
  intros Ha Hg Hp.
  destruct op as [change replacing|url|url on]; unfold run_peer, save_peer, delete_peer, set_peer_enabled, get_state, act, mbind,
    Net_bind; cbv zeta; cbn [fst snd]; rewrite Ha; unfold peers_file; rewrite Hg, Hp; cbn [peer_edit].
  - destruct (validated_peer _ _ _ _); [|done]. by destruct (peer_change _ _ _ _).
  - destruct (is_fixed g url); [done|]. by destruct (negb _).
  - destruct (is_fixed g url); [done|]. by destruct (Peers.set_enabled g url on) as [g1 [q|]].
Qed.

(** Without an admin key, a galaxy and a file for it, nothing happens. *)
Lemma run_peer_refused req op w s :
  match require_admin s req, peers_file s with inl _, inl _ => False | _, _ => True end ->
  (run_peer req op (w, s)).1 = (w, s) /\ a_code (run_peer req op (w, s)).2 <> OK.
Proof.
  intros Hr. unfold run_peer, save_peer, delete_peer, set_peer_enabled, get_state, act, mbind, Net_bind.
  assert (Hadm : forall resp, require_admin s req = inr resp -> a_code resp <> OK).
  { intros resp. unfold require_admin, admin_header. destruct (header _ _) as [[k|]|]; [destruct (is_admin _ _)| |]; naive_solver. }
  assert (Hpf : forall resp, peers_file s = inr resp -> a_code resp <> OK).
  { intros resp. unfold peers_file. repeat case_match; naive_solver. }
  destruct op; cbv zeta; cbn [fst snd]; destruct (require_admin s req); try (split; [done|by apply Hadm]);
    destruct (peers_file s); try done; (split; [done|by apply Hpf]).
Qed.
End PeerFiles.

(** ** Properties *)

(** C11: the interface cannot be locked.  Starting with an admin key, however the
    saving, revoking and replacing of keys interleave, with every change decided
    on a table that others may have replaced since, and whatever the disk and
    the peers do, some key is still an admin key; and a handler run on its own
    is such a decision followed by its commit. *)
Theorem never_locked_out {W} `{Network W, Serde, FileSystem W} clock s st :
  (exists key, is_admin (acl s) key = true) ->
  rtc (key_step clock) (s, []) st ->
  (exists key, is_admin (acl st.1) key = true)
  /\ forall req op w, rtc (key_step clock) st ((run_key clock req op (w, st.1)).1.2, st.2).
Proof.
  intros Ha%has_admin_spec Hrun. split.
  - assert (Hk : never_locked (s, [])) by by split.
    apply has_admin_spec. enough (Hst : never_locked st) by apply Hst.
    revert Hk. induction Hrun as [|x y z Hxy _ IH]; [done|]. intros Hk. apply IH. by eapply key_step_kept.
  - intros req op w. rewrite run_key_decided. destruct st as [s1 l]. cbn [fst snd].
    destruct (decide_key s1 req op) as [d|resp] eqn:Ed; [|apply rtc_refl].
    eapply rtc_l; [by apply (step_decide clock s1 req op d l)|]. apply rtc_once.
    pose proof (step_commit clock s1 d l [] w) as Hc. by rewrite app_nil_r in Hc.
Qed.

(** The file is written before the table is changed: after any key change,
    successful or not, the ACL file holds the text of the table in use, and a
    change that is not answered with success leaves the table as it was.  A
    restart therefore grants what was granted. *)
Theorem acl_file_current {W} `{Network W, Serde, FileSystem W, !LawfulFiles W} clock req op path w s :
  acl_file s = Some path -> tmp_path path <> path -> file w path = Some (Acl.to_toml (acl s)) ->
  let r := run_key clock req op (w, s) in
  file r.1.1 path = Some (Acl.to_toml (acl r.1.2)) /\ acl_file r.1.2 = Some path
  /\ (a_code r.2 <> OK -> acl r.1.2 = acl s).
Proof.
  intros Hp Ht Hf. cbv zeta. rewrite run_key_decided. destruct (decide_key s req op) as [d|resp]; [|done].
  split_and!; [by apply commit_file| |].
  - destruct (commit_outcome clock d w s) as [(_ & _ & ->)|[_ ->]]; done.
  - intros Hc. destruct (commit_outcome clock d w s) as [(E & _)|[_ ->]]; [by rewrite E in Hc|done].
Qed.

(** C38: a revocation is lost to a change made at the same time.  When a key is
    revoked and another saved, and both are decided before either is made, both
    are answered with success, and the revoked key is in the table afterwards
    with all its grants. *)
Theorem concurrent_revocation_lost {W} `{Network W, Serde, FileSystem W} clock s req1 req2 key e d1 d2 w1 w2 :
  decide_key s req1 (DeleteKey key) = inl d1 -> decide_key s req2 (SaveKey e) = inl d2 -> ke_key e <> key ->
  let r1 := commit clock d1 (w1, s) in
  let r2 := commit clock d2 (w2, r1.1.2) in
  a_code r1.2 = OK -> a_code r2.2 = OK ->
  acl r1.1.2 !! key = None /\ acl r2.1.2 !! key = acl s !! key /\ is_Some (acl r2.1.2 !! key).
Proof.
  intros Hd1 Hd2 Hne r1 r2 Hk1 Hk2.
  destruct (commit_outcome clock d1 w1 s) as [(_ & E1 & _)|[Hn _]]; [|done].
  destruct (commit_outcome clock d2 w2 r1.1.2) as [(_ & E2 & _)|[Hn _]]; [|done].
  fold r1 in E1. fold r2 in E2. rewrite E1, E2. cbn [decide_key] in Hd1, Hd2.
  unfold delete_key_plan in Hd1. destruct (require_admin s req1); [|done].
  destruct (contains (acl s) key) eqn:Ek; [|done]. cbn [negb] in Hd1.
  destruct (admin_count _ =? 0); [done|]. injection Hd1 as <-.
  unfold save_key_plan in Hd2. destruct (require_admin s req2); [|done]. destruct (entry_validate e); [done|].
  destruct (_ && _); [done|]. injection Hd2 as <-. cbn [dc_acl].
  unfold acl_remove, acl_set. cbn [fst]. rewrite lookup_delete_eq, lookup_insert_ne by done.
  split_and!; [done..|]. unfold contains in Ek. by apply bool_decide_eq_true in Ek.
Qed.

(** A key passed on to a peer grants there exactly what it grants here: the
    entry the interface shows and gossip sends, turned back into grants, allows
    the same reads, writes and administration, and shows as the same entry. *)
Theorem key_travels key gs ns :
  let e := from_grants key gs in
  let there : Acl := {[key := to_grants e]} in
  let here : Acl := {[key := gs]} in
  can_read there key ns = can_read here key ns /\ can_write there key ns = can_write here key ns
  /\ is_admin there key = is_admin here key
  /\ ke_read (from_grants key (to_grants e)) = ke_read e
  /\ (forall p, p ∈ ke_write (from_grants key (to_grants e)) <-> p ∈ ke_write e)
  /\ ke_admin (from_grants key (to_grants e)) = ke_admin e.
Proof.
  intros e there here. unfold can_read, can_write, is_admin, allows, there, here.
  rewrite !lookup_singleton_eq, rights_read, rights_write, to_grants_admin. unfold e.
  rewrite (from_grants_spec key gs). cbn [ke_read ke_write ke_admin]. rewrite !rights_prefixes. split_and!; try done;
    rewrite from_grants_spec; cbn [ke_read ke_write ke_admin].
  - unfold to_grants. cbn [ke_read ke_write ke_admin]. rewrite !filter_app, !fmap_app.
    set (l := g_prefix <$> filter (fun g => g_read g = true) gs). set (m := g_prefix <$> filter (fun g => g_write g = true) gs).
    replace (filter (fun g => g_read g = true) ((fun prefix => mkGrant prefix false true false) <$> filter (fun p => p ∉ l) m)) with
      (@nil Grant) by (symmetry; apply list_filter_none; by intros g (p & -> & _)%list_elem_of_fmap).
    replace (filter (fun g => g_read g = true) (if existsb g_admin gs then [Acl.admin] else [])) with (@nil Grant)
      by by destruct (existsb g_admin gs).
    rewrite !app_nil_r. induction l as [|p l IH]; [done|]. rewrite fmap_cons, filter_cons_True by done.
    cbn [fmap list_fmap g_prefix]. f_equal. exact IH.
  - intros p. rewrite list_elem_of_fmap. setoid_rewrite list_elem_of_filter. setoid_rewrite elem_of_to_grants.
    cbn [ke_read ke_write ke_admin]. split.
    + intros (g & -> & Hw & [(q & Hq & ->)|[(q & Hq & _ & ->)|[_ ->]]]); [|done..]. by apply bool_decide_eq_true in Hw.
    + intros Hp. destruct (decide (p ∈ g_prefix <$> filter (fun g => g_read g = true) gs)) as [Hr|Hr].
      * exists (mkGrant p true true false). split_and!; [done..|]. left. exists p. by rewrite bool_decide_eq_true_2.
      * exists (mkGrant p false true false). split_and!; [done..|]. right. left. by exists p.
  - apply to_grants_admin.
Qed.

(** The interface changes only its own peers.  Whatever is saved, removed,
    disabled or enabled, by whom and with what outcome, the peers of the
    configuration file stay as they are, the galaxy stays well formed, and an
    edit answered with success is in the peers file. *)
Theorem configured_peers_kept {W} `{Network W, FileSystem W, !LawfulFiles W} req op path g w s :
  galaxy s = Some g -> galaxy_ok g -> galaxy_peers_file s = Some path -> tmp_path path <> path ->
  let r := run_peer req op (w, s) in
  exists g', galaxy r.1.2 = Some g' /\ galaxy_ok g' /\ g_fixed g' = g_fixed g /\ configured g' = configured g
    /\ (a_code r.2 = OK -> file r.1.1 path = Some (peers_to_toml (editable_peers g'))).
Proof.
  intros Hg Hok Hp Ht r. unfold r. destruct (require_admin s req) as [key|resp] eqn:Ea.
  - rewrite (run_peer_edit req op key g path w s Ea Hg Hp). destruct (peer_edit s g op) as [g'|resp] eqn:Ee.
    + destruct (saved_peers_outcome req key g g' path w s Ea Hg Hp Ht) as [E1 E2].
      destruct (peer_edit_kept s g op g' Hok Ee) as (K1 & K2 & K3). exists g'. split_and!; try done.
      intros Hc. by rewrite E2, bool_decide_eq_true_2.
    + exists g. split_and!; try done. intros Hc. exfalso. revert Ee Hc. clear. intros Ee Hc.
      destruct op as [change replacing|url|url on]; cbn [peer_edit] in Ee.
      * destruct (validated_peer _ _ _ _); [|by injection Ee as <-]. unfold peer_change in Ee.
        destruct (is_fixed _ _); [by injection Ee as <-|].
        destruct replacing; [destruct (update_peer _ _) as [? []]|destruct (add_peer _ _ _) as [? [|[]]]]; by simplify_eq.
      * repeat case_match; by simplify_eq.
      * repeat case_match; by simplify_eq.
  - assert (Hr : match require_admin s req, peers_file s with inl _, inl _ => False | _, _ => True end) by by rewrite Ea.
    destruct (run_peer_refused req op w s Hr) as [E1 E2]. exists g. rewrite E1. by split_and!.
Qed.

(** ** A server to try it on

    Its world is its files; the peers are down. *)
Abbreviation Drive := (gmap str str).
Definition drive_net : Network Drive :=
  {| exchange rq w := (w, inr (lit "down")); have_client _ := true; response_json _ := None |}.
Definition drive_files : FileSystem Drive :=
  {| create_dir_all d w := (w, None);
     fs_write p t w := (<[p := t]> w, None);
     fs_rename a b w := match w !! a with Some t => (<[b := t]> (delete a w), None) | None => (w, Some (lit "no such file")) end |}.
Definition drive_lawful : @LawfulFiles Drive drive_net drive_files.
Proof.
  refine (@Build_LawfulFiles Drive drive_net drive_files (fun w q => w !! q) _ _ _ _); cbn; try done.
  - intros p t w. split; [intros q Hq; by rewrite lookup_insert_ne|intros _; apply lookup_insert_eq].
  - intros a b w. destruct (w !! a) as [t|] eqn:E; cbn; [by rewrite lookup_insert_eq|done].
Defined.

Definition KEYS_FILE : str := lit "/etc/keys.toml".
Definition root_grants : list Grant := [all_data; Acl.admin].
Definition demo_acl : Acl := {[lit "root" := root_grants; lit "old" := [all_data]]}.
Definition demo_server : SharedState :=
  mkShared demo_db true demo_acl rj_default (Some demo_galaxy) ∅ true false demo_tags (lit "0.0.0.0:9999")
    (Some KEYS_FILE) (Some (lit "/etc/tiers.toml")) (Some (lit "/etc/tags.toml")) (Some (lit "/etc/peers.toml")) default_stix.
Definition demo_drive : Drive := {[KEYS_FILE := Acl.to_toml demo_acl]}.
Definition root_request : HttpRequest := mkHttp [(lit "authorization", Some (lit "root"))] (lit "/_management/api/keys") None.
Definition new_entry : KeyEntry := mkKeyEntry (lit "new") false [lit "feeds"] [lit "feeds"].

Lemma never_locked_out_witness :
  let N := drive_net in let F := drive_files in let S := demo_serde in
  exists key, is_admin (acl (run_key (fun _ : Drive => demo_time) root_request (DeleteKey (lit "old")) (demo_drive, demo_server)).1.2)
    key = true.
Proof.
  intros N F S.
  destruct (@never_locked_out Drive N S F (fun _ => demo_time) demo_server (demo_server, [])
    (ex_intro _ (lit "root") eq_refl) (rtc_refl _ _)) as [_ Hr].
  destruct (@never_locked_out Drive N S F (fun _ => demo_time) demo_server _ (ex_intro _ (lit "root") eq_refl)
    (Hr root_request (DeleteKey (lit "old")) demo_drive)) as [Hk _]. exact Hk.
Defined.

Lemma acl_file_current_witness :
  let N := drive_net in let F := drive_files in let L := drive_lawful in let S := demo_serde in
  let r := run_key (fun _ : Drive => demo_time) root_request (SaveKey new_entry) (demo_drive, demo_server) in
  a_code r.2 = OK /\ file r.1.1 KEYS_FILE = Some (Acl.to_toml (acl r.1.2)).
Proof.
  intros N F L S r. split; [by vm_compute|].
  refine (proj1 (@acl_file_current Drive N S F L (fun _ => demo_time) root_request (SaveKey new_entry) KEYS_FILE demo_drive
    demo_server eq_refl _ _)); [by vm_compute|apply lookup_singleton_eq].
Defined.

Definition demo_decided (op : KeyOp) : Decided :=
  match decide_key demo_server root_request op with inl d => d | inr _ => mkDecided op root_request ∅ [] end.

Lemma concurrent_revocation_lost_witness :
  let N := drive_net in let F := drive_files in let S := demo_serde in
  let r1 := commit (fun _ : Drive => demo_time) (demo_decided (DeleteKey (lit "old"))) (demo_drive, demo_server) in
  let r2 := commit (fun _ : Drive => demo_time) (demo_decided (SaveKey new_entry)) (demo_drive, r1.1.2) in
  a_code r1.2 = OK /\ is_Some (acl r2.1.2 !! lit "old").
Proof.
  intros N F S r1 r2. split; [by vm_compute|].
  refine (proj2 (proj2 (@concurrent_revocation_lost Drive N S F (fun _ => demo_time) demo_server root_request root_request
    (lit "old") new_entry _ _ demo_drive demo_drive _ _ _ _ _))); by vm_compute.
Defined.

Lemma configured_peers_kept_witness :
  let N := drive_net in let F := drive_files in let L := drive_lawful in
  exists g', galaxy (run_peer root_request (DeletePeer (lit "http://c:9999/")) (demo_drive, demo_server)).1.2 = Some g'
    /\ configured g' = configured demo_galaxy.
Proof.
  intros N F L.
  destruct (@configured_peers_kept Drive N F L root_request (DeletePeer (lit "http://c:9999/")) (lit "/etc/peers.toml")
    demo_galaxy demo_drive demo_server eq_refl demo_galaxy_ok eq_refl ltac:(by vm_compute)) as (g' & E & _ & _ & Ec & _).
  by exists g'.
Defined.

(** The guard against locking the caller out looks for its key in the new
    list and not for what the key may do there.  A list that keeps the caller
    without its admin grant is accepted, and the caller's next request to the
    interface is refused. *)
Theorem replace_keys_locks_caller_out :
  let N := drive_net in let F := drive_files in let S := demo_serde in
  let wanted := [mkKeyEntry (lit "root") false [[]] [[]]; mkKeyEntry (lit "other") true [] []] in
  let r := replace_keys (fun _ : Drive => demo_time) root_request wanted (demo_drive, demo_server) in
  a_code r.2 = OK /\ a_code (list_keys root_request r.1).2 = FORBIDDEN.
Proof. by vm_compute. Qed.

(** The list of rejections can be empty although there are some the key may
    read: the newest five hundred are taken before those it may not read are
    dropped, and as many as a thousand are kept. *)
Theorem rejections_page_short :
  let N := drive_net in
  let hidden := replicate 500 (mkRejection 2 (lit "other") (lit "x") (lit "why") SourceWrite) in
  let seen := mkRejection 1 (lit "feeds") (lit "y") (lit "why") SourceWrite in
  let s := with_rejections (with_acl demo_server {[lit "root" := [mkGrant (lit "feeds") true false false; Acl.admin]]})
             (mkRejections (seen :: hidden) 1000) in
  can_read (acl s) (lit "root") (rj_namespace seen) = true
  /\ (admin_rejections root_request None None (∅ : Drive, s)).2 = mkAdmin OK (ARejections [] 501 1000).
Proof. by vm_compute. Qed.

(** Three strings and a number are what a tier change is made of. *)
Definition tier_serde : Serde :=
  {| from_slice _ := None; parse_error _ := [];
     to_vec j := match j with
                 | JObj [(_, JStr ns); (_, JStr t); (_, JInt n)] => Some (ns ++ [SLASH] ++ t ++ [SLASH] ++ dec (Z.to_N n))
                 | _ => Some []
                 end |}.
Definition quiet_files {W} : FileSystem W :=
  {| create_dir_all _ w := (w, None); fs_write _ _ w := (w, None); fs_rename _ _ w := (w, None) |}.
Definition tiered_server : SharedState := with_db demo_server (set_policy demo_db feeds (mkTierEntry (Some Warm) None)).

(** A tier that is unset here is pinned on the peers.  Clearing an override
    goes out as the values it now resolves to, which a peer takes as an override
    of its own; and the periodic offer, which lists overrides, says nothing of
    it afterwards. *)
Theorem unset_tier_pins_peers :
  let N := accepting in let F := quiet_files in let S := tier_serde in let O := some_order in
  let run s c := admin_set_tier root_request c ([] : list Request, s) in
  let unset := run tiered_server (mkTierChange feeds (Some (lit "default")) None) in
  let taken := run demo_server (mkTierChange feeds (Some (lit "hot")) (Some (JInt 3600))) in
  let offered := (gossip_round ([] : list Request, unset.1.2)).1.1 in
  (exists effect, unset.2 = mkAdmin OK (ATier feeds Hot 3600 false false effect))
  /\ (rq_body <$> unset.1.1 = [Some (lit "feeds/hot/3600"); Some (lit "feeds/hot/3600")])
  /\ (exists effect, taken.2 = mkAdmin OK (ATier feeds Hot 3600 true true effect))
  /\ offered <> [] /\ Forall (fun rq => rq_url rq ∈ [peer_a ++ lit "/_management/api/keys"; peer_b ++ lit "/_management/api/keys"]) offered.
Proof.
  cbv zeta. split_and!.
  - eexists. vm_compute. reflexivity.
  - by vm_compute.
  - eexists. vm_compute. reflexivity.
  - by vm_compute.
  - apply (bool_decide_unpack _). by vm_compute.
Qed.
