(* ===== verification/AdminReach.v ===== *)
(** * What an admin key can change

    The data a request to the management interface can reach: the namespaces
    its key may write, and only with an admin grant beside. *)

From stdpp Require Import base numbers list strings gmap sorting pretty.
From S2P Require Import Prelude Text Activity Latest Attribute AttributeFacts Convergence Paths Acl Rejections Tags Tier Namespace Disk Database Contents Refine Consensus Eviction Service Accounted System Listing Peers Forward ForwardFacts CatchUp CatchUpFacts Frame Handlers HandlerFacts Grants Admin AdminData AdminFacts.

(** ** Retagging, in the contents *)
Lemma retag_ok ns v tgs now : ns_ok ns -> ns_ok (retag ns v tgs now).1.
Proof.
  intros [Hwf Hl]. split; [by apply retag_wf|]. unfold retag. destruct (values ns !! v) as [a|] eqn:E; [|done].
  destruct (is_expired a now); [done|]. cbn [fst values]. intros u b [[<- <-]|[_ Hb]]%lookup_insert_Some; [|by eapply Hl].
  exact (Hl v a E).
Qed.

Lemma set_tags_frame digest32 disk now db abs path v tgs `{HashOrder} :
  implements digest32 disk db abs ->
  let r := set_tags_in digest32 disk now db path v tgs in
  exists abs', implements digest32 disk r.1 abs' /\ forall n, n <> path -> abs' !! n = abs !! n.
Proof.
  intros Himp r. unfold r, set_tags_in.
  destruct (namespace_spec digest32 disk now db abs path Himp) as (H1 & _ & _ & _ & Hr).
  destruct (namespace digest32 disk now db path) as [db1 [ns|]]; cbn [fst snd] in *; [|by exists abs].
  destruct Hr as [Hn _].
  assert (Hok : ns_ok (retag ns v tgs now).1) by (apply retag_ok; by eapply inv_ns; [apply H1|exact Hn]).
  pose proof (put_ns_spec digest32 disk db1 abs path ns _ H1 Hn Hok) as H2.
  eexists. split; [|intros n Hne; by rewrite lookup_insert_ne].
  destruct (retag ns v tgs now).2; [|exact H2]. eapply same_data_implements; [apply mark_dirty_same|exact H2].
Qed.

Section Reach.
Context {W : Type} `{Network W} `{Serde} `{Chrono} `{HashOrder} `{FileSystem W}.
Context (digest32 : str -> N) (digest64 : str -> N) (disk : Disk) (clock : W -> Z).
Context (parse_merge : bytes -> Merge + str) (lossy : bytes -> str).
Context (s0 : SharedState) (abs0 : Abs) (req : HttpRequest).
Context (Hshadow : is_u64 (shadow_ttl (policy (db s0)))) (Hclock : forall w, plausible (clock w)).
Context (Himp0 : implements digest32 disk (db s0) abs0).

(** Whether the request may change [ns] through the interface. *)
Definition may_administer (s : SharedState) (rq : HttpRequest) (ns : str) : bool :=
  match header (hdrs rq) (lit "Authorization") with
  | Some (Some key) => is_admin (acl s) key && can_write (acl s) key ns
  | _ => false
  end.

Abbreviation conf := (confined digest32 disk s0 abs0 (may_administer s0 req)).

Lemma admin_reaches key ns :
  require_admin s0 req = inl key -> require_write s0 key ns = None -> may_administer s0 req ns = true.
Proof.
  unfold require_admin, admin_header, require_write, may_administer. destruct (header _ _) as [[k|]|]; [|done..].
  destruct (is_admin (acl s0) k); [|done]. intros [= <-]. by destruct (can_write _ _ _).
Qed.

Lemma admin_from_start {A} (k : SharedState -> Net (W * SharedState) A) w :
  stays conf (k s0) any -> conf ((get_state ≫= k) (w, s0)).1.2.
Proof.
  intros Hk. refine (proj1 (Hk w s0 _)). split_and!; [|done..]. exists abs0. split; [done|]. by intros n _ _.
Qed.

Lemma stays_reading {A} (f : Z -> Database -> Database * A) path :
  (forall now d, (f now d).1 = (namespace digest32 disk now d path).1) -> stays conf (on_db clock f) any.
Proof. intros Hf. apply stays_unnoticed; [done..|]. intros now d. rewrite Hf. apply unnoticed_namespace. Qed.

Lemma stays_push_value I g ns v p hops : stays I (push_value g lossy ns v p hops) any.
Proof.
  unfold push_value. cbv zeta. apply stays_fold. intros o q _. eapply stays_bind; [apply stays_send|].
  intros x _. by apply stays_ret.
Qed.

Lemma stays_forward_read I g ns v path hops origin : stays I (forward_read digest64 g ns v path hops origin) any.
Proof. unfold forward_read. repeat case_match; (by apply stays_ret) || apply stays_send. Qed.

Lemma stays_retagged_elsewhere I ns v tgs :
  stays I (retagged_elsewhere digest64 clock parse_merge ns v tgs) any.
Proof.
  unfold retagged_elsewhere. apply (stays_bind _ _ _ any); [by intros w s Hs|]. intros s _.
  destruct (galaxy s) as [g|]; [|by apply stays_ret]. eapply stays_bind; [apply stays_forward_read|].
  intros [answer|e] _; [|by apply stays_ret]. destruct (negb _); [by apply stays_ret|].
  destruct (parse_merge _); [|by apply stays_ret]. by intros w x Hx.
Qed.

Lemma stays_retagged_here ns v tgs :
  may_administer s0 req ns = true -> stays conf (retagged_here digest32 disk clock ns v tgs) any.
Proof.
  intros Hns. unfold retagged_here. eapply stays_bind.
  - apply stays_on_db; [done..|]. intros now d abs Hnow Himp _.
    destruct (set_tags_frame digest32 disk now d abs ns v tgs Himp) as (abs' & R1 & R3).
    exists abs'. split_and!; [done| |apply setup_set_tags]. apply (untouched_one _ ns); [by right|]. intros n Hn _. by apply R3.
  - intros ok _. destruct (negb ok); [by apply stays_ret|]. eapply stays_bind; [by apply (stays_reading _ ns)|].
    intros p _. by apply stays_ret.
Qed.

Lemma create_reach ns w : conf (admin_create_namespace digest32 disk clock req ns (w, s0)).1.2.
Proof.
  apply admin_from_start. destruct (require_admin s0 req) as [key|] eqn:Ea; [|by apply stays_ret].
  destruct (clean_namespace ns) as [c|]; [|by apply stays_ret].
  destruct (require_write s0 key c) eqn:Ew; [by apply stays_ret|].
  eapply stays_bind; [|intros r _; by apply stays_ret]. apply stays_on_db; [done..|]. intros now d abs Hnow Himp _.
  destruct (create_spec digest32 disk now d abs c Himp) as (R1 & _).
  eexists. split; [exact R1|]. split; [|apply setup_create]. apply (untouched_one _ c); [right; by eapply admin_reaches|].
  intros n Hn _. by rewrite lookup_insert_ne.
Qed.

Lemma add_reach b w : opt_u64 (nv_ttl b) -> conf (add_values digest32 disk clock req b (w, s0)).1.2.
Proof.
  intros Ht. apply admin_from_start. destruct (require_admin s0 req) as [key|] eqn:Ea; [|by apply stays_ret].
  destruct (clean_namespace (nv_namespace b)) as [c|]; [|by apply stays_ret].
  destruct (require_write s0 key c) eqn:Ew; [by apply stays_ret|].
  destruct (parse_when (nv_timestamp b)) as [t|] eqn:Et; [|by apply stays_ret].
  destruct (is_empty _); [by apply stays_ret|]. eapply stays_bind; [|intros r _; by apply stays_ret].
  apply stays_fold. intros r v _. unfold add_value. eapply stays_bind.
  - apply stays_client_write; [done..|by eapply admin_reaches| |done]. intros now. by eapply parse_when_plausible.
  - intros [d|e] _; [by apply stays_ret|]. eapply stays_bind; [apply stays_reject|]. intros. by apply stays_ret.
Qed.

Lemma tag_reach ns v tgs w :
  conf (admin_set_tags digest32 digest64 disk clock parse_merge lossy req ns v tgs (w, s0)).1.2.
Proof.
  apply admin_from_start. destruct (require_admin s0 req) as [key|] eqn:Ea; [|by apply stays_ret].
  destruct (clean_namespace ns) as [c|]; [|by apply stays_ret].
  destruct (require_write s0 key c) eqn:Ew; [by apply stays_ret|].
  apply (stays_bind _ _ _ any).
  - destruct (holds _ _); [apply stays_retagged_here; by eapply admin_reaches|apply stays_retagged_elsewhere].
  - intros [p|resp] _; [|by apply stays_ret]. apply (stays_bind _ _ _ any).
    + unfold spread_tags. apply (stays_bind _ _ _ any); [by intros w' s Hs|]. intros s _.
      destruct (galaxy s); [|by apply stays_ret]. eapply stays_bind; [apply stays_push_value|]. intros. by apply stays_ret.
    + intros m _. eapply stays_bind; [by apply (stays_reading _ ALL_NAMESPACE)|]. intros cons _.
      eapply stays_bind; [by apply (stays_reading _ c)|]. intros vw _. by apply stays_ret.
Qed.
End Reach.

(** ** Properties *)
Inductive AdminChange :=
  | CreateNamespace (ns : str)
  | AddValues (b : NewValues)
  | SetTags (ns v tgs : str).

Definition admin_change_ok (c : AdminChange) : Prop := match c with AddValues b => opt_u64 (nv_ttl b) | _ => True end.

Definition run_admin_change {W} `{Network W, Serde, Chrono, HashOrder} digest32 digest64 disk clock parse_merge lossy
    (c : AdminChange) (req : HttpRequest) : Net (W * SharedState) AdminResponse :=
  match c with
  | CreateNamespace ns => admin_create_namespace digest32 disk clock req ns
  | AddValues b => add_values digest32 disk clock req b
  | SetTags ns v tgs => admin_set_tags digest32 digest64 disk clock parse_merge lossy req ns v tgs
  end.

(** Reaching the interface is not being allowed to change what is in it.
    Whatever a request to the management interface creates, adds or retags, on
    a mirror or on a router, every ordinary namespace is as it was unless the
    key of the request is an admin key that may also write that namespace. *)
Theorem admin_confined {W} `{Network W, Serde, Chrono, HashOrder} digest32 digest64 disk clock parse_merge lossy c req s abs w :
  implements digest32 disk (db s) abs -> is_u64 (shadow_ttl (policy (db s))) -> (forall w, plausible (clock w)) ->
  admin_change_ok c ->
  exists abs', implements digest32 disk
      (db (run_admin_change digest32 digest64 disk clock parse_merge lossy c req (w, s)).1.2) abs'
    /\ forall n, is_internal n = false -> may_administer s req n = false -> abs' !! n = abs !! n.
Proof.
  intros Himp Hsh Hclk Hok.
  assert (Hc : confined digest32 disk s abs (may_administer s req)
    (run_admin_change digest32 digest64 disk clock parse_merge lossy c req (w, s)).1.2).
  { destruct c; [by apply create_reach|by apply add_reach|by apply tag_reach]. }
  exact (proj1 Hc).
Qed.

Lemma admin_confined_witness :
  let C := chrono_10000y in let O := some_order in let N := drive_net in let S := demo_serde in
  exists abs', implements (fun _ => 7%N) ∅
      (db (add_values (fun _ => 7%N) ∅ (fun _ : Drive => demo_time) root_request
             (mkNewValues (lit " feeds //misp ") [lit "1.2.3.4 "; []] None None []) (∅, demo_server)).1.2) abs'
    /\ may_administer (with_acl demo_server ∅) root_request (lit "feeds") = false.
Proof.
  intros C O N S.
  destruct (@admin_confined Drive N S C O (fun _ => 7%N) demo_digest ∅ (fun _ => demo_time) (fun _ => inr []) (fun b => b)
    (AddValues (mkNewValues (lit " feeds //misp ") [lit "1.2.3.4 "; []] None None [])) root_request demo_server ∅ ∅)
    as (abs' & Himp & _).
  - apply empty_implements.
  - done.
  - intros _. apply plausible_whole.
  - exact I.
  - exists abs'. split; [exact Himp|]. by vm_compute.
Defined.
