(* ===== verification/Info.v ===== *)
(** * What the server says of itself

    Models the handlers of [src/src/handlers.rs] and [src/src/admin/mod.rs] that
    describe the server rather than its data: the help, the version, the OpenAPI
    document with its version line replaced, the interface's pages, the session
    check, the configuration view ([server_info] of [src/src/main.rs], with the
    certificate's expiry of [src/src/tls.rs]), the view of the galaxy with each
    peer's answer below it, and a fresh key.

    The pages are files compiled into the binary; they are a parameter, as are
    the certificate on disk and the random numbers. *)

From stdpp Require Import base numbers list strings gmap sorting pretty.
From S2P Require Import Prelude Text Activity Latest Attribute AttributeFacts Convergence Paths Acl Rejections Tags Tier Namespace Disk Database Contents Refine Consensus Eviction Service Accounted System Listing DnsName Peers Config Forward CatchUp Handlers Admin.

(** ** Pages *)
Record Assets := mkAssets {
  as_version : str;    (** [CARGO_PKG_VERSION] *)
  as_openapi : bytes;  (** [doc/openapi.yaml] *)
  as_ui : bytes;
  as_logo : bytes;
  as_echarts : bytes;
}.

Definition page (kind : str) (cache : option str) (body : bytes) : HttpResponse :=
  mkHttpResponse OK ((CONTENT_TYPE, kind) :: match cache with Some c => [(lit "Cache-Control", c)] | None => [] end)
    (BBytes body).

Definition TAB : N := 9.
Definition HELP_LINES : list str :=
  [lit "/w: write (GET)"; lit "/wb: write in bulk mode (POST)";
   lit "/vwb: check a bulk write without recording it (POST)";
   lit "/_api/merge: fold a peer's copy of values into ours (POST)";
   lit "/_api/namespaces: which namespaces exist here (GET)";
   lit "/_api/latest: the values written most recently, per key (GET)";
   lit "/r: read (GET)"; lit "/rs: read with statistics (GET)"; lit "/rb: read in bulk mode (POST)";
   lit "/rbs: read with statistics in bulk mode (POST)"; lit "/d: delete (GET)";
   lit "/stix: export a namespace as a STIX 2.1 bundle (GET)";
   lit "/_api/stix: export one or more namespaces as STIX 2.1 (POST)";
   lit "/_api/tier: set a namespace's tier and idle window (POST)"; lit "/c: configure (GET)";
   lit "/i: info (GET)"; lit "/health: liveness and readiness, no key required (GET)";
   lit "/_api/openapi.yaml: this API as an OpenAPI 3 document (GET)"].
Definition help (a : Assets) : HttpResponse :=
  page (lit "text/plain; charset=utf-8") None
    (lit "SightingDB " ++ as_version a ++ lit ", written by Sebastien Tricaud" ++ [LF] ++ lit "REST Endpoints:" ++ [LF]
     ++ mjoin ((fun l => [TAB] ++ l ++ [LF]) <$> HELP_LINES)).

(** [info] of the API: [InfoData] *)
Definition api_info (a : Assets) : HttpResponse :=
  answer_json OK (BFields [(lit "implementation", lit "SightingDB"); (lit "version", as_version a);
    (lit "vendor", lit "github.com/stricaud/sightingdb"); (lit "author", lit "Sebastien Tricaud")]).

(** [str::find] *)
Fixpoint str_find (p s : str) : option nat :=
  if starts_with p s then Some 0 else match s with [] => None | _ :: r => S <$> str_find p r end.

Definition QUOTE : N := 34.
(** [OPENAPI]: the document, saying the version of this binary. *)
Definition openapi_text (a : Assets) : bytes :=
  let spec := as_openapi a in
  let stated := [LF] ++ lit "  version: " ++ [QUOTE] ++ as_version a ++ [QUOTE] in
  match str_find ([LF] ++ lit "info:") spec with
  | None => spec
  | Some info =>
      match str_find ([LF] ++ lit "  version: ") (drop info spec) with
      | None => spec
      | Some at_ =>
          let line := info + at_ in
          let end_ := match str_find [LF] (drop (line + 1) spec) with Some k => line + 1 + k | None => length spec end in
          take line spec ++ stated ++ drop end_ spec
      end
  end.
Definition openapi (a : Assets) : HttpResponse :=
  page (lit "application/yaml; charset=utf-8") (Some (lit "public, max-age=86400")) (openapi_text a).

Definition NOT_IMPLEMENTED : Z := 501.
Definition configure_endpoint : HttpResponse :=
  message_answer NOT_IMPLEMENTED (lit "The /c endpoint is not implemented yet.").

Definition index (a : Assets) : HttpResponse := page (lit "text/html; charset=utf-8") (Some (lit "no-cache")) (as_ui a).
Definition logo (a : Assets) : HttpResponse := page (lit "image/png") (Some (lit "public, max-age=86400")) (as_logo a).
Definition echarts (a : Assets) : HttpResponse :=
  page (lit "application/javascript; charset=utf-8") (Some (lit "public, max-age=86400")) (as_echarts a).

(** ** The certificate *)

(** What [openssl] says of a certificate file: whole days and further seconds
    until it ends, as [Asn1Time::diff] gives them, when it can be read. *)
Class Certificates := { time_left : str -> option (Z * Z) }.
Record Expiry := mkExpiry { ex_cert : str; not_after : Z; days_left : Z }.
Definition EXPIRING_SOON_DAYS : Z := 30.
Definition soon (e : Expiry) : bool := bool_decide (days_left e < EXPIRING_SOON_DAYS)%Z.
Definition expiry `{Certificates} (now : Z) (tls : TlsSettings) : option Expiry :=
  (fun d => mkExpiry (tls_cert tls) (timestamp now + (d.1 * 86400 + d.2)) d.1) <$> time_left (tls_cert tls).

(** What the log says at startup: an error or a warning. *)
Inductive Level := LogError | LogWarn.
Definition warn_if_expiring `{Certificates} (now : Z) (tls : TlsSettings) : option (Level * str) :=
  match expiry now tls with
  | None => None
  | Some e =>
      if bool_decide (days_left e < 0)%Z
      then Some (LogError, lit "The TLS certificate " ++ ex_cert e ++ lit " expired " ++ signed_decimal (- days_left e)
                   ++ lit " day(s) ago. Clients will refuse to connect.")
      else if soon e
      then Some (LogWarn, lit "The TLS certificate " ++ ex_cert e ++ lit " expires in " ++ signed_decimal (days_left e)
                   ++ lit " day(s). Replace it before then.")
      else None
  end.

(** [acceptor], up to what [openssl] is asked to do: the first file that is not
    there, and the remedy. *)
Definition missing_tls (what path : str) : str :=
  lit "TLS " ++ what ++ lit " " ++ path ++ lit " does not exist." ++ [LF]
  ++ lit "Run `sightingdb --install-selfsigned-keys` to generate a self-signed pair for "
  ++ lit "testing, point ssl_cert/ssl_key at your own, or set ssl = false in [daemon] to "
  ++ lit "serve plain HTTP.".
Definition acceptor_refusal (exists_ : str -> bool) (tls : TlsSettings) : option str :=
  if negb (exists_ (tls_cert tls)) then Some (missing_tls (lit "certificate") (tls_cert tls))
  else if negb (exists_ (tls_key tls)) then Some (missing_tls (lit "key") (tls_key tls))
  else None.

(** [bind_failed], with its context as [{:#}] writes it: [in_use] is [AddrInUse], [why] the error's own words. *)
Definition bind_failed (in_use : bool) (why listen scheme : str) : str :=
  if in_use then
    lit "cannot listen on " ++ scheme ++ lit "://" ++ listen ++ lit ": something already has that address." ++ [LF]
    ++ lit "If it is another SightingDB, stop it with `sightingdb --stop`, and check for a "
    ++ lit "second service with `sightingdb --installed`." ++ [LF]
    ++ lit "To see what holds it: lsof -nP -iTCP:"
    ++ match rsplit_once COLON listen with Some (_, port) => port | None => listen end
    ++ lit " -sTCP:LISTEN"
  else lit "binding " ++ scheme ++ lit "://" ++ listen ++ lit ": " ++ why.

(** What [serve] does before it runs: where it listens, or why it cannot.  [tls]
    is the [openssl] acceptor made from files that are there. *)
Definition listening (exists_ : str -> bool) (make : TlsSettings -> option str) (bind : str -> option (bool * str)) (s : Settings) :
    str + str :=
  let scheme := match s_tls s with Some _ => lit "https" | None => lit "http" end in
  let bound := match bind (s_listen s) with
               | None => inl (lit "Listening on " ++ scheme ++ lit "://" ++ s_listen s)
               | Some (in_use, why) => inr (bind_failed in_use why (s_listen s) scheme)
               end in
  match s_tls s with
  | None => bound
  | Some tls =>
      match acceptor_refusal exists_ tls with
      | Some why => inr why
      | None => match make tls with Some why => inr why | None => bound end
      end
  end.

(** ** The configuration view *)
Record RoleInfo := mkRole {
  ro_kind : str; mirrors_everything : bool; ro_namespaces : list str; ro_peers : list str; ro_max_hops : Z;
}.
Record ExposedInfo := mkExposedInfo { ei_label : str; ei_namespace : str; ei_encoding : str }.
Record DnsInfo := mkDnsInfo {
  di_listen : str; di_zone : str; di_ttl : Z; di_rate_limit : Z; di_shadow : bool; di_exposed : list ExposedInfo;
}.
Record ZmqInfo := mkZmqInfo {
  zi_endpoint : str; zi_topics : list str; zi_format : str; zi_require_to_ids : bool; zi_mapped_types : nat;
  zi_hashed_namespace : option str; zi_store_values : bool;
}.
Record ServerInfo := mkServerInfo {
  si_version : str; si_authenticate : bool; si_http_enabled : bool; si_listen : str; si_config_path : str;
  si_dbdir : option str; si_snapshot_interval : Z; si_sweep_interval : Z; si_stats_retention : Z; si_shadow_ttl : Z;
  si_activity : bool; si_latest_writes : Z; si_dns : option DnsInfo; si_zmq : option ZmqInfo; si_namespaces : nat;
  si_apikeys : nat; si_default_tier : str; si_warm_idle : Z; si_tiers : list (str * str); si_role : RoleInfo;
  si_tls : option Expiry; si_expiring_soon_days : Z;
}.

(** [format!("{:?}", ..).to_lowercase()] *)
Definition encoding_name (e : Encoding) : str :=
  match e with EncIp => lit "ip" | EncDomain => lit "domain" | EncBase32 => lit "base32" end.
Definition format_name (f : Format) : str := match f with Misp => lit "misp" | Native => lit "native" end.

Definition described_tier (e : Tier.Entry) : str :=
  let t := match tier e with Some t => as_str t | None => lit "inherited" end in
  match warm_idle e with Some idle => t ++ lit " (idle " ++ signed_decimal idle ++ lit "s)" | None => t end.

Definition role_of (s : Settings) : RoleInfo :=
  let '(urls, hops) := match s_galaxy s with Some g => (p_url <$> gs_peers g, gs_max_hops g) | None => ([], 0%Z) end in
  let kind := if is_router (s_storage s) then lit "router" else if is_empty urls then lit "node" else lit "both" in
  mkRole kind (everything (s_storage s)) (prefixes (s_storage s)) urls hops.

Definition server_info `{HashOrder, Certificates} (a : Assets) (now : Z) (s : Settings) (config_path : str) (d : Database)
    (keys : Acl) : ServerInfo :=
  mkServerInfo (as_version a) (s_authenticate s) (s_http_enabled s) (s_listen s) config_path (s_dbdir s)
    (s_snapshot_interval s) (s_sweep_interval s) (s_stats_retention s) (s_shadow_ttl s) (s_activity s) (s_latest_writes s)
    ((fun n => mkDnsInfo (ds_listen n) (ds_zone n) (ds_ttl n) (ds_rate_limit n) (ds_shadow n)
                 ((fun e => mkExposedInfo (label e) (ex_namespace e) (encoding_name (encoding e))) <$> ds_exposed n)) <$> s_dns s)
    ((fun z => mkZmqInfo (zs_endpoint z) (zs_topics z) (format_name (zs_format z)) (mm_require_to_ids (zs_mapping z))
                 (size (mm_types (zs_mapping z))) (mm_hashed_namespace (zs_mapping z)) (mm_store_values (zs_mapping z))) <$> s_zmq s)
    (namespace_count d) (size keys) (as_str (default_tier (s_tiers s))) (policy_warm_idle (s_tiers s))
    ((fun p => (p.1, described_tier p.2)) <$> btree_iter (entries (s_tiers s))) (role_of s)
    (s_tls s ≫= expiry now) EXPIRING_SOON_DAYS.

(** ** The galaxy as it is drawn *)
Record Described := mkDescribed { de_node : str; de_version : str; de_role : RoleInfo; de_uptime : Z }.

(** A peer's health, with what it is declared to store: whether everything, and
    the prefixes when it is not. *)
Record GalaxyPeer := mkGalaxyPeer { gp_health : PeerHealth; gp_stores : option (bool * option (list str)) }.
Definition peers_with_storage (g : Galaxy) : list GalaxyPeer :=
  let declared : gmap str StoragePolicy := list_to_map ((fun p => (p_url p, p_stores p)) <$> reverse (peers g)) in
  (fun h => mkGalaxyPeer h ((fun st => (everything st, if everything st then None else Some (prefixes st)))
                              <$> declared !! h_url h)) <$> health_rows g.

(** What a handler of either file answers. *)
Inductive Answer :=
  | Api (r : HttpResponse)
  | Managed (r : AdminResponse)
  | Configured (i : ServerInfo)
  | Topology (self : Described) (rows : list GalaxyPeer) (below : list (str * Json))
  | FreshKey (key : str).
Definition answer_code (a : Answer) : Z :=
  match a with Api r => code r | Managed r => a_code r | Configured _ | Topology _ _ _ | FreshKey _ => OK end.

(** What a started server knows of itself. *)
Record Served := mkServed { sv_assets : Assets; sv_info : ServerInfo; sv_started : Z; sv_post_limit : Z }.

(** [rand]: a number below the bound. *)
Class Randomness (W : Type) := { random_below : nat -> W -> W * nat }.

Definition ALPHABET : str := lit "abcdefghijklmnopqrstuvwxyzABCDEFGHIJKLMNOPQRSTUVWXYZ0123456789".
Definition KEY_LENGTH : nat := 40.

Section Describing.
Context {W : Type} `{Network W} `{Serde} `{Randomness W} (clock : W -> Z) (sv : Served).
Abbreviation Handler A := (Net (W * SharedState) A).

Definition describe (now : Z) (s : SharedState) : Described :=
  mkDescribed (node (db s)) (as_version (sv_assets sv)) (si_role (sv_info sv)) (timestamp (now - sv_started sv)).
Definition describe_now : Handler Described := act (fun ws => (ws, describe (clock ws.1) ws.2)).

(** [session] *)
Definition session (req : HttpRequest) : Handler Answer :=
  s ← get_state;
  mret match require_admin s req with inr resp => Managed resp | inl _ => Managed (say OK (lit "ok")) end.

(** [info] of the interface *)
Definition admin_info (req : HttpRequest) : Handler Answer :=
  s ← get_state;
  mret match require_admin s req with inr resp => Managed resp | inl _ => Configured (sv_info sv) end.

Definition galaxy_view (req : HttpRequest) : Handler Answer :=
  s ← get_state;
  match require_admin s req with
  | inr resp => mret (Managed resp)
  | inl _ =>
      match galaxy s with
      | None => self ← describe_now; mret (Topology self [] [])
      | Some g =>
          let hops := default 0%Z (hops_left (hdrs req) (max_hops g)) in
          found ← walk g hops;
          self ← describe_now;
          mret (Topology self (peers_with_storage g) (btree_iter (list_to_map (reverse found) : gmap str Json)))
      end
  end.

(** [random_key] *)
Definition random_char (key : str) (_ : nat) : Handler str :=
  act (fun ws => let r := random_below (length ALPHABET) ws.1 in ((r.1, ws.2), key ++ [default 0%N (ALPHABET !! r.2)])).
Definition random_key : Handler str := net_fold random_char [] (seq 0 KEY_LENGTH).
Definition generate_key (req : HttpRequest) : Handler Answer :=
  s ← get_state;
  match require_admin s req with
  | inr resp => mret (Managed resp)
  | inl _ => key ← random_key; mret (FreshKey key)
  end.
End Describing.

(** ** A fresh key can be saved

    Whatever the random numbers, the key the interface offers is one it accepts
    back. *)
Section FreshKeys.
Context {W : Type} `{Randomness W} (Hbelow : forall n (w : W), 0 < n -> (random_below n w).2 < n).

Definition drawn (n : nat) (key : str) : Prop := length key = n /\ Forall (fun c => c ∈ ALPHABET) key.

Lemma random_char_drawn n key i (ws : W * SharedState) : drawn n key -> drawn (S n) (random_char key i ws).2.
Proof.
  intros [Hl Hk]. unfold random_char, act. cbv zeta. cbn [fst snd].
  destruct (lookup_lt_is_Some_2 ALPHABET (random_below (length ALPHABET) ws.1).2) as [c Hc].
  { apply Hbelow. apply Nat.ltb_lt. by vm_compute. }
  rewrite Hc. cbn [default from_option id]. split; [rewrite length_app, Hl; cbn; lia|].
  apply Forall_app. split; [done|]. apply Forall_singleton. by apply list_elem_of_lookup_2 in Hc.
Qed.

Lemma random_fold_drawn l n key (ws : W * SharedState) :
  drawn n key -> drawn (n + length l) (net_fold random_char key l ws).2.
Proof.
  revert n key ws. induction l as [|i l IH]; intros n key ws Hk; [by rewrite Nat.add_0_r|].
  cbn [net_fold length]. unfold mbind, Net_bind. cbv zeta. rewrite Nat.add_succ_r. apply (IH (S n)). by apply random_char_drawn.
Qed.

Lemma alphabet_plain : Forall (fun c => utf8_len c = 1 /\ key_bad c = false) ALPHABET.
Proof. apply (bool_decide_unpack _). by vm_compute. Qed.

Lemma drawn_valid key : drawn KEY_LENGTH key -> validate_key key = None.
Proof.
  intros [Hl Hk]. pose proof alphabet_plain as Hp. rewrite Forall_forall in Hp.
  assert (Hc : Forall (fun c => utf8_len c = 1 /\ key_bad c = false) key) by (eapply Forall_impl; [exact Hk|]; intros c; apply Hp).
  assert (Hlen : str_len key = length key).
  { clear -Hc. induction Hc as [|c key [Hc _] _ IH]; [done|]. unfold str_len in *. cbn [sum_list_with length]. lia. }
  unfold validate_key. replace (is_empty key) with false by (by destruct key).
  rewrite (bool_decide_eq_false_2 (256 < str_len key)) by (rewrite Hlen, Hl; unfold KEY_LENGTH; lia).
  destruct (list_find _ key) as [[i x]|] eqn:Ef; [|done].
  apply list_find_Some in Ef as (Hx & Hbad & _). apply list_elem_of_lookup_2 in Hx.
  rewrite Forall_forall in Hc. destruct (Hc x Hx) as [_ Hf]. by rewrite Hf in Hbad.
Qed.

Theorem generated_key_valid (ws : W * SharedState) : validate_key (random_key ws).2 = None.
Proof. apply drawn_valid, (random_fold_drawn (seq 0 KEY_LENGTH) 0 []). by split. Qed.
End FreshKeys.

(** The OpenAPI document differs from the file in its version line only. *)
Example openapi_states_version :
  let spec v := lit "openapi: 3" ++ [LF] ++ lit "info:" ++ [LF] ++ lit "  title: x" ++ [LF] ++ lit "  version: " ++ v ++ [LF]
                ++ lit "paths:" in
  openapi_text (mkAssets (lit "2.5") (spec (lit "0.0.0")) [] [] []) = spec ([QUOTE] ++ lit "2.5" ++ [QUOTE]).
Proof. by vm_compute. Qed.
