(* ===== verification/Routing.v ===== *)
(** * The HTTP service

    Models how a request reaches its handler: the two route tables
    ([admin::routes] and [handlers::routes]), the order [serve] of
    [src/src/main.rs] configures them in, the default that answers everything
    else with the help, and the answers of [json_config] and [query_config] to a
    body or a query string that cannot be read.

    A route is a pattern, the method its guard asks for, and a handler; a route
    whose method does not fit is passed over like one whose pattern does not, as
    [App::route] guards the whole resource.  Reading the pieces of a request,
    percent-decoding, [serde_urlencoded] and [serde_json], is the crates': the
    class [Extractors]. *)

From stdpp Require Import base numbers list strings gmap sorting pretty.
From S2P Require Import Prelude Text Activity Latest Attribute AttributeFacts Convergence Paths Acl Rejections Tags Tier Namespace Disk Database Contents Refine Consensus Eviction Service Accounted System Listing DnsName Peers Config Forward Stix CatchUp Handlers Exporting Admin AdminData Info.

(** ** Patterns *)
Inductive Pattern :=
  | Exact (path : str)
  | Tail (prefix : str)       (** ["prefix{namespace:.*}"] *)
  | Segment (prefix : str).   (** ["prefix{key}"], a piece with no slash, not empty *)

(** What the pattern captures of the path, if it is one of its paths. *)
Definition match_path (p : Pattern) (path : str) : option str :=
  match p with
  | Exact q => if bool_decide (path = q) then Some [] else None
  | Tail q => strip_prefix q path
  | Segment q =>
      match strip_prefix q path with
      | Some rest => if bool_decide (rest = []) || bool_decide (SLASH ∈ rest) then None else Some rest
      | None => None
      end
  end.

(** ** The handlers that are routed to *)
Inductive ApiRoute :=
  | Read (with_stats : bool) | ReadBulk (with_stats : bool) | Write | WriteBulk | ValidateBulk | MergeValues
  | Namespaces | LatestWrites | Delete | ExportStix | ExportStixApi | Configure | ApiInfo | Health | Openapi.
Inductive AdminRoute :=
  | Echarts | Logo | Session | AdminInfo | BrowseNamespaces | CreateNamespaceAt | Tree | ActivityView | GalaxyView
  | ListPeers | AddPeer | UpdatePeer | DeletePeer | PeerService | ListRejections | ClearRejections | BrowseValues | PasteValues
  | Retag | ListTags | DefineTag | UndefineTag | OneValue | SightingsGraph | ListKeys | SaveKey | ReplaceKeys | GenerateKey
  | KeyDrift | DeleteKey | SetTier | Index.
Inductive Target := ToApi (r : ApiRoute) | ToAdmin (r : AdminRoute) | ToHelp.
#[export] Instance ApiRoute_eq_dec : EqDecision ApiRoute.
Proof. solve_decision. Defined.
#[export] Instance AdminRoute_eq_dec : EqDecision AdminRoute.
Proof. solve_decision. Defined.
#[export] Instance Target_eq_dec : EqDecision Target.
Proof. solve_decision. Defined.
#[export] Instance Method_eq_dec : EqDecision Method.
Proof. solve_decision. Defined.
#[export] Instance Pattern_eq_dec : EqDecision Pattern.
Proof. solve_decision. Defined.

Record Route := mkRoute { ro_pattern : Pattern; ro_method : Method; ro_target : Target }.
#[export] Instance Route_eq_dec : EqDecision Route.
Proof. solve_decision. Defined.

(** [handlers::routes] *)
Definition api_routes : list Route :=
  [mkRoute (Tail (lit "/r/")) GET (ToApi (Read false));
   mkRoute (Tail (lit "/rs/")) GET (ToApi (Read true));
   mkRoute (Exact (lit "/rb")) POST (ToApi (ReadBulk false));
   mkRoute (Exact (lit "/rbs")) POST (ToApi (ReadBulk true));
   mkRoute (Tail (lit "/w/")) GET (ToApi Write);
   mkRoute (Exact (lit "/wb")) POST (ToApi WriteBulk);
   mkRoute (Exact (lit "/vwb")) POST (ToApi ValidateBulk);
   mkRoute (Exact (lit "/_api/merge")) POST (ToApi MergeValues);
   mkRoute (Exact (lit "/_api/namespaces")) GET (ToApi Namespaces);
   mkRoute (Exact (lit "/_api/latest")) GET (ToApi LatestWrites);
   mkRoute (Tail (lit "/d/")) GET (ToApi Delete);
   mkRoute (Tail (lit "/stix/")) GET (ToApi ExportStix);
   mkRoute (Exact (lit "/_api/stix")) POST (ToApi ExportStixApi);
   mkRoute (Exact (lit "/_api/tier")) POST (ToAdmin SetTier);
   mkRoute (Tail (lit "/c/")) GET (ToApi Configure);
   mkRoute (Exact (lit "/i")) GET (ToApi ApiInfo);
   mkRoute (Exact (lit "/health")) GET (ToApi Health);
   mkRoute (Exact (lit "/_api/openapi.yaml")) GET (ToApi Openapi)].

Definition MANAGEMENT : str := lit "/_management/".
Definition manage (path : string) (m : Method) (r : AdminRoute) : Route :=
  mkRoute (Exact (MANAGEMENT ++ lit path)) m (ToAdmin r).

(** [admin::routes], up to the page that answers every other path of the interface *)
Definition admin_api : list Route :=
  [manage "echarts.min.js" GET Echarts; manage "logo.png" GET Logo;
   manage "api/session" GET Session; manage "api/info" GET AdminInfo;
   manage "api/namespaces" GET BrowseNamespaces; manage "api/namespaces" POST CreateNamespaceAt;
   manage "api/tree" GET Tree; manage "api/activity" GET ActivityView; manage "api/galaxy" GET GalaxyView;
   manage "api/galaxy/peers" GET ListPeers; manage "api/galaxy/peers" POST AddPeer;
   manage "api/galaxy/peers" PUT UpdatePeer; manage "api/galaxy/peers" DELETE DeletePeer;
   manage "api/galaxy/peers/enabled" POST PeerService;
   manage "api/rejections" GET ListRejections; manage "api/rejections" DELETE ClearRejections;
   manage "api/values" GET BrowseValues; manage "api/values" POST PasteValues;
   manage "api/tags" POST Retag; manage "api/tags" GET ListTags;
   manage "api/tags/vocabulary" POST DefineTag; manage "api/tags/vocabulary" DELETE UndefineTag;
   manage "api/value" GET OneValue; manage "api/sightings" GET SightingsGraph;
   manage "api/keys" GET ListKeys; manage "api/keys" POST SaveKey; manage "api/keys" PUT ReplaceKeys;
   manage "api/keys/generate" GET GenerateKey; manage "api/keys/drift" GET KeyDrift;
   mkRoute (Segment (MANAGEMENT ++ lit "api/keys/")) DELETE (ToAdmin DeleteKey);
   manage "api/tier" POST SetTier; mkRoute (Exact (lit "/_management")) GET (ToAdmin Index)].
Definition catch_all : Route := mkRoute (Tail MANAGEMENT) GET (ToAdmin Index).
Definition admin_routes : list Route := admin_api ++ [catch_all].

(** The order of [serve]: [.configure(admin::routes).configure(handlers::routes)] *)
Definition route_table : list Route := admin_routes ++ api_routes.

(** A method the routes do not name is [None]. *)
Definition takes (m : option Method) (path : str) (r : Route) : bool :=
  bool_decide (m = Some (ro_method r)) && match match_path (ro_pattern r) path with Some _ => true | None => false end.

(** The first route that takes the request, and what its pattern captures; the
    default service otherwise. *)
Fixpoint route_in (table : list Route) (m : option Method) (path : str) : Target * str :=
  match table with
  | [] => (ToHelp, [])
  | r :: rest => if takes m path r then (ro_target r, default [] (match_path (ro_pattern r) path)) else route_in rest m path
  end.
Definition route : option Method -> str -> Target * str := route_in route_table.

(** ** What is read of a request *)
Record LatestQuery := mkLatestQuery { lq_limit : option nat; lq_since : option Z; lq_namespace : option str }.
Record BrowseQuery := mkBrowse { bq_q : str; bq_offset : nat; bq_limit : option nat }.
Record ValuesQuery := mkValuesQuery { vq_namespace : str; vq_browse : BrowseQuery }.
Record TreeQuery := mkTreeQuery { tq_path : str; tq_browse : BrowseQuery }.
Record ActivityQuery := mkActivityQuery { aq_granularity : Granularity; aq_end : option Z; aq_buckets : option Z }.
Record ValueQuery := mkValueQuery { oq_namespace : str; oq_value : str }.
Record SightingsQuery := mkSightingsQuery { sq_value : str; sq_limit : option nat }.
Record RejectionsQuery := mkRejectionsQuery { rq_namespace : option str; rq_limit : option nat }.
Record TagChange := mkTagChange { tch_namespace : str; tch_value : str; tch_tags : str }.
Record TagDefinition := mkTagDefinition { td_name : str; td_colour : str; td_description : str }.
Record PeerEnabled := mkPeerEnabled { pe_url : str; pe_enabled : bool }.

(** The types read from a query string, and those read from a JSON body. *)
Inductive QueryForm : Type -> Type :=
  | QRead : QueryForm ReadQuery
  | QWrite : QueryForm WriteQuery
  | QExport : QueryForm ExportQuery
  | QNamespaces : QueryForm (option str)
  | QLatest : QueryForm LatestQuery
  | QBrowse : QueryForm BrowseQuery
  | QValues : QueryForm ValuesQuery
  | QTree : QueryForm TreeQuery
  | QActivity : QueryForm ActivityQuery
  | QValue : QueryForm ValueQuery
  | QSightings : QueryForm SightingsQuery
  | QRejections : QueryForm RejectionsQuery
  | QPeer : QueryForm str
  | QTag : QueryForm str.
Inductive JsonForm : Type -> Type :=
  | JBulk : JsonForm (list BulkSighting)
  | JMerge : JsonForm (list MergeItem)
  | JExport : JsonForm ExportRequest
  | JNewNamespace : JsonForm str
  | JNewValues : JsonForm NewValues
  | JTags : JsonForm TagChange
  | JTag : JsonForm TagDefinition
  | JKey : JsonForm KeyEntry
  | JKeys : JsonForm (list KeyEntry)
  | JPeer : JsonForm PeerChange
  | JEnabled : JsonForm PeerEnabled
  | JTier : JsonForm TierChange.

(** What [actix-web] does for the handlers: the path as the router sees it, a
    captured piece as text, a query string, a body up to a limit; an error is
    its message. *)
Class Extractors := {
  routed_path : str -> str;
  captured_text : str -> str;
  from_query : forall A, QueryForm A -> str -> A + str;
  from_json : forall A, JsonForm A -> Z -> Headers -> bytes -> A + str;
}.

(** Numbers that are read fit their types. *)
Class LawfulExtractors `{Extractors} `{Chrono} : Prop := {
  write_query_fits text q : from_query _ QWrite text = inl q -> opt_u64 (w_ttl q);
  bulk_fits limit hs body items : from_json _ JBulk limit hs body = inl items -> Forall (fun i => opt_u64 (b_ttl i)) items;
  merge_fits limit hs body items :
    from_json _ JMerge limit hs body = inl items -> Forall (fun i => payload_ok (merge_item_state i)) items;
  values_fit limit hs body b : from_json _ JNewValues limit hs body = inl b -> opt_u64 (nv_ttl b);
}.

(** A request as it comes in. *)
Record Incoming := mkIncoming { in_method : option Method; in_request : HttpRequest; in_body : bytes }.

Definition in_route `{Extractors} (rq : Incoming) : Target * str := route (in_method rq) (routed_path (uri_path (in_request rq))).

Section Dispatch.
Context {W : Type} `{Network W} `{Serde} `{Chrono} `{HashOrder} `{FileSystem W} `{StixLibs} `{HeaderValues} `{Randomness W}
  `{Extractors}.
Context (digest32 : str -> N) (digest64 : str -> N) (disk : Disk) (clock : W -> Z).
Context (parse_merge : bytes -> Merge + str) (lossy : bytes -> str) (error_text : str) (sv : Served).
Abbreviation Handler A := (Net (W * SharedState) A).

(** [query_config] and [json_config] *)
Definition with_query {A} (form : QueryForm A) (rq : Incoming) (k : A -> Handler Answer) : Handler Answer :=
  match from_query A form (default [] (uri_query (in_request rq))) with
  | inl q => k q
  | inr e => mret (Api (message_answer BAD_REQUEST (lit "Invalid query string: " ++ e)))
  end.
Definition with_json {A} (form : JsonForm A) (rq : Incoming) (k : A -> Handler Answer) : Handler Answer :=
  match from_json A form (sv_post_limit sv) (hdrs (in_request rq)) (in_body rq) with
  | inl b => k b
  | inr e => mret (Api (message_answer BAD_REQUEST (lit "Invalid JSON body: " ++ e)))
  end.

Definition by_api (h : Handler HttpResponse) : Handler Answer := r ← h; mret (Api r).
Definition by_admin (h : Handler AdminResponse) : Handler Answer := r ← h; mret (Managed r).

Definition serve_api (r : ApiRoute) (ns : str) (rq : Incoming) : Handler Answer :=
  let req := in_request rq in
  match r with
  | Read with_stats => with_query QRead rq (fun q => by_api (read_handler digest32 digest64 disk clock req ns q with_stats))
  | ReadBulk with_stats =>
      with_json JBulk rq (fun items => by_api (do_read_bulk digest32 digest64 disk clock error_text req items with_stats))
  | Write => with_query QWrite rq (fun q => by_api (write_handler digest32 disk clock req ns q))
  | WriteBulk => with_json JBulk rq (fun items => by_api (write_bulk digest32 disk clock error_text req items))
  | ValidateBulk => with_json JBulk rq (fun items => by_api (validate_bulk req items))
  | MergeValues => with_json JMerge rq (fun items => by_api (merge_handler digest32 disk clock req items))
  | Namespaces => with_query QNamespaces rq (fun prefix => by_api (namespaces_handler req prefix))
  | LatestWrites => with_query QLatest rq (fun q => by_api (latest_handler req (lq_limit q) (lq_since q) (lq_namespace q)))
  | Delete => by_api (delete_handler digest32 disk clock req ns)
  | ExportStix => with_query QExport rq (fun q => by_api (export_stix digest32 digest64 disk clock error_text req ns q))
  | ExportStixApi => with_json JExport rq (fun b => by_api (export_stix_api digest32 digest64 disk clock error_text req b))
  | Configure => mret (Api configure_endpoint)
  | ApiInfo => mret (Api (api_info (sv_assets sv)))
  | Health => by_api (health_handler clock (sv_started sv))
  | Openapi => mret (Api (openapi (sv_assets sv)))
  end.

Definition serve_admin (r : AdminRoute) (piece : str) (rq : Incoming) : Handler Answer :=
  let req := in_request rq in
  match r with
  | Echarts => mret (Api (echarts (sv_assets sv)))
  | Logo => mret (Api (logo (sv_assets sv)))
  | Index => mret (Api (index (sv_assets sv)))
  | Session => session req
  | AdminInfo => admin_info sv req
  | GalaxyView => galaxy_view clock sv req
  | GenerateKey => generate_key req
  | BrowseNamespaces => with_query QBrowse rq (fun q => by_admin (admin_namespaces req (bq_q q) (bq_offset q) (bq_limit q)))
  | CreateNamespaceAt => with_json JNewNamespace rq (fun ns => by_admin (admin_create_namespace digest32 disk clock req ns))
  | Tree => with_query QTree rq (fun q =>
      by_admin (admin_tree req (tq_path q) (bq_q (tq_browse q)) (bq_offset (tq_browse q)) (bq_limit (tq_browse q))))
  | ActivityView => with_query QActivity rq (fun q => by_admin (admin_activity clock req (aq_granularity q) (aq_end q) (aq_buckets q)))
  | ListPeers => by_admin (list_peers req)
  | AddPeer => with_json JPeer rq (fun c => by_admin (save_peer req c false))
  | UpdatePeer => with_json JPeer rq (fun c => by_admin (save_peer req c true))
  | DeletePeer => with_query QPeer rq (fun url => by_admin (delete_peer req url))
  | PeerService => with_json JEnabled rq (fun e => by_admin (set_peer_enabled req (pe_url e) (pe_enabled e)))
  | ListRejections => with_query QRejections rq (fun q => by_admin (admin_rejections req (rq_namespace q) (rq_limit q)))
  | ClearRejections => by_admin (clear_rejections req)
  | BrowseValues => with_query QValues rq (fun q =>
      by_admin (admin_values digest32 disk clock req (vq_namespace q) (bq_q (vq_browse q)) (bq_offset (vq_browse q))
                  (bq_limit (vq_browse q))))
  | PasteValues => with_json JNewValues rq (fun b => by_admin (add_values digest32 disk clock req b))
  | Retag => with_json JTags rq (fun c =>
      by_admin (admin_set_tags digest32 digest64 disk clock parse_merge lossy req (tch_namespace c) (tch_value c) (tch_tags c)))
  | ListTags => by_admin (list_tags clock req)
  | DefineTag => with_json JTag rq (fun d => by_admin (define_tag clock req (td_name d) (td_colour d) (td_description d)))
  | UndefineTag => with_query QTag rq (fun tag => by_admin (undefine_tag clock req tag))
  | OneValue => with_query QValue rq (fun q => by_admin (admin_value digest32 disk clock req (oq_namespace q) (oq_value q)))
  | SightingsGraph => with_query QSightings rq (fun q => by_admin (admin_sightings digest32 disk clock req (sq_value q) (sq_limit q)))
  | ListKeys => by_admin (list_keys req)
  | SaveKey => with_json JKey rq (fun e => by_admin (save_key req e))
  | ReplaceKeys => with_json JKeys rq (fun l => by_admin (replace_keys clock req l))
  | KeyDrift => by_admin (key_drift req)
  | DeleteKey => by_admin (delete_key clock req piece)
  | SetTier => with_json JTier rq (fun c => by_admin (admin_set_tier req c))
  end.

(** A request, from the socket to its answer. *)
Definition serve (rq : Incoming) : Handler Answer :=
  let '(target, piece) := in_route rq in
  match target with
  | ToApi r => serve_api r (captured_text piece) rq
  | ToAdmin r => serve_admin r (captured_text piece) rq
  | ToHelp => mret (Api (help (sv_assets sv)))
  end.
End Dispatch.
