(* ===== verification/RoutingFacts.v ===== *)
(** * What any request can change

    The service as a whole: whatever comes in, on whatever path, with whatever
    method and body.  A request changes only the namespaces its key may write;
    the keys, the peers, the tag vocabulary and the tiers change only for an
    administrator; and the order the routes are registered in matters only for
    the interface's last one. *)

From stdpp Require Import base numbers list strings gmap sorting pretty.
From S2P Require Import Prelude Text Activity Latest Attribute AttributeFacts Convergence Paths Acl Rejections Tags Tier Namespace Disk Database Contents Refine Consensus Eviction Service Accounted System Listing DnsName Peers Config Forward ForwardFacts Stix StixFacts CatchUp CatchUpFacts Frame Handlers HandlerFacts Exporting ExportFacts Grants Admin AdminData AdminFacts AdminReach Info Routing.

(** ** Handlers that only send and read *)
Section Steps.
Context {W : Type} `{Network W} `{FileSystem W}.
Implicit Types (I : SharedState -> Prop).

Lemma stays_any {A} I (m : Net (W * SharedState) A) Q : stays I m Q -> stays I m any.
Proof. intros Hm w s Hs. split; [|done]. by apply Hm. Qed.

(** The state is looked at, not changed. *)
Lemma stays_still {A} I (m : Net (W * SharedState) A) : still m -> stays I m any.
Proof. intros Hm w s Hs. split; [|done]. by rewrite (Hm (w, s)). Qed.

Lemma stays_forward_to I g url method path body hops origin :
  stays (W := W) I (forward_to g url method path body hops origin) any.
Proof. unfold forward_to. repeat case_match; (by apply stays_ret) || apply stays_send. Qed.

End Steps.

(** Walks a handler, one command at a time. *)
Ltac stay_step :=
  match goal with
  | |- forall _, any _ -> _ => intros ? _
  | |- stays _ (mret _) any => by apply stays_ret
  | |- stays _ get_state any => eapply stays_any, stays_get
  | |- stays _ (mbind _ _) any => apply (stays_bind _ _ _ any)
  | |- stays _ (send _ _ _ _ _ _ _) any => apply stays_send
  | |- stays _ (forward_to _ _ _ _ _ _ _) any => apply stays_forward_to
  | |- stays _ (forward_read _ _ _ _ _ _ _) any => apply stays_forward_read
  | |- stays _ (net_fold _ _ _) any => apply stays_fold; intros ? ? _
  | |- stays _ (replace_file _ _) any => apply stays_replace_file
  | |- stays _ (match ?x with _ => _ end) any => destruct x
  | |- stays _ (let _ := _ in _) any => cbv zeta
  end.
Ltac staying := repeat stay_step.

Section Spreading.
Context {W : Type} `{Network W} `{Serde}.
Implicit Types (I : SharedState -> Prop).

Lemma stays_walk I g hops : stays (W := W) I (walk g hops) any.
Proof. unfold walk. staying. Qed.
Lemma stays_peer_keys I g : stays (W := W) I (peer_keys g) any.
Proof. unfold peer_keys. staying. Qed.
End Spreading.

(** ** Reading *)
Section Reads.
Context {W : Type} `{Network W} `{Serde} `{Chrono} `{HashOrder} `{StixLibs} `{HeaderValues}.
Context (digest32 : str -> N) (digest64 : str -> N) (disk : Disk) (clock : W -> Z).
Context (s0 : SharedState) (abs0 : Abs) (allowed : str -> bool).
Context (Hshadow : is_u64 (shadow_ttl (policy (db s0)))) (Hclock : forall w, plausible (clock w)).
Abbreviation conf := (confined digest32 disk s0 abs0 allowed).

Lemma shadow_internal ns : is_internal (shadow_path ns) = true.
Proof. apply (prefixed_internal (lit "_shadow") (shadow_path ns)); [done|by apply (bool_decide_unpack _)|done|]. apply starts_with_spec. by exists ns. Qed.

Lemma stays_client_read ns v st shadow :
  stays conf (on_db clock (fun now d => client_read digest32 disk now d ns v st shadow)) any.
Proof.
  apply stays_on_db; [done..|]. intros now d abs Hnow Himp Hsh. destruct (starts_with CONFIG_PREFIX ns) eqn:Ec.
  - exists abs. unfold client_read. rewrite Ec. by split_and!.
  - destruct (client_read_spec digest32 disk now d abs ns v st shadow Himp Hsh Hnow Ec) as (R1 & _).
    eexists. split; [exact R1|]. split; [|apply setup_client_read]. destruct shadow; [|by intros n _ _].
    apply (untouched_one _ (shadow_path ns)); [left; apply shadow_internal|].
    intros n Hn _. unfold a_record, a_update. by rewrite lookup_insert_ne.
Qed.

Lemma stays_shadow ns v : stays conf (write_here digest32 disk clock (shadow_path ns) v) any.
Proof. apply stays_write_here; [done..|apply shadow_internal]. Qed.

Lemma stays_do_read req ns q st : stays conf (do_read digest32 disk clock req ns q st) any.
Proof.
  unfold do_read. staying; try apply stays_client_read; (apply stays_unnoticed; [done..|]; intros now d);
    [apply unnoticed_value_count|apply unnoticed_namespace|apply unnoticed_namespace|apply unnoticed_read_namespace].
Qed.

Lemma stays_read_handler req ns q st : stays conf (read_handler digest32 digest64 disk clock req ns q st) any.
Proof. unfold read_handler, forwarded_read. staying; try apply stays_shadow; apply stays_do_read. Qed.

Lemma stays_read_bulk e req items st : stays conf (do_read_bulk digest32 digest64 disk clock e req items st) any.
Proof.
  unfold do_read_bulk, fetch_group. staying. unfold place_item. staying; try apply stays_shadow;
    unfold read_here; staying; apply stays_client_read.
Qed.

Lemma stays_reachable req wanted : stays (W := W) conf (reachable_subtrees req wanted) any.
Proof.
  unfold reachable_subtrees. staying. intros w s Hs. split; [|done]. unfold on_galaxy, act. cbv zeta. cbn [fst snd].
  rewrite (still_namespaces_under _ _ (w, db s)). exact Hs.
Qed.

Lemma stays_gathered e wanted flt limit untyped :
  stays conf (gathered_export digest32 digest64 disk clock e wanted flt limit untyped) any.
Proof.
  unfold gathered_export. staying; try (unfold gather_one; staying).
  apply stays_unnoticed; [done..|]. intros now d. apply unnoticed_export_namespaces.
Qed.

Lemma stays_export_here wanted flt limit untyped : stays conf (export_here digest32 disk clock wanted flt limit untyped) any.
Proof. unfold export_here. staying. apply stays_unnoticed; [done..|]. intros now d. apply unnoticed_export_namespaces. Qed.

Lemma stays_export_stix e req ns q : stays conf (export_stix digest32 digest64 disk clock e req ns q) any.
Proof.
  unfold export_stix, export_stix_value. staying; try apply stays_reachable; try apply stays_gathered; try apply stays_export_here;
    apply stays_unnoticed; try done; intros now d; (apply unnoticed_export_value || apply unnoticed_export_namespace).
Qed.

Lemma stays_export_api e req b : stays conf (export_stix_api digest32 digest64 disk clock e req b) any.
Proof.
  unfold export_stix_api, export_wanted. staying; try apply stays_reachable; try apply stays_gathered; apply stays_export_here.
Qed.
End Reads.

(** ** The management interface *)
Section Interface.
Context {W : Type} `{Network W} `{Serde} `{Chrono} `{HashOrder} `{FileSystem W} `{Randomness W}.
Context (digest32 : str -> N) (disk : Disk) (clock : W -> Z) (sv : Served).
Context (s0 : SharedState) (abs0 : Abs) (allowed : str -> bool) (req : HttpRequest).
Context (Hshadow : is_u64 (shadow_ttl (policy (db s0)))) (Hclock : forall w, plausible (clock w)).
Abbreviation conf := (confined digest32 disk s0 abs0 allowed).

Lemma stays_values ns q off limit : stays conf (admin_values digest32 disk clock req ns q off limit) any.
Proof. unfold admin_values. staying. apply stays_unnoticed; [done..|]. intros. apply unnoticed_value_page. Qed.

Lemma stays_value ns v : stays conf (admin_value digest32 disk clock req ns v) any.
Proof. unfold admin_value. staying; (apply stays_unnoticed; [done..|]; intros; apply unnoticed_namespace). Qed.

Lemma stays_sightings v limit : stays conf (admin_sightings digest32 disk clock req v limit) any.
Proof.
  unfold admin_sightings. staying; (apply stays_unnoticed; [done..|]; intros); [apply unnoticed_sightings|apply unnoticed_namespace].
Qed.

Lemma stays_clear_rejections : stays (W := W) conf (clear_rejections req) any.
Proof. unfold clear_rejections. staying. by apply stays_modify. Qed.

Lemma stays_generate_key I : stays (W := W) I (generate_key req) any.
Proof. unfold generate_key, random_key, random_char. staying. by intros w s Hs. Qed.

Lemma stays_galaxy_view I : stays I (galaxy_view clock sv req) any.
Proof. unfold galaxy_view, describe_now. staying; try apply stays_walk; by intros w s Hs. Qed.

Lemma stays_key_drift I : stays (W := W) I (key_drift req) any.
Proof. unfold key_drift. staying. apply stays_peer_keys. Qed.

(** ** Changing the settings

    What the interface edits leaves the data as it is. *)
Definition same_contents (s : SharedState) : Prop :=
  implements digest32 disk (db s) abs0 /\ policy (db s) = policy (db s0).

Lemma set_policy_contents d shard e : implements digest32 disk d abs0 -> implements digest32 disk (set_policy d shard e) abs0.
Proof. intros [[Ha Hb Hc Hd] He]. split; [by split|exact He]. Qed.

Lemma stays_revoke_now key : stays same_contents (revoke_now clock key) any.
Proof. by intros w s Hs. Qed.

Lemma stays_save_key e : stays (W := W) same_contents (save_key req e) any.
Proof.
  unfold save_key, save_key_commit, gossip_key. staying; try (by apply stays_save_acl); try (by apply stays_modify). apply stays_spread.
Qed.
Lemma stays_delete_key key : stays same_contents (delete_key clock req key) any.
Proof.
  unfold delete_key, delete_key_commit. staying; try (by apply stays_save_acl); try apply stays_revoke_now. apply stays_spread.
Qed.
Lemma stays_replace_keys l : stays same_contents (replace_keys clock req l) any.
Proof.
  unfold replace_keys, replace_keys_commit. staying; try (by apply stays_save_acl); try apply stays_revoke_now. by apply stays_modify.
Qed.

Lemma stays_saved_peers g : stays (W := W) same_contents (saved_peers req g) any.
Proof. unfold saved_peers, save_peers, list_peers. staying. by apply stays_modify. Qed.
Lemma stays_save_peer c replacing : stays (W := W) same_contents (save_peer req c replacing) any.
Proof. unfold save_peer. staying; apply stays_saved_peers. Qed.
Lemma stays_delete_peer url : stays (W := W) same_contents (delete_peer req url) any.
Proof. unfold delete_peer. staying; apply stays_saved_peers. Qed.
Lemma stays_set_enabled url on : stays (W := W) same_contents (set_peer_enabled req url on) any.
Proof. unfold set_peer_enabled. staying; apply stays_saved_peers. Qed.

Lemma stays_saved_tags v : stays same_contents (saved_tags clock req v) any.
Proof. unfold saved_tags, save_tags. staying; try (by apply stays_modify). by intros w s Hs. Qed.
Lemma stays_define_tag n c d : stays same_contents (define_tag clock req n c d) any.
Proof. unfold define_tag. staying; apply stays_saved_tags. Qed.
Lemma stays_undefine_tag n : stays same_contents (undefine_tag clock req n) any.
Proof. unfold undefine_tag. staying; apply stays_saved_tags. Qed.

Lemma stays_set_tier c : stays (W := W) same_contents (admin_set_tier req c) any.
Proof.
  unfold admin_set_tier, save_tiers. staying; try (by intros w s Hs); try apply stays_spread.
  apply stays_modify. intros s [Hs Hp]. split; [by apply set_policy_contents|exact Hp].
Qed.
End Interface.

(** ** Every request *)

(** Whether the request carries the key of an administrator. *)
Definition holds_admin (s : SharedState) (req : HttpRequest) : bool :=
  match header (hdrs req) (lit "Authorization") with Some (Some key) => is_admin (acl s) key | _ => false end.
(** The vocabulary is also open to a key that reads and writes everywhere. *)
Definition may_edit_vocabulary (s : SharedState) (req : HttpRequest) : bool :=
  match header (hdrs req) (lit "Authorization") with
  | Some (Some key) => is_admin (acl s) key || (can_read (acl s) key WHOLE_TREE && can_write (acl s) key WHOLE_TREE)
  | _ => false
  end.

(** What a request may change, from where it is routed: of the data, and of the
    settings. *)
Definition may_touch `{Extractors} (s : SharedState) (rq : Incoming) (ns : str) : bool :=
  match (in_route rq).1 with
  | ToApi _ => may_change s (in_request rq) ns
  | ToAdmin _ => may_administer s (in_request rq) ns
  | ToHelp => false
  end.
Definition may_configure `{Extractors} (s : SharedState) (rq : Incoming) : bool :=
  match (in_route rq).1 with
  | ToAdmin (DefineTag | UndefineTag) => may_edit_vocabulary s (in_request rq)
  | ToAdmin _ => holds_admin s (in_request rq)
  | _ => false
  end.

Lemma not_admin s req : holds_admin s req = false -> exists resp, require_admin s req = inr resp.
Proof.
  unfold holds_admin, require_admin, admin_header. destruct (header _ _) as [[k|]|]; [|by eexists..].
  intros ->. by eexists.
Qed.

Lemma not_editor s req : may_edit_vocabulary s req = false -> exists resp, require_vocabulary_editor s req = inr resp.
Proof.
  unfold may_edit_vocabulary, require_vocabulary_editor, admin_header. destruct (header _ _) as [[k|]|]; [|by eexists..].
  intros ->. by eexists.
Qed.

Section Everything.
Context {W : Type} `{Network W} `{Serde} `{Chrono} `{HashOrder} `{FileSystem W} `{StixLibs} `{HeaderValues} `{Randomness W}.
Context `{Extractors} `{!LawfulExtractors}.
Context (digest32 : str -> N) (digest64 : str -> N) (disk : Disk) (clock : W -> Z).
Context (parse_merge : bytes -> Merge + str) (lossy : bytes -> str) (error_text : str) (sv : Served).
Context (s0 : SharedState) (abs0 : Abs) (rq : Incoming).
Context (Hshadow : is_u64 (shadow_ttl (policy (db s0)))) (Hclock : forall w, plausible (clock w)).
Context (Himp0 : implements digest32 disk (db s0) abs0).
Abbreviation req := (in_request rq).

Definition well_served (s : SharedState) : Prop :=
  (exists abs, implements digest32 disk (db s) abs /\ untouched (may_touch s0 rq) abs0 abs)
  /\ policy (db s) = policy (db s0)
  /\ (may_configure s0 rq = true \/ setup_of (db s) = setup_of (db s0) /\ administered s = administered s0).

(** The two ways a request is served well: it keeps to the data it may write, or
    it may change the settings and leaves the data alone. *)
Lemma confined_served s : confined digest32 disk s0 abs0 (may_touch s0 rq) s -> well_served s.
Proof. intros (Hd & Hs & Ha). split_and!; [done|by apply setup_policy|by right]. Qed.

Lemma start_served : well_served s0.
Proof. apply confined_served. split_and!; [|done..]. exists abs0. split; [done|]. by intros n _ _. Qed.

Lemma stays_served {A} (h : Net (W * SharedState) A) w :
  stays (confined digest32 disk s0 abs0 (may_touch s0 rq)) h any -> well_served (h (w, s0)).1.2.
Proof.
  intros Hh. apply confined_served, (proj1 (Hh w s0 ltac:(split_and!; [|done..]; exists abs0; split; [done|by intros n _ _]))).
Qed.

Lemma gated_served {A} (h : Net (W * SharedState) A) w :
  stays (same_contents digest32 disk s0 abs0) h any -> (may_configure s0 rq = false -> (h (w, s0)).1.2 = s0) ->
  well_served (h (w, s0)).1.2.
Proof.
  intros Hh Hno. destruct (may_configure s0 rq) eqn:E; [|rewrite Hno by done; apply start_served].
  destruct (Hh w s0 (conj Himp0 eq_refl)) as [[Hi Hp] _]. split_and!; [|exact Hp|by left]. exists abs0. split; [done|by intros n _ _].
Qed.

(** What cannot be read changes nothing. *)
Lemma query_served {A} (form : QueryForm A) (k : A -> Net (W * SharedState) Answer) w :
  (forall q, from_query A form (default [] (uri_query req)) = inl q -> well_served (k q (w, s0)).1.2) ->
  well_served (with_query form rq k (w, s0)).1.2.
Proof. intros Hk. unfold with_query. destruct (from_query A form _); [by apply Hk|apply start_served]. Qed.
Lemma json_served {A} (form : JsonForm A) (k : A -> Net (W * SharedState) Answer) w :
  (forall b, from_json A form (sv_post_limit sv) (hdrs req) (in_body rq) = inl b -> well_served (k b (w, s0)).1.2) ->
  well_served (with_json sv form rq k (w, s0)).1.2.
Proof. intros Hk. unfold with_json. destruct (from_json A form _ _ _); [by apply Hk|apply start_served]. Qed.

(** What the answer is wrapped in makes no difference. *)
Lemma by_api_served (h : Net (W * SharedState) HttpResponse) w : well_served (h (w, s0)).1.2 -> well_served (by_api h (w, s0)).1.2.
Proof. done. Qed.
Lemma by_admin_served (h : Net (W * SharedState) AdminResponse) w :
  well_served (h (w, s0)).1.2 -> well_served (by_admin h (w, s0)).1.2.
Proof. done. Qed.

Ltac arrives :=
  try (apply query_served; intros ? ?); try (apply json_served; intros ? ?);
  try apply by_api_served; try apply by_admin_served; try apply start_served.

Lemma api_served r piece w :
  (in_route rq).1 = ToApi r ->
  well_served (serve_api digest32 digest64 disk clock error_text sv r piece rq (w, s0)).1.2.
Proof.
  intros Hr. assert (Ht : may_touch s0 rq = may_change s0 req) by (unfold may_touch; by rewrite Hr).
  destruct r; cbn [serve_api]; cbv zeta; arrives.
  - by apply stays_served, stays_read_handler.
  - by apply stays_served, stays_read_bulk.
  - apply confined_served. rewrite Ht. apply write_confined; [done..|]. by eapply write_query_fits.
  - apply confined_served. rewrite Ht. apply bulk_confined; [done..|]. by eapply bulk_fits.
  - apply stays_served. unfold validate_bulk. staying.
  - apply confined_served. rewrite Ht. apply merge_confined; [done..|]. by eapply merge_fits.
  - apply stays_served. unfold namespaces_handler. staying.
  - apply stays_served. unfold latest_handler. staying.
  - apply confined_served. rewrite Ht. by apply delete_confined.
  - by apply stays_served, stays_export_stix.
  - by apply stays_served, stays_export_api.
Qed.
(** An administrator's handler, refused. *)
Lemma refused {A} (k : SharedState -> Net (W * SharedState) A) (a : A) w :
  k s0 = mret a -> ((get_state ≫= k) (w, s0)).1.2 = s0.
Proof. intros E. unfold mbind, Net_bind, get_state, act. cbv zeta. cbn [fst snd]. by rewrite E. Qed.

Ltac turned_away :=
  intros; eapply refused; unfold save_key_plan, delete_key_plan, replace_keys_plan;
  match goal with E : _ = inr _ |- _ => by rewrite E end.

Lemma admin_served r piece w :
  (in_route rq).1 = ToAdmin r ->
  well_served (serve_admin digest32 digest64 disk clock parse_merge lossy sv r piece rq (w, s0)).1.2.
Proof.
  intros Hr. assert (Ht : may_touch s0 rq = may_administer s0 req) by (unfold may_touch; by rewrite Hr).
  assert (Hc : may_configure s0 rq = match r with DefineTag | UndefineTag => may_edit_vocabulary s0 req | _ => holds_admin s0 req end)
    by (unfold may_configure; rewrite Hr; by destruct r).
  assert (Hrefused : forall A (h : Net (W * SharedState) A), stays (same_contents digest32 disk s0 abs0) h any ->
    (forall resp, require_admin s0 req = inr resp -> (h (w, s0)).1.2 = s0) ->
    may_configure s0 rq = holds_admin s0 req -> well_served (h (w, s0)).1.2).
  { intros A h Hh Hno E. apply gated_served; [done|]. rewrite E. intros [resp Hresp]%not_admin. by eapply Hno. }
  destruct r; cbn [serve_admin]; cbv zeta; arrives.
  - apply confined_served. rewrite Ht. by apply create_reach.
  - apply (stays_served (galaxy_view _ _ _)), stays_galaxy_view.
  - apply Hrefused; [apply stays_save_peer|turned_away|done].
  - apply Hrefused; [apply stays_save_peer|turned_away|done].
  - apply Hrefused; [apply stays_delete_peer|turned_away|done].
  - apply Hrefused; [apply stays_set_enabled|turned_away|done].
  - by apply stays_served, stays_clear_rejections.
  - by apply stays_served, stays_values.
  - apply confined_served. rewrite Ht. apply add_reach; [done..|]. by eapply values_fit.
  - apply confined_served. rewrite Ht. by apply tag_reach.
  - apply gated_served; [apply stays_define_tag|]. rewrite Hc. intros [resp Hn]%not_editor. revert Hn. turned_away.
  - apply gated_served; [apply stays_undefine_tag|]. rewrite Hc. intros [resp Hn]%not_editor. revert Hn. turned_away.
  - by apply stays_served, stays_value.
  - by apply stays_served, stays_sightings.
  - apply Hrefused; [apply stays_save_key|turned_away|done].
  - apply Hrefused; [apply stays_replace_keys|turned_away|done].
  - apply (stays_served (generate_key _)), stays_generate_key.
  - apply stays_served, stays_key_drift.
  - apply Hrefused; [apply stays_delete_key|turned_away|done].
  - apply Hrefused; [apply stays_set_tier|turned_away|done].
Qed.
Lemma serve_served w :
  well_served (serve digest32 digest64 disk clock parse_merge lossy error_text sv rq (w, s0)).1.2.
Proof.
  unfold serve. destruct (in_route rq) as [[r|r|] piece] eqn:E.
  - apply api_served. by rewrite E.
  - apply admin_served. by rewrite E.
  - apply start_served.
Qed.
End Everything.

(** ** The order of the routes *)

(** Patterns with no path in common. *)
Definition disjoint_prefixes (a b : str) : bool := negb (starts_with a b) && negb (starts_with b a).
Definition disjoint_patterns (p q : Pattern) : bool :=
  match p, q with
  | Exact a, _ => match match_path q a with None => true | Some _ => false end
  | _, Exact b => match match_path p b with None => true | Some _ => false end
  | Tail a, Tail b | Tail a, Segment b | Segment a, Tail b | Segment a, Segment b => disjoint_prefixes a b
  end.
Definition disjoint_routes (r q : Route) : bool :=
  negb (bool_decide (ro_method r = ro_method q)) || disjoint_patterns (ro_pattern r) (ro_pattern q).
Fixpoint apart (l : list Route) : bool :=
  match l with [] => true | r :: rest => forallb (disjoint_routes r) rest && apart rest end.

Lemma comparable (a b x y : str) : a ++ x = b ++ y -> disjoint_prefixes a b = false.
Proof.
  intros E. assert (Hc : (exists k, b = a ++ k) \/ exists k, a = b ++ k).
  { revert b E. induction a as [|c a IH]; intros [|d b] E; [by left; exists []|by left; eexists|by right; eexists|].
    cbn in E. injection E as -> E. destruct (IH b E) as [[k ->]|[k ->]]; [left|right]; by exists k. }
  unfold disjoint_prefixes. destruct Hc as [Hk%starts_with_spec|Hk%starts_with_spec]; rewrite Hk; [done|]. by rewrite andb_false_r.
Qed.

(** A path of a pattern that is not one path starts with its prefix. *)
Lemma match_prefix p a path c : (p = Tail a \/ p = Segment a) -> match_path p path = Some c -> path = a ++ c.
Proof.
  intros [-> | ->]; cbn [match_path]; [by intros ->%strip_prefix_spec|].
  destruct (strip_prefix a path) as [rest|] eqn:E; [|done]. destruct (_ || _); [done|].
  intros [= ->]. by apply strip_prefix_spec in E.
Qed.

Lemma patterns_meet p q path : is_Some (match_path p path) -> is_Some (match_path q path) -> disjoint_patterns p q = false.
Proof.
  intros [c Hc] [d Hd]. assert (Hx : forall x r, match_path (Exact r) path = Some x -> path = r).
  { intros x r. cbn. by case_bool_decide. }
  destruct p as [a|a|a], q as [b|b|b]; cbn [disjoint_patterns]; try (apply Hx in Hc as <-; by rewrite Hd);
    try (apply Hx in Hd as <-; by rewrite Hc);
    (apply (match_prefix _ a) in Hc; [|by auto]); (apply (match_prefix _ b) in Hd; [|by auto]);
    apply (comparable a b c d); congruence.
Qed.

Lemma routes_meet m path r q : takes m path r = true -> takes m path q = true -> disjoint_routes r q = false.
Proof.
  unfold takes, disjoint_routes. intros [Hm1%bool_decide_eq_true Hp1]%andb_true_iff [Hm2%bool_decide_eq_true Hp2]%andb_true_iff.
  rewrite bool_decide_eq_true_2 by congruence. cbn [negb orb].
  destruct (match_path (ro_pattern r) path) eqn:E1, (match_path (ro_pattern q) path) eqn:E2; [|done..].
  by apply (patterns_meet _ _ path); eexists.
Qed.

(** The routes of a table that take a request. *)
Definition takers (m : option Method) (path : str) (l : list Route) : list Route := filter (fun r => takes m path r = true) l.
Definition answer_of (path : str) (r : option Route) : Target * str :=
  match r with Some r => (ro_target r, default [] (match_path (ro_pattern r) path)) | None => (ToHelp, []) end.

Lemma route_in_takers l m path : route_in l m path = answer_of path (head (takers m path l)).
Proof.
  induction l as [|r l IH]; [done|]. cbn [route_in]. unfold takers. rewrite filter_cons.
  destruct (takes m path r); [done|]. by rewrite IH.
Qed.

Lemma disjoint_takers m path r l : takes m path r = true -> forallb (disjoint_routes r) l = true -> takers m path l = [].
Proof.
  intros Hr. induction l as [|q l IH]; [done|]. cbn [forallb]. intros [Hq Hl]%andb_true_iff. unfold takers. rewrite filter_cons.
  destruct (decide _) as [Ht|Ht]; [by rewrite (routes_meet m path r q) in Hq|by apply IH].
Qed.

Lemma apart_takers m path l : apart l = true -> length (takers m path l) <= 1.
Proof.
  induction l as [|r l IH]; [cbn; lia|]. cbn [apart]. intros [Hd Ha]%andb_true_iff. unfold takers. rewrite filter_cons.
  destruct (decide _) as [Ht|Ht]; [|by apply IH]. pose proof (disjoint_takers m path r l Ht Hd) as E.
  unfold takers in E. rewrite E. cbn. lia.
Qed.

Lemma short_permutation {A} (l k : list A) : l ≡ₚ k -> length k <= 1 -> l = k.
Proof.
  intros Hp Hk. destruct k as [|x [|y k]]; [by apply Permutation_nil_r|by apply Permutation_singleton_r|cbn in Hk; lia].
Qed.


(** ** Properties *)

Section Traffic.
Context {W : Type} `{Network W} `{Serde} `{Chrono} `{HashOrder} `{FileSystem W} `{StixLibs} `{HeaderValues} `{Randomness W}.
Context `{Extractors}.
Context (digest32 : str -> N) (digest64 : str -> N) (disk : Disk) (clock : W -> Z).
Context (parse_merge : bytes -> Merge + str) (lossy : bytes -> str) (error_text : str) (sv : Served).
Abbreviation answer_one rq := (serve digest32 digest64 disk clock parse_merge lossy error_text sv rq).

(** Requests served one after the other. *)
Definition serve_all (rqs : list Incoming) (ws : W * SharedState) : W * SharedState :=
  foldl (fun ws rq => (answer_one rq ws).1) ws rqs.

(** A namespace that none of the requests may touch when it comes, and requests
    none of which may change the settings then. *)
Fixpoint out_of_reach (n : str) (rqs : list Incoming) (ws : W * SharedState) : bool :=
  match rqs with
  | [] => true
  | rq :: rest => negb (may_touch ws.2 rq n) && out_of_reach n rest (answer_one rq ws).1
  end.
Fixpoint unprivileged (rqs : list Incoming) (ws : W * SharedState) : bool :=
  match rqs with
  | [] => true
  | rq :: rest => negb (may_configure ws.2 rq) && unprivileged rest (answer_one rq ws).1
  end.

Lemma traffic_served `{!LawfulExtractors} rqs ws abs :
  implements digest32 disk (db ws.2) abs -> is_u64 (shadow_ttl (policy (db ws.2))) -> (forall w, plausible (clock w)) ->
  let s' := (serve_all rqs ws).2 in
  (exists abs', implements digest32 disk (db s') abs'
     /\ forall n, is_internal n = false -> out_of_reach n rqs ws = true -> abs' !! n = abs !! n)
  /\ (unprivileged rqs ws = true -> administered s' = administered ws.2 /\ setup_of (db s') = setup_of (db ws.2)).
Proof.
  intros Himp Hsh Hclk. revert ws abs Himp Hsh. induction rqs as [|rq rqs IH]; intros [w s] abs Himp Hsh; cbn [serve_all foldl].
  - split; [|done]. by exists abs.
  - destruct (serve_served digest32 digest64 disk clock parse_merge lossy error_text sv s abs rq Hsh Hclk Himp w)
      as ((abs1 & H1' & Hu) & Hp & Hs).
    destruct (IH (answer_one rq (w, s)).1 abs1 H1' ltac:(by rewrite Hp)) as ((abs2 & H2' & Hv) & Ht). split.
    + exists abs2. split; [exact H2'|]. intros n Hi. cbn [out_of_reach]. intros [Hn%negb_true_iff Hrest]%andb_true_iff.
      rewrite (Hv n Hi Hrest). by apply Hu.
    + cbn [unprivileged]. intros [Hn%negb_true_iff Hrest]%andb_true_iff. cbn [snd] in Hn.
      destruct Hs as [Hs|[Hs1 Hs2]]; [congruence|]. destruct (Ht Hrest) as [Ha Hb]. split; [exact (eq_trans Ha Hs2)|exact (eq_trans Hb Hs1)].
Qed.
End Traffic.



(** The registration order matters for one route only.  Every route is reached
    by the paths of its pattern; and however the others are ordered, as long as
    the page that answers every path of the interface comes last, a request is
    routed as it is. *)
Definition sample (p : Pattern) : str := match p with Exact a => a | Tail a | Segment a => a ++ lit "x" end.
Theorem routes_unordered :
  Forall (fun r => (route (Some (ro_method r)) (sample (ro_pattern r))).1 = ro_target r) route_table
  /\ forall table m path, table ≡ₚ admin_api ++ api_routes -> route_in (table ++ [catch_all]) m path = route m path.
Proof.
  split; [by apply (bool_decide_unpack _); vm_compute|]. intros table m path Hp. unfold route. rewrite !route_in_takers. f_equal.
  assert (Ha : apart (admin_api ++ api_routes) = true) by by vm_compute.
  assert (Hl : forallb (disjoint_routes catch_all) api_routes = true) by by vm_compute.
  assert (Ht : takers m path table = takers m path admin_api ++ takers m path api_routes).
  { unfold takers. rewrite <- filter_app. apply short_permutation; [by rewrite Hp|]. by apply apart_takers. }
  unfold route_table, admin_routes, takers in *. rewrite !filter_app, Ht.
  destruct (filter _ admin_api) as [|r l]; [|done]. cbn [app]. rewrite filter_cons, filter_nil.
  destruct (decide _) as [Hc|Hc]; [|by rewrite app_nil_r].
  pose proof (disjoint_takers m path catch_all api_routes Hc Hl) as E. unfold takers in E. by rewrite E.
Qed.

(** ** A server to try it on *)
Definition demo_extractors : Extractors :=
  {| routed_path p := p; captured_text p := p;
     from_query A form text :=
       match form in QueryForm A return A + str with
       | QWrite => inl (mkWriteQuery (Some text) None None None)
       | QTag => inl text
       | _ => inr (lit "unreadable")
       end;
     from_json A form limit hs body :=
       match form in JsonForm A return A + str with
       | JKey => inl (mkKeyEntry body false [lit "feeds"] [])
       | _ => inr (lit "unreadable")
       end |}.
Definition demo_reads `{Chrono} : let E := demo_extractors in LawfulExtractors.
Proof. split; cbn; [by intros text q [= <-]|done..]. Defined.
Definition demo_random : Randomness Drive := {| random_below n w := (w, 0) |}.
Definition demo_assets : Assets := mkAssets (lit "1.0") [] [] [] [].
Definition demo_served : Served :=
  mkServed demo_assets
    (mkServerInfo (lit "1.0") true true [] [] None 0 0 0 0 true 0 None None 0 0 [] 0 []
       (mkRole (lit "node") true [] [] 0) None EXPIRING_SOON_DAYS) 0 1000.
Definition incoming (m : Method) (path : string) (query key : str) (body : bytes) : Incoming :=
  mkIncoming (Some m) (mkHttp [(lit "authorization", Some key)] (lit path) (Some query)) body.


