(* ===== verification/Startup.v ===== *)
(** * Keys across a restart

    The management interface writes the ACL file ([Admin]); the next start reads
    it ([Config]).  Between the two is the TOML parser, which is the [toml]
    crate's.  What is relied on is the part of TOML the file uses: [acl_doc] says
    which texts those are and what they mean, and [LawfulToml] that the parser
    reads them so. *)

From stdpp Require Import base numbers list strings gmap sorting.
From S2P Require Import Prelude Text Paths Acl Tags Tier Namespace Database System DnsName Peers Config ConfigFacts Forward ForwardFacts CatchUp CatchUpFacts Handlers HandlerFacts Grants Admin AdminData AdminFacts.

(** ** The part of TOML the file uses *)
(** Characters that stand for themselves in a basic string *)
Definition unescaped (c : N) : Prop := (32 <= c)%N /\ c <> 127%N /\ c <> 34%N /\ c <> 92%N.
Definition plain (s : str) : Prop := Forall unescaped s.

(** A blank line or a comment *)
Definition remark (l : str) : Prop := l = [] \/ exists r, l = 35%N :: r /\ Forall (fun c => 32 <= c /\ c <> 127)%N r.

Definition entry_line (p : str * str) : str :=
  [34%N] ++ p.1 ++ [34%N] ++ lit " = " ++ [34%N] ++ p.2 ++ [34%N; LF].

(** Remarks, the table's header, and one [key = value] per line, both quoted. *)
Inductive acl_doc : str -> list (str * str) -> Prop :=
  | acl_doc_intro remarks es :
      Forall remark remarks -> Forall (fun p => plain p.1 /\ plain p.2) es -> NoDup es.*1 ->
      acl_doc (mjoin ((fun l => l ++ [LF]) <$> remarks) ++ lit "[acl]" ++ [LF] ++ mjoin (entry_line <$> es)) es.

Class LawfulToml `{ConfigFiles} : Prop :=
  toml_acl_law text es : acl_doc text es -> toml_acl text = Some (list_to_map es).

(** ** What the interface writes *)

(** A table of grants that can be written down: each key has some, and neither
    keys nor namespaces need escaping. *)
Record grants_written (gs : list Grant) : Prop := {
  written_some : gs <> [];
  written_each : Forall (fun g => renderable g /\ plain (g_prefix g)) gs;
}.
Definition table_written (a : Acl) : Prop := map_Forall (fun key gs => plain key /\ grants_written gs) a.

Definition specs (gs : list Grant) : str := join_with (lit ", ") (to_spec <$> gs).

Lemma lit_plain s : forallb (fun c => (32 <=? c) && (c <? 127) && negb (c =? 34) && negb (c =? 92))%N (lit s) = true -> plain (lit s).
Proof.
  intros Hs. apply Forall_forall. intros c Hc. rewrite forallb_forall in Hs. specialize (Hs c (proj1 (list_elem_of_In _ _) Hc)).
  apply andb_true_iff in Hs as [[[H1 H2]%andb_true_iff H3]%andb_true_iff H4].
  apply N.leb_le in H1. apply N.ltb_lt in H2. apply negb_true_iff, N.eqb_neq in H3, H4. unfold unescaped. lia.
Qed.

Lemma to_spec_plain g : plain (g_prefix g) -> plain (to_spec g).
Proof.
  intros Hp. unfold to_spec. destruct (g_admin g); [by apply lit_plain|].
  assert (Hr : forall l, plain l -> plain (if is_empty (g_prefix g) then l else l ++ lit ":" ++ g_prefix g)).
  { intros l Hl. destruct (is_empty _); [done|]. repeat (apply Forall_app; split); [done|by apply lit_plain|done]. }
  destruct (g_read g), (g_write g); [apply Hr; by apply lit_plain..|constructor].
Qed.

Lemma join_plain sep l : plain sep -> Forall plain l -> plain (join_with sep l).
Proof.
  intros Hs. induction 1 as [|x l Hx Hl IH]; [constructor|]. cbn. destruct l; [done|].
  repeat (apply Forall_app; split); done.
Qed.

Lemma specs_plain gs : grants_written gs -> plain (specs gs).
Proof.
  intros [_ He]. apply join_plain; [by apply lit_plain|]. apply Forall_fmap. eapply Forall_impl; [exact He|].
  intros g [_ Hp]. by apply to_spec_plain.
Qed.

Lemma specs_read gs : grants_written gs -> parse_grants (specs gs) = inl gs.
Proof. intros [Hne He]. apply grants_roundtrip; [done|]. eapply Forall_impl; [exact He|]. by intros g []. Qed.

Lemma to_toml_entry_line key gs : grants_written gs -> to_toml_entry (key, gs) = entry_line (key, specs gs).
Proof.
  intros [Hne He]. unfold to_toml_entry, entry_line, specs. cbn [fst snd].
  rewrite list_filter_all.
  - destruct gs; [done|]. cbn [fmap list_fmap]. by rewrite !app_assoc.
  - intros x (g & -> & Hg)%list_elem_of_fmap. rewrite Forall_forall in He. by apply to_spec_ok, He.
Qed.

Definition HEADER_REMARKS : list str :=
  [lit "# Written by the SightingDB management interface. Comments added";
   lit "# here are replaced the next time a key is saved."; lit "#";
   lit "# " ++ [34%N] ++ lit "<apikey>" ++ [34%N] ++ lit " = " ++ [34%N] ++ lit "<grant>[, <grant>...]" ++ [34%N];
   lit "# grant: r | w | rw [:<namespace>]  |  admin"; []].

Lemma header_remarks : Forall remark HEADER_REMARKS.
Proof.
  unfold HEADER_REMARKS. repeat (apply Forall_cons; split); [right; eexists; split; [done|]..|by left|constructor];
    (apply Forall_forall; intros c Hc; revert c Hc; apply Forall_forall, (bool_decide_unpack _); by vm_compute).
Qed.

Definition written (p : str * list Grant) : str * str := (p.1, specs p.2).

(** The text of a table is a document that says what the table says. *)
Lemma to_toml_doc a : table_written a -> acl_doc (Acl.to_toml a) (written <$> Acl.entries a).
Proof.
  intros Ha. assert (He : forall p, p ∈ Acl.entries a -> plain p.1 /\ grants_written p.2).
  { intros [k gs] Hp. apply elem_of_btree_iter in Hp. by apply Ha. }
  replace (Acl.to_toml a) with (mjoin ((fun l => l ++ [LF]) <$> HEADER_REMARKS) ++ lit "[acl]" ++ [LF]
    ++ mjoin (entry_line <$> (written <$> Acl.entries a))).
  - constructor; [apply header_remarks| |].
    + apply Forall_fmap, Forall_forall. intros p Hp. destruct (He p Hp) as [Hk Hg]. split; [done|by apply specs_plain].
    + rewrite <- list_fmap_compose. change (NoDup (btree_keys a)). apply btree_keys_NoDup.
  - unfold Acl.to_toml. rewrite !app_assoc. f_equal. f_equal. rewrite <- list_fmap_compose.
    apply list_fmap_ext. intros i [k gs] Hp. symmetry. apply to_toml_entry_line.
    apply list_elem_of_lookup_2 in Hp. by apply (He (k, gs)).
Qed.

(** ** What the next start reads *)
Lemma acl_entries_read (l : list (str * list Grant)) (acc : Acl) :
  Forall (fun p => grants_written p.2) l ->
  acl_entries acc (written <$> l) = inl (foldl (fun m p => <[p.1 := p.2]> m) acc l).
Proof.
  intros Hl. revert acc. induction Hl as [|[k gs] l Hg _ IH]; intros acc; [done|].
  rewrite fmap_cons. cbn [acl_entries written fst snd]. rewrite specs_read by done. by apply IH.
Qed.

Lemma foldl_insert (l : list (str * list Grant)) :
  foldl (fun (m : Acl) p => <[p.1 := p.2]> m) ∅ l = list_to_map (reverse l).
Proof.
  induction l as [|p l IH] using rev_ind; [done|]. rewrite foldl_snoc, reverse_snoc, IH. by destruct p.
Qed.

Section Reading.
Context `{HashOrder, ConfigFiles, !LawfulToml}.

Lemma written_map (a : Acl) : list_to_map (written <$> Acl.entries a) = specs <$> a.
Proof.
  apply map_eq. intros k. rewrite lookup_fmap. destruct (a !! k) as [gs|] eqn:E; cbn.
  - apply elem_of_list_to_map_1; [rewrite <- list_fmap_compose; apply btree_keys_NoDup|].
    apply list_elem_of_fmap. exists (k, gs). split; [done|]. by apply elem_of_btree_iter.
  - apply not_elem_of_list_to_map_1. intros ([k' gs'] & Ek & ([k2 g2] & [= -> ->] & Hin)%list_elem_of_fmap)%list_elem_of_fmap.
    cbn in Ek. subst. apply elem_of_btree_iter in Hin. congruence.
Qed.

Lemma table_read a : table_written a -> acl_of_table (specs <$> a) = inl a.
Proof.
  intros Ha. unfold acl_of_table.
  assert (Hp : hash_iter (specs <$> a) ≡ₚ written <$> map_to_list a).
  { rewrite hash_iter_perm, map_to_list_fmap. done. }
  apply Permutation_map_inv in Hp as (l & -> & Hl).
  change (acl_entries ∅ (written <$> l) = inl a). rewrite acl_entries_read.
  - rewrite foldl_insert. f_equal. rewrite <- (list_to_map_to_list (M := gmap str) a).
    apply list_to_map_proper; [|by rewrite reverse_Permutation].
    rewrite reverse_Permutation, <- Hl. apply NoDup_fst_map_to_list.
  - apply Forall_forall. intros [k gs] Hin. rewrite <- Hl in Hin. apply elem_of_map_to_list in Hin. by apply (Ha k).
Qed.

(** A text a start reads as a table *)
Definition holds_table (text : str) (a : Acl) : Prop := exists t, toml_acl text = Some t /\ acl_of_table t = inl a.

Lemma written_holds a : table_written a -> holds_table (Acl.to_toml a) a.
Proof.
  intros Ha. exists (specs <$> a). split; [|by apply table_read].
  by rewrite (toml_acl_law _ _ (to_toml_doc a Ha)), written_map.
Qed.

Lemma load_held inline path text a :
  holds_table text a -> path_exists path = true -> read_to_string path = Some text ->
  load_acl inline (Some path) = inl (Some a).
Proof. intros (t & Ht & Ha) He Hr. unfold load_acl. rewrite He, Hr. cbn. by rewrite Ht, Ha. Qed.

(** A start reads the table that was written. *)
Lemma load_written inline path a :
  table_written a -> path_exists path = true -> read_to_string path = Some (Acl.to_toml a) ->
  load_acl inline (Some path) = inl (Some a).
Proof. intros Ha. by apply load_held, written_holds. Qed.
End Reading.

(** ** What the interface accepts *)

(** An entry whose names need no escaping, which the interface does not check. *)
Definition entry_plain (e : KeyEntry) : Prop := plain (ke_key e) /\ Forall plain (ke_read e ++ ke_write e).
Definition op_plain (op : KeyOp) : Prop :=
  match op with SaveKey e => entry_plain e | DeleteKey _ => True | ReplaceKeys l => Forall entry_plain l end.

Lemma bad_namespace_None l : bad_namespace l = None -> Forall (fun p => validate_namespace p = None) l.
Proof. induction l as [|p l IH]; [done|]. cbn. destruct (validate_namespace p) eqn:E; [done|]. intros Hl. constructor; [done|by apply IH]. Qed.

Lemma entry_grants_written e : entry_validate e = None -> entry_plain e -> plain (ke_key e) /\ grants_written (to_grants e).
Proof.
  unfold entry_validate. destruct (validate_key _); [done|]. destruct (bad_namespace _) eqn:Eb; [done|].
  destruct (_ && _ && _) eqn:En; [done|]. intros _ [Hk Hp]. split; [done|].
  apply bad_namespace_None in Eb. rewrite Forall_forall in Eb, Hp. setoid_rewrite elem_of_app in Eb. setoid_rewrite elem_of_app in Hp.
  split.
  - unfold to_grants. destruct (ke_admin e); [by intros [_ [_ [=]]%app_eq_nil]%app_eq_nil|].
    destruct (ke_read e) as [|p r]; [|done]. destruct (ke_write e) as [|p r]; [done|].
    rewrite filter_cons_True by apply not_elem_of_nil. done.
  - apply Forall_forall. intros g [(p & Hi & ->)|[(p & Hi & _ & ->)|[_ ->]]]%elem_of_to_grants; cbn.
    + split; [right; split_and!; [done..|by apply validate_namespace_prefix_ok, Eb; left]|by apply Hp; left].
    + split; [right; split_and!; [done..|by apply validate_namespace_prefix_ok, Eb; right]|by apply Hp; right].
    + split; [by left|constructor].
Qed.

Lemma acl_of_written l : bad_entry l = None -> Forall entry_plain l -> table_written (acl_of l).
Proof.
  unfold acl_of. assert (H0 : table_written ∅) by apply map_Forall_empty. revert H0. generalize (∅ : Acl).
  induction l as [|e l IH]; intros a Ha; cbn; [done|]. destruct (entry_validate e) eqn:Ev; [done|].
  intros Hb [He Hl]%Forall_cons. apply IH; [|done..]. apply map_Forall_insert_2; [|done]. by apply entry_grants_written.
Qed.

Lemma decided_written s req op d :
  table_written (acl s) -> op_plain op -> decide_key s req op = inl d -> table_written (dc_acl d).
Proof.
  intros Ha Hp. destruct op as [e|k|l]; cbn [decide_key op_plain] in *.
  - unfold save_key_plan. destruct (require_admin s req); [|done]. destruct (entry_validate e) eqn:Ev; [done|].
    destruct (_ && _); [done|]. intros [= <-]. apply map_Forall_insert_2; [|done]. by apply entry_grants_written.
  - unfold delete_key_plan. destruct (require_admin s req); [|done]. destruct (negb _); [done|].
    destruct (_ =? 0); [done|]. intros [= <-]. by apply map_Forall_delete.
  - unfold replace_keys_plan. destruct (require_admin s req) as [c|]; [|done]. destruct (negb _); [done|].
    destruct (bad_entry l) eqn:Eb; [done|]. destruct (_ =? 0); [done|]. destruct (negb _); [done|].
    intros [= <-]. by apply acl_of_written.
Qed.

(** ** One server's life *)
Section Life.
Context {W : Type} `{Network W} `{Serde} `{FileSystem W} `{!LawfulFiles W} `{HashOrder, ConfigFiles, !LawfulToml} (clock : W -> Z).

(** Requests about keys, one after the other. *)
Fixpoint run_keys (h : list (HttpRequest * KeyOp)) (ws : W * SharedState) : W * SharedState :=
  match h with [] => ws | x :: r => run_keys r (run_key clock x.1 x.2 ws).1 end.

(** The file is read as the table in use, and the table can be written down. *)
Record kept (path : str) (w : W) (s : SharedState) : Prop := {
  kept_at : acl_file s = Some path;
  kept_text : exists text, file w path = Some text /\ holds_table text (acl s);
  kept_written : table_written (acl s);
  kept_admin : has_admin (acl s);
}.

Lemma run_key_kept path req op w s :
  tmp_path path <> path -> op_plain op -> kept path w s ->
  kept path (run_key clock req op (w, s)).1.1 (run_key clock req op (w, s)).1.2.
Proof.
  intros Ht Hop [Hp Hf Hw Ha]. rewrite run_key_decided. destruct (decide_key s req op) as [d|resp] eqn:Ed; [|done].
  destruct (commit_wrote clock d path w s Hp Ht) as [[Ef Es]|Ef]; [split; rewrite ?Ef, Es; done|].
  assert (Hk : acl_file (commit clock d (w, s)).1.2 = Some path /\ table_written (acl (commit clock d (w, s)).1.2)
    /\ has_admin (acl (commit clock d (w, s)).1.2)).
  { destruct (commit_outcome clock d w s) as [(_ & Ea & Ep)|[_ Es]]; [|by rewrite Es].
    rewrite Ea, Ep. split_and!; [done|by eapply decided_written|by eapply decided_has_admin]. }
  destruct Hk as (Hp' & Hw' & Ha'). split; [done| |done..]. eexists. split; [exact Ef|by apply written_holds].
Qed.

Lemma run_keys_kept path h w s :
  tmp_path path <> path -> Forall (fun x => op_plain x.2) h -> kept path w s ->
  kept path (run_keys h (w, s)).1 (run_keys h (w, s)).2.
Proof.
  intros Ht Hh. revert w s. induction Hh as [|[req op] h Hx _ IH]; intros w s Hk; [done|]. cbn [run_keys fst snd] in *.
  pose proof (run_key_kept path req op w s Ht Hx Hk) as Hk'.
  destruct (run_key clock req op (w, s)) as [[w' s'] r]. by apply IH.
Qed.
End Life.

(** ** Properties *)

(** C12: a restart grants exactly what was granted.  For a server whose table, with
    an admin key in it, is the one its ACL file holds, as after a start, whoever
    wrote that file: after any sequence of keys saved, revoked and replaced one
    after the other, whatever their outcomes and whatever the disk and the peers
    did, the next start reads from the ACL file the very table that was in use,
    and takes it as it is: nothing comes back that was revoked, and the built-in
    key does not appear.  The keys and prefixes are those that TOML need not
    escape ([table_written], [entry_plain]), without quotes, backslashes and
    control characters: others are accepted by the interface, written as they
    are, and break the file. *)
Theorem acl_survives_restart {W} `{Network W, Serde, FileSystem W, !LawfulFiles W, HashOrder, ConfigFiles, !LawfulToml}
    clock h path w s text inline legacy :
  acl_file s = Some path -> tmp_path path <> path -> file w path = Some text -> holds_table text (acl s) ->
  table_written (acl s) -> (exists key, is_admin (acl s) key = true) -> Forall (fun x => op_plain x.2) h ->
  let after := run_keys clock h (w, s) in
  path_exists path = true -> read_to_string path = file after.1 path ->
  load_acl inline (Some path) = inl (Some (acl after.2)) /\ startup_acl (Some (acl after.2)) legacy None = acl after.2.
Proof.
  intros Hp Ht Hf Htx Hw Ha Hh after He Hr.
  destruct (run_keys_kept clock path h w s Ht Hh) as [_ (text' & Hf' & Htx') _ Ha'];
    [split; [done|by exists text|done|by apply has_admin_spec]|].
  fold after in Hf', Htx', Ha'. rewrite Hf' in Hr. split; [by eapply load_held|].
  unfold startup_acl. rewrite bool_decide_eq_false_2; [done|]. intros E. apply has_admin_spec in Ha' as [k Hk].
  rewrite E in Hk. by vm_compute in Hk.
Qed.

(** ** A reader of that part of TOML *)
Definition read_entry (l : str) : option (str * str) :=
  match l with
  | 34%N :: r =>
      match split_once 34 r with
      | Some (k, rest) =>
          match strip_prefix (lit " = " ++ [34%N]) rest with
          | Some v => match split_once 34 v with Some (v', []) => Some (k, v') | _ => None end
          | None => None
          end
      | None => None
      end
  | _ => None
  end.

Fixpoint read_lines (inside : bool) (ls : list str) : list (str * str) :=
  match ls with
  | [] => []
  | l :: r =>
      if bool_decide (l = lit "[acl]") then read_lines true r
      else match (if inside then read_entry l else None) with
           | Some p => p :: read_lines inside r
           | None => read_lines inside r
           end
  end.
Definition read_acl (text : str) : option (gmap str str) := Some (list_to_map (read_lines false (split_char LF text))).

Lemma plain_no c s : plain s -> (c < 32)%N \/ c = 34%N -> c ∉ s.
Proof. intros Hs Hc Hi. unfold plain in Hs. rewrite Forall_forall in Hs. destruct (Hs c Hi) as (? & _ & ? & _). lia. Qed.

Lemma remark_no_lf l : remark l -> LF ∉ l.
Proof.
  intros [->|(r & -> & Hr)]; [apply not_elem_of_nil|]. rewrite elem_of_cons. intros [Hc|Hc]; [done|].
  rewrite Forall_forall in Hr. apply Hr in Hc. unfold LF in Hc. lia.
Qed.

Lemma split_lines ls rest :
  Forall (fun l => LF ∉ l) ls -> split_char LF (mjoin ((fun l => l ++ [LF]) <$> ls) ++ rest) = ls ++ split_char LF rest.
Proof.
  induction 1 as [|l ls Hl _ IH]; [done|]. rewrite fmap_cons. cbn [mjoin list_join].
  rewrite <- !app_assoc. cbn [app]. rewrite split_char_app by done. cbn. by f_equal.
Qed.

Lemma read_remarks ls rest : Forall remark ls -> read_lines false (ls ++ rest) = read_lines false rest.
Proof.
  induction 1 as [|l ls Hl _ IH]; [done|]. cbn. rewrite bool_decide_eq_false_2; [done|].
  by destruct Hl as [->|(r & -> & _)].
Qed.

Definition entry_text (p : str * str) : str := [34%N] ++ p.1 ++ [34%N] ++ lit " = " ++ [34%N] ++ p.2 ++ [34%N].
Lemma read_entry_text p : plain p.1 -> plain p.2 -> read_entry (entry_text p) = Some p.
Proof.
  destruct p as [k v]. intros Hk Hv. unfold entry_text, read_entry. cbn [fst snd app].
  rewrite split_once_app by (apply plain_no; auto).
  change (strip_prefix _ _) with (Some (v ++ [34%N])). cbv iota. by rewrite split_once_app by (apply plain_no; auto).
Qed.

Lemma entry_text_no_lf p : plain p.1 -> plain p.2 -> LF ∉ entry_text p.
Proof.
  intros Hk Hv. unfold entry_text. rewrite !elem_of_app.
  assert (Hl : LF ∉ lit " = ") by (apply (bool_decide_unpack _); by vm_compute).
  pose proof (plain_no LF _ Hk ltac:(left; by vm_compute)). pose proof (plain_no LF _ Hv ltac:(left; by vm_compute)).
  rewrite !list_elem_of_singleton. unfold LF in *. naive_solver.
Qed.

Lemma read_entries es :
  Forall (fun p => plain p.1 /\ plain p.2) es -> read_lines true ((entry_text <$> es) ++ [[]]) = es.
Proof.
  induction 1 as [|p es [Hk Hv] _ IH]; [by vm_compute|]. rewrite fmap_cons. cbn [app read_lines].
  rewrite bool_decide_eq_false_2 by done. rewrite read_entry_text by done. by f_equal.
Qed.

Lemma read_acl_law text es : acl_doc text es -> read_acl text = Some (list_to_map es).
Proof.
  intros [rs es' Hr He Hn]. unfold read_acl. do 2 f_equal.
  assert (El : mjoin (entry_line <$> es') = mjoin ((fun l => l ++ [LF]) <$> (entry_text <$> es')) ++ []).
  { rewrite app_nil_r, <- list_fmap_compose. f_equal. apply list_fmap_ext. intros _ p _. unfold entry_line, entry_text, compose.
    by rewrite <- !app_assoc. }
  rewrite El, split_lines by (eapply Forall_impl; [exact Hr|apply remark_no_lf]).
  rewrite read_remarks by done. set (rest := mjoin _ ++ []).
  change (lit "[acl]" ++ [LF] ++ rest) with (lit "[acl]" ++ LF :: rest).
  rewrite split_char_app by (apply (bool_decide_unpack _); by vm_compute). subst rest.
  cbn [read_lines]. rewrite bool_decide_eq_true_2 by done. rewrite split_lines.
  - by apply read_entries.
  - apply Forall_fmap. eapply Forall_impl; [exact He|]. intros p [Hk Hv]. by apply entry_text_no_lf.
Qed.

(** The same machine after a restart: what the interface left on its drive. *)
Definition drive_config (w : Drive) : ConfigFiles :=
  {| absolute p := Some p; path_exists p := bool_decide (is_Some (w !! p)); read_to_string p := w !! p;
     toml_tiers _ := None; toml_acl := read_acl; toml_tags _ := None; toml_peers _ := None; SEED := [] |}.

Lemma drive_toml w : @LawfulToml (drive_config w).
Proof. exact read_acl_law. Qed.

(** A key is saved, another revoked, and a third cannot be: it is the last. *)
Definition demo_history : list (HttpRequest * KeyOp) :=
  [(root_request, SaveKey new_entry); (root_request, DeleteKey (lit "old")); (root_request, DeleteKey (lit "root"))].

Lemma demo_table_written : table_written demo_acl.
Proof.
  assert (Hd : forall g, g = all_data \/ g = Acl.admin -> renderable g /\ plain (g_prefix g)).
  { intros g [->| ->]; (split; [|constructor]); [right; split_and!; [done..|constructor]|by left]. }
  apply map_Forall_insert_2; [|apply map_Forall_singleton]; (split; [by apply lit_plain|]);
    (split; [done|]); repeat (constructor; [apply Hd; by auto|]); constructor.
Qed.

Lemma acl_survives_restart_witness :
  let N := drive_net in let F := drive_files in let L := drive_lawful in let S := demo_serde in let O := some_order in
  let after := run_keys (fun _ : Drive => demo_time) demo_history (demo_drive, demo_server) in
  let C := drive_config after.1 in
  load_acl None (Some KEYS_FILE) = inl (Some (acl after.2))
  /\ acl after.2 = {[lit "root" := root_grants; lit "new" := [mkGrant (lit "feeds") true true false]]}.
Proof.
  intros N F L S O after C. split; [|by vm_compute].
  refine (proj1 (@acl_survives_restart Drive N S F L O C (drive_toml after.1) (fun _ => demo_time) demo_history KEYS_FILE
    demo_drive demo_server (Acl.to_toml demo_acl) None [] eq_refl _ _ _ demo_table_written _ _ _ _)).
  - by vm_compute.
  - apply lookup_singleton_eq.
  - apply (@written_holds O C (drive_toml after.1)), demo_table_written.
  - exists (lit "root"). by vm_compute.
  - repeat (constructor; [done || (split; [by apply lit_plain|repeat (constructor; [by apply lit_plain|]); constructor])|]). constructor.
  - by vm_compute.
  - done.
Defined.

(** What [entry_plain] leaves out is accepted all the same: a namespace with a
    quote in it is written as it is, and the line is not TOML any more; with a
    backslash, it is another namespace that is read back. *)
Lemma unescaped_grants_accepted :
  let quote := mkKeyEntry (lit "k") false [lit "a" ++ [34%N] ++ lit "b"] [] in
  let slash := mkKeyEntry (lit "k") false [lit "a\tb"] [] in
  entry_validate quote = None /\ entry_validate slash = None
  /\ to_toml_entry (lit "k", to_grants quote)
     = [34%N] ++ lit "k" ++ [34%N] ++ lit " = " ++ [34%N] ++ lit "r:a" ++ [34%N] ++ lit "b" ++ [34%N; LF]
  /\ to_toml_entry (lit "k", to_grants slash)
     = [34%N] ++ lit "k" ++ [34%N] ++ lit " = " ++ [34%N] ++ lit "r:a\tb" ++ [34%N; LF].
Proof. by vm_compute. Qed.
