(* ===== verification/Installing.v ===== *)
(** * Setting a server up

    Models [src/src/setup.rs] up to the carrying out of a plan, and
    [install_self_signed] of [src/src/tls.rs]: the questions of the wizard, the
    plan they make, the configuration file and service unit it produces, and the
    changes made to the file system, one fallible step after the other.

    The file system is a map from paths to files and directories, without
    symbolic links or owners.  Which operation fails, what a failed write leaves
    behind and whether a command succeeds is up to [Faults]; what the machine
    says about itself, and the certificate the [openssl] crate makes, is
    [Machine].  What is printed is left out. *)

From stdpp Require Import base numbers list strings gmap sorting pretty.
From S2P Require Import Prelude Text Paths Acl Tags Tier Namespace Disk Database Listing DnsName Peers Config.

Inductive Scope := SystemWide | CurrentUser.
Inductive Platform := Linux | MacOs.

Inductive Mode := Standalone | Node | Router | Both.
#[global] Instance scope_eq_dec : EqDecision Scope.
Proof. solve_decision. Defined.
#[global] Instance platform_eq_dec : EqDecision Platform.
Proof. solve_decision. Defined.
#[global] Instance mode_eq_dec : EqDecision Mode.
Proof. solve_decision. Defined.

Definition mode_label (m : Mode) : str :=
  match m with
  | Standalone => lit "standalone"
  | Node => lit "a node in a galaxy"
  | Router => lit "a router"
  | Both => lit "a node and a router"
  end.
Definition forwards (m : Mode) : bool := match m with Router | Both => true | _ => false end.
Definition in_galaxy (m : Mode) : bool := negb (bool_decide (m = Standalone)).

Record Plan := mkPlan {
  pl_scope : Scope;
  pl_platform : Platform;
  pl_service_user : option str;
  pl_config_dir : str;
  pl_config_path : str;
  pl_acl_path : str;
  pl_tiers_path : str;
  pl_tags_path : str;
  pl_peers_path : str;
  pl_log_config_path : str;
  pl_dbdir : str;
  pl_tls : option TlsSettings;
  pl_listen_ip : str;
  pl_listen_port : Z;
  pl_authenticate : bool;
  pl_mode : Mode;
  pl_namespaces : option (list str);
  pl_node_id : str;
  pl_admin_key : str;
  pl_binary : str;
  pl_service_path : str;
  pl_create_user : bool;
  pl_install_service : bool;
  pl_start_service : bool;
}.

(** ** The configuration file *)

(** A line of it: a remark or an empty line, the header of a table, a setting *)
Inductive TomlValue := TText (s : str) | TNumber (digits : str) | TFlag (b : bool) | TTexts (l : list str).
Inductive TomlLine := Remark (s : str) | Table (name : string) | Setting (key : string) (v : TomlValue).

Definition show_value (v : TomlValue) : str :=
  match v with
  | TText s => in_quotes s
  | TNumber digits => digits
  | TFlag b => if b then lit "true" else lit "false"
  | TTexts l => lit "[" ++ join_with (lit ", ") (in_quotes <$> l) ++ lit "]"
  end.
Definition show_line (l : TomlLine) : str :=
  match l with
  | Remark s => s
  | Table name => lit "[" ++ lit name ++ lit "]"
  | Setting key v => lit key ++ lit " = " ++ show_value v
  end.
Definition show_lines (l : list TomlLine) : str := mjoin ((fun x => show_line x ++ [LF]) <$> l).

(** Remarks as they are written, with [~] for a double quote and [^] for a dash *)
Definition remark_char (c : N) : N := if (c =? 126)%N then 34%N else if (c =? 94)%N then 8212%N else c.
Definition remarks (l : list string) : list TomlLine := (fun s => Remark (remark_char <$> lit s)) <$> l.
Definition blank : list TomlLine := [Remark []].

Section ConfigText.
Context (plan : Plan).
Local Open Scope string_scope.
Local Open Scope list_scope.

Definition head_lines : list TomlLine :=
  remarks ["# Written by `sightingdb --setup`.";
       "#";
       "# Edit freely: the program rewrites only the separate files named";
       "# below -- acl_file, tiers_file, tags_file and peers_file -- and only";
       "# when the matching thing is changed through the management interface.";
       "# Anything set directly here is read-only there, which it will say.";
       "#"]
  ++ [Remark (lit "# This server is set up as " ++ mode_label (pl_mode plan) ++ lit ".")]
  ++ blank ++ [Table "daemon"].
Definition listen_lines : list TomlLine :=
  remarks ["# Where the HTTP API listens. 127.0.0.1 answers only this";
       "# machine; 0.0.0.0 answers every interface."]
  ++ [Setting "listen_ip" (TText (pl_listen_ip plan))]
  ++ [Setting "listen_port" (TNumber (decimal (pl_listen_port plan)))]
  ++ blank
  ++ remarks ["# Require an API key on the sighting API. The management interface";
       "# always requires one, whatever this says."]
  ++ [Setting "authenticate" (TFlag (pl_authenticate plan))]
  ++ blank
  ++ remarks ["# Detaching is the service manager's job, so this stays false: it";
       "# wants a process in the foreground to supervise."]
  ++ [Setting "daemonize" (TFlag false)].
Definition tls_lines : list TomlLine :=
  blank
  ++ match pl_tls plan with
     | Some tls =>
         remarks ["# A self-signed certificate, written by --setup. Replace both";
       "# files with a real pair when you have one; nothing else changes."]
         ++ [Setting "ssl" (TFlag true); Setting "ssl_cert" (TText (tls_cert tls)); Setting "ssl_key" (TText (tls_key tls))]
     | None =>
         remarks ["# Plain HTTP. Anything on the network can read the API key as it";
       "# goes past, so this wants a trusted network or a proxy in front."]
         ++ [Setting "ssl" (TFlag false)]
     end.
Definition store_lines : list TomlLine :=
  blank
  ++ remarks ["# One file per top-level namespace lives here."]
  ++ [Setting "dbdir" (TText (pl_dbdir plan))]
  ++ blank
  ++ remarks ["# Seconds between snapshots, and on a clean shutdown as well.";
       "# There is no write-ahead log, so a crash loses up to this much."]
  ++ [Setting "snapshot_interval" (TNumber (lit "300"))]
  ++ blank
  ++ remarks ["# How often expired values are reclaimed. A value stops being";
       "# visible the moment it expires; this is only when the space";
       "# comes back."]
  ++ [Setting "sweep_interval" (TNumber (lit "60"))]
  ++ blank
  ++ remarks ["# Hourly statistics buckets kept per value. 720 is 30 days.";
       "# 0 keeps all of them, and grows one bucket per hour forever."]
  ++ [Setting "stats_retention" (TNumber (lit "720"))].
Definition record_lines : list TomlLine :=
  blank
  ++ remarks ["# How long a shadow sighting ^ the record that something was";
       "# searched for ^ is kept. 2592000 is 30 days; 0 keeps them for";
       "# ever, so `_shadow/*` grows without bound."]
  ++ [Setting "shadow_ttl" (TNumber (lit "2_592_000"))]
  ++ blank
  ++ remarks ["# Rejected values kept in memory, so";
       "# /_management/api/rejections can say which values were turned";
       "# away and why. 0 switches the record off."]
  ++ [Setting "rejection_log" (TNumber (lit "1000"))]
  ++ blank
  ++ remarks ["# Count reads and writes per top-level namespace for the management";
       "# interface's Activity view. Off makes counting a single flag check."]
  ++ [Setting "activity" (TFlag true)]
  ++ blank
  ++ remarks ["# Recent writes remembered for /_api/latest, each caller shown";
       "# those its key may read. 0 switches it off."]
  ++ [Setting "latest_writes" (TNumber (lit "10000"))].
Definition node_lines : list TomlLine :=
  blank
  ++ (if in_galaxy (pl_mode plan)
      then remarks ["# This server's name in its own counters. Sightings are counted";
       "# per server so that merging two copies adds separate";
       "# contributions rather than replaying increments.";
       "#";
       "# It must be unique in the galaxy: two servers sharing a name";
       "# would each take the other's contribution for their own."]
      else remarks ["# This server's name in its own counters. ~local~ is right for a";
       "# server on its own; give each member of a galaxy its own name."])
  ++ [Setting "node_id" (TText (pl_node_id plan))].
Definition key_lines : list TomlLine :=
  blank
  ++ remarks ["# API keys and what each may reach. Rewritten by the management";
       "# interface when a key is saved, so a new key works without a";
       "# restart."]
  ++ [Setting "acl_file" (TText (pl_acl_path plan))].
Definition tag_lines : list TomlLine :=
  blank
  ++ remarks ["# How tags are shown in the management interface: a colour and a";
       "# description each. Rewritten there when a tag is edited.";
       "# Presentation only -- a value can carry a tag nothing here";
       "# defines, and the interface lists those too so they can be";
       "# adopted. A name ending in ':' colours a whole family."]
  ++ [Setting "tags_file" (TText (pl_tags_path plan))].
Definition stored_lines : list TomlLine :=
  blank ++ [Table "storage"]
  ++ match pl_namespaces plan with
     | None =>
         remarks ["# Which namespaces this server stores. Absent means all of";
       "# them, which is what a server on its own wants.";
       "#";
       "#   namespaces = [~feeds~, ~threats~]   those subtrees only";
       "#   namespaces = []                      nothing: a pure router";
       "#";
       "# Prefixes match whole path segments, so ~feeds~ holds";
       "# feeds/misp/ips and never feeds-internal.";
       "#namespaces = [~/~]"]
     | Some [] =>
         remarks ["# This server stores no namespace of its own: it forwards every";
       "# request to the peers below. A write to a namespace no peer";
       "# holds answers 421.";
       "#";
       "# The internal namespaces ^ _all, _shadow/*, _config ^ are held";
       "# regardless, because a server cannot keep its own consensus";
       "# tally otherwise. That tally is why a router is worth putting";
       "# in front of a galaxy: ask it /r/_all?val=<value> for a";
       "# value's consensus across everything below it."]
         ++ [Setting "namespaces" (TTexts [])]
     | Some held =>
         remarks ["# Which namespaces this server stores. Prefixes match whole path";
       "# segments, so ~feeds~ holds feeds/misp/ips and never";
       "# feeds-internal. A write to anything else answers 421."]
         ++ [Setting "namespaces" (TTexts held)]
     end.
Definition tier_lines : list TomlLine :=
  blank
  ++ remarks ["# How long a top-level namespace stays in memory: hot is never";
       "# evicted, warm is dropped after warm_idle seconds untouched,";
       "# cold is read back on demand."]
  ++ [Setting "default_tier" (TText (lit "hot"))]
  ++ [Setting "warm_idle" (TNumber (lit "3600"))]
  ++ remarks ["# Rewritten by the management interface when a tier is changed."]
  ++ [Setting "tiers_file" (TText (pl_tiers_path plan))].
Definition galaxy_remarks : list TomlLine :=
  blank
  ++ remarks ["# ---------------------------------------------------------------";
       "# The other servers this one forwards to.";
       "#";
       "# Left commented out because a peer's key comes from that peer's";
       "# own ACL, which does not exist until it has been set up. Install";
       "# the other servers, create a key on each for this one, then fill";
       "# this in and restart.";
       "#";
       "# The key is the bound on what this server may do there: the";
       "# peer's own ACL decides, so a key granted ~rw:feeds~ cannot";
       "# write anywhere else however this server is configured or";
       "# compromised. Give each the narrowest grant that works.";
       "#";
       "# `namespaces` on a peer says what that peer holds, so a request";
       "# can be sent where it can be served. Absent means a full mirror.";
       "# It has to agree with that peer's own [storage] namespaces.";
       "#";
       "# Writes go to every mirror of a namespace; reads to one, chosen";
       "# by the value so the same value always comes from the same place.";
       "#";
       "# max_hops is spent on each hop and refused at zero. A peer may";
       "# itself be a router, so this is what stops a miswired cycle.";
       "# ---------------------------------------------------------------";
       "# The section is live with no peers in it, which is a valid galaxy:";
       "# peers can then be added from the management interface, without";
       "# editing this file and without a restart. The settings below are";
       "# their defaults, shown commented so they can be changed."].
Definition galaxy_lines : list TomlLine :=
  [Table "galaxy"]
  ++ remarks ["# Peers added from the management interface are written here and";
       "# take effect at once. Its own file because this one is yours: a";
       "# program that rewrote it would destroy these comments."]
  ++ [Setting "peers_file" (TText (pl_peers_path plan))]
  ++ remarks ["#max_hops = 4";
       "#health_interval = 30";
       "# Seconds between catch-up passes: a server that was down finds";
       "# what it missed and pulls it from a peer that was up. 0 switches";
       "# it off, leaving such a server behind until someone syncs it by";
       "# hand.";
       "#sync_interval = 300";
       "# Seconds between rebuilds of the consensus tally from the galaxy:";
       "# a server in front of one counts a value towards consensus when a";
       "# mirror says the sighting was new, which only ever rises. This";
       "# surveys the galaxy and puts it right. 0 switches it off.";
       "#reconcile_interval = 3600";
       "# Seconds between offering this server's keys to its peers, so one";
       "# that was down for a key change picks it up. A push goes through";
       "# the peer's own management interface, so the peer's ACL decides.";
       "# The offer is additive: a revocation made while a peer was down";
       "# does not reach it and must be repeated. 0 switches it off.";
       "#gossip_interval = 600";
       "#";
       "# One place to manage keys. The offer above is additive and cannot";
       "# carry a revocation to a server that was offline for it. Set";
       "# acl_authority on the server that owns the galaxy's keys and";
       "# acl_replaceable on each that accepts them, and the owner's offer";
       "# becomes the whole list, held exactly ^ which does remove. Both";
       "# ends must agree, and setting both on one server is refused.";
       "#acl_authority = false";
       "#acl_replaceable = false";
       "# Off for a galaxy of self-signed instances, which is what";
       "# --setup produces.";
       "#verify_tls = true"].
Definition peer_remarks : list TomlLine :=
  blank
  ++ remarks ["# A peer written into the list below is shown in the interface but";
       "# not editable there, since a change made there would last only";
       "# until the next restart. Prefer adding them above.";
       "#peers = [";
       "#  { url = ~https://node-a.example:9999~, key = ~...~ },";
       "#  { url = ~https://node-b.example:9999~, key = ~...~, namespaces = [~feeds~] },";
       "#]"].

Definition config_lines : list TomlLine :=
  head_lines ++ listen_lines ++ tls_lines ++ store_lines ++ record_lines ++ node_lines ++ key_lines ++ tag_lines
  ++ stored_lines ++ tier_lines
  ++ (if forwards (pl_mode plan) then galaxy_remarks ++ galaxy_lines ++ peer_remarks else []).
Definition config_toml : str := show_lines config_lines.
End ConfigText.

(** ** The service unit *)
Definition LAUNCHD_LABEL : str := lit "com.github.stricaud.sightingdb".
Definition LAUNCHD_LEGACY_LABEL : str := lit "com.devo.sightingdb".
Definition SERVICE_USER : str := lit "sightingdb".
Definition text_lines (l : list str) : str := mjoin ((fun x => x ++ [LF]) <$> l).
Definition LOG_CONFIG : str :=
  text_lines (lit <$> ["refresh_rate: 30 seconds"; "appenders:"; "  stdout:"; "    kind: console"; "root:"; "  level: info";
                       "  appenders:"; "    - stdout"]%string).

Definition as_written (s : string) : str := remark_char <$> lit s.
Definition tagged (tag : string) (s : str) : str := lit "<" ++ lit tag ++ lit ">" ++ s ++ lit "</" ++ lit tag ++ lit ">".
Definition service_unit (plan : Plan) : str :=
  match pl_platform plan with
  | Linux =>
      text_lines
        ((lit <$> ["# Written by `sightingdb --setup`."; "[Unit]"; "Description=SightingDB"; "After=network-online.target";
                   "Wants=network-online.target"]%string)
         ++ [[]]
         ++ [lit "[Service]"; lit "Type=exec";
             lit "ExecStart=" ++ pl_binary plan ++ lit " -c " ++ pl_config_path plan ++ lit " -l " ++ pl_log_config_path plan]
         ++ (lit <$> ["# systemd restarts it when it dies, so `kill` does not stop it:";
                      "# use `systemctl stop sightingdb`, or `sightingdb --stop`."; "Restart=on-failure"; "RestartSec=5s"]%string)
         ++ [lit "User=" ++ default (lit "%i") (pl_service_user plan)]
         ++ (lit <$> ["KillSignal=SIGTERM"; "# Long enough for the final snapshot to be written."; "TimeoutStopSec=60s";
                      "NoNewPrivileges=yes"; "PrivateTmp=yes"; "ProtectSystem=strict"; "ProtectHome=yes"]%string)
         ++ [lit "ReadWritePaths=" ++ pl_dbdir plan; []; lit "[Install]"; lit "WantedBy=multi-user.target"])
  | MacOs =>
      text_lines
        [as_written "<?xml version=~1.0~ encoding=~UTF-8~?>";
         as_written "<!DOCTYPE plist PUBLIC ~-//Apple//DTD PLIST 1.0//EN~ ~http://www.apple.com/DTDs/PropertyList-1.0.dtd~>";
         as_written "<plist version=~1.0~>"; lit "<dict>";
         lit "  <key>Label</key>" ++ tagged "string" LAUNCHD_LABEL;
         lit "  <key>ProgramArguments</key>"; lit "  <array>";
         lit "    " ++ tagged "string" (pl_binary plan);
         lit "    <string>-c</string>" ++ tagged "string" (pl_config_path plan);
         lit "    <string>-l</string>" ++ tagged "string" (pl_log_config_path plan);
         lit "  </array>"; lit "  <key>RunAtLoad</key><true/>"; lit "  <key>KeepAlive</key><true/>";
         lit "  <key>WorkingDirectory</key>" ++ tagged "string" (pl_config_dir plan);
         lit "  <key>StandardOutPath</key>" ++ tagged "string" (pl_dbdir plan ++ lit "/sightingdb.log");
         lit "  <key>StandardErrorPath</key>" ++ tagged "string" (pl_dbdir plan ++ lit "/sightingdb.err");
         lit "</dict>"; lit "</plist>"]
  end.

(** ** The machine *)
Class Machine := {
  OS : str;                            (** [std::env::consts::OS] *)
  home_dir : option str;
  current_exe : option str;
  env_user : option str;               (** [USER] in the environment *)
  id_u : option str;                   (** what [id -u] prints *)
  hostname_file : option str;          (** [/etc/hostname] *)
  hostname_command : option str;       (** what [hostname] prints *)
  random_index : nat -> nat;           (** [random_range(0..62)], call by call *)
  generated : option (str * str);      (** [tls::generate]: a certificate and its key *)
}.

Inductive SetupError :=
  | UnknownSystem
  | NoTerminal
  | NoAnswer                           (** a line could not be read *)
  | NoHome
  | NoExecutable
  | ServiceInstalled (paths : list str)
  | CouldNot (what : string) (path : str)
  | AlreadyThere (path : str)
  | NoCertificate
  | CommandFailed (command : list str)
  | DecisionFailed (path : str)
  | NotConfigured (path : str)         (** the configuration cannot be loaded *)
  | UnknownAction (action : str)
  | NoService (config_path : str).

Definition detect `{Machine} : Platform + SetupError :=
  if bool_decide (OS = lit "linux") then inl Linux else if bool_decide (OS = lit "macos") then inl MacOs else inr UnknownSystem.
Definition is_root `{Machine} : bool :=
  bool_decide (env_user = Some (lit "root")) || bool_decide (trim <$> id_u = Some (lit "0")).

Definition ALPHABET : str := lit "abcdefghijklmnopqrstuvwxyzABCDEFGHIJKLMNOPQRSTUVWXYZ0123456789".
Definition random_key `{Machine} : str := (fun i => default 0%N (ALPHABET !! random_index i)) <$> seq 0 40.

(** [split_whitespace().next()] *)
Fixpoint take_until (f : N -> bool) (s : str) : str :=
  match s with [] => [] | c :: r => if f c then [] else c :: take_until f r end.
Definition first_word (s : str) : option str :=
  match take_until is_whitespace (drop_while is_whitespace s) with [] => None | w => Some w end.

Definition name_char (c : N) : bool := is_ascii_alphanumeric c || (c =? 45)%N || (c =? 95)%N.
Definition default_node_id `{Machine} : str :=
  let raw := match hostname_file ≫= first_word with Some n => Some n | None => hostname_command ≫= first_word end in
  match raw with
  | Some name =>
      match take 64 (List.filter name_char (default name (head (split_char DOT name)))) with
      | [] => LOCAL_NODE
      | n => n
      end
  | None => LOCAL_NODE
  end.

(** ** The questions *)

(** The lines typed, [None] where one cannot be read; after the last there is
    the end of input, which reads as an empty line. *)
Definition Input := list (option str).
Definition Asking (A : Type) := Input -> (A * Input) + SetupError.
Definition asked {A} (x : A) : Asking A := fun i => inl (x, i).
Notation "'let?' x ':=' m 'in' k" := (fun i => match m i with inl (x, i') => k i' | inr e => inr e end)
  (at level 200, x name, m at level 200, k at level 200).

Definition ask (otherwise : str) : Asking str := fun i =>
  match i with
  | None :: _ => inr NoAnswer
  | Some line :: rest => inl (if is_empty (trim line) then otherwise else trim line, rest)
  | [] => inl (otherwise, [])
  end.

(** Until an answer reads.  At the end of the input the answer is the default,
    and a default that did not read would be asked for again without end. *)
Fixpoint ask_until {A} (read : str -> option A) (otherwise : str) (i : Input) : option ((A * Input) + SetupError) :=
  match i with
  | None :: _ => Some (inr NoAnswer)
  | Some line :: rest =>
      match read (if is_empty (trim line) then otherwise else trim line) with
      | Some a => Some (inl (a, rest))
      | None => ask_until read otherwise rest
      end
  | [] => match read otherwise with Some a => Some (inl (a, [])) | None => None end
  end.

Definition u16_from_str (s : str) : option Z :=
  match u64_from_str s with Some n => if bool_decide (n < 65536)%Z then Some n else None | None => None end.
Definition read_port (answer : str) : option Z := u16_from_str (trim answer).
Definition read_yes_no (answer : str) : option bool :=
  let a := to_ascii_lowercase (trim answer) in
  if bool_decide (a ∈ [lit "y"; lit "yes"]) then Some true
  else if bool_decide (a ∈ [lit "n"; lit "no"]) then Some false else None.
Definition read_mode (answer : str) : option Mode :=
  let a := trim answer in
  if bool_decide (a = lit "1") then Some Standalone else if bool_decide (a = lit "2") then Some Node
  else if bool_decide (a = lit "3") then Some Router else if bool_decide (a = lit "4") then Some Both else None.

(** The defaults all read, so each of these always returns; see [asking_ends]. *)
Definition returns {A} (o : option ((A * Input) + SetupError)) : (A * Input) + SetupError := default (inr NoAnswer) o.
Definition ask_port : Asking Z := fun i => returns (ask_until read_port (lit "9999") i).
Definition ask_yes_no (otherwise : bool) : Asking bool := fun i =>
  returns (ask_until read_yes_no (if otherwise then lit "yes" else lit "no") i).
Definition ask_mode : Asking Mode := fun i => returns (ask_until read_mode (lit "1") i).

Definition stored_prefixes (answer : str) : option (list str) :=
  match List.filter (fun part => negb (is_empty part)) ((fun part => trim_slashes (trim part)) <$> split_char 44 answer) with
  | [] => None
  | held => Some held
  end.
Definition ask_namespaces (mode : Mode) : Asking (option (list str)) :=
  match mode with
  | Standalone => asked None
  | Router => asked (Some [])
  | Node => let? answer := ask (lit "/") in asked (stored_prefixes answer)
  | Both => let? answer := ask (lit "feeds") in asked (stored_prefixes answer)
  end.

Definition choose_scope (root : bool) : Scope := if root then SystemWide else CurrentUser.

(** Where things go: the configuration, the database, the unit and the binary *)
Definition places `{Machine} (platform : Platform) (scope : Scope) : (str * str * str * str) + SetupError :=
  match scope, platform with
  | SystemWide, Linux => inl (lit "/etc/sightingdb", lit "/var/lib/sightingdb", lit "/etc/systemd/system/sightingdb.service",
                          lit "/usr/local/bin/sightingdb")
  | SystemWide, MacOs => inl (lit "/usr/local/etc/sightingdb", lit "/usr/local/var/sightingdb",
                          lit "/Library/LaunchDaemons/" ++ LAUNCHD_LABEL ++ lit ".plist", lit "/usr/local/bin/sightingdb")
  | CurrentUser, _ =>
      match home_dir with
      | None => inr NoHome
      | Some home =>
          let config_dir := path_join home (lit ".sightingdb") in
          let unit := match platform with
                      | Linux => path_join home (lit ".config/systemd/user/sightingdb.service")
                      | MacOs => path_join home (lit "Library/LaunchAgents/" ++ LAUNCHD_LABEL ++ lit ".plist")
                      end in
          match current_exe with
          | None => inr NoExecutable
          | Some exe => inl (config_dir, path_join config_dir (lit "db"), unit, exe)
          end
      end
  end.

Definition build_plan `{Machine} (platform : Platform) (scope : Scope) (root : bool) : Asking Plan :=
  match places platform scope with
  | inr e => fun _ => inr e
  | inl (config_dir, dbdir0, service_path, binary) =>
      let? mode := ask_mode in
      let? namespaces := ask_namespaces mode in
      let? node_id := (if in_galaxy mode then ask default_node_id else asked LOCAL_NODE) in
      let? listen_ip := ask (lit "127.0.0.1") in
      let? listen_port := ask_port in
      let? use_tls := ask_yes_no true in
      let? authenticate := ask_yes_no true in
      let? dbdir := ask dbdir0 in
      let? install_service := ask_yes_no true in
      let? start_service := (if (install_service : bool) then ask_yes_no true else asked false) in
      asked (mkPlan scope platform
        (if bool_decide (scope = SystemWide) && bool_decide (platform = Linux) then Some SERVICE_USER else None)
        config_dir (path_join config_dir (lit "sightingdb.toml")) (path_join config_dir (lit "acl.toml"))
        (path_join config_dir (lit "tiers.toml")) (path_join config_dir (lit "tags.toml"))
        (path_join config_dir (lit "peers.toml")) (path_join config_dir (lit "log4rs.yml")) dbdir
        (if (use_tls : bool)
         then Some (mkTls (path_join config_dir (lit "ssl/cert.pem")) (path_join config_dir (lit "ssl/key.pem"))) else None)
        listen_ip listen_port authenticate mode namespaces node_id random_key binary service_path
        (bool_decide (scope = SystemWide) && bool_decide (platform = Linux) && root) install_service start_service)
  end.

(** ** Changing the file system *)
Inductive FsNode := File (contents : str) (mode : Z) | Dir (mode : Z).

Record World := mkWorld {
  w_fs : gmap str FsNode;
  w_tick : nat;                        (** fallible operations so far *)
  w_ran : list (list str);             (** the commands run *)
  w_decided : list (str * bool);       (** what was decided about files already there *)
}.

Class Faults := {
  fails : nat -> bool;                 (** whether an operation, by its number, fails *)
  left_by : nat -> option str;         (** what a write that fails leaves in its file *)
  command_succeeds : nat -> bool;
  decides : nat -> str -> option bool; (** the answer about a file already there, [None] for an error *)
  new_file_mode : Z;                   (** [0666] less the umask, and the same for a directory *)
  new_dir_mode : Z;
}.

Definition Io (A : Type) := World -> World * (A + SetupError).
Definition done_with {A} (x : A) : Io A := fun w => (w, inl x).
Definition io_fail {A} (e : SetupError) : Io A := fun w => (w, inr e).
Definition io_bind {A B} (m : Io A) (k : A -> Io B) : Io B := fun w =>
  let r := m w in match r.2 with inl a => k a r.1 | inr e => (r.1, inr e) end.
Notation "m ';;;' k" := (io_bind m (fun _ : unit => k)) (at level 100, k at level 200, right associativity).

Definition put_node (p : str) (n : FsNode) (w : World) : World :=
  mkWorld (<[p := n]> (w_fs w)) (w_tick w) (w_ran w) (w_decided w).
Definition tick (w : World) : World := mkWorld (w_fs w) (S (w_tick w)) (w_ran w) (w_decided w).

Definition fs_exists (w : World) (p : str) : bool := match w_fs w !! p with Some _ => true | None => false end.
(** The current directory and the root are there. *)
Definition is_dir (w : World) (p : str) : bool :=
  is_empty p || bool_decide (p = [SLASH]) || match w_fs w !! p with Some (Dir _) => true | _ => false end.

(** A directory and those above it, the outermost first *)
Fixpoint up_to (fuel : nat) (p : str) : list str :=
  match fuel with
  | O => []
  | S f => if is_empty p || bool_decide (p = [SLASH]) then [] else up_to f (path_parent p) ++ [p]
  end.

Section Doing.
Context `{Machine} `{Faults}.

(** One operation that may fail: it does, or the file system is what it says,
    or it says there is an error. *)
Definition attempt (e : SetupError) (act : World -> option World) : Io unit := fun w =>
  if fails (w_tick w) then (tick w, inr e)
  else match act w with Some w' => (tick w', inl tt) | None => (tick w, inr e) end.

Definition create_dir (p : str) (w : World) : option World :=
  match w_fs w !! p with
  | Some (Dir _) => Some w
  | Some (File _ _) => None
  | None => Some (put_node p (Dir new_dir_mode) w)
  end.
Fixpoint create_dirs (l : list str) : Io unit :=
  match l with
  | [] => done_with tt
  | p :: r => attempt (CouldNot "creating" p) (create_dir p) ;;; create_dirs r
  end.
(** [fs::create_dir_all] *)
Definition create_dir_all (p : str) : Io unit := create_dirs (up_to (length p) p).

(** [fs::write]: a file that is there keeps its mode; a failed write may have
    emptied it already. *)
Definition written (p contents : str) (w : World) : option World :=
  match w_fs w !! p with
  | Some (Dir _) => None
  | Some (File _ m) => Some (put_node p (File contents m) w)
  | None => if is_dir w (path_parent p) then Some (put_node p (File contents new_file_mode) w) else None
  end.
Definition fs_write (p contents : str) : Io unit := fun w =>
  if fails (w_tick w) then
    (tick (match left_by (w_tick w) with Some torn => default w (written p torn w) | None => w end), inr (CouldNot "writing" p))
  else match written p contents w with
       | Some w' => (tick w', inl tt)
       | None => (tick w, inr (CouldNot "writing" p))
       end.

(** [set_permissions] *)
Definition with_mode (p : str) (mode : Z) (w : World) : option World :=
  match w_fs w !! p with
  | Some (File c _) => Some (put_node p (File c mode) w)
  | Some (Dir _) => Some (put_node p (Dir mode) w)
  | None => None
  end.
Definition set_mode (p : str) (mode : Z) : Io unit := attempt (CouldNot "setting the mode of" p) (with_mode p mode).

Definition write_file (p contents : str) (mode : Z) : Io unit :=
  create_dir_all (path_parent p) ;;; fs_write p contents ;;; set_mode p mode.

Definition note_decision (p : str) (b : bool) (w : World) : World :=
  mkWorld (w_fs w) (S (w_tick w)) (w_ran w) (w_decided w ++ [(p, b)]).
Definition decide_replace (p : str) : Io bool := fun w =>
  match decides (w_tick w) p with
  | Some b => (note_decision p b w, inl b)
  | None => (tick w, inr (DecisionFailed p))
  end.
Definition write_unless_kept (p contents : str) (mode : Z) : Io unit := fun w =>
  if fs_exists w p then io_bind (decide_replace p) (fun b => if b : bool then write_file p contents mode else done_with tt) w
  else write_file p contents mode w.

Definition run_command (command : list str) : Io unit := fun w =>
  (mkWorld (w_fs w) (S (w_tick w)) (w_ran w ++ [command]) (w_decided w),
   if command_succeeds (w_tick w) then inl tt else inr (CommandFailed command)).

(** A command whose failure is an answer too *)
Definition try_command (command : list str) : Io bool := fun w =>
  let r := run_command command w in (r.1, inl (match r.2 with inl _ => true | inr _ => false end)).
Definition create_service_user : Io unit :=
  io_bind (try_command [lit "id"; SERVICE_USER]) (fun there =>
    if there : bool then done_with tt
    else run_command (lit <$> ["useradd"; "--system"; "--no-create-home"; "--shell"; "/usr/sbin/nologin"; "sightingdb"]%string)).
Definition chown (p user : str) : Io unit := run_command [lit "chown"; lit "-R"; user ++ lit ":" ++ user; p].

(** [tls::write_private]: the file is made with its mode, and is not replaced *)
Definition created_private (p contents : str) (w : World) : option World :=
  match w_fs w !! p with
  | Some _ => None
  | None => if is_dir w (path_parent p) then Some (put_node p (File contents 384) w) else None
  end.
Definition write_private (p contents : str) : Io unit :=
  create_dir_all (path_parent p) ;;; attempt (CouldNot "writing" p) (created_private p contents).
Definition install_self_signed (tls : TlsSettings) : Io unit := fun w =>
  if fs_exists w (tls_cert tls) then (w, inr (AlreadyThere (tls_cert tls)))
  else if fs_exists w (tls_key tls) then (w, inr (AlreadyThere (tls_key tls)))
  else match generated with
       | None => (w, inr NoCertificate)
       | Some (certificate, key) =>
           (write_private (tls_key tls) key ;;; create_dir_all (path_parent (tls_cert tls)) ;;; fs_write (tls_cert tls) certificate) w
       end.

(** [fs::copy] copies the mode too. *)
Definition copied (from p : str) (w : World) : option World :=
  match w_fs w !! from, w_fs w !! p with
  | Some (File c m), Some (File _ _) => Some (put_node p (File c m) w)
  | Some (File c m), None => if is_dir w (path_parent p) then Some (put_node p (File c m) w) else None
  | _, _ => None
  end.
Definition install_binary (plan : Plan) : Io unit :=
  match current_exe with
  | None => io_fail NoExecutable
  | Some current =>
      if bool_decide (current = pl_binary plan) then done_with tt
      else create_dir_all (path_parent (pl_binary plan)) ;;; attempt (CouldNot "copying the binary to" (pl_binary plan)) (copied current (pl_binary plan))
           ;;; set_mode (pl_binary plan) 493
  end.

Definition uid : str := default [] (trim <$> id_u).
Definition start (plan : Plan) : Io unit :=
  match pl_platform plan with
  | Linux =>
      let user_flag := if bool_decide (pl_scope plan = CurrentUser) then [lit "--user"] else [] in
      run_command ([lit "systemctl"] ++ user_flag ++ [lit "daemon-reload"])
      ;;; run_command ([lit "systemctl"] ++ user_flag ++ [lit "enable"; lit "--now"; lit "sightingdb"])
  | MacOs =>
      let domain := if bool_decide (pl_scope plan = CurrentUser) then lit "gui/" ++ uid else lit "system" in
      io_bind (try_command [lit "launchctl"; lit "bootout"; domain ++ lit "/" ++ LAUNCHD_LABEL])
        (fun _ => run_command [lit "launchctl"; lit "bootstrap"; domain; pl_service_path plan])
  end.

(** [when] something is asked for *)
Definition io_when (b : bool) (m : Io unit) : Io unit := if b then m else done_with tt.

(** The keys, if there are none; whether they were written *)
Definition install_keys (plan : Plan) : Io bool := fun w =>
  if fs_exists w (pl_acl_path plan) then (w, inl false)
  else io_bind (write_file (pl_acl_path plan) (to_toml (grant_full ∅ (pl_admin_key plan))) 384) (fun _ => done_with true) w.
Definition install_certificate (plan : Plan) : Io unit := fun w =>
  match pl_tls plan with
  | Some tls => if fs_exists w (tls_cert tls) || fs_exists w (tls_key tls) then (w, inl tt) else install_self_signed tls w
  | None => (w, inl tt)
  end.
Definition hand_over (plan : Plan) : Io unit :=
  match pl_service_user plan with
  | Some user => io_when (pl_create_user plan) (chown (pl_dbdir plan) user ;;; chown (pl_config_dir plan) user)
  | None => done_with tt
  end.
Definition install_service (plan : Plan) : Io unit :=
  io_when (pl_install_service plan)
    (install_binary plan ;;; write_unless_kept (pl_service_path plan) (service_unit plan) 420
     ;;; io_when (pl_start_service plan) (start plan)).

(** [apply]: whether a new admin key was written *)
Definition apply (plan : Plan) : Io bool :=
  io_when (pl_create_user plan) create_service_user
  ;;; create_dir_all (pl_config_dir plan) ;;; create_dir_all (pl_dbdir plan)
  ;;; write_unless_kept (pl_config_path plan) (config_toml plan) 416
  ;;; write_unless_kept (pl_log_config_path plan) LOG_CONFIG 420
  ;;; io_bind (install_keys plan) (fun wrote_admin_key =>
        install_certificate plan
        ;;; set_mode (pl_dbdir plan) 488 ;;; set_mode (pl_config_dir plan) 488
        ;;; hand_over plan ;;; install_service plan ;;; done_with wrote_admin_key).
End Doing.
