(* ===== verification/InstallFacts.v ===== *)
(** * What setting a server up leaves

    Over [Installing]: that carrying out a plan replaces no file it was not told
    to replace, wherever it fails; that a new key is where the server will look
    for it; and that the configuration it writes is one the server accepts and
    that says what the plan says. *)

From stdpp Require Import base numbers list strings gmap sorting pretty.
From S2P Require Import Prelude Text Paths Acl Tags Tier Namespace Disk Database Listing DnsName Peers Config ConfigFacts Installing.

(** ** Questions end *)
Lemma asking_ends {A} (read : str -> option A) otherwise i :
  is_Some (read otherwise) -> is_Some (ask_until read otherwise i).
Proof.
  intros [a Ha]. induction i as [|[line|] i IH]; cbn; [rewrite Ha; by eexists| |by eexists].
  case_match; [eexists; reflexivity|exact IH].
Qed.

(** ** Files that are kept *)

(** From one state to the next: files are as they were, but for some paths and
    those it was decided to replace; directories stay directories. *)
Record kept (E : str -> Prop) (w w' : World) : Prop := {
  kept_file p c m : w_fs w !! p = Some (File c m) ->
    w_fs w' !! p = Some (File c m)
    \/ (exists c' m', w_fs w' !! p = Some (File c' m')) /\ (E p \/ (p, true) ∈ w_decided w');
  kept_dir p m : w_fs w !! p = Some (Dir m) -> exists m', w_fs w' !! p = Some (Dir m');
  kept_decided : w_decided w `prefix_of` w_decided w';
}.

Lemma kept_refl E w : kept E w w.
Proof. split; [by left|by eexists|done]. Qed.

Lemma kept_trans E w w' w'' : kept E w w' -> kept E w' w'' -> kept E w w''.
Proof.
  intros [F1 D1 P1] [F2 D2 P2]. split.
  - assert (Hin : forall p, (p, true) ∈ w_decided w' -> (p, true) ∈ w_decided w'').
    { intros p Hp. destruct P2 as [l ->]. apply elem_of_app. by left. }
    intros p c m [Hp|[(c' & m' & Hp) He]]%F1.
    + by apply F2.
    + right. split; [|naive_solver]. destruct (F2 _ _ _ Hp) as [Hp'|[Hp' _]]; [by do 2 eexists|done].
  - intros p m [m' Hm]%D1. by eapply D2.
  - by etrans.
Qed.

Lemma kept_mono (E E' : str -> Prop) w w' : (forall p, E p -> E' p) -> kept E w w' -> kept E' w w'.
Proof. intros HE [F D P]. split; [|done..]. intros p c m Hp. destruct (F p c m Hp); naive_solver. Qed.

(** A path of which it turns out that there was no file there, or that it was to
    be replaced, needs no exception. *)
Lemma kept_except (E : str -> Prop) q w w' :
  kept (fun p => E p \/ p = q) w w' ->
  (forall c m, w_fs w !! q <> Some (File c m)) \/ (q, true) ∈ w_decided w' -> kept E w w'.
Proof.
  intros [F D P] Hq. split; [|done..]. intros p c m Hp. destruct (F p c m Hp) as [?|[He [[?| ->]|?]]]; [by left|naive_solver..].
Qed.

Lemma kept_put E p n w :
  (forall c m, w_fs w !! p = Some (File c m) -> E p /\ exists c' m', n = File c' m') ->
  (forall m, w_fs w !! p = Some (Dir m) -> exists m', n = Dir m') -> kept E w (put_node p n w).
Proof.
  intros HF HD. split; cbn; [| |done].
  - intros q c m Hq. destruct (decide (q = p)) as [->|Hne]; [|left; by rewrite lookup_insert_ne].
    destruct (HF c m Hq) as [He (c' & m' & ->)]. right. rewrite lookup_insert_eq. eauto.
  - intros q m Hq. destruct (decide (q = p)) as [->|Hne]; [|rewrite lookup_insert_ne by done; by eexists].
    destruct (HD m Hq) as [m' ->]. rewrite lookup_insert_eq. by eexists.
Qed.

Definition same_files (w w' : World) : Prop := w_fs w' = w_fs w /\ w_decided w `prefix_of` w_decided w'.
Lemma kept_same E w w' : same_files w w' -> kept E w w'.
Proof. intros [Hf Hd]. split; rewrite ?Hf; [by left|by eexists|done]. Qed.

(** An operation that keeps *)
Definition keeps {A} (E : str -> Prop) (m : Io A) : Prop := forall w, kept E w (m w).1.

Lemma keeps_then {A B} E (m : Io A) (k : A -> Io B) : keeps E m -> (forall a, keeps E (k a)) -> keeps E (io_bind m k).
Proof.
  intros Hm Hk w. unfold io_bind. specialize (Hm w). destruct (m w) as [w' [a|e]]; cbn in *; [|done].
  eapply kept_trans; [done|apply Hk].
Qed.
Lemma keeps_done {A} E (x : A) : keeps E (done_with x).
Proof. intros w. apply kept_refl. Qed.
Lemma keeps_when E b m : keeps E m -> keeps E (io_when b m).
Proof. intros Hm. destruct b; [done|apply keeps_done]. Qed.
Lemma keeps_mono {A} (E E' : str -> Prop) (m : Io A) : (forall p, E p -> E' p) -> keeps E m -> keeps E' m.
Proof. intros HE Hm w. by eapply kept_mono. Qed.

Section Kept.
Context `{Machine} `{Faults}.

Lemma keeps_attempt E e act : (forall w w', act w = Some w' -> kept E w w') -> keeps E (attempt e act).
Proof.
  intros Ha w. unfold attempt. destruct (fails _); [by apply kept_same|]. destruct (act w) as [w'|] eqn:Ew; [|by apply kept_same].
  cbn. eapply kept_trans; [by apply Ha|]. by apply kept_same.
Qed.

Lemma keeps_create_dirs E l : keeps E (create_dirs l).
Proof.
  induction l as [|p l IH]; [apply keeps_done|]. cbn [create_dirs]. apply keeps_then; [|done]. apply keeps_attempt.
  intros w w'. unfold create_dir. destruct (w_fs w !! p) as [[c m|m]|] eqn:E1; [done|intros [= <-]; apply kept_refl|].
  intros [= <-]. apply kept_put; rewrite E1; done.
Qed.
Lemma keeps_create_dir_all E p : keeps E (create_dir_all p).
Proof. apply keeps_create_dirs. Qed.

Lemma written_kept p c w w' : written p c w = Some w' -> kept (eq p) w w'.
Proof.
  unfold written. destruct (w_fs w !! p) as [[c0 m|m]|] eqn:E1; [intros [= <-]|done|].
  - apply kept_put; rewrite E1; [|done]. intros ? ? _. split; [done|by do 2 eexists].
  - destruct (is_dir _ _); [|done]. intros [= <-]. apply kept_put; rewrite E1; done.
Qed.
Lemma keeps_write p c : keeps (eq p) (fs_write p c).
Proof.
  intros w. unfold fs_write. destruct (fails _); cbn [fst].
  - destruct (left_by _) as [torn|]; [|by apply kept_same]. destruct (written p torn w) as [w'|] eqn:E1; cbn [default from_option id];
      [|by apply kept_same]. eapply kept_trans; [by eapply written_kept|by apply kept_same].
  - destruct (written p c w) as [w'|] eqn:E1; [|by apply kept_same].
    eapply kept_trans; [by eapply written_kept|by apply kept_same].
Qed.

Lemma keeps_set_mode p m : keeps (eq p) (set_mode p m).
Proof.
  apply keeps_attempt. intros w w'. unfold with_mode. destruct (w_fs w !! p) as [[c0 m0|m0]|] eqn:E1; intros [= <-];
    apply kept_put; rewrite E1; try done; intros; eauto.
Qed.
Lemma keeps_write_file p c m : keeps (eq p) (write_file p c m).
Proof. apply keeps_then; [apply keeps_create_dir_all|intros _]. apply keeps_then; [apply keeps_write|intros _; apply keeps_set_mode]. Qed.

Lemma keeps_command E command : keeps E (run_command command).
Proof. intros w. by apply kept_same. Qed.
Lemma keeps_try E command : keeps E (try_command command).
Proof. intros w. by apply kept_same. Qed.
End Kept.

#[export] Hint Resolve keeps_done keeps_create_dir_all keeps_command keeps_try keeps_when : setup.

Section Applying.
Context `{Machine} `{Faults}.

(** A file written where it was decided to, or where there was none *)
Lemma keeps_write_unless E p c m : keeps E (write_unless_kept p c m).
Proof.
  intros w. unfold write_unless_kept, fs_exists. destruct (w_fs w !! p) as [n|] eqn:Ep.
  - unfold io_bind, decide_replace. destruct (decides _ _) as [b|]; cbn [fst snd]; [|by apply kept_same].
    assert (Hn : kept E w (note_decision p b w)) by (apply kept_same; split; [done|by eexists]).
    destruct b; [|exact Hn]. eapply kept_trans; [exact Hn|]. eapply (kept_except _ p).
    + eapply kept_mono; [|apply keeps_write_file]. intros q <-. by right.
    + right. destruct (keeps_write_file p c m (note_decision p true w)) as [_ _ [l ->]].
      apply elem_of_app. left. cbn. apply elem_of_app. right. by apply list_elem_of_singleton.
  - eapply (kept_except _ p); [eapply kept_mono; [|apply keeps_write_file]; intros q <-; by right|]. left. congruence.
Qed.

Lemma keeps_install_keys E plan : keeps E (install_keys plan).
Proof.
  intros w. unfold install_keys, fs_exists. destruct (w_fs w !! _) eqn:Ep; [apply kept_refl|].
  eapply (kept_except _ (pl_acl_path plan)); [|left; congruence].
  eapply kept_mono; [|apply (keeps_then _ _ _ (keeps_write_file _ _ _)); intros; apply keeps_done]. intros q <-. by right.
Qed.

(** Where nothing is there to begin with, a sequence may be exempted. *)
Lemma keeps_private p c : keeps (eq p) (write_private p c).
Proof.
  apply keeps_then; [apply keeps_create_dir_all|intros _]. apply keeps_attempt. intros w w'. unfold created_private.
  destruct (w_fs w !! p) eqn:Ep; [done|]. destruct (is_dir _ _); [|done]. intros [= <-]. apply kept_put; rewrite Ep; done.
Qed.

Lemma keeps_install_self_signed E tls : keeps E (install_self_signed tls).
Proof.
  intros w. unfold install_self_signed, fs_exists. destruct (w_fs w !! tls_cert tls) eqn:Ec; [apply kept_refl|].
  destruct (w_fs w !! tls_key tls) eqn:Ek; [apply kept_refl|]. destruct generated as [[certificate key]|]; [|apply kept_refl].
  apply (kept_except _ (tls_cert tls)); [|left; congruence]. apply (kept_except _ (tls_key tls)); [|left; congruence].
  apply keeps_then; [eapply keeps_mono, keeps_private|intros _; apply keeps_then; [auto with setup|intros _]];
    [intros q <-; by right|]. eapply keeps_mono, keeps_write. intros q <-. left. by right.
Qed.

Lemma keeps_install_certificate E plan : keeps E (install_certificate plan).
Proof.
  intros w. unfold install_certificate. destruct (pl_tls plan) as [tls|]; [|apply kept_refl].
  destruct (_ || _); [apply kept_refl|apply keeps_install_self_signed].
Qed.

Lemma keeps_install_binary plan : keeps (eq (pl_binary plan)) (install_binary plan).
Proof.
  unfold install_binary. destruct current_exe as [current|]; [|intros w; apply kept_refl].
  case_bool_decide; [auto with setup|]. apply keeps_then; [auto with setup|intros _].
  apply keeps_then; [|intros _; apply keeps_set_mode]. apply keeps_attempt. intros w w'. unfold copied.
  destruct (w_fs w !! current) as [[c m|m]|]; [|by destruct (w_fs w !! pl_binary plan) as [[]|]|done].
  destruct (w_fs w !! pl_binary plan) as [[c0 m0|m0]|] eqn:Eb; [intros [= <-]|done|destruct (is_dir _ _); [intros [= <-]|done]];
    apply kept_put; rewrite Eb; try done. intros ? ? _. eauto.
Qed.

Lemma keeps_start E plan : keeps E (start plan).
Proof. unfold start. destruct (pl_platform plan); apply keeps_then; auto with setup. Qed.

(** What may be replaced without being asked for: the binary of a service *)
Definition binary_of (plan : Plan) (p : str) : Prop := pl_install_service plan = true /\ p = pl_binary plan.

Lemma keeps_install_service plan : keeps (binary_of plan) (install_service plan).
Proof.
  unfold install_service. destruct (pl_install_service plan) eqn:Ei; [|apply keeps_done]. cbn [io_when].
  apply keeps_then; [eapply keeps_mono, keeps_install_binary; by intros q <-|intros _].
  apply keeps_then; [apply keeps_write_unless|intros _]. apply keeps_when, keeps_start.
Qed.

Lemma keeps_hand_over E plan : keeps E (hand_over plan).
Proof. unfold hand_over, chown. destruct (pl_service_user plan); [|auto with setup]. apply keeps_when, keeps_then; auto with setup. Qed.

Lemma keeps_user E : keeps E create_service_user.
Proof. apply keeps_then; [auto with setup|]. intros []; auto with setup. Qed.

(** ** Directories made are directories *)
Lemma create_dirs_last l p w :
  (create_dirs (l ++ [p]) w).2 = inl tt -> exists m, w_fs (create_dirs (l ++ [p]) w).1 !! p = Some (Dir m).
Proof.
  revert w. induction l as [|q l IH]; intros w; cbn [create_dirs app]; unfold io_bind, attempt.
  - destruct (fails _); [done|]. unfold create_dir. destruct (w_fs w !! p) as [[c m|m]|] eqn:Ep; [done|..]; cbn.
    + intros _. by exists m.
    + intros _. eexists. apply lookup_insert_eq.
  - destruct (fails _); [done|]. destruct (create_dir q w) as [w'|]; [|done]. cbn [fst snd]. apply IH.
Qed.

Lemma create_dir_all_dir p w :
  p <> [] -> p <> [SLASH] -> (create_dir_all p w).2 = inl tt ->
  (exists m, w_fs (create_dir_all p w).1 !! p = Some (Dir m)) /\ forall c m, w_fs w !! p <> Some (File c m).
Proof.
  intros Hn Hs Hok. assert (Hd : exists m, w_fs (create_dir_all p w).1 !! p = Some (Dir m)).
  { unfold create_dir_all in *. destruct p as [|x p]; [done|]. cbn [length up_to is_empty orb] in *.
    rewrite bool_decide_eq_false_2 in * by done. by apply create_dirs_last. }
  split; [done|]. intros c m Hf. destruct Hd as [m' Hd].
  destruct (keeps_create_dir_all (fun _ => False) p w) as [F _ _]. destruct (F _ _ _ Hf) as [?|[(? & ? & ?) _]]; congruence.
Qed.

(** ** The plan as a whole *)

(** What follows once the directories are there *)
Definition after_keys (plan : Plan) (wrote : bool) : Io bool :=
  install_certificate plan ;;; set_mode (pl_dbdir plan) 488 ;;; set_mode (pl_config_dir plan) 488
  ;;; hand_over plan ;;; install_service plan ;;; done_with wrote.
Definition after_dirs (plan : Plan) : Io bool :=
  write_unless_kept (pl_config_path plan) (config_toml plan) 416
  ;;; write_unless_kept (pl_log_config_path plan) LOG_CONFIG 420 ;;; io_bind (install_keys plan) (after_keys plan).

Definition exempt (plan : Plan) (p : str) : Prop := (binary_of plan p \/ p = pl_dbdir plan) \/ p = pl_config_dir plan.

Lemma keeps_after_keys plan wrote : keeps (exempt plan) (after_keys plan wrote).
Proof.
  apply keeps_then; [apply keeps_install_certificate|intros _].
  apply keeps_then; [eapply keeps_mono, keeps_set_mode; intros q <-; left; by right|intros _].
  apply keeps_then; [eapply keeps_mono, keeps_set_mode; intros q <-; by right|intros _].
  apply keeps_then; [apply keeps_hand_over|intros _].
  apply keeps_then; [eapply keeps_mono, keeps_install_service; intros q Hq; left; by left|auto with setup].
Qed.
Lemma keeps_after_dirs plan : keeps (exempt plan) (after_dirs plan).
Proof.
  apply keeps_then; [apply keeps_write_unless|intros _]. apply keeps_then; [apply keeps_write_unless|intros _].
  apply keeps_then; [apply keeps_install_keys|apply keeps_after_keys].
Qed.

(** The root and the current directory are not files. *)
Definition rooted (w : World) : Prop := w_fs w !! [] = None /\ w_fs w !! [SLASH] = None.
Definition no_file (w : World) (p : str) : Prop := forall c m, w_fs w !! p <> Some (File c m).

Lemma no_file_before E w w' p : kept E w w' -> no_file w' p -> no_file w p.
Proof. intros [F _ _] Hn c m Hf. destruct (F _ _ _ Hf) as [Hw|[(c' & m' & Hw) _]]; by apply Hn in Hw. Qed.

Lemma made_no_file E w0 w p : rooted w0 -> kept E w0 w -> (create_dir_all p w).2 = inl tt -> no_file w0 p.
Proof.
  intros [R1 R2] Hk Hok. destruct (decide (p = [])) as [->|Hn]; [intros c m; congruence|].
  destruct (decide (p = [SLASH])) as [->|Hs]; [intros c m; congruence|].
  eapply no_file_before; [exact Hk|]. exact (proj2 (create_dir_all_dir p w Hn Hs Hok)).
Qed.

Lemma apply_kept plan w : rooted w -> kept (binary_of plan) w (apply plan w).1.
Proof.
  intros Hr. change (apply plan) with (io_when (pl_create_user plan) create_service_user ;;; create_dir_all (pl_config_dir plan)
    ;;; create_dir_all (pl_dbdir plan) ;;; after_dirs plan). unfold io_bind at 1.
  assert (K1 : forall E, kept E w (io_when (pl_create_user plan) create_service_user w).1) by (intros; apply keeps_when, keeps_user).
  destruct (io_when _ _ w) as [w1 [[]|e]]; cbn [fst snd] in *; [|apply K1]. unfold io_bind at 1.
  assert (K2 : forall E, kept E w (create_dir_all (pl_config_dir plan) w1).1).
  { intros E. eapply kept_trans; [apply K1|apply keeps_create_dir_all]. }
  pose proof (made_no_file (fun _ => False) w w1 (pl_config_dir plan) Hr (K1 _)) as N1.
  destruct (create_dir_all _ w1) as [w2 [[]|e]]; cbn [fst snd] in *; [|apply K2]. unfold io_bind at 1.
  assert (K3 : forall E, kept E w (create_dir_all (pl_dbdir plan) w2).1).
  { intros E. eapply kept_trans; [apply K2|apply keeps_create_dir_all]. }
  pose proof (made_no_file (fun _ => False) w w2 (pl_dbdir plan) Hr (K2 _)) as N2.
  destruct (create_dir_all _ w2) as [w3 [[]|e]]; cbn [fst snd] in *; [|apply K3].
  apply (kept_except _ (pl_dbdir plan)); [|left; by apply N2]. apply (kept_except _ (pl_config_dir plan)); [|left; by apply N1].
  eapply kept_trans; [apply K3|apply keeps_after_dirs].
Qed.

(** *** What is asked about *)
Definition asks {A} (L : list str) (m : Io A) : Prop :=
  forall w, exists l, w_decided (m w).1 = w_decided w ++ l /\ Forall (fun d => d.1 ∈ L) l.

Lemma asks_none {A} L (m : Io A) : (forall w, w_decided (m w).1 = w_decided w) -> asks L m.
Proof. intros Hm w. exists []. by rewrite app_nil_r. Qed.
Lemma asks_bind {A B} L (m : Io A) (k : A -> Io B) : asks L m -> (forall a, asks L (k a)) -> asks L (io_bind m k).
Proof.
  intros Hm Hk w. unfold io_bind. destruct (Hm w) as (l & El & Hl). destruct (m w) as [w' [a|e]]; cbn [fst snd] in *; [|by exists l].
  destruct (Hk a w') as (l' & El' & Hl'). exists (l ++ l'). rewrite El', El, app_assoc. split; [done|by apply Forall_app].
Qed.
Lemma asks_attempt L e act : (forall w w', act w = Some w' -> w_decided w' = w_decided w) -> asks L (attempt e act).
Proof.
  intros Ha. apply asks_none. intros w. unfold attempt. destruct (fails _); [done|]. destruct (act w) as [w'|] eqn:E; [|done].
  by apply Ha in E.
Qed.
Lemma asks_create_dir_all L p : asks L (create_dir_all p).
Proof.
  unfold create_dir_all. induction (up_to _ p) as [|q l IH]; [by apply asks_none|]. apply asks_bind; [|done].
  apply asks_attempt. intros w w'. unfold create_dir. destruct (w_fs w !! q) as [[]|]; by intros [= <-].
Qed.
Lemma written_decided p c w w' : written p c w = Some w' -> w_decided w' = w_decided w.
Proof. unfold written. destruct (w_fs w !! p) as [[]|]; [by intros [= <-]|done|]. by destruct (is_dir _ _); [intros [= <-]|]. Qed.
Lemma asks_write L p c : asks L (fs_write p c).
Proof.
  apply asks_none. intros w. unfold fs_write. destruct (fails _); cbn [fst].
  - destruct (left_by _) as [torn|]; [|done]. destruct (written p torn w) eqn:E; [|done]. by apply written_decided in E.
  - destruct (written p c w) eqn:E; [|done]. by apply written_decided in E.
Qed.
Lemma asks_set_mode L p m : asks L (set_mode p m).
Proof. apply asks_attempt. intros w w'. unfold with_mode. destruct (w_fs w !! p) as [[]|]; by intros [= <-]. Qed.
Lemma asks_write_file L p c m : asks L (write_file p c m).
Proof. apply asks_bind; [apply asks_create_dir_all|intros _]. apply asks_bind; [apply asks_write|intros _; apply asks_set_mode]. Qed.
Lemma asks_write_unless L p c m : p ∈ L -> asks L (write_unless_kept p c m).
Proof.
  intros Hp w. unfold write_unless_kept. destruct (fs_exists w p); [|apply asks_write_file].
  apply (asks_bind L (decide_replace p)); [|intros []; [apply asks_write_file|by apply asks_none]].
  clear w. intros w. unfold decide_replace. destruct (decides _ _) as [b|]; [|exists []; by rewrite app_nil_r].
  exists [(p, b)]. split; [done|]. by apply Forall_singleton.
Qed.
Lemma asks_install_keys L plan : asks L (install_keys plan).
Proof.
  intros w. unfold install_keys. destruct (fs_exists _ _); [exists []; by rewrite app_nil_r|].
  apply asks_bind; [apply asks_write_file|]. intros []. by apply asks_none.
Qed.
Lemma asks_install_certificate L plan : asks L (install_certificate plan).
Proof.
  intros w. unfold install_certificate, install_self_signed. destruct (pl_tls plan) as [tls|]; [|exists []; by rewrite app_nil_r].
  destruct (_ || _); [exists []; by rewrite app_nil_r|]. destruct (fs_exists _ _); [exists []; by rewrite app_nil_r|].
  destruct (fs_exists _ _); [exists []; by rewrite app_nil_r|]. destruct generated as [[]|]; [|exists []; by rewrite app_nil_r].
  apply asks_bind; [apply asks_bind; [apply asks_create_dir_all|intros _; apply asks_attempt]|intros _].
  - clear w. intros w w'. unfold created_private. destruct (w_fs w !! _); [done|]. by destruct (is_dir _ _); [intros [= <-]|].
  - apply asks_bind; [apply asks_create_dir_all|intros _; apply asks_write].
Qed.
Lemma asks_install_binary L plan : asks L (install_binary plan).
Proof.
  unfold install_binary. destruct current_exe as [current|]; [|by apply asks_none]. case_bool_decide; [by apply asks_none|].
  apply asks_bind; [apply asks_create_dir_all|intros _]. apply asks_bind; [|intros _; apply asks_set_mode].
  apply asks_attempt. intros w w'. unfold copied. destruct (w_fs w !! current) as [[]|], (w_fs w !! pl_binary plan) as [[]|]; try done;
    [by intros [= <-]|]. by destruct (is_dir _ _); [intros [= <-]|].
Qed.
Lemma asks_start L plan : asks L (start plan).
Proof. unfold start. destruct (pl_platform plan); apply asks_bind; intros; by apply asks_none. Qed.

Lemma asks_apply plan : asks [pl_config_path plan; pl_log_config_path plan; pl_service_path plan] (apply plan).
Proof.
  apply asks_bind; [destruct (pl_create_user plan); [apply asks_bind; [by apply asks_none|intros []; by apply asks_none]|by apply asks_none]|intros _].
  do 2 (apply asks_bind; [apply asks_create_dir_all|intros _]).
  apply asks_bind; [apply asks_write_unless; set_solver|intros _]. apply asks_bind; [apply asks_write_unless; set_solver|intros _].
  apply asks_bind; [apply asks_install_keys|intros wrote]. apply asks_bind; [apply asks_install_certificate|intros _].
  do 2 (apply asks_bind; [apply asks_set_mode|intros _]). apply asks_bind; [|intros _].
  { unfold hand_over. destruct (pl_service_user plan); [|by apply asks_none]. destruct (pl_create_user plan); [|by apply asks_none].
    apply asks_bind; intros; by apply asks_none. }
  apply asks_bind; [|intros _; by apply asks_none]. unfold install_service. destruct (pl_install_service plan); [|by apply asks_none].
  apply asks_bind; [apply asks_install_binary|intros _]. apply asks_bind; [apply asks_write_unless; set_solver|intros _].
  destruct (pl_start_service plan); [apply asks_start|by apply asks_none].
Qed.
End Applying.

(** ** Properties *)

(** C17: setting up replaces no file it was not told to.  Whatever the plan,
    wherever it stops and for whatever reason, a file that was there before is
    there afterwards, contents and mode, unless the answer about that very file
    was to replace it; the one exception is the binary a service runs.  In
    particular the keys and the certificate, about which nothing is asked, are
    always kept. *)
Theorem setup_asks_first `{Machine, Faults} plan w p c m :
  rooted w -> w_decided w = [] -> w_fs w !! p = Some (File c m) ->
  let w' := (apply plan w).1 in
  w_fs w' !! p = Some (File c m)
  \/ (p, true) ∈ w_decided w' /\ p ∈ [pl_config_path plan; pl_log_config_path plan; pl_service_path plan]
  \/ pl_install_service plan = true /\ p = pl_binary plan.
Proof.
  intros Hr Hd Hf w'. destruct (apply_kept plan w Hr) as [F _ _]. destruct (F _ _ _ Hf) as [?|[_ [?|Hin]]]; [by left|right; by right|].
  right. left. split; [done|]. destruct (asks_apply plan w) as (l & El & Hl). rewrite Hd in El. cbn [app] in El.
  fold w' in El, Hin. rewrite El in Hin. rewrite Forall_forall in Hl. by apply (Hl _ Hin).
Qed.

(** A Linux machine, set up by root with the default answers *)
Definition demo_machine : Machine :=
  {| OS := lit "linux"; home_dir := Some (lit "/root"); current_exe := Some (lit "/root/sightingdb"); env_user := Some (lit "root");
     id_u := None; hostname_file := None; hostname_command := None; random_index := id;
     generated := Some (lit "certificate", lit "private key") |}.
(** No operation fails, and what is there is replaced when [replace] says so. *)
Definition demo_faults (replace : bool) : Faults :=
  {| fails _ := false; left_by _ := None; command_succeeds _ := true; decides _ _ := Some replace;
     new_file_mode := 420; new_dir_mode := 493 |}.
Definition some_plan : Plan :=
  mkPlan CurrentUser Linux None [] [] [] [] [] [] [] [] None [] 0 false Standalone None [] [] [] [] false false false.
Definition demo_plan (answers : Input) : Plan :=
  match @build_plan demo_machine Linux SystemWide true answers with inl (plan, _) => plan | inr _ => some_plan end.
Definition demo_world (fs : gmap str FsNode) : World := mkWorld (<[lit "/root/sightingdb" := File (lit "ELF") 493]> fs) 0 [] [].

(** The configuration of an earlier installation: kept on a no, replaced on a
    yes *)
Definition demo_old : str := lit "/etc/sightingdb/sightingdb.toml".
Definition demo_again : World := demo_world {[demo_old := File (lit "old") 416]}.

Lemma setup_asks_first_witness :
  (let w' := (@apply demo_machine (demo_faults false) (demo_plan []) demo_again).1 in w_fs w' !! demo_old = Some (File (lit "old") 416))
  /\ (let w' := (@apply demo_machine (demo_faults true) (demo_plan []) demo_again).1 in (demo_old, true) ∈ w_decided w').
Proof.
  assert (Hr : rooted demo_again) by (split; by vm_compute).
  split.
  - destruct (@setup_asks_first demo_machine (demo_faults false) (demo_plan []) demo_again demo_old (lit "old") 416%Z Hr eq_refl
      ltac:(by vm_compute)) as [H|[[H _]|[_ H]]]; [exact H|apply (bool_decide_pack _) in H; vm_compute in H; done
      |apply (bool_decide_pack _) in H; vm_compute in H; done].
  - destruct (@setup_asks_first demo_machine (demo_faults true) (demo_plan []) demo_again demo_old (lit "old") 416%Z Hr eq_refl
      ltac:(by vm_compute)) as [H|[[H _]|[_ H]]]; [vm_compute in H; done|exact H|apply (bool_decide_pack _) in H; vm_compute in H; done].
Defined.
