(* ===== verification/SetupConfig.v ===== *)
(** * The configuration a set-up server starts with

    The configuration file is text that [Installing] writes and [Config] reads.
    Between the two is the TOML parser, which is the [toml] crate's.  What is
    relied on is the part of TOML the file uses: [doc_ok] says which documents
    those are and [raw_of] what they mean, and [LawfulDoc] that the parser reads
    them so. *)

From Stdlib Require Import Ascii.
From stdpp Require Import base numbers list strings gmap sorting pretty.
From S2P Require Import Prelude Text Paths Acl Tags Tier Namespace Disk Database Listing DnsName Peers Config ConfigFacts Startup Installing InstallFacts.

(** ** What a document means *)

(** The value of a key of a table; keys before the first header are of none. *)
Fixpoint lookup_from (current : string) (ls : list TomlLine) (table key : string) : option TomlValue :=
  match ls with
  | [] => None
  | Remark _ :: r => lookup_from current r table key
  | Table name :: r => lookup_from name r table key
  | Setting k v :: r => if String.eqb current table && String.eqb k key then Some v else lookup_from current r table key
  end.
Definition has_table (ls : list TomlLine) (table : string) : bool :=
  existsb (fun l => match l with Table name => String.eqb name table | _ => false end) ls.

(** Digits, with underscores between them *)
Definition number_step (n : Z) (c : N) : Z := if (c =? 95)%N then n else (10 * n + (Z.of_N c - 48))%Z.
Definition number_of (digits : str) : Z := foldl number_step 0%Z digits.

Section Raw.
Context (ls : list TomlLine).
Definition text_at (table key : string) : option str :=
  match lookup_from "top" ls table key with Some (TText s) => Some s | _ => None end.
Definition number_at (table key : string) : option Z :=
  match lookup_from "top" ls table key with Some (TNumber d) => Some (number_of d) | _ => None end.
Definition flag_at (table key : string) : option bool :=
  match lookup_from "top" ls table key with Some (TFlag b) => Some b | _ => None end.
Definition texts_at (table key : string) : option (list str) :=
  match lookup_from "top" ls table key with Some (TTexts l) => Some l | _ => None end.

Definition raw_of : RawConfig :=
  mkRawConfig
    (if has_table ls "daemon" then
       Some (mkDaemonTable (flag_at "daemon" "enabled") (text_at "daemon" "listen_ip") (number_at "daemon" "listen_port")
         (flag_at "daemon" "authenticate") (flag_at "daemon" "daemonize") (flag_at "daemon" "ssl") (text_at "daemon" "ssl_cert")
         (text_at "daemon" "ssl_key") (number_at "daemon" "post_limit") (text_at "daemon" "log_out") (text_at "daemon" "log_err")
         (text_at "daemon" "dbdir") (number_at "daemon" "snapshot_interval") (number_at "daemon" "compression_level")
         (number_at "daemon" "sweep_interval") (number_at "daemon" "stats_retention") (number_at "daemon" "shadow_ttl")
         (number_at "daemon" "rejection_log") (flag_at "daemon" "activity") (number_at "daemon" "latest_writes")
         (text_at "daemon" "node_id") (text_at "daemon" "acl_file") (text_at "daemon" "tags_file"))
     else None)
    None
    (if has_table ls "storage" then
       Some (mkStorageTable (text_at "storage" "default_tier") (number_at "storage" "warm_idle") ∅
         (text_at "storage" "tiers_file") (texts_at "storage" "namespaces"))
     else None)
    (if has_table ls "galaxy" then
       Some (mkGalaxyTable [] (text_at "galaxy" "peers_file") (number_at "galaxy" "max_hops") (number_at "galaxy" "health_interval")
         (number_at "galaxy" "sync_interval") (number_at "galaxy" "reconcile_interval") (number_at "galaxy" "gossip_interval")
         (flag_at "galaxy" "acl_authority") (flag_at "galaxy" "acl_replaceable") (flag_at "galaxy" "verify_tls"))
     else None)
    None None None.
End Raw.

(** ** Which documents *)
Inductive Shape := ShText | ShNumber | ShFlag | ShTexts.
#[global] Instance shape_eq_dec : EqDecision Shape.
Proof. solve_decision. Defined.
Definition shape_of (v : TomlValue) : Shape :=
  match v with TText _ => ShText | TNumber _ => ShNumber | TFlag _ => ShFlag | TTexts _ => ShTexts end.

(** The tables, and the settings of them that the file holds *)
Definition TABLES : list string := ["daemon"; "storage"; "galaxy"]%string.
Definition KNOWN : list (string * string * Shape) :=
  ((fun k => ("daemon"%string, k, ShText)) <$>
     ["listen_ip"; "ssl_cert"; "ssl_key"; "dbdir"; "node_id"; "acl_file"; "tags_file"]%string)
  ++ ((fun k => ("daemon"%string, k, ShNumber)) <$>
     ["listen_port"; "snapshot_interval"; "sweep_interval"; "stats_retention"; "shadow_ttl"; "rejection_log"; "latest_writes"]%string)
  ++ ((fun k => ("daemon"%string, k, ShFlag)) <$> ["authenticate"; "daemonize"; "ssl"; "activity"]%string)
  ++ [("storage", "default_tier", ShText); ("storage", "tiers_file", ShText); ("storage", "warm_idle", ShNumber);
      ("storage", "namespaces", ShTexts); ("galaxy", "peers_file", ShText)]%string.

(** The settings of a document, with their tables *)
Fixpoint settings_from (current : string) (ls : list TomlLine) : list (string * string * Shape) :=
  match ls with
  | [] => []
  | Remark _ :: r => settings_from current r
  | Table name :: r => settings_from name r
  | Setting k v :: r => (current, k, shape_of v) :: settings_from current r
  end.
Definition tables_in (ls : list TomlLine) : list string := omap (fun l => match l with Table n => Some n | _ => None end) ls.

(** A number as TOML writes one, in any of the program's number types but a
    port's *)
Fixpoint grouped (digit_before : bool) (d : str) : bool :=
  match d with
  | [] => digit_before
  | c :: r => if (c =? 95)%N then digit_before && grouped false r else is_ascii_digit c && grouped true r
  end.
Definition number_ok (d : str) : bool :=
  match d with [] => false | c :: r => negb ((c =? 48)%N && negb (is_empty r)) && grouped false d end
  && bool_decide (number_of d < 2 ^ 31)%Z.
Definition value_ok (v : TomlValue) : Prop :=
  match v with
  | TText s => plain s
  | TNumber d => number_ok d = true
  | TFlag _ => True
  | TTexts l => Forall plain l
  end.
Definition line_ok (l : TomlLine) : Prop :=
  match l with
  | Remark s => remark s
  | Table name => name ∈ TABLES
  | Setting k v => value_ok v /\ (k = "listen_port"%string -> forall d, v = TNumber d -> number_of d < 65536)%Z
  end.

(** No table and no setting of a table twice, and nothing the program does not
    know *)
Record doc_ok (ls : list TomlLine) : Prop := {
  ok_lines : Forall line_ok ls;
  ok_tables : NoDup (tables_in ls);
  ok_settings : NoDup (settings_from "top" ls).*1;
  ok_known : Forall (fun x => x ∈ KNOWN) (settings_from "top" ls);
}.

Class DocParser := { toml_config : str -> option RawConfig }.
Class LawfulDoc `{DocParser} : Prop := toml_config_law ls : doc_ok ls -> toml_config (show_lines ls) = Some (raw_of ls).

(** ** Numbers written are read *)
Definition digit_of (x : N) : N := N_of_ascii (pretty_N_char x).
Lemma digit_spec x : (x < 10)%N -> digit_of x = (48 + x)%N.
Proof.
  intros Hx. assert (Hc : forallb (fun x => bool_decide (digit_of x = 48 + x)%N) (N.of_nat <$> seq 0 10) = true) by by vm_compute.
  rewrite forallb_forall in Hc. specialize (Hc x). rewrite bool_decide_eq_true in Hc. apply Hc, list_elem_of_In, list_elem_of_fmap.
  exists (N.to_nat x). split; [lia|]. apply elem_of_seq. lia.
Qed.
Lemma lit_cons a s : lit (String a s) = N_of_ascii a :: lit s.
Proof. done. Qed.

Lemma is_digit_spec c : is_ascii_digit c = true <-> (48 <= c <= 57)%N.
Proof. unfold is_ascii_digit. rewrite andb_true_iff, !N.leb_le. done. Qed.

Lemma number_of_go x s : number_of (lit (pretty_N_go x s)) = foldl number_step (Z.of_N x) (lit s).
Proof.
  revert s. induction (N.lt_wf_0 x) as [x _ IH]. intros s. destruct (decide (x = 0)%N) as [->|Hx]; [by rewrite pretty_N_go_0|].
  rewrite pretty_N_go_step by lia. rewrite IH by (apply N.div_lt; lia). rewrite lit_cons. cbn [foldl]. f_equal.
  fold (digit_of (x `mod` 10)). rewrite digit_spec by (apply N.mod_lt; lia). unfold number_step.
  pose proof (N.mod_lt x 10 ltac:(lia)) as Hm. pose proof (N.div_mod x 10 ltac:(lia)) as Hd. revert Hm Hd. clear.
  generalize (x `mod` 10)%N (x `div` 10)%N. intros a b Ha ->. destruct (N.eqb_spec (48 + a) 95); lia.
Qed.

Lemma go_digits x s : (0 < x)%N ->
  exists c r, lit (pretty_N_go x s) = c :: r ++ lit s /\ is_ascii_digit c = true /\ c <> 48%N /\ forallb is_ascii_digit r = true.
Proof.
  revert s. induction (N.lt_wf_0 x) as [x _ IH]. intros s Hx. rewrite pretty_N_go_step by lia.
  pose proof (N.mod_lt x 10 ltac:(lia)) as Hm. pose proof (N.div_mod x 10 ltac:(lia)) as Hd.
  assert (Hdig : is_ascii_digit (digit_of (x `mod` 10)) = true)
    by (apply is_digit_spec; rewrite digit_spec by done; clear -Hm; revert Hm; generalize (x `mod` 10)%N; lia).
  destruct (decide (x `div` 10 = 0)%N) as [E0|E0].
  - rewrite E0, pretty_N_go_0, lit_cons. exists (digit_of (x `mod` 10)), []. split_and!; [done|done| |done]. rewrite digit_spec by done. rewrite E0 in Hd.
    clear -Hd Hx. revert Hd. generalize (x `mod` 10)%N. lia.
  - destruct (IH (x `div` 10)%N ltac:(apply N.div_lt; lia) (String (pretty_N_char (x `mod` 10)) s) ltac:(by apply N.neq_0_lt_0))
      as (c & r & -> & Hc & H48 & Hr). exists c, (r ++ [digit_of (x `mod` 10)]). rewrite lit_cons, <- app_assoc.
    split_and!; [done..|]. by rewrite forallb_app, Hr; cbn; rewrite Hdig.
Qed.

Lemma grouped_digits b r : forallb is_ascii_digit r = true -> (r = [] -> b = true) -> grouped b r = true.
Proof.
  revert b. induction r as [|c r IH]; intros b; [intros _ Hb; by apply Hb|]. cbn. intros [Hc Hr]%andb_true_iff _.
  pose proof Hc as Hc'. apply is_digit_spec in Hc'. destruct (N.eqb_spec c 95); [lia|]. rewrite Hc. by apply IH.
Qed.

Lemma decimal_text n : (0 <= n < 2 ^ 31)%Z -> number_ok (decimal n) = true /\ number_of (decimal n) = n.
Proof.
  intros Hn. unfold decimal. assert (Hnum : number_of (lit (pretty (Z.to_N n))) = n).
  { unfold pretty, pretty_N. case_decide as E; [replace n with 0%Z by lia; done|]. rewrite number_of_go. cbn. lia. }
  split; [|done]. unfold number_ok. rewrite Hnum, bool_decide_eq_true_2, andb_true_r by lia.
  unfold pretty, pretty_N. case_decide as E; [done|].
  destruct (go_digits (Z.to_N n) "" ltac:(lia)) as (c & r & -> & Hc & H48 & Hr). rewrite app_nil_r.
  destruct (N.eqb_spec c 48); [done|]. cbn [andb negb]. apply grouped_digits; [|done]. cbn. by rewrite Hc, Hr.
Qed.

(** ** The document of a plan *)

(** Nothing in it that would have to be escaped *)
Record plan_plain (plan : Plan) : Prop := {
  plain_ip : plain (pl_listen_ip plan);
  plain_port : (0 <= pl_listen_port plan < 65536)%Z;
  plain_dbdir : plain (pl_dbdir plan);
  plain_node : plain (pl_node_id plan);
  plain_acl : plain (pl_acl_path plan);
  plain_tags : plain (pl_tags_path plan);
  plain_tiers : plain (pl_tiers_path plan);
  plain_peers : plain (pl_peers_path plan);
  plain_tls tls : pl_tls plan = Some tls -> plain (tls_cert tls) /\ plain (tls_key tls);
  plain_stored held : pl_namespaces plan = Some held -> Forall plain held;
}.

Definition remark_text (s : string) : bool :=
  match remark_char <$> lit s with
  | [] => true
  | c :: r => (c =? 35)%N && forallb (fun c => (32 <=? c) && negb (c =? 127))%N r
  end.
Lemma remark_text_ok (s : str) :
  match s with [] => true | c :: r => (c =? 35)%N && forallb (fun c => (32 <=? c) && negb (c =? 127))%N r end = true -> remark s.
Proof.
  destruct s as [|c r]; [by left|]. intros [->%N.eqb_eq Hr]%andb_true_iff. right. exists r. split; [done|].
  apply Forall_forall. intros x Hx%list_elem_of_In. rewrite forallb_forall in Hr. apply Hr, andb_true_iff in Hx as [H1%N.leb_le H2].
  split; [done|]. by intros ->.
Qed.
Lemma remarks_ok l : forallb remark_text l = true -> Forall line_ok (remarks l).
Proof.
  intros Hl. apply Forall_fmap, Forall_forall. intros s Hs%list_elem_of_In. rewrite forallb_forall in Hl.
  apply remark_text_ok. by apply Hl in Hs.
Qed.

(** Goes through the lines of a document. *)
Ltac each_line :=
  repeat first
    [ apply Forall_app; split
    | apply remarks_ok; vm_compute; reflexivity
    | apply Forall_nil_2
    | apply Forall_cons_2
    | apply (bool_decide_unpack _); vm_compute; exact I
    | by left ].

Lemma config_lines_ok plan : plan_plain plan -> Forall line_ok (config_lines plan).
Proof.
  intros [H1 H2 H3 H4 H5 H6 H7 H8 H9 H10]. destruct (decimal_text (pl_listen_port plan) ltac:(lia)) as [D1 D2].
  assert (Hlab : line_ok (Remark (lit "# This server is set up as " ++ mode_label (pl_mode plan) ++ lit ".")))
    by (apply remark_text_ok; destruct (pl_mode plan); by vm_compute).
  assert (Hn : forall d k, k <> "listen_port"%string -> number_ok d = true -> line_ok (Setting k (TNumber d))) by (intros d k Hk Hd; by split).
  assert (Ht : forall k s, plain s -> line_ok (Setting k (TText s))) by (intros k s Hs; by split).
  assert (Hf : forall k b, line_ok (Setting k (TFlag b))) by (intros k b; by split).
  assert (Hp : line_ok (Setting "listen_port" (TNumber (decimal (pl_listen_port plan))))).
  { split; [done|]. intros _ d [= <-]. rewrite D2. lia. }
  assert (Hhot : plain (lit "hot")) by (by apply lit_plain; vm_compute).
  unfold config_lines. rewrite !Forall_app. split_and!.
  - unfold head_lines. each_line; auto.
  - unfold listen_lines. each_line; auto.
  - unfold tls_lines. destruct (pl_tls plan) as [tls|]; [destruct (H9 tls eq_refl)|]; each_line; auto.
  - unfold store_lines. each_line; auto; by apply Hn.
  - unfold record_lines. each_line; auto; by apply Hn.
  - unfold node_lines. destruct (in_galaxy _); each_line; auto.
  - unfold key_lines. each_line; auto.
  - unfold tag_lines. each_line; auto.
  - unfold stored_lines. destruct (pl_namespaces plan) as [[|x held]|]; each_line; auto; (split; [|done]);
      [constructor|by apply H10].
  - unfold tier_lines. each_line; auto; by apply Hn.
  - destruct (forwards _); each_line; auto.
Qed.

(** What the document of a plan means *)
Definition raw_of_plan (plan : Plan) : RawConfig :=
  mkRawConfig
    (Some (mkDaemonTable None (Some (pl_listen_ip plan)) (Some (number_of (decimal (pl_listen_port plan)))) (Some (pl_authenticate plan))
      (Some false) (Some (match pl_tls plan with Some _ => true | None => false end)) (tls_cert <$> pl_tls plan) (tls_key <$> pl_tls plan)
      None None None (Some (pl_dbdir plan)) (Some 300) None (Some 60) (Some 720) (Some 2592000) (Some 1000) (Some true) (Some 10000)
      (Some (pl_node_id plan)) (Some (pl_acl_path plan)) (Some (pl_tags_path plan))))%Z
    None
    (Some (mkStorageTable (Some (lit "hot")) (Some 3600%Z) ∅ (Some (pl_tiers_path plan)) (pl_namespaces plan)))
    (if forwards (pl_mode plan)
     then Some (mkGalaxyTable [] (Some (pl_peers_path plan)) None None None None None None None None) else None)
    None None None.

(** Goes through the branches of the file. *)
Ltac each_file plan :=
  destruct plan as [scope platform user config_dir config_path acl_path tiers_path tags_path peers_path log_path dbdir tls ip port
    auth mode namespaces node_id key binary service_path create install start]; unfold config_lines, listen_lines;
  cbn [pl_listen_port]; generalize (decimal port); intros digits; destruct tls as [tls|]; destruct namespaces as [[|? ?]|]; destruct mode.

Lemma config_raw plan : raw_of (config_lines plan) = raw_of_plan plan.
Proof. unfold raw_of_plan. each_file plan; vm_compute; reflexivity. Qed.

Lemma config_shape plan :
  NoDup (tables_in (config_lines plan)) /\ NoDup (settings_from "top" (config_lines plan)).*1
  /\ Forall (fun x => x ∈ KNOWN) (settings_from "top" (config_lines plan)).
Proof. each_file plan; split_and!; apply (bool_decide_unpack _); vm_compute; exact I. Qed.

Lemma config_doc_ok plan : plan_plain plan -> doc_ok (config_lines plan).
Proof. intros Hp. destruct (config_shape plan) as (H1 & H2 & H3). split; [by apply config_lines_ok|done..]. Qed.

(** ** A reader of that part of TOML *)
Definition named (names : list string) (s : str) : option string := head (List.filter (fun n => bool_decide (lit n = s)) names).
Definition KEYS : list string := KNOWN.*1.*2.

Fixpoint read_texts (fuel : nat) (s : str) : list str :=
  match fuel, s with
  | S f, c :: r =>
      if (c =? 34)%N then
        match split_once 34 r with
        | Some (x, rest) => x :: match strip_prefix (lit ", ") rest with Some rest' => read_texts f rest' | None => [] end
        | None => []
        end
      else []
  | _, _ => []
  end.
Definition read_value (s : str) : TomlValue :=
  match s with
  | [] => TNumber []
  | c :: r =>
      if (c =? 34)%N then TText (take (length r - 1) r)
      else if (c =? 91)%N then TTexts (read_texts (length r) r)
      else if bool_decide (s = lit "true") then TFlag true else if bool_decide (s = lit "false") then TFlag false else TNumber s
  end.
Definition read_setting (s : str) : TomlLine :=
  match split_once 32 s with
  | Some (k, r) => match named KEYS k, strip_prefix (lit "= ") r with Some key, Some v => Setting key (read_value v) | _, _ => Remark s end
  | None => Remark s
  end.
Definition read_doc_line (s : str) : TomlLine :=
  match s with
  | [] => Remark s
  | c :: r =>
      if (c =? 35)%N then Remark s
      else if (c =? 91)%N then match named TABLES (take (length r - 1) r) with Some t => Table t | None => Remark s end
      else read_setting s
  end.
Definition read_doc (text : str) : option RawConfig := Some (raw_of (read_doc_line <$> split_char LF text)).

Lemma take_last (s : str) c : take (length (s ++ [c]) - 1) (s ++ [c]) = s.
Proof. rewrite length_app. cbn. replace (length s + 1 - 1)%nat with (length s) by lia. apply take_app_length. Qed.

Lemma read_texts_shown fuel l c :
  Forall plain l -> (length l <= fuel)%nat -> strip_prefix (lit ", ") [c] = None -> c <> 34%N ->
  read_texts fuel (join_with (lit ", ") (in_quotes <$> l) ++ [c]) = l.
Proof.
  intros Hl. revert fuel. induction Hl as [|x l Hx _ IH]; intros fuel Hf Hc H34.
  - cbn. destruct fuel; [done|]. cbn. by destruct (N.eqb_spec c 34).
  - destruct fuel as [|f]; [cbn in Hf; lia|]. rewrite fmap_cons.
    assert (E : exists t, join_with (lit ", ") (in_quotes x :: (in_quotes <$> l)) ++ [c] = 34%N :: x ++ 34%N :: t
      /\ t = match l with [] => [c] | _ => lit ", " ++ join_with (lit ", ") (in_quotes <$> l) ++ [c] end).
    { destruct l as [|y l].
      - exists [c]. split; [|done]. cbn [fmap list_fmap join_with]. unfold in_quotes. by rewrite <- !app_assoc.
      - eexists. split; [|reflexivity]. cbn [fmap list_fmap join_with]. unfold in_quotes at 1. by rewrite <- !app_assoc. }
    destruct E as (t & -> & Et). cbn [read_texts]. rewrite N.eqb_refl, split_once_app by (apply plain_no; auto). f_equal. subst t.
    destruct l as [|y l]; [by rewrite Hc|]. rewrite (proj2 (strip_prefix_spec _ _ _) eq_refl). apply IH; [cbn in *; lia|done..].
Qed.

Lemma read_value_shown v : value_ok v -> read_value (show_value v) = v.
Proof.
  destruct v as [s|d|b|l]; cbn [value_ok show_value]; intros Hv.
  - unfold in_quotes. cbn [app read_value]. by rewrite take_last.
  - unfold number_ok in Hv. destruct d as [|c r]; [done|]. apply andb_true_iff in Hv as [Hv _]. apply andb_true_iff in Hv as [_ Hg].
    cbn in Hg. destruct (N.eqb_spec c 95) as [->|_]; [done|]. apply andb_true_iff in Hg as [Hc%is_digit_spec _].
    assert (Hin : c ∈ (fun n => N.of_nat n) <$> seq 48 10).
    { apply list_elem_of_fmap. exists (N.to_nat c). split; [lia|]. apply elem_of_seq. lia. }
    cbn in Hin. rewrite !elem_of_cons, elem_of_nil in Hin. destruct_or! Hin; subst; done.
  - by destruct b.
  - change (lit "[" ++ ?x) with (91%N :: x). unfold read_value. rewrite N.eqb_refl. cbn [N.eqb Pos.eqb]. f_equal.
    apply read_texts_shown; [done| |done|done]. rewrite length_app.
    clear Hv. induction l as [|x [|y l] IH]; [cbn; lia|cbn; lia|].
    rewrite !fmap_cons in *. cbn [join_with length] in *. rewrite !length_app in *. cbn in *. lia.
Qed.

Definition key_fine (k : string) : bool :=
  match lit k with [] => false | c :: _ => negb (c =? 35)%N && negb (c =? 91)%N end
  && forallb (fun c => negb (c =? 32)%N) (lit k) && bool_decide (named KEYS (lit k) = Some k).
Lemma keys_fine : Forall (fun k => key_fine k = true) KEYS.
Proof. apply Forall_forall. intros k Hk%list_elem_of_In. assert (H : forallb key_fine KEYS = true) by by vm_compute.
  rewrite forallb_forall in H. by apply H. Qed.

Lemma read_line_shown l : line_ok l -> (forall k v, l = Setting k v -> k ∈ KEYS) -> read_doc_line (show_line l) = l.
Proof.
  destruct l as [s|n|k v]; cbn [line_ok show_line]; intros Hl Hk.
  - destruct Hl as [->|(r & -> & _)]; done.
  - unfold TABLES in Hl. rewrite !elem_of_cons, elem_of_nil in Hl. by destruct_or! Hl; subst; vm_compute.
  - destruct Hl as [Hv _]. pose proof keys_fine as Hf. rewrite Forall_forall in Hf. specialize (Hf k (Hk k v eq_refl)).
    unfold key_fine in Hf. apply andb_true_iff in Hf as [[Hh Hsp]%andb_true_iff Hn%bool_decide_eq_true].
    assert (Hs : read_setting (lit k ++ lit " = " ++ show_value v) = Setting k v).
    { unfold read_setting. change (lit " = " ++ show_value v) with (32%N :: lit "= " ++ show_value v). rewrite split_once_app.
      - by rewrite Hn, (proj2 (strip_prefix_spec _ _ _) eq_refl), read_value_shown.
      - intros Hin%list_elem_of_In. rewrite forallb_forall in Hsp. by apply Hsp in Hin. }
    revert Hs. destruct (lit k) as [|c r]; [done|]. apply andb_true_iff in Hh as [H35%negb_true_iff H91%negb_true_iff].
    intros <-. unfold read_doc_line. cbn [app]. by rewrite H35, H91.
Qed.

(** No line break inside a line *)
Lemma quoted_no_lf s : plain s -> LF ∉ in_quotes s.
Proof.
  intros Hs. unfold in_quotes. rewrite !not_elem_of_app. split_and!; try by apply not_elem_of_cons; split; [|apply not_elem_of_nil].
  apply plain_no; [done|]. left. by vm_compute.
Qed.
Lemma grouped_no_lf b d : grouped b d = true -> LF ∉ d.
Proof.
  revert b. induction d as [|c r IH]; intros b; [intros _; apply not_elem_of_nil|]. cbn. rewrite not_elem_of_cons.
  destruct (N.eqb_spec c 95) as [->|_]; intros [H1 H2]%andb_true_iff; (split; [|by eapply IH]); [done|].
  apply is_digit_spec in H1. unfold LF. lia.
Qed.
Lemma quoted_list_no_lf l : Forall plain l -> LF ∉ join_with (lit ", ") (in_quotes <$> l).
Proof.
  induction 1 as [|x l Hx _ IH]; [apply not_elem_of_nil|]. destruct l as [|y l]; [by apply quoted_no_lf|].
  rewrite fmap_cons in *. cbn [fmap list_fmap join_with] in *. rewrite !not_elem_of_app. split_and!; [by apply quoted_no_lf| |done].
  apply (bool_decide_unpack _); by vm_compute.
Qed.
Lemma value_no_lf v : value_ok v -> LF ∉ show_value v.
Proof.
  destruct v as [s|d|b|l]; cbn [value_ok show_value]; intros Hv.
  - by apply quoted_no_lf.
  - unfold number_ok in Hv. destruct d as [|c r]; [done|]. apply andb_true_iff in Hv as [Hv _]. apply andb_true_iff in Hv as [_ Hg].
    by eapply grouped_no_lf.
  - destruct b; apply (bool_decide_unpack _); by vm_compute.
  - rewrite !not_elem_of_app. split_and!; [|by apply quoted_list_no_lf|]; apply (bool_decide_unpack _); by vm_compute.
Qed.
Lemma known_key k : k ∈ KEYS -> LF ∉ lit k.
Proof.
  intros Hk. assert (H : forallb (fun k => bool_decide (LF ∉ lit k)) KEYS = true) by by vm_compute.
  rewrite forallb_forall in H. apply list_elem_of_In in Hk. by apply H, bool_decide_eq_true in Hk.
Qed.
Lemma line_no_lf l : line_ok l -> (forall k v, l = Setting k v -> k ∈ KEYS) -> LF ∉ show_line l.
Proof.
  destruct l as [s|n|k v]; cbn [line_ok show_line]; intros Hl Hk.
  - by apply remark_no_lf.
  - unfold TABLES in Hl. rewrite !elem_of_cons, elem_of_nil in Hl. by destruct_or! Hl; subst; apply (bool_decide_unpack _); vm_compute.
  - rewrite !not_elem_of_app. split_and!; [apply known_key; by eapply Hk| |apply value_no_lf; apply Hl].
    apply (bool_decide_unpack _); by vm_compute.
Qed.

(** The settings of a document are the settings among its lines. *)
Lemma setting_known current ls k v :
  Forall (fun x => x ∈ KNOWN) (settings_from current ls) -> Setting k v ∈ ls -> k ∈ KEYS.
Proof.
  revert current. induction ls as [|l ls IH]; intros current Hk Hin; [by apply elem_of_nil in Hin|].
  apply elem_of_cons in Hin as [<-|Hin].
  - cbn in Hk. apply Forall_cons in Hk as [Hk _]. apply (list_elem_of_fmap_2 fst), (list_elem_of_fmap_2 snd) in Hk. exact Hk.
  - destruct l; cbn in Hk; [by apply (IH current)|by eapply IH|]. apply Forall_cons in Hk as [_ Hk]. by apply (IH current).
Qed.

(** A remark at the end adds nothing. *)
Lemma lookup_remark ls s current table key : lookup_from current (ls ++ [Remark s]) table key = lookup_from current ls table key.
Proof. revert current. induction ls as [|[] ls IH]; intros current; cbn; [done|apply IH..|]. by destruct (_ && _); [|apply IH]. Qed.
Lemma raw_remark ls s : raw_of (ls ++ [Remark s]) = raw_of ls.
Proof.
  unfold raw_of, text_at, number_at, flag_at, texts_at, has_table. rewrite !existsb_app, !lookup_remark. cbn [existsb]. by rewrite !orb_false_r.
Qed.

Lemma read_doc_law ls : doc_ok ls -> read_doc (show_lines ls) = Some (raw_of ls).
Proof.
  intros [Hl _ _ Hk]. assert (Hkey : forall l, l ∈ ls -> line_ok l /\ forall k v, l = Setting k v -> k ∈ KEYS).
  { intros l Hin. split; [by rewrite Forall_forall in Hl; apply Hl|]. intros k v ->. by eapply setting_known. }
  unfold read_doc. f_equal. unfold show_lines.
  replace (mjoin _) with (mjoin ((fun l => l ++ [LF]) <$> (show_line <$> ls)) ++ [])
    by (rewrite app_nil_r, <- list_fmap_compose; done).
  rewrite split_lines.
  - rewrite fmap_app. replace (read_doc_line <$> (show_line <$> ls)) with ls; [apply raw_remark|].
    rewrite <- list_fmap_compose. symmetry. rewrite <- (list_fmap_id ls) at 2. apply list_fmap_ext.
    intros i l Hi%list_elem_of_lookup_2. destruct (Hkey l Hi). by apply read_line_shown.
  - apply Forall_fmap, Forall_forall. intros l Hin. destruct (Hkey l Hin). by apply line_no_lf.
Qed.
