(* ===== verification/SetupFacts.v ===== *)
(** * A server set up is a server that starts

    Carrying out a plan on a machine that has no installation ([Installing]) and
    starting the server on what it wrote ([Config], [SetupConfig]): the settings
    are the plan's and the key shown to the user is an admin key. *)

From stdpp Require Import base numbers list strings gmap sorting pretty.
From S2P Require Import Prelude Text Paths Acl Tags Tier Namespace Disk Database Listing DnsName Peers Config ConfigFacts Startup Installing InstallFacts SetupConfig.

(** ** What is not touched *)
Definition frames {A} (T : list str) (m : Io A) : Prop := forall w p, p ∉ T -> w_fs (m w).1 !! p = w_fs w !! p.

Lemma frames_bind {A B} T (m : Io A) (k : A -> Io B) : frames T m -> (forall a, frames T (k a)) -> frames T (io_bind m k).
Proof.
  intros Hm Hk w p Hp. unfold io_bind. specialize (Hm w p Hp). destruct (m w) as [w' [a|e]]; cbn [fst snd] in *; [|done].
  by rewrite Hk.
Qed.
Lemma frames_mono {A} T T' (m : Io A) : T ⊆ T' -> frames T m -> frames T' m.
Proof. intros HT Hm w p Hp. apply Hm. set_solver. Qed.
Lemma frames_none {A} T (m : Io A) : (forall w, w_fs (m w).1 = w_fs w) -> frames T m.
Proof. intros Hm w p _. by rewrite Hm. Qed.
Lemma frames_when T b m : frames T m -> frames T (io_when b m).
Proof. intros Hm. by destruct b; [|apply frames_none]. Qed.

Section Frames.
Context `{Machine} `{Faults}.

Lemma frames_attempt T e act : (forall w w' p, act w = Some w' -> p ∉ T -> w_fs w' !! p = w_fs w !! p) -> frames T (attempt e act).
Proof.
  intros Ha w p Hp. unfold attempt. destruct (fails _); [done|]. destruct (act w) as [w'|] eqn:E; [|done]. by apply (Ha w w' p E).
Qed.
Lemma put_frame p n w q : q <> p -> w_fs (put_node p n w) !! q = w_fs w !! q.
Proof. intros Hq. apply lookup_insert_ne. done. Qed.

Definition dirs_above (p : str) : list str := up_to (length p) p.
Lemma frames_create_dir_all p : frames (dirs_above p) (create_dir_all p).
Proof.
  unfold create_dir_all, dirs_above. induction (up_to (length p) p) as [|q l IH]; [by apply frames_none|]. cbn [create_dirs].
  apply frames_bind; [|intros _; eapply frames_mono, IH; set_solver]. apply frames_attempt. intros w w' x. unfold create_dir.
  destruct (w_fs w !! q) as [[]|]; [done|by intros [= <-]|]. intros [= <-] Hx. apply put_frame. set_solver.
Qed.
Lemma written_frame p c w w' q : Installing.written p c w = Some w' -> q <> p -> w_fs w' !! q = w_fs w !! q.
Proof.
  unfold Installing.written. intros E Hq. destruct (w_fs w !! p) as [[]|]; [by injection E as <-; apply put_frame|done|].
  destruct (is_dir _ _); [by injection E as <-; apply put_frame|done].
Qed.
Lemma frames_fs_write p c : frames [p] (fs_write p c).
Proof.
  intros w q [Hq _]%not_elem_of_cons. unfold fs_write. destruct (fails _); cbn [fst].
  - destruct (left_by _) as [torn|]; [|done]. destruct (Installing.written p torn w) eqn:E; [|done].
    exact (written_frame _ _ _ _ q E Hq).
  - destruct (Installing.written p c w) eqn:E; [|done]. exact (written_frame _ _ _ _ q E Hq).
Qed.
Lemma frames_set_mode p m : frames [p] (set_mode p m).
Proof.
  apply frames_attempt. intros w w' q. unfold with_mode. intros E [Hq _]%not_elem_of_cons.
  destruct (w_fs w !! p) as [[]|]; [by injection E as <-; apply put_frame..|done].
Qed.

(** The paths written for a file *)
Definition for_file (p : str) : list str := p :: dirs_above (path_parent p).
Lemma frames_write_file p c m : frames (for_file p) (write_file p c m).
Proof.
  apply frames_bind; [eapply frames_mono, frames_create_dir_all; set_solver|intros _].
  apply frames_bind; [eapply frames_mono, frames_fs_write; set_solver|intros _]. eapply frames_mono, frames_set_mode. set_solver.
Qed.
Lemma frames_write_unless p c m : frames (for_file p) (write_unless_kept p c m).
Proof.
  intros w q Hq. unfold write_unless_kept. destruct (fs_exists w p); [|by apply frames_write_file].
  revert w q Hq. apply frames_bind; [|intros []; [apply frames_write_file|by apply frames_none]].
  apply frames_none. intros w. unfold decide_replace. by destruct (decides _ _).
Qed.
Lemma frames_install_keys plan : frames (for_file (pl_acl_path plan)) (install_keys plan).
Proof.
  intros w q Hq. unfold install_keys. destruct (fs_exists _ _); [done|]. revert w q Hq.
  apply frames_bind; [apply frames_write_file|intros _; by apply frames_none].
Qed.
Definition for_tls (plan : Plan) : list str :=
  match pl_tls plan with Some tls => for_file (tls_key tls) ++ for_file (tls_cert tls) | None => [] end.
Lemma frames_install_certificate plan : frames (for_tls plan) (install_certificate plan).
Proof.
  intros w q. unfold install_certificate, install_self_signed, for_tls. destruct (pl_tls plan) as [tls|]; [|done].
  destruct (_ || _); [done|]. destruct (fs_exists _ _); [done|]. destruct (fs_exists _ _); [done|].
  destruct generated as [[certificate key]|]; [|done]. revert w q.
  apply frames_bind; [|intros _; apply frames_bind; [eapply frames_mono, frames_create_dir_all; set_solver
                                                    |intros _; eapply frames_mono, frames_fs_write; set_solver]].
  apply frames_bind; [eapply frames_mono, frames_create_dir_all; set_solver|intros _]. apply frames_attempt.
  intros w w' q. unfold created_private. destruct (w_fs w !! _); [done|]. destruct (is_dir _ _); [|done].
  intros [= <-] Hq. apply put_frame. set_solver.
Qed.
Lemma frames_install_binary plan : frames (for_file (pl_binary plan)) (install_binary plan).
Proof.
  unfold install_binary. destruct current_exe as [current|]; [|by apply frames_none]. case_bool_decide; [by apply frames_none|].
  apply frames_bind; [eapply frames_mono, frames_create_dir_all; set_solver|intros _].
  apply frames_bind; [|intros _; eapply frames_mono, frames_set_mode; set_solver]. apply frames_attempt. intros w w' q. unfold copied.
  destruct (w_fs w !! current) as [[]|], (w_fs w !! pl_binary plan) as [[]|]; try done; [intros [= <-]|destruct (is_dir _ _); [intros [= <-]|done]];
    intros Hq; apply put_frame; set_solver.
Qed.
Lemma frames_start plan : frames [] (start plan).
Proof. unfold start. destruct (pl_platform plan); apply frames_bind; intros; by apply frames_none. Qed.

(** What is touched once the configuration has been written *)
Definition touched_later (plan : Plan) : list str :=
  for_file (pl_log_config_path plan) ++ for_tls plan ++ [pl_dbdir plan; pl_config_dir plan]
  ++ for_file (pl_binary plan) ++ for_file (pl_service_path plan).

Lemma frames_after_keys plan wrote : frames (touched_later plan) (after_keys plan wrote).
Proof.
  unfold touched_later. apply frames_bind; [eapply frames_mono, frames_install_certificate; set_solver|intros _].
  do 2 (apply frames_bind; [eapply frames_mono, frames_set_mode; set_solver|intros _]). apply frames_bind; [|intros _].
  { unfold hand_over. destruct (pl_service_user plan); [|by apply frames_none]. apply frames_when.
    apply frames_bind; intros; by apply frames_none. }
  apply frames_bind; [|intros _; by apply frames_none]. apply frames_when.
  apply frames_bind; [eapply frames_mono, frames_install_binary; set_solver|intros _].
  apply frames_bind; [eapply frames_mono, frames_write_unless; set_solver|intros _]. apply frames_when.
  eapply frames_mono, frames_start. set_solver.
Qed.
End Frames.

(** ** What a success leaves *)
Lemma bind_done {A B} (m : Io A) (k : A -> Io B) w w' b :
  io_bind m k w = (w', inl b) -> exists w1 a, m w = (w1, inl a) /\ k a w1 = (w', inl b).
Proof. unfold io_bind. destruct (m w) as [w1 [a|e]]; cbn; [|done]. intros E. by exists w1, a. Qed.

Section Outcome.
Context `{Machine} `{Faults}.

Lemma write_file_done p c mode w w' : write_file p c mode w = (w', inl tt) -> w_fs w' !! p = Some (File c mode).
Proof.
  intros (w1 & [] & _ & (w2 & [] & E2 & E3)%bind_done)%bind_done.
  assert (Hf : exists m, w_fs w2 !! p = Some (File c m)).
  { unfold fs_write in E2. destruct (fails _); [done|]. unfold Installing.written in E2.
    destruct (w_fs w1 !! p) as [[c0 m0|m0]|]; [injection E2 as <-; exists m0; apply lookup_insert_eq|done|].
    destruct (is_dir _ _); [|done]. injection E2 as <-. eexists. apply lookup_insert_eq. }
  destruct Hf as [m Hf]. unfold set_mode, attempt in E3. destruct (fails _); [done|]. unfold with_mode in E3. rewrite Hf in E3.
  injection E3 as <-. apply lookup_insert_eq.
Qed.

(** The files of an installation that the server reads at its start *)
Definition read_at_start (plan : Plan) : list str :=
  [pl_config_path plan; pl_acl_path plan; pl_tiers_path plan; pl_tags_path plan; pl_peers_path plan].
(** They are files of their own: none is also a directory, a certificate, the
    binary or the unit. *)
Definition touched_else (plan : Plan) : list str :=
  dirs_above (pl_config_dir plan) ++ dirs_above (pl_dbdir plan) ++ dirs_above (path_parent (pl_config_path plan))
  ++ dirs_above (path_parent (pl_acl_path plan)) ++ touched_later plan.
Definition apart (plan : Plan) : bool :=
  bool_decide (NoDup (read_at_start plan)) && forallb (fun p => bool_decide (p ∉ touched_else plan)) (read_at_start plan).
Definition fresh (plan : Plan) (w : World) : bool := forallb (fun p => negb (fs_exists w p)) (read_at_start plan).

Lemma apart_spec plan p : apart plan = true -> p ∈ read_at_start plan -> p ∉ touched_else plan.
Proof.
  intros [_ Ha]%andb_true_iff Hp%list_elem_of_In. rewrite forallb_forall in Ha. by apply Ha, bool_decide_eq_true in Hp.
Qed.
Lemma apart_each plan p : apart plan = true -> p ∈ read_at_start plan ->
  p ∉ dirs_above (pl_config_dir plan) /\ p ∉ dirs_above (pl_dbdir plan) /\ p ∉ dirs_above (path_parent (pl_config_path plan))
  /\ p ∉ dirs_above (path_parent (pl_acl_path plan)) /\ p ∉ for_file (pl_log_config_path plan) /\ p ∉ touched_later plan.
Proof.
  intros Ha Hp. pose proof (apart_spec _ _ Ha Hp) as HT. unfold touched_else in HT. rewrite !not_elem_of_app in HT.
  destruct HT as (H1 & H2 & H3 & H4 & H5). split_and!; [done..| |done]. unfold touched_later in H5. rewrite not_elem_of_app in H5. tauto.
Qed.
Lemma fresh_spec plan w p : fresh plan w = true -> p ∈ read_at_start plan -> w_fs w !! p = None.
Proof.
  intros Hf Hp%list_elem_of_In. unfold fresh in Hf. rewrite forallb_forall in Hf. apply Hf in Hp. unfold fs_exists in Hp.
  by destruct (w_fs w !! p).
Qed.

Lemma apply_outcome plan w w' wrote :
  apart plan = true -> fresh plan w = true -> apply plan w = (w', inl wrote) ->
  wrote = true
  /\ w_fs w' !! pl_config_path plan = Some (File (config_toml plan) 416)
  /\ w_fs w' !! pl_acl_path plan = Some (File (to_toml (grant_full ∅ (pl_admin_key plan))) 384)
  /\ w_fs w' !! pl_tiers_path plan = None /\ w_fs w' !! pl_tags_path plan = None /\ w_fs w' !! pl_peers_path plan = None.
Proof.
  intros Ha Hf Happly. pose proof Ha as [Hnd _]%andb_true_iff. apply bool_decide_eq_true in Hnd. unfold read_at_start in Hnd.
  rewrite !NoDup_cons, !not_elem_of_cons in Hnd. destruct Hnd as ((N1 & N2 & N3 & N4 & _) & (N5 & N6 & N7 & _) & _).
  pose proof (fun p => apart_each plan p Ha) as HT. pose proof (fun p => fresh_spec plan w p Hf) as HF.
  change (apply plan) with (io_when (pl_create_user plan) create_service_user ;;; create_dir_all (pl_config_dir plan)
    ;;; create_dir_all (pl_dbdir plan) ;;; after_dirs plan) in Happly.
  apply bind_done in Happly as (w1 & [] & E1 & (w2 & [] & E2 & (w3 & [] & E3 & E)%bind_done)%bind_done).
  apply bind_done in E as (w4 & [] & E4 & (w5 & [] & E5 & (w6 & b & E6 & E7)%bind_done)%bind_done).
  (* nothing is there before it is written *)
  assert (H3 : forall p, p ∈ read_at_start plan -> w_fs w3 !! p = None).
  { intros p Hp. destruct (HT p Hp) as (T1 & T2 & T3 & T4 & T5 & T6). replace w3 with (create_dir_all (pl_dbdir plan) w2).1 by by rewrite E3.
    rewrite frames_create_dir_all by done. replace w2 with (create_dir_all (pl_config_dir plan) w1).1 by by rewrite E2.
    rewrite frames_create_dir_all by done. replace w1 with (io_when (pl_create_user plan) create_service_user w).1 by by rewrite E1.
    rewrite (frames_when []); [by apply HF| |apply not_elem_of_nil]. apply frames_bind; [by apply frames_none|intros []; by apply frames_none]. }
  assert (Hsub : forall p, p ∈ read_at_start plan -> p <> pl_config_path plan -> w_fs w5 !! p = None).
  { intros p Hp Hne. destruct (HT p Hp) as (T1 & T2 & T3 & T4 & T5 & T6).
    replace w5 with (write_unless_kept (pl_log_config_path plan) LOG_CONFIG 420 w4).1 by by rewrite E5.
    rewrite frames_write_unless by done. replace w4 with (write_unless_kept (pl_config_path plan) (config_toml plan) 416 w3).1 by by rewrite E4.
    rewrite frames_write_unless; [by apply H3|]. by apply not_elem_of_cons. }
  assert (Hin : forall i p, read_at_start plan !! i = Some p -> p ∈ read_at_start plan) by (intros; by eapply list_elem_of_lookup_2).
  pose proof (Hin 0 _ eq_refl) as I0. pose proof (Hin 1 _ eq_refl) as I1. pose proof (Hin 2 _ eq_refl) as I2.
  pose proof (Hin 3 _ eq_refl) as I3. pose proof (Hin 4 _ eq_refl) as I4.
  (* the configuration *)
  assert (C4 : w_fs w4 !! pl_config_path plan = Some (File (config_toml plan) 416)).
  { unfold write_unless_kept, fs_exists in E4. rewrite (H3 _ I0) in E4. by apply write_file_done in E4. }
  assert (C5 : w_fs w5 !! pl_config_path plan = Some (File (config_toml plan) 416)).
  { replace w5 with (write_unless_kept (pl_log_config_path plan) LOG_CONFIG 420 w4).1 by by rewrite E5.
    rewrite frames_write_unless; [done|]. apply (HT _ I0). }
  (* the keys *)
  assert (K6 : b = true /\ w_fs w6 !! pl_acl_path plan = Some (File (to_toml (grant_full ∅ (pl_admin_key plan))) 384)).
  { unfold install_keys, fs_exists in E6. rewrite (Hsub _ I1) in E6 by done. apply bind_done in E6 as (w7 & [] & E6 & [= <- <-]).
    split; [done|]. by apply write_file_done in E6. }
  destruct K6 as [-> K6].
  assert (L6 : forall p, p ∈ read_at_start plan -> p <> pl_acl_path plan -> w_fs w6 !! p = w_fs w5 !! p).
  { intros p Hp Hne. destruct (HT p Hp) as (T1 & T2 & T3 & T4 & T5 & T6). replace w6 with (install_keys plan w5).1 by by rewrite E6.
    rewrite frames_install_keys; [done|]. by apply not_elem_of_cons. }
  assert (L7 : forall p, p ∈ read_at_start plan -> w_fs w' !! p = w_fs w6 !! p).
  { intros p Hp. destruct (HT p Hp) as (T1 & T2 & T3 & T4 & T5 & T6). replace w' with (after_keys plan true w6).1 by by rewrite E7.
    by rewrite frames_after_keys. }
  split; [|rewrite !L7, ?(L6 (pl_config_path plan)), ?(L6 (pl_tiers_path plan)), ?(L6 (pl_tags_path plan)), ?(L6 (pl_peers_path plan)) by done;
           split_and!; auto].
  clear -E7. unfold after_keys in E7. repeat apply bind_done in E7 as (? & [] & _ & E7). by injection E7.
Qed.
End Outcome.

(** ** Starting on it *)

(** The server sees the file system, and full paths are taken as they are. *)
Definition sees `{ConfigFiles} (w : World) : Prop :=
  (forall p, path_exists p = fs_exists w p)
  /\ forall p, read_to_string p = match w_fs w !! p with Some (File c _) => Some c | _ => None end.
Definition full_path `{ConfigFiles} (p : str) : Prop := starts_with [SLASH] p = true /\ absolute p = Some p.

Lemma resolve_full `{ConfigFiles} base p : full_path p -> resolve_path base p = p.
Proof. intros [Hs Ha]. unfold resolve_path. by rewrite Hs, Ha. Qed.

Lemma full_grant_written key : plain key -> table_written (grant_full ∅ key).
Proof.
  intros Hk. unfold table_written, grant_full. apply map_Forall_insert_2; [|apply map_Forall_empty]. split; [done|]. split; [done|].
  repeat apply Forall_cons_2; [| |apply Forall_nil_2]; split; try apply Forall_nil_2; [right; split_and!; [done..|apply Forall_nil_2]|by left].
Qed.

Lemma hash_iter_nothing `{HashOrder} {V} : hash_iter (∅ : gmap str V) = [].
Proof. apply Permutation_nil_r. by rewrite hash_iter_perm, map_to_list_empty. Qed.

(** ** Properties *)

(** C16: a server that has been set up starts as it was set up, and the key it
    showed works.  On a machine without an installation, when carrying out a
    plan succeeds whose answers TOML need not escape, whose files are apart and
    have full paths, and whose node name and namespaces the configuration
    accepts, the configuration file it left is accepted and says what the
    plan says: where to listen, whether to ask for keys, the certificate, the
    database, the node's name and what it stores, and whether it forwards; and
    the one key in use is the plan's, an admin key.  The questions check none of
    those conditions on the answers. *)
Theorem setup_usable `{Machine, Faults, HashOrder, ConfigFiles, !LawfulToml, DocParser, !LawfulDoc} plan w w' wrote node policy legacy :
  plan_plain plan -> plain (pl_admin_key plan) -> apart plan = true -> fresh plan w = true ->
  node_id_of (Some (pl_node_id plan)) = inl node ->
  storage_policy (Some (mkStorageTable None None ∅ None (pl_namespaces plan))) = inl policy ->
  apply plan w = (w', inl wrote) -> sees w' -> Forall full_path (read_at_start plan) ->
  (forall tls, pl_tls plan = Some tls -> full_path (tls_cert tls) /\ full_path (tls_key tls)) ->
  wrote = true
  /\ exists raw s, read_to_string (pl_config_path plan) ≫= toml_config = Some raw
       /\ into_settings raw (pl_config_path plan) = inl s
       /\ s_listen s = address (pl_listen_ip plan) (pl_listen_port plan) /\ s_authenticate s = pl_authenticate plan
       /\ s_tls s = pl_tls plan /\ s_dbdir s = Some (pl_dbdir plan) /\ s_node_id s = node /\ s_storage s = policy
       /\ is_some (s_galaxy s) = forwards (pl_mode plan) /\ s_acl_file s = Some (pl_acl_path plan)
       /\ startup_acl (s_acl s) legacy None = grant_full ∅ (pl_admin_key plan)
       /\ is_admin (grant_full ∅ (pl_admin_key plan)) (pl_admin_key plan) = true.
Proof.
  intros Hpl Hkey Hap Hfr Hnode Hpol Happly [Hex Hrd] Hfull Htls.
  destruct (apply_outcome plan w w' wrote Hap Hfr Happly) as (-> & Hc & Ha & Hti & Htg & Hpe). split; [done|].
  rewrite Forall_forall in Hfull. assert (Hres : forall base i p, read_at_start plan !! i = Some p -> resolve_path base p = p).
  { intros base i p Hp. apply resolve_full, Hfull. by eapply list_elem_of_lookup_2. }
  exists (raw_of_plan plan). rewrite Hrd, Hc. cbn [mbind option_bind].
  unfold config_toml. rewrite (toml_config_law _ (config_doc_ok plan Hpl)), config_raw.
  assert (Hacl : load_acl None (Some (pl_acl_path plan)) = inl (Some (grant_full ∅ (pl_admin_key plan)))).
  { apply load_written; [by apply full_grant_written|rewrite Hex; unfold fs_exists; by rewrite Ha|by rewrite Hrd, Ha]. }
  unfold into_settings, raw_of_plan. cbn [rc_daemon rc_acl rc_storage rc_galaxy rc_dns rc_zmq rc_stix].
  set (base := path_parent _). set (d := daemon_of _).
  assert (Ht : tls_of base d = inl (pl_tls plan)).
  { unfold tls_of. cbn. destruct (pl_tls plan) as [tls|]; [|done]. destruct (Htls tls eq_refl) as [T1 T2]. cbn.
    rewrite !resolve_full by done. by destruct tls. }
  rewrite Ht. change (storage_policy _) with (storage_policy (Some (mkStorageTable None None ∅ None (pl_namespaces plan)))).
  rewrite Hpol. change (rd_node_id d) with (Some (pl_node_id plan)). rewrite Hnode.
  assert (Hg : exists g, galaxy_of base (if forwards (pl_mode plan)
    then Some (mkGalaxyTable [] (Some (pl_peers_path plan)) None None None None None None None None) else None) = inl g
    /\ is_some g = forwards (pl_mode plan)).
  { destruct (forwards (pl_mode plan)); [|by exists None]. unfold galaxy_of, raw_galaxy, peers_in_file. cbn [gt_peers_file fmap option_fmap option_map].
    rewrite (Hres base 4) by done. rewrite Hex. unfold fs_exists. rewrite Hpe. by eexists. }
  destruct Hg as (g & -> & Hg).
  assert (Hs : exists t f, storage_tiers base (Some (mkStorageTable (Some (lit "hot")) (Some 3600%Z) ∅ (Some (pl_tiers_path plan)) (pl_namespaces plan)))
    = inl (t, f)).
  { unfold storage_tiers. cbn [sg_tiers_file fmap option_fmap option_map]. rewrite (Hres base 2) by done. rewrite Hex. unfold fs_exists.
    rewrite Hti. unfold to_policy. cbn [sg_tiers]. rewrite hash_iter_nothing. by do 2 eexists. }
  destruct Hs as (t & f & ->). change (resolve_path base <$> rd_acl_file d) with (Some (resolve_path base (pl_acl_path plan))).
  rewrite (Hres base 1) by done. rewrite Hacl. cbn [optional].
  change (negb (rd_enabled d)) with false. cbn [andb]. eexists. split; [done|]. split; [done|]. cbn.
  destruct (decimal_text (pl_listen_port plan)) as [_ Hport]; [pose proof (plain_port plan Hpl); lia|]. rewrite Hport.
  split_and!; try done. unfold is_admin, grant_full. by rewrite lookup_insert_eq.
Qed.

(** ** A server set up on an empty machine *)
Definition demo_files (w : World) : ConfigFiles :=
  {| absolute p := Some p; path_exists := fs_exists w;
     read_to_string p := match w_fs w !! p with Some (File c _) => Some c | _ => None end;
     toml_tiers _ := None; toml_acl := read_acl; toml_tags _ := None; toml_peers _ := None; SEED := [] |}.
Definition demo_doc : DocParser := {| toml_config := read_doc |}.

(** A node that both stores and forwards, on another port, without keys asked
    for *)
Definition demo_answers : Input :=
  Some <$> [lit "4"; lit "feeds, /edge/"; lit "lyon-1"; lit "0.0.0.0"; lit "99999"; lit "9100"; lit "y"; lit "No"; []; []; lit "n"].
Definition demo_setup : Plan := demo_plan demo_answers.
Definition demo_after : World := Eval vm_compute in (@apply demo_machine (demo_faults false) demo_setup (demo_world ∅)).1.

Definition plain_bool (s : str) : bool := forallb (fun c => bool_decide (unescaped c)) s.
Lemma plain_checked s : plain_bool s = true -> plain s.
Proof.
  intros Hs. apply Forall_forall. intros c Hc%list_elem_of_In. unfold plain_bool in Hs. rewrite forallb_forall in Hs.
  by apply Hs, bool_decide_eq_true in Hc.
Qed.

Lemma setup_usable_witness :
  let M := demo_machine in let F := demo_faults false in let O := some_order in let C := demo_files demo_after in let D := demo_doc in
  exists raw s, read_to_string (pl_config_path demo_setup) ≫= toml_config = Some raw
    /\ into_settings raw (pl_config_path demo_setup) = inl s
    /\ s_listen s = lit "0.0.0.0:9100" /\ s_authenticate s = false
    /\ s_node_id s = lit "lyon-1" /\ is_some (s_galaxy s) = true
    /\ startup_acl (s_acl s) [] None = grant_full ∅ (pl_admin_key demo_setup).
Proof.
  cbv zeta. destruct (@setup_usable demo_machine (demo_faults false) some_order (demo_files demo_after) read_acl_law demo_doc read_doc_law
    demo_setup (demo_world ∅) demo_after true (lit "lyon-1") (from_prefixes [lit "feeds"; lit "edge"]) [])
    as (_ & raw & s & H1 & H2 & H3 & H4 & _ & _ & H5 & _ & H6 & _ & H7 & _).
  - split; try (apply plain_checked; vm_compute; reflexivity); [by vm_compute|..].
    + intros tls E. vm_compute in E. injection E as <-. split; apply plain_checked; vm_compute; reflexivity.
    + intros held E. vm_compute in E. injection E as <-. repeat constructor; apply (bool_decide_unpack _); vm_compute; exact I.
  - apply plain_checked; vm_compute; reflexivity.
  - vm_compute; reflexivity.
  - vm_compute; reflexivity.
  - vm_compute; reflexivity.
  - vm_compute; reflexivity.
  - vm_compute; reflexivity.
  - split; intros p; reflexivity.
  - repeat constructor; vm_compute; reflexivity.
  - intros tls E. vm_compute in E. injection E as <-. repeat split; vm_compute; reflexivity.
  - exists raw, s. split; [exact H1|]. split; [exact H2|]. rewrite H3, H4, H5, H6, H7. repeat split; vm_compute; reflexivity.
Defined.
