(* ===== verification/Erasing.v ===== *)
(** * Accounting for an installation and taking it away

    The rest of [setup.rs]: which files an installation consists of
    ([inventory]), the service manager's commands, [--erase] and [--erase-hard],
    and [run], which refuses to install a second service.  The file system and
    what may fail in it are those of [Installing]; links in paths are followed
    by [canonicalize], which is the system's. *)

From stdpp Require Import base numbers list strings gmap sorting pretty.
From S2P Require Import Prelude Text Paths Acl Tags Tier Namespace Disk Database Listing DnsName Peers Config Startup Installing SetupConfig.

(** ** Paths *)
Definition ROOT_DIR : str := [SLASH].
Definition dot_segment : str := lit ".".

(** [Path::components]: empty segments and dots are passed over, but for a dot
    that starts a relative path *)
Definition components (p : str) : list str :=
  let segments := List.filter (fun s => negb (is_empty s) && negb (bool_decide (s = dot_segment))) (split_char SLASH p) in
  if starts_with ROOT_DIR p then ROOT_DIR :: segments
  else match split_char SLASH p with
       | first :: _ => if bool_decide (first = dot_segment) then dot_segment :: segments else segments
       | [] => segments
       end.
Definition path_eq (a b : str) : bool := bool_decide (components a = components b).
Definition of_components (cs : list str) : str :=
  match cs with
  | c :: r => if bool_decide (c = ROOT_DIR) then ROOT_DIR ++ join_with ROOT_DIR r else join_with ROOT_DIR cs
  | [] => []
  end.

(** [Path::parent] and [Path::file_name] *)
Definition parent_of (p : str) : option str :=
  match last (components p) with
  | None => None
  | Some c => if bool_decide (c = ROOT_DIR) then None else Some (of_components (removelast (components p)))
  end.
Definition file_name (p : str) : option str :=
  match last (components p) with
  | Some c => if bool_decide (c ∈ [ROOT_DIR; dot_segment; lit ".."]) then None else Some c
  | None => None
  end.

(** [fs::canonicalize]: [None] for a path that is not there *)
Class Canon := { canonicalize : World -> str -> option str }.

Section Full.
Context `{ConfigFiles} `{Canon}.

Fixpoint full_from (fuel : nat) (w : World) (cursor : str) (missing : list str) : option str :=
  match fuel, parent_of cursor with
  | S f, Some parent =>
      let missing := match file_name cursor with Some name => name :: missing | None => missing end in
      match canonicalize w parent with
      | Some real => Some (foldl path_join real missing)
      | None => full_from f w parent missing
      end
  | _, _ => None
  end.
Definition full (w : World) (path : str) : str :=
  match canonicalize w path with
  | Some real => real
  | None => let a := default path (absolute path) in default a (full_from (length (components a)) w a [])
  end.
End Full.

(** ** What an installation consists of *)
Inductive Kind := KData | KService | KConfig | KOther.
#[global] Instance kind_eq_dec : EqDecision Kind.
Proof. solve_decision. Defined.

Record Installed := mkInstalled {
  i_what : string;
  i_path : str;
  i_note : str;
  i_private : bool;
  i_owned : bool;
  i_kind : Kind;
}.
Definition set_path (e : Installed) (path : str) : Installed :=
  mkInstalled (i_what e) path (i_note e) (i_private e) (i_owned e) (i_kind e).
Definition is_service (e : Installed) : bool := String.eqb (i_what e) "service".

Definition service_candidates `{Machine} : list str :=
  match detect with
  | inl Linux =>
      lit "/etc/systemd/system/sightingdb.service"
      :: match home_dir with Some home => [path_join home (lit ".config/systemd/user/sightingdb.service")] | None => [] end
  | inl MacOs =>
      label ← [LAUNCHD_LABEL; LAUNCHD_LEGACY_LABEL];
      (lit "/Library/LaunchDaemons/" ++ label ++ lit ".plist")
      :: match home_dir with Some home => [path_join home (lit "Library/LaunchAgents/" ++ label ++ lit ".plist")] | None => [] end
  | inr _ => []
  end.
Definition logging_candidates `{Machine} : list str :=
  [lit "/etc/sightingdb/log4rs.yml"]
  ++ match home_dir with Some home => [path_join (path_join home (lit ".sightingdb")) (lit "log4rs.yml")] | None => [] end
  ++ [lit "etc/log4rs.yml"].

(** [Settings::load] *)
Definition load_settings `{HashOrder, ConfigFiles, DocParser} (path : str) : Settings + SetupError :=
  match read_to_string path ≫= toml_config with
  | None => inr (NotConfigured path)
  | Some raw => match into_settings raw path with inl s => inl s | inr _ => inr (NotConfigured path) end
  end.

Section Inventory.
Context `{Machine} `{HashOrder} `{ConfigFiles} `{DocParser} `{Canon}.

(** The first part: what the configuration names *)
Definition logging_entry (w : World) (config_path : str) (logging_config : option str) : list Installed :=
  match (match logging_config with Some l => Some l | None => head (List.filter (fs_exists w) logging_candidates) end) with
  | Some logging =>
      let ours := bool_decide (components <$> parent_of logging = components <$> parent_of config_path) in
      [mkInstalled "logging config" logging
         (if ours then [] else lit "not this installation's; --erase leaves it") false ours KConfig]
  | None => []
  end.
Definition key_entry (s : Settings) (config_path : str) : Installed :=
  match s_acl_file s with
  | Some acl => mkInstalled "API keys" acl (lit "rewritten when a key is saved") true true KConfig
  | None => mkInstalled "API keys" config_path (lit "no acl_file: the keys are in the [acl] section of it") true false KConfig
  end.
Definition tier_entry (s : Settings) : list Installed :=
  match s_tiers_file s with
  | Some tiers => [mkInstalled "tiers" tiers (lit "written when a tier is changed") false true KConfig]
  | None => []
  end.
Definition tls_entries (s : Settings) : list Installed :=
  match s_tls s with
  | Some tls => [mkInstalled "TLS certificate" (tls_cert tls) [] false true KConfig;
                 mkInstalled "TLS key" (tls_key tls) [] true true KConfig]
  | None => []
  end.
Definition data_entries (s : Settings) : list Installed :=
  match s_dbdir s with Some dbdir => [mkInstalled "database" dbdir [] false true KData] | None => [] end
  ++ (if s_daemonize s then
        (fun x => mkInstalled x.1 x.2 [] false true KData) <$>
          List.filter (fun x => negb (path_eq x.2 (lit "/dev/null")))
            [("stdout log"%string, s_log_out s); ("stderr log"%string, s_log_err s)]
      else []).
Definition binary_entry : list Installed :=
  match current_exe with Some binary => [mkInstalled "binary" binary (lit "left alone by --erase") false false KOther] | None => [] end.

(** A unit is this installation's when it names this configuration. *)
Definition runs_this (w : World) (config_path unit : str) : bool :=
  match w_fs w !! unit with
  | Some (File text _) => str_contains config_path text || str_contains (full w config_path) text
  | _ => false
  end.
Definition service_entries (w : World) (config_path : str) : list Installed :=
  match List.filter (fs_exists w) service_candidates with
  | [] =>
      match service_candidates with
      | path :: _ => [mkInstalled "service" path (lit "not installed; `--setup` can add one") false false KService]
      | [] => []
      end
  | there =>
      (fun path =>
         let ours := runs_this w config_path path in
         mkInstalled "service" path (if ours then [] else lit "runs a different configuration; --erase leaves it") false ours KService)
      <$> there
  end.

Definition inventory (w : World) (config_path : str) (logging_config : option str) : list Installed + SetupError :=
  match load_settings config_path with
  | inr e => inr e
  | inl s =>
      let entries :=
        mkInstalled "configuration" config_path [] false true KConfig
        :: logging_entry w config_path logging_config
        ++ key_entry s config_path :: tier_entry s ++ tls_entries s ++ data_entries s ++ binary_entry
        ++ service_entries w config_path in
      inl ((fun e => set_path e (full w (i_path e))) <$> entries)
  end.
End Inventory.

(** ** The service manager *)
Inductive ServiceAction := Start | Stop | Restart | Remove.
#[global] Instance service_action_eq_dec : EqDecision ServiceAction.
Proof. solve_decision. Defined.
Definition parse_action (raw : str) : ServiceAction + SetupError :=
  if bool_decide (raw = lit "start") then inl Start else if bool_decide (raw = lit "stop") then inl Stop
  else if bool_decide (raw = lit "restart") then inl Restart else inr (UnknownAction raw).
Definition action_name (action : ServiceAction) : str :=
  lit (match action with Start => "Start" | Stop => "Stop" | Restart => "Restart" | Remove => "Remove" end)%string.

Definition is_user_service (service : str) : bool :=
  str_contains (lit "/.config/") service || str_contains (lit "/Library/LaunchAgents/") service.
Definition is_plist (service : str) : bool := ends_with (lit ".plist") service.

Definition systemctl (user : bool) (verb : string) : list str :=
  [lit "systemctl"] ++ (if user then [lit "--user"] else []) ++ [lit verb; lit "sightingdb"].
Definition launchctl (words : list str) : list str := lit "launchctl" :: words.
Definition service_commands `{Machine} (service : str) (action : ServiceAction) : list (list str) :=
  let user := is_user_service service in
  if is_plist service then
    let domain := if user then lit "gui/" ++ uid else lit "system" in
    let target := domain ++ lit "/" ++ LAUNCHD_LABEL in
    match action with
    | Restart => [launchctl [lit "kickstart"; lit "-k"; target]; launchctl [lit "unload"; lit "-w"; service];
                  launchctl [lit "load"; lit "-w"; service]]
    | Start => [launchctl [lit "bootstrap"; domain; service]; launchctl [lit "load"; lit "-w"; service]]
    | Stop | Remove => [launchctl [lit "bootout"; target]; launchctl [lit "unload"; lit "-w"; service]]
    end
  else
    match action with
    | Start => [systemctl user "start"]
    | Stop => [systemctl user "stop"]
    | Restart => [systemctl user "restart"]
    | Remove => [systemctl user "stop"; systemctl user "disable"]
    end.

(** What the processes of the machine are *)
Class Processes := {
  pgrep : str -> option str;           (** what [pgrep -f] prints, [None] when it cannot be run *)
  own_pid : Z;
  complains : nat -> str;              (** what a command that failed says *)
  error_text : SetupError -> str;      (** what an error says *)
}.

Section Services.
Context `{Machine} `{Faults} `{Processes}.

Definition GAP : str := lit " ".
Definition text_line (s : str) : str := s ++ [LF].
(** The commands in order, up to the first that succeeds or all of them; what
    is said of each *)
Fixpoint run_in_order (all_of_them : bool) (commands : list (list str)) : Io str :=
  match commands with
  | [] => done_with []
  | command :: rest => fun w =>
      let line := join_with GAP command in
      io_bind (try_command command) (fun ran =>
        if ran : bool then
          if all_of_them then io_bind (run_in_order all_of_them rest) (fun out => done_with (text_line (lit "ran      " ++ line) ++ out))
          else done_with (text_line (lit "ran      " ++ line))
        else
          io_bind (run_in_order all_of_them rest) (fun out =>
            done_with (text_line (lit "note     " ++ line ++ lit ": " ++ complains (w_tick w)) ++ out))) w
  end.
Definition all_of_them (service : str) (action : ServiceAction) : bool := bool_decide (action = Remove) || negb (is_plist service).
Definition run_service_commands (service : str) (action : ServiceAction) : Io str :=
  io_bind (run_in_order (all_of_them service action) (service_commands service action)) (fun out =>
    done_with (reverse (drop_while is_whitespace (reverse out)))).
Definition stop_service (service : str) : Io str := run_service_commands service Remove.

Definition u32_from_str (s : str) : option Z :=
  match u64_from_str s with Some n => if bool_decide (n < 2 ^ 32)%Z then Some n else None | None => None end.
Definition running (found : str) : list str :=
  decimal <$> List.filter (fun pid => negb (bool_decide (pid = own_pid))) (omap (fun line => u32_from_str (trim line)) (split_char LF found)).
(** [filter] with an effect *)
Fixpoint still_alive (pids : list str) : Io (list str) :=
  match pids with
  | [] => done_with []
  | pid :: rest =>
      io_bind (try_command [lit "kill"; lit "-0"; pid]) (fun alive =>
        io_bind (still_alive rest) (fun l => done_with (if alive : bool then pid :: l else l)))
  end.
Definition stop_processes (config_path : str) : Io str :=
  match pgrep config_path with
  | None => done_with (lit "note     pgrep is not available, so no process was looked for")
  | Some found =>
      match running found with
      | [] => done_with (lit "no daemon was running with this configuration")
      | pids =>
          io_bind (try_command (lit "kill" :: pids)) (fun _ =>
            io_bind (still_alive pids) (fun still =>
              io_bind (match still with [] => done_with false | _ => try_command (lit "kill" :: lit "-9" :: still) end) (fun _ =>
                done_with (lit "stopped  process(es) " ++ join_with (lit ", ") pids))))
      end
  end.
End Services.

(** [service_control] *)
Definition service_control `{Machine, Faults, Processes, HashOrder, ConfigFiles, DocParser, Canon}
    (config_path : str) (logging_config : option str) (action : str) : Io str := fun w =>
  match parse_action action with
  | inr e => (w, inr e)
  | inl action =>
      match inventory w config_path logging_config with
      | inr e => (w, inr e)
      | inl entries =>
          match head (List.filter (fun e => is_service e && fs_exists w (i_path e)) entries) with
          | None => (w, inr (NoService config_path))
          | Some service =>
              io_bind (run_service_commands (i_path service) action) (fun out =>
                done_with (text_line (action_name action ++ GAP ++ i_path service) ++ text_line out)) w
          end
      end
  end.

(** ** Removing *)
Definition del_node (p : str) (w : World) : World := mkWorld (delete p (w_fs w)) (w_tick w) (w_ran w) (w_decided w).

(** The names in a directory *)
Definition child_name (dir p : str) : option str :=
  match strip_prefix (path_join dir []) p with
  | Some name => if is_empty name || bool_decide (SLASH ∈ name) then None else Some name
  | None => None
  end.
Definition read_dir `{HashOrder} (w : World) (dir : str) : list str := omap (fun x => child_name dir x.1) (hash_iter (w_fs w)).

(** What persistence writes *)
Definition snapshot_name (name : str) : bool :=
  ends_with (lit ".json.zst") name || ends_with (lit ".json") name || ends_with (lit ".tmp") name.

Definition removed_file (p : str) (w : World) : option World :=
  match w_fs w !! p with Some (File _ _) => Some (del_node p w) | _ => None end.
Definition removed_dir `{HashOrder} (p : str) (w : World) : option World :=
  match w_fs w !! p with
  | Some (Dir _) => if is_empty (read_dir w p) then Some (del_node p w) else None
  | _ => None
  end.
Definition is_file (w : World) (p : str) : bool := match w_fs w !! p with Some (File _ _) => true | _ => false end.

Section Removing.
Context `{Machine} `{Faults} `{Processes} `{HashOrder}.

Definition snapshots (removed : nat) : str := lit "(" ++ decimal (Z.of_nat removed) ++ lit " snapshot file(s)".
Fixpoint remove_snapshots (dir : str) (names : list str) : Io (nat * nat) :=
  match names with
  | [] => done_with (0, 0)
  | name :: rest => attempt (CouldNot "reading" dir) Some ;;; fun w =>
      let p := path_join dir name in
      if snapshot_name name && is_file w p
      then (attempt (CouldNot "removing" p) (removed_file p)
            ;;; io_bind (remove_snapshots dir rest) (fun n => done_with (S n.1, n.2))) w
      else io_bind (remove_snapshots dir rest) (fun n => done_with (n.1, S n.2)) w
  end.
Definition remove (path : str) : Io str :=
  attempt (CouldNot "reading" path) (fun w => if fs_exists w path then Some w else None) ;;; fun w =>
    match w_fs w !! path with
    | Some (Dir _) =>
        (attempt (CouldNot "reading" path) Some
         ;;; io_bind (remove_snapshots path (read_dir w path)) (fun '(removed, others) =>
              if (others =? 0)%nat
              then attempt (CouldNot "removing" path) (removed_dir path) ;;; done_with (snapshots removed ++ lit ")")
              else done_with (snapshots removed ++ lit "; " ++ decimal (Z.of_nat others)
                     ++ lit " other file(s) left, so the directory stays)"))) w
    | _ => (attempt (CouldNot "removing" path) (removed_file path) ;;; done_with []) w
    end.

(** Carries on after an error *)
Definition io_try {A} (m : Io A) : Io (A + SetupError) := fun w => let r := m w in (r.1, inl r.2).

Definition pad16 (s : str) : str := s ++ replicate (16 - length s) 32%N.
Definition listed (e : Installed) : str := pad16 (lit (i_what e)) ++ GAP ++ i_path e.
Fixpoint remove_entries (doomed : list Installed) : Io str :=
  match doomed with
  | [] => done_with []
  | e :: rest =>
      io_bind (io_try (remove (i_path e))) (fun r =>
        io_bind (remove_entries rest) (fun out =>
          done_with (text_line (match r with
                                | inl what => lit "removed  " ++ listed e ++ GAP ++ what
                                | inr err => lit "kept     " ++ listed e ++ lit ": " ++ error_text err
                                end) ++ out)))
  end.

(** *** Directories left empty *)
Definition NEVER : list str :=
  lit <$> ["/"; "/etc"; "/var"; "/usr"; "/opt"; "/tmp"; "/var/lib"; "/usr/local"; "/usr/local/etc"; "/usr/local/var"]%string.
Definition safe_to_tidy (dir : str) : bool :=
  negb (bool_decide (dir ∈ NEVER)) && match home_dir with Some home => negb (path_eq home dir) | None => true end
  && (2 <? length (components dir))%nat.

Definition tidy_dirs_of (e : Installed) : list str :=
  match parent_of (i_path e) with
  | Some parent => [parent; default [] (parent_of parent)]
  | None => []
  end.
Definition add_tidy (dirs : list str) (dir : str) : list str :=
  if is_empty dir || negb (safe_to_tidy dir) || existsb (path_eq dir) dirs then dirs else dirs ++ [dir].
(** [sort_by_key] keeps the order of equals. *)
Fixpoint insert_deepest (dir : str) (l : list str) : list str :=
  match l with
  | [] => [dir]
  | x :: r => if (length (components x) <=? length (components dir))%nat then dir :: x :: r else x :: insert_deepest dir r
  end.
Definition tidy_candidates (entries : list Installed) : list str :=
  foldr insert_deepest [] (foldl add_tidy [] (entries ≫= tidy_dirs_of)).

Fixpoint tidy (dirs : list str) : Io str :=
  match dirs with
  | [] => done_with []
  | dir :: rest =>
      io_bind (io_try (attempt (CouldNot "reading" dir) (fun w => if is_dir w dir && is_empty (read_dir w dir) then Some w else None)
                       ;;; attempt (CouldNot "removing" dir) (removed_dir dir))) (fun r =>
        io_bind (tidy rest) (fun out =>
          done_with (match r with
                     | inl _ => text_line (lit "removed  " ++ pad16 (lit "empty directory") ++ GAP ++ dir) ++ out
                     | inr _ => out
                     end)))
  end.
End Removing.

(** ** Erasing *)
Definition ERASE_WORD : str := lit "erase".
(** [ask_to_erase], given whether there is a terminal and the line typed *)
Definition ask_to_erase (terminal : bool) (line : option str) (summary : str) : bool + SetupError :=
  if terminal then match line with Some answer => inl (bool_decide (trim answer = ERASE_WORD)) | None => inr NoAnswer end
  else inr NoTerminal.

Definition goes (hard : bool) (w : World) (e : Installed) : bool :=
  i_owned e && fs_exists w (i_path e)
  && match i_kind e with KData | KService => true | KConfig => hard | KOther => false end.

Definition erase_summary (hard : bool) (doomed kept : list Installed) : str :=
  text_line (lit "This removes:") ++ mjoin ((fun e => text_line (lit "  " ++ listed e)) <$> doomed)
  ++ (if is_empty kept then [] else [LF] ++ text_line (lit "And leaves:") ++ mjoin ((fun e => text_line (lit "  " ++ listed e)) <$> kept))
  ++ (if negb hard && existsb (fun e => bool_decide (i_kind e = KConfig)) kept
      then [LF] ++ text_line (lit "`--erase-hard` removes the configuration, the API keys and the certificate too.") else [])
  ++ [LF] ++ lit "The data cannot be recovered afterwards.".

Section Erase.
Context `{Machine} `{Faults} `{Processes} `{HashOrder} `{ConfigFiles} `{DocParser} `{Canon}.

Definition erased_note (hard : bool) : str :=
  text_line ([LF] ++ lit "Done. "
    ++ if hard then lit "`sightingdb --setup` starts again from nothing."
       else lit "The configuration is still there: `sightingdb --setup` will reinstall the service, and starting the daemon gives an empty database.").

(** What is done once it has been confirmed *)
Definition take_away (config_path : str) (hard : bool) (service : option str) (doomed entries : list Installed) : Io str :=
  io_bind (match service with Some s => io_bind (stop_service s) (fun out => done_with (text_line out)) | None => done_with [] end) (fun out1 =>
    io_bind (stop_processes config_path) (fun out2 =>
      io_bind (remove_entries doomed) (fun out3 =>
        io_bind (tidy (tidy_candidates entries)) (fun out4 =>
          done_with (out1 ++ text_line out2 ++ out3 ++ out4 ++ erased_note hard))))).

Definition erase (config_path : str) (logging_config : option str) (hard : bool) (confirm : str -> bool + SetupError) : Io str := fun w =>
  match inventory w config_path logging_config with
  | inr e => (w, inr e)
  | inl entries =>
      let service := i_path <$> head (List.filter (fun e => is_service e && i_owned e && fs_exists w (i_path e)) entries) in
      let doomed := List.filter (goes hard w) entries in
      let kept := List.filter (fun e => fs_exists w (i_path e) && negb (goes hard w e)) entries in
      match confirm (erase_summary hard doomed kept) with
      | inr e => (w, inr e)
      | inl false => (w, inl (text_line (lit "Nothing was removed.")))
      | inl true => take_away config_path hard service doomed entries w
      end
  end.
End Erase.

(** ** The wizard *)
Definition refuse_if_a_service_exists `{Machine} (w : World) : option SetupError :=
  match List.filter (fs_exists w) service_candidates with
  | [] => None
  | installed => Some (ServiceInstalled installed)
  end.

(** [run]: the plan that was carried out and whether it wrote a key, or [None]
    when told not to go ahead *)
Definition run `{Machine, Faults} (terminal : bool) (input : Input) : Io (option (Plan * bool)) := fun w =>
  if negb terminal then (w, inr NoTerminal)
  else match detect with
       | inr e => (w, inr e)
       | inl platform =>
           match refuse_if_a_service_exists w with
           | Some e => (w, inr e)
           | None =>
               match build_plan platform (choose_scope is_root) is_root input with
               | inr e => (w, inr e)
               | inl (plan, rest) =>
                   match ask_yes_no true rest with
                   | inr e => (w, inr e)
                   | inl (false, _) => (w, inl None)
                   | inl (true, _) => io_bind (apply plan) (fun wrote => done_with (Some (plan, wrote))) w
                   end
               end
           end
       end.
