(* ===== verification/EraseFacts.v ===== *)
(** * What taking an installation away removes

    Whatever fails and wherever it stops, [--erase] removes only what it said it
    would: [erase_confined].  And what setting up wrote, [--erase-hard] takes
    away again, as the example at the end shows. *)

From stdpp Require Import base numbers list strings gmap sorting pretty.
From S2P Require Import Prelude Text Paths Acl Tags Tier Namespace Disk Database Listing DnsName Peers Config Startup Installing InstallFacts SetupConfig SetupFacts Erasing.

(** ** Only removing *)
Section Only.
Context (F D : str -> Prop).

(** Files of [F] and directories of [D] that are left with nothing in them *)
Record only_removes (w w' : World) : Prop := {
  rm_sub : w_fs w' ⊆ w_fs w;
  rm_file p c m : w_fs w !! p = Some (File c m) -> w_fs w' !! p = None -> F p;
  rm_dir p m : w_fs w !! p = Some (Dir m) -> w_fs w' !! p = None ->
    D p /\ forall q, is_Some (child_name p q) -> w_fs w' !! q = None;
}.

Lemma sub_none w w' p : w_fs w' ⊆ w_fs w -> w_fs w !! p = None -> w_fs w' !! p = None.
Proof. intros Hs Hn. destruct (w_fs w' !! p) as [n|] eqn:E; [|done]. by rewrite (lookup_weaken _ _ _ _ E Hs) in Hn. Qed.
Lemma sub_node w w' p n : w_fs w' ⊆ w_fs w -> w_fs w !! p = Some n -> w_fs w' !! p = None \/ w_fs w' !! p = Some n.
Proof.
  intros Hs Hn. destruct (w_fs w' !! p) as [n'|] eqn:E; [right|by left]. rewrite (lookup_weaken _ _ _ _ E Hs) in Hn. done.
Qed.

Lemma only_refl w w' : w_fs w' = w_fs w -> only_removes w w'.
Proof. intros E. split; [by rewrite E|intros ??? Hp; by rewrite E, Hp..|intros ?? Hp; by rewrite E, Hp]. Qed.
Lemma only_trans w1 w2 w3 : only_removes w1 w2 -> only_removes w2 w3 -> only_removes w1 w3.
Proof.
  intros [S1 F1 D1] [S2 F2 D2]. split; [by transitivity (w_fs w2)| |].
  - intros p c m Hp Hn. destruct (sub_node _ _ _ _ S1 Hp) as [H2|H2]; [by eapply F1|by eapply F2].
  - intros p m Hp Hn. destruct (sub_node _ _ _ _ S1 Hp) as [H2|H2]; [|by eapply D2].
    destruct (D1 p m Hp H2) as [? Hq]. split; [done|]. intros q Hc. eapply sub_none; [exact S2|by apply Hq].
Qed.

Definition removes {A} (m : Io A) : Prop := forall w, only_removes w (m w).1.
Lemma removes_bind {A B} (m : Io A) (k : A -> Io B) : removes m -> (forall a, removes (k a)) -> removes (io_bind m k).
Proof.
  intros Hm Hk w. unfold io_bind. specialize (Hm w). destruct (m w) as [w' [a|e]]; cbn [fst snd] in *; [|done].
  eapply only_trans; [done|apply Hk].
Qed.
Lemma removes_none {A} (m : Io A) : (forall w, w_fs (m w).1 = w_fs w) -> removes m.
Proof. intros Hm w. apply only_refl, Hm. Qed.
Lemma removes_try {A} (m : Io A) : removes m -> removes (io_try m).
Proof. intros Hm w. exact (Hm w). Qed.

Section Steps.
Context `{Machine} `{Faults} `{Processes} `{HashOrder}.

Lemma removes_attempt e act : (forall w w', act w = Some w' -> only_removes w w') -> removes (attempt e act).
Proof.
  intros Ha w. unfold attempt. destruct (fails _); [by apply only_refl|]. destruct (act w) as [w'|] eqn:E; [|by apply only_refl].
  eapply only_trans; [by apply Ha|]. by apply only_refl.
Qed.
Lemma removes_check e b : removes (attempt e (fun w => if b w : bool then Some w else None)).
Proof. apply removes_attempt. intros w w'. destruct (b w); [intros [= <-]; by apply only_refl|done]. Qed.

Lemma removed_file_only p w w' : F p -> removed_file p w = Some w' -> only_removes w w'.
Proof.
  intros Hp. unfold removed_file. destruct (w_fs w !! p) as [[c m|m]|] eqn:E; [|done..]. intros [= <-]. split; cbn.
  - apply delete_subseteq.
  - intros q c' m' Hq Hn. destruct (decide (q = p)) as [->|Hne]; [done|]. by rewrite lookup_delete_ne, Hq in Hn.
  - intros q m' Hq Hn. destruct (decide (q = p)) as [->|Hne]; [by rewrite E in Hq|]. by rewrite lookup_delete_ne, Hq in Hn.
Qed.
Lemma read_dir_empty w p : is_empty (read_dir w p) = true -> forall q, is_Some (child_name p q) -> w_fs w !! q = None.
Proof.
  intros He q [name Hq]. destruct (w_fs w !! q) as [n|] eqn:E; [|done].
  assert (Hin : name ∈ read_dir w p).
  { apply list_elem_of_omap. exists (q, n). split; [|done]. rewrite hash_iter_perm. by apply elem_of_map_to_list. }
  destruct (read_dir w p); [by apply elem_of_nil in Hin|done].
Qed.
Lemma removed_dir_only p w w' : D p -> removed_dir p w = Some w' -> only_removes w w'.
Proof.
  intros Hp. unfold removed_dir. destruct (w_fs w !! p) as [[c m|m]|] eqn:E; [done| |done].
  destruct (is_empty (read_dir w p)) eqn:Ed; [|done]. intros [= <-]. split; cbn.
  - apply delete_subseteq.
  - intros q c' m' Hq Hn. destruct (decide (q = p)) as [->|Hne]; [by rewrite E in Hq|]. by rewrite lookup_delete_ne, Hq in Hn.
  - intros q m' Hq Hn. destruct (decide (q = p)) as [->|Hne]; [|by rewrite lookup_delete_ne, Hq in Hn].
    split; [done|]. intros x Hx. rewrite lookup_delete_None. right. by eapply read_dir_empty.
Qed.
Lemma removes_file e p : F p -> removes (attempt e (removed_file p)).
Proof. intros Hp. apply removes_attempt. intros w w'. by apply removed_file_only. Qed.
Lemma removes_dir e p : D p -> removes (attempt e (removed_dir p)).
Proof. intros Hp. apply removes_attempt. intros w w'. by apply removed_dir_only. Qed.

Lemma child_join dir p name : child_name dir p = Some name -> p = path_join dir name.
Proof.
  unfold child_name. destruct (strip_prefix (path_join dir []) p) as [n|] eqn:E; [|done].
  destruct (is_empty n || _); [done|]. intros [= ->]. apply strip_prefix_spec in E as ->. unfold path_join.
  destruct (_ || _); by rewrite <- ?app_assoc, ?app_nil_r.
Qed.
Lemma read_dir_child w dir name : name ∈ read_dir w dir -> child_name dir (path_join dir name) = Some name.
Proof. intros ([q n] & _ & Hq)%list_elem_of_omap. by rewrite <- (child_join _ _ _ Hq). Qed.

Lemma removes_snapshots dir names :
  (forall name, name ∈ names -> snapshot_name name = true -> F (path_join dir name)) -> removes (remove_snapshots dir names).
Proof.
  induction names as [|name names IH]; intros HF; [by apply removes_none|]. cbn [remove_snapshots].
  assert (Hr : forall f : nat * nat -> nat * nat, removes (io_bind (remove_snapshots dir names) (fun n => done_with (f n)))).
  { intros f. apply removes_bind; [apply IH; intros; apply HF; [by right|done]|intros; by apply removes_none]. }
  apply removes_bind; [apply (removes_check _ (fun _ => true))|intros _]. intros w.
  destruct (snapshot_name name && is_file w _) eqn:E; [|apply Hr]. apply andb_true_iff in E as [E _].
  apply removes_bind; [apply removes_file, HF; [by left|done]|intros _; apply Hr].
Qed.
Lemma removes_remove p :
  F p -> D p -> (forall q name, child_name p q = Some name -> snapshot_name name = true -> F q) -> removes (remove p).
Proof.
  intros HF HD HS. apply removes_bind; [apply removes_check|intros _]. intros w. destruct (w_fs w !! p) as [[c m|m]|].
  1, 3: apply removes_bind; [by apply removes_file|intros _; by apply removes_none].
  apply removes_bind; [apply (removes_check _ (fun _ => true))|intros _]. apply removes_bind.
  - apply removes_snapshots. intros name Hn Hs. eapply HS; [|done]. by eapply read_dir_child.
  - intros [removed others]. destruct (others =? 0)%nat; [|by apply removes_none].
    apply removes_bind; [by apply removes_dir|intros _; by apply removes_none].
Qed.
Lemma removes_entries doomed : Forall (fun e => removes (remove (i_path e))) doomed -> removes (remove_entries doomed).
Proof.
  induction 1 as [|e doomed He _ IH]; [by apply removes_none|]. apply removes_bind; [by apply removes_try|intros r].
  apply removes_bind; [done|intros; by apply removes_none].
Qed.
Lemma removes_tidy dirs : Forall D dirs -> removes (tidy dirs).
Proof.
  induction 1 as [|dir dirs Hd _ IH]; [by apply removes_none|]. cbn [tidy]. apply removes_bind.
  - apply removes_try, removes_bind; [apply removes_check|intros _; by apply removes_dir].
  - intros r. apply removes_bind; [done|intros; by apply removes_none].
Qed.
End Steps.
End Only.

(** ** The commands leave the files alone, and never stop the rest. *)
Definition harmless {A} (m : Io A) : Prop := forall w, exists w' a, m w = (w', inl a) /\ w_fs w' = w_fs w.
Lemma harmless_bind {A B} (m : Io A) (k : A -> Io B) : harmless m -> (forall a, harmless (k a)) -> harmless (io_bind m k).
Proof.
  intros Hm Hk w. unfold io_bind. destruct (Hm w) as (w1 & a & -> & E1). destruct (Hk a w1) as (w2 & b & E2 & E3). exists w2, b.
  cbn. by rewrite E2, E3.
Qed.
Lemma harmless_done {A} (x : A) : harmless (done_with x).
Proof. intros w. by exists w, x. Qed.
Lemma harmless_fs {A} (m : Io A) : harmless m -> forall w, w_fs (m w).1 = w_fs w.
Proof. intros Hm w. by destruct (Hm w) as (w' & a & -> & E). Qed.

Section Commands.
Context `{Machine} `{Faults} `{Processes}.
Lemma harmless_try command : harmless (try_command command).
Proof. intros w. by do 2 eexists. Qed.
#[local] Hint Resolve harmless_bind harmless_done harmless_try : core.

Lemma harmless_in_order all commands : harmless (run_in_order all commands).
Proof.
  induction commands as [|command rest IH]; [apply harmless_done|]. intros w. apply harmless_bind; [done|]. intros [].
  - destruct all; auto.
  - auto.
Qed.
Lemma harmless_service service action : harmless (run_service_commands service action).
Proof. apply harmless_bind; [apply harmless_in_order|auto]. Qed.
Lemma harmless_alive pids : harmless (still_alive pids).
Proof. induction pids as [|pid pids IH]; [apply harmless_done|]. cbn [still_alive]. auto. Qed.
Lemma harmless_processes config_path : harmless (stop_processes config_path).
Proof.
  unfold stop_processes. destruct (pgrep config_path) as [found|]; [|auto]. destruct (running found) as [|pid pids]; [auto|].
  apply harmless_bind; [auto|intros _]. apply harmless_bind; [apply harmless_alive|intros still].
  apply harmless_bind; [destruct still; auto|auto].
Qed.
End Commands.

(** ** When nothing fails *)
Definition anything (_ : str) : Prop := True.
Definition removing {A} (m : Io A) : Prop := removes anything anything m.

Section Complete.
Context `{Machine} `{Faults} `{Processes} `{HashOrder}.

Lemma removing_remove p : removing (remove p).
Proof. by apply removes_remove. Qed.
Lemma removing_snapshots dir names : removing (remove_snapshots dir names).
Proof. by apply removes_snapshots. Qed.
Lemma removing_entries doomed : removing (remove_entries doomed).
Proof. apply removes_entries, Forall_forall. intros e _. apply removing_remove. Qed.
Lemma removing_tidy dirs : removing (tidy dirs).
Proof. by apply removes_tidy, Forall_forall. Qed.
Lemma still_gone {A} (m : Io A) w p : removing m -> w_fs w !! p = None -> w_fs (m w).1 !! p = None.
Proof. intros Hm. apply sub_none, (Hm w). Qed.

Context (Hok : forall n, fails n = false).

Lemma attempt_done e act w w' : act w = Some w' -> attempt e act w = (tick w', inl tt).
Proof. intros Ha. unfold attempt. by rewrite Hok, Ha. Qed.

Lemma bind_ok {A B} (m : Io A) (k : A -> Io B) w w1 a : m w = (w1, inl a) -> io_bind m k w = k a w1.
Proof. intros E. unfold io_bind. by rewrite E. Qed.
Lemma bind_then {A B} (m : Io A) (f : A -> B) w : (io_bind m (fun a => done_with (f a)) w).1 = (m w).1.
Proof. unfold io_bind. by destruct (m w) as [w1 [a|e]]. Qed.
Lemma bind_then_ok {A B} (m : Io A) (f : A -> B) w a : (m w).2 = inl a -> (io_bind m (fun a => done_with (f a)) w).2 = inl (f a).
Proof. unfold io_bind. by intros ->. Qed.

(** Every file among the names that is named as a snapshot is goes. *)
Lemma snapshots_gone dir names w :
  (exists n, (remove_snapshots dir names w).2 = inl n)
  /\ forall name, name ∈ names -> snapshot_name name = true -> fs_exists w (path_join dir name) = is_file w (path_join dir name) ->
       w_fs (remove_snapshots dir names w).1 !! path_join dir name = None.
Proof.
  revert w. induction names as [|x names IH]; intros w; [split; [by exists (0, 0)|intros ? Hn; by apply elem_of_nil in Hn]|].
  cbn [remove_snapshots]. rewrite (bind_ok _ _ w (tick w) tt (attempt_done _ _ w w eq_refl)).
  set (w1 := tick w). change (is_file w1 ?p) with (is_file w p).
  assert (Hgone : forall name w2, name ∈ names -> snapshot_name name = true ->
    only_removes anything anything w1 w2 -> fs_exists w (path_join dir name) = is_file w (path_join dir name) ->
    w_fs (remove_snapshots dir names w2).1 !! path_join dir name = None).
  { intros name w2 Hn Hs [HS _ _] He. apply IH; [done..|]. unfold fs_exists, is_file in *.
    change (w_fs w1) with (w_fs w) in HS. destruct (w_fs w2 !! path_join dir name) as [n|] eqn:E; [|done].
    by rewrite (lookup_weaken _ _ _ _ E HS) in He. }
  destruct (snapshot_name x && is_file w (path_join dir x)) eqn:Ex.
  - apply andb_true_iff in Ex as [Hs Hf]. unfold is_file in Hf. destruct (w_fs w !! path_join dir x) as [[c m|]|] eqn:Ef; [|done..].
    rewrite (bind_ok _ _ w1 (tick (del_node (path_join dir x) w1)) tt) by (apply attempt_done; unfold removed_file; cbn; by rewrite Ef).
    set (w2 := tick (del_node _ _)). destruct (IH w2) as [[n Hn] _]. rewrite (bind_then_ok _ _ w2 n Hn), bind_then.
    split; [by eexists|]. intros name Hin Hsn He.
    apply elem_of_cons in Hin as [->|Hin].
    + apply still_gone; [apply removing_snapshots|]. apply lookup_delete_eq.
    + apply Hgone; [done..| |done]. apply (only_trans _ _ w1 (del_node (path_join dir x) w1)); [|by apply only_refl].
      eapply (removed_file_only _ _ (path_join dir x)); [done|]. unfold removed_file. cbn. by rewrite Ef.
  - destruct (IH w1) as [[n Hn] _]. rewrite (bind_then_ok _ _ w1 n Hn), bind_then. split; [by eexists|]. intros name Hin Hsn He.
    apply elem_of_cons in Hin as [->|Hin]; [|apply Hgone; [done..|by apply only_refl|done]].
    apply still_gone; [apply removing_snapshots|]. rewrite Hsn in Ex. cbn in Ex. rewrite Ex in He. unfold fs_exists in He.
    cbn. by destruct (w_fs w !! path_join dir x).
Qed.

(** Whether a path is still to go when [d] is removed, or has gone *)
Definition due (w : World) (d p : str) : Prop :=
  w_fs w !! p = None
  \/ is_file w p = true
     /\ (p = d \/ exists name m, child_name d p = Some name /\ snapshot_name name = true /\ w_fs w !! d = Some (Dir m)).

Lemma due_kept w w' d p : only_removes anything anything w w' -> due w d p -> due w' d p.
Proof.
  intros [HS _ HD] [Hn|[Hf Hd]]; [left; by eapply sub_none|]. unfold is_file in Hf. destruct (w_fs w !! p) as [[c m|]|] eqn:E; [|done..].
  destruct (sub_node _ _ _ _ HS E) as [Hn|Hf']; [by left|]. destruct Hd as [->|(name & m' & Hc & Hs & Hd)].
  - right. unfold is_file. rewrite Hf'. by split; [|left].
  - destruct (sub_node _ _ _ _ HS Hd) as [Hn|Hd'].
    + left. destruct (HD _ _ Hd Hn) as [_ Hq]. apply Hq. by exists name.
    + right. unfold is_file. rewrite Hf'. split; [done|]. right. by exists name, m'.
Qed.
Lemma due_gone w d p : due w d p -> w_fs (remove d w).1 !! p = None.
Proof.
  intros [Hn|[Hf Hd]]; [by apply still_gone; [apply removing_remove|]|]. unfold remove.
  unfold is_file in Hf. destruct (w_fs w !! p) as [[c m|]|] eqn:E; [|done..]. destruct Hd as [->|(name & m' & Hc & Hs & Hd)].
  - rewrite (bind_ok _ _ w (tick w) tt) by (apply attempt_done; unfold fs_exists; by rewrite E).
    change (w_fs (tick w)) with (w_fs w). rewrite E.
    rewrite (bind_ok _ _ (tick w) (tick (del_node d (tick w))) tt) by (apply attempt_done; unfold removed_file; cbn; by rewrite E).
    cbn. apply lookup_delete_eq.
  - rewrite (bind_ok _ _ w (tick w) tt) by (apply attempt_done; unfold fs_exists; by rewrite Hd).
    change (w_fs (tick w)) with (w_fs w). rewrite Hd, (bind_ok _ _ (tick w) (tick (tick w)) tt) by by apply attempt_done.
    set (w1 := tick (tick w)). change (read_dir (tick w) d) with (read_dir w1 d).
    destruct (snapshots_gone d (read_dir w1 d) w1) as [[[r o] Ho] Hgone].
    assert (Hp : p = path_join d name) by by apply child_join. subst p.
    assert (Hin : name ∈ read_dir w1 d).
    { apply list_elem_of_omap. exists (path_join d name, File c m). split; [|done]. rewrite hash_iter_perm. by apply elem_of_map_to_list. }
    specialize (Hgone name Hin Hs). destruct (remove_snapshots d (read_dir w1 d) w1) as [w2 r2] eqn:Er. cbn [fst snd] in *. subst r2.
    rewrite (bind_ok _ _ w1 w2 (r, o) Er).
    assert (Hg : w_fs w2 !! path_join d name = None) by (apply Hgone; unfold fs_exists, is_file; cbn; by rewrite E).
    destruct (o =? 0)%nat; [|done]. apply still_gone; [|done].
    apply removes_bind; [by apply removes_dir|intros; by apply removes_none].
Qed.
Lemma entries_gone doomed w e p : e ∈ doomed -> due w (i_path e) p -> w_fs (remove_entries doomed w).1 !! p = None.
Proof.
  revert w. induction doomed as [|x doomed IH]; intros w; [intros Hn; by apply elem_of_nil in Hn|]. intros Hin Hd.
  cbn [remove_entries]. rewrite (bind_ok _ _ w (remove (i_path x) w).1 (remove (i_path x) w).2 eq_refl). set (w1 := (remove (i_path x) w).1).
  assert (Hg : w_fs (remove_entries doomed w1).1 !! p = None).
  { apply elem_of_cons in Hin as [->|Hin].
    - apply still_gone; [apply removing_entries|]. by apply due_gone.
    - apply IH; [done|]. eapply due_kept; [|done]. apply removing_remove. }
  by rewrite bind_then.
Qed.
End Complete.

Lemma gone_there w p : w_fs w !! p = None -> fs_exists w p = false.
Proof. intros E. unfold fs_exists. by rewrite E. Qed.

(** ** Properties *)

(** C18: erasing removes what it said it would and nothing else.  Whatever fails
    and wherever it stops, nothing is created or changed; files go only once the
    list of what goes and what stays has been confirmed; a file that goes is one
    of the list, or a file named as a snapshot is, directly in a directory of
    the list; and a directory that goes is of the list, or one that a file of the
    installation was in or the directory above, and has nothing left in it. *)
Theorem erase_confined `{Machine, Faults, Processes, HashOrder, ConfigFiles, DocParser, Canon} config_path logging hard confirm w :
  let w' := (erase config_path logging hard confirm w).1 in
  w_fs w' ⊆ w_fs w
  /\ (w_fs w' = w_fs w \/
      exists entries, inventory w config_path logging = inl entries
        /\ let doomed := List.filter (goes hard w) entries in
           let kept := List.filter (fun e => fs_exists w (i_path e) && negb (goes hard w e)) entries in
           confirm (erase_summary hard doomed kept) = inl true
           /\ (forall p c m, w_fs w !! p = Some (File c m) -> w_fs w' !! p = None ->
                exists e, e ∈ doomed /\ (p = i_path e \/ exists name, child_name (i_path e) p = Some name /\ snapshot_name name = true))
           /\ (forall p m, w_fs w !! p = Some (Dir m) -> w_fs w' !! p = None ->
                (p ∈ i_path <$> doomed \/ p ∈ tidy_candidates entries)
                /\ forall q, is_Some (child_name p q) -> w_fs w' !! q = None)).
Proof.
  unfold erase. destruct (inventory w config_path logging) as [entries|e]; [|split; [done|by left]]. cbv zeta.
  set (doomed := List.filter _ entries). set (kept := List.filter _ entries).
  destruct (confirm _) as [[]|e] eqn:Ec; [|split; [done|by left]..].
  set (F p := exists e, e ∈ doomed /\ (p = i_path e \/ exists name, child_name (i_path e) p = Some name /\ snapshot_name name = true)).
  set (D p := p ∈ i_path <$> doomed \/ p ∈ tidy_candidates entries).
  assert (Hr : forall s, removes F D (take_away config_path hard s doomed entries)).
  { intros s. apply removes_bind; [|intros out1].
    { destruct s; [|by apply removes_none]. apply removes_bind; [apply removes_none, harmless_fs, harmless_service|intros; by apply removes_none]. }
    apply removes_bind; [apply removes_none, harmless_fs, harmless_processes|intros out2]. apply removes_bind; [|intros out3].
    - apply removes_entries, Forall_forall. intros e He. apply removes_remove.
      + exists e. by split; [|left].
      + left. by apply list_elem_of_fmap_2.
      + intros q name Hq Hs. exists e. split; [done|]. right. by exists name.
    - apply removes_bind; [|intros; by apply removes_none]. apply removes_tidy, Forall_forall. intros p Hp. by right. }
  match goal with |- context [take_away config_path hard ?s doomed entries w] => destruct (Hr s w) as [HS HF HD] end.
  split; [done|]. right. exists entries. by split_and!.
Qed.

(** When nothing fails, erasing removes all it said it would: every file of
    the list, and every snapshot in a directory of the list. *)
Theorem erase_complete `{Machine, Faults, Processes, HashOrder, ConfigFiles, DocParser, Canon} config_path logging hard confirm w entries e p :
  (forall n, fails n = false) -> inventory w config_path logging = inl entries ->
  (forall summary, confirm summary = inl true) -> e ∈ entries -> goes hard w e = true -> is_file w p = true ->
  p = i_path e \/ (exists name m, child_name (i_path e) p = Some name /\ snapshot_name name = true /\ w_fs w !! i_path e = Some (Dir m)) ->
  fs_exists (erase config_path logging hard confirm w).1 p = false.
Proof.
  intros Hok Hinv Hc He Hg Hf Hp. unfold erase. rewrite Hinv, Hc. cbv zeta. unfold take_away.
  assert (Hdue : due w (i_path e) p) by (right; by split). set (doomed := List.filter (goes hard w) entries).
  assert (Hin : e ∈ doomed) by (apply list_elem_of_In, filter_In; split; [by apply list_elem_of_In|done]). clearbody doomed.
  match goal with |- context [io_bind ?m _ w] => assert (Hn : harmless m) end.
  { destruct (i_path <$> _); [|apply harmless_done]. apply harmless_bind; [apply harmless_service|intros; apply harmless_done]. }
  destruct (Hn w) as (w1 & out1 & E1 & F1). rewrite (bind_ok _ _ _ _ _ E1).
  destruct (harmless_processes config_path w1) as (w2 & out2 & E2 & F2). rewrite (bind_ok _ _ _ _ _ E2).
  assert (Hgone : w_fs (remove_entries doomed w2).1 !! p = None).
  { apply (entries_gone Hok _ _ e); [done|]. eapply due_kept; [|exact Hdue]. apply only_refl. by rewrite F2. }
  apply gone_there. revert Hgone. clear. unfold io_bind at 1.
  destruct (remove_entries doomed w2) as [w3 [out3|err]]; [|done]. cbn [fst snd]. intros Hgone. rewrite bind_then.
  apply still_gone; [apply removing_tidy|done].
Qed.

(** On macOS a restart can end with the service stopped.  When [kickstart]
    fails, as it does for a service that is not loaded under the current label,
    the fallback unloads it, and since unloading succeeds the load that should
    follow is not run. *)
Theorem restart_unloads `{Machine, Faults, Processes} service w :
  is_plist service = true -> command_succeeds (w_tick w) = false -> command_succeeds (S (w_tick w)) = true ->
  exists kickstart unload load,
    service_commands service Restart = [kickstart; unload; load]
    /\ unload = launchctl [lit "unload"; lit "-w"; service] /\ load = launchctl [lit "load"; lit "-w"; service]
    /\ w_ran (run_service_commands service Restart w).1 = w_ran w ++ [kickstart; unload].
Proof.
  intros Hp Hk Hu. unfold run_service_commands, all_of_them, service_commands. rewrite Hp. cbn [negb orb].
  rewrite bool_decide_eq_false_2 by done. do 3 eexists. split; [reflexivity|]. split; [done|]. split; [done|].
  rewrite bind_then. cbn [run_in_order orb]. unfold io_bind, try_command, run_command. cbn [fst snd w_tick]. rewrite Hk. cbn [fst snd w_tick].
  rewrite Hu. cbn. by rewrite <- app_assoc.
Qed.

(** ** A machine set up and erased *)
Definition demo_processes : Processes :=
  {| pgrep _ := Some (lit "4711" ++ [LF]); own_pid := 99%Z; complains _ := lit "no"; error_text _ := lit "error" |}.
Definition demo_canon : Canon := {| canonicalize w p := if fs_exists w p then Some p else None |}.
Definition demo_erase (hard : bool) (w : World) : World * (str + SetupError) :=
  @erase demo_machine (demo_faults false) demo_processes some_order (demo_files w) demo_doc demo_canon
    (pl_config_path demo_setup) None hard (ask_to_erase true (Some (lit "erase" ++ [LF]))) w.

Definition demo_inventory : list Installed :=
  match @inventory demo_machine some_order (demo_files demo_after) demo_doc demo_canon demo_after (pl_config_path demo_setup) None with
  | inl entries => entries
  | inr _ => []
  end.

(** The key of a server that was set up goes with [--erase-hard]. *)
Lemma erase_complete_witness :
  is_file demo_after (pl_acl_path demo_setup) = true /\ fs_exists (demo_erase true demo_after).1 (pl_acl_path demo_setup) = false.
Proof.
  split; [vm_compute; reflexivity|]. destruct (demo_inventory !! 2) as [e|] eqn:E; [|vm_compute in E; discriminate].
  apply (@erase_complete demo_machine (demo_faults false) demo_processes some_order (demo_files demo_after) demo_doc demo_canon
    (pl_config_path demo_setup) None true (fun _ => inl true) demo_after demo_inventory e).
  - intros n. reflexivity.
  - vm_compute. reflexivity.
  - intros s. reflexivity.
  - apply (list_elem_of_lookup_2 _ 2). exact E.
  - vm_compute in E. injection E as <-. vm_compute. reflexivity.
  - vm_compute. reflexivity.
  - left. vm_compute in E. injection E as <-. vm_compute. reflexivity.
Defined.

Definition demo_mac : Machine :=
  {| OS := lit "macos"; home_dir := Some (lit "/Users/ana"); current_exe := None; env_user := None; id_u := Some (lit "501");
     hostname_file := None; hostname_command := None; random_index := id; generated := None |}.
Definition kickstart_fails : Faults :=
  {| fails _ := false; left_by _ := None; command_succeeds n := (1 <=? n)%nat; decides _ _ := None; new_file_mode := 420; new_dir_mode := 493 |}.
Lemma restart_unloads_witness :
  let service := lit "/Library/LaunchDaemons/com.devo.sightingdb.plist" in
  launchctl [lit "load"; lit "-w"; service]
    ∉ w_ran (@run_service_commands demo_mac kickstart_fails demo_processes service Restart (demo_world ∅)).1.
Proof.
  intros service. destruct (@restart_unloads demo_mac kickstart_fails demo_processes service (demo_world ∅) eq_refl eq_refl eq_refl)
    as (k & u & l & Hs & Hu & Hl & Hr). rewrite Hr, Hu. vm_compute in Hs. injection Hs as <- _ _.
  apply (bool_decide_unpack _). vm_compute. exact I.
Defined.

(** Setting up and erasing: with [--erase-hard] the binary is what is left, and
    the directories that are never tidied away or that it is in. *)
Example setup_then_erase_hard :
  (map_to_list (w_fs (demo_erase true demo_after).1)).*1
  ≡ₚ lit <$> ["/root/sightingdb"; "/usr/local/bin/sightingdb"; "/usr/local/bin"; "/usr/local"; "/usr"; "/etc"; "/var/lib"; "/var"]%string.
Proof. apply (bool_decide_unpack _). vm_compute. exact I. Qed.

(** Without it, the configuration, the keys and the certificate are kept. *)
Example setup_then_erase :
  forallb (fs_exists (demo_erase false demo_after).1)
    [pl_config_path demo_setup; pl_acl_path demo_setup; pl_log_config_path demo_setup; lit "/etc/sightingdb/ssl/key.pem"] = true
  /\ forallb (fun p => negb (fs_exists (demo_erase false demo_after).1 p)) [pl_dbdir demo_setup; pl_service_path demo_setup] = true.
Proof. split; vm_compute; reflexivity. Qed.

(** The peers added since, and with them the keys this server was given by
    others, are not among the files accounted for: [--erase-hard] leaves them. *)
Example peers_left :
  let w := put_node (pl_peers_path demo_setup) (File (lit "key") 384) demo_after in
  w_fs (demo_erase true w).1 !! pl_peers_path demo_setup = Some (File (lit "key") 384).
Proof. vm_compute. reflexivity. Qed.

(** Another program's file in the database's directory goes when its name ends
    as a snapshot's does. *)
Example shared_file_goes :
  let p := path_join (pl_dbdir demo_setup) (lit "other-program.json") in
  let w := put_node p (File (lit "theirs") 420) demo_after in fs_exists (demo_erase false w).1 p = false.
Proof. vm_compute. reflexivity. Qed.

(** Asked to stop the service of a configuration that has none, it stops the
    service of another. *)
Example stops_another :
  let config := lit "/home/ana/test.toml" in
  let w := put_node config (File (show_lines [Table "daemon"; Setting "ssl" (TFlag false)]) 420) demo_after in
  w_ran (@service_control demo_machine (demo_faults false) demo_processes some_order (demo_files w) demo_doc demo_canon config None (lit "stop") w).1
  = w_ran demo_after ++ [systemctl false "stop"].
Proof. vm_compute. reflexivity. Qed.

(** [--setup] refuses a second service. *)
Example second_refused :
  (@run demo_machine (demo_faults false) true [] demo_after).2 = inr (ServiceInstalled [pl_service_path demo_setup]).
Proof. vm_compute. reflexivity. Qed.
