(* ===== verification/Running.v ===== *)
(** * Running the program

    Models the rest of [src/src/main.rs], [src/src/daemon.rs] and the timers of
    [src/src/galaxy.rs]: what a command line asks for and in which order it is
    looked at, where the configuration is found, detaching into the background,
    the state a server starts with, the workers it starts, the files of an
    import, and the four tasks of the galaxy, each a loop of rounds and naps.

    Processes, the environment and the sleep are parameters: [Launcher] makes
    files and starts a process, [Pauses] sleeps and says whether the server has
    been asked to stop. *)

From stdpp Require Import base numbers list strings gmap sorting pretty.
From S2P Require Import Prelude Text Activity Latest Attribute AttributeFacts Convergence Paths Acl Rejections Tags Tier Namespace Disk Database Contents Refine Consensus Eviction Service Accounted System Listing DnsName Peers Config Starting Forward CatchUp Handlers Exporting Admin AdminData Installing Erasing.

(** ** Where the configuration is *)
Definition config_candidates `{Machine} : list str :=
  lit "/etc/sightingdb/sightingdb.toml"
  :: match home_dir with
     | Some home => [path_join (path_join home (lit ".sightingdb")) (lit "sightingdb.toml")]
     | None => []
     end.
Definition locate `{Machine} (exists_ : str -> bool) : str + str :=
  match head (filter (fun p => exists_ p = true) config_candidates) with
  | Some found => inl found
  | None => inr (lit "no configuration found." ++ [LF]
                 ++ lit "Run `sightingdb --setup` to create one, or pass -c to point at an existing file." ++ [LF]
                 ++ lit "Looked in: " ++ join_with (lit ", ") config_candidates)
  end.

(** ** The command line *)
Record Cli := mkCli {
  cli_config : option str; cli_logging_config : option str; cli_apikey : option str; cli_import_stix : option str;
  install_selfsigned_keys : bool; cli_setup : bool; cli_installed : bool; cli_start : bool; cli_stop : bool; cli_restart : bool;
  cli_erase : bool; cli_erase_hard : bool; cli_verbose : Z;
}.

(** The actions asked for, which exclude each other. *)
Definition actions (c : Cli) : list str :=
  snd <$> filter (fun p : bool * str => p.1 = true)
    [(cli_installed c, lit "installed"); (cli_start c, lit "start"); (cli_stop c, lit "stop"); (cli_restart c, lit "restart");
     (cli_erase c, lit "erase"); (cli_erase_hard c, lit "erase-hard")].

(** What [run] goes on to do. *)
Inductive Task :=
  | Act (action config : str)
  | SetUp
  | Detach (s : Settings)
  | InstallKeys (tls : TlsSettings)
  | ImportStix (s : Settings) (path : str)
  | ServeIt (s : Settings) (config : str).

Section Run.
Context `{Machine} (exists_ : str -> bool) (load : str -> Settings + str) (is_child : bool).
(** [start_logging]; [None] is [Ok(())]. *)
Context (logging : option str -> option str).

Definition config_of (c : Cli) : str + str :=
  match cli_config c with Some path => inl path | None => locate exists_ end.

Definition run (c : Cli) : Task + str :=
  match actions c with
  | _ :: _ :: _ => inr (lit "--" ++ join_with (lit " and --") (actions c) ++ lit " cannot be combined")
  | [action] => match config_of c with inl path => inl (Act action path) | inr e => inr e end
  | [] =>
      match logging (cli_logging_config c) with
      | Some e => inr e
      | None =>
          if cli_setup c then inl SetUp
          else
            match config_of c with
            | inr e => inr e
            | inl path =>
                match load path with
                | inr e => inr e
                | inl s =>
                    if s_daemonize s && negb is_child then inl (Detach s)
                    else if install_selfsigned_keys c then
                      match s_tls s with
                      | Some tls => inl (InstallKeys tls)
                      | None => inr (lit "ssl is off in " ++ path
                                     ++ lit ", so there is no certificate to install. Set ssl = true first.")
                      end
                    else
                      match cli_import_stix c with
                      | Some what => inl (ImportStix s what)
                      | None => inl (ServeIt s path)
                      end
                end
            end
      end
  end.
End Run.

(** A process detaches once: the launcher starts the child and does nothing else,
    and the child, which is given the same arguments, does not detach again but
    serves, imports or installs keys.  Setting up needs no configuration. *)
Theorem detach_once `{Machine} exists_ load is_child logging c :
  match run exists_ load is_child logging c with
  | inl (Detach s) => is_child = false /\ s_daemonize s = true
      /\ forall s', run exists_ load true logging c <> inl (Detach s')
  | inl (InstallKeys _) => forall p s, config_of exists_ c = inl p -> load p = inl s -> s_daemonize s = true -> is_child = true
  | inl (ImportStix s _) | inl (ServeIt s _) => s_daemonize s = true -> is_child = true
  | inl SetUp => forall exists' load' is_child', run exists' load' is_child' logging c = inl SetUp
  | _ => True
  end.
Proof.
  unfold run. destruct (actions c) as [|a [|b l]]; [|by destruct (config_of _ _)|done].
  destruct (logging _); [done|]. destruct (cli_setup c); [done|]. destruct (config_of exists_ c) as [p|e]; [|done].
  destruct (load p) as [s|e] eqn:El; [|done]. destruct (s_daemonize s) eqn:Ed, is_child; cbn [andb negb];
    repeat case_match; simplify_eq; try done; try (by split_and!); (intros p' s' [= <-] Hs Hd; congruence) || congruence.
Qed.

(** ** Into the background *)
Record Child := mkChild { ch_exe : str; ch_args : list str; ch_env : list (str * str); ch_out : str; ch_err : str }.
Class Launcher (W : Type) := {
  create_file : str -> str -> W -> W * option str;   (** a path, a text: an error, if there was one *)
  own_exe : W -> option str;
  own_args : W -> list str;
  spawn : Child -> W -> W * (Z + str);
}.
Definition CHILD_ENV : str := lit "SIGHTINGDB_DAEMON_CHILD".
Definition PID_FILE_ENV : str := lit "SIGHTINGDB_PID_FILE".

Definition pid_file_candidates `{Machine} : list str :=
  [lit "/var/run/sightingdb.pid"]
  ++ match home_dir with Some home => [path_join (path_join home (lit ".sightingdb")) (lit "sightingdb.pid")] | None => [] end
  ++ [lit "./sightingdb.pid"].

Section Detaching.
Context {W : Type} `{Launcher W} `{Machine}.

(** The first candidate that can be written, which it then is, empty. *)
Fixpoint first_writable (l : list str) : Net W (option str) :=
  match l with
  | [] => mret None
  | p :: rest => e ← create_file p []; match e with None => mret (Some p) | Some _ => first_writable rest end
  end.
Definition choose_pid_file : Net W (option str) := first_writable pid_file_candidates.

Definition detach (log_out log_err : str) : Net W (Z + str) :=
  exe ← act (fun w => (w, own_exe w));
  match exe with
  | None => mret (inr (lit "locating our own executable"))
  | Some exe =>
      out ← create_file log_out [];
      match out with
      | Some _ => mret (inr (lit "creating " ++ log_out))
      | None =>
          err ← create_file log_err [];
          match err with
          | Some _ => mret (inr (lit "creating " ++ log_err))
          | None =>
              pid_path ← choose_pid_file;
              args ← act (fun w => (w, own_args w));
              child ← spawn (mkChild exe args ((CHILD_ENV, lit "1") :: match pid_path with
                                                                       | Some p => [(PID_FILE_ENV, p)]
                                                                       | None => []
                                                                       end) log_out log_err);
              match child with
              | inr _ => mret (inr (lit "re-executing " ++ exe))
              | inl pid =>
                  _ ← match pid_path with Some p => create_file p (signed_decimal pid ++ [LF]) | None => mret None end;
                  mret (inl pid)
              end
          end
      end
  end.
End Detaching.

(** ** The state a server starts with *)
Definition shared_state `{HashOrder} (s : Settings) (d : Database) (apikey : option str) : SharedState :=
  mkShared d (s_authenticate s) (startup_acl (s_acl s) (legacy_apikeys d) apikey) (rj_new (Z.to_nat (s_rejection_log s)))
    (galaxy_new <$> s_galaxy s) ∅ (match s_galaxy s with Some g => gs_acl_replaceable g | None => false end)
    (match s_galaxy s with Some _ => true | None => false end) (s_tags s) (s_listen s) (s_acl_file s) (s_tiers_file s)
    (s_tags_file s) (match s_galaxy s with Some _ => s_peers_file s | None => None end) (s_stix s).

(** The workers of [spawn_workers], with their intervals. *)
Definition workers (s : Settings) (dbdir : option str) : list (str * Z) :=
  (if bool_decide (0 < s_sweep_interval s)%Z then [(lit "sightingdb-sweeper", s_sweep_interval s)] else [])
  ++ match dbdir with
     | Some _ => if bool_decide (0 < s_snapshot_interval s)%Z then [(lit "sightingdb-snapshot", s_snapshot_interval s)] else []
     | None => []
     end.

(** ** The files of an import *)
Inductive Entry_ := IsFile | IsDir (names : list str) | Unlisted | Unreadable.
(** [Path::extension]: what follows the last dot, unless that dot starts the name. *)
Definition extension (path : str) : option str :=
  let name := match rsplit_once SLASH path with Some (_, n) => n | None => path end in
  match rsplit_once DOT name with Some ([], _) | None => None | Some (_, ext) => Some ext end.
Definition is_json (path : str) : bool :=
  match extension path with Some e => eq_ignore_ascii_case e (lit "json") | None => false end.
Definition stix_files (look : str -> Entry_) (path : str) : list str + str :=
  match look path with
  | Unreadable => inr (lit "reading " ++ path)
  | IsFile => inl [path]
  | Unlisted => inr (lit "listing " ++ path)
  | IsDir names => inl (sort_strs (filter (fun p => is_json p = true) (path_join path <$> names)))
  end.

(** ** The tasks of the galaxy *)
Class Pauses (W : Type) := {
  stopping : W -> bool;                 (** [shutdown.is_stopped()] *)
  slept : Z -> W -> W * unit;           (** [sleep] *)
  napped : Z -> W -> W * bool;          (** [nap]: whether it was asked to stop *)
}.

Section Tasks.
Context {W : Type} `{Network W} `{Serde} `{HashOrder} `{Chrono} `{PageFormat} `{Pauses W}.
Context (digest32 : str -> N) (disk : Disk) (clock : W -> Z).
Abbreviation Handler A := (Net (W * SharedState) A).

Definition nap_here (period : Z) : Handler bool := act (fun ws => let r := napped period ws.1 in ((r.1, ws.2), r.2)).
Definition stopping_here : Handler bool := act (fun ws => (ws, stopping ws.1)).
Definition sleep_here (period : Z) : Handler unit := act (fun ws => let r := slept period ws.1 in ((r.1, ws.2), tt)).

(** A loop, for at most [fuel] turns: whether it has ended, and what the turns
    leave for the next.  A turn says whether it is the last. *)
Fixpoint looping {S : Type} (fuel : nat) (turn : S -> Handler (S * bool)) (st : S) : Handler (S * bool) :=
  match fuel with
  | O => mret (st, false)
  | Datatypes.S f => r ← turn st; if (r.2 : bool) then mret (r.1, true) else looping f turn r.1
  end.

(** [galaxy::run] *)
Definition probe_peer (latency : W -> Z) (status_text : Z -> str) (st : bool) (peer : Peer) : Handler bool :=
  if st then mret true
  else
    stop ← stopping_here;
    if (stop : bool) then mret true
    else
      act (fun ws =>
        let r := probe latency status_text (p_url peer) ws.1 in
        ((r.1, with_galaxy ws.2 ((fun g => galaxy_record (clock r.1) g (p_url peer) r.2) <$> galaxy ws.2)), false)).
Definition health_turn (latency : W -> Z) (status_text : Z -> str) (period : Z) (st : unit) : Handler (unit * bool) :=
  s ← get_state;
  stopped ← net_fold (probe_peer latency status_text) false (match galaxy s with Some g => peers g | None => [] end);
  if (stopped : bool) then mret (tt, true)
  else
    stop ← stopping_here;
    if (stop : bool) then mret (tt, true) else _ ← sleep_here period; mret (tt, false).
Definition health_task (latency : W -> Z) (status_text : Z -> str) (fuel : nat) : Handler bool :=
  s ← get_state;
  match galaxy s with
  | None => mret true
  | Some g =>
      if negb (have_client (verify_tls g)) then mret true
      else r ← looping fuel (health_turn latency status_text (health_interval g)) tt; mret r.2
  end.

(** [galaxy::sync]; [rounds] bounds the pages of one namespace. *)
Definition sync_turn (rounds : nat) (period : Z) (first : bool) : Handler (bool * bool) :=
  first' ← sync_round digest32 disk clock rounds first;
  stop ← nap_here period;
  mret (first', stop).
Definition sync_task (rounds fuel : nat) : Handler bool :=
  _ ← sync_start;
  s ← get_state;
  match galaxy s with
  | None => mret true
  | Some g =>
      if bool_decide (sync_interval g = 0%Z) then mret true
      else r ← looping fuel (sync_turn rounds (sync_interval g)) true; mret r.2
  end.

(** [galaxy::gossip] and [galaxy::reconcile], which wait first. *)
Definition waiting_turn (period : Z) (round : Handler unit) (st : unit) : Handler (unit * bool) :=
  stop ← nap_here period;
  if (stop : bool) then mret (tt, true) else _ ← round; mret (tt, false).
Definition gossip_task (fuel : nat) : Handler bool :=
  s ← get_state;
  match galaxy s with
  | None => mret true
  | Some g =>
      if bool_decide (gossip_interval g = 0%Z) then mret true
      else match acl_file s with
           | None => mret true
           | Some _ =>
               r ← looping fuel (waiting_turn (gossip_interval g) (_ ← gossip_round; mret tt)) tt; mret r.2
           end
  end.
Definition reconcile_task (rounds fuel : nat) : Handler bool :=
  s ← get_state;
  match galaxy s with
  | None => mret true
  | Some g =>
      if bool_decide (reconcile_interval g = 0%Z) then mret true
      else
        r ← looping fuel (waiting_turn (reconcile_interval g)
               (s' ← get_state;
                match galaxy s' with
                | Some g' => _ ← on_galaxy (rebuild_consensus digest32 disk clock rounds g'); mret tt
                | None => mret tt
                end)) tt;
        mret r.2
  end.
End Tasks.

(** ** The tasks end

    [left w] is how many more naps there are before the server is asked to stop. *)
Class Expects {W : Type} `{Network W} `{Pauses W} (left : W -> nat) : Prop := {
  exchange_ages rq w : left (exchange rq w).1 <= left w;
  nap_ages p w : (napped p w).2 = false -> left (napped p w).1 < left w;
  sleep_ages p w : stopping w = false -> left (slept p w).1 < left w;
}.

Section Ending.
Context {W : Type} `{Network W} `{Serde} `{HashOrder} `{Chrono} `{PageFormat} `{Pauses W} (left : W -> nat) `{!Expects left}.
Context (digest32 : str -> N) (disk : Disk) (clock : W -> Z).

(** A computation that does not bring the naps back. *)
Definition ages {S A} (m : Net (W * S) A) : Prop := forall ws, left (m ws).1.1 <= left ws.1.

Lemma ages_ret {S A} (x : A) : ages (S := S) (mret x).
Proof. intros ws. cbn. lia. Qed.
Lemma ages_bind {S A B} (m : Net (W * S) A) (k : A -> Net (W * S) B) : ages m -> (forall x, ages (k x)) -> ages (m ≫= k).
Proof.
  intros Hm Hk ws. unfold mbind, Net_bind. cbv zeta. pose proof (Hm ws). pose proof (Hk (m ws).2 (m ws).1). lia.
Qed.
Lemma ages_fold {S A B} (f : B -> A -> Net (W * S) B) b l : (forall b x, ages (f b x)) -> ages (net_fold f b l).
Proof. intros Hf. revert b. induction l as [|x l IH]; intros b; [apply ages_ret|]. by apply ages_bind. Qed.
Lemma ages_send {S} g p method path body hops origin : ages (S := S) (send g p method path body hops origin).
Proof.
  unfold send. destruct (negb _); [apply ages_ret|]. apply ages_bind; [|intros; apply ages_ret].
  intros ws. cbn. apply exchange_ages.
Qed.

Lemma ages_ask g p path : ages (CatchUp.ask (W := W) g p path).
Proof. apply ages_send. Qed.
Lemma ages_namespaces_of g p : ages (namespaces_of (W := W) g p).
Proof. apply ages_bind; [apply ages_ask|]. intros. apply ages_ret. Qed.

Lemma ages_pull fuel g p ns off merged : ages (pull_loop digest32 disk clock fuel g p ns off merged).
Proof.
  revert off merged. induction fuel as [|f IH]; intros off merged; cbn [pull_loop]; [apply ages_ret|].
  apply ages_bind; [apply ages_ask|]. intros [a|e]; [|apply ages_ret]. destruct (negb _); [apply ages_ret|].
  destruct (parse_page _) as [pg|e]; [|apply ages_ret]. intros ws. unfold act. cbv zeta.
  destruct (_ || _); [cbn; lia|]. apply (IH _ _ (ws.1, _)).
Qed.

Lemma ages_behind g p ns : ages (behind_on digest32 disk clock g p ns).
Proof.
  apply ages_bind; [apply ages_ask|]. intros [a|e]; [|apply ages_ret]. destruct (from_slice _); [|apply ages_ret].
  intros ws. cbn. lia.
Qed.

Lemma ages_catch_up fuel g full : ages (catch_up digest32 disk clock fuel g full).
Proof.
  apply ages_fold. intros rep p. apply ages_bind; [apply ages_namespaces_of|]. intros [names|e]; [|apply ages_ret].
  apply ages_fold. intros rep' ns. unfold catch_up_namespace. destruct rep' as [r|]; [|apply ages_ret].
  intros ws. unfold act. destruct (_ || _); [cbn; lia|]. cbv zeta.
  assert (Hb : left (if full then (ws, true) else behind_on digest32 disk clock g p ns ws).1.1 <= left ws.1).
  { destruct full; [cbn; lia|apply ages_behind]. }
  destruct (negb _); [exact Hb|]. cbn [fst]. etransitivity; [apply ages_pull|exact Hb].
Qed.

Lemma ages_survey fuel g p ns off h : ages (survey_loop (W := W) fuel g p ns off h).
Proof.
  revert off h. induction fuel as [|f IH]; intros off h; cbn [survey_loop]; [apply ages_ret|].
  apply ages_bind; [apply ages_ask|]. intros [a|e]; [|apply ages_ret]. destruct (negb _); [apply ages_ret|].
  destruct (parse_page _) as [pg|e]; [|apply ages_ret]. cbv zeta. destruct (_ || _); [apply ages_ret|apply IH].
Qed.

Lemma ages_rebuild fuel g : ages (rebuild_consensus digest32 disk clock fuel g).
Proof.
  apply ages_bind.
  - apply ages_fold. intros st p. unfold survey_peer. destruct st as [[st|e]|]; [|apply ages_ret..].
    apply ages_bind; [apply ages_namespaces_of|]. intros [names|e]; [|apply ages_ret]. apply ages_fold. intros st' ns.
    unfold survey_namespace. destruct st' as [[[h seen]|e]|]; [|apply ages_ret..]. destruct (_ || _); [apply ages_ret|].
    apply ages_bind; [apply ages_survey|]. intros. apply ages_ret.
  - intros [[[h seen]|e]|]; [|apply ages_ret..]. intros ws. cbn. lia.
Qed.

Lemma ages_spread g method path body hops : ages (S := SharedState) (spread g method path body hops).
Proof.
  unfold spread. destruct (bool_decide _); [apply ages_ret|]. apply ages_fold. intros r p.
  apply ages_bind; [apply ages_send|]. intros. apply ages_ret.
Qed.

Lemma ages_offer push counted st j : (forall j, ages (push j)) -> ages (offer (W := W) push counted st j).
Proof. intros Hp. apply ages_bind; [apply Hp|]. intros. apply ages_ret. Qed.

Lemma ages_gossip : ages (gossip_round (W := W)).
Proof.
  unfold gossip_round. apply ages_bind; [intros ws; cbn; lia|]. intros s. destruct (galaxy s) as [g|]; [|apply ages_ret].
  cbv zeta. apply ages_bind.
  - destruct (owns_the_acl g).
    + apply ages_bind; [apply ages_spread|]. intros r. cbv zeta. destruct (bool_decide _); [|apply ages_ret].
      apply ages_fold. intros st j. apply ages_offer. intros. apply ages_spread.
    + apply ages_fold. intros st j. apply ages_offer. intros. apply ages_spread.
  - intros st. apply ages_fold. intros st' j. apply ages_offer. intros. apply ages_spread.
Qed.

(** A loop whose turns each use up a nap, or end it. *)
Lemma looping_ends {S} (turn : S -> Net (W * SharedState) (S * bool)) :
  (forall st ws, (turn st ws).2.2 = false -> left (turn st ws).1.1 < left ws.1) ->
  forall fuel st ws, left ws.1 < fuel -> (looping fuel turn st ws).2.2 = true.
Proof.
  intros Ht fuel. induction fuel as [|f IH]; intros st ws Hf; [lia|]. cbn [looping]. unfold mbind, Net_bind. cbv zeta.
  destruct (turn st ws).2.2 eqn:E; [done|]. apply IH. specialize (Ht st ws E). lia.
Qed.

Lemma waiting_ends period round st ws :
  ages round -> (waiting_turn period round st ws).2.2 = false -> left (waiting_turn period round st ws).1.1 < left ws.1.
Proof.
  intros Hr. unfold waiting_turn, nap_here, act, mbind, Net_bind. cbv zeta. cbn [fst snd].
  destruct (napped period ws.1).2 eqn:E; [done|]. intros _.
  eapply Nat.le_lt_trans; [apply (Hr (_, ws.2))|exact (nap_ages _ _ E)].
Qed.

(** A task: it looks at the state, then loops. *)
Lemma task_starts (k : SharedState -> Net (W * SharedState) bool) ws : (k ws.2 ws).2 = true -> ((get_state ≫= k) ws).2 = true.
Proof. done. Qed.
Lemma task_loops {S} (turn : S -> Net (W * SharedState) (S * bool)) st ws fuel :
  (forall st ws, (turn st ws).2.2 = false -> left (turn st ws).1.1 < left ws.1) -> left ws.1 < fuel ->
  ((r ← looping fuel turn st; mret r.2) ws).2 = true.
Proof. intros Ht Hf. exact (looping_ends turn Ht fuel st ws Hf). Qed.

Lemma sync_turn_ends rounds period first ws :
  (sync_turn digest32 disk clock rounds period first ws).2.2 = false ->
  left (sync_turn digest32 disk clock rounds period first ws).1.1 < left ws.1.
Proof.
  assert (Hr : ages (sync_round digest32 disk clock rounds first)).
  { intros [w s]. unfold sync_round, act. cbn [fst snd]. destruct (galaxy s) as [g|]; [|done].
    destruct (is_empty _); [done|]. cbv zeta. cbn [fst]. apply (ages_catch_up rounds g first (w, db s)). }
  unfold sync_turn. unfold mbind, Net_bind. cbv zeta. unfold nap_here, act. cbn [fst snd]. intros E.
  eapply Nat.lt_le_trans; [exact (nap_ages _ _ E)|apply Hr].
Qed.

Lemma health_turn_ends latency status_text period st ws :
  (health_turn clock latency status_text period st ws).2.2 = false ->
  left (health_turn clock latency status_text period st ws).1.1 < left ws.1.
Proof.
  unfold health_turn, mbind, Net_bind. cbv zeta. unfold get_state, act. cbn [fst snd].
  set (round := net_fold _ _ _).
  assert (Hr : ages round).
  { apply ages_fold. intros b p. unfold probe_peer. destruct b; [apply ages_ret|].
    apply ages_bind; [intros [w s]; cbn; lia|]. intros []; [apply ages_ret|]. intros [w s]. unfold act. cbv zeta. cbn [fst].
    apply exchange_ages. }
  specialize (Hr ws). destruct (round ws) as [[w' s'] [|]]; cbn [fst snd] in *; [done|].
  unfold stopping_here, act. cbn [fst snd]. destruct (stopping w') eqn:E; [done|]. intros _.
  unfold sleep_here, act. cbv zeta. cbn [fst snd]. pose proof (sleep_ages period w' E). cbn in *. lia.
Qed.

(** Every task of the galaxy ends once the server is asked to stop: the probes,
    the catching up, the gossip and the reconciling each leave their loop after
    no more turns than there are naps until then, whatever the peers answer. *)
Theorem tasks_end latency status_text rounds ws fuel :
  left ws.1 < fuel ->
  (health_task clock latency status_text fuel ws).2 = true
  /\ (sync_task digest32 disk clock rounds fuel ws).2 = true
  /\ (gossip_task fuel ws).2 = true
  /\ (reconcile_task digest32 disk clock rounds fuel ws).2 = true.
Proof.
  intros Hf. split_and!.
  - apply task_starts. destruct (galaxy ws.2) as [g|]; [|done]. destruct (negb _); [done|].
    apply task_loops; [|done]. intros. by apply health_turn_ends.
  - unfold sync_task. unfold mbind at 1, Net_bind at 1. cbv zeta. apply task_starts.
    destruct (galaxy _) as [g|]; [|done]. destruct (bool_decide _); [done|]. apply task_loops; [intros; by apply sync_turn_ends|].
    unfold sync_start, act. destruct (galaxy ws.2); [|done]. by destruct (_ || _).
  - apply task_starts. destruct (galaxy ws.2) as [g|]; [|done]. destruct (bool_decide _); [done|]. destruct (acl_file _); [|done].
    apply task_loops; [|done]. intros st ws'. apply waiting_ends. apply ages_bind; [apply ages_gossip|intros; apply ages_ret].
  - apply task_starts. destruct (galaxy ws.2) as [g|]; [|done]. destruct (bool_decide _); [done|].
    apply task_loops; [|done]. intros st ws'. apply waiting_ends. apply ages_bind; [intros [w s]; cbn; lia|]. intros s'.
    destruct (galaxy s') as [g'|]; [|apply ages_ret]. apply ages_bind; [|intros; apply ages_ret].
    intros [w s]. unfold on_galaxy, act. cbv zeta. cbn [fst]. apply (ages_rebuild rounds g' (w, db s)).
Qed.
End Ending.
