(* ===== verification/DnsAnswer.v ===== *)
(** * Answering DNS queries

    Models [src/src/dns/answer.rs] and the decisions of
    [src/src/dns/server.rs]: which queries are answered, with what, and how
    much one address may ask.  Messages and records are those of the
    [hickory-proto] crate, reduced to the fields this code reads and writes;
    labels are as [from_utf8_lossy] reads them. *)

From stdpp Require Import base numbers list strings gmap sorting pretty.
From S2P Require Import Prelude Activity Latest Attribute AttributeFacts Convergence Paths Tags Tier Namespace Disk Database Persistence Contents Refine Service DnsName.

(** ** Messages *)
Inductive OpCode := OpQuery | OpOther.
Inductive DNSClass := ClassIN | ClassOther.
Inductive RecordType := TypeA | TypeTXT | TypeANY | TypeSOA | TypeNS | TypeOther.
Inductive ResponseCode := NoError | FormErr | NXDomain | NotImp | RRefused.

Abbreviation DName := (list str).
Inductive RData :=
  | RA (octets : list N)
  | RTXT (strings : list str)
  | RNS (name : DName)
  | RSOA (mname rname : DName) (serial refresh retry expire minimum : Z).
Record Record_ := mkRecord { rname : DName; rttl : Z; rdata : RData }.
Record Query := mkQuery { q_name : DName; q_type : RecordType; q_class : DNSClass }.
Record Request := mkRequest { op_code : OpCode; queries : list Query }.
Record Response := mkResponse {
  response_code : ResponseCode; echoed : list Query; answers : list Record_; authorities : list Record_
}.

Inductive Outcome := Answers (records : list Record_) | NoData | ONxDomain | ORefused.

Record Responder := mkResponder {
  zone : DName; zone_labels : DName; exposed : list Exposed; dns_ttl : Z; dns_shadow : bool
}.

(** ** Text *)

(** [labels_of] *)
Definition labels_of (n : DName) : list str := to_ascii_lowercase <$> n.

Definition responder_new (z : DName) (e : list Exposed) (t : Z) (sh : bool) : Responder :=
  mkResponder z (labels_of z) e t sh.

Definition magnitude (c : Z) : Z :=
  (if bool_decide (c = 0) then 0
   else if bool_decide (c = 1) then 1
   else if bool_decide (c <= 9) then 2
   else if bool_decide (c <= 99) then 3
   else if bool_decide (c <= 999) then 4
   else if bool_decide (c <= 9999) then 5
   else if bool_decide (c <= 99999) then 6
   else if bool_decide (c <= 999999) then 7
   else if bool_decide (c <= 9999999) then 8
   else 9)%Z.

Definition quote_field (s : str) : str := in_quotes (escape s).

(** The longest prefix of at most [budget] bytes that ends between characters:
    where stepping back from the byte limit stops. *)
Fixpoint take_bytes (budget : nat) (s : str) : str * str :=
  match s with
  | [] => ([], [])
  | c :: r =>
      if utf8_len c <=? budget then
        let q := take_bytes (budget - utf8_len c) r in (c :: q.1, q.2)
      else ([], s)
  end.

(** The [while] loop; every pass takes at least one character, so as many passes
    as there are characters are enough. *)
Fixpoint chunks (fuel : nat) (s : str) : list str :=
  match fuel, s with
  | S f, _ :: _ => let q := take_bytes 255 s in q.1 :: chunks f q.2
  | _, _ => []
  end.

Definition character_strings (text : str) : list str :=
  if str_len text <=? 255 then [text] else chunks (length text) text.

(** ** Records *)
Definition a_record (r : Responder) (n : DName) (vw : AttributeView) : Record_ :=
  mkRecord n (dns_ttl r) (RA [127; 0; 0; Z.to_N (magnitude (v_count vw))]%N).

Definition txt_text (vw : AttributeView) : str :=
  lit "count=" ++ signed_decimal (v_count vw) ++ lit " first_seen=" ++ signed_decimal (v_first_seen vw)
  ++ lit " last_seen=" ++ signed_decimal (v_last_seen vw) ++ lit " consensus=" ++ signed_decimal (v_consensus vw)
  ++ lit " ttl=" ++ signed_decimal (v_ttl vw) ++ lit " tags=" ++ quote_field (v_tags vw).

Definition txt_record (r : Responder) (n : DName) (vw : AttributeView) : Record_ :=
  mkRecord n (dns_ttl r) (RTXT (character_strings (txt_text vw))).

(** [Name::append_domain] of the crate, which fails for a name that would be too
    long. *)
Class DnsNames := append_domain : DName -> DName -> option DName.

Definition soa_record `{DnsNames} (r : Responder) : Record_ :=
  mkRecord (zone r) (dns_ttl r)
    (RSOA (zone r) (default (zone r) (append_domain [lit "hostmaster"] (zone r))) 1 3600 600 86400 (dns_ttl r)).

Definition answer_apex `{DnsNames} (r : Responder) (t : RecordType) : Outcome :=
  match t with
  | TypeSOA => Answers [soa_record r]
  | TypeNS => Answers [mkRecord (zone r) (dns_ttl r) (RNS (zone r))]
  | _ => NoData
  end.

(** [slice::ends_with] *)
Definition ends_with_labels (zone l : list str) : bool := bool_decide (is_Some (strip_labels zone l)).

Section Answering.
Context `{HashOrder} `{DnsNames} (base32_decode : list N -> option (list N)) (digest32 : str -> N) (disk : Disk) (now : Z).

Definition records_for (r : Responder) (q : Query) (vw : AttributeView) : Outcome :=
  match q_type q with
  | TypeA => Answers [a_record r (q_name q) vw]
  | TypeTXT => Answers [txt_record r (q_name q) vw]
  | TypeANY => Answers [a_record r (q_name q) vw; txt_record r (q_name q) vw]
  | _ => NoData
  end.

Definition answer (r : Responder) (db : Database) (q : Query) : Database * Outcome :=
  let qlabels := labels_of (q_name q) in
  if negb (ends_with_labels (zone_labels r) qlabels) then (db, ORefused)
  else if length qlabels =? length (zone_labels r) then (db, answer_apex r (q_type q))
  else match dns_resolve base32_decode qlabels (zone_labels r) (exposed r) with
       | None => (db, ONxDomain)
       | Some l =>
           let p := client_read digest32 disk now db (ex_namespace (lk_exposed l)) (lk_value l) false (dns_shadow r) in
           (p.1, match p.2 with
                 | inl vw => records_for r q vw
                 | inr (ENotFound _) => ONxDomain
                 | inr _ => ORefused
                 end)
       end.

Definition respond (r : Responder) (db : Database) (req : Request) : Database * Response :=
  match op_code req with
  | OpOther => (db, mkResponse NotImp [] [] [])
  | OpQuery =>
      match queries req with
      | [] => (db, mkResponse FormErr [] [] [])
      | q :: _ =>
          match q_class q with
          | ClassOther => (db, mkResponse NotImp [q] [] [])
          | ClassIN =>
              let a := answer r db q in
              (a.1, match a.2 with
                    | Answers rs => mkResponse NoError [q] rs []
                    | NoData => mkResponse NoError [q] [] [soa_record r]
                    | ONxDomain => mkResponse NXDomain [q] [] [soa_record r]
                    | ORefused => mkResponse RRefused [q] [] []
                    end)
          end
      end
  end.
End Answering.

(** ** The server's limits *)
Definition DEFAULT_UDP_LIMIT : nat := 512.
Definition MAX_UDP_LIMIT : nat := 1232.
Definition udp_limit (advertised : option nat) : nat :=
  match advertised with
  | Some payload => Nat.min (Nat.max payload DEFAULT_UDP_LIMIT) MAX_UDP_LIMIT
  | None => DEFAULT_UDP_LIMIT
  end.

(** ** The rate limiter

    An address is anything with decidable equality; [shard_index] is the hash
    that spreads addresses over the sixteen shards, and [window] the seconds
    since the server started. *)
Definition SHARDS : nat := 16.
Record LimitShard := mkLimitShard { ls_window : Z; ls_counts : gmap str Z }.
Record RateLimiter := mkLimiter { rl_limit : Z; rl_shards : gmap nat LimitShard; dropped : Z }.

Section Limiting.
Context (hash_one : str -> nat).
Definition shard_index (source : str) : nat := hash_one source mod SHARDS.

Definition limiter_new (limit : Z) : RateLimiter :=
  mkLimiter limit (list_to_map ((fun i => (i, mkLimitShard 0 ∅)) <$> seq 0 SHARDS)) 0.

Definition u32_add (a b : Z) : Z := ((a + b) mod 2 ^ 32)%Z.

Definition allow (l : RateLimiter) (window : Z) (source : str) : RateLimiter * bool :=
  if bool_decide (rl_limit l = 0%Z) then (l, true)
  else
    let i := shard_index source in
    let s := default (mkLimitShard 0 ∅) (rl_shards l !! i) in
    let s1 := if bool_decide (ls_window s <> window) then mkLimitShard window ∅ else s in
    let c := u32_add (default 0%Z (ls_counts s1 !! source)) 1 in
    let l1 := <[i := mkLimitShard (ls_window s1) (<[source := c]> (ls_counts s1))]> (rl_shards l) in
    if bool_decide (rl_limit l < c)%Z then (mkLimiter (rl_limit l) l1 (u64_add (dropped l) 1), false)
    else (mkLimiter (rl_limit l) l1 (dropped l), true).
End Limiting.

(** ** TXT records *)
Lemma take_bytes_spec budget s :
  let q := take_bytes budget s in
  q.1 ++ q.2 = s /\ str_len q.1 <= budget
  /\ (q.2 = [] \/ exists c r, q.2 = c :: r /\ budget < str_len q.1 + utf8_len c).
Proof.
  revert budget. induction s as [|c s IH]; intros budget; cbn [take_bytes].
  - split_and!; [done|unfold str_len; simpl; lia|by left].
  - destruct (utf8_len c <=? budget) eqn:E; [apply Nat.leb_le in E|apply Nat.leb_gt in E]; cbn [fst snd].
    + destruct (IH (budget - utf8_len c)) as (H1 & H2 & H3).
      assert (Hl : forall x, str_len (c :: x) = utf8_len c + str_len x) by done. rewrite Hl. split_and!.
      * cbn [app]. by rewrite H1.
      * lia.
      * destruct H3 as [->|(d & r & -> & H3)]; [by left|right]. exists d, r. split; [done|lia].
    + split_and!; [done|unfold str_len; simpl; lia|]. right. exists c, s. split; [done|]. unfold str_len. simpl. lia.
Qed.

Lemma utf8_len_range c : 1 <= utf8_len c <= 4.
Proof. unfold utf8_len. repeat destruct (_ <? _)%N; lia. Qed.

Lemma chunks_spec fuel s :
  length s <= fuel ->
  mjoin (chunks fuel s) = s /\ Forall (fun p => p <> [] /\ str_len p <= 255) (chunks fuel s).
Proof.
  revert s. induction fuel as [|fuel IH]; intros s Hf; [destruct s; [done|simpl in Hf; lia]|].
  destruct s as [|c s]; [done|]. cbn [chunks].
  destruct (take_bytes_spec 255 (c :: s)) as (H1 & H2 & H3).
  assert (Hne : (take_bytes 255 (c :: s)).1 <> []).
  { cbn [take_bytes]. pose proof (utf8_len_range c). rewrite (proj2 (Nat.leb_le _ _)) by lia. done. }
  destruct (IH (take_bytes 255 (c :: s)).2) as [I1 I2].
  { pose proof (f_equal length H1) as Hl. rewrite length_app in Hl. cbn [length] in Hl, Hf.
    destruct (take_bytes 255 (c :: s)).1; [done|cbn [length] in Hl; lia]. }
  split; [|by constructor]. set (q := take_bytes 255 (c :: s)) in *.
  change (q.1 ++ mjoin (chunks fuel q.2) = c :: s). by rewrite I1.
Qed.

(** A TXT record carries the whole text whatever its length: the strings it
    is cut into are never over the 255 bytes one may hold, are never empty when
    there is something to say, never split a character, and put end to end are
    the text. *)
Theorem character_strings_exact text :
  mjoin (character_strings text) = text
  /\ character_strings text <> []
  /\ Forall (fun p => str_len p <= 255 /\ (p = [] -> text = [])) (character_strings text).
Proof.
  unfold character_strings. destruct (str_len text <=? 255) eqn:E.
  - apply Nat.leb_le in E. split_and!; [simpl; by rewrite app_nil_r|done|]. by apply Forall_singleton.
  - apply Nat.leb_gt in E. destruct (chunks_spec (length text) text) as [H1 H2]; [done|]. split_and!; [done| |].
    + intros Hc. rewrite Hc in H1. simpl in H1. subst. unfold str_len in E. simpl in E. lia.
    + eapply Forall_impl; [exact H2|]. intros p [Hp Hl]. done.
Qed.

(** ** What is answered *)
Lemma resolve_exposed b32 qlabels zone ex l :
  dns_resolve b32 qlabels zone ex = Some l ->
  lk_exposed l ∈ ex /\ exists vls, qlabels = vls ++ [label (lk_exposed l)] ++ zone /\ vls <> []
    /\ decode b32 vls (encoding (lk_exposed l)) = Some (lk_value l).
Proof.
  unfold dns_resolve, strip_labels.
  destruct ((length zone <=? length qlabels) && _) eqn:E; [|done].
  apply andb_true_iff in E as [_ Hd%bool_decide_eq_true].
  set (rest := take (length qlabels - length zone) qlabels) in *.
  assert (Hq : qlabels = rest ++ zone) by (unfold rest; rewrite <- Hd at 2; by rewrite take_drop).
  destruct (last rest) as [lb|] eqn:El; [|done]. apply last_Some in El as [vls Hv].
  assert (Ht : take (length rest - 1) rest = vls).
  { rewrite Hv, length_app. simpl. rewrite take_app_length'; [done|lia]. }
  rewrite Ht. destruct (is_empty vls) eqn:Ee; [done|].
  destruct (head (filter (fun e => label e = lb) ex)) as [e|] eqn:Eh; [|done].
  intros (v & Hdec & ->)%fmap_Some. cbn [lk_exposed lk_value].
  assert (He : e ∈ filter (fun e => label e = lb) ex) by (apply head_Some_elem_of; done).
  apply list_elem_of_filter in He as [<- He]. split; [done|]. exists vls. split_and!; [|by destruct vls|done].
  rewrite Hq, Hv. by rewrite <- app_assoc.
Qed.

(** C33: a DNS query is answered from the contents and discloses only what is
    exposed: outside the zone it is refused and at the zone's own name only SOA
    and NS answer; below it, a name answers with records exactly when its labels
    decode to a value that is live in an exposed namespace, with that value's
    count and detail, and is NXDOMAIN otherwise; unless shadowing is on the
    contents are left as they were. *)
Theorem dns_answer_exact `{HashOrder} `{DnsNames} b32 digest32 disk now r db abs q :
  implements digest32 disk db abs -> is_u64 (shadow_ttl (policy db)) -> plausible now ->
  let qlabels := labels_of (q_name q) in
  let a := answer b32 digest32 disk now r db q in
  (dns_shadow r = false -> implements digest32 disk a.1 abs)
  /\ a.2 = (if negb (ends_with_labels (zone_labels r) qlabels) then ORefused
            else if length qlabels =? length (zone_labels r) then answer_apex r (q_type q)
            else match dns_resolve b32 qlabels (zone_labels r) (exposed r) with
                 | None => ONxDomain
                 | Some l =>
                     let ns := ex_namespace (lk_exposed l) in
                     if starts_with CONFIG_PREFIX ns then ORefused
                     else match visible now abs ns (lk_value l) with
                          | Some x =>
                              records_for r q (view x (match visible now abs ALL_NAMESPACE (lk_value l) with
                                                       | Some t => count t | None => 0%Z end) false)
                          | None => ONxDomain
                          end
                 end)
  /\ (forall rs rec, a.2 = Answers rs -> rec ∈ rs -> (exists o, rdata rec = RA o) \/ (exists t, rdata rec = RTXT t) ->
        exists e vls v, e ∈ exposed r /\ qlabels = vls ++ [label e] ++ zone_labels r
          /\ decode b32 vls (encoding e) = Some v /\ is_Some (visible now abs (ex_namespace e) v)).
Proof.
  intros Himp Hsh Hnow qlabels a. unfold a, answer. fold qlabels.
  destruct (ends_with_labels (zone_labels r) qlabels); cbn [negb]; [|done].
  destruct (length qlabels =? length (zone_labels r)).
  { split_and!; [done|done|]. intros rs rec Hr Hin Hx. cbn [fst snd] in Hr. exfalso. unfold answer_apex in Hr.
    destruct (q_type q); try done; injection Hr as <-; apply list_elem_of_singleton in Hin; subst rec;
      destruct Hx as [[? [=]]|[? [=]]]. }
  destruct (dns_resolve b32 qlabels (zone_labels r) (exposed r)) as [l|] eqn:El; [|done]. cbn [fst snd].
  destruct (resolve_exposed _ _ _ _ _ El) as (Hin & vls & Hq & _ & Hdec).
  destruct (starts_with CONFIG_PREFIX (ex_namespace (lk_exposed l))) eqn:Ec.
  { unfold client_read. rewrite Ec. done. }
  destruct (client_read_spec digest32 disk now db abs (ex_namespace (lk_exposed l)) (lk_value l) false (dns_shadow r)
    Himp Hsh Hnow Ec) as (I1 & _ & _ & _ & I2). rewrite I2. split_and!.
  - intros Hs. rewrite Hs in I1 |- *. exact I1.
  - by destruct (visible now abs (ex_namespace (lk_exposed l)) (lk_value l)).
  - intros rs rec Hr _ _. exists (lk_exposed l), vls, (lk_value l). split_and!; [done|done|done|].
    destruct (visible now abs (ex_namespace (lk_exposed l)) (lk_value l)); [eauto|done].
Qed.

(** Names of at most 255 bytes, with a byte before each label and one at the end,
    as RFC 1035 has them. *)
Definition rfc_names : DnsNames := fun n z =>
  if sum_list_with (fun l => S (str_len l)) (n ++ z) + 1 <=? 255 then Some (n ++ z) else None.

(** A zone so long that nothing can be put before it is its own mailbox. *)
Example soa_of_a_long_zone :
  let N := rfc_names in let long := replicate 4 (replicate 60 97%N) in
  let mailbox r := match rdata (soa_record r) with RSOA _ m _ _ _ _ _ => Some m | _ => None end in
  mailbox (responder_new long [] 60 false) = Some long
  /\ mailbox (responder_new [lit "sdb"; lit "test"] [] 60 false) = Some [lit "hostmaster"; lit "sdb"; lit "test"].
Proof. by vm_compute. Qed.

Definition demo_responder : Responder :=
  responder_new [lit "sdb"; lit "test"] [mkExposed (lit "ips") (lit "feeds/ips") EncIp] 60 false.

Lemma dns_answer_exact_witness :
  let C := chrono_10000y in let O := some_order in let N := rfc_names in
  (answer letters_decode (fun _ => 7%N) ∅ (100 * NANOS) demo_responder demo_db
     (mkQuery [lit "4"; lit "3"; lit "2"; lit "1"; lit "ips"; lit "SDB"; lit "test"] TypeA ClassIN)).2 = ONxDomain.
Proof.
  intros C O N.
  exact (proj1 (proj2 (dns_answer_exact letters_decode (fun _ => 7%N) ∅ (100 * NANOS) demo_responder demo_db ∅
    (mkQuery [lit "4"; lit "3"; lit "2"; lit "1"; lit "ips"; lit "SDB"; lit "test"] TypeA ClassIN)
    (empty_implements _ _ _ _ _) ltac:(done) (plausible_whole 100)))).
Defined.

(** ** The limiter counts exactly *)
Section LimiterFacts.
Context (hash_one : str -> nat).

(** Requests, oldest first: the window each came in and where from. *)
Abbreviation Requests := (list (Z * str)).

Definition run_limiter (limit : Z) (es : Requests) : RateLimiter :=
  foldl (fun l e => (allow hash_one l e.1 e.2).1) (limiter_new limit) es.

(** How often an address asked in a window. *)
Definition asked (es : Requests) (w : Z) (source : str) : nat := length (filter (fun e => e = (w, source)) es).

(** The clock does not run backwards and starts at zero. *)
Definition chronological (es : Requests) : Prop := StronglySorted Z.le (0%Z :: es.*1).

Record limiter_inv (limit : Z) (es : Requests) (l : RateLimiter) : Prop := {
  li_limit : rl_limit l = limit;
  li_shard : forall source, exists s, rl_shards l !! shard_index hash_one source = Some s
    /\ (ls_window s = 0 \/ ls_window s ∈ es.*1)%Z
    /\ (forall w, (ls_window s < w)%Z -> asked es w source = 0)
    /\ default 0%Z (ls_counts s !! source) = Z.of_nat (asked es (ls_window s) source);
}.

Lemma asked_snoc es e w source :
  asked (es ++ [e]) w source = asked es w source + if decide (e = (w, source)) then 1 else 0.
Proof. unfold asked. rewrite filter_app, length_app. f_equal. rewrite filter_cons, filter_nil. by case_decide. Qed.

Lemma asked_le es w source : asked es w source <= length es.
Proof. apply length_filter. Qed.

Lemma chronological_snoc es w source :
  chronological (es ++ [(w, source)]) -> chronological es /\ (0 <= w)%Z /\ forall x, x ∈ es.*1 -> (x <= w)%Z.
Proof.
  unfold chronological. rewrite fmap_app. simpl. intros Hs.
  change (0%Z :: es.*1 ++ [w]) with ((0%Z :: es.*1) ++ [w]) in Hs. apply StronglySorted_app in Hs as (H1 & H2 & _).
  split; [done|]. split; [apply (H1 0%Z w); [left|by apply list_elem_of_singleton]|].
  intros x Hx. apply (H1 x w); [by right|by apply list_elem_of_singleton].
Qed.

Lemma chronological_app es es' : chronological (es ++ es') -> chronological es.
Proof.
  induction es' as [|[w source] es' IH] using rev_ind; [by rewrite app_nil_r|].
  rewrite app_assoc. intros [? _]%chronological_snoc. auto.
Qed.

Lemma new_inv limit : limiter_inv limit [] (limiter_new limit).
Proof.
  split; [done|]. intros source. exists (mkLimitShard 0 ∅). split_and!; [|by left|done|done].
  unfold limiter_new. cbn [rl_shards]. apply elem_of_list_to_map_1.
  - rewrite <- list_fmap_compose. rewrite (list_fmap_same _ (seq 0 SHARDS)); [apply NoDup_seq|done].
  - apply list_elem_of_fmap. exists (shard_index hash_one source). split; [done|]. apply elem_of_seq.
    unfold shard_index. pose proof (Nat.mod_upper_bound (hash_one source) SHARDS ltac:(done)). lia.
Qed.

Lemma u32_small a : (Z.of_nat (S a) < 2 ^ 32)%Z -> u32_add (Z.of_nat a) 1 = Z.of_nat (S a).
Proof. intros Ha. unfold u32_add. rewrite Z.mod_small; lia. Qed.

(** One request: what it is told, and the invariant after it. *)
Lemma allow_spec limit es l w source :
  (limit <> 0)%Z -> limiter_inv limit es l -> chronological (es ++ [(w, source)]) ->
  (Z.of_nat (S (length es)) < 2 ^ 32)%Z ->
  (allow hash_one l w source).2 = bool_decide (Z.of_nat (S (asked es w source)) <= limit)%Z
  /\ limiter_inv limit (es ++ [(w, source)]) (allow hash_one l w source).1.
Proof.
  intros Hl0 [Hl Hsh] Hch Hb. destruct (chronological_snoc _ _ _ Hch) as (_ & Hw0 & Hmax).
  destruct (Hsh source) as (s & Hs & Hwin & Hlate & Hcount).
  set (s1 := if bool_decide (ls_window s <> w) then mkLimitShard w ∅ else s).
  assert (H1 : ls_window s1 = w) by (unfold s1; by case_bool_decide as E).
  assert (Hge : (ls_window s <= w)%Z) by (destruct Hwin as [->|Hwin]; [done|by apply Hmax]).
  assert (H2 : default 0%Z (ls_counts s1 !! source) = Z.of_nat (asked es w source)).
  { unfold s1. case_bool_decide as E.
    - simpl. rewrite lookup_empty. simpl. rewrite Hlate; [done|lia].
    - by rewrite Hcount, E. }
  pose proof (asked_le es w source) as Hle.
  set (c := u32_add (default 0%Z (ls_counts s1 !! source)) 1).
  assert (Hc : c = Z.of_nat (S (asked es w source))) by (unfold c; rewrite H2; apply u32_small; lia).
  set (l1 := <[shard_index hash_one source := mkLimitShard (ls_window s1) (<[source := c]> (ls_counts s1))]> (rl_shards l)).
  assert (Hinv : forall d, limiter_inv limit (es ++ [(w, source)]) (mkLimiter limit l1 d)).
  { intros d. split; [done|]. intros src. cbn [rl_shards]. unfold l1. rewrite lookup_insert.
    assert (Hin : w ∈ (es ++ [(w, source)]).*1) by (rewrite fmap_app; apply elem_of_app; right; left).
    case_decide as Ei.
    - exists (mkLimitShard (ls_window s1) (<[source := c]> (ls_counts s1))). cbn [ls_window ls_counts]. rewrite H1.
      split_and!; [done|by right| |].
      + intros w' Hw'. rewrite asked_snoc. case_decide as Ee; [injection Ee as Ee _; lia|]. rewrite Nat.add_0_r.
        destruct (Hsh src) as (s' & Hs' & _ & Hl' & _). rewrite <- Ei, Hs in Hs'. injection Hs' as <-.
        apply Hl'. lia.
      + rewrite asked_snoc, lookup_insert. case_decide as Es.
        * subst src. rewrite decide_True by done. simpl. rewrite Hc. lia.
        * rewrite decide_False by congruence. rewrite Nat.add_0_r.
          destruct (Hsh src) as (s' & Hs' & _ & Hl' & Hc'). rewrite <- Ei, Hs in Hs'. injection Hs' as <-.
          unfold s1. case_bool_decide as E; [|by rewrite <- E].
          simpl. rewrite lookup_empty. simpl. rewrite Hl'; [done|lia].
    - destruct (Hsh src) as (s' & Hs' & Hw' & Hl' & Hc'). exists s'. split_and!; [done| | |].
      + destruct Hw' as [|Hw']; [by left|right]. rewrite fmap_app. apply elem_of_app. by left.
      + intros w' Hlt. rewrite asked_snoc. rewrite decide_False by congruence. rewrite Nat.add_0_r. by apply Hl'.
      + rewrite asked_snoc. rewrite decide_False by congruence. by rewrite Nat.add_0_r. }
  unfold allow. rewrite Hl, bool_decide_eq_false_2 by done. rewrite Hs. cbn [default from_option id].
  fold s1 c l1. destruct (bool_decide_reflect (limit < c)%Z) as [Hgt|Hgt]; cbn [fst snd]; (split; [|apply Hinv]); symmetry.
  - apply bool_decide_eq_false. lia.
  - apply bool_decide_eq_true. lia.
Qed.

Lemma run_limiter_inv limit es :
  (limit <> 0)%Z -> chronological es -> (Z.of_nat (length es) < 2 ^ 32)%Z -> limiter_inv limit es (run_limiter limit es).
Proof.
  intros Hl. induction es as [|[w source] es IH] using rev_ind; intros Hch Hb; [apply new_inv|].
  unfold run_limiter. rewrite foldl_app. cbn [foldl fst snd]. rewrite length_app in Hb. simpl in Hb.
  apply allow_spec; [done| |done|lia]. apply IH; [by apply chronological_snoc in Hch as [? _]|lia].
Qed.
End LimiterFacts.

(** The limiter is exact and fair: whatever other addresses ask and however
    addresses share its shards, a request is let through exactly when its
    address has asked no more than the limit in the current one-second window,
    this request included; so nobody gets more than the limit, and nobody is
    turned away for what another address did. *)
Theorem rate_limit_exact hash_one limit es w source :
  (limit <> 0)%Z -> chronological (es ++ [(w, source)]) -> (Z.of_nat (S (length es)) < 2 ^ 32)%Z ->
  (allow hash_one (run_limiter hash_one limit es) w source).2
  = bool_decide (Z.of_nat (S (asked es w source)) <= limit)%Z.
Proof.
  intros Hl Hch Hb. eapply allow_spec; [done| |done|done].
  apply run_limiter_inv; [done|by apply chronological_snoc in Hch as [? _]|lia].
Qed.

Lemma rate_limit_exact_witness :
  (allow (fun s => length s) (run_limiter (fun s => length s) 1 [(0%Z, lit "a"); (0%Z, lit "b")]) 0 (lit "a")).2 = false
  /\ (allow (fun s => length s) (run_limiter (fun s => length s) 1 [(0%Z, lit "a"); (0%Z, lit "b")]) 1 (lit "a")).2 = true.
Proof.
  split.
  - rewrite (rate_limit_exact (fun s => length s) 1 [(0%Z, lit "a"); (0%Z, lit "b")] 0 (lit "a"));
      [by vm_compute|done| |done].
    repeat constructor; done.
  - rewrite (rate_limit_exact (fun s => length s) 1 [(0%Z, lit "a"); (0%Z, lit "b")] 1 (lit "a"));
      [by vm_compute|done| |done].
    repeat constructor; done.
Defined.
