(* ===== verification/DnsServer.v ===== *)
(** * The DNS listeners

    Models [src/src/dns/server.rs]: what becomes of a datagram or of a TCP
    connection, from the bytes that arrive to the bytes that go out.  The wire
    format is that of the [hickory-proto] crate, so reading and writing a message
    are parameters ([Wire]) with the few facts the server relies on
    ([WireLaws]).  The listener threads share the limiter and the database: a
    thread reads the clock, counts the arrival under the lock of its shard, and
    answers it, and the others may get in between.  The theorems say how much one
    address can make the server send whatever the order, that a reply is never
    replied to, and what the framing over TCP carries. *)

From stdpp Require Import base numbers list strings gmap.
From S2P Require Import Prelude Attribute Paths Namespace Disk Database Service DnsName DnsAnswer.

(** ** Messages on the wire *)

(** What the server looks at in a message it received. *)
Record Incoming := mkIncoming {
  in_response : bool;           (* [metadata.message_type == MessageType::Response] *)
  in_payload : option nat;      (* [edns.map(|e| e.max_payload())] *)
  in_id : N; in_request : Request
}.

(** What it sends: always a response, without EDNS. *)
Record Message := mkMessage { msg_id : N; msg_truncated : bool; msg_body : Response }.

Class Wire := {
  from_bytes : list N -> option Incoming;
  to_vec : Message -> option (list N);
  truncate_message : Message -> Message;
}.

(** What RFC 1035 and the crate say of them: a message is at most 65535 bytes;
    what was written as a response is read as one; and a truncated message is a
    header and its question, at most 12 + 255 + 4 bytes. *)
Class WireLaws `{Wire} : Prop := {
  wire_u16 : forall m b, to_vec m = Some b -> (Z.of_nat (length b) < 2 ^ 16)%Z;
  wire_response : forall m b, to_vec m = Some b -> exists i, from_bytes b = Some i /\ in_response i = true;
  wire_truncated : forall m b, length (echoed (msg_body m)) <= 1 -> to_vec (truncate_message m) = Some b ->
    length b <= 12 + 255 + 4;
}.

Record Handled := mkHandled { message : Message; request_edns_payload : option nat }.

Definition u16_from_be_bytes (hi lo : N) : N := (256 * hi + lo)%N.
Definition u16_to_be_bytes (n : N) : list N := [(n / 256) `mod` 256; n `mod` 256]%N.

(** [Message::error_msg(id, OpCode::Query, code)] *)
Definition error_msg (id : N) (code : ResponseCode) : Message := mkMessage id false (mkResponse code [] [] []).

(** [usize::MAX] *)
Definition USIZE_MAX : Z := (2 ^ 64 - 1)%Z.

(** [read_exact] on what the peer sends before it closes or stalls. *)
Definition read_exact (n : nat) (stream : list N) : option (list N * list N) :=
  if n <=? length stream then Some (take n stream, drop n stream) else None.

(** The size of the buffer datagrams are received into. *)
Definition UDP_BUFFER : nat := N.to_nat 4096.

(** What arrives, and on which listener. *)
Inductive Load := Datagram (bytes : list N) | Connection (stream : list N).
Definition is_datagram (l : Load) : bool := match l with Datagram _ => true | _ => false end.
Record Arrival := mkArrival { a_source : str; a_load : Load }.

(** Where a listener thread is: waiting for something to arrive, in [allow] with
    the window it read, or past it. *)
Inductive Listener :=
  | Waiting
  | Clocked (window : Z) (e : Arrival)
  | LetIn (window : Z) (e : Arrival).

(** The threads and what they share.  [counted] and [sent] remember, newest
    first, what the limiter said to whom and the replies that went out, with the
    window each arrival was counted in. *)
Record Listeners := mkListeners {
  seconds : Z;                            (* [started.elapsed().as_secs()] *)
  threads : list Listener;
  limiter : RateLimiter;
  d_db : Database;
  counted : list (Z * str * bool);
  sent : list (Z * Arrival * list N)
}.

(** What happens next: a second passes, or thread [i] receives something and
    reads the clock, counts it, or answers it at the time [now]. *)
Inductive Scheduled := Tick | Receive (i : nat) (e : Arrival) | CountIt (i : nat) | AnswerIt (i : nat) (now : Z).

Section Serving.
Context `{HashOrder} `{DnsNames} `{Wire} (base32_decode : list N -> option (list N)) (digest32 : str -> N) (disk : Disk)
  (hash_one : str -> nat) (responder : Responder).

Definition handle (now : Z) (db : Database) (bytes : list N) : Database * option Handled :=
  match from_bytes bytes with
  | Some request =>
      if in_response request then (db, None)
      else let a := respond base32_decode digest32 disk now responder db (in_request request) in
           (a.1, Some (mkHandled (mkMessage (in_id request) false a.2) (in_payload request)))
  | None =>
      match bytes with
      | b0 :: b1 :: _ => (db, Some (mkHandled (error_msg (u16_from_be_bytes b0 b1) FormErr) None))
      | _ => (db, None)
      end
  end.

Definition encode (m : Message) (limit : Z) : option (list N) :=
  match to_vec m with
  | None => None
  | Some bytes => if bool_decide (Z.of_nat (length bytes) <= limit)%Z then Some bytes else to_vec (truncate_message m)
  end.

(** What [udp_loop] does with a datagram it lets through. *)
Definition udp_answer (now : Z) (db : Database) (bytes : list N) : Database * option (list N) :=
  let h := handle now db (take UDP_BUFFER bytes) in
  (h.1, match h.2 with
        | None => None
        | Some response => encode (message response) (Z.of_nat (udp_limit (request_edns_payload response)))
        end).

Definition serve_tcp (now : Z) (db : Database) (stream : list N) : Database * option (list N) :=
  match read_exact 2 stream with
  | Some ([l0; l1], rest) =>
      let length := u16_from_be_bytes l0 l1 in
      if bool_decide (length = 0 \/ 8192 < length)%N then (db, None)
      else match read_exact (N.to_nat length) rest with
           | None => (db, None)
           | Some (buf, _) =>
               let h := handle now db buf in
               (h.1, match h.2 with
                     | None => None
                     | Some response =>
                         (fun bytes => u16_to_be_bytes (N.of_nat (List.length bytes) `mod` 2 ^ 16) ++ bytes)
                         <$> encode (message response) USIZE_MAX
                     end)
           end
  | _ => (db, None)
  end.

(** What is sent back when the limiter does not object. *)
Definition answer_arrival (now : Z) (db : Database) (e : Arrival) : Database * option (list N) :=
  match a_load e with
  | Datagram bytes => udp_answer now db bytes
  | Connection stream => serve_tcp now db stream
  end.

(** A step of [udp_loop] or [tcp_loop]; [None] for a thread that is elsewhere. *)
Definition listen_step (l : Listeners) (s : Scheduled) : option Listeners :=
  match s with
  | Tick => Some (mkListeners (seconds l + 1) (threads l) (limiter l) (d_db l) (counted l) (sent l))
  | Receive i e =>
      match threads l !! i with
      | Some Waiting =>
          Some (mkListeners (seconds l) (<[i := Clocked (seconds l) e]> (threads l)) (limiter l) (d_db l)
                  (counted l) (sent l))
      | _ => None
      end
  | CountIt i =>
      match threads l !! i with
      | Some (Clocked w e) =>
          let p := allow hash_one (limiter l) w (a_source e) in
          Some (mkListeners (seconds l) (<[i := if p.2 then LetIn w e else Waiting]> (threads l)) p.1 (d_db l)
                  ((w, a_source e, p.2) :: counted l) (sent l))
      | _ => None
      end
  | AnswerIt i now =>
      match threads l !! i with
      | Some (LetIn w e) =>
          let a := answer_arrival now (d_db l) e in
          Some (mkListeners (seconds l) (<[i := Waiting]> (threads l)) (limiter l) a.1 (counted l)
                  (match a.2 with Some b => (w, e, b) :: sent l | None => sent l end))
      | _ => None
      end
  end.

Definition run_listeners (l : Listeners) (ss : list Scheduled) : option Listeners :=
  foldl (fun o s => o ≫= fun l' => listen_step l' s) (Some l) ss.

(** [spawn]: [n] threads over UDP and one over TCP, with a new limiter. *)
Definition spawn_listeners (n : nat) (limit : Z) (db : Database) : Listeners :=
  mkListeners 0 (replicate (Nat.max n 1 + 1) Waiting) (limiter_new limit) db [] [].

(** ** One message *)
Lemma respond_echoes now db req :
  length (echoed (respond base32_decode digest32 disk now responder db req).2) <= 1.
Proof.
  unfold respond. destruct (op_code req); [|simpl; lia]. destruct (queries req) as [|q ?]; [simpl; lia|].
  destruct (q_class q); [|simpl; lia]. cbn [snd]. by destruct (answer _ _ _ _ _ _ _).2.
Qed.

Lemma handle_echoes now db bytes h : (handle now db bytes).2 = Some h -> length (echoed (msg_body (message h))) <= 1.
Proof.
  unfold handle. destruct (from_bytes bytes) as [i|].
  - destruct (in_response i); [done|]. cbn [snd]. intros [= <-]. apply respond_echoes.
  - destruct bytes as [|b0 [|b1 bs]]; [done|done|]. cbn [snd]. intros [= <-]. simpl. lia.
Qed.

Lemma udp_limit_range p : DEFAULT_UDP_LIMIT <= udp_limit p <= MAX_UDP_LIMIT.
Proof. unfold udp_limit, DEFAULT_UDP_LIMIT, MAX_UDP_LIMIT. destruct p; lia. Qed.

Context `{!WireLaws}.

Lemma encode_short m limit b :
  length (echoed (msg_body m)) <= 1 -> DEFAULT_UDP_LIMIT <= limit -> encode m (Z.of_nat limit) = Some b ->
  length b <= limit.
Proof.
  unfold encode, DEFAULT_UDP_LIMIT. intros He Hl. destruct (to_vec m) as [v|]; [|done].
  case_bool_decide as Hv; [intros [= <-]; lia|]. intros Ht%wire_truncated; [|done]. lia.
Qed.

Lemma encode_whole m b : encode m USIZE_MAX = Some b <-> to_vec m = Some b.
Proof.
  unfold encode, USIZE_MAX. destruct (to_vec m) as [v|] eqn:E; [|done]. apply wire_u16 in E.
  rewrite bool_decide_eq_true_2; [done|]. lia.
Qed.

Lemma udp_answer_short now db bytes b : (udp_answer now db bytes).2 = Some b -> length b <= MAX_UDP_LIMIT.
Proof.
  unfold udp_answer. cbn [snd]. destruct (handle now db _).2 as [h|] eqn:E; [|done]. intros Hb.
  pose proof (udp_limit_range (request_edns_payload h)). apply handle_echoes in E.
  apply encode_short in Hb; lia.
Qed.

Lemma encode_written m limit b : encode m limit = Some b -> exists m', to_vec m' = Some b.
Proof. unfold encode. destruct (to_vec m) eqn:E; [|done]. case_bool_decide; [intros [= <-]|]; eauto. Qed.

(** A message of this server is never answered by one, this or another. *)
Lemma response_dropped now db m b : to_vec m = Some b -> handle now db b = (db, None).
Proof. intros (i & Hi & Hr)%wire_response. unfold handle. by rewrite Hi, Hr. Qed.

End Serving.

(** ** Counting *)
Definition tally {A} (f : A -> bool) (l : list A) : Z := Z.of_nat (length (filter (fun x => f x = true) l)).
Definition one (b : bool) : Z := if b then 1 else 0.

Lemma tally_cons {A} (f : A -> bool) x l : tally f (x :: l) = (one (f x) + tally f l)%Z.
Proof. unfold tally, one. rewrite filter_cons. destruct (f x); case_decide; done || (simpl; lia). Qed.

Lemma tally_range {A} (f : A -> bool) l : (0 <= tally f l <= Z.of_nat (length l))%Z.
Proof. unfold tally. pose proof (length_filter (fun x => f x = true) l). lia. Qed.

Lemma tally_insert {A} (f : A -> bool) l i x y :
  l !! i = Some x -> tally f (<[i := y]> l) = (tally f l - one (f x) + one (f y))%Z.
Proof.
  revert i. induction l as [|z l IH]; intros [|i]; [done|done| |].
  - intros [= <-]. change (<[0 := y]> (z :: l)) with (y :: l). rewrite !tally_cons. lia.
  - intros Hx. change (<[S i := y]> (z :: l)) with (z :: <[i := y]> l). rewrite !tally_cons, (IH _ Hx). lia.
Qed.

Lemma source_tally_none {A} (f : A -> bool) l : (forall x, x ∈ l -> f x = false) -> tally f l = 0%Z.
Proof.
  induction l as [|x l IH]; intros Hf; [done|]. rewrite tally_cons, IH by (intros; apply Hf; by right).
  rewrite (Hf x) by left. done.
Qed.

Lemma tally_replicate {A} (f : A -> bool) n x : f x = false -> tally f (replicate n x) = 0%Z.
Proof. intros Hf. apply source_tally_none. intros y [-> _]%elem_of_replicate. done. Qed.

(** Whether a thread is about to count an arrival of an earlier second than [w],
    or one of [w]; whether it let in one of [source] in [w]. *)
Definition holds_before (w : Z) (t : Listener) : bool :=
  match t with Clocked x _ => bool_decide (x < w)%Z | _ => false end.
Definition holds_at (w : Z) (t : Listener) : bool :=
  match t with Clocked x _ => bool_decide (x = w) | _ => false end.
Definition holds_reply (w : Z) (source : str) (t : Listener) : bool :=
  match t with LetIn x e => bool_decide ((x, a_source e) = (w, source)) | _ => false end.

Definition was_counted (w : Z) (source : str) (c : Z * str * bool) : bool := bool_decide (c.1 = (w, source)).
Definition was_let_in (w : Z) (source : str) (c : Z * str * bool) : bool := was_counted w source c && c.2.
Definition went_to (w : Z) (source : str) (x : Z * Arrival * list N) : bool :=
  bool_decide ((x.1.1, a_source x.1.2) = (w, source)).

(** What was counted, let in and sent to an address in a second. *)
Definition arrivals_of (w : Z) (source : str) (l : Listeners) : Z := tally (was_counted w source) (counted l).
Definition let_in_of (w : Z) (source : str) (l : Listeners) : Z := tally (was_let_in w source) (counted l).
Definition replies_of (w : Z) (source : str) (l : Listeners) : Z := tally (went_to w source) (sent l).
Definition datagram_bytes (w : Z) (source : str) (l : Listeners) : Z :=
  Z.of_nat (sum_list_with (fun x => length x.2)
    (filter (fun x => went_to w source x = true /\ is_datagram (a_load x.1.2) = true) (sent l))).

Section Bounding.
Context (hash_one : str -> nat) (limit : Z).

(** How many more of [source] the shard lets in in [w], as it stands. *)
Definition room (s : LimitShard) (w : Z) (source : str) : Z :=
  if bool_decide (ls_window s = w) then Z.max 0 (limit - default 0%Z (ls_counts s !! source)) else limit.

(** What is kept for an address and a second.  While the second lasts, the
    threads that still hold an earlier reading can each make the shard forget
    once; after it, only the threads that hold a reading of it count in it. *)
Definition second_ok (l : Listeners) (s : LimitShard) (w : Z) (source : str) : Prop :=
  let n := Z.of_nat (length (threads l)) in
  ((seconds l < w -> let_in_of w source l = 0)
   /\ (seconds l = w -> let_in_of w source l + room s w source <= limit * (1 + n - tally (holds_before w) (threads l)))
   /\ (w < seconds l -> let_in_of w source l + tally (holds_at w) (threads l) <= limit * (1 + n) + n))%Z.

Record listeners_inv (l : Listeners) : Prop := {
  li_limit_is : rl_limit (limiter l) = limit;
  li_clocked : forall i w e, threads l !! i = Some (Clocked w e) -> (w <= seconds l)%Z;
  li_shards : forall source, exists s, rl_shards (limiter l) !! shard_index hash_one source = Some s
    /\ (ls_window s <= seconds l)%Z
    /\ (0 <= default 0 (ls_counts s !! source) <= arrivals_of (ls_window s) source l)%Z
    /\ forall w, second_ok l s w source;
  li_refused : forall w source, (w, source, false) ∈ counted l -> (limit < arrivals_of w source l)%Z;
  li_replies : forall w source,
    (replies_of w source l + tally (holds_reply w source) (threads l) <= let_in_of w source l)%Z;
}.

Lemma spawn_inv n db : (0 < limit)%Z -> listeners_inv (spawn_listeners n limit db).
Proof.
  intros Hl. unfold spawn_listeners. split; cbn [limiter threads seconds counted].
  - done.
  - intros i w e [Hx _]%lookup_replicate. done.
  - intros source. destruct (li_shard _ _ _ _ (new_inv hash_one limit) source) as (s & Hs & Hw & _ & Hc).
    exists s. cbn [limiter]. destruct Hw as [Hw|Hw]; [|by apply not_elem_of_nil in Hw].
    split_and!; [done|by rewrite Hw|by rewrite Hc|by rewrite Hc|]. intros w. unfold second_ok.
    cbn [threads seconds]. rewrite !tally_replicate by done. unfold let_in_of. cbn [counted]. unfold tally at 1 2 3.
    cbn [filter list_filter length]. split_and!; [lia| |].
    + intros _. unfold room. rewrite Hc. case_bool_decide; cbn; nia.
    + nia.
  - intros w source Hx. by apply not_elem_of_nil in Hx.
  - intros w source. cbn [threads]. by rewrite tally_replicate.
Qed.

Lemma allow_cases l w source s :
  (0 < limit)%Z -> rl_limit l = limit -> rl_shards l !! shard_index hash_one source = Some s ->
  let s1 := if bool_decide (ls_window s <> w) then mkLimitShard w ∅ else s in
  let c := u32_add (default 0%Z (ls_counts s1 !! source)) 1 in
  exists d, allow hash_one l w source
    = (mkLimiter limit (<[shard_index hash_one source := mkLimitShard w (<[source := c]> (ls_counts s1))]> (rl_shards l)) d,
       bool_decide (c <= limit)%Z).
Proof.
  intros Hl Hr Hs s1 c. unfold allow. rewrite Hr, bool_decide_eq_false_2 by lia. rewrite Hs. cbn [default from_option id].
  fold s1. fold c. assert (ls_window s1 = w) as -> by (unfold s1; by case_bool_decide).
  destruct (bool_decide_reflect (limit < c)%Z); eexists; f_equal; symmetry.
  - apply bool_decide_eq_false. lia.
  - apply bool_decide_eq_true. lia.
Qed.

Lemma room_range s w source : (0 < limit)%Z -> (0 <= default 0 (ls_counts s !! source))%Z -> (0 <= room s w source <= limit)%Z.
Proof. intros Hl Hc. unfold room. case_bool_decide; lia. Qed.

(** What a step of another thread, or one for another address, keeps. *)
Lemma second_ok_mono l l' s w source :
  (0 < limit)%Z -> seconds l' = seconds l -> length (threads l') = length (threads l) ->
  let_in_of w source l' = let_in_of w source l ->
  (seconds l = w -> tally (holds_before w) (threads l') <= tally (holds_before w) (threads l))%Z ->
  (w < seconds l -> tally (holds_at w) (threads l') <= tally (holds_at w) (threads l))%Z ->
  second_ok l s w source -> second_ok l' s w source.
Proof.
  intros Hl Es En EL Hb Ha (H1 & H2 & H3). unfold second_ok. rewrite Es, En, EL. split_and!; [done| |].
  - intros Ew. specialize (H2 Ew). specialize (Hb Ew). nia.
  - intros Ew. specialize (H3 Ew). specialize (Ha Ew). lia.
Qed.

Lemma tick_ok l s w source :
  (0 < limit)%Z -> (0 <= default 0 (ls_counts s !! source))%Z -> second_ok l s w source ->
  second_ok (mkListeners (seconds l + 1) (threads l) (limiter l) (d_db l) (counted l) (sent l)) s w source.
Proof.
  intros Hl Hc (H1 & H2 & H3). unfold second_ok. cbn [seconds threads]. pose proof (room_range s w source Hl Hc).
  pose proof (tally_range (holds_before w) (threads l)). pose proof (tally_range (holds_at w) (threads l)).
  change (let_in_of w source _) with (let_in_of w source l). split_and!; intros Ew.
  - apply H1. lia.
  - rewrite H1 by lia. nia.
  - destruct (decide (seconds l = w)) as [E|E]; [|apply H3; lia]. specialize (H2 E). nia.
Qed.

(** Counting an arrival, for the addresses of its shard. *)
Lemma count_ok l i w0 e s w source ok lim' :
  (0 < limit)%Z -> threads l !! i = Some (Clocked w0 e) -> (w0 <= seconds l)%Z ->
  (0 <= default 0 (ls_counts s !! source))%Z -> (0 <= default 0 (ls_counts s !! a_source e) < 2 ^ 32 - 1)%Z ->
  let s1 := if bool_decide (ls_window s <> w0) then mkLimitShard w0 ∅ else s in
  let c := u32_add (default 0%Z (ls_counts s1 !! a_source e)) 1 in
  ok = bool_decide (c <= limit)%Z ->
  second_ok l s w source ->
  second_ok (mkListeners (seconds l) (<[i := if ok then LetIn w0 e else Waiting]> (threads l)) lim' (d_db l)
               ((w0, a_source e, ok) :: counted l) (sent l))
    (mkLimitShard w0 (<[a_source e := c]> (ls_counts s1))) w source.
Proof.
  intros Hl Hi Hw0 Hcs Hce s1 c Hok (H1 & H2 & H3). unfold second_ok. cbn [seconds threads].
  rewrite length_insert, !(tally_insert _ _ _ _ _ Hi).
  assert (Hf : forall f : Listener -> bool, f (LetIn w0 e) = false -> f Waiting = false ->
    f (if ok then LetIn w0 e else Waiting) = false) by (by destruct ok).
  rewrite !Hf by done. cbn [holds_before holds_at one].
  unfold let_in_of. cbn [counted]. rewrite tally_cons. fold (let_in_of w source l).
  assert (HL : was_let_in w source (w0, a_source e, ok) = bool_decide ((w0, a_source e) = (w, source)) && ok) by done.
  rewrite HL. clear HL. pose proof (room_range s w source Hl Hcs) as Hr.
  destruct (decide (w0 = w)) as [->|Hne].
  - rewrite (bool_decide_eq_false_2 (w < w)%Z), (bool_decide_eq_true_2 (w = w)) by lia.
    assert (Hone : (one (bool_decide ((w, a_source e) = (w, source)) && ok) <= 1)%Z) by (unfold one; destruct (_ && _); lia).
    split_and!; intros Ew; [lia| |specialize (H3 Ew); cbn [one] in *; lia].
    specialize (H2 Ew). cbn [one] in *. rewrite Z.sub_0_r, Z.add_0_r.
    enough (one (bool_decide ((w, a_source e) = (w, source)) && ok)
      + room (mkLimitShard w (<[a_source e:=c]> (ls_counts s1))) w source <= room s w source)%Z by lia.
    unfold room. cbn [ls_window ls_counts]. rewrite (bool_decide_eq_true_2 (w = w)) by done.
    destruct (decide (a_source e = source)) as [<-|Hs].
    + rewrite bool_decide_eq_true_2 by done. rewrite lookup_insert_eq. change (default 0%Z (Some c)) with c. cbn [andb].
      subst ok. unfold c, s1, one, u32_add. destruct (decide (ls_window s = w)) as [E1|E1].
      * rewrite (bool_decide_eq_false_2 (ls_window s <> w)), (bool_decide_eq_true_2 (ls_window s = w)) by auto.
        rewrite Z.mod_small by lia. destruct (bool_decide_reflect (default 0 (ls_counts s !! a_source e) + 1 <= limit)%Z); lia.
      * rewrite (bool_decide_eq_true_2 (ls_window s <> w)), (bool_decide_eq_false_2 (ls_window s = w)) by done.
        cbn [ls_counts]. rewrite lookup_empty. change ((default 0 None + 1) mod 2 ^ 32)%Z with 1%Z.
        rewrite (bool_decide_eq_true_2 (1 <= limit)%Z) by lia. lia.
    + rewrite bool_decide_eq_false_2 by congruence. rewrite lookup_insert_ne by done. cbn [andb one]. unfold s1.
      destruct (decide (ls_window s = w)) as [E1|E1].
      * rewrite (bool_decide_eq_false_2 (ls_window s <> w)), (bool_decide_eq_true_2 (ls_window s = w)) by auto. lia.
      * rewrite (bool_decide_eq_true_2 (ls_window s <> w)), (bool_decide_eq_false_2 (ls_window s = w)) by done.
        cbn [ls_counts]. rewrite lookup_empty. cbn. lia.
  - rewrite (bool_decide_eq_false_2 ((w0, a_source e) = (w, source))) by congruence.
    rewrite (bool_decide_eq_false_2 (w0 = w)) by done. cbn [andb one].
    split_and!; intros Ew; [specialize (H1 Ew); lia| |specialize (H3 Ew); lia].
    specialize (H2 Ew). rewrite (bool_decide_eq_true_2 (w0 < w)%Z) by lia. unfold room at 1. cbn [ls_window one].
    rewrite (bool_decide_eq_false_2 (w0 = w)) by done. nia.
Qed.

Lemma arrivals_cons w source x l :
  tally (was_counted w source) (x :: counted l) = (one (was_counted w source x) + arrivals_of w source l)%Z.
Proof. apply tally_cons. Qed.


Section Stepping.
Context `{HashOrder} `{DnsNames} `{Wire} (base32_decode : list N -> option (list N)) (digest32 : str -> N) (disk : Disk)
  (responder : Responder).
Abbreviation lstep := (listen_step base32_decode digest32 disk hash_one responder).
Abbreviation lrun := (run_listeners base32_decode digest32 disk hash_one responder).

(** A thread that moves without counting: the tallies of what was counted stay. *)
Lemma moved_inv l i x y db' sent' :
  (0 < limit)%Z -> listeners_inv l -> threads l !! i = Some x ->
  (forall w, holds_before w x = false /\ holds_at w x = false) ->
  (y = Waiting \/ exists e, y = Clocked (seconds l) e) ->
  (forall w source, tally (went_to w source) sent' - tally (went_to w source) (sent l) <= one (holds_reply w source x))%Z ->
  listeners_inv (mkListeners (seconds l) (<[i := y]> (threads l)) (limiter l) db' (counted l) sent').
Proof.
  intros Hl [I1 I2 I3 I4 I5] Hi Hx Hy Hs. split; cbn [limiter threads seconds counted].
  - done.
  - intros j w e. rewrite list_lookup_insert_Some. intros [(_ & -> & _)|[_ ?]]; [|by eapply I2].
    destruct Hy as [|[e' [= -> ->]]]; [done|lia].
  - intros source. destruct (I3 source) as (s & Es & Hw & Hc & Hok). exists s. split_and!; [done|done|apply Hc|apply Hc|].
    intros w. specialize (Hok w). destruct (Hx w) as [X1 X2].
    apply (second_ok_mono l); [done|done|cbn [threads]; by rewrite length_insert|done| | |exact Hok]; cbn [threads];
      intros Ew; rewrite (tally_insert _ _ _ _ _ Hi), ?X1, ?X2; destruct Hy as [->|[e' ->]];
      cbn [holds_before holds_at one]; rewrite ?bool_decide_eq_false_2 by lia; cbn [one]; lia.
  - done.
  - intros w source. specialize (I5 w source). specialize (Hs w source). unfold replies_of in *. cbn [sent threads].
    rewrite (tally_insert _ _ _ _ _ Hi). change (let_in_of w source _) with (let_in_of w source l).
    assert (holds_reply w source y = false) as -> by (by destruct Hy as [->|[e' ->]]). cbn [one]. lia.
Qed.

Lemma count_inv l i w e :
  (0 < limit)%Z -> (Z.of_nat (length (counted l)) < 2 ^ 32 - 1)%Z -> listeners_inv l -> threads l !! i = Some (Clocked w e) ->
  let p := allow hash_one (limiter l) w (a_source e) in
  listeners_inv (mkListeners (seconds l) (<[i := if p.2 then LetIn w e else Waiting]> (threads l)) p.1 (d_db l)
                   ((w, a_source e, p.2) :: counted l) (sent l)).
Proof.
  intros Hl Hlen [I1 I2 I3 I4 I5] Hi p. destruct (I3 (a_source e)) as (s0 & E0 & Hw0 & Hc0 & Hok0).
  assert (Hc0' : (0 <= default 0 (ls_counts s0 !! a_source e) < 2 ^ 32 - 1)%Z).
  { pose proof (tally_range (was_counted (ls_window s0) (a_source e)) (counted l)). unfold arrivals_of in Hc0. lia. }
  destruct (allow_cases (limiter l) w (a_source e) s0 Hl I1 E0) as [d Ep]. cbv zeta in Ep.
  set (s1 := if bool_decide (ls_window s0 <> w) then mkLimitShard w ∅ else s0) in *.
  set (c := u32_add (default 0%Z (ls_counts s1 !! a_source e)) 1) in *.
  assert (Hcle : (0 <= c <= 1 + arrivals_of w (a_source e) l)%Z).
  { unfold c, s1, u32_add. pose proof (tally_range (was_counted w (a_source e)) (counted l)). unfold arrivals_of in *.
    destruct (decide (ls_window s0 = w)) as [E|E].
    - rewrite (bool_decide_eq_false_2 (ls_window s0 <> w)) by auto. rewrite E in Hc0. rewrite Z.mod_small by lia. lia.
    - rewrite (bool_decide_eq_true_2 (ls_window s0 <> w)) by done. cbn [ls_counts]. rewrite lookup_empty.
      change ((default 0 None + 1) mod 2 ^ 32)%Z with 1%Z. lia. }
  assert (Ep1 : p.1 = mkLimiter limit (<[shard_index hash_one (a_source e) := mkLimitShard w (<[a_source e := c]> (ls_counts s1))]>
    (rl_shards (limiter l))) d) by (unfold p; by rewrite Ep).
  assert (Ep2 : p.2 = bool_decide (c <= limit)%Z) by (unfold p; by rewrite Ep). clearbody p.
  assert (Hnot : forall f : Listener -> bool, f (LetIn w e) = false -> f Waiting = false ->
    f (if p.2 then LetIn w e else Waiting) = false) by (by destruct p.2).
  split; cbn [limiter threads seconds counted].
  - by rewrite Ep1.
  - intros j w' e'. rewrite list_lookup_insert_Some. intros [(_ & Hx & _)|[_ ?]]; [by destruct p.2|by eapply I2].
  - intros source. destruct (I3 source) as (s & Es & Hw & Hc & Hok). rewrite Ep1. cbn [rl_shards].
    destruct (decide (shard_index hash_one (a_source e) = shard_index hash_one source)) as [Ek|Ek].
    + rewrite Ek, lookup_insert_eq. rewrite <- Ek, E0 in Es. injection Es as <-. eexists. split; [done|].
      cbn [ls_window ls_counts]. split_and!; [by eapply I2| | |].
      * destruct (decide (a_source e = source)) as [<-|Hne]; [rewrite lookup_insert_eq; change (default 0%Z (Some c)) with c; lia|].
        rewrite lookup_insert_ne by done. unfold s1. destruct (bool_decide (ls_window s0 <> w)); cbn [ls_counts]; [by rewrite lookup_empty|lia].
      * unfold arrivals_of. cbn [counted]. rewrite arrivals_cons. unfold was_counted at 1. cbn [fst].
        pose proof (tally_range (was_counted w source) (counted l)) as Htr. unfold arrivals_of in *.
        destruct (decide (a_source e = source)) as [<-|Hne].
        -- rewrite lookup_insert_eq, bool_decide_eq_true_2 by done. change (default 0%Z (Some c)) with c. cbn [one]. lia.
        -- rewrite lookup_insert_ne, bool_decide_eq_false_2 by congruence. cbn [one]. unfold s1.
           destruct (decide (ls_window s0 = w)) as [E|E].
           ++ rewrite (bool_decide_eq_false_2 (ls_window s0 <> w)) by auto. rewrite E in Hc. lia.
           ++ rewrite (bool_decide_eq_true_2 (ls_window s0 <> w)) by done. cbn [ls_counts]. rewrite lookup_empty.
              change (default 0%Z None) with 0%Z. lia.
      * intros w'. eapply count_ok; [done|done|by eapply I2|lia|done|done|done].
    + rewrite lookup_insert_ne by done. exists s. assert (Hne : a_source e <> source) by congruence.
      split_and!; [done|done|lia| |].
      * unfold arrivals_of. cbn [counted]. rewrite arrivals_cons. pose proof (proj2 Hc).
        unfold one. destruct (was_counted _ _ (_, _)); unfold arrivals_of in *; lia.
      * intros w'. apply (second_ok_mono l); [done|done|cbn [threads]; by rewrite length_insert| | | |exact (Hok w')]; cbn [threads].
        -- unfold let_in_of. cbn [counted]. rewrite tally_cons. unfold was_let_in at 1, was_counted. cbn [fst snd].
           by rewrite bool_decide_eq_false_2 by congruence.
        -- intros _. rewrite (tally_insert _ _ _ _ _ Hi), Hnot by done. unfold one. destruct (holds_before _ _); lia.
        -- intros _. rewrite (tally_insert _ _ _ _ _ Hi), Hnot by done. unfold one. destruct (holds_at _ _); lia.
  - intros w' source Hin. unfold arrivals_of. cbn [counted]. rewrite arrivals_cons. apply elem_of_cons in Hin as [Hin|Hin].
    + injection Hin as -> -> Hp. unfold was_counted. cbn [fst]. rewrite bool_decide_eq_true_2 by done. cbn [one].
      rewrite Ep2 in Hp. symmetry in Hp. apply bool_decide_eq_false in Hp. lia.
    + specialize (I4 _ _ Hin). unfold one. destruct (was_counted _ _ _); lia.
  - intros w' source. specialize (I5 w' source). unfold replies_of, let_in_of in *. cbn [sent threads counted].
    rewrite (tally_insert _ _ _ _ _ Hi), tally_cons. cbn [holds_reply]. unfold was_let_in at 1, was_counted. cbn [fst snd].
    destruct p.2; cbn [holds_reply]; [rewrite andb_true_r|rewrite andb_false_r]; cbn [one]; lia.
Qed.

Lemma listener_step_inv l s l' :
  (0 < limit)%Z -> (Z.of_nat (length (counted l)) < 2 ^ 32 - 1)%Z -> listeners_inv l -> lstep l s = Some l' -> listeners_inv l'.
Proof.
  intros Hl Hlen Hinv. destruct s as [|i e|i|i now]; cbn [listen_step].
  - intros [= <-]. destruct Hinv as [I1 I2 I3 I4 I5]. split; cbn [limiter threads seconds counted]; try done.
    + intros i w e Hi. specialize (I2 i w e Hi). lia.
    + intros source. destruct (I3 source) as (s & Es & Hw & Hc & Hok). exists s. split_and!; [done|lia|lia|apply Hc|].
      intros w. apply tick_ok; [done|lia|done].
  - destruct (threads l !! i) as [[| |]|] eqn:Ei; try done. intros [= <-].
    eapply moved_inv; [done|done|exact Ei|done|eauto|]. intros w source. cbn. lia.
  - destruct (threads l !! i) as [[|w e|]|] eqn:Ei; try done. intros [= <-]. by apply count_inv.
  - destruct (threads l !! i) as [[| |w e]|] eqn:Ei; try done. intros [= <-].
    eapply moved_inv; [done|done|exact Ei|done|by left|]. intros w' source. cbn [holds_reply].
    destruct (answer_arrival _ _ _ _ _ _ _).2; [|unfold one; destruct (bool_decide _); lia].
    rewrite tally_cons. unfold went_to at 1. cbn [fst snd]. lia.
Qed.

Lemma run_snoc l ss s : lrun l (ss ++ [s]) = lrun l ss ≫= fun l' => lstep l' s.
Proof. unfold run_listeners. by rewrite foldl_app. Qed.

Lemma step_counted l s l' : lstep l s = Some l' ->
  length (threads l') = length (threads l)
  /\ (counted l' = counted l /\ limiter l' = limiter l
      \/ exists w source, let p := allow hash_one (limiter l) w source in
           counted l' = (w, source, p.2) :: counted l /\ limiter l' = p.1).
Proof.
  destruct s as [|i e|i|i now]; cbn [listen_step]; [by intros [= <-]; eauto|..];
    destruct (threads l !! i) as [[| |]|]; try done; intros [= <-]; cbn [threads counted limiter];
    rewrite length_insert; eauto 6.
Qed.

Lemma run_length l ss l' : lrun l ss = Some l' ->
  length (counted l') <= length (counted l) + length ss /\ length (threads l') = length (threads l).
Proof.
  revert l'. induction ss as [|s ss IH] using rev_ind; intros l'; [intros [= <-]; cbn; lia|].
  rewrite run_snoc. intros (l1 & R1 & R2)%bind_Some. destruct (IH _ R1) as [A B]. rewrite length_app. cbn [length].
  destruct (step_counted _ _ _ R2) as [E [[-> _]|(w & source & -> & _)]]; cbn [length]; lia.
Qed.

Lemma run_inv n db ss l :
  (0 < limit)%Z -> (Z.of_nat (length ss) < 2 ^ 32)%Z -> lrun (spawn_listeners n limit db) ss = Some l -> listeners_inv l.
Proof.
  intros Hl. revert l. induction ss as [|s ss IH] using rev_ind; intros l Hlen; [intros [= <-]; by apply spawn_inv|].
  rewrite length_app in Hlen. cbn [length] in Hlen. rewrite run_snoc. intros (l1 & R1 & R2)%bind_Some.
  eapply listener_step_inv; [done| |apply IH; [lia|exact R1]|exact R2].
  apply run_length in R1 as [R1 _]. cbn [counted spawn_listeners length] in R1. lia.
Qed.

(** In the order of the clock the limiter is exact. *)
Lemma run_chronological n db ss l w source :
  (0 < limit)%Z -> (Z.of_nat (length ss) < 2 ^ 32)%Z -> lrun (spawn_listeners n limit db) ss = Some l ->
  limiter l = run_limiter hash_one limit (reverse (counted l).*1)
  /\ (chronological (reverse (counted l).*1) ->
      let_in_of w source l <= Z.min (Z.of_nat (asked (reverse (counted l).*1) w source)) limit)%Z.
Proof.
  intros Hl. revert l. induction ss as [|s ss IH] using rev_ind; intros l Hlen; [intros [= <-]; split; [done|intros _; change (0 <= Z.min 0 limit)%Z; lia]|].
  rewrite length_app in Hlen. cbn [length] in Hlen. rewrite run_snoc. intros (l1 & R1 & R2)%bind_Some.
  destruct (IH l1 ltac:(lia) R1) as [Q1 Q2]. pose proof (proj1 (run_length _ _ _ R1)) as Q3. cbn in Q3.
  destruct (step_counted _ _ _ R2) as [_ [[Ec El]|(w0 & s0 & Ec & El)]].
  { unfold let_in_of in *. by rewrite Ec, El. }
  unfold let_in_of. rewrite Ec, El. rewrite !fmap_cons, !reverse_cons. split.
  { unfold run_limiter. by rewrite foldl_app, Q1. }
  intros Hch. rewrite tally_cons, asked_snoc. destruct (chronological_snoc _ _ _ Hch) as [Hch1 _].
  specialize (Q2 Hch1). unfold let_in_of in Q2.
  destruct (allow_spec hash_one limit _ _ w0 s0 ltac:(lia) (run_limiter_inv hash_one limit _ ltac:(lia) Hch1 ltac:(rewrite length_reverse, length_fmap; lia))
    Hch ltac:(rewrite length_reverse, length_fmap; lia)) as [Ha _].
  rewrite <- Q1 in Ha. unfold was_let_in at 1, was_counted. cbn [fst snd]. rewrite Ha.
  destruct (decide ((w0, s0) = (w, source))) as [Ek|Ek].
  - rewrite (bool_decide_eq_true_2 _ Ek). injection Ek as -> ->. cbn [andb]. case_bool_decide; cbn [one]; lia.
  - rewrite (bool_decide_eq_false_2 _ Ek). cbn [andb one]. lia.
Qed.

(** What went out came of what was let in. *)
Lemma sent_answered ss l l0 w e b :
  lrun l0 ss = Some l -> sent l0 = [] -> (w, e, b) ∈ sent l ->
  exists now db, (answer_arrival base32_decode digest32 disk responder now db e).2 = Some b.
Proof.
  intros Hrun Hnil. revert l Hrun. induction ss as [|s ss IH] using rev_ind; intros l.
  { intros [= <-]. rewrite Hnil. by intros ?%not_elem_of_nil. }
  rewrite run_snoc. intros (l1 & R1 & R2)%bind_Some. specialize (IH l1 R1).
  destruct s as [|i e0|i|i now]; cbn [listen_step] in R2; [by injection R2 as <-|..];
    destruct (threads l1 !! i) as [[| |]|]; try done; injection R2 as <-; cbn [sent]; [done..|].
  destruct (answer_arrival _ _ _ _ now _ _).2 eqn:Ea; [|done].
  intros [Hx|?]%elem_of_cons; [|auto]. injection Hx as -> -> ->. eauto.
Qed.
End Stepping.
End Bounding.

(** A wire format that writes headers and the strings of TXT records, and reads
    what follows a header as a name of one label. *)
Definition plain_header (m : Message) : list N :=
  u16_to_be_bytes (msg_id m) ++ [if msg_truncated m then 130 else 128]%N ++ replicate 9 0%N.
Definition plain_strings (m : Message) : list N :=
  mjoin ((fun a => match rdata a with RTXT t => mjoin t | _ => [] end) <$> answers (msg_body m)).
Definition plain_wire : Wire := {|
  from_bytes b := match b with
                  | hi :: lo :: flags :: rest =>
                      Some (mkIncoming (128 <=? flags)%N None (u16_from_be_bytes hi lo)
                              (mkRequest OpQuery [mkQuery [drop 9 rest] TypeTXT ClassIN]))
                  | _ => None
                  end;
  to_vec m := let b := plain_header m ++ plain_strings m in
              if bool_decide (Z.of_nat (length b) < 2 ^ 16)%Z then Some b else None;
  truncate_message m := mkMessage (msg_id m) true (mkResponse (response_code (msg_body m)) (echoed (msg_body m)) [] []);
|}.

Lemma plain_laws : @WireLaws plain_wire.
Proof.
  split; cbn [to_vec from_bytes truncate_message plain_wire]; intros m b.
  - case_bool_decide; [|done]. by intros [= <-].
  - case_bool_decide; [|done]. intros [= <-]. eexists. split; [done|]. cbn [in_response]. by destruct (msg_truncated m).
  - intros _. case_bool_decide; [|done]. intros [= <-]. unfold plain_strings. cbn. lia.
Qed.

Lemma sum_bounded {A} (f : A -> nat) (k : nat) (l : list A) :
  (forall x, x ∈ l -> f x <= k) -> sum_list_with f l <= length l * k.
Proof.
  induction l as [|x l IH]; intros Hf; [done|]. cbn [sum_list_with length].
  specialize (IH ltac:(intros; apply Hf; by right)). specialize (Hf x ltac:(left)). lia.
Qed.

Lemma filter_and_le {A} (P Q : A -> Prop) `{!forall x, Decision (P x)} `{!forall x, Decision (Q x)} l :
  length (filter (fun x => P x /\ Q x) l) <= length (filter P l).
Proof. induction l as [|x l IH]; [done|]. rewrite !filter_cons. repeat case_decide; cbn [length]; tauto || lia. Qed.

(** C35: what an address can make the server send is bounded, whatever the order
    in which the listener threads, [max n 1] over UDP and one over TCP, receive,
    read the clock, count and answer.  In any second an address gets at most
    [(T + 1) * limit + T] replies, [T] being the number of threads, and at most
    1232 bytes for each of them over UDP, whatever payload it advertised; it gets
    at most [limit] when the arrivals were counted in the order of the clock; an
    address that asked no more than [limit] times in a second is never turned
    away in it; and a datagram sent by this server is answered by nobody running
    it, so two cannot be made to answer each other.  The limit is not 0, which
    means none, and fewer than 2^32 steps are taken, the counters being 32 bits
    wide. *)
Theorem dns_replies_bounded `{HashOrder} `{DnsNames} `{WireLaws} b32 digest32 disk hash_one r n limit db ss l :
  (0 < limit)%Z -> (Z.of_nat (length ss) < 2 ^ 32)%Z ->
  run_listeners b32 digest32 disk hash_one r (spawn_listeners n limit db) ss = Some l ->
  let T := Z.of_nat (Nat.max n 1 + 1) in
  (forall w source,
     (replies_of w source l <= (T + 1) * limit + T)%Z
     /\ (datagram_bytes w source l <= ((T + 1) * limit + T) * 1232)%Z
     /\ (chronological (reverse (counted l).*1) -> replies_of w source l <= limit)%Z
     /\ ((w, source, false) ∈ counted l -> limit < arrivals_of w source l)%Z)
  /\ (forall w e b, (w, e, b) ∈ sent l -> is_datagram (a_load e) = true ->
        forall r' now db', udp_answer b32 digest32 disk r' now db' b = (db', None)).
Proof.
  intros Hl Hlen Hrun T.
  pose proof (run_inv hash_one limit b32 digest32 disk r n db ss l Hl Hlen Hrun) as [I1 I2 I3 I4 I5].
  assert (HT : Z.of_nat (length (threads l)) = T).
  { destruct (run_length hash_one b32 digest32 disk r _ _ _ Hrun) as [_ ->]. unfold T. cbn [spawn_listeners threads].
    by rewrite length_replicate. }
  assert (Hdgram : forall w e b, (w, e, b) ∈ sent l -> is_datagram (a_load e) = true ->
    length b <= MAX_UDP_LIMIT /\ exists m, to_vec m = Some b).
  { intros w e b Hin Hd. destruct (sent_answered hash_one b32 digest32 disk r ss l _ w e b Hrun eq_refl Hin) as (now & db' & Ha).
    unfold answer_arrival in Ha. destruct (a_load e); [|done].
    split; [by eapply udp_answer_short|]. unfold udp_answer in Ha. cbn [snd] in Ha.
    destruct (handle _ _ _ _ _ _ _).2; [|done]. by eapply encode_written. }
  split.
  - intros w source. assert (Hrep : (replies_of w source l <= (T + 1) * limit + T)%Z).
    { specialize (I5 w source). pose proof (tally_range (holds_reply w source) (threads l)).
      destruct (I3 source) as (s & _ & _ & Hc & Hok). destruct (Hok w) as (K1 & K2 & K3). rewrite HT in K2, K3.
      pose proof (tally_range (holds_before w) (threads l)). pose proof (tally_range (holds_at w) (threads l)).
      pose proof (room_range limit s w source Hl (proj1 Hc)).
      destruct (Z.lt_trichotomy (seconds l) w) as [E|[E|E]]; [rewrite (K1 E) in I5|specialize (K2 E)|specialize (K3 E)]; nia. }
    split_and!; [done| | |apply I4].
    + unfold datagram_bytes. set (out := filter _ (sent l)).
      assert (Hb : sum_list_with (fun x => length x.2) out <= length out * MAX_UDP_LIMIT).
      { apply sum_bounded. intros [[w' e] b] [[_ Hd] Hin]%list_elem_of_filter. by eapply Hdgram. }
      assert (Ho : (Z.of_nat (length out) <= replies_of w source l)%Z).
      { apply inj_le. unfold out. apply filter_and_le. }
      unfold MAX_UDP_LIMIT in Hb. nia.
    + intros Hch. specialize (I5 w source). pose proof (tally_range (holds_reply w source) (threads l)).
      pose proof (proj2 (run_chronological hash_one limit b32 digest32 disk r n db ss l w source Hl Hlen Hrun) Hch). lia.
  - intros w e b Hin Hd r' now db'. destruct (Hdgram _ _ _ Hin Hd) as (Hs & m & Hm).
    unfold udp_answer. rewrite take_ge by (unfold MAX_UDP_LIMIT, UDP_BUFFER in *; lia).
    by rewrite (response_dropped _ _ _ _ _ _ _ _ Hm).
Qed.

Definition demo_datagram : list N := [7; 9; 1; 0; 0; 0; 0; 0; 0; 0; 0; 0; 97]%N.
Definition demo_arrival : Arrival := mkArrival (lit "10.0.0.1") (Datagram demo_datagram).

(** Two datagrams in one second under a limit of one: the second is dropped. *)
Lemma dns_replies_bounded_witness :
  let C := chrono_10000y in let O := some_order in let N := rfc_names in let W := plain_wire in
  let start := spawn_listeners 1 1 demo_db in
  let ss := [Receive 0 demo_arrival; CountIt 0; AnswerIt 0 (100 * NANOS); Receive 0 demo_arrival; CountIt 0] in
  exists l, run_listeners letters_decode (fun _ => 7%N) ∅ (fun s => length s) demo_responder start ss = Some l
    /\ counted l = [(0%Z, lit "10.0.0.1", false); (0%Z, lit "10.0.0.1", true)]
    /\ snd <$> sent l = [[7; 9; 128; 0; 0; 0; 0; 0; 0; 0; 0; 0]%N]
    /\ (datagram_bytes 0 (lit "10.0.0.1") l <= 5 * 1232)%Z.
Proof.
  intros C O N W start ss. pose proof plain_laws as L.
  destruct (run_listeners letters_decode (fun _ => 7%N) ∅ (fun s => length s) demo_responder start ss) as [l|] eqn:E;
    [|by vm_compute in E].
  exists l. split; [done|].
  pose proof (proj1 (proj2 (proj1 (dns_replies_bounded letters_decode (fun _ => 7%N) ∅ (fun s => length s) demo_responder
    1 1 demo_db ss l ltac:(done) ltac:(done) E) 0%Z (lit "10.0.0.1")))) as Hb.
  split_and!; [| |exact Hb]; vm_compute in E; injection E as <-; reflexivity.
Defined.

(** With two threads the limit itself is not kept: a thread that read the clock
    just before the second turned and gets the lock just after it sets the
    shard's window back and forgets what was counted, and the next arrival
    forgets it again.  Here an address is let in twice in a second with a limit
    of one. *)
Theorem limiter_window_set_back :
  let C := chrono_10000y in let O := some_order in let N := rfc_names in let W := plain_wire in
  let source := lit "10.0.0.1" in
  counted <$> run_listeners letters_decode (fun _ => 7%N) ∅ (fun s => length s) demo_responder (spawn_listeners 1 1 demo_db)
    [Receive 0 demo_arrival; Tick; Receive 1 demo_arrival; CountIt 1; CountIt 0; AnswerIt 1 (100 * NANOS);
     Receive 1 demo_arrival; CountIt 1]
  = Some [(1%Z, source, true); (0%Z, source, true); (1%Z, source, true)].
Proof. by vm_compute. Qed.


(** ** Over TCP *)
Definition framed (b : list N) : list N := u16_to_be_bytes (N.of_nat (length b)) ++ b.

Lemma framed_length n : (n < 2 ^ 16)%N ->
  exists hi lo, u16_to_be_bytes n = [hi; lo] /\ u16_from_be_bytes hi lo = n.
Proof.
  intros Hn. eexists _, _. split; [done|]. unfold u16_from_be_bytes.
  rewrite (N.mod_small (n / 256)) by (apply N.Div0.div_lt_upper_bound; lia). pose proof (N.div_mod n 256). lia.
Qed.

(** A connection that frames a query of up to 8192 bytes is answered with the
    whole reply, framed, whatever its length and whatever follows the query; one
    that frames an empty or a longer one is not answered, nor is one that stops
    early. *)
Theorem tcp_exchange `{HashOrder} `{DnsNames} `{WireLaws} b32 digest32 disk r now db q rest :
  (Z.of_nat (length q) < 2 ^ 16)%Z ->
  serve_tcp b32 digest32 disk r now db (framed q ++ rest)
  = (if bool_decide (0 < Z.of_nat (length q) <= 8192)%Z
     then let h := handle b32 digest32 disk r now db q in
          (h.1, match h.2 with None => None | Some response => framed <$> to_vec (message response) end)
     else (db, None))
  /\ forall n, n < length (framed q) -> serve_tcp b32 digest32 disk r now db (take n (framed q)) = (db, None).
Proof.
  intros Hq. unfold framed, serve_tcp.
  destruct (framed_length (N.of_nat (length q))) as (hi & lo & -> & Hn); [lia|]. split.
  - cbn [app read_exact length Nat.leb take drop]. rewrite Hn.
    destruct (bool_decide_reflect (N.of_nat (length q) = 0 \/ 8192 < N.of_nat (length q))%N).
    { rewrite bool_decide_eq_false_2 by lia. done. }
    rewrite bool_decide_eq_true_2 by lia. rewrite take_0, drop_0. unfold read_exact.
    rewrite Nat2N.id, (proj2 (Nat.leb_le (length q) (length (q ++ rest)))) by (rewrite length_app; lia).
    rewrite take_app_length. cbn zeta. f_equal. destruct (handle _ _ _ _ _ _ _).2 as [h|]; [|done].
    destruct (to_vec (message h)) as [b|] eqn:Eb.
    + rewrite (proj2 (encode_whole _ _) Eb). cbn [fmap option_fmap option_map]. apply wire_u16 in Eb.
      by rewrite N.mod_small by lia.
    + destruct (encode (message h) USIZE_MAX) eqn:E; [|done]. apply encode_whole in E. congruence.
  - intros n Hlt. cbn [app length] in Hlt. destruct n as [|[|n]]; [done|done|].
    cbn [app take read_exact length Nat.leb drop]. rewrite Hn. case_bool_decide; [done|].
    rewrite take_0, drop_0. unfold read_exact.
    rewrite Nat2N.id, (proj2 (Nat.leb_gt (length q) (length (take n q)))); [done|]. rewrite length_take. lia.
Qed.
