(* ===== verification/Losses.v ===== *)
(** * Ways a sighting can be lost

    The theorems of [System] keep shards at risk away from evictions, start on an
    empty directory or from shard files, and let an eviction run alone.  This
    file shows that each of these is needed: what the code of
    [src/src/persistence.rs] and [src/src/db.rs] does without it, for any
    database first, then on concrete runs. *)

From stdpp Require Import base numbers list strings gmap sorting relations.
From S2P Require Import Prelude Activity Latest Attribute AttributeFacts Convergence Paths Tier Namespace Disk Database Persistence Contents Refine Eviction Service Accounted System.

(** ** What a drop leaves *)
Section Dropping.
Context `{Chrono} `{HashOrder} (digest32 : str -> N).

(** What a file holds of a namespace in the catalogue of its shard. *)
Definition left_on_disk (disk : Disk) (nd : str) (m : ShardMeta) (n : str) : option NsData :=
  if bool_decide (n ∈ meta_namespaces m) then
    match read_shard_file digest32 disk (shard_of n) with
    | inl data => file_content nd data n
    | inr _ => None
    end
  else None.

(** With no namespace held the shard goes, its mark with it, and what is left of
    it is what its file says. *)
Lemma dropped_content disk db s m :
  shards db !! s = Some m ->
  let r := evict_drop ∅ db s in
  r.2 = true /\ dirty r.1 = dirty db ∖ {[s]}
  /\ forall n, shard_of n = s -> content digest32 disk r.1 n = left_on_disk disk (node db) m n.
Proof.
  intros Hm r. unfold r, evict_drop, drop_shard. cbn [namespaces with_dirty with_namespaces shards].
  replace (existsb _ _) with false.
  2: { symmetry. apply not_true_iff_false. intros (x & _ & Hx)%existsb_exists. apply bool_decide_eq_true in Hx.
       by apply elem_of_empty in Hx. }
  rewrite Hm. cbn [fst snd]. split_and!; [done|done|]. intros n Hn. unfold content, catalogued, left_on_disk.
  cbn [namespaces shards with_shards with_namespaces node]. rewrite foldl_delete_filter, decide_True by done.
  rewrite Hn, lookup_insert_eq. cbn [resident meta_namespaces negb andb]. done.
Qed.

(** ** A save that fails half way *)
Lemma save_loop_fails_at fails all wd l1 f l2 db disk r :
  (forall y, y ∈ l1 -> writes all wd y = true -> fails (ShardTarget y) = false) ->
  writes all wd f = true -> fails (ShardTarget f) = true ->
  save_loop digest32 fails all wd (l1 ++ f :: l2) db disk r
  = (mark_shard_dirty db f, saved_files digest32 all wd db disk l1, None).
Proof.
  assert (Hw : forall y, negb all && negb (bool_decide (y ∈ wd)) = negb (writes all wd y))
    by (intros; unfold writes; by rewrite negb_orb).
  intros Hl Hwf Hf. revert disk r. induction l1 as [|y l1 IH]; intros disk r; cbn [app save_loop]; rewrite Hw.
  - rewrite Hwf. cbn [negb]. unfold write_shard. by rewrite Hf.
  - unfold saved_files. cbn [foldl]. rewrite Hw. fold (saved_files digest32 all wd db).
    destruct (writes all wd y) eqn:Ey; cbn [negb]; [|apply IH; intros; apply Hl; [by right|done]].
    unfold write_shard. rewrite Hl by (done || left). apply IH. intros; apply Hl; [by right|done].
Qed.
End Dropping.

(** C39: one failing shard takes the others' marks with it.  Let a save, of any
    database whose shards do not share files, write its shards in the order
    [l1 ++ f :: l2] and fail at [f].  Nothing changes in memory and the save
    reports an error; [f] is the only shard still marked; of every shard after it
    the file is what it was, marked before or not; and when such a shard, with no
    namespace held, is evicted next, nothing is written and what is left of its
    namespaces is what the old file says: every sighting since the last save is
    gone. *)
Theorem failed_save_loses_marks `{Chrono, HashOrder} digest32 fails db d all abs l1 f l2 x :
  implements digest32 (shard_files d) db abs -> files_distinct digest32 db ->
  hash_elems (present_shards db) = l1 ++ f :: l2 -> x ∈ l2 ->
  (forall y, y ∈ l1 -> writes all (dirty db) y = true -> fails (ShardTarget y) = false) ->
  writes all (dirty db) f = true -> fails (ShardTarget f) = true ->
  let r := save digest32 fails db d all in
  r.2 = None /\ namespaces r.1.1 = namespaces db /\ dirty r.1.1 = {[f]} /\ x ∉ dirty r.1.1
  /\ read_shard_file digest32 (shard_files r.1.2) x = read_shard_file digest32 (shard_files d) x
  /\ exists m, shards db !! x = Some m /\ forall fails' rep,
       let e := evict_one digest32 fails' ∅ (r.1.1, shard_files r.1.2, rep) x in
       e.1.2 = shard_files r.1.2
       /\ forall n, shard_of n = x -> content digest32 e.1.2 e.1.1 n = left_on_disk digest32 (shard_files d) (node db) m n.
Proof.
  intros Himp Hfd Hl Hx Hl1 Hwf Hf r.
  assert (Hpres : forall y, y ∈ l1 ++ f :: l2 -> is_Some (shards db !! y)).
  { intros y. rewrite <- Hl, elem_of_hash_elems. intros (n & Hn & <-)%elem_of_present.
    destruct (inv_mem _ _ _ (proj1 Himp) n Hn) as (m & Hm & _). eauto. }
  pose proof (hash_elems_NoDup (present_shards db)) as Hnd. rewrite Hl in Hnd.
  apply NoDup_app in Hnd as (_ & Hdis & [Hf2 _]%NoDup_cons).
  assert (Hxf : x <> f) by (by intros ->). assert (Hx1 : x ∉ l1) by (intros Hx1; apply (Hdis x Hx1); by right).
  assert (Er : r = (mark_shard_dirty (with_dirty db ∅) f,
    with_shard_files d (saved_files digest32 all (dirty db) (with_dirty db ∅) (shard_files d) l1), None)).
  { unfold r, save, take_dirty. by rewrite Hl, save_loop_fails_at. }
  destruct (Hpres x) as [m Hm]; [apply elem_of_app; right; by right|].
  assert (Hread : read_shard_file digest32 (shard_files r.1.2) x = read_shard_file digest32 (shard_files d) x).
  { rewrite Er. cbn [fst snd shard_files with_shard_files].
    rewrite (saved_files_read _ _ _ _ _ _ _ (fun y => is_Some (shards db !! y))).
    - by rewrite bool_decide_eq_false_2.
    - exact Hfd.
    - intros y Hy. apply Hpres, elem_of_app. by left.
    - eauto. }
  assert (Hd : dirty r.1.1 = {[f]}) by (rewrite Er; cbn; set_solver).
  assert (Hxd : x ∉ dirty r.1.1) by (rewrite Hd; by rewrite elem_of_singleton).
  split_and!; [by rewrite Er|by rewrite Er|done|done|done|]. exists m. split; [done|]. intros fails' rep.
  unfold evict_one, evict_save. rewrite bool_decide_eq_false_2 by done. cbn [fst snd]. split; [done|]. intros n Hn.
  assert (Hmr : shards r.1.1 !! x = Some m) by (rewrite Er; exact Hm).
  destruct (dropped_content digest32 (shard_files r.1.2) r.1.1 x m Hmr) as (_ & _ & Hcont). rewrite Hcont by done.
  unfold left_on_disk. rewrite Hn, Hread. by rewrite Er.
Qed.

(** ** A write between an eviction's save and its drop *)
Lemma a_write_keeps abs self nd path v w t keep tgs cons n :
  is_Some (abs !! n) -> is_Some (a_write abs self nd path v w t keep tgs cons !! n).
Proof.
  intros Hn. unfold a_write, a_record, a_update. destruct (_ && _); rewrite !lookup_insert_is_Some'; auto.
Qed.

(** C40: a write between the two halves of an eviction is lost.  Take any database
    whose unmarked resident shards, those of [risk] apart, are on disk and do not
    share files, and an eviction that has done the first half of a candidate,
    writing it if it was marked.  A client's write to that shard that is accepted
    now is acknowledged with the count it should have; if no namespace of the
    shard is held any more when the second half runs, the shard is dropped and no
    longer marked, and every namespace of it reads as it did before the write. *)
Theorem evict_race_loses `{Chrono, HashOrder} digest32 fails risk db disk disk1 abs s m now origin ns v w t tgs :
  implements digest32 disk db abs -> clean digest32 risk disk db -> files_distinct digest32 db -> safe_to_evict risk db s ->
  shards db !! s = Some m -> resident m = true -> s <> INTERNAL_SHARD ->
  evict_save digest32 fails db disk s = Some disk1 ->
  opt_u64 t -> is_u64 (shadow_ttl (policy db)) -> plausible (default now w) -> check db ns v = None -> shard_of ns = s ->
  let r := client_write digest32 disk1 now db origin ns v w t tgs in
  let e := evict_drop ∅ r.1 s in
  r.2 = inl (mkWritten (u64_add (count (default (new v) (a_values abs ns !! v))) 1) (a_absent abs ns v))
  /\ e.2 = true /\ s ∉ dirty e.1
  /\ forall n, shard_of n = s -> content digest32 disk1 e.1 n = content digest32 disk db n.
Proof.
  intros Himp Hcl Hfd Hsafe Hm Hres Hint Hsave Ht Hsh Hw Hck Hns r e.
  destruct (evict_save_spec digest32 fails risk db disk disk1 abs s m Himp Hcl Hfd Hsafe Hm Hres Hint Hsave)
    as (Himp1 & (data & Hr & Hok & Hc & _) & _).
  destruct (client_write_accepted digest32 disk1 now db abs origin ns v w t tgs Himp1 Ht Hsh Hw Hck)
    as (I1 & En & _ & _ & T & _ & _ & I2). fold r in I1, En, T, I2.
  assert (Hres' : shard_resident r.1 s = true).
  { apply (t_stays _ _ _ T). unfold shard_resident. by rewrite Hm. }
  unfold shard_resident in Hres'. destruct (shards r.1 !! s) as [m'|] eqn:Hm'; [|done].
  destruct (dropped_content digest32 disk1 r.1 s m' Hm') as (D1 & D2 & D3). fold e in D1, D2, D3.
  split_and!; [done|done|rewrite D2; set_solver|]. intros n Hn. rewrite D3 by done.
  specialize (Hc n Hn). unfold left_on_disk. rewrite Hn, Hr, En, Hc.
  assert (Hold : content digest32 disk db n = mem_content db n).
  { unfold content, mem_content, catalogued. rewrite Hn, Hm, Hres. by destruct (namespaces db !! n). }
  rewrite Hold. destruct (mem_content db n) as [vs|] eqn:Ev; [|by destruct (bool_decide _)].
  rewrite bool_decide_eq_true_2; [done|].
  assert (Hin : is_Some (content digest32 disk1 r.1 n)).
  { rewrite (proj2 I1). apply a_write_keeps. rewrite <- (proj2 Himp), Hold. eauto. }
  unfold content, catalogued in Hin. rewrite Hn, Hm', Hres' in Hin. cbn [negb andb] in Hin.
  destruct (namespaces r.1 !! n) as [x|] eqn:Ex; [|by destruct Hin].
  destruct (inv_mem _ _ _ (proj1 I1) n ltac:(eauto)) as (m2 & Hm2 & _ & Hmem). rewrite Hn, Hm' in Hm2. by injection Hm2 as <-.
Qed.

(** The smallest server that evicts: everything cold, everything stored. *)
Definition cold_policy : TierPolicy := mkTierPolicy Cold ∅ 3600.
Definition cold_db : Database :=
  attach_store (with_node (mkPolicy 0 0) store_everything (lit "n1")) (mkStore (lit "db") 3) cold_policy.
Definition digest7 : str -> N := fun _ => 7%N.

Section Losses.
Local Instance loss_chrono : Chrono := chrono_10000y.
Local Instance loss_order : HashOrder := some_order.

Definition put_at (disk : Disk) (db : Database) (ns : str) : Database :=
  (client_write digest7 disk (100 * NANOS) db None ns (lit "x") None None []).1.
Definition seen (disk : Disk) (db : Database) (ns : str) : Z := (count_in digest7 disk (100 * NANOS) db ns (lit "x")).2.

(** ** The two losses, on a server with two shards marked *)
Definition loss_names : gset str := {[INTERNAL_SHARD; lit "a"; lit "b"]}.
Definition one_dirty : Database := put_at ∅ cold_db (lit "a/n").
Definition two_dirty : Database := put_at ∅ one_dirty (lit "b/n").
Definition fails_on (s : str) (t : Target) : bool := match t with ShardTarget x => bool_decide (x = s) | _ => false end.

Lemma loss_distinct : distinct_files digest7 loss_names.
Proof.
  intros s1 s2 H1 H2. unfold loss_names in *. repeat setoid_rewrite elem_of_union in H1. repeat setoid_rewrite elem_of_union in H2.
  repeat setoid_rewrite elem_of_singleton in H1. repeat setoid_rewrite elem_of_singleton in H2.
  destruct H1 as [[->| ->]| ->], H2 as [[->| ->]| ->]; vm_compute; congruence.
Qed.

Lemma loss_in s : bool_decide (s ∈ loss_names) = true -> s ∈ loss_names.
Proof. apply bool_decide_eq_true. Qed.

Lemma put_at_inv bound db0 abs ns :
  (Z.of_nat bound + 1 < U64_MODULUS)%Z -> sys_inv digest7 loss_names bound (mkSys db0 empty_directory) ∅ abs ->
  shard_of ns ∈ loss_names ->
  exists abs', sys_inv digest7 loss_names (2 + bound) (mkSys (put_at ∅ db0 ns) empty_directory) ∅ abs'.
Proof.
  intros Hb Hs Hn. apply (step_write digest7 loss_names (loss_in INTERNAL_SHARD eq_refl) bound (mkSys db0 empty_directory) ∅ abs
    (100 * NANOS) None ns (lit "x") None None []); [done|done|exact I|apply (plausible_whole 100)|done].
Qed.

Lemma loss_inv : exists abs abs2, sys_inv digest7 loss_names 2 (mkSys one_dirty empty_directory) ∅ abs
  /\ sys_inv digest7 loss_names 4 (mkSys two_dirty empty_directory) ∅ abs2.
Proof.
  pose proof (sys_start_inv digest7 loss_names (mkPolicy 0 0) store_everything (lit "n1") (mkStore (lit "db") 3) cold_policy
    ltac:(done)) as H0.
  destruct (put_at_inv 0 cold_db ∅ (lit "a/n") ltac:(done) H0 (loss_in (lit "a") eq_refl)) as [abs H1].
  destruct (put_at_inv 2 one_dirty abs (lit "b/n") ltac:(done) H1 (loss_in (lit "b") eq_refl)) as [abs2 H2]. eauto.
Qed.

(** The save fails at [b]; [a] was marked, was never written, is no longer marked,
    and after the next eviction its sighting is gone. *)
Lemma failed_save_loses_marks_witness :
  let r := save digest7 (fails_on (lit "b")) two_dirty empty_directory false in
  let e := evict_one digest7 (fun _ => false) ∅ (r.1.1, shard_files r.1.2, mkEvict 0 0 0) (lit "a") in
  lit "a" ∈ dirty two_dirty /\ lit "a" ∉ dirty r.1.1
  /\ seen ∅ two_dirty (lit "a/n") = 1%Z /\ content digest7 e.1.2 e.1.1 (lit "a/n") = None.
Proof.
  intros r e. destruct loss_inv as (_ & abs & _ & Hs).
  destruct (failed_save_loses_marks digest7 (fails_on (lit "b")) two_dirty empty_directory false abs [INTERNAL_SHARD] (lit "b")
    [lit "a"] (lit "a") (si_impl _ _ _ _ _ _ Hs)
    (in_U_distinct _ _ loss_distinct two_dirty (si_names _ _ _ _ _ _ Hs)) ltac:(by vm_compute)
    ltac:(by apply (bool_decide_unpack _); vm_compute) ltac:(by intros y ->%list_elem_of_singleton _) ltac:(by vm_compute) ltac:(by vm_compute))
    as (_ & _ & _ & Hd & _ & m & Hm & He).
  split_and!; [by apply (bool_decide_unpack _); vm_compute|exact Hd|by vm_compute|].
  destruct (He (fun _ => false) (mkEvict 0 0 0)) as [_ Hc]. etransitivity; [exact (Hc (lit "a/n") eq_refl)|].
  unfold left_on_disk. by destruct (bool_decide _).
Defined.

(** The second write of the value is acknowledged with a count of two, and gone. *)
Lemma evict_race_loses_witness :
  let disk1 := put_shard digest7 ∅ (lit "a") (shard_snapshot one_dirty (lit "a")) in
  let r := client_write digest7 disk1 (100 * NANOS) one_dirty None (lit "a/n") (lit "x") None None [] in
  let e := evict_drop ∅ r.1 (lit "a") in
  r.2 = inl (mkWritten 2 false) /\ content digest7 disk1 e.1 (lit "a/n") = content digest7 ∅ one_dirty (lit "a/n")
  /\ seen disk1 e.1 (lit "a/n") = 1%Z.
Proof.
  intros disk1 r e. destruct loss_inv as (abs & _ & Hs & _).
  destruct (evict_race_loses digest7 (fun _ => false) ∅ one_dirty ∅ disk1 abs (lit "a")
    (default default_meta (shards one_dirty !! lit "a")) (100 * NANOS) None (lit "a/n") (lit "x") None None []
    (si_impl _ _ _ _ _ _ Hs) (si_clean _ _ _ _ _ _ Hs) (in_U_distinct _ _ loss_distinct one_dirty (si_names _ _ _ _ _ _ Hs))
    (fun Hx => match proj1 (elem_of_empty _) Hx with end) ltac:(by vm_compute) ltac:(by vm_compute) ltac:(by vm_compute)
    ltac:(by vm_compute) I ltac:(done) (plausible_whole 100) ltac:(by vm_compute) eq_refl) as (_ & _ & _ & Hc).
  split_and!; [by vm_compute|exact (Hc (lit "a/n") eq_refl)|by vm_compute].
Defined.

(** ** A server started from a single-file snapshot *)
Definition legacy_directory : Directory :=
  mkDirectory ∅ (Some (Readable (mkSnapshot SNAPSHOT_VERSION
    {[lit "a/n" := {[lit "x" := increment (new (lit "x")) (lit "n1") (100 * NANOS) 0]}]}))) None None.

Definition opened : option Database :=
  match load legacy_directory with
  | inl (Some data) =>
      Some (attach_store (from_snapshot_as data (mkPolicy 0 0) store_everything (lit "n1") (100 * NANOS))
              (mkStore (lit "db") 3) cold_policy)
  | _ => None
  end.

(** The eviction at startup counts on nothing being dirty, but nothing of a
    single-file snapshot is in a shard file yet: the cold shard is dropped and
    its sighting can no longer be read, nor written by a later save. *)
Theorem legacy_start_loses :
  exists db, opened = Some db /\ seen (shard_files legacy_directory) db (lit "a/n") = 1%Z
  /\ let r := evict_idle digest7 (fun _ => false) ∅ db legacy_directory 9000 in
     evicted r.2 = 1
     /\ seen (shard_files r.1.2) r.1.1 (lit "a/n") = 0%Z
     /\ (let s := save digest7 (fun _ => false) r.1.1 r.1.2 true in shard_files s.1.2 = ∅).
Proof.
  eexists. split; [reflexivity|]. split; [by vm_compute|].
  split_and!; by vm_compute.
Qed.

(** ** A file that cannot be removed *)

(** Deleting the last namespace of a shard marks it, and the save that follows
    reports success whether or not the shard's file could be removed: if not, the
    namespace is back when the server restarts. *)
Theorem unremoved_file_comes_back :
  let r0 := (save digest7 (fun _ => false) one_dirty empty_directory false).1 in
  let db1 := (delete_namespace digest7 (shard_files r0.2) (100 * NANOS) r0.1 (lit "a/n")).1 in
  let keeps t := match t with StaleTarget _ => true | _ => false end in
  let r1 := save digest7 keeps db1 r0.2 false in
  bool_decide (is_Some (namespaces db1 !! lit "a/n")) = false /\ bool_decide (is_Some r1.2) = true
  /\ (match load r1.1.2 with
      | inl (Some data) => bool_decide (is_Some (sd_namespaces data !! lit "a/n"))
      | _ => false
      end) = true.
Proof. cbv zeta. split_and!; by vm_compute. Qed.

(** ** Consensus given back but not marked *)
Definition saved_run (db : Database) (d : Directory) (all : bool) : Database * Directory :=
  (save digest7 (fun _ => false) db d all).1.
Definition restarted (d : Directory) : option Database :=
  match load d with
  | inl (Some data) => Some (from_snapshot_as data (mkPolicy 0 0) store_everything (lit "n1") (100 * NANOS))
  | _ => None
  end.

(** Deleting a namespace lowers [_all] in memory without marking the internal
    shard: after the next periodic save, a server that restarts from its files
    still counts the deleted namespace in the value's consensus. *)
Theorem deleted_consensus_comes_back :
  let r0 := saved_run (put_at ∅ (put_at ∅ cold_db (lit "a/n")) (lit "b/n")) empty_directory true in
  let db1 := (delete_namespace digest7 (shard_files r0.2) (100 * NANOS) r0.1 (lit "a/n")).1 in
  let r1 := saved_run db1 r0.2 false in
  seen (shard_files r1.2) r1.1 ALL_NAMESPACE = 1%Z
  /\ (fun db2 => (bool_decide (is_Some (namespaces db2 !! lit "a/n")), seen (shard_files r1.2) db2 ALL_NAMESPACE))
     <$> restarted r1.2 = Some (false, 2%Z).
Proof. cbv zeta. split; by vm_compute. Qed.

(** ** A second copy that cannot listen

    [run] of [src/src/main.rs] saves everything on its way out, whether it ever
    served or not: a copy started beside a running server finds the address
    taken, and saves the database it loaded over what the other has saved
    since. *)
Definition second_copy (d : Directory) : option Database :=
  (fun db => attach_store db (mkStore (lit "db") 3) cold_policy) <$> restarted d.

(** The first server has [a/m] on disk and no longer marked; the second, started
    before that, writes its own copy of the shard over it; a restart finds
    [a/n] alone. *)
Theorem second_copy_erases :
  let r0 := saved_run (put_at ∅ cold_db (lit "a/n")) empty_directory true in
  let r1 := saved_run (put_at (shard_files r0.2) r0.1 (lit "a/m")) r0.2 false in
  let found d ns := (fun db => seen (shard_files d) db (lit ns)) <$> restarted d in
  bool_decide (lit "a" ∈ dirty r1.1) = false /\ found r1.2 "a/m"%string = Some 1%Z
  /\ (fun db => let r2 := saved_run db r1.2 true in (found r2.2 "a/n"%string, found r2.2 "a/m"%string)) <$> second_copy r0.2
     = Some (Some 1%Z, Some 0%Z).
Proof. cbv zeta. split_and!; by vm_compute. Qed.

(** ** A merge that changes nothing, of a value not held yet *)
Definition nothing_yet : Merge := as_merge (new (lit "x")).

(** Merging a copy with no sightings of a value this server does not hold
    creates the value and raises its consensus, reports that nothing changed,
    and leaves the shard unmarked. *)
Lemma empty_merge_unmarked :
  let r := merge_in digest7 ∅ (100 * NANOS) cold_db (lit "a/n") (lit "x") nothing_yet in
  changed r.2 = false /\ seen ∅ r.1 ALL_NAMESPACE = 1%Z
  /\ (view_in digest7 ∅ (100 * NANOS) r.1 (lit "a/n") (lit "x") 0 false).2 <> None
  /\ lit "a" ∉ dirty r.1.
Proof. split_and!; by vm_compute. Qed.
End Losses.
